(* ===== verification/_CoqProject ===== *)
-Q . S2P
Prelude.v
GoStd.v
Keys.v
Spans.v
BTree.v
Store.v
MultiStore.v
Crdt.v
Clock.v
MemStore.v
Values.v
DocMap.v
Connor.v
Plan.v
Aggregate.v
Group.v
Desc.v
Schema.v
Iterate.v
Fetcher.v
ClientDoc.v
DocOps.v
DocSpec.v
DocState.v
DocExamples.v
Events.v
Topics.v
Replicators.v
Sync.v
SyncExamples.v
Peer.v
PeerExamples.v
Request.v
Mapper.v
MapperSpec.v
MapperFields.v
MapperAverage.v
MapperFilter.v
RequestParser.v
RequestPrint.v
MapperExamples.v
RequestExamples.v
PlanNodes.v
Joins.v
Parallel.v
JoinExamples.v
