(* ===== verification/Prelude.v ===== *)
(** * DefraDB: a verification library for the core of the database

    DefraDB is a peer-to-peer document database.  A document is a set of fields; every
    change of a field or of a document is a delta of a CRDT, recorded as a block of a
    Merkle DAG, and replicas converge by merging each other's deltas.  All state lives
    in a key-value store that is split into namespaces.  Requests are answered by a
    tree of plan nodes that pull documents out of the store, filter, order, limit, group
    and aggregate them.

    ** The files

    - [Prelude] (this file): Go results ([Ok], [Err], [Panic]) and errors, machine
      integers with their wrap-around, byte strings and their order, lists.
    - [GoStd]: what the code uses of [strings], [strconv] and [encoding/binary].
    - [Keys] (core/key.go): the key types of the stores, their string forms and
      parsers, prefix ends, field ids.
    - [Spans] (core/data.go): spans of keys and [MergeAscending].
    - [Store] (datastore/store.go): the state-and-error monad [M], the interface
      [Datastore] of a store, its contents ([View]) and the laws of a store
      ([LawfulDatastore]); a finite map is an instance.
    - [MultiStore] (datastore/multi.go, wrappedStore.go, blockstore.go): a store under a
      prefix, the four namespaces over one root store, and the block store.
    - [Crdt] (core/crdt, core/delta.go): the last-writer-wins register and the
      composite DAG of a document, with their merges, over any lawful store.
    - [Clock] (merkle/clock, merkle/crdt): head sets, node construction, the
      processing of nodes, and the Merkle CRDTs through which a change is published.
    - [BTree]: the interface of the B-tree package that the in-memory store uses.
    - [MemStore] (datastore/memory): the multi-version in-memory store, transactions,
      batches and the purge of old versions, as atomic steps of a shared state.
    - [Values]: dynamic values, doubles ([SpecFloat]) and times.
    - [DocMap] (core/doc.go): documents of the planner, mappings and rendering.
    - [Connor] (connor, the filter keys of planner/mapper): filters.
    - [Plan] (planner/limit.go, order.go, values.go, db/container, db/base/compare.go):
      the interface of plan nodes, limits, ordering.
    - [Aggregate] (planner/count.go, sum.go, average.go): aggregates.
    - [Group] (planner/group.go, arbitrary_join.go): the join of documents by the printed
      values of the group-by fields.
    - [Desc] (client/descriptions.go, db/base/collection_keys.go): descriptions of
      collections and the keys made from them.
    - [Schema] (db/sequence.go, db/collection.go, db/schema.go): the catalog of
      collections in the system store.
    - [Iterate] (datastore/iterable, datastore/badger/v3/iterator.go): iterators over
      stores, namespaces and badger transactions.
    - [Fetcher] (db/fetcher/fetcher.go, encoded_doc.go): documents out of stored entries.
    - [ClientDoc] (client/document.go, value.go, dockey.go): documents of a client.
    - [DocOps] (db/collection.go, collection_get.go, collection_update.go,
      collection_delete.go): the operations on documents; [DocSpec] has their effects on the
      stores, [DocState] the map of documents that they implement, [DocExamples] runs.
    - [Events] (events): the event channel as a step relation, and subscriptions.
    - [Topics], [Replicators], [Peer] (net/server.go, net/peer.go, db/replicator.go,
      db/p2p_collection.go): topics, replicators and broadcasts of a peer; [PeerExamples].
    - [Sync] (net/process.go, net/dag.go, net/server.go): the processing of pushed blocks as
      a step relation over workers and handlers; [SyncExamples].
    - [Request] (client/request): requests as data, and their validation.
    - [RequestParser] (request/graphql/parser): from syntax trees to requests;
      [RequestPrint] writes requests as documents; [RequestExamples].
    - [Mapper] (planner/mapper): from requests to selects on indexes; [MapperSpec],
      [MapperFields], [MapperAverage] and [MapperFilter] have its properties;
      [MapperExamples].
    - [PlanNodes] (planner/scan.go, select.go): the contract of a plan, scans, selects.
    - [Joins] (planner/type_join.go): joins and the split of filters.
    - [Parallel] (planner/multi.go): multi scans, parallel nodes and the sources that a
      select is built of; [JoinExamples].

    A request goes from [RequestParser] through [Mapper] to the nodes of [PlanNodes],
    [Joins], [Parallel], [Aggregate], [Group] and [Plan], which read documents through
    [Fetcher].  A change goes from [ClientDoc] through [DocOps] to the CRDTs of [Clock] and
    [Crdt], is announced by [Events], sent by [Peer] and merged elsewhere by [Sync].

    ** State, effects and code outside the repository

    Stateful code runs in [M S A := S -> S * result A]: the state is passed explicitly
    and stays changed when a call fails.  Code that works on a store is polymorphic in
    the state and written against [Datastore] or [MultiStore]; its theorems are proved
    against the laws ([LawfulDatastore], [LawfulMultiStore]), which the map store and
    the prefixed stores discharge.  A specification [steps m s v r] (for a multistore
    [msteps]) says that [m] run in [s] returns [r], that the contents become [v] and
    that the rest of the state is kept.  Concurrent code is a relation between states, one
    step for what a lock or a channel makes atomic.  Between plan nodes the contract is
    [LawfulPlan]: the spans and the filter of a plan determine what it delivers; scans over a
    [LawfulFetcher], selects and joins are instances.

    Third-party code is a class with the operations and the documented laws that are
    used: ds keys ([DsKey]), CIDs ([CidOps]), the key transform of prefixed stores
    ([PrefixTransform]), block hashing ([BlockKeys]), IPLD nodes ([DagOps]), CBOR
    ([CborCodec], [CborAny], [ValueCodec]), JSON ([DescCodec], [ReplicatorCodec],
    [DocCodec]), UUIDs and multibase ([DocKeyOps]), the B-tree ([BTreeG]), the enumerable
    package ([Enumerable]), badger transactions ([BadgerTxn]), store queries
    ([QueryStore]), the pubsub network ([PubSub]) and the GraphQL schema ([GqlSchema]).
    [TxnDB] and [ReplicatorDB] are what code relies on of the database that it runs in.
    The classes that theorems use have concrete instances, at which the theorems are applied
    in the witness modules.

    ** What is shown

    - Keys: parsing inverts printing; the range of a prefix end is exact.
    - Spans: on sorted spans [MergeAscending] keeps the covered keys; three runs show
      where it departs from its comment.
    - Multistore: the namespaces are independent maps; blocks read back, and a block
      with the wrong hash is never returned when rehashing.
    - CRDTs: merging is independent of the order and multiplicity of the deltas; the
      value is that of the winning delta; deletion is final; encodings read back.
    - Clock: a local change makes one node that links to all heads and replaces them,
      with a height above theirs, and takes effect on the data; processing a remote
      node replaces the heads it knows and returns the links it does not.
    - In-memory store: an invariant over all interleavings, snapshot isolation, commit
      conflicts, refinement of a map, a terminating purge that keeps every version in
      flight; and the gaps of isolation, as concrete runs.
    - Collections: the system store implements a catalog, updates of descriptions included;
      a scan delivers the stored documents in order, each once; any sequence of operations on
      documents gives the replies of a map of documents; a creation in a transaction of its
      own is atomic.
    - Events: every subscriber gets what is published while it is subscribed, once and in
      order, in every interleaving, and in fair runs it arrives.
    - Synchronisation: every interleaving of a session ends and merges exactly the blocks
      that were missing; replicas with the same blocks hold the same document; topics,
      replicators and broadcasts do what they promise.
    - Requests: parsing inverts printing; the mapper ends, its indexes are sound, every
      average has its count and sum, and documents render as the request asks.
    - Documents, filters and plans: cells of mappings, rendering of copies, order
      independence of filters, consistency of comparisons, patterns, and what limits,
      ordering, averages and groups deliver for a source, with exact sums below 2^53.
    - Joins: splitting a filter between scan and select does not change the result; parallel
      joins over one scan fill in all their cells.
    - In each part, concrete runs show where the code departs from what it means to do.

    ** Bounds

    Loops over a slice or a tree are structural.  Where a loop runs until a source ends it has
    fuel, and the theorems show that the result is reached: [limit_loop] has one round more
    than the offset, [purge_loop] one more than the items, [FetchNext_loop] one more than the
    entries that are left to read, and the mapper ([fuel_for]) two more than the depth of the
    request.  [order_Next],
    [scan_loop], [select_loop], [subDocs] and [appendDocs] take fuel beyond the number of the
    documents of their source, which the theorems assume.  [runSession] is one schedule of a
    session; that sessions end is shown for all of them, by a measure.  Version counters
    of the store and heights of the clock are assumed below 2^64 - 1 where they are
    incremented; elsewhere the wrap-around is part of the definitions.

    ** What is not modelled

    Networking, the HTTP server, the command line, configuration and logging are input and
    output around libraries; the badger store, apart from its iterators, is an adapter whose
    state is inside the library.  The generation of GraphQL types, the reading of a document
    from text, its validation and introspection are calls of graphql-go.  Patches of schemas,
    which apply JSON patches, and the opening of a database are left out.  Of the planner the
    wiring of nodes below [addSubPlan], the explain output, pipes, the scan of commits, the top
    node and the nodes of mutations are not part of the library; neither are updates and
    deletions by filter, which run a plan, and the fetchers of versions and of heads.
    Locks are modelled by the atomicity of the steps they protect; iteration over a Go
    map is over a list in the order of the visit.  A data source of a group stands for
    the documents that its plans yield; the index of the pipe they share is left out. *)

From Stdlib Require Export ZArith Lia.
From Stdlib Require Import Ascii.
From stdpp Require Export base gmap strings list sorting.

#[global] Open Scope Z_scope.

(** ** Go results

    A Go call returns a value and an [error], or panics.  [result A] keeps the
    three outcomes apart: [Ok v] is [(v, nil)], [Err e] is a non-nil error and
    [Panic] is a run-time panic (index out of range, nil dereference, failed
    type assertion). *)
Inductive error :=
  | ErrEmptyKey | ErrInvalidKey | ErrNotFound | ErrClosed | ErrTxnDiscarded
  | ErrReadOnlyTxn | ErrTxnConflict | ErrAtoi | ErrInvalidCrdtType
  | ErrFailedToGetFieldIdOfKey (inner : error)
  | ErrEncodingPriority | ErrDecodingPriority | ErrMismatchedMergeType
  | ErrFailedToGetPriority (inner : error) | ErrFailedToStoreValue (inner : error)
  | ErrCidDecode | ErrUnexpectedType | ErrUnhandledType | ErrUnknownOperator (op : string)
  | ErrStore (code : Z)
  | ErrNew (message : string)
  | ErrWrap (message : string) (inner : error).

#[global] Instance error_eq_dec : EqDecision error.
Proof. solve_decision. Defined.

(** [errors.Is]: an error is a target when it is equal to it, when the two are errors
    of the repository with one message, or when the error it wraps is the target. *)
Definition same_message (e target : error) : bool :=
  match e, target with
  | (ErrNew m | ErrWrap m _), (ErrNew m' | ErrWrap m' _) => String.eqb m m'
  | _, _ => false
  end.

Fixpoint errors_Is (e target : error) : bool :=
  bool_decide (e = target) || same_message e target ||
  match e with
  | ErrWrap _ i | ErrFailedToGetFieldIdOfKey i | ErrFailedToGetPriority i | ErrFailedToStoreValue i =>
      errors_Is i target
  | _ => false
  end.

Lemma errors_Is_refl e : errors_Is e e = true.
Proof. destruct e; cbn [errors_Is]; by rewrite bool_decide_eq_true_2. Qed.

Inductive result (A : Type) :=
  | Ok (v : A)
  | Err (e : error)
  | Panic.
Arguments Ok {_} _.
Arguments Err {_} _.
Arguments Panic {_}.

Definition rbind {A B} (m : result A) (k : A -> result B) : result B :=
  match m with Ok v => k v | Err e => Err e | Panic => Panic end.

Definition is_ok {A} (m : result A) : bool :=
  match m with Ok _ => true | _ => false end.

Declare Scope go_scope.
Delimit Scope go_scope with go.
Notation "'let!' x ':=' m 'in' k" := (rbind m (fun x => k))
  (at level 10, x pattern, m at level 100, k at level 200) : go_scope.
#[global] Open Scope go_scope.

Lemma rbind_Ok {A B} (m : result A) (k : A -> result B) y : rbind m k = Ok y -> exists x, m = Ok x /\ k x = Ok y.
Proof. destruct m as [x| |]; [|discriminate..]. intros E. by exists x. Qed.

(** ** Machine integers *)
Definition u64 (z : Z) : Z := z mod 2 ^ 64.
Definition u32 (z : Z) : Z := z mod 2 ^ 32.
Definition i64 (z : Z) : Z := (z + 2 ^ 63) mod 2 ^ 64 - 2 ^ 63.

Definition is_u64 (z : Z) : Prop := 0 <= z < 2 ^ 64.
Definition is_u32 (z : Z) : Prop := 0 <= z < 2 ^ 32.
Definition is_i64 (z : Z) : Prop := - 2 ^ 63 <= z < 2 ^ 63.

Lemma u64_small z : is_u64 z -> u64 z = z.
Proof. unfold is_u64, u64; intros; apply Z.mod_small; lia. Qed.

Lemma u32_small z : is_u32 z -> u32 z = z.
Proof. unfold is_u32, u32; intros; apply Z.mod_small; lia. Qed.

Lemma i64_small z : is_i64 z -> i64 z = z.
Proof. unfold is_i64, i64; intros; rewrite Z.mod_small; lia. Qed.

(** ** Byte strings

    Go strings and byte slices are sequences of bytes; both are modelled by
    [string], whose characters are the 256 [ascii] values.  Go's [<] on strings,
    [strings.Compare] and [bytes.Compare] are the byte-wise lexicographic order. *)
Abbreviation bytes := string.

Definition byte_val (c : ascii) : Z := Z.of_N (N_of_ascii c).
Definition byte_of (z : Z) : ascii := ascii_of_N (Z.to_N (z mod 256)).

Lemma byte_val_range c : 0 <= byte_val c < 256.
Proof.
  unfold byte_val. pose proof (N_ascii_bounded c). lia.
Qed.

Lemma byte_of_val c : byte_of (byte_val c) = c.
Proof.
  unfold byte_of, byte_val. pose proof (N_ascii_bounded c).
  rewrite Z.mod_small by lia. rewrite N2Z.id. apply ascii_N_embedding.
Qed.

Lemma byte_val_of z : byte_val (byte_of z) = z mod 256.
Proof.
  unfold byte_of, byte_val. pose proof (Z.mod_pos_bound z 256 ltac:(lia)).
  rewrite N_ascii_embedding by lia. lia.
Qed.

Lemma byte_val_inj a b : byte_val a = byte_val b -> a = b.
Proof. intros H. rewrite <- (byte_of_val a), <- (byte_of_val b). by rewrite H. Qed.

Definition str_lt (s t : string) : Prop := String.ltb s t = true.
Definition str_le (s t : string) : Prop := String.leb s t = true.

Notation "s <s t" := (str_lt s t) (at level 70) : go_scope.
Notation "s <=s t" := (str_le s t) (at level 70) : go_scope.

Lemma ascii_compare_Lt a b : Ascii.compare a b = Lt <-> byte_val a < byte_val b.
Proof.
  unfold Ascii.compare, byte_val. rewrite N.compare_lt_iff. lia.
Qed.

Lemma ascii_compare_Gt a b : Ascii.compare a b = Gt <-> byte_val b < byte_val a.
Proof.
  unfold Ascii.compare, byte_val. rewrite N.compare_gt_iff. lia.
Qed.

Lemma ascii_compare_refl a : Ascii.compare a a = Eq.
Proof. unfold Ascii.compare. apply N.compare_refl. Qed.

Lemma str_lt_nil_l s : "" <s s <-> s <> "".
Proof. destruct s; by split. Qed.

Lemma str_lt_nil_r s : ~ s <s "".
Proof. destruct s; by intros ?. Qed.

Lemma str_lt_cons a s b t :
  String a s <s String b t <-> byte_val a < byte_val b \/ (a = b /\ s <s t).
Proof.
  unfold str_lt, String.ltb; cbn.
  destruct (Ascii.compare a b) eqn:E.
  - apply Ascii.compare_eq_iff in E as ->.
    destruct (String.compare s t); intuition (try congruence; lia).
  - apply ascii_compare_Lt in E. naive_solver.
  - apply ascii_compare_Gt in E. split; [done|]. intros [?|[-> ?]]; lia.
Qed.

Lemma str_lt_irrefl s : ~ s <s s.
Proof. induction s as [|a s IH]; [by intros ?|]. rewrite str_lt_cons. intros [?|[_ ?]]; [lia|done]. Qed.

Lemma str_lt_trans s t u : s <s t -> t <s u -> s <s u.
Proof.
  revert t u; induction s as [|a s IH]; intros [|b t] [|c u]; try done.
  rewrite !str_lt_cons. intros [?|[-> ?]] [?|[-> ?]]; eauto with lia.
Qed.

Lemma str_lt_total s t : s <s t \/ s = t \/ t <s s.
Proof.
  revert t; induction s as [|a s IH]; intros [|b t]; [by auto|by left|by do 2 right|].
  rewrite !str_lt_cons. destruct (Z.lt_trichotomy (byte_val a) (byte_val b)) as [?|[E|?]]; auto.
  apply byte_val_inj in E as ->. destruct (IH t) as [?|[->|?]]; auto.
Qed.

Lemma str_le_lt s t : s <=s t <-> ~ t <s s.
Proof.
  unfold str_le, str_lt, String.leb, String.ltb. rewrite String.compare_antisym.
  destruct (String.compare t s); naive_solver.
Qed.

Lemma str_le_eq s t : s <=s t <-> s <s t \/ s = t.
Proof.
  rewrite str_le_lt. destruct (str_lt_total s t) as [H|[->|H]].
  - split; auto. intros _ ?. eapply str_lt_irrefl, str_lt_trans; eauto.
  - split; auto. intros _. apply str_lt_irrefl.
  - split; [done|]. intros [?| ->] ?; eapply str_lt_irrefl; [eapply str_lt_trans|]; eauto.
Qed.

Lemma str_le_cons_nil c s : ~ String c s <=s "".
Proof. rewrite str_le_eq. intros [?%str_lt_nil_r|?]; done. Qed.

Lemma str_le_refl s : s <=s s.
Proof. rewrite str_le_eq; auto. Qed.

Lemma str_lt_le s t : s <s t -> s <=s t.
Proof. rewrite str_le_eq; auto. Qed.

Lemma str_le_lt_trans s t u : s <=s t -> t <s u -> s <s u.
Proof. rewrite str_le_eq. intros [?| ->]; eauto using str_lt_trans. Qed.

Lemma str_lt_le_trans s t u : s <s t -> t <=s u -> s <s u.
Proof. rewrite str_le_eq. intros ? [?| <-]; eauto using str_lt_trans. Qed.

Lemma str_le_trans s t u : s <=s t -> t <=s u -> s <=s u.
Proof. rewrite (str_le_eq s t). intros [?| ->] ?; eauto using str_lt_le, str_lt_le_trans. Qed.

Lemma str_lt_not_le s t : s <s t <-> ~ t <=s s.
Proof.
  rewrite str_le_lt. split; [tauto|]. intros H.
  unfold str_lt in *. destruct (String.ltb s t); naive_solver.
Qed.

#[global] Instance str_lt_dec s t : Decision (s <s t).
Proof. unfold str_lt. apply _. Defined.
#[global] Instance str_le_dec s t : Decision (s <=s t).
Proof. unfold str_le. apply _. Defined.

Create HintDb go.
Create Rewrite HintDb go.
#[export] Hint Resolve str_lt_irrefl str_le_refl str_lt_le : go.
#[export] Hint Immediate str_lt_trans str_le_trans str_lt_le_trans str_le_lt_trans : go.

(** ** Concatenation and prefixes *)
Lemma str_app_nil_r (s : string) : s +:+ "" = s.
Proof. induction s as [|a s IH]; [done|]. change (String a (s +:+ "") = String a s). by rewrite IH. Qed.

Lemma str_app_assoc (s t u : string) : (s +:+ t) +:+ u = s +:+ t +:+ u.
Proof. induction s as [|a s IH]; [done|]. change (String a ((s +:+ t) +:+ u) = String a (s +:+ t +:+ u)). by rewrite IH. Qed.

Lemma str_app_cons a (s t : string) : String a s +:+ t = String a (s +:+ t).
Proof. done. Qed.

Lemma str_app_nil_l (t : string) : "" +:+ t = t.
Proof. done. Qed.

Lemma str_app_length (s t : string) :
  String.length (s +:+ t) = (String.length s + String.length t)%nat.
Proof. induction s as [|a s IH]; [done|]. rewrite str_app_cons. cbn. by rewrite IH. Qed.

Lemma str_app_inj_l (p s t : string) : p +:+ s = p +:+ t -> s = t.
Proof. induction p as [|a p IH]; [done|]. rewrite !str_app_cons. intros [= ?]; auto. Qed.

Lemma str_app_lt_l p s t : p +:+ s <s p +:+ t <-> s <s t.
Proof.
  induction p as [|a p IH]; [done|]. rewrite !str_app_cons, str_lt_cons, IH.
  split; [intros [?|[_ ?]]; [lia|done]|auto].
Qed.

Definition str_prefix (p s : string) : Prop := exists t, s = p +:+ t.

Lemma str_prefix_le p s : str_prefix p s -> p <=s s.
Proof.
  intros [t ->]. rewrite <- (str_app_nil_r p) at 1. rewrite str_le_eq, str_app_lt_l.
  destruct t; [by right|by left].
Qed.

Lemma str_prefix_refl s : str_prefix s s.
Proof. exists "". by rewrite str_app_nil_r. Qed.

Lemma str_prefix_trans p q s : str_prefix p q -> str_prefix q s -> str_prefix p s.
Proof. intros [t ->] [u ->]. rewrite str_app_assoc. by eexists. Qed.

(** If [s] sorts at or after a prefix [p] and strictly before something that
    has [p] as a prefix, it has [p] as a prefix as well. *)
Lemma str_prefix_between p s t :
  p <=s s -> s <s p +:+ t -> str_prefix p s.
Proof.
  revert s; induction p as [|a p IH]; intros s Hl Hr; [by exists s|].
  destruct s as [|b s]; [by rewrite str_le_eq in Hl; destruct Hl as [H|?]|].
  rewrite str_app_cons, str_lt_cons in Hr. rewrite str_le_eq, str_lt_cons in Hl.
  assert (a = b /\ p <=s s) as [-> Hle].
  { destruct Hl as [[?|[-> ?]]|[= -> ->]]; [|auto with go..].
    destruct Hr as [?|[-> _]]; lia. }
  destruct Hr as [?|[_ Hr]]; [lia|]. destruct (IH s Hle Hr) as [u ->]. by exists u.
Qed.

#[export] Hint Rewrite str_app_nil_r str_app_assoc str_app_cons str_app_nil_l : go.

(** ** Tactics *)

(** Case analysis on the scrutinee of a [match]/[if] of the goal. *)
Ltac case_split :=
  match goal with
  | |- context [match ?x with _ => _ end] =>
      lazymatch x with context [match _ with _ => _ end] => fail | _ => destruct x eqn:? end
  end.

(** Case analysis on the scrutinee of a [match]/[if] of a hypothesis. *)
Ltac case_split_in H :=
  match type of H with
  | context [match ?x with _ => _ end] =>
      lazymatch x with context [match _ with _ => _ end] => fail | _ => destruct x eqn:? end
  end.

(** ** Folds of commuting, idempotent steps

    The state reached by a sequence of steps that commute pairwise and are
    idempotent depends only on the set of the steps taken. *)
Section FoldSet.
Context {A B : Type} (step : A -> B -> A) (inv : A -> Prop) (ok : B -> Prop).
Hypothesis step_inv : forall a b, ok b -> inv a -> inv (step a b).
Hypothesis step_comm : forall a b c, inv a -> ok b -> ok c -> step (step a b) c = step (step a c) b.
Hypothesis step_idem : forall a b, inv a -> ok b -> step (step a b) b = step a b.

Lemma foldl_inv l a : Forall ok l -> inv a -> inv (foldl step a l).
Proof. intros Hl. revert a. induction Hl; cbn; auto. Qed.

Lemma foldl_step_comm l a b :
  Forall ok l -> ok b -> inv a -> foldl step (step a b) l = step (foldl step a l) b.
Proof.
  intros Hl Hb. revert a. induction Hl as [|c l Hc Hl IH]; intros a Ha; [done|]. cbn.
  rewrite step_comm by done. apply IH. auto.
Qed.

Lemma foldl_absorb l a b :
  Forall ok l -> inv a -> b ∈ l -> step (foldl step a l) b = foldl step a l.
Proof.
  intros Hl Ha Hin. rewrite Forall_forall in Hl.
  induction l as [|c l IH] using rev_ind; [by apply elem_of_nil in Hin|].
  rewrite foldl_app. cbn.
  assert (Forall ok l) as Hok by (apply Forall_forall; set_solver).
  assert (ok c) by (apply Hl; set_solver).
  apply elem_of_app in Hin as [Hin|E%list_elem_of_singleton].
  - rewrite step_comm, IH; auto using foldl_inv; set_solver.
  - subst. auto using foldl_inv.
Qed.

Lemma foldl_absorb_all l l' a :
  Forall ok l -> inv a -> (forall b, b ∈ l' -> b ∈ l) ->
  foldl step (foldl step a l) l' = foldl step a l.
Proof.
  intros Hl Ha. induction l' as [|b l' IH]; intros Hsub; [done|]. cbn.
  rewrite foldl_absorb by set_solver. apply IH. set_solver.
Qed.

Lemma foldl_swap l l' a :
  Forall ok l -> Forall ok l' -> inv a ->
  foldl step (foldl step a l) l' = foldl step (foldl step a l') l.
Proof.
  intros Hl Hl'. revert a. induction Hl as [|b l Hb Hl IH]; intros a Ha; [done|]. cbn.
  rewrite IH by auto. f_equal. by apply foldl_step_comm.
Qed.

Lemma foldl_same_elements l l' a :
  Forall ok l -> Forall ok l' -> inv a -> (forall b, b ∈ l <-> b ∈ l') ->
  foldl step a l = foldl step a l'.
Proof.
  intros Hl Hl' Ha Heq.
  rewrite <- (foldl_absorb_all l l' a), foldl_swap by (try apply Heq; done).
  apply foldl_absorb_all; [done..|apply Heq].
Qed.
End FoldSet.

(** ** Lists *)

(** A list whose elements all are images is the image of a list. *)
Lemma Forall_fmap_inv {A B} (f : A -> B) (P : A -> Prop) l :
  Forall (fun y => exists x, P x /\ y = f x) l -> exists l', l = f <$> l' /\ Forall P l'.
Proof.
  induction 1 as [|y l (x & Hx & ->) Hl (l' & -> & Hl')]; [by exists []|].
  exists (x :: l'). split; [done|by constructor].
Qed.

Lemma foldl_max_ge l a x : x = a \/ x ∈ l -> x <= foldl Z.max a l.
Proof.
  revert a x. induction l as [|y l IH]; intros a x Hx; cbn.
  - destruct Hx as [->|Hx]; [lia|by apply elem_of_nil in Hx].
  - rewrite elem_of_cons in Hx. destruct Hx as [->|[->|Hx]].
    + pose proof (IH (Z.max a y) (Z.max a y) (or_introl eq_refl)). lia.
    + pose proof (IH (Z.max a y) (Z.max a y) (or_introl eq_refl)). lia.
    + apply IH. by right.
Qed.

Lemma foldl_max_in l a : foldl Z.max a l = a \/ foldl Z.max a l ∈ l.
Proof.
  revert a. induction l as [|y l IH]; intros a; cbn; [by left|].
  destruct (IH (Z.max a y)) as [E|Hin]; [|right; by right].
  rewrite E. destruct (Z.max_spec a y) as [[_ ->]|[_ ->]]; [right; left|by left].
Qed.

(** *** Filters *)

Lemma filter_all {A} (f : A -> bool) l : (forall x, x ∈ l -> f x = true) -> List.filter f l = l.
Proof.
  induction l as [|x l IH]; intros Hf; [done|]. cbn. rewrite Hf by left. f_equal. apply IH. intros y Hy. apply Hf. by right.
Qed.

Lemma lfilter_none {A} (f : A -> bool) l : List.filter f l = [] -> List.filter (fun x => negb (f x)) l = l.
Proof. induction l as [|x l IH]; [done|]. cbn. destruct (f x); [done|]. intros E. cbn. by rewrite IH. Qed.

Lemma lfilter_partition {A} (f : A -> bool) l : List.filter (fun x => negb (f x)) l ++ List.filter f l ≡ₚ l.
Proof.
  induction l as [|x l IH]; [done|]. cbn. destruct (f x); cbn; [|by constructor].
  rewrite <- Permutation_middle. by constructor.
Qed.

Lemma lfilter_fmap {A B} (f : A -> B) (p : B -> bool) l : List.filter p (f <$> l) = f <$> List.filter (fun x => p (f x)) l.
Proof. induction l as [|x l IH]; [done|]. cbn. destruct (p (f x)); cbn; by rewrite IH. Qed.

Lemma lfilter_lfilter {A} (p q : A -> bool) l : List.filter p (List.filter q l) = List.filter (fun x => q x && p x) l.
Proof. induction l as [|x l IH]; [done|]. cbn. destruct (q x); cbn; [|done]. destruct (p x); by rewrite IH. Qed.

Lemma lfilter_ext {A} (p q : A -> bool) l : (forall x, x ∈ l -> p x = q x) -> List.filter p l = List.filter q l.
Proof.
  induction l as [|x l IH]; intros Hl; [done|]. cbn. rewrite (Hl x) by by left. rewrite IH; [done|]. intros y Hy. apply Hl. by right.
Qed.
