(* ===== verification/GoStd.v ===== *)
(** * The Go standard library functions the source relies on

    Executable definitions of the functions of [strings], [strconv], [fmt] and
    [encoding/binary] that the modelled files call, with the lemmas the
    components use: splitting and joining paths, decimal printing and parsing,
    the unsigned varint codec and the big-endian 64-bit codec. *)

From Stdlib Require Import Ascii.
From stdpp Require Import pretty.
From S2P Require Import Prelude.

(** ** [strings] *)

(** [strings.HasPrefix s p]. *)
Definition HasPrefix (s p : string) : bool := String.prefix p s.

(** [strings.TrimPrefix s p]. *)
Fixpoint str_drop (n : nat) (s : string) : string :=
  match n, s with
  | O, _ => s
  | S _, EmptyString => EmptyString
  | S n', String _ s' => str_drop n' s'
  end.

Definition TrimPrefix (s p : string) : string :=
  if HasPrefix s p then str_drop (String.length p) s else s.

(** [strings.HasSuffix s suf]. *)
Definition HasSuffix (s suf : string) : bool :=
  (String.length suf <=? String.length s)%nat &&
  String.eqb (str_drop (String.length s - String.length suf) s) suf.

Fixpoint str_take (n : nat) (s : string) : string :=
  match n, s with
  | O, _ => EmptyString
  | S _, EmptyString => EmptyString
  | S n', String c s' => String c (str_take n' s')
  end.

(** [strings.TrimSuffix s suf]. *)
Definition TrimSuffix (s suf : string) : string :=
  if HasSuffix s suf then str_take (String.length s - String.length suf) s else s.

(** [strings.Contains s sub]. *)
Fixpoint Contains (s sub : string) : bool :=
  String.prefix sub s ||
  match s with EmptyString => false | String _ s' => Contains s' sub end.

(** [strings.Split s sep] for a separator of one byte. *)
Fixpoint Split (s : string) (sep : ascii) : list string :=
  match s with
  | EmptyString => [EmptyString]
  | String c s' =>
      if Ascii.eqb c sep then EmptyString :: Split s' sep
      else match Split s' sep with
           | [] => [String c EmptyString]
           | w :: ws => String c w :: ws
           end
  end.

(** [sep] does not occur in [s]. *)
Fixpoint free_of (sep : ascii) (s : string) : bool :=
  match s with
  | EmptyString => true
  | String c s' => negb (Ascii.eqb c sep) && free_of sep s'
  end.

Lemma prefix_spec p s : String.prefix p s = true <-> str_prefix p s.
Proof.
  revert s; induction p as [|a p IH]; intros s.
  - split; [by exists s|]. by destruct s.
  - destruct s as [|b s]; cbn.
    + split; [done|]. by intros [t ?].
    + destruct (ascii_dec a b) as [->|Hne].
      * rewrite IH. split; intros [t Ht]; exists t; [by subst|].
        rewrite str_app_cons in Ht. congruence.
      * split; [done|]. intros [t Ht]. rewrite str_app_cons in Ht. congruence.
Qed.

Lemma HasPrefix_spec s p : HasPrefix s p = true <-> str_prefix p s.
Proof. apply prefix_spec. Qed.

Lemma str_drop_app p s : str_drop (String.length p) (p +:+ s) = s.
Proof. by induction p. Qed.

Lemma TrimPrefix_app p s : TrimPrefix (p +:+ s) p = s.
Proof.
  unfold TrimPrefix. destruct (HasPrefix (p +:+ s) p) eqn:E; [apply str_drop_app|].
  exfalso. apply Bool.not_true_iff_false in E. apply E, HasPrefix_spec. by exists s.
Qed.

Lemma str_take_drop n s : str_take n s +:+ str_drop n s = s.
Proof.
  revert s; induction n as [|n IH]; intros [|c s]; try done.
  cbn. rewrite str_app_cons. by rewrite IH.
Qed.

Lemma str_drop_length n s : String.length (str_drop n s) = (String.length s - n)%nat.
Proof. revert s; induction n as [|n IH]; intros [|c s]; cbn; auto. Qed.

Lemma HasSuffix_spec s suf : HasSuffix s suf = true <-> exists t, s = t +:+ suf.
Proof.
  unfold HasSuffix. rewrite Bool.andb_true_iff, Nat.leb_le, String.eqb_eq. split.
  - intros [Hl He]. exists (str_take (String.length s - String.length suf) s).
    rewrite <- He at 2. by rewrite str_take_drop.
  - intros [t ->]. rewrite str_app_length. split; [lia|].
    replace (String.length t + String.length suf - String.length suf)%nat
      with (String.length t) by lia. apply str_drop_app.
Qed.

Lemma Contains_spec s sub : Contains s sub = true <-> exists t u, s = t +:+ sub +:+ u.
Proof.
  induction s as [|c s IH]; cbn [Contains]; rewrite Bool.orb_true_iff, prefix_spec.
  - split; [intros [[u ->]|?]; [by exists "", u|done]|].
    intros (t & u & H). left. destruct t; [by exists u|done].
  - rewrite IH. split.
    + intros [[u ->]|(t & u & ->)]; [by exists "", u|by exists (String c t), u].
    + intros ([|d t] & u & H); [left; by exists u|right].
      rewrite str_app_cons in H. injection H as -> ->. by exists t, u.
Qed.

Lemma Split_not_nil s sep : Split s sep <> [].
Proof. destruct s; cbn; [done|]. case_match; [done|]. by case_match. Qed.

Lemma Split_free s sep : free_of sep s = true -> Split s sep = [s].
Proof.
  induction s as [|c s IH]; cbn; [done|]. rewrite Bool.andb_true_iff.
  intros [Hc Hs]. rewrite (IH Hs). by destruct (Ascii.eqb c sep).
Qed.

Lemma Split_app x y sep :
  free_of sep x = true ->
  Split (x +:+ String sep y) sep = x :: Split y sep.
Proof.
  induction x as [|c x IH]; cbn [free_of].
  - intros _. rewrite str_app_nil_l. cbn. by rewrite Ascii.eqb_refl.
  - rewrite Bool.andb_true_iff, Bool.negb_true_iff. intros [Hc Hx].
    rewrite str_app_cons. cbn. by rewrite Hc, (IH Hx).
Qed.

(** Every string is the join of its split. *)
Fixpoint Join (l : list string) (sep : ascii) : string :=
  match l with
  | [] => EmptyString
  | [w] => w
  | w :: ws => w +:+ String sep (Join ws sep)
  end.

Lemma Join_Split s sep : Join (Split s sep) sep = s.
Proof.
  induction s as [|c s IH]; [done|]. cbn.
  destruct (Ascii.eqb c sep) eqn:E.
  - apply Ascii.eqb_eq in E as ->. pose proof (Split_not_nil s sep).
    cbn. destruct (Split s sep) eqn:Es; [done|]. by rewrite IH.
  - pose proof (Split_not_nil s sep). destruct (Split s sep) as [|w ws] eqn:Es; [done|].
    destruct ws; cbn in *; [by subst|]. rewrite str_app_cons. by rewrite IH.
Qed.

Lemma Split_concat x y sep : Split (x +:+ String sep y) sep = Split x sep ++ Split y sep.
Proof.
  induction x as [|c x IH].
  - rewrite str_app_nil_l. cbn [Split]. by rewrite Ascii.eqb_refl.
  - rewrite str_app_cons. cbn [Split]. rewrite IH. destruct (Ascii.eqb c sep); [done|].
    destruct (Split x sep) eqn:E; [by apply Split_not_nil in E|done].
Qed.

Lemma Split_Forall_free s sep : Forall (fun w => free_of sep w = true) (Split s sep).
Proof.
  induction s as [|c s IH]; cbn; [by constructor|].
  destruct (Ascii.eqb c sep) eqn:E; [by constructor|].
  destruct (Split s sep); [constructor; [|done]|].
  - cbn. by rewrite E.
  - inversion_clear IH. constructor; [|done]. cbn. by rewrite E.
Qed.

(** ** [fmt.Sprint] of an unsigned integer and [strconv.Atoi] *)
Definition Sprint (z : Z) : string := pretty (Z.to_N z).

Definition digit (c : ascii) : option Z :=
  let d := byte_val c - 48 in
  if (0 <=? d) && (d <=? 9) then Some d else None.

Fixpoint digits_val (acc : Z) (s : string) : option Z :=
  match s with
  | EmptyString => Some acc
  | String c s' => match digit c with
                   | Some d => digits_val (acc * 10 + d) s'
                   | None => None
                   end
  end.

Definition split_sign (s : string) : bool * string :=
  match s with
  | EmptyString => (false, s)
  | String c r =>
      if Ascii.eqb c "-" then (true, r)
      else if Ascii.eqb c "+" then (false, r) else (false, s)
  end.

(** [strconv.Atoi] on a 64-bit platform: an optional sign, at least one digit,
    and a value that fits an [int]. *)
Definition Atoi (s : string) : result Z :=
  let '(neg, ds) := split_sign s in
  match ds with
  | EmptyString => Err ErrAtoi
  | _ =>
      match digits_val 0 ds with
      | None => Err ErrAtoi
      | Some n =>
          let v := if (neg : bool) then - n else n in
          if (- 2 ^ 63 <=? v) && (v <? 2 ^ 63) then Ok v else Err ErrAtoi
      end
  end.

Lemma pretty_N_char_digit x : (x < 10)%N -> digit (pretty_N_char x) = Some (Z.of_N x).
Proof.
  intros H. assert (x = 0 \/ x = 1 \/ x = 2 \/ x = 3 \/ x = 4 \/ x = 5 \/ x = 6 \/ x = 7
    \/ x = 8 \/ x = 9)%N as Hx by lia.
  by repeat destruct Hx as [->|Hx]; [..|subst x].
Qed.

Lemma pretty_N_go_digits x s :
  digits_val 0 (pretty_N_go x s) = digits_val (Z.of_N x) s.
Proof.
  revert s; induction (N.lt_wf_0 x) as [x _ IH]; intros s.
  destruct (decide (x = 0)%N) as [->|Hx]; [by rewrite pretty_N_go_0|].
  rewrite pretty_N_go_step by lia. rewrite IH by (apply N.div_lt; lia).
  cbn [digits_val]. rewrite pretty_N_char_digit by (apply N.mod_lt; lia).
  f_equal. pose proof (N.div_mod x 10 ltac:(lia)).
  lia.
Qed.

Lemma pretty_N_go_head x s :
  (0 < x)%N -> exists d r, (d < 10)%N /\ pretty_N_go x s = String (pretty_N_char d) r.
Proof.
  revert s; induction (N.lt_wf_0 x) as [x _ IH]; intros s Hx.
  rewrite pretty_N_go_step by lia.
  destruct (decide (x / 10 = 0)%N) as [->|].
  - rewrite pretty_N_go_0. exists (x mod 10)%N, s. split; [apply N.mod_lt; lia|done].
  - apply IH; [apply N.div_lt; lia|]. by apply N.neq_0_lt_0.
Qed.

Lemma pretty_N_char_not_sign d r :
  (d < 10)%N ->
  split_sign (String (pretty_N_char d) r) = (false, String (pretty_N_char d) r).
Proof.
  intros H. assert (d = 0 \/ d = 1 \/ d = 2 \/ d = 3 \/ d = 4 \/ d = 5 \/ d = 6 \/ d = 7
    \/ d = 8 \/ d = 9)%N as Hd by lia.
  by repeat destruct Hd as [->|Hd]; [..|subst d].
Qed.

(** Parsing back a printed unsigned 32-bit integer gives the integer. *)
Lemma Atoi_Sprint z : is_u32 z -> Atoi (Sprint z) = Ok z.
Proof.
  unfold is_u32. intros Hz. unfold Sprint, pretty, pretty_N.
  case_decide as Hn; [replace z with 0 by lia; done|].
  destruct (pretty_N_go_head (Z.to_N z) "" ltac:(lia)) as (d & r & Hd & Hp).
  pose proof (pretty_N_go_digits (Z.to_N z) "") as Hv. cbn [digits_val] in Hv.
  rewrite Hp in *. unfold Atoi. rewrite pretty_N_char_not_sign by done.
  rewrite Hv, Z2N.id by lia. cbn match.
  replace (- 2 ^ 63 <=? z) with true by lia. by replace (z <? 2 ^ 63) with true by lia.
Qed.

(** ** [encoding/binary] *)

(** [binary.PutUvarint] into a buffer of [MaxVarintLen64] = 10 bytes, truncated
    to the bytes written. *)
Fixpoint PutUvarint_go (fuel : nat) (x : Z) : bytes :=
  match fuel with
  | O => EmptyString
  | S fuel' =>
      if x <? 128 then String (byte_of x) EmptyString
      else String (byte_of (Z.lor (x mod 256) 128)) (PutUvarint_go fuel' (Z.shiftr x 7))
  end.

Definition PutUvarint (x : Z) : bytes := PutUvarint_go 10 x.

(** [binary.Uvarint]: the value and the number of bytes read (0 when the buffer
    is too small, negative on overflow). *)
Fixpoint Uvarint_go (i x s : Z) (buf : bytes) : Z * Z :=
  match buf with
  | EmptyString => (0, 0)
  | String c rest =>
      let b := byte_val c in
      if i =? 10 then (0, - (i + 1))
      else if b <? 128 then
        if (i =? 9) && (1 <? b) then (0, - (i + 1))
        else (Z.lor x (u64 (Z.shiftl b s)), i + 1)
      else Uvarint_go (i + 1) (Z.lor x (u64 (Z.shiftl (Z.land b 127) s))) (s + 7) rest
  end.

Definition Uvarint (buf : bytes) : Z * Z := Uvarint_go 0 0 0 buf.

(** [binary.BigEndian.PutUint64] into an 8-byte array. *)
Fixpoint PutUint_be (n : nat) (x : Z) : bytes :=
  match n with
  | O => EmptyString
  | S n' => String (byte_of (Z.shiftr x (8 * Z.of_nat n'))) (PutUint_be n' x)
  end.

Definition PutUint64 (x : Z) : bytes := PutUint_be 8 x.

Fixpoint Uint_be (acc : Z) (buf : bytes) : Z :=
  match buf with
  | EmptyString => acc
  | String c rest => Uint_be (acc * 256 + byte_val c) rest
  end.

(** [binary.BigEndian.Uint64]: reads the first eight bytes and panics on a
    shorter slice. *)
Definition Uint64 (buf : bytes) : result Z :=
  if (String.length buf <? 8)%nat then Panic else Ok (Uint_be 0 (str_take 8 buf)).

Lemma lor_shiftl_add x b s :
  0 <= s -> 0 <= x < 2 ^ s -> 0 <= b -> Z.lor x (Z.shiftl b s) = x + b * 2 ^ s.
Proof.
  intros Hs Hx Hb. rewrite <- Z.add_nocarry_lor; [by rewrite Z.shiftl_mul_pow2 by lia|].
  apply Z.bits_inj'. intros n Hn. rewrite Z.land_spec, Z.bits_0.
  destruct (Z.lt_ge_cases n s).
  - rewrite Z.shiftl_spec_low by lia. apply Bool.andb_false_r.
  - destruct (Z.eq_dec x 0) as [->|]; [by rewrite Z.bits_0|].
    rewrite (Z.bits_above_log2 x n); [done|lia|].
    apply Z.lt_le_trans with s; [apply Z.log2_lt_pow2; lia|lia].
Qed.

Lemma lor_128 r : 0 <= r < 256 -> Z.lor r 128 = 128 + r mod 128.
Proof.
  intros Hr. change (Z.lor r 128) with (Z.lor r (Z.shiftl 1 7)).
  destruct (Z.lt_ge_cases r 128).
  - rewrite lor_shiftl_add, Z.mod_small by lia. lia.
  - replace r with (Z.lor (r - 128) (Z.shiftl 1 7)) at 1
      by (rewrite lor_shiftl_add by lia; lia).
    rewrite <- Z.lor_assoc, Z.lor_diag, lor_shiftl_add by lia.
    replace r with (r - 128 + 1 * 128) at 2 by lia.
    rewrite Z_mod_plus_full, Z.mod_small by lia. lia.
Qed.

Lemma varint_byte x : 128 <= x -> byte_val (byte_of (Z.lor (x mod 256) 128)) = 128 + x mod 128.
Proof.
  intros Hx. pose proof (Z.mod_pos_bound x 256 ltac:(lia)).
  pose proof (Z.mod_pos_bound x 128 ltac:(lia)).
  rewrite byte_val_of, lor_128 by lia.
  replace ((x mod 256) mod 128) with (x mod 128); [apply Z.mod_small; lia|].
  change 256 with (128 * 2). rewrite Z.rem_mul_r by lia.
  rewrite Z.mul_comm, Z_mod_plus_full, Z.mod_mod by lia. done.
Qed.

Lemma Uvarint_go_put fuel i x y s :
  (fuel <= 10)%nat -> i = 10 - Z.of_nat fuel -> 7 * i = s ->
  0 <= y < 2 ^ s -> 0 <= x -> y + x * 2 ^ s < 2 ^ 64 -> (0 < fuel)%nat ->
  Uvarint_go i y s (PutUvarint_go fuel x) =
    (y + x * 2 ^ s, i + Z.of_nat (String.length (PutUvarint_go fuel x))).
Proof.
  revert i x y s; induction fuel as [|fuel IH]; intros i x y s Hf Hi Hs Hy Hx Hb H0; [lia|].
  cbn [PutUvarint_go]. destruct (x <? 128) eqn:E.
  - cbn [Uvarint_go String.length]. rewrite byte_val_of, Z.mod_small by lia.
    replace (i =? 10) with false by lia. rewrite E.
    destruct ((i =? 9) && (1 <? x)) eqn:E9.
    + exfalso. assert (s = 63) as -> by lia. lia.
    + assert (u64 (x ≪ s) = x ≪ s) as ->.
      { apply u64_small. unfold is_u64. rewrite Z.shiftl_mul_pow2 by lia. nia. }
      rewrite lor_shiftl_add by lia. f_equal; lia.
  - cbn [Uvarint_go String.length]. rewrite varint_byte by lia.
    pose proof (Z.mod_pos_bound x 128 ltac:(lia)) as Hm.
    assert (Hd : x = 128 * (x / 128) + x mod 128) by (apply Z.div_mod; lia).
    replace (i =? 10) with false by lia. replace (128 + x mod 128 <? 128) with false by lia.
    replace (Z.land (128 + x mod 128) 127) with (x mod 128).
    2:{ change 127 with (Z.ones 7). rewrite Z.land_ones by lia. change (2 ^ 7) with 128.
        replace (128 + x mod 128) with (x mod 128 + 1 * 128) by lia.
        rewrite Z_mod_plus_full, Z.mod_mod; lia. }
    assert (0 < 2 ^ s) by lia.
    assert (u64 ((x mod 128) ≪ s) = (x mod 128) ≪ s) as ->.
    { apply u64_small. unfold is_u64. rewrite Z.shiftl_mul_pow2 by lia. nia. }
    rewrite lor_shiftl_add by lia.
    assert (fuel <> 0%nat).
    { intros ->. assert (s = 63) as -> by lia. lia. }
    assert (2 ^ (s + 7) = 128 * 2 ^ s) as Hp by (rewrite Z.pow_add_r by lia; lia).
    rewrite Z.shiftr_div_pow2 by lia. change (2 ^ 7) with 128.
    rewrite IH; [f_equal; rewrite ?Hp; nia|lia..| | |nia|lia]; [nia|].
    apply Z.div_pos; lia.
Qed.

(** The varint codec round trips on every [uint64]. *)
Lemma Uvarint_PutUvarint x :
  is_u64 x ->
  Uvarint (PutUvarint x) = (x, Z.of_nat (String.length (PutUvarint x))).
Proof.
  unfold is_u64. intros Hx. unfold Uvarint, PutUvarint.
  rewrite Uvarint_go_put; [f_equal; lia|lia..].
Qed.

Lemma PutUvarint_length x : (0 < String.length (PutUvarint x))%nat.
Proof. unfold PutUvarint. cbn. case_match; cbn; lia. Qed.

Lemma PutUint_be_length n x : String.length (PutUint_be n x) = n.
Proof. induction n; cbn; auto. Qed.

Lemma Uint_be_put n x acc :
  0 <= x -> Uint_be acc (PutUint_be n x) = acc * 256 ^ Z.of_nat n + x mod 256 ^ Z.of_nat n.
Proof.
  intros Hx. revert acc; induction n as [|n IH]; intros acc; cbn [PutUint_be Uint_be].
  - rewrite Z.mod_1_r. lia.
  - rewrite IH, byte_val_of, Z.shiftr_div_pow2 by lia.
    rewrite Nat2Z.inj_succ, Z.pow_succ_r by lia.
    replace (2 ^ (8 * Z.of_nat n)) with (256 ^ Z.of_nat n)
      by (rewrite Z.pow_mul_r by lia; done).
    rewrite (Z.mul_comm 256), Z.rem_mul_r by lia. lia.
Qed.

Lemma str_take_all s : str_take (String.length s) s = s.
Proof. induction s as [|c s IH]; [done|]. cbn. by rewrite IH. Qed.

(** The big-endian codec round trips on every [uint64]. *)
Lemma Uint64_PutUint64 x : is_u64 x -> Uint64 (PutUint64 x) = Ok x.
Proof.
  unfold is_u64. intros Hx. unfold Uint64, PutUint64.
  rewrite PutUint_be_length. cbn match.
  pose proof (str_take_all (PutUint_be 8 x)) as Ht. rewrite PutUint_be_length in Ht.
  rewrite Ht, Uint_be_put by lia. f_equal. rewrite Z.mul_0_l, Z.add_0_l. apply Z.mod_small. lia.
Qed.
