(* ===== verification/Keys.v ===== *)
(** * Datastore keys (core/key.go)

    The key types of the database, their textual form, the parsers, and the
    prefix-end arithmetic that turns a key into the half-open range of all keys
    below it.  [cid.Cid] (go-cid) and [ds.NewKey] (go-datastore) are code outside
    the repository: they are the classes [CidOps] and [DsKey], whose laws state
    the documented behaviour the key code relies on. *)

From Stdlib Require Import Ascii.
From stdpp Require Import pretty.
From S2P Require Import Prelude GoStd.

(** ** Interfaces to go-cid and go-datastore *)

(** A key string that [path.Clean] leaves alone: it starts with a slash, and no
    path element is empty, [.] or [..]. *)
Definition clean_elem (w : string) : bool :=
  negb (String.eqb w "") && negb (String.eqb w ".") && negb (String.eqb w "..").

Definition clean_key (s : string) : bool :=
  match s with
  | String "/"%char r => forallb clean_elem (Split r "/")
  | _ => false
  end.

(** The path of the non-empty elements of a string. *)
Definition collapse (s : string) : string :=
  foldr (fun w p => String "/" (w +:+ p)) "" (List.filter (fun w => negb (String.eqb w "")) (Split s "/")).

(** [ds.NewKey]: a key is its cleaned path, which starts with a slash and has single
    slashes. *)
Class DsKey := {
  NewKey : string -> string;
  NewKey_clean : forall s, clean_key s = true -> NewKey s = s;
  NewKey_collapse : forall s, clean_key (collapse s) = true -> NewKey s = collapse s;
}.

(** [cid.Cid]: content identifiers with their string form. *)
Class CidOps := {
  Cid : Type;
  Cid_eq_dec :: EqDecision Cid;
  Cid_Undef : Cid;
  Cid_Defined : Cid -> bool;
  Cid_String : Cid -> string;
  Cid_Decode : string -> result Cid;
  Cid_Defined_Undef : Cid_Defined Cid_Undef = false;
  Cid_Decode_String : forall c, Cid_Defined c = true -> Cid_Decode (Cid_String c) = Ok c;
  Cid_String_free : forall c, free_of "/" (Cid_String c) = true;
  Cid_String_elem : forall c, Cid_Defined c = true -> clean_elem (Cid_String c) = true;
}.

(** ** Data *)

(** Instance types: value, priority and deleted instances. *)
Definition ValueKey : string := "v".
Definition PriorityKey : string := "p".
Definition DeletedKey : string := "d".

Definition COLLECTION : string := "/collection/names".
Definition COLLECTION_SCHEMA : string := "/collection/schema".
Definition COLLECTION_SCHEMA_VERSION : string := "/collection/version".
Definition SEQ : string := "/seq".
Definition PRIMARY_KEY : string := "/pk".
Definition REPLICATOR : string := "/replicator/id".
Definition P2P_COLLECTION : string := "/p2p/collection".

Record DataStoreKey := mkDataStoreKey {
  CollectionID : string;
  InstanceType : string;
  DocKey : string;
  FieldId : string;
}.

Record PrimaryDataStoreKey := mkPrimaryDataStoreKey {
  P_CollectionId : string;
  P_DocKey : string;
}.

Record HeadStoreKey `{CidOps} := mkHeadStoreKey {
  H_DocKey : string;
  H_FieldId : string;
  H_Cid : Cid;
}.

Record CollectionKey := NewCollectionKey { CollectionName : string }.
Record CollectionSchemaKey := NewCollectionSchemaKey { SchemaId : string }.
Record CollectionSchemaVersionKey := NewCollectionSchemaVersionKey { SchemaVersionId : string }.
Record P2PCollectionKey := NewP2PCollectionKey { P2P_CollectionID : string }.
Record SequenceKey := NewSequenceKey { SequenceName : string }.
Record ReplicatorKey := NewReplicatorKey { ReplicatorID : string }.

#[global] Instance DataStoreKey_eq_dec : EqDecision DataStoreKey.
Proof. solve_decision. Defined.

Definition DataStoreKey_zero : DataStoreKey := mkDataStoreKey "" "" "" "".

(** ** Parsers and constructors *)

Definition NewDataStoreKey (key : string) : result DataStoreKey :=
  if String.eqb key "" then Err ErrEmptyKey
  else
    match Split (TrimPrefix key "/") "/" with
    | [c; t; d] => Ok (mkDataStoreKey c t d "")
    | [c; t; d; f] => Ok (mkDataStoreKey c t d f)
    | _ => Err ErrInvalidKey
    end.

Definition MustNewDataStoreKey (key : string) : result DataStoreKey :=
  match NewDataStoreKey key with
  | Ok k => Ok k
  | Err _ => Panic
  | Panic => Panic
  end.

(** [dockey] is the string form of the [client.DocKey] argument. *)
Definition DataStoreKeyFromDocKey (dockey : string) : DataStoreKey :=
  mkDataStoreKey "" "" dockey "".

Definition NewHeadStoreKey `{CidOps} (key : string) : result HeadStoreKey :=
  match Split key "/" with
  | [_; d; f; cs] => let! c := Cid_Decode cs in Ok (mkHeadStoreKey _ d f c)
  | _ => Err ErrInvalidKey
  end.

Definition NewP2PCollectionKeyFromString (key : string) : result P2PCollectionKey :=
  match Split key "/" with
  | [_; _; _; id] => Ok (NewP2PCollectionKey id)
  | _ => Err ErrInvalidKey
  end.

(** ** Updaters *)

Definition WithValueFlag (k : DataStoreKey) : DataStoreKey :=
  mkDataStoreKey k.(CollectionID) ValueKey k.(DocKey) k.(FieldId).
Definition WithPriorityFlag (k : DataStoreKey) : DataStoreKey :=
  mkDataStoreKey k.(CollectionID) PriorityKey k.(DocKey) k.(FieldId).
Definition WithDeletedFlag (k : DataStoreKey) : DataStoreKey :=
  mkDataStoreKey k.(CollectionID) DeletedKey k.(DocKey) k.(FieldId).
Definition WithDocKey (k : DataStoreKey) (docKey : string) : DataStoreKey :=
  mkDataStoreKey k.(CollectionID) k.(InstanceType) docKey k.(FieldId).
Definition WithInstanceInfo (k key : DataStoreKey) : DataStoreKey :=
  mkDataStoreKey k.(CollectionID) key.(InstanceType) key.(DocKey) key.(FieldId).
Definition WithFieldId (k : DataStoreKey) (fieldId : string) : DataStoreKey :=
  mkDataStoreKey k.(CollectionID) k.(InstanceType) k.(DocKey) fieldId.
Definition ToHeadStoreKey `{CidOps} (k : DataStoreKey) : HeadStoreKey :=
  mkHeadStoreKey _ k.(DocKey) k.(FieldId) Cid_Undef.
Definition Head_WithDocKey `{CidOps} (k : HeadStoreKey) (docKey : string) : HeadStoreKey :=
  mkHeadStoreKey _ docKey k.(H_FieldId) k.(H_Cid).
Definition Head_WithCid `{CidOps} (k : HeadStoreKey) (c : Cid) : HeadStoreKey :=
  mkHeadStoreKey _ k.(H_DocKey) k.(H_FieldId) c.
Definition Head_WithFieldId `{CidOps} (k : HeadStoreKey) (fieldId : string) : HeadStoreKey :=
  mkHeadStoreKey _ k.(H_DocKey) fieldId k.(H_Cid).
Definition ToPrimaryDataStoreKey (k : DataStoreKey) : PrimaryDataStoreKey :=
  mkPrimaryDataStoreKey k.(CollectionID) k.(DocKey).
Definition ToDataStoreKey (k : PrimaryDataStoreKey) : DataStoreKey :=
  mkDataStoreKey k.(P_CollectionId) "" k.(P_DocKey) "".

Definition DataStoreKey_Equal (k other : DataStoreKey) : bool :=
  String.eqb k.(CollectionID) other.(CollectionID) &&
  String.eqb k.(DocKey) other.(DocKey) &&
  String.eqb k.(FieldId) other.(FieldId) &&
  String.eqb k.(InstanceType) other.(InstanceType).

(** ** Textual form *)

(** [result = result + "/" + part], done only for a non-empty part. *)
Definition add_part (result part : string) : string :=
  if String.eqb part "" then result else result +:+ "/" +:+ part.

Definition DataStoreKey_ToString (k : DataStoreKey) : string :=
  let result := "" in
  let result := add_part result k.(CollectionID) in
  let result := add_part result k.(InstanceType) in
  let result := add_part result k.(DocKey) in
  add_part result k.(FieldId).

Definition PrimaryDataStoreKey_ToString (k : PrimaryDataStoreKey) : string :=
  let result := "" in
  let result := add_part result k.(P_CollectionId) in
  let result := result +:+ PRIMARY_KEY in
  add_part result k.(P_DocKey).

Definition HeadStoreKey_ToString `{CidOps} (k : HeadStoreKey) : string :=
  let result := "" in
  let result := add_part result k.(H_DocKey) in
  let result := add_part result k.(H_FieldId) in
  if Cid_Defined k.(H_Cid) then result +:+ "/" +:+ Cid_String k.(H_Cid) else result.

Definition CollectionKey_ToString (k : CollectionKey) : string :=
  add_part COLLECTION k.(CollectionName).
Definition CollectionSchemaKey_ToString (k : CollectionSchemaKey) : string :=
  add_part COLLECTION_SCHEMA k.(SchemaId).
Definition CollectionSchemaVersionKey_ToString (k : CollectionSchemaVersionKey) : string :=
  add_part COLLECTION_SCHEMA_VERSION k.(SchemaVersionId).
Definition SequenceKey_ToString (k : SequenceKey) : string :=
  add_part SEQ k.(SequenceName).
Definition P2PCollectionKey_ToString (k : P2PCollectionKey) : string :=
  add_part P2P_COLLECTION k.(P2P_CollectionID).
Definition ReplicatorKey_ToString (k : ReplicatorKey) : string :=
  add_part REPLICATOR k.(ReplicatorID).

(** The [Key] interface; [Bytes] is the string itself and [ToDS] the cleaned
    datastore key, as every implementation defines them. *)
Class Key (A : Type) := ToString : A -> string.
Definition Bytes `{Key A} (k : A) : bytes := ToString k.
Definition ToDS `{DsKey, Key A} (k : A) : string := NewKey (ToString k).

#[global] Instance Key_DataStoreKey : Key DataStoreKey := DataStoreKey_ToString.
#[global] Instance Key_PrimaryDataStoreKey : Key PrimaryDataStoreKey := PrimaryDataStoreKey_ToString.
#[global] Instance Key_HeadStoreKey `{CidOps} : Key HeadStoreKey := HeadStoreKey_ToString.
#[global] Instance Key_CollectionKey : Key CollectionKey := CollectionKey_ToString.
#[global] Instance Key_CollectionSchemaKey : Key CollectionSchemaKey := CollectionSchemaKey_ToString.
#[global] Instance Key_CollectionSchemaVersionKey : Key CollectionSchemaVersionKey :=
  CollectionSchemaVersionKey_ToString.
#[global] Instance Key_SequenceKey : Key SequenceKey := SequenceKey_ToString.
#[global] Instance Key_P2PCollectionKey : Key P2PCollectionKey := P2PCollectionKey_ToString.
#[global] Instance Key_ReplicatorKey : Key ReplicatorKey := ReplicatorKey_ToString.

(** ** Prefix ends *)

(** The loop of [bytesPrefixEnd]: [i] counts down, [e] is the slice [end]. *)
Fixpoint bytesPrefixEnd_loop (i : nat) (e : list ascii) : option (list ascii) :=
  match i with
  | O => None
  | S i' =>
      match e !! i' with
      | None => None
      | Some c =>
          let c' := byte_of (byte_val c + 1) in
          let e' := <[i' := c']> e in
          if byte_val c' =? 0 then bytesPrefixEnd_loop i' e'
          else Some (take (S i') e')
      end
  end.

Definition bytesPrefixEnd (b : bytes) : bytes :=
  match bytesPrefixEnd_loop (String.length b) (String.list_ascii_of_string b) with
  | Some e => String.string_of_list_ascii e
  | None => b
  end.

Definition PrefixEnd (k : DataStoreKey) : DataStoreKey :=
  if negb (String.eqb k.(FieldId) "") then
    mkDataStoreKey k.(CollectionID) k.(InstanceType) k.(DocKey) (bytesPrefixEnd k.(FieldId))
  else if negb (String.eqb k.(DocKey) "") then
    mkDataStoreKey k.(CollectionID) k.(InstanceType) (bytesPrefixEnd k.(DocKey)) k.(FieldId)
  else if negb (String.eqb k.(InstanceType) "") then
    mkDataStoreKey k.(CollectionID) (bytesPrefixEnd k.(InstanceType)) k.(DocKey) k.(FieldId)
  else if negb (String.eqb k.(CollectionID) "") then
    mkDataStoreKey (bytesPrefixEnd k.(CollectionID)) k.(InstanceType) k.(DocKey) k.(FieldId)
  else k.

(** [DataStoreKey.FieldID]: the conversion [uint32(fieldID)] keeps the low 32 bits. *)
Definition FieldID (k : DataStoreKey) : result Z :=
  match Atoi k.(FieldId) with
  | Ok fieldID => Ok (u32 fieldID)
  | Err e => Err (ErrFailedToGetFieldIdOfKey e)
  | Panic => Panic
  end.

(** ** Path elements and clean keys *)

(** A non-empty path element without separators, not [.] or [..]. *)
Definition elem_ok (w : string) : bool := clean_elem w && free_of "/" w.

Lemma elem_ok_nonempty w : elem_ok w = true -> String.eqb w "" = false.
Proof.
  unfold elem_ok, clean_elem. rewrite !Bool.andb_true_iff. intros [[[? _] _] _].
  by apply Bool.negb_true_iff.
Qed.

Lemma elem_ok_free w : elem_ok w = true -> free_of "/" w = true.
Proof. unfold elem_ok. rewrite Bool.andb_true_iff. by intros []. Qed.

Lemma elem_ok_clean w : elem_ok w = true -> clean_elem w = true.
Proof. unfold elem_ok. rewrite Bool.andb_true_iff. by intros []. Qed.

(** The textual form of a list of path elements. *)
Fixpoint path_of (ws : list string) : string :=
  match ws with [] => "" | w :: ws' => String "/" (w +:+ path_of ws') end.

Lemma path_of_app ws vs : path_of (ws ++ vs) = path_of ws +:+ path_of vs.
Proof. induction ws as [|w ws IH]; [done|]. cbn [path_of app]. by rewrite IH, str_app_cons, str_app_assoc. Qed.

Lemma path_of_snoc ws w : path_of (ws ++ [w]) = path_of ws +:+ "/" +:+ w.
Proof. rewrite path_of_app. cbn. by rewrite str_app_nil_r. Qed.

Lemma Split_path w ws :
  Forall (fun w => free_of "/" w = true) (w :: ws) ->
  Split (w +:+ path_of ws) "/" = w :: ws.
Proof.
  revert w; induction ws as [|v ws IH]; intros w H; inversion_clear H.
  - cbn. rewrite str_app_nil_r. by apply Split_free.
  - cbn [path_of]. rewrite (Split_app w (v +:+ path_of ws)) by done. by rewrite IH.
Qed.

Lemma Split_path_of w ws :
  Forall (fun w => free_of "/" w = true) (w :: ws) ->
  Split (path_of (w :: ws)) "/" = "" :: w :: ws.
Proof.
  intros H. cbn [path_of]. change (String "/" (w +:+ path_of ws)) with
    ("" +:+ String "/" (w +:+ path_of ws)). rewrite Split_app by done. by rewrite Split_path.
Qed.

Lemma clean_key_path_of w ws :
  Forall (fun w => elem_ok w = true) (w :: ws) -> clean_key (path_of (w :: ws)) = true.
Proof.
  intros H. change (forallb clean_elem (Split (w +:+ path_of ws) "/") = true).
  rewrite Split_path by (eapply Forall_impl; eauto using elem_ok_free).
  apply forallb_forall. intros v Hv. rewrite Forall_forall in H.
  apply elem_ok_clean, H. by apply list_elem_of_In.
Qed.

Lemma path_of_inj ws vs :
  Forall (fun w => free_of "/" w = true) ws -> Forall (fun w => free_of "/" w = true) vs ->
  path_of ws = path_of vs -> ws = vs.
Proof.
  intros Hw Hv E. destruct ws as [|w ws], vs as [|v vs]; try done.
  apply (f_equal (fun s => Split s "/")) in E. rewrite !Split_path_of in E by done. congruence.
Qed.

(** The non-empty parts of a key, in order: [ToString] is their path. *)
Definition parts (ws : list string) : list string :=
  List.filter (fun w => negb (String.eqb w "")) ws.

Lemma add_part_path ws w : add_part (path_of ws) w = path_of (ws ++ parts [w]).
Proof.
  unfold add_part, parts. cbn. destruct (String.eqb w "") eqn:E; cbn.
  - by rewrite app_nil_r.
  - by rewrite path_of_snoc.
Qed.

Lemma DataStoreKey_ToString_path k :
  DataStoreKey_ToString k =
    path_of (parts [k.(CollectionID); k.(InstanceType); k.(DocKey); k.(FieldId)]).
Proof.
  unfold DataStoreKey_ToString. change "" with (path_of []).
  rewrite !add_part_path. f_equal. unfold parts. cbn. by repeat case_match.
Qed.

Lemma PrimaryDataStoreKey_ToString_path k :
  PrimaryDataStoreKey_ToString k = path_of (parts [k.(P_CollectionId); "pk"; k.(P_DocKey)]).
Proof.
  unfold PrimaryDataStoreKey_ToString. change "" with (path_of []) at 1.
  rewrite add_part_path. change PRIMARY_KEY with ("/" +:+ "pk").
  rewrite <- path_of_snoc, add_part_path. f_equal. unfold parts. cbn. by repeat case_match.
Qed.

Lemma parts_ok ws : Forall (fun w => elem_ok w = true) ws -> parts ws = ws.
Proof.
  induction 1 as [|w ws Hw _ IH]; [done|]. unfold parts in *. cbn.
  by rewrite (elem_ok_nonempty w Hw), IH.
Qed.

Lemma parts_free ws :
  Forall (fun w => free_of "/" w = true) ws -> Forall (fun w => free_of "/" w = true) (parts ws).
Proof. unfold parts. intros H. induction H; cbn; [done|]. case_match; auto. Qed.

(** A document-level key: collection, instance type and document are valid path
    elements and the field is either absent or a valid path element. *)
Definition key_ok (k : DataStoreKey) : bool :=
  elem_ok k.(CollectionID) && elem_ok k.(InstanceType) && elem_ok k.(DocKey) &&
  (String.eqb k.(FieldId) "" || elem_ok k.(FieldId)).

Lemma key_ok_inv k :
  key_ok k = true ->
  elem_ok k.(CollectionID) = true /\ elem_ok k.(InstanceType) = true /\
  elem_ok k.(DocKey) = true /\ (k.(FieldId) = "" \/ elem_ok k.(FieldId) = true).
Proof.
  unfold key_ok. rewrite !Bool.andb_true_iff, Bool.orb_true_iff, String.eqb_eq. tauto.
Qed.

Lemma NewDataStoreKey_path w ws :
  Forall (fun w => free_of "/" w = true) (w :: ws) ->
  NewDataStoreKey (path_of (w :: ws)) =
    match w :: ws with
    | [c; t; d] => Ok (mkDataStoreKey c t d "")
    | [c; t; d; f] => Ok (mkDataStoreKey c t d f)
    | _ => Err ErrInvalidKey
    end.
Proof.
  intros H. unfold NewDataStoreKey. cbn [path_of String.eqb].
  change (TrimPrefix (String "/" (w +:+ path_of ws)) "/") with
    (TrimPrefix ("/" +:+ (w +:+ path_of ws)) "/").
  by rewrite TrimPrefix_app, Split_path.
Qed.

(** Keys with a number of elements other than three or four are rejected, extra
    leading elements included. *)
Lemma NewDataStoreKey_rejects w ws :
  Forall (fun w => free_of "/" w = true) (w :: ws) ->
  (length ws < 2 \/ 3 < length ws)%nat ->
  NewDataStoreKey (path_of (w :: ws)) = Err ErrInvalidKey.
Proof.
  intros H Hl. rewrite NewDataStoreKey_path by done.
  destruct ws as [|a [|b [|c [|d ws]]]]; try done; cbn in Hl; lia.
Qed.

(** ** Head store keys *)

Section HeadKeys.
Context `{CidOps}.

Definition head_key_ok (k : HeadStoreKey) : bool :=
  elem_ok k.(H_DocKey) && elem_ok k.(H_FieldId) && Cid_Defined k.(H_Cid).

Lemma HeadStoreKey_ToString_path k :
  head_key_ok k = true ->
  HeadStoreKey_ToString k = path_of [k.(H_DocKey); k.(H_FieldId); Cid_String k.(H_Cid)].
Proof.
  unfold head_key_ok. rewrite !Bool.andb_true_iff. intros [[Hd Hf] Hc].
  unfold HeadStoreKey_ToString, add_part.
  rewrite (elem_ok_nonempty _ Hd), (elem_ok_nonempty _ Hf), Hc.
  cbn [path_of]. by rewrite str_app_nil_r, !str_app_nil_l, !str_app_assoc.
Qed.

Lemma NewHeadStoreKey_path k :
  head_key_ok k = true ->
  NewHeadStoreKey (path_of [k.(H_DocKey); k.(H_FieldId); Cid_String k.(H_Cid)]) = Ok k.
Proof.
  unfold head_key_ok. rewrite !Bool.andb_true_iff. intros [[Hd Hf] Hc]. unfold NewHeadStoreKey.
  rewrite Split_path_of by auto using elem_ok_free, Cid_String_free.
  rewrite Cid_Decode_String by done. by destruct k.
Qed.

(** a head-store key with a document, a field and a defined CID is recovered
    from its textual form. *)
Theorem NewHeadStoreKey_ToString k :
  head_key_ok k = true -> NewHeadStoreKey (HeadStoreKey_ToString k) = Ok k.
Proof.
  intros Hk. rewrite HeadStoreKey_ToString_path by done. by apply NewHeadStoreKey_path.
Qed.
End HeadKeys.

(** ** Prefix ends *)

(** The carry propagation as a structural recursion: [None] when every byte is
    0xff. *)
Fixpoint bump (b : list ascii) : option (list ascii) :=
  match b with
  | [] => None
  | c :: b' =>
      match bump b' with
      | Some e => Some (c :: e)
      | None => if byte_val c =? 255 then None else Some [byte_of (byte_val c + 1)]
      end
  end.

Lemma byte_succ_val c :
  byte_val (byte_of (byte_val c + 1)) = if byte_val c =? 255 then 0 else byte_val c + 1.
Proof.
  rewrite byte_val_of. pose proof (byte_val_range c). destruct (byte_val c =? 255) eqn:E.
  - by replace (byte_val c) with 255 by lia.
  - apply Z.mod_small. lia.
Qed.

Lemma bump_snoc b c :
  bump (b ++ [c]) = if byte_val c =? 255 then bump b else Some (b ++ [byte_of (byte_val c + 1)]).
Proof.
  induction b as [|a b IH]; cbn; [by destruct (_ =? 255)|].
  rewrite IH. by destruct (byte_val c =? 255).
Qed.

Lemma bytesPrefixEnd_loop_bump b rest :
  bytesPrefixEnd_loop (length b) (b ++ rest) = bump b.
Proof.
  revert rest; induction b as [|c b IH] using rev_ind; intros rest; [done|].
  rewrite bump_snoc, length_app, Nat.add_comm. cbn [length bytesPrefixEnd_loop Nat.add].
  rewrite <- app_assoc. cbn [app].
  rewrite list_lookup_middle by done. rewrite byte_succ_val.
  pose proof (byte_val_range c).
  rewrite insert_app_r_alt, Nat.sub_diag by lia. cbn.
  destruct (byte_val c =? 255) eqn:E.
  - by rewrite IH.
  - replace (byte_val c + 1 =? 0) with false by lia.
    rewrite cons_middle, app_assoc. f_equal.
    apply take_app_length'. rewrite length_app. cbn. lia.
Qed.

Definition bump_str (s : string) : option string :=
  String.string_of_list_ascii <$> bump (String.list_ascii_of_string s).

Lemma bytesPrefixEnd_bump b :
  bytesPrefixEnd b = match bump_str b with Some e => e | None => b end.
Proof.
  unfold bytesPrefixEnd, bump_str.
  replace (String.length b) with (length (String.list_ascii_of_string b))
    by (induction b; cbn; auto).
  rewrite <- (app_nil_r (String.list_ascii_of_string b)) at 2.
  rewrite bytesPrefixEnd_loop_bump. by destruct (bump _).
Qed.

Lemma bump_str_cons c s :
  bump_str (String c s) =
    match bump_str s with
    | Some e => Some (String c e)
    | None => if byte_val c =? 255 then None else Some (String (byte_of (byte_val c + 1)) "")
    end.
Proof.
  unfold bump_str. cbn. destruct (bump _); [done|]. by destruct (_ =? 255).
Qed.

Lemma bump_str_None_prefix b s : bump_str b = None -> b <=s s -> str_prefix b s.
Proof.
  revert s; induction b as [|c b IH]; intros s Hb Hs; [by exists s|].
  rewrite bump_str_cons in Hb. destruct (bump_str b); [done|].
  destruct (byte_val c =? 255) eqn:E; [|done].
  destruct s as [|d s].
  { rewrite str_le_eq in Hs. by destruct Hs. }
  rewrite str_le_eq, str_lt_cons in Hs. pose proof (byte_val_range d).
  assert (c = d /\ b <=s s) as [-> Hbs].
  { destruct Hs as [[?|[-> ?]]|[= -> ->]]; [lia|auto with go..]. }
  destruct (IH s eq_refl Hbs) as [t ->]. by exists t.
Qed.

Lemma bump_str_range b e s :
  bump_str b = Some e -> (b <=s s /\ s <s e) <-> str_prefix b s.
Proof.
  revert e s; induction b as [|c b IH]; intros e s He; [done|].
  rewrite bump_str_cons in He. destruct (bump_str b) as [e'|] eqn:Eb.
  - injection He as <-. destruct s as [|d s].
    { split; [by intros [?%str_le_cons_nil _]|by intros [t ?]]. }
    specialize (IH e' s eq_refl). rewrite str_le_eq, !str_lt_cons.
    split.
    + intros [Hl Hr].
      assert (c = d) as ->.
      { apply byte_val_inj. destruct Hl as [[?|[-> ?]]|Hl]; [|done|by injection Hl as ->].
        destruct Hr as [?|[-> ?]]; lia. }
      destruct IH as [[t ->] _]; [|by exists t].
      split; [|by destruct Hr as [?|[_ ?]]; [lia|]].
      rewrite str_le_eq. destruct Hl as [[?|[_ ?]]|Hl]; [lia|auto|].
      injection Hl as ->. auto.
    + intros [t Ht]. rewrite str_app_cons in Ht. injection Ht as -> ->.
      destruct IH as [_ [Hl Hr]]; [by exists t|]. rewrite str_le_eq in Hl.
      split; [destruct Hl as [?|<-]; auto|by right].
  - destruct (byte_val c =? 255) eqn:E; [done|]. injection He as <-.
    assert (byte_val (byte_of (byte_val c + 1)) = byte_val c + 1) as Hsucc
      by (rewrite byte_succ_val, E; done).
    destruct s as [|d s].
    { split; [by intros [?%str_le_cons_nil _]|by intros [t ?]]. }
    rewrite str_le_eq, !str_lt_cons, Hsucc. split.
    + intros [Hl Hr]. pose proof (str_lt_nil_r s).
      assert (c = d /\ b <=s s) as [-> Hle].
      { destruct Hr as [?|[_ ?]]; [|done].
        destruct Hl as [[?|[-> ?]]|[= -> ->]]; [lia|auto with go..]. }
      destruct (bump_str_None_prefix b s Eb Hle) as [t ->]. by exists t.
    + intros [t Ht]. rewrite str_app_cons in Ht. injection Ht as -> ->.
      split; [|left; lia]. pose proof (str_prefix_le b (b +:+ t) ltac:(by exists t)) as Hle.
      rewrite str_le_eq in Hle. destruct Hle as [?|<-]; auto.
Qed.

(** Every byte of the string is 0xff. *)
Fixpoint all_ff (s : string) : bool :=
  match s with "" => true | String c s' => (byte_val c =? 255) && all_ff s' end.

Lemma bump_str_None b : bump_str b = None <-> all_ff b = true.
Proof.
  induction b as [|c b IH]; [done|]. rewrite bump_str_cons. cbn [all_ff].
  rewrite Bool.andb_true_iff, <- IH.
  destruct (bump_str b); [|destruct (byte_val c =? 255)]; intuition congruence.
Qed.

(** [bytesPrefixEnd b] is the least upper bound of the strings that start
    with [b]: the strings between [b] and it are exactly those with prefix [b],
    whenever some byte of [b] is not 0xff. *)
Theorem bytesPrefixEnd_range b s :
  all_ff b = false -> (b <=s s /\ s <s bytesPrefixEnd b) <-> str_prefix b s.
Proof.
  intros Hb. rewrite bytesPrefixEnd_bump. destruct (bump_str b) as [e|] eqn:E.
  - by apply bump_str_range.
  - apply bump_str_None in E. congruence.
Qed.

Lemma bytesPrefixEnd_range_witness :
  ("bae" <=s "bae-1" /\ "bae-1" <s bytesPrefixEnd "bae") <-> str_prefix "bae" "bae-1".
Proof. apply (bytesPrefixEnd_range "bae" "bae-1"). reflexivity. Defined.

Lemma range_app p b e s :
  (forall t, (b <=s t /\ t <s e) <-> str_prefix b t) ->
  (p +:+ b <=s s /\ s <s p +:+ e) <-> str_prefix (p +:+ b) s.
Proof.
  intros Hr. split.
  - intros [Hl Hu]. assert (str_prefix p s) as [t ->].
    { eapply str_prefix_between; [|exact Hu].
      eapply str_le_trans; [|exact Hl]. apply str_prefix_le. by exists b. }
    assert (str_prefix b t) as [u ->].
    { apply Hr. rewrite str_app_lt_l in Hu. split; [|done].
      rewrite str_le_lt in Hl |- *. by rewrite str_app_lt_l in Hl. }
    exists u. by rewrite str_app_assoc.
  - intros [u ->]. rewrite str_app_assoc, str_app_lt_l, str_le_lt, str_app_lt_l, <- str_le_lt.
    apply Hr. by exists u.
Qed.

Lemma bytesPrefixEnd_nonempty b : b <> "" -> bytesPrefixEnd b <> "".
Proof.
  rewrite bytesPrefixEnd_bump. destruct (bump_str b) as [e|] eqn:E; [|done].
  destruct b as [|c b]; [done|]. rewrite bump_str_cons in E.
  destruct (bump_str b); [by injection E as <-|].
  destruct (_ =? 255); [done|]. by injection E as <-.
Qed.

(** The last non-empty part of a key. *)
Definition last_part (k : DataStoreKey) : string :=
  if negb (String.eqb k.(FieldId) "") then k.(FieldId)
  else if negb (String.eqb k.(DocKey) "") then k.(DocKey)
  else if negb (String.eqb k.(InstanceType) "") then k.(InstanceType)
  else k.(CollectionID).

Lemma add_part_empty r : add_part r "" = r.
Proof. done. Qed.

Lemma add_part_nonempty r w : w <> "" -> add_part r w = (r +:+ "/") +:+ w.
Proof.
  intros Hw. unfold add_part. rewrite (proj2 (String.eqb_neq _ _) Hw).
  by rewrite str_app_assoc.
Qed.

(** The textual forms of a key and of its prefix end differ in the last part only. *)
Lemma PrefixEnd_ToString k :
  last_part k <> "" ->
  exists p, DataStoreKey_ToString k = p +:+ last_part k /\
            DataStoreKey_ToString (PrefixEnd k) = p +:+ bytesPrefixEnd (last_part k).
Proof.
  destruct k as [c t d f]. unfold last_part, PrefixEnd, DataStoreKey_ToString.
  cbn [CollectionID InstanceType DocKey FieldId].
  destruct (String.eqb_spec f "") as [->|Hf]; cbn [negb]; intros Hl.
  2:{ eexists. cbn [CollectionID InstanceType DocKey FieldId].
      rewrite !(add_part_nonempty _ _ (bytesPrefixEnd_nonempty _ Hl)), (add_part_nonempty _ f) by done.
      done. }
  revert Hl. destruct (String.eqb_spec d "") as [->|Hd]; cbn [negb]; intros Hl.
  2:{ eexists. cbn [CollectionID InstanceType DocKey FieldId].
      rewrite !add_part_empty, !(add_part_nonempty _ _ (bytesPrefixEnd_nonempty _ Hl)), (add_part_nonempty _ d) by done.
      done. }
  revert Hl. destruct (String.eqb_spec t "") as [->|Ht]; cbn [negb]; intros Hl.
  2:{ eexists. cbn [CollectionID InstanceType DocKey FieldId].
      rewrite !add_part_empty, !(add_part_nonempty _ _ (bytesPrefixEnd_nonempty _ Hl)), (add_part_nonempty _ t) by done.
      done. }
  rewrite (proj2 (String.eqb_neq _ _) Hl). cbn [negb].
  eexists. cbn [CollectionID InstanceType DocKey FieldId].
  rewrite !add_part_empty, !(add_part_nonempty _ _ (bytesPrefixEnd_nonempty _ Hl)), (add_part_nonempty _ c) by done.
  done.
Qed.

(** the range from a key to its [PrefixEnd] holds exactly the key strings that
    start with the key, as long as its last part is not all 0xff bytes. *)
Theorem PrefixEnd_range k s :
  all_ff (last_part k) = false ->
  (DataStoreKey_ToString k <=s s /\ s <s DataStoreKey_ToString (PrefixEnd k)) <->
    str_prefix (DataStoreKey_ToString k) s.
Proof.
  intros Hff. destruct (PrefixEnd_ToString k) as (p & -> & ->).
  { intros E. by rewrite E in Hff. }
  apply range_app. intros t. by apply bytesPrefixEnd_range.
Qed.

Lemma PrefixEnd_range_witness :
  let k := mkDataStoreKey "1" "v" "bae-1" "" in
  (DataStoreKey_ToString k <=s "/1/v/bae-1/2" /\
   "/1/v/bae-1/2" <s DataStoreKey_ToString (PrefixEnd k)) <->
    str_prefix (DataStoreKey_ToString k) "/1/v/bae-1/2".
Proof. apply (PrefixEnd_range (mkDataStoreKey "1" "v" "bae-1" "")). reflexivity. Defined.

(** A key whose last part is all 0xff bytes (the empty key included) is its own
    prefix end: the range it delimits is empty. *)
Theorem PrefixEnd_all_ff k :
  all_ff (last_part k) = true -> PrefixEnd k = k.
Proof.
  destruct k as [c t d f]. unfold last_part, PrefixEnd. cbn [CollectionID InstanceType DocKey FieldId].
  intros H. repeat case_match; try done; f_equal;
    rewrite bytesPrefixEnd_bump; by rewrite (proj2 (bump_str_None _) H).
Qed.

(** ** Field identifiers *)

(** a 32-bit field identifier printed into a key is read back by [FieldID]. *)
Theorem FieldID_WithFieldId k id :
  is_u32 id -> FieldID (WithFieldId k (Sprint id)) = Ok id.
Proof.
  intros Hid. unfold FieldID, WithFieldId. cbn [FieldId].
  rewrite Atoi_Sprint by done. by rewrite u32_small.
Qed.

Lemma FieldID_WithFieldId_witness :
  FieldID (WithFieldId DataStoreKey_zero (Sprint 4294967295)) = Ok 4294967295.
Proof. apply (FieldID_WithFieldId DataStoreKey_zero 4294967295). unfold is_u32. lia. Defined.

(** A field part outside the 32-bit range is truncated silently, although the
    comment on [FieldID] announces an error for it. *)
Theorem FieldID_truncates :
  FieldID (mkDataStoreKey "1" "v" "bae-1" "4294967298") = Ok 2 /\
  FieldID (mkDataStoreKey "1" "v" "bae-1" "-1") = Ok 4294967295.
Proof. split; reflexivity. Qed.

(** ** Datastore keys of documents *)

Definition key_elems (k : DataStoreKey) : list string :=
  k.(CollectionID) :: k.(InstanceType) :: k.(DocKey) ::
  (if String.eqb k.(FieldId) "" then [] else [k.(FieldId)]).

Lemma key_elems_ok k : key_ok k = true -> Forall (fun w => elem_ok w = true) (key_elems k).
Proof.
  intros (? & ? & ? & Hf)%key_ok_inv. unfold key_elems.
  destruct (String.eqb_spec (FieldId k) ""); repeat constructor; try done. by destruct Hf.
Qed.

Lemma DataStoreKey_ToString_elems k :
  key_ok k = true -> DataStoreKey_ToString k = path_of (key_elems k).
Proof.
  intros Hk. rewrite DataStoreKey_ToString_path. f_equal.
  pose proof (key_elems_ok k Hk) as H. unfold key_elems in *.
  destruct (String.eqb_spec (FieldId k) "") as [->|].
  - change (parts [CollectionID k; InstanceType k; DocKey k; ""])
      with (parts [CollectionID k; InstanceType k; DocKey k]). by apply parts_ok.
  - by apply parts_ok.
Qed.

Lemma key_elems_inj k1 k2 : key_elems k1 = key_elems k2 -> k1 = k2.
Proof.
  destruct k1 as [c1 t1 d1 f1], k2 as [c2 t2 d2 f2]. unfold key_elems.
  cbn [CollectionID InstanceType DocKey FieldId].
  destruct (String.eqb_spec f1 "") as [->|], (String.eqb_spec f2 "") as [->|]; congruence.
Qed.

Lemma Forall_elem_free ws :
  Forall (fun w => elem_ok w = true) ws -> Forall (fun w => free_of "/" w = true) ws.
Proof. intros H. eapply Forall_impl; eauto using elem_ok_free. Qed.

(** parsing the textual form of a document key gives the key back, with or
    without a field part. *)
Theorem NewDataStoreKey_ToString k :
  key_ok k = true -> NewDataStoreKey (DataStoreKey_ToString k) = Ok k.
Proof.
  intros Hk. rewrite DataStoreKey_ToString_elems by done.
  pose proof (Forall_elem_free _ (key_elems_ok k Hk)) as Hf. unfold key_elems in *.
  rewrite NewDataStoreKey_path by done. destruct k as [c t d f]. cbn.
  by destruct (String.eqb_spec f "") as [->|].
Qed.

Lemma NewDataStoreKey_ToString_witness :
  NewDataStoreKey (DataStoreKey_ToString (mkDataStoreKey "1" "v" "bae-123" "2")) =
    Ok (mkDataStoreKey "1" "v" "bae-123" "2").
Proof. apply (NewDataStoreKey_ToString (mkDataStoreKey "1" "v" "bae-123" "2")). reflexivity. Defined.

(** Distinct document keys have distinct textual forms. *)
Lemma DataStoreKey_ToString_inj k1 k2 :
  key_ok k1 = true -> key_ok k2 = true ->
  DataStoreKey_ToString k1 = DataStoreKey_ToString k2 -> k1 = k2.
Proof.
  intros H1 H2. rewrite !DataStoreKey_ToString_elems by done.
  intros E%path_of_inj; eauto using key_elems_inj, Forall_elem_free, key_elems_ok.
Qed.

Definition primary_ok (k : PrimaryDataStoreKey) : bool :=
  elem_ok k.(P_CollectionId) && elem_ok k.(P_DocKey).

Lemma PrimaryDataStoreKey_ToString_elems k :
  primary_ok k = true ->
  PrimaryDataStoreKey_ToString k = path_of [k.(P_CollectionId); "pk"; k.(P_DocKey)].
Proof.
  unfold primary_ok. rewrite Bool.andb_true_iff. intros [? ?].
  rewrite PrimaryDataStoreKey_ToString_path, parts_ok; auto.
Qed.

(** A key that names a document, and possibly a field of it, whatever its
    instance type. *)
Definition doc_ok (k : DataStoreKey) : bool :=
  elem_ok k.(CollectionID) && elem_ok k.(DocKey) &&
  (String.eqb k.(FieldId) "" || elem_ok k.(FieldId)).

Lemma doc_ok_flags k :
  doc_ok k = true ->
  key_ok (WithValueFlag k) = true /\ key_ok (WithPriorityFlag k) = true /\
  key_ok (WithDeletedFlag k) = true /\ primary_ok (ToPrimaryDataStoreKey k) = true.
Proof.
  unfold doc_ok, key_ok, primary_ok. rewrite !Bool.andb_true_iff. cbn. tauto.
Qed.

Section DatastoreKeys.
Context `{DsKey}.

Lemma ToDS_DataStoreKey k :
  key_ok k = true -> ToDS k = DataStoreKey_ToString k.
Proof.
  intros Hk. unfold ToDS, ToString, Key_DataStoreKey. apply NewKey_clean.
  rewrite DataStoreKey_ToString_elems by done. apply clean_key_path_of. by apply key_elems_ok.
Qed.

Lemma ToDS_Primary k :
  primary_ok k = true -> ToDS k = PrimaryDataStoreKey_ToString k.
Proof.
  intros Hk. unfold ToDS, ToString, Key_PrimaryDataStoreKey. apply NewKey_clean.
  rewrite PrimaryDataStoreKey_ToString_elems by done. apply clean_key_path_of.
  unfold primary_ok in Hk. rewrite Bool.andb_true_iff in Hk. destruct Hk; auto.
Qed.

Lemma ToDS_inj k1 k2 : key_ok k1 = true -> key_ok k2 = true -> ToDS k1 = ToDS k2 -> k1 = k2.
Proof. intros H1 H2. rewrite !ToDS_DataStoreKey by done. by apply DataStoreKey_ToString_inj. Qed.

(** The marker key of a document is none of its instance keys. *)
Lemma ToDS_primary_ne p k :
  primary_ok p = true -> key_ok k = true -> k.(InstanceType) <> "pk" -> ToDS p <> ToDS k.
Proof.
  intros Hp Hk Ht. rewrite ToDS_Primary, ToDS_DataStoreKey by done.
  rewrite PrimaryDataStoreKey_ToString_elems, DataStoreKey_ToString_elems by done.
  intros E%path_of_inj; [unfold key_elems in E; congruence| |].
  - unfold primary_ok in Hp. rewrite Bool.andb_true_iff in Hp. destruct Hp.
    auto using elem_ok_free.
  - by apply Forall_elem_free, key_elems_ok.
Qed.
End DatastoreKeys.

(** ** Instances of the interfaces

    [ds.NewKey] as the identity (it is one on clean keys), and CIDs as numbers
    printed in decimal, zero being the undefined CID.  They show that the laws of
    the two classes are satisfiable and make the models that use them run. *)
Module KeyInstances.
Lemma path_of_Split r : path_of (Split r "/") = String "/" r.
Proof.
  pose proof (Join_Split r "/") as E. destruct (Split r "/") as [|w ws] eqn:Es; [by apply Split_not_nil in Es|].
  rewrite <- E. clear. revert w. induction ws as [|v ws IH]; intros w; cbn [path_of Join].
  - by rewrite str_app_nil_r.
  - specialize (IH v). cbn [path_of] in IH. by rewrite IH.
Qed.

Lemma collapse_clean s : clean_key s = true -> collapse s = s.
Proof.
  destruct s as [|c r]; [done|]. cbn [clean_key]. intros Hc. destruct (ascii_dec c "/") as [->|Hne].
  - unfold collapse. change (Split (String "/" r) "/") with (Split ("" +:+ String "/" r) "/").
    rewrite Split_app by done. cbn [List.filter String.eqb negb].
    rewrite <- (path_of_Split r). change (forallb clean_elem (Split r "/") = true) in Hc.
    clear -Hc. induction (Split r "/") as [|w ws IH]; [done|]. cbn in Hc. apply Bool.andb_true_iff in Hc as [Hw Hws].
    unfold clean_elem in Hw. rewrite !Bool.andb_true_iff in Hw. destruct Hw as [[Hw _] _].
    cbn [List.filter]. rewrite Hw. cbn [foldr path_of]. f_equal. f_equal. by apply IH.
  - by destruct c as [[] [] [] [] [] [] [] []].
Qed.

#[export] Instance DsKey_collapse : DsKey :=
  {| NewKey := collapse; NewKey_clean := collapse_clean; NewKey_collapse s _ := eq_refl |}.

Definition decode (s : string) : result N :=
  match s with
  | "" => Err ErrCidDecode
  | _ => match digits_val 0 s with Some z => Ok (Z.to_N z) | None => Err ErrCidDecode end
  end.

Lemma digits_elem_ok s n : digits_val n s <> None -> free_of "/" s = true.
Proof.
  revert n; induction s as [|c s IH]; intros n; [done|]. cbn [digits_val free_of].
  unfold digit. destruct (_ && _) eqn:E; [|done]. intros Hd. rewrite (IH _ Hd), Bool.andb_true_r.
  destruct (Ascii.eqb_spec c "/") as [->|]; done.
Qed.

Lemma pretty_digits (c : N) : digits_val 0 (pretty c) = Some (Z.of_N c).
Proof.
  unfold pretty, pretty_N. case_decide; [by subst|]. apply (pretty_N_go_digits c "").
Qed.

Lemma pretty_clean (c : N) : clean_elem (pretty c) = true.
Proof.
  pose proof (pretty_digits c) as H. unfold clean_elem.
  destruct (String.eqb_spec (pretty c) "") as [E|].
  { rewrite E in H. injection H as H. assert (c = 0)%N as -> by lia. done. }
  destruct (String.eqb_spec (pretty c) ".") as [E|]; [by rewrite E in H|].
  destruct (String.eqb_spec (pretty c) "..") as [E|]; [by rewrite E in H|done].
Qed.

#[export] Program Instance CidOps_N : CidOps := {|
  Cid := N; Cid_Undef := 0%N; Cid_Defined c := negb (N.eqb c 0);
  Cid_String c := pretty c; Cid_Decode := decode |}.
Next Obligation. done. Qed.
Next Obligation.
  intros c _. unfold decode. pose proof (pretty_digits c) as H. rewrite H.
  destruct (pretty c) eqn:E; [|by rewrite N2Z.id].
  pose proof (pretty_clean c) as Hc. by rewrite E in Hc.
Qed.
Next Obligation. intros c. eapply digits_elem_ok. by rewrite pretty_digits. Qed.
Next Obligation. intros c _. apply pretty_clean. Qed.
End KeyInstances.

Lemma NewHeadStoreKey_ToString_witness :
  let k := mkHeadStoreKey KeyInstances.CidOps_N "bae-1" "C" 7%N in
  NewHeadStoreKey (HeadStoreKey_ToString k) = Ok k.
Proof.
  apply (NewHeadStoreKey_ToString (mkHeadStoreKey KeyInstances.CidOps_N "bae-1" "C" 7%N)). reflexivity.
Defined.
