(* ===== verification/Spans.v ===== *)
(** * Key spans (core/data.go)

    Half-open ranges of datastore keys, their thirteen-way comparison, and
    [MergeAscending], which the document fetcher uses to turn the requested spans
    into an ascending list of disjoint ones.  Slices of the [Span] interface may
    hold [nil]; they are lists of [option span], and a method call on [nil] or an
    index out of range is [Panic]. *)

From S2P Require Import Prelude GoStd Keys.

Record span := NewSpan { Start : DataStoreKey; End : DataStoreKey }.

#[global] Instance span_eq_dec : EqDecision span.
Proof. solve_decision. Defined.

Inductive SpanComparisonResult :=
  | Before
  | StartBeforeEndEqualToStart
  | StartBeforeEndWithin
  | StartBeforeEndEqual
  | StartBeforeEndAfter
  | StartEqualEndWithin
  | Equal
  | StartEqualEndAfter
  | StartWithinEndWithin
  | StartWithinEndAfter
  | StartWithinEndEqual
  | StartEqualToEndEndAfter
  | After.

Definition isAdjacent (this other : DataStoreKey) : bool :=
  (String.length (DataStoreKey_ToString this) =? String.length (DataStoreKey_ToString other))%nat &&
  (String.eqb (DataStoreKey_ToString (PrefixEnd this)) (DataStoreKey_ToString other) ||
   String.eqb (DataStoreKey_ToString this) (DataStoreKey_ToString (PrefixEnd other))).

(** [span.Compare]: the cascade of conditions, each [if] that does not return
    falling through to the next. *)
Definition Compare (this other : span) : SpanComparisonResult :=
  if bool_decide (this = other) then Equal else
  let thisStart := DataStoreKey_ToString this.(Start) in
  let thisEnd := DataStoreKey_ToString this.(End) in
  let otherStart := DataStoreKey_ToString other.(Start) in
  let otherEnd := DataStoreKey_ToString other.(End) in
  let after :=
    if String.eqb thisStart otherEnd || isAdjacent this.(Start) other.(End)
    then StartEqualToEndEndAfter else After in
  let within :=
    if String.ltb thisStart otherEnd then
      if String.ltb thisEnd otherEnd || HasPrefix thisEnd otherEnd then StartWithinEndWithin
      else if String.eqb thisEnd otherEnd then StartWithinEndEqual
      else if String.ltb otherEnd thisEnd then StartWithinEndAfter
      else after
    else after in
  let equal :=
    if String.eqb thisStart otherStart then
      if String.ltb thisEnd otherEnd || HasPrefix thisEnd otherEnd then StartEqualEndWithin
      else if String.eqb thisEnd otherEnd then Equal
      else if String.ltb otherEnd thisEnd then StartEqualEndAfter
      else within
    else within in
  if String.ltb thisStart otherStart then
    if String.eqb thisEnd otherStart || isAdjacent this.(End) other.(Start)
    then StartBeforeEndEqualToStart
    else if String.ltb thisEnd otherStart then Before
    else if String.ltb thisEnd otherEnd || HasPrefix thisEnd otherEnd then StartBeforeEndWithin
    else if String.eqb thisEnd otherEnd then StartBeforeEndEqual
    else if String.ltb otherEnd thisEnd then StartBeforeEndAfter
    else equal
  else equal.

(** ** [removeBefore] *)

(** The scan for [indexOfLastMatchingItem]: [None] is -1. *)
Fixpoint lastMatching (i : nat) (items : list (option span)) (end_ : string)
    (found : option nat) : result (option nat) :=
  match items with
  | [] => Ok found
  | None :: _ => Panic
  | Some s :: rest =>
      let found' := if String.leb (DataStoreKey_ToString s.(End)) end_ then Some i else found in
      lastMatching (S i) rest end_ found'
  end.

(** The copying loop of the items that follow: the source writes each of them to
    the same index [j]. *)
Fixpoint copyFollowing (result_ : list (option span)) (j : nat) (items : list (option span))
    : result (list (option span)) :=
  match items with
  | [] => Ok result_
  | it :: rest =>
      if (j <? length result_)%nat then copyFollowing (<[j := it]> result_) j rest else Panic
  end.

Definition removeBefore (spans : list (option span)) (startIndex : nat) (end_ : string)
    : result (list (option span)) :=
  let! found := lastMatching startIndex (drop startIndex spans) end_ None in
  match found with
  | None => Ok spans
  | Some last =>
      let numberOfItemsToRemove := (last - startIndex)%nat in
      let resultLen := (length spans - numberOfItemsToRemove)%nat in
      let result_ := take startIndex spans ++ replicate (resultLen - startIndex) None in
      let j := (startIndex + numberOfItemsToRemove)%nat in
      copyFollowing result_ j (drop (S last) spans)
  end.

(** ** [MergeAscending] *)

(** One comparison of [sp] with [uniqueSpans[i]]: the new slice, the new index and
    the new value of [uniqueSpanFound]. *)
Definition mergeStep (sp : span) (unique : list (option span)) (i : nat) (found : bool)
    : result (list (option span) * nat * bool) :=
  match unique !! i with
  | None | Some None => Panic
  | Some (Some u) =>
      match Compare sp u with
      | Before =>
          let unique' :=
            take i unique ++ Some (NewSpan sp.(Start) sp.(End))
              :: replicate (length unique - i) (Some u) in
          Ok (unique', length unique', true)
      | StartBeforeEndEqualToStart | StartBeforeEndWithin | StartBeforeEndEqual =>
          Ok (<[i := Some (NewSpan sp.(Start) u.(End))]> unique, S i, true)
      | StartBeforeEndAfter =>
          let! unique' := removeBefore unique i (DataStoreKey_ToString sp.(End)) in
          Ok (<[i := Some (NewSpan sp.(Start) sp.(End))]> unique', length unique', true)
      | StartEqualEndWithin | Equal | StartWithinEndWithin | StartWithinEndEqual =>
          Ok (unique, length unique, true)
      | StartEqualEndAfter | StartWithinEndAfter | StartEqualToEndEndAfter =>
          let! unique' := removeBefore unique i (DataStoreKey_ToString sp.(End)) in
          Ok (<[i := Some (NewSpan u.(Start) sp.(End))]> unique', length unique', true)
      | After => Ok (unique, S i, found)
      end
  end.

(** The inner loop.  Each iteration either leaves [i] at the length of the slice
    or increments it without changing the length, so [length unique + 1]
    iterations are enough. *)
Fixpoint mergeInner (fuel : nat) (sp : span) (unique : list (option span)) (i : nat) (found : bool)
    : result (list (option span) * bool) :=
  match fuel with
  | O => Panic
  | S fuel' =>
      if (i <? length unique)%nat then
        let! (unique', i', found') := mergeStep sp unique i found in
        mergeInner fuel' sp unique' i' found'
      else Ok (unique, found)
  end.

Definition mergeOne (unique : list (option span)) (sp : span) : result (list (option span)) :=
  let! (unique', found) := mergeInner (S (length unique)) sp unique 0 false in
  Ok (if (found : bool) then unique' else unique' ++ [Some sp]).

Fixpoint mergeAll (unique : list (option span)) (spans : list span) : result (list (option span)) :=
  match spans with
  | [] => Ok unique
  | sp :: rest => let! unique' := mergeOne unique sp in mergeAll unique' rest
  end.

Definition MergeAscending (spans : list span) : result (list (option span)) :=
  if (length spans <=? 1)%nat then Ok (Some <$> spans) else mergeAll [] spans.

(** ** Correctness on inputs sorted by their start *)

Definition spanStart (x : span) : string := DataStoreKey_ToString x.(Start).
Definition spanEnd (x : span) : string := DataStoreKey_ToString x.(End).

(** The keys of a span: those from its start, inclusive, to its end, exclusive. *)
Definition in_span (x : span) (s : string) : Prop := spanStart x <=s s /\ s <s spanEnd x.

Definition valid_span (x : span) : Prop := spanStart x <s spanEnd x.

Ltac str_bools :=
  repeat match goal with
  | H : ?a <s ?b |- context [String.ltb ?a ?b] => rewrite (H : String.ltb a b = true)
  | H : ~ ?a <s ?b |- context [String.ltb ?a ?b] =>
      rewrite (Bool.not_true_is_false _ (H : ~ String.ltb a b = true))
  | H : ?a <> ?b |- context [String.eqb ?a ?b] => rewrite (proj2 (String.eqb_neq a b) H)
  | |- context [String.eqb ?a ?a] => rewrite (String.eqb_refl a)
  end.

Lemma lt_facts s t : s <s t -> ~ t <s s /\ s <> t /\ t <> s.
Proof.
  intros H. repeat split; [|by intros ->; eapply str_lt_irrefl..].
  intros ?. eapply str_lt_irrefl, str_lt_trans; eauto.
Qed.

Lemma Compare_after x u :
  valid_span u -> spanEnd u <s spanStart x -> isAdjacent x.(Start) u.(End) = false ->
  Compare x u = After.
Proof.
  unfold valid_span, spanStart, spanEnd. intros Hu Hx Ha. unfold Compare.
  pose proof (str_lt_trans _ _ _ Hu Hx) as Hs.
  apply lt_facts in Hx as (? & ? & ?). apply lt_facts in Hs as (? & ? & ?).
  rewrite bool_decide_eq_false_2 by (intros ->; congruence). rewrite Ha. by str_bools.
Qed.

(** [x] starts within [u] and ends no later. *)
Definition contained_result (r : SpanComparisonResult) : Prop :=
  r = Equal \/ r = StartEqualEndWithin \/ r = StartWithinEndWithin.

(** [x] starts within [u], or where [u] ends, and ends after it. *)
Definition extends_result (r : SpanComparisonResult) : Prop :=
  r = StartEqualEndAfter \/ r = StartWithinEndAfter \/ r = StartEqualToEndEndAfter.

Lemma Compare_contained x u :
  spanStart u <=s spanStart x -> spanStart x <s spanEnd u -> spanEnd x <=s spanEnd u ->
  contained_result (Compare x u).
Proof.
  unfold spanStart, spanEnd, contained_result. intros Hs Hw He. unfold Compare.
  destruct (bool_decide (x = u)); [auto|]. rewrite str_le_lt in Hs. str_bools.
  assert (String.ltb (DataStoreKey_ToString (End x)) (DataStoreKey_ToString (End u))
    || HasPrefix (DataStoreKey_ToString (End x)) (DataStoreKey_ToString (End u)) = true) as ->.
  { apply Bool.orb_true_iff. rewrite HasPrefix_spec. rewrite str_le_eq in He.
    destruct He as [?| ->]; [by left|right; apply str_prefix_refl]. }
  destruct (String.eqb _ _); auto.
Qed.

Lemma Compare_extends x u :
  valid_span u -> spanStart u <=s spanStart x -> spanStart x <=s spanEnd u ->
  spanEnd u <s spanEnd x -> HasPrefix (spanEnd x) (spanEnd u) = false ->
  extends_result (Compare x u).
Proof.
  unfold valid_span, spanStart, spanEnd, extends_result. intros Hv Hs Hw He Hp. unfold Compare.
  rewrite bool_decide_eq_false_2 by (intros ->; by eapply str_lt_irrefl).
  pose proof (lt_facts _ _ He) as (? & ? & ?). rewrite str_le_lt in Hs. rewrite Hp. str_bools. cbn.
  destruct (String.eqb_spec (DataStoreKey_ToString (Start x)) (DataStoreKey_ToString (Start u)));
    [auto|].
  rewrite str_le_eq in Hw. destruct Hw as [Hw|Hw].
  - str_bools. auto.
  - rewrite Hw. pose proof (str_lt_irrefl (DataStoreKey_ToString (End u))). str_bools. auto.
Qed.

Lemma lookup_somes (us : list span) r y i :
  i = length us -> ((Some <$> us) ++ Some y :: r : list (option span)) !! i = Some (Some y).
Proof. intros ->. rewrite <- (length_fmap Some us). by apply list_lookup_middle. Qed.

Lemma mergeInner_skip x ws r fuel :
  Forall (fun w => Compare x w = After) ws ->
  mergeInner (length ws + fuel) x ((Some <$> ws) ++ r) 0 false =
    mergeInner fuel x ((Some <$> ws) ++ r) (length ws) false.
Proof.
  revert r fuel; induction ws as [|w ws IH] using rev_ind; intros r fuel H; [done|].
  apply Forall_app in H as [Hws Hw]. apply Forall_cons in Hw as [Hw _].
  rewrite length_app, Nat.add_comm. cbn [length]. rewrite (Nat.add_comm (length ws)), Nat.add_assoc.
  rewrite fmap_app, <- app_assoc. cbn [app fmap list_fmap].
  replace (fuel + 1 + length ws)%nat with (length ws + (S fuel))%nat by lia.
  rewrite IH by done. cbn [mergeInner]. unfold mergeStep.
  rewrite lookup_somes by done. rewrite Hw. cbn [rbind].
  replace (_ <? _)%nat with true; [f_equal; lia|].
  symmetry. apply Nat.ltb_lt. rewrite length_app, length_fmap. cbn. lia.
Qed.

Lemma removeBefore_last us y e :
  spanEnd y <=s e ->
  removeBefore ((Some <$> us) ++ [Some y]) (length us) e = Ok ((Some <$> us) ++ [None]).
Proof.
  unfold spanEnd. intros He. unfold removeBefore.
  rewrite drop_app_length' by by rewrite length_fmap.
  cbn [lastMatching]. rewrite (He : String.leb _ _ = true). cbn [rbind].
  rewrite Nat.sub_diag, Nat.sub_0_r, length_app, length_fmap, take_app_length' by by rewrite length_fmap.
  replace (length us + length [Some y] - length us)%nat with 1%nat by (cbn; lia).
  rewrite drop_ge by (rewrite length_app, length_fmap; cbn; lia). done.
Qed.

(** What one span does to the merged list when it starts no earlier than all of
    its members: it is appended, absorbed, or extends the last member. *)
Definition extend_last (ws : list span) (y x : span) : list span :=
  if String.ltb (spanEnd y) (spanStart x) then ws ++ [y; x]
  else if String.leb (spanEnd x) (spanEnd y) then ws ++ [y]
  else ws ++ [NewSpan y.(Start) x.(End)].

Lemma mergeOne_extend_last ws y x :
  Forall (fun w => Compare x w = After) ws ->
  valid_span y -> valid_span x -> spanStart y <=s spanStart x ->
  (spanEnd y <s spanStart x -> isAdjacent x.(Start) y.(End) = false) ->
  (HasPrefix (spanEnd x) (spanEnd y) = true -> spanEnd x = spanEnd y) ->
  mergeOne (Some <$> (ws ++ [y])) x = Ok (Some <$> extend_last ws y x).
Proof.
  intros Hws Hy Hx Hs Ha Hp. unfold mergeOne.
  rewrite fmap_app, length_app, length_fmap.
  replace (S (length ws + length (Some <$> [y]))) with (length ws + 2)%nat by (cbn; lia).
  cbn [fmap list_fmap]. rewrite mergeInner_skip by done.
  change 2%nat with (S 1). cbn [mergeInner].
  replace (_ <? _)%nat with true by (symmetry; apply Nat.ltb_lt; rewrite length_app, length_fmap; cbn; lia).
  unfold mergeStep. rewrite lookup_somes by done. unfold extend_last.
  destruct (String.ltb (spanEnd y) (spanStart x)) eqn:E1.
  - rewrite Compare_after by auto. cbn [rbind].
    replace (_ <? _)%nat with false by (symmetry; apply Nat.ltb_ge; rewrite length_app, length_fmap; cbn; lia).
    cbn. by rewrite !fmap_app, <- app_assoc.
  - assert (spanStart x <=s spanEnd y) as Hw by (rewrite str_le_lt; unfold str_lt; congruence).
    destruct (String.leb (spanEnd x) (spanEnd y)) eqn:E2.
    + destruct (Compare_contained x y) as [->|[->| ->]]; try done.
      { eapply str_lt_le_trans; eauto. }
      all: cbn [rbind]; rewrite Nat.ltb_irrefl; cbn; by rewrite fmap_app.
    + assert (spanEnd y <s spanEnd x) as Hlt by (rewrite str_lt_not_le; unfold str_le; congruence).
      assert (HasPrefix (spanEnd x) (spanEnd y) = false) as Hnp.
      { destruct (HasPrefix _ _); [|done]. rewrite Hp in Hlt by done. by apply str_lt_irrefl in Hlt. }
      destruct (Compare_extends x y) as [->|[->| ->]]; try done.
      all: rewrite removeBefore_last by by apply str_lt_le.
      all: cbn [rbind]; rewrite length_insert, Nat.ltb_irrefl; cbn [rbind].
      all: rewrite insert_app_r_alt by (rewrite length_fmap; lia).
      all: rewrite length_fmap, Nat.sub_diag, fmap_app; done.
Qed.

(** Spans whose keys are apart, in ascending order. *)
Definition ascending (us : list span) : Prop :=
  StronglySorted (fun a b => spanEnd a <s spanStart b) us.

Definition covers (us : list span) (s : string) : Prop := Exists (fun u => in_span u s) us.

(** The inputs on which the merge is exact: non-empty spans sorted by start, no
    end of which extends another one, and no start adjacent to an end that lies
    before it. *)
Record sorted_input (l : list span) : Prop := {
  si_valid : Forall valid_span l;
  si_sorted : StronglySorted (fun a b => spanStart a <=s spanStart b) l;
  si_ends : forall a b, a ∈ l -> b ∈ l ->
    HasPrefix (spanEnd a) (spanEnd b) = true -> spanEnd a = spanEnd b;
  si_adjacent : forall a b, a ∈ l -> b ∈ l ->
    spanEnd b <s spanStart a -> isAdjacent a.(Start) b.(End) = false;
}.

(** The merged list while the inputs [rest] of [l] remain. *)
Record merge_inv (l us rest : list span) : Prop := {
  mi_valid : Forall valid_span us;
  mi_ascending : ascending us;
  mi_ends : forall u, u ∈ us -> exists a, a ∈ l /\ u.(End) = a.(End);
  mi_starts : forall u x, u ∈ us -> x ∈ rest -> spanStart u <=s spanStart x;
}.

Lemma StronglySorted_snoc_inv {A} (R : A -> A -> Prop) l x :
  StronglySorted R (l ++ [x]) -> StronglySorted R l /\ Forall (fun a => R a x) l.
Proof.
  induction l as [|a l IH]; [by repeat constructor|]. cbn. inversion_clear 1 as [|? ? Hs Hf].
  destruct (IH Hs) as [? ?]. apply Forall_app in Hf as [? Hx]. apply Forall_cons in Hx as [? _].
  split; constructor; auto.
Qed.

Lemma StronglySorted_snoc {A} (R : A -> A -> Prop) l x :
  StronglySorted R l -> Forall (fun a => R a x) l -> StronglySorted R (l ++ [x]).
Proof.
  induction 1 as [|a l Hs IH Hf]; cbn; [repeat constructor|].
  intros Hx. inversion_clear Hx. constructor; [auto|]. apply Forall_app; auto.
Qed.

Lemma covers_snoc ws y s : covers (ws ++ [y]) s <-> covers ws s \/ in_span y s.
Proof. unfold covers. rewrite Exists_app, Exists_cons, Exists_nil. tauto. Qed.

Lemma covers_cons y ws s : covers (y :: ws) s <-> in_span y s \/ covers ws s.
Proof. unfold covers. by rewrite Exists_cons. Qed.

Lemma extend_last_covers ws y x s :
  spanStart y <=s spanStart x -> valid_span y ->
  covers (extend_last ws y x) s <-> covers (ws ++ [y]) s \/ in_span x s.
Proof.
  intros Hs Hy. unfold extend_last.
  destruct (String.ltb _ _) eqn:E1.
  { change (ws ++ [y; x]) with (ws ++ [y] ++ [x]). rewrite app_assoc. apply covers_snoc. }
  assert (spanStart x <=s spanEnd y) as Hw by (rewrite str_le_lt; unfold str_lt; congruence).
  destruct (String.leb _ _) eqn:E2.
  - split; [by left|]. intros [?|[Hl Hr]]; [done|]. apply covers_snoc. right. split.
    + by eapply str_le_trans.
    + by eapply str_lt_le_trans.
  - assert (spanEnd y <s spanEnd x) as Hlt by (rewrite str_lt_not_le; unfold str_le; congruence).
    rewrite !covers_snoc. unfold in_span, spanStart, spanEnd in *. cbn. split.
    + intros [?|[Hl Hr]]; [auto|].
      destruct (decide (s <s DataStoreKey_ToString (End y))); [auto|].
      right. split; [|done]. eapply str_le_trans; [exact Hw|]. by rewrite str_le_lt.
    + intros [[?|[Hl Hr]]|[Hl Hr]]; [auto|right..].
      * split; [done|]. by eapply str_lt_trans.
      * split; [|done]. by eapply str_le_trans.
Qed.

Lemma merge_inv_step l ws y x rest :
  sorted_input l -> x ∈ l -> valid_span x ->
  (forall z, z ∈ rest -> spanStart x <=s spanStart z) ->
  merge_inv l (ws ++ [y]) (x :: rest) ->
  mergeOne (Some <$> (ws ++ [y])) x = Ok (Some <$> extend_last ws y x) /\
  merge_inv l (extend_last ws y x) rest.
Proof.
  intros Hl Hxl Hvx Hrest [Hv Ha He Hs].
  apply StronglySorted_snoc_inv in Ha as [Ha Hay].
  apply Forall_app in Hv as [Hv Hvy]. apply Forall_cons in Hvy as [Hvy _].
  assert (spanStart y <=s spanStart x) as Hyx by (apply Hs; set_solver).
  assert (forall u, u ∈ ws ++ [y] -> spanEnd u <s spanStart x ->
    isAdjacent x.(Start) u.(End) = false) as Hadj.
  { intros u Hu. destruct (He u Hu) as (a & Hal & E). unfold spanEnd. rewrite E.
    by apply (si_adjacent l Hl). }
  split.
  - apply mergeOne_extend_last; auto; [|apply Hadj; set_solver|].
    + apply Forall_forall. intros w Hw. rewrite Forall_forall in Hv, Hay.
      assert (spanEnd w <s spanStart x) by (eapply str_lt_le_trans; [by apply Hay|done]).
      apply Compare_after; auto. apply Hadj; [set_solver|done].
    + destruct (He y) as (a & Hal & E); [set_solver|]. unfold spanEnd at 2 4. rewrite E.
      by apply (si_ends l Hl).
  - unfold extend_last. repeat case_match.
    + change (ws ++ [y; x]) with (ws ++ [y] ++ [x]). rewrite app_assoc. split.
      * rewrite !Forall_app. auto.
      * apply StronglySorted_snoc; [by apply StronglySorted_snoc|].
        apply Forall_app. split; [|by constructor].
        eapply Forall_impl; [exact Hay|]. cbn. intros a Hlt.
        eapply str_lt_le_trans; [exact Hlt|]. done.
      * intros u [?| ->%list_elem_of_singleton]%elem_of_app; eauto.
      * intros u z [?| ->%list_elem_of_singleton]%elem_of_app ?; [apply Hs; set_solver|auto].
    + split; [by rewrite Forall_app; auto|by apply StronglySorted_snoc|done|].
      intros u z ? ?. apply Hs; set_solver.
    + split.
      * rewrite Forall_app. split; [done|]. constructor; [|done].
        unfold valid_span, spanStart, spanEnd in *. cbn. by eapply str_le_lt_trans.
      * apply StronglySorted_snoc; [done|]. done.
      * intros u [?| ->%list_elem_of_singleton]%elem_of_app; [apply He; set_solver|].
        by exists x.
      * intros u z [?| ->%list_elem_of_singleton]%elem_of_app ?; [apply Hs; set_solver|].
        change (spanStart y <=s spanStart z). apply Hs; set_solver.
Qed.

Lemma mergeAll_sorted l rest ws y :
  sorted_input l -> (forall z, z ∈ rest -> z ∈ l) ->
  StronglySorted (fun a b => spanStart a <=s spanStart b) rest ->
  merge_inv l (ws ++ [y]) rest ->
  exists out, mergeAll (Some <$> (ws ++ [y])) rest = Ok (Some <$> out) /\
    ascending out /\ Forall valid_span out /\
    forall s, covers out s <-> covers (ws ++ [y]) s \/ covers rest s.
Proof.
  intros Hl. revert ws y; induction rest as [|x rest IH]; intros ws y Hin Hsort Hinv.
  - exists (ws ++ [y]). destruct Hinv as [? ? _ _]. repeat split; auto.
    intros [?|Hc]; [done|]. by apply Exists_nil in Hc.
  - inversion_clear Hsort as [|? ? Hsr Hfx]. rewrite Forall_forall in Hfx.
    assert (x ∈ l) as Hxl by (apply Hin; set_solver).
    assert (valid_span x) as Hvx by (eapply Forall_forall; [apply (si_valid l Hl)|done]).
    destruct (merge_inv_step l ws y x rest) as [Hone Hinv']; auto.
    cbn [mergeAll]. rewrite Hone. cbn [rbind].
    assert (exists ws' y', extend_last ws y x = ws' ++ [y']) as (ws' & y' & E).
    { unfold extend_last. repeat case_match; [exists (ws ++ [y]), x; by rewrite <- app_assoc|eauto..]. }
    rewrite E in *. destruct (IH ws' y') as (out & Hout & Hasc & Hv & Hcov); auto.
    { intros z Hz. apply Hin. set_solver. }
    exists out. split; [done|]. split; [done|]. split; [done|]. intros s.
    destruct Hinv as [Hv' _ _ Hs]. apply Forall_app in Hv' as [_ Hv'].
    apply Forall_cons in Hv' as [Hvy _].
    rewrite Hcov, <- E, extend_last_covers, covers_cons; [tauto| |done]. apply Hs; set_solver.
Qed.

(** on spans sorted by start, with no start adjacent to an end before it and
    no end extending another, [MergeAscending] returns disjoint ascending spans that
    cover exactly the keys of its input. *)
Theorem MergeAscending_sorted l :
  sorted_input l ->
  exists out, MergeAscending l = Ok (Some <$> out) /\ ascending out /\ Forall valid_span out /\
    forall s, covers out s <-> covers l s.
Proof.
  intros Hl. unfold MergeAscending. destruct l as [|x [|x' rest]].
  - exists []. repeat split; auto; constructor.
  - exists [x]. repeat split; auto; [repeat constructor|apply (si_valid _ Hl)].
  - cbn [length Nat.leb]. pose proof (si_valid _ Hl) as Hv. pose proof (si_sorted _ Hl) as Hs.
    inversion_clear Hs as [|? ? Hsr Hfx]. rewrite Forall_forall in Hfx.
    apply Forall_cons in Hv as [Hvx _].
    destruct (mergeAll_sorted (x :: x' :: rest) (x' :: rest) [] x) as (out & Ho & Ha & Hf & Hc); auto.
    { intros z Hz. by apply list_elem_of_further. }
    { split; [by constructor|by repeat constructor| |].
      - intros u ->%list_elem_of_singleton. exists x. set_solver.
      - intros u z ->%list_elem_of_singleton ?. auto. }
    exists out. split; [exact Ho|]. split; [done|]. split; [done|]. intros s.
    rewrite Hc. cbn [app]. rewrite !covers_cons.
    assert (~ covers [] s) by (by intros ?%Exists_nil). tauto.
Qed.

(** Spans of single documents, as the planner builds them from document keys. *)
Definition doc_span (dockey : string) : span :=
  let k := mkDataStoreKey "1" "v" dockey "" in NewSpan k (PrefixEnd k).

Lemma MergeAscending_sorted_witness :
  let l := [doc_span "bae-1"; doc_span "bae-3a"; doc_span "bae-7"] in
  exists out, MergeAscending l = Ok (Some <$> out) /\ ascending out /\ Forall valid_span out /\
    forall s, covers out s <-> covers l s.
Proof.
  apply (MergeAscending_sorted [doc_span "bae-1"; doc_span "bae-3a"; doc_span "bae-7"]). split.
  - repeat constructor.
  - repeat constructor.
  - intros a b Ha Hb. rewrite !elem_of_cons, elem_of_nil in Ha, Hb.
    destruct Ha as [->|[->|[->|[]]]], Hb as [->|[->|[->|[]]]]; vm_compute; congruence.
  - intros a b Ha Hb. rewrite !elem_of_cons, elem_of_nil in Ha, Hb.
    destruct Ha as [->|[->|[->|[]]]], Hb as [->|[->|[->|[]]]]; vm_compute; congruence.
Defined.

(** ** Behaviour outside those inputs

    The comment of [MergeAscending] promises a unique ascending set for an
    unordered input; the three runs below show where the code departs from it. *)

(** An unordered input can lose a span.  The shift that makes room for a
    span copies one element over all the following ones, so the third document is
    requested but no longer covered, and the second is read twice. *)
Lemma loses_span_run :
  exists out,
    MergeAscending [doc_span "bae-5"; doc_span "bae-8"; doc_span "bae-2"] = Ok (Some <$> out) /\
    out = [doc_span "bae-2"; doc_span "bae-5"; doc_span "bae-5"] /\
    covers [doc_span "bae-5"; doc_span "bae-8"; doc_span "bae-2"] "/1/v/bae-8/1" /\
    ~ covers out "/1/v/bae-8/1".
Proof.
  exists [doc_span "bae-2"; doc_span "bae-5"; doc_span "bae-5"].
  split; [by vm_compute|]. split; [done|]. unfold covers. rewrite !Exists_cons, Exists_nil.
  split; [|intros [[_ H]|[[_ H]|[[_ H]|[]]]]; by vm_compute in H].
  right; left. by vm_compute.
Qed.

(** Merging away several spans can index out of range: [removeBefore] writes
    the items that follow at the index of the last removed item of the old slice. *)
Lemma panics_run :
  MergeAscending
    [doc_span "a1"; doc_span "b1"; doc_span "c1"; doc_span "d1";
     NewSpan (mkDataStoreKey "1" "v" "a0" "") (mkDataStoreKey "1" "v" "c5" "")] = Panic.
Proof. by vm_compute. Qed.

(** Two spans with a gap of one document between them are taken to be adjacent,
    and their merge covers the document of the gap, which neither of them holds. *)
Lemma covers_gap_run :
  exists out,
    MergeAscending [doc_span "bae-1"; doc_span "bae-3"] = Ok (Some <$> out) /\
    covers out "/1/v/bae-2/1" /\
    ~ covers [doc_span "bae-1"; doc_span "bae-3"] "/1/v/bae-2/1".
Proof.
  exists [NewSpan (mkDataStoreKey "1" "v" "bae-1" "") (mkDataStoreKey "1" "v" "bae-4" "")].
  split; [by vm_compute|]. unfold covers. rewrite !Exists_cons, !Exists_nil.
  split; [left; by vm_compute|]. intros [[_ H]|[[H _]|[]]]; by vm_compute in H.
Qed.

(** on inputs other than those, [MergeAscending] can lose a span that was asked
    for, panic, and cover a document that none of the spans holds. *)
Theorem MergeAscending_departs :
  (exists l out key, MergeAscending l = Ok (Some <$> out) /\ covers l key /\ ~ covers out key) /\
  (exists l, MergeAscending l = Panic) /\
  (exists l out key, MergeAscending l = Ok (Some <$> out) /\ covers out key /\ ~ covers l key).
Proof.
  destruct loses_span_run as (out & E & _ & Hc & Hn). destruct covers_gap_run as (out' & E' & Hc' & Hn').
  split; [by eexists _, out, _|]. split; [eexists; exact panics_run|by eexists _, out', _].
Qed.
