(* ===== verification/BTree.v ===== *)
(** * Ordered trees (github.com/tidwall/btree)

    The in-memory store keeps its items in B-trees ordered by a [less] function.  The
    library is outside the repository; the class [BTreeG] states what the store
    relies on: a tree holds its items in strictly ascending order, [Set] replaces the
    item that is equivalent to its argument or adds it, [Delete] removes it.  The
    queries of the library ([Iter], [Descend], [Min]) are functions of the ordered
    items.  A sorted list is an instance. *)

From S2P Require Import Prelude.

(** The order of a tree. *)
Class TreeOrder {A : Type} (less : A -> A -> bool) := {
  less_irrefl : forall x, less x x = false;
  less_trans : forall x y z, less x y = true -> less y z = true -> less x z = true;
  less_trans_neg : forall x y z, less x y = false -> less y z = false -> less x z = false;
}.

Arguments less_irrefl {_} less {_} _.
Arguments less_trans {_} less {_} _ _ _ _ _.
Arguments less_trans_neg {_} less {_} _ _ _ _ _.

(** Neither of two items is below the other. *)
Definition equiv {A} (less : A -> A -> bool) (x y : A) : bool := negb (less x y) && negb (less y x).

Definition ascending {A} (less : A -> A -> bool) : list A -> Prop :=
  StronglySorted (fun x y => less x y = true).

Class BTreeG := {
  tree : forall {A}, (A -> A -> bool) -> Type;
  items : forall {A} {less : A -> A -> bool}, tree less -> list A;
  bt_New : forall {A} (less : A -> A -> bool), tree less;
  bt_Set : forall {A} {less : A -> A -> bool}, A -> tree less -> tree less;
  bt_Delete : forall {A} {less : A -> A -> bool}, A -> tree less -> tree less;
  items_ascending : forall {A} {less : A -> A -> bool} `{!TreeOrder less} (t : tree less),
    ascending less (items t);
  items_New : forall {A} (less : A -> A -> bool), items (bt_New less) = [];
  items_Set : forall {A} {less : A -> A -> bool} `{!TreeOrder less} x (t : tree less) y,
    y ∈ items (bt_Set x t) <-> y = x \/ (y ∈ items t /\ equiv less x y = false);
  items_Delete : forall {A} {less : A -> A -> bool} `{!TreeOrder less} x (t : tree less) y,
    y ∈ items (bt_Delete x t) <-> y ∈ items t /\ equiv less x y = false;
}.

(** ** Queries *)

(** The first item that [Descend] visits: the largest item not above the pivot. *)
Definition Descend {A} (less : A -> A -> bool) (pivot : A) (l : list A) : option A :=
  last (List.filter (fun x => negb (less pivot x)) l).

(** [Min]. *)
Definition Min {A} (l : list A) : option A := head l.

Section Order.
Context {A : Type} {less : A -> A -> bool} `{!TreeOrder less}.

Lemma equiv_sym x y : equiv less x y = equiv less y x.
Proof. unfold equiv. apply Bool.andb_comm. Qed.

Lemma equiv_refl x : equiv less x x = true.
Proof. unfold equiv. by rewrite (less_irrefl less). Qed.

Lemma less_asym x y : less x y = true -> less y x = false.
Proof.
  intros Hxy. destruct (less y x) eqn:Hyx; [|done].
  pose proof (less_trans less x y x Hxy Hyx) as H. by rewrite (less_irrefl less) in H.
Qed.

Lemma less_equiv x y : less x y = true -> equiv less x y = false.
Proof. intros H. unfold equiv. by rewrite H. Qed.

(** An ascending list holds one item of an equivalence class. *)
Lemma ascending_unique l x y :
  ascending less l -> x ∈ l -> y ∈ l -> equiv less x y = true -> x = y.
Proof.
  induction 1 as [|z l Hl IH Hz]; intros Hx Hy E; [by apply elem_of_nil in Hx|].
  rewrite Forall_forall in Hz. rewrite !elem_of_cons in Hx, Hy.
  destruct Hx as [->|Hx], Hy as [->|Hy]; auto.
  - by rewrite (less_equiv _ _ (Hz _ Hy)) in E.
  - by rewrite equiv_sym, (less_equiv _ _ (Hz _ Hx)) in E.
Qed.

Lemma ascending_filter (f : A -> bool) l : ascending less l -> ascending less (List.filter f l).
Proof.
  induction 1 as [|z l Hl IH Hz]; cbn; [constructor|].
  destruct (f z); [|done]. constructor; [done|]. rewrite Forall_forall in *.
  intros y Hy%list_elem_of_In. apply filter_In in Hy as [Hy _]. apply Hz. by apply list_elem_of_In.
Qed.

Lemma Descend_elem l pivot x :
  ascending less l -> Descend less pivot l = Some x ->
  x ∈ l /\ less pivot x = false /\ forall y, y ∈ l -> less pivot y = false -> less x y = false.
Proof.
  intros Hl. unfold Descend. intros (l' & E)%last_Some.
  pose proof (ascending_filter (fun x => negb (less pivot x)) l Hl) as Hs.
  assert (forall y, y ∈ l' ++ [x] <-> y ∈ l /\ less pivot y = false) as Hmem.
  { intros y. rewrite <- E, list_elem_of_In, filter_In, <- list_elem_of_In.
    by rewrite Bool.negb_true_iff. }
  rewrite E in Hs. destruct (proj1 (Hmem x)) as [Hx Hp]; [set_solver|].
  split; [done|]. split; [done|]. intros y Hy Hpy.
  pose proof (proj2 (Hmem y) (conj Hy Hpy)) as Hin.
  apply elem_of_app in Hin as [Hin|E'%list_elem_of_singleton].
  - apply less_asym. apply (StronglySorted_app_1_elem_of _ l' [x] y x Hs Hin). left.
  - subst. apply (less_irrefl less).
Qed.

Lemma Descend_Some l pivot x :
  ascending less l -> Descend less pivot l = Some x <->
    x ∈ l /\ less pivot x = false /\ forall y, y ∈ l -> less pivot y = false -> less x y = false.
Proof.
  intros Hl. split; [by apply Descend_elem|]. intros (Hx & Hp & Hmax).
  destruct (Descend less pivot l) as [z|] eqn:E.
  - apply Descend_elem in E as (Hz & Hpz & Hmaxz); [|done]. f_equal. symmetry.
    apply (ascending_unique l); [done..|]. unfold equiv. by rewrite (Hmax z), (Hmaxz x).
  - unfold Descend in E. apply last_None in E.
    assert (x ∈ List.filter (fun x => negb (less pivot x)) l) as Hin.
    { apply list_elem_of_In, filter_In. split; [by apply list_elem_of_In|]. by rewrite Hp. }
    rewrite E in Hin. by apply elem_of_nil in Hin.
Qed.

Lemma Descend_None l pivot :
  Descend less pivot l = None <-> forall y, y ∈ l -> less pivot y = true.
Proof.
  unfold Descend. rewrite last_None. split.
  - intros E y Hy. destruct (less pivot y) eqn:Hp; [done|].
    assert (y ∈ List.filter (fun x => negb (less pivot x)) l) as Hin.
    { apply list_elem_of_In, filter_In. split; [by apply list_elem_of_In|]. by rewrite Hp. }
    rewrite E in Hin. by apply elem_of_nil in Hin.
  - intros Hall. destruct (List.filter _ l) as [|y l'] eqn:E; [done|].
    assert (y ∈ List.filter (fun x => negb (less pivot x)) l) as Hin by (rewrite E; left).
    apply list_elem_of_In, filter_In in Hin as [Hin Hp]. by rewrite Hall in Hp by by apply list_elem_of_In.
Qed.
End Order.

(** ** Sorted lists as trees *)

Module ListTree.

Fixpoint ins {A} (less : A -> A -> bool) (x : A) (l : list A) : list A :=
  match l with
  | [] => [x]
  | y :: l' => if less x y then x :: y :: l' else if less y x then y :: ins less x l' else x :: l'
  end.

Definition del {A} (less : A -> A -> bool) (x : A) (l : list A) : list A :=
  List.filter (fun y => negb (equiv less x y)) l.

Section Proofs.
Context {A : Type} {less : A -> A -> bool} `{!TreeOrder less}.

Lemma elem_of_ins x l y :
  ascending less l -> y ∈ ins less x l <-> y = x \/ (y ∈ l /\ equiv less x y = false).
Proof.
  induction 1 as [|z l Hl IH Hz]; cbn; [set_solver|]. rewrite Forall_forall in Hz.
  assert (forall w, w ∈ l -> less x z = true \/ equiv less x z = true -> equiv less x w = false) as Hup.
  { intros w Hw [Hxz|Hxz].
    - by apply less_equiv, (less_trans less x z w Hxz), Hz.
    - apply less_equiv. destruct (less x w) eqn:E; [done|]. exfalso.
      unfold equiv in Hxz. apply Bool.andb_true_iff in Hxz as [_ Hzx%Bool.negb_true_iff].
      pose proof (less_trans_neg less z x w Hzx E) as E'. by rewrite Hz in E'. }
  destruct (less x z) eqn:Hxz; [|destruct (less z x) eqn:Hzx].
  - rewrite !elem_of_cons. pose proof (less_equiv _ _ Hxz). split; [|naive_solver].
    intros [->|[->|Hin]]; [by left|right; auto..].
  - rewrite !elem_of_cons, IH. assert (equiv less x z = false) by (rewrite equiv_sym; by apply less_equiv).
    naive_solver.
  - assert (equiv less x z = true) as E by (unfold equiv; by rewrite Hxz, Hzx).
    rewrite !elem_of_cons. split.
    + intros [->|Hin]; [by left|right; auto].
    + intros [->|[[->|Hin] Hne]]; [by left|congruence|by right].
Qed.

Lemma ascending_ins x l : ascending less l -> ascending less (ins less x l).
Proof.
  induction 1 as [|z l Hl IH Hz]; cbn; [by repeat constructor|]. rewrite Forall_forall in Hz.
  destruct (less x z) eqn:Hxz; [|destruct (less z x) eqn:Hzx].
  - constructor; [by constructor; [|apply Forall_forall]|]. apply Forall_forall.
    intros y [->|Hy]%elem_of_cons; [done|]. eapply (less_trans less); eauto.
  - constructor; [done|]. apply Forall_forall. intros y [->|[Hy _]]%elem_of_ins; auto.
  - constructor; [done|]. apply Forall_forall. intros y Hy.
    destruct (less x y) eqn:E; [done|]. pose proof (less_trans_neg less z x y Hzx E) as E'.
    by rewrite Hz in E'.
Qed.
End Proofs.

(** The tree of an order that is not a [TreeOrder] is never used; its items are the
    list as it was built. *)
Record ltree {A} (less : A -> A -> bool) := mkTree {
  elems : list A;
  elems_ok : TreeOrder less -> ascending less elems;
}.
Arguments mkTree {_ _} _ _.
Arguments elems {_ _} _.

#[export] Program Instance BTreeG_list : BTreeG := {|
  tree A less := ltree less;
  items A less t := elems t;
  bt_New A less := mkTree [] _;
  bt_Set A less x t := mkTree (ins less x (elems t)) _;
  bt_Delete A less x t := mkTree (del less x (elems t)) _ |}.
Next Obligation. constructor. Qed.
Next Obligation. intros A less x t Ho. by apply ascending_ins, elems_ok. Qed.
Next Obligation. intros A less x t Ho. by apply ascending_filter, elems_ok. Qed.
Next Obligation. intros A less Ho t. by apply elems_ok. Qed.
Next Obligation. done. Qed.
Next Obligation. intros A less Ho x t y. by apply elem_of_ins, elems_ok. Qed.
Next Obligation.
  intros A less Ho x t y. cbn. unfold del.
  by rewrite list_elem_of_In, filter_In, <- list_elem_of_In, Bool.negb_true_iff.
Qed.
End ListTree.
