(* ===== verification/Store.v ===== *)
(** * The datastore interface (datastore/store.go)

    [DSReaderWriter] is the interface through which the CRDTs, the Merkle clock and
    the collections reach their storage: badger, the in-memory store, a transaction
    or a namespaced wrapper.  It is the class [Datastore]; the operations are
    computations in a state-and-error monad over the store.  [LawfulDatastore]
    states what the clients rely on: seen through its contents, a finite map from
    key strings to byte strings, the store reads and writes that map.  The theorems
    of the clients are proved against the laws, and the finite map itself is an
    instance. *)

From S2P Require Import Prelude GoStd Keys.

(** ** State and errors *)

Definition M (S A : Type) : Type := S -> S * result A.

Definition mret {S A} (x : A) : M S A := fun s => (s, Ok x).
Definition mfail {S A} (e : error) : M S A := fun s => (s, Err e).
Definition mpanic {S A} : M S A := fun s => (s, Panic).

Definition mbind {S A B} (m : M S A) (k : A -> M S B) : M S B := fun s =>
  let '(s1, r) := m s in
  match r with Ok x => k x s1 | Err e => (s1, Err e) | Panic => (s1, Panic) end.

(** The value and the error of a call, for code that inspects the error itself. *)
Definition mtry {S A} (m : M S A) : M S (A + error) := fun s =>
  let '(s1, r) := m s in
  (s1, match r with Ok x => Ok (inl x) | Err e => Ok (inr e) | Panic => Panic end).

(** The state together with its result. *)
Definition mlift {S A} (r : result A) : M S A := fun s => (s, r).

Notation "'let*' x ':=' m 'in' k" := (mbind m (fun x => k))
  (at level 10, x pattern, m at level 100, k at level 200) : go_scope.

(** ** The interface *)

(** An entry of a query: a key and its value, or the error met while reading it. *)
Definition entry : Type := result (string * bytes).

Class Datastore (S : Type) := {
  ds_Get : string -> M S bytes;
  ds_Has : string -> M S bool;
  ds_Put : string -> bytes -> M S unit;
  ds_Delete : string -> M S unit;
  ds_Query : string -> M S (list entry);
}.

Abbreviation contents := (gmap string bytes).

(** What a client sees of a store: its contents, and the rest of the state, which the
    operations of the client leave alone. *)
Class View (S : Type) := {
  view : S -> contents;
  Rest : Type;
  rest : S -> Rest;
}.

(** [steps m s v r]: run on [s], [m] returns [r] and leaves a store of contents [v]
    and of the same rest. *)
Definition steps {S A} `{View S} (m : M S A) (s : S) (v : contents) (r : result A) : Prop :=
  (m s).2 = r /\ view (m s).1 = v /\ rest (m s).1 = rest s.

(** The keys strictly below a prefix. *)
Definition below (p k : string) : Prop := str_prefix (p +:+ "/") k.

(** The keys of a datastore are clean paths ([ds.Key]). *)
Class LawfulDatastore (S : Type) `{Datastore S} := {
  lawful_view :: View S;
  law_Get : forall k s, clean_key k = true ->
    steps (ds_Get k) s (view s)
      (match view s !! k with Some v => Ok v | None => Err ErrNotFound end);
  law_Has : forall k s, clean_key k = true ->
    steps (ds_Has k) s (view s) (Ok (bool_decide (is_Some (view s !! k))));
  law_Put : forall k v s, clean_key k = true ->
    steps (ds_Put k v) s (<[k := v]> (view s)) (Ok tt);
  law_Delete : forall k s, clean_key k = true ->
    steps (ds_Delete k) s (delete k (view s)) (Ok tt);
  law_Query : forall p s, clean_key p = true ->
    exists l, steps (ds_Query p) s (view s) (Ok (Ok <$> l)) /\
      NoDup l.*1 /\ forall k v, (k, v) ∈ l <-> view s !! k = Some v /\ below p k;
}.

Section Steps.
Context {S : Type} `{View S}.

Lemma steps_ret {A} (x : A) s : steps (mret x) s (view s) (Ok x).
Proof. done. Qed.

Lemma steps_ret_eq {A} (x y : A) s v : view s = v -> x = y -> steps (mret x) s v (Ok y).
Proof. by intros <- <-. Qed.

Lemma steps_lift {A} (r : result A) s : steps (mlift r) s (view s) r.
Proof. done. Qed.

Lemma steps_bind {A B} (m : M S A) (k : A -> M S B) s v x v' r :
  steps m s v (Ok x) ->
  (forall s1, view s1 = v -> steps (k x) s1 v' r) ->
  steps (mbind m k) s v' r.
Proof.
  unfold steps, mbind. destruct (m s) as [s1 r1]. cbn. intros (-> & Hv & <-) Hk. by apply Hk.
Qed.

Lemma steps_bind_err {A B} (m : M S A) (k : A -> M S B) s v e :
  steps m s v (Err e) -> steps (mbind m k) s v (Err e).
Proof. unfold steps, mbind. destruct (m s) as [s1 r1]. cbn. by intros (-> & Hv). Qed.

Lemma steps_try_ok {A} (m : M S A) s v x :
  steps m s v (Ok x) -> steps (mtry m) s v (Ok (inl x)).
Proof. unfold steps, mtry. destruct (m s) as [s1 r1]. cbn. by intros (-> & Hv). Qed.

Lemma steps_try_err {A} (m : M S A) s v e :
  steps m s v (Err e) -> steps (mtry m) s v (Ok (inr e)).
Proof. unfold steps, mtry. destruct (m s) as [s1 r1]. cbn. by intros (-> & Hv). Qed.
End Steps.

Section Lawful.
Context {S : Type} `{LawfulDatastore S}.

Lemma steps_Get_Some k s v :
  clean_key k = true -> view s !! k = Some v -> steps (ds_Get k) s (view s) (Ok v).
Proof. intros Hk E. pose proof (law_Get k s Hk) as L. by rewrite E in L. Qed.

Lemma steps_Get_None k s :
  clean_key k = true -> view s !! k = None -> steps (ds_Get k) s (view s) (Err ErrNotFound).
Proof. intros Hk E. pose proof (law_Get k s Hk) as L. by rewrite E in L. Qed.

(** A read whose absence is tolerated. *)
Lemma steps_tryGet k s :
  clean_key k = true ->
  steps (mtry (ds_Get k)) s (view s)
    (Ok (match view s !! k with Some v => inl v | None => inr ErrNotFound end)).
Proof.
  intros Hk. destruct (view s !! k) eqn:E.
  - by apply steps_try_ok, steps_Get_Some.
  - by apply steps_try_err, steps_Get_None.
Qed.
End Lawful.

(** Steps through a bind whose first computation has a known outcome. *)
Ltac store_bind L :=
  eapply steps_bind; [apply L; solve [auto with go]|]; let s := fresh "s" in let E := fresh "Hview" in
  intros s E; cbv beta.

(** ** The finite map as a datastore *)
Module MapStore.
(** The entries strictly below a prefix. *)
Definition query (p : string) (m : contents) : list (string * bytes) :=
  List.filter (fun '(k, _) => HasPrefix k (p +:+ "/")) (map_to_list m).

#[export] Instance Datastore_map : Datastore contents := {|
  ds_Get k := fun m => (m, match m !! k with Some v => Ok v | None => Err ErrNotFound end);
  ds_Has k := fun m => (m, Ok (bool_decide (is_Some (m !! k))));
  ds_Put k v := fun m => (<[k := v]> m, Ok tt);
  ds_Delete k := fun m => (delete k m, Ok tt);
  ds_Query p := fun m => (m, Ok (Ok <$> query p m)) |}.

Lemma NoDup_filter_fst {A B} (f : A * B -> bool) l :
  NoDup l.*1 -> NoDup (List.filter f l).*1.
Proof.
  induction l as [|[a b] l IH]; [done|]. cbn. intros [Ha Hl]%NoDup_cons.
  destruct (f (a, b)); [|auto]. cbn. constructor; [|auto].
  intros Hin. apply Ha. apply list_elem_of_fmap in Hin as ([a' b'] & -> & Hin).
  apply list_elem_of_fmap. exists (a', b'). split; [done|].
  apply list_elem_of_In, filter_In in Hin as [? _]. by apply list_elem_of_In.
Qed.

#[export] Program Instance LawfulDatastore_map : LawfulDatastore contents :=
  {| lawful_view := {| view m := m; Rest := unit; rest _ := tt |} |}.
Next Obligation. done. Qed.
Next Obligation. done. Qed.
Next Obligation. done. Qed.
Next Obligation. done. Qed.
Next Obligation.
  intros p m _. exists (query p m). split; [done|]. split.
  - apply NoDup_filter_fst, NoDup_fst_map_to_list.
  - intros k v. unfold query, below.
    rewrite list_elem_of_In, filter_In, <- list_elem_of_In, elem_of_map_to_list.
    by rewrite HasPrefix_spec.
Qed.
End MapStore.
