(* ===== verification/MultiStore.v ===== *)
(** * Namespaced stores and the block store (datastore/)

    A database keeps its documents, its heads, its blocks and its system records in
    one root store, each below a prefix of its own: datastore/wrappedStore.go
    rewrites the keys, datastore/multi.go fixes the prefixes and
    datastore/blockstore.go stores blocks by the multihash of their CID.  A wrapped
    store over a lawful store is lawful, and what is written through one wrapper is
    part of the rest of the others. *)

From Stdlib Require Import Ascii.
From stdpp Require Import pretty countable.
From S2P Require Import Prelude GoStd Keys Store.

(** [keytransform.PrefixTransform]: the prefix is put before a key and taken off. *)
Class PrefixTransform := {
  ConvertKey : string -> string -> string;
  InvertKey : string -> string -> string;
  ConvertKey_clean : forall p k,
    clean_key p = true -> clean_key k = true -> ConvertKey p k = p +:+ k;
  InvertKey_prefix : forall p k,
    clean_key p = true -> InvertKey p (p +:+ String "/" k) = String "/" k;
}.

(** ** The wrapped store *)

Section Wrapped.
Context {S : Type} `{Datastore S} `{DsKey} `{PrefixTransform}.

Definition wrapped_Get (p key : string) : M S bytes := ds_Get (ConvertKey p key).
Definition wrapped_Has (p key : string) : M S bool := ds_Has (ConvertKey p key).
Definition wrapped_Put (p key : string) (value : bytes) : M S unit := ds_Put (ConvertKey p key) value.
Definition wrapped_Delete (p key : string) : M S unit := ds_Delete (ConvertKey p key).

(** The entry of a result: an entry without an error has its key inverted. *)
Definition invert_entry (p : string) (e : entry) : entry :=
  match e with
  | Ok (k, v) => Ok (InvertKey p k, v)
  | _ => e
  end.

(** A query by prefix.  [prepareQuery] leaves nothing to the naive query when the
    query has no orders and no filters. *)
Definition wrapped_Query (p q : string) : M S (list entry) :=
  let* cqr := ds_Query (ConvertKey p (NewKey q)) in
  mret (invert_entry p <$> cqr).

(** [prefix(root, p)]. *)
Definition wrappedStore (p : string) : Datastore S := {|
  ds_Get := wrapped_Get p;
  ds_Has := wrapped_Has p;
  ds_Put := wrapped_Put p;
  ds_Delete := wrapped_Delete p;
  ds_Query := wrapped_Query p |}.
End Wrapped.

(** ** The contents below a prefix *)

Section Strip.
Variable p : string.

(** The entries below [p], with the prefix taken off, and the entries elsewhere. *)
Definition strip (m : contents) : contents :=
  list_to_map ((fun e => (TrimPrefix e.1 p, e.2)) <$>
    List.filter (fun e => HasPrefix e.1 p) (map_to_list m)).

Definition outside (m : contents) : contents := filter (fun e => HasPrefix e.1 p = false) m.

Lemma lookup_strip m k : strip m !! k = m !! (p +:+ k).
Proof.
  unfold strip. destruct (m !! (p +:+ k)) as [v|] eqn:E.
  - apply elem_of_list_to_map.
    + rewrite <- list_fmap_compose. apply (NoDup_fmap_1 (fun x => p +:+ x)).
      replace ((fun x => p +:+ x) <$> (_ <$> _)) with
        (List.filter (fun e => HasPrefix e.1 p) (map_to_list m)).*1;
        [apply MapStore.NoDup_filter_fst, NoDup_fst_map_to_list|].
      rewrite <- list_fmap_compose. apply list_fmap_ext.
      intros i [k' w] [_ [t Ht]%HasPrefix_spec]%list_elem_of_lookup_2%list_elem_of_In%filter_In.
      unfold compose. cbn [fst] in *. by rewrite Ht, TrimPrefix_app.
    + apply list_elem_of_fmap. exists (p +:+ k, v). cbn [fst snd]. rewrite TrimPrefix_app.
      split; [done|]. apply list_elem_of_In, filter_In. split.
      * by apply list_elem_of_In, elem_of_map_to_list.
      * apply HasPrefix_spec. by eexists.
  - apply not_elem_of_list_to_map. intros Hin.
    apply list_elem_of_fmap in Hin as ([k' w] & -> & Hin).
    apply list_elem_of_fmap in Hin as ([k'' w'] & [= -> ->] & Hin).
    apply list_elem_of_In, filter_In in Hin as [Hin%list_elem_of_In [t Ht]%HasPrefix_spec].
    cbn [fst] in *. subst k''. rewrite TrimPrefix_app in E. apply elem_of_map_to_list in Hin. congruence.
Qed.

Lemma strip_insert m k v : strip (<[p +:+ k := v]> m) = <[k := v]> (strip m).
Proof.
  apply map_eq. intros k'. rewrite lookup_strip. destruct (decide (k' = k)) as [->|Hne].
  - by rewrite !lookup_insert_eq.
  - rewrite !lookup_insert_ne, lookup_strip; [done|done|]. intros E. by apply (inj (String.append p)) in E.
Qed.

Lemma strip_delete m k : strip (delete (p +:+ k) m) = delete k (strip m).
Proof.
  apply map_eq. intros k'. rewrite lookup_strip. destruct (decide (k' = k)) as [->|Hne].
  - by rewrite !lookup_delete_eq.
  - rewrite !lookup_delete_ne, lookup_strip; [done|done|]. intros E. by apply (inj (String.append p)) in E.
Qed.

Lemma HasPrefix_app k : HasPrefix (p +:+ k) p = true.
Proof. apply HasPrefix_spec. by eexists. Qed.

Lemma outside_insert m k v : outside (<[p +:+ k := v]> m) = outside m.
Proof.
  apply map_filter_insert_not'; [|intros y _]; cbn [fst]; by rewrite HasPrefix_app.
Qed.

Lemma outside_delete m k : outside (delete (p +:+ k) m) = outside m.
Proof. apply map_filter_delete_not. intros y _. cbn [fst]. by rewrite HasPrefix_app. Qed.

End Strip.

(** Neither of two prefixes begins the other. *)
Definition apart (p p' : string) : bool := negb (HasPrefix p p') && negb (HasPrefix p' p).

Lemma apart_app p p' k : apart p p' = true -> HasPrefix (p' +:+ k) p = false.
Proof.
  unfold apart, HasPrefix. revert p'; induction p as [|c p IH]; intros p'.
  - rewrite Bool.andb_comm. by destruct p'.
  - destruct p' as [|c' p']; [done|]. rewrite str_app_cons. cbn [String.prefix].
    destruct (Ascii.ascii_dec c c') as [->|]; [|done].
    destruct (Ascii.ascii_dec c' c'); [|done]. apply IH.
Qed.

(** What lies below a prefix apart from [p] is seen in the rest of [p]. *)
Lemma strip_outside p p' m : apart p p' = true -> strip p' (outside p m) = strip p' m.
Proof.
  intros Hp. apply map_eq. intros k. rewrite !lookup_strip. unfold outside.
  destruct (m !! (p' +:+ k)) as [v|] eqn:E.
  - apply map_lookup_filter_Some. split; [done|]. cbn [fst]. by apply apart_app.
  - apply map_lookup_filter_None. by left.
Qed.

(** ** Wrapped stores are lawful *)

Section WrappedLawful.
Context {S : Type} `{LawfulDatastore S} `{DsKey} `{PrefixTransform}.
Variable p : string.
Hypothesis Hp : clean_key p = true.

Definition wrapped_view : View S := {|
  view s := strip p (view s);
  rest s := (outside p (view s), rest s) |}.

Lemma clean_slash k : clean_key k = true -> exists r, k = String "/" r.
Proof. destruct k as [|c k]; [done|]. unfold clean_key. destruct c as [[] [] [] [] [] [] [] []]; eauto; done. Qed.

Lemma clean_key_app k : clean_key k = true -> clean_key (p +:+ k) = true.
Proof.
  intros Hk. destruct (clean_slash k Hk) as [r ->]. destruct (clean_slash p Hp) as [q Eq].
  pose proof Hp as Hp'. rewrite Eq in Hp' |- *.
  change (forallb clean_elem (Split q "/") = true) in Hp'.
  change (forallb clean_elem (Split r "/") = true) in Hk.
  change (forallb clean_elem (Split (q +:+ String "/" r) "/") = true).
  by rewrite Split_concat, forallb_app, Hp', Hk.
Qed.

Lemma wrapped_steps {A} (m : M S A) s r :
  steps m s (view s) r -> @steps _ _ wrapped_view m s (strip p (view s)) r.
Proof. intros (E1 & E2 & E3). unfold steps. cbn. by rewrite E1, E2, E3. Qed.

#[program] Definition LawfulDatastore_wrapped : @LawfulDatastore S (wrappedStore p) :=
  {| lawful_view := wrapped_view |}.
Next Obligation.
  intros k s Hk. cbn. unfold wrapped_Get. rewrite ConvertKey_clean, lookup_strip by done.
  by apply wrapped_steps, law_Get, clean_key_app.
Qed.
Next Obligation.
  intros k s Hk. cbn. unfold wrapped_Has. rewrite ConvertKey_clean, lookup_strip by done.
  by apply wrapped_steps, law_Has, clean_key_app.
Qed.
Next Obligation.
  intros k v s Hk. cbn. unfold wrapped_Put. rewrite ConvertKey_clean by done.
  destruct (law_Put (p +:+ k) v s (clean_key_app k Hk)) as (E1 & E2 & E3).
  unfold steps. cbn. by rewrite E1, E2, E3, strip_insert, outside_insert.
Qed.
Next Obligation.
  intros k s Hk. cbn. unfold wrapped_Delete. rewrite ConvertKey_clean by done.
  destruct (law_Delete (p +:+ k) s (clean_key_app k Hk)) as (E1 & E2 & E3).
  unfold steps. cbn. by rewrite E1, E2, E3, strip_delete, outside_delete.
Qed.
Next Obligation.
  intros q s Hq. cbn. unfold wrapped_Query. rewrite NewKey_clean, ConvertKey_clean by done.
  destruct (law_Query (p +:+ q) s (clean_key_app q Hq)) as (l & Hs & Hnd & Hl).
  assert (forall e, e ∈ l -> exists k, e.1 = p +:+ String "/" k) as Hpre.
  { intros [k v] [_ [t Ht]]%Hl. destruct (clean_slash q Hq) as [r ->].
    exists (r +:+ "/" +:+ t). cbn [fst]. rewrite Ht. by rewrite !str_app_assoc. }
  set (inv := fun e : string * bytes => (InvertKey p e.1, e.2)).
  assert (forall e, e ∈ l -> e.1 = p +:+ (inv e).1) as Hinv.
  { intros e [k Ek]%Hpre. unfold inv. cbn [fst]. by rewrite Ek, InvertKey_prefix. }
  exists (inv <$> l). split; [|split].
  - eapply steps_bind; [by apply wrapped_steps|]. intros s1 E1. apply steps_ret_eq; [done|].
    f_equal. rewrite <- !list_fmap_compose. apply list_fmap_ext. by intros i [k v] _.
  - apply (NoDup_fmap_1 (String.append p)). rewrite <- !list_fmap_compose.
    erewrite list_fmap_ext; [exact Hnd|]. intros i e He%list_elem_of_lookup_2. by rewrite (Hinv e He).
  - intros k v. rewrite lookup_strip, list_elem_of_fmap. unfold below. split.
    + intros ([k' v'] & [= -> ->] & Hin). pose proof (Hinv _ Hin) as E. cbn [fst inv] in E.
      apply Hl in Hin as [Hm [t Ht]]. rewrite <- E. split; [done|]. exists t.
      apply (inj (String.append p)). by rewrite <- E, Ht, !str_app_assoc.
    + intros [Hm [t Ht]]. destruct (clean_slash q Hq) as [r ->].
      assert (k = String "/" (r +:+ "/" +:+ t)) as Ek by (by rewrite Ht, !str_app_assoc).
      exists (p +:+ k, v). unfold inv. cbn [fst snd]. split.
      * by rewrite Ek, InvertKey_prefix.
      * apply Hl. split; [done|]. exists t. by rewrite Ht, !str_app_assoc.
Qed.
End WrappedLawful.

(** ** The stores of a database *)

Definition rootStoreKey : string := "/db".
Definition systemStoreKey : string := "/db/system".
Definition dataStoreKey : string := "/db/data".
Definition headStoreKey : string := "/db/heads".
Definition blockStoreKey : string := "/db/blocks".

(** The four namespaces of the [MultiStore] interface. *)
Inductive namespace := NData | NHead | NBlock | NSystem.

#[global] Instance namespace_eq_dec : EqDecision namespace.
Proof. solve_decision. Defined.

Class MultiStore (S : Type) := store_of : namespace -> Datastore S.

Definition namespaceKey (n : namespace) : string :=
  match n with
  | NData => dataStoreKey
  | NHead => headStoreKey
  | NBlock => blockStoreKey
  | NSystem => systemStoreKey
  end.

Definition MultiStoreFrom {S} `{Datastore S} `{DsKey} `{PrefixTransform} : MultiStore S :=
  fun n => wrappedStore (namespaceKey n).

Lemma namespaceKey_clean n : clean_key (namespaceKey n) = true.
Proof. by destruct n. Qed.

Lemma namespaceKey_apart n n' : n <> n' -> apart (namespaceKey n) (namespaceKey n') = true.
Proof. by destruct n, n'. Qed.

(** The contents of the four namespaces; each store changes its own only. *)
Class LawfulMultiStore (S : Type) `{MultiStore S} := {
  lawful_of : forall n, @LawfulDatastore S (store_of n);
  separate : forall n n' s s', n <> n' ->
    @rest S (@lawful_view S _ (lawful_of n)) s' = @rest S (@lawful_view S _ (lawful_of n)) s ->
    @view S (@lawful_view S _ (lawful_of n')) s' = @view S (@lawful_view S _ (lawful_of n')) s;
}.

Section MultiSteps.
Context {S : Type} `{LawfulMultiStore S}.

Definition views (s : S) (n : namespace) : contents :=
  @view S (@lawful_view S _ (lawful_of n)) s.

Definition upd (V : namespace -> contents) (n : namespace) (v : contents) : namespace -> contents :=
  fun n' => if decide (n' = n) then v else V n'.

(** [msteps m s V r]: run on [s], [m] returns [r] and leaves the contents [V]. *)
Definition msteps {A} (m : M S A) (s : S) (V : namespace -> contents) (r : result A) : Prop :=
  (m s).2 = r /\ forall n, views (m s).1 n = V n.

(** A computation in one namespace is one in the database. *)
Lemma msteps_in n {A} (m : M S A) s v r :
  @steps S _ (@lawful_view S _ (lawful_of n)) m s v r -> msteps m s (upd (views s) n v) r.
Proof.
  intros (E1 & E2 & E3). split; [done|]. intros n'. unfold upd, views.
  destruct (decide (n' = n)) as [->|Hne]; [done|]. by eapply separate; [apply not_eq_sym|].
Qed.

Lemma msteps_ext {A} (m : M S A) s V V' r :
  msteps m s V r -> (forall n, V n = V' n) -> msteps m s V' r.
Proof. intros [E1 E2] Hext. split; [done|]. intros n. by rewrite E2. Qed.

Lemma msteps_ret {A} (x : A) s V : (forall n, views s n = V n) -> msteps (mret x) s V (Ok x).
Proof. done. Qed.

Lemma msteps_lift {A} (r : result A) s : msteps (mlift r) s (views s) r.
Proof. done. Qed.

Lemma msteps_bind {A B} (m : M S A) (k : A -> M S B) s V x V' r :
  msteps m s V (Ok x) ->
  (forall s1, (forall n, views s1 n = V n) -> msteps (k x) s1 V' r) ->
  msteps (mbind m k) s V' r.
Proof.
  unfold msteps, mbind. destruct (m s) as [s1 r1]. cbn. intros (-> & Hv) Hk. by apply Hk.
Qed.

Lemma msteps_bind_err {A B} (m : M S A) (k : A -> M S B) s V e :
  msteps m s V (Err e) -> msteps (mbind m k) s V (Err e).
Proof. unfold msteps, mbind. destruct (m s) as [s1 r1]. cbn. by intros (-> & Hv). Qed.

Lemma msteps_try_ok {A} (m : M S A) s V x :
  msteps m s V (Ok x) -> msteps (mtry m) s V (Ok (inl x)).
Proof. unfold msteps, mtry. destruct (m s) as [s1 r1]. cbn. by intros (-> & Hv). Qed.

Lemma upd_eq V n v : upd V n v n = v.
Proof. unfold upd. by rewrite decide_True. Qed.

Lemma upd_ne V n n' v : n' <> n -> upd V n v n' = V n'.
Proof. intros. unfold upd. by rewrite decide_False. Qed.

Lemma upd_same V n n' : upd V n (V n) n' = V n'.
Proof. unfold upd. case_decide; by subst. Qed.

Lemma upd_upd V n v v' n' : upd (upd V n v) n v' n' = upd V n v' n'.
Proof. unfold upd. by case_decide. Qed.
End MultiSteps.

(** The namespaces of one lawful root store are lawful and apart. *)
Section FromRoot.
Context {S : Type} `{LawfulDatastore S} `{DsKey} `{PrefixTransform}.

Lemma separate_wrapped n n' (s s' : S) : n <> n' ->
  @rest S (wrapped_view (namespaceKey n)) s' = @rest S (wrapped_view (namespaceKey n)) s ->
  @view S (wrapped_view (namespaceKey n')) s' = @view S (wrapped_view (namespaceKey n')) s.
Proof.
  intros Hne [= E _]. cbn. pose proof (namespaceKey_apart n n' Hne) as Ha.
  rewrite <- (strip_outside _ _ (view s') Ha), <- (strip_outside _ _ (view s) Ha). by f_equal.
Qed.

Definition LawfulMultiStoreFrom : @LawfulMultiStore S MultiStoreFrom := {|
  lawful_of n := LawfulDatastore_wrapped (namespaceKey n) (namespaceKey_clean n);
  separate := separate_wrapped |}.
End FromRoot.

(** A put through the store of one namespace changes that namespace at that key and
    no other namespace; a delete, a read and a query likewise. *)
Section Isolation.
Context {S : Type} `{LawfulDatastore S} `{DsKey} `{PrefixTransform}.

#[local] Existing Instance MultiStoreFrom.
#[local] Existing Instance LawfulMultiStoreFrom.

(** C7: the namespaces of a multi-store over one lawful root store are independent
    maps: a put and a delete change the contents of their own namespace at their key
    and leave every other namespace as it was, and a read, a test and a query by
    prefix answer from the contents of their own namespace. *)
Theorem MultiStoreFrom_isolated n k v (s : S) :
  clean_key k = true ->
  msteps (@ds_Put S (MultiStoreFrom n) k v) s (upd (views s) n (<[k := v]> (views s n))) (Ok tt) /\
  msteps (@ds_Delete S (MultiStoreFrom n) k) s (upd (views s) n (delete k (views s n))) (Ok tt) /\
  msteps (@ds_Get S (MultiStoreFrom n) k) s (views s)
    (match views s n !! k with Some v => Ok v | None => Err ErrNotFound end) /\
  msteps (@ds_Has S (MultiStoreFrom n) k) s (views s) (Ok (bool_decide (is_Some (views s n !! k)))) /\
  exists l, msteps (@ds_Query S (MultiStoreFrom n) k) s (views s) (Ok (Ok <$> l)) /\
    NoDup l.*1 /\ forall k' v', (k', v') ∈ l <-> views s n !! k' = Some v' /\ below k k'.
Proof.
  intros Hk. pose (L := lawful_of (S := S) n).
  assert (forall A (m : M S A) r, @steps S _ (@lawful_view S _ L) m s (views s n) r ->
    msteps m s (views s) r) as Hread.
  { intros A m r Hm. eapply msteps_ext; [by apply msteps_in|]. intros n'. apply upd_same. }
  split; [|split; [|split; [|split]]].
  - apply msteps_in. by apply (@law_Put S _ L).
  - apply msteps_in. by apply (@law_Delete S _ L).
  - apply Hread. by apply (@law_Get S _ L).
  - apply Hread. by apply (@law_Has S _ L).
  - destruct (@law_Query S _ L k s Hk) as (l & Hl & Hnd & Hel). exists l. split; [by apply Hread|done].
Qed.
End Isolation.

(** ** The block store *)

Record Block `{CidOps} := NewBlockWithCid { B_RawData : bytes; B_Cid : Cid }.

Definition ErrHashMismatch : error := ErrNew "block in storage has different hash than requested".
Definition ErrBlockNotFound : error := ErrNew "ipld: could not find node".

(** [dshelp.MultihashToDsKey(c.Hash())] and [c.Prefix().Sum(data)]. *)
Class BlockKeys `{CidOps} := {
  block_key : Cid -> string;
  prefix_Sum : Cid -> bytes -> result Cid;
  block_key_clean : forall c, clean_key (block_key c) = true;
}.

Section Blockstore.
Context {S : Type} `{Datastore S} `{BlockKeys}.

Definition bs_Get (rehash : bool) (k : Cid) : M S Block :=
  if negb (Cid_Defined k) then mfail ErrBlockNotFound
  else
    let* r := mtry (ds_Get (block_key k)) in
    match r with
    | inr e => if errors_Is e ErrNotFound then mfail ErrBlockNotFound else mfail e
    | inl bdata =>
        if rehash then
          let* rbcid := mlift (prefix_Sum k bdata) in
          if bool_decide (rbcid = k) then mret (NewBlockWithCid _ bdata rbcid) else mfail ErrHashMismatch
        else mret (NewBlockWithCid _ bdata k)
    end.

(** The error of [Has] is dropped: the block is then written. *)
Definition bs_Put (block : Block) : M S unit :=
  let k := block_key block.(B_Cid) in
  let* r := mtry (ds_Has k) in
  match r with
  | inl true => mret tt
  | _ => ds_Put k block.(B_RawData)
  end.

Fixpoint bs_PutMany (blocks : list Block) : M S unit :=
  match blocks with
  | [] => mret tt
  | b :: rest =>
      let k := block_key b.(B_Cid) in
      let* r := mtry (ds_Has k) in
      match r with
      | inl true => bs_PutMany rest
      | _ => let* _ := ds_Put k b.(B_RawData) in bs_PutMany rest
      end
  end.

Definition bs_Has (k : Cid) : M S bool := ds_Has (block_key k).

Definition bs_DeleteBlock (k : Cid) : M S unit := ds_Delete (block_key k).
End Blockstore.

(** Content addressing: [key_of] is the key of the hash of a block's data. *)
Section ContentAddressed.
Context {S : Type} `{LawfulDatastore S} `{BlockKeys}.
Variable key_of : bytes -> string.
Hypothesis key_of_inj : forall d d', key_of d = key_of d' -> d = d'.
Hypothesis Sum_spec : forall c d, prefix_Sum c d = Ok c <-> key_of d = block_key c.

Definition block_ok (b : Block) : Prop := key_of b.(B_RawData) = block_key b.(B_Cid).
Definition blocks_ok (m : contents) : Prop := forall k d, m !! k = Some d -> key_of d = k.

Definition put_block (m : contents) (b : Block) : contents :=
  match m !! block_key b.(B_Cid) with
  | Some _ => m
  | None => <[block_key b.(B_Cid) := b.(B_RawData)]> m
  end.

Lemma steps_bs_Put b s : steps (bs_Put b) s (put_block (view s) b) (Ok tt).
Proof.
  pose proof (block_key_clean b.(B_Cid)) as Hk. unfold bs_Put, put_block.
  eapply steps_bind; [by apply steps_try_ok, law_Has|]. intros s1 E1. cbv beta.
  destruct (view s !! block_key (B_Cid b)) as [d|] eqn:E.
  - rewrite bool_decide_eq_true_2 by done. by apply steps_ret_eq.
  - rewrite bool_decide_eq_false_2 by (by intros []). rewrite <- E1. by apply law_Put.
Qed.

Lemma bs_PutMany_cons b bs s :
  bs_PutMany (b :: bs) s = (let* _ := bs_Put b in bs_PutMany bs) s.
Proof.
  unfold bs_Put, mbind, mtry. cbn [bs_PutMany]. unfold mbind, mtry.
  destruct (ds_Has (block_key (B_Cid b)) s) as [s1 [[]|e|]]; try done;
    by destruct (ds_Put _ _ s1) as [s2 [[]|e'|]].
Qed.

Lemma steps_bs_PutMany bs s : steps (bs_PutMany bs) s (foldl put_block (view s) bs) (Ok tt).
Proof.
  revert s. induction bs as [|b bs IH]; intros s; [done|].
  enough (steps (let* _ := bs_Put b in bs_PutMany bs) s (foldl put_block (view s) (b :: bs)) (Ok tt)) as Hs
    by (unfold steps in *; by rewrite bs_PutMany_cons).
  eapply steps_bind; [apply steps_bs_Put|]. intros s1 E1. cbn. rewrite <- E1. apply IH.
Qed.

Lemma put_block_ok m b : blocks_ok m -> block_ok b -> blocks_ok (put_block m b).
Proof.
  intros Hm Hb k d. unfold put_block. destruct (m !! block_key (B_Cid b)); [apply Hm|].
  intros [[<- <-]|[_ Hk]]%lookup_insert_Some; [done|by apply Hm].
Qed.

Lemma put_block_lookup m b :
  blocks_ok m -> block_ok b -> put_block m b !! block_key b.(B_Cid) = Some b.(B_RawData).
Proof.
  intros Hm Hb. unfold put_block. destruct (m !! block_key (B_Cid b)) as [d|] eqn:E.
  - rewrite E. f_equal. apply key_of_inj. by rewrite (Hm _ _ E).
  - apply lookup_insert_eq.
Qed.

Lemma put_block_keep m b k d : m !! k = Some d -> put_block m b !! k = Some d.
Proof.
  intros Hk. unfold put_block. destruct (m !! block_key (B_Cid b)) as [d'|] eqn:E; [done|].
  rewrite lookup_insert_ne; [done|]. congruence.
Qed.

Lemma put_blocks_keep bs m k d : m !! k = Some d -> foldl put_block m bs !! k = Some d.
Proof. revert m. induction bs as [|b bs IH]; intros m Hk; [done|]. apply IH, put_block_keep, Hk. Qed.

Lemma put_blocks_lookup bs m b :
  blocks_ok m -> Forall block_ok bs -> b ∈ bs ->
  foldl put_block m bs !! block_key b.(B_Cid) = Some b.(B_RawData).
Proof.
  intros Hm Hbs. revert m Hm. induction Hbs as [|b' bs Hb Hbs IH]; intros m Hm Hin;
    [by apply elem_of_nil in Hin|].
  cbn. apply elem_of_cons in Hin as [->|Hin].
  - apply put_blocks_keep. by apply put_block_lookup.
  - apply IH; auto using put_block_ok.
Qed.

Lemma steps_bs_Get rehash c s d :
  Cid_Defined c = true -> view s !! block_key c = Some d -> key_of d = block_key c ->
  steps (bs_Get rehash c) s (view s) (Ok (NewBlockWithCid _ d c)).
Proof.
  intros Hc Hd Hk. unfold bs_Get. rewrite Hc. cbn [negb].
  eapply steps_bind; [apply steps_try_ok, steps_Get_Some; [apply block_key_clean|done]|].
  intros s1 E1. cbv beta iota. destruct rehash; [|by apply steps_ret_eq].
  rewrite (proj2 (Sum_spec c d) Hk). eapply steps_bind; [apply steps_lift|]. intros s2 E2.
  rewrite bool_decide_eq_true_2 by done. apply steps_ret_eq; [congruence|done].
Qed.

(** the block store is content addressed.  Blocks that are put, each under the
    CID of its data, can all be read back, whether or not the data is hashed again on
    the way out, and every block that was stored before still reads the same. *)
Theorem bs_PutMany_Get s bs :
  blocks_ok (view s) -> Forall block_ok bs ->
  exists v, steps (bs_PutMany bs) s v (Ok tt) /\ blocks_ok v /\
    (forall b rehash s', b ∈ bs -> Cid_Defined b.(B_Cid) = true -> view s' = v ->
      steps (bs_Get rehash b.(B_Cid)) s' v (Ok b)) /\
    (forall k d, view s !! k = Some d -> v !! k = Some d).
Proof.
  intros Hs Hbs. eexists. split; [apply steps_bs_PutMany|]. split; [|split].
  - apply (foldl_inv put_block blocks_ok block_ok); auto using put_block_ok.
  - intros b rehash s' Hin Hc E. destruct b as [d c]. rewrite <- E. apply steps_bs_Get; [done| |].
    + rewrite E. by apply (put_blocks_lookup bs _ (NewBlockWithCid _ d c)).
    + exact (proj1 (Forall_forall _ _) Hbs _ Hin).
  - intros k d. apply put_blocks_keep.
Qed.

(** with rehashing enabled, a block whose stored data does not hash to the CID
    asked for is never returned. *)
Theorem bs_Get_rehash c s b :
  (bs_Get true c s).2 = Ok b -> b.(B_Cid) = c /\ key_of b.(B_RawData) = block_key c.
Proof.
  unfold bs_Get. destruct (Cid_Defined c); [|done]. cbn [negb]. unfold mbind, mtry, mlift.
  destruct (ds_Get (block_key c) s) as [s1 [d|e|]]; [|by destruct (errors_Is e ErrNotFound)|done].
  destruct (prefix_Sum c d) as [c'|e|] eqn:E; [|done..].
  destruct (bool_decide_reflect (c' = c)) as [->|]; [|done]. intros [= <-]. split; [done|]. by apply Sum_spec.
Qed.
End ContentAddressed.

(** ** Instances and witnesses *)

Module MultiInstances.
Export MapStore KeyInstances.

#[export] Program Instance PrefixTransform_app : PrefixTransform := {|
  ConvertKey p k := p +:+ k;
  InvertKey p k := TrimPrefix k p |}.
Next Obligation. done. Qed.
Next Obligation. intros p k _. apply TrimPrefix_app. Qed.

(** The CID of data is the number that encodes it. *)
Definition cid_of (d : bytes) : N := Npos (encode d).
Definition num_key (c : N) : string := String "/" (pretty c).

#[export] Program Instance BlockKeys_N : BlockKeys := {|
  block_key := num_key;
  prefix_Sum _ d := Ok (cid_of d) |}.
Next Obligation.
  intros c. unfold num_key. rewrite <- (str_app_nil_r (pretty c)).
  change (clean_key (path_of [pretty c]) = true). apply clean_key_path_of.
  constructor; [|constructor]. apply Bool.andb_true_iff. split; [apply pretty_clean|].
  apply (Cid_String_free (CidOps := CidOps_N)).
Qed.

Definition num_key_of (d : bytes) : string := num_key (cid_of d).

Lemma num_key_inj c c' : num_key c = num_key c' -> c = c'.
Proof. unfold num_key. intros E. injection E as E. by apply (inj pretty). Qed.

Lemma num_key_of_inj d d' : num_key_of d = num_key_of d' -> d = d'.
Proof. intros E%num_key_inj. injection E as E. by apply (inj encode). Qed.

Lemma num_Sum c d : prefix_Sum c d = Ok c <-> num_key_of d = block_key c.
Proof.
  cbn. unfold num_key_of. split; [by intros [= ->]|]. intros E%num_key_inj. by rewrite E.
Qed.

Lemma MultiStoreFrom_isolated_witness :
  msteps (H := MultiStoreFrom) (H0 := LawfulMultiStoreFrom)
    (@ds_Put contents (MultiStoreFrom NHead) "/a" "1") ∅
    (upd (views (H := MultiStoreFrom) (H0 := LawfulMultiStoreFrom) ∅) NHead
      (<["/a" := "1"]> (views (H := MultiStoreFrom) (H0 := LawfulMultiStoreFrom) ∅ NHead))) (Ok tt).
Proof. apply (MultiStoreFrom_isolated NHead "/a" "1" (∅ : contents)). reflexivity. Defined.

Lemma bs_PutMany_Get_witness :
  let b := NewBlockWithCid CidOps_N "x" (cid_of "x") in
  exists v, steps (S := contents) (bs_PutMany [b; b]) ∅ v (Ok tt) /\ blocks_ok num_key_of v /\
    (forall b' rehash s', b' ∈ [b; b] -> Cid_Defined b'.(B_Cid) = true -> view s' = v ->
      steps (bs_Get rehash b'.(B_Cid)) s' v (Ok b')) /\
    (forall k d, view (∅ : contents) !! k = Some d -> v !! k = Some d).
Proof.
  apply (bs_PutMany_Get num_key_of num_key_of_inj num_Sum (∅ : contents)
    [NewBlockWithCid CidOps_N "x" (cid_of "x"); NewBlockWithCid CidOps_N "x" (cid_of "x")]).
  - intros k d Hk. cbn in Hk. by rewrite lookup_empty in Hk.
  - repeat constructor.
Defined.

Lemma bs_Get_rehash_witness :
  cid_of "x" = cid_of "x" /\ num_key_of "x" = block_key (cid_of "x").
Proof.
  apply (bs_Get_rehash (S := contents) num_key_of num_Sum (cid_of "x") {[ num_key (cid_of "x") := "x" ]}
    (NewBlockWithCid CidOps_N "x" (cid_of "x"))).
  vm_compute. reflexivity.
Defined.
End MultiInstances.
