(* ===== verification/Crdt.v ===== *)
(** * Delta CRDTs (core/crdt)

    The last-writer-wins register, which stores a field of a document with the
    priority of the commit that wrote it, and the composite DAG, which stores the
    object marker of a document and moves its fields aside when it is deleted.
    Both work on a datastore through [Datastore].  CBOR (ugorji/go) is code outside
    the repository and appears as the class [CborCodec]; IPLD nodes are records of
    their data and links. *)

From Stdlib Require Import Ascii.
From S2P Require Import Prelude GoStd Keys Store.

(** ** Deltas *)

Record DAGLink `{CidOps} := mkDAGLink { L_Name : string; L_Cid : Cid }.

(** [client.CType], [client.DocumentStatus] and the markers of db/base. *)
Definition LWW_REGISTER : Z := 1.
Definition Active : Z := 1.
Definition Deleted : Z := 2.
Definition IsDeleted (status : Z) : bool := 1 <? status.
Definition ObjectMarker : ascii := byte_of 255.
Definition DeletedObjectMarker : ascii := byte_of 254.

Record LWWRegDelta := mkLWWRegDelta {
  LD_SchemaVersionID : string;
  LD_Priority : Z;
  LD_Data : bytes;
  LD_DocKey : bytes;
  LD_FieldName : string;
}.

Record CompositeDAGDelta `{CidOps} := mkCompositeDAGDelta {
  CD_SchemaVersionID : string;
  CD_Priority : Z;
  CD_Data : bytes;
  CD_DocKey : bytes;
  CD_SubDAGs : list DAGLink;
  CD_Status : Z;
  CD_FieldName : string;
}.

(** [core.Delta]: the two implementations. *)
Inductive Delta `{CidOps} :=
  | DLWW (d : LWWRegDelta)
  | DComposite (d : CompositeDAGDelta).

Definition GetPriority `{CidOps} (d : Delta) : Z :=
  match d with DLWW d => d.(LD_Priority) | DComposite d => d.(CD_Priority) end.

Definition SetPriority `{CidOps} (d : Delta) (prio : Z) : Delta :=
  match d with
  | DLWW d => DLWW (mkLWWRegDelta d.(LD_SchemaVersionID) prio d.(LD_Data) d.(LD_DocKey) d.(LD_FieldName))
  | DComposite d =>
      DComposite (mkCompositeDAGDelta _ d.(CD_SchemaVersionID) prio d.(CD_Data) d.(CD_DocKey)
        d.(CD_SubDAGs) d.(CD_Status) d.(CD_FieldName))
  end.

Definition Delta_Value `{CidOps} (d : Delta) : bytes :=
  match d with DLWW d => d.(LD_Data) | DComposite d => d.(CD_Data) end.

(** [core.CompositeDelta.Links]; only a composite delta has links. *)
Definition Links `{CidOps} (d : Delta) : list DAGLink :=
  match d with DLWW _ => [] | DComposite d => d.(CD_SubDAGs) end.

(** ** Serialisation *)

Inductive cbor_value := CStr (s : string) | CUint (n : Z) | CBytes (b : bytes).

(** A struct is encoded as the list of its named fields. *)
Class CborCodec := {
  cbor_Encode : list (string * cbor_value) -> result bytes;
  cbor_Decode : bytes -> result (list (string * cbor_value));
  cbor_total : forall l, exists b, cbor_Encode l = Ok b;
  cbor_roundtrip : forall l b, cbor_Encode l = Ok b -> cbor_Decode b = Ok l;
}.

Definition cbor_field (name : string) (l : list (string * cbor_value)) : option cbor_value :=
  snd <$> List.find (fun '(n, _) => String.eqb n name) l.
Definition cbor_str (name : string) l : string :=
  match cbor_field name l with Some (CStr s) => s | _ => "" end.
Definition cbor_uint (name : string) l : Z :=
  match cbor_field name l with Some (CUint n) => n | _ => 0 end.
Definition cbor_bytes (name : string) l : bytes :=
  match cbor_field name l with Some (CBytes b) => b | _ => "" end.

Definition Marshal `{CidOps, CborCodec} (d : Delta) : result bytes :=
  match d with
  | DLWW d =>
      cbor_Encode
        [("SchemaVersionID", CStr d.(LD_SchemaVersionID)); ("Priority", CUint d.(LD_Priority));
         ("Data", CBytes d.(LD_Data)); ("DocKey", CBytes d.(LD_DocKey));
         ("FieldName", CStr d.(LD_FieldName))]
  | DComposite d =>
      cbor_Encode
        [("SchemaVersionID", CStr d.(CD_SchemaVersionID)); ("Priority", CUint d.(CD_Priority));
         ("Data", CBytes d.(CD_Data)); ("DocKey", CBytes d.(CD_DocKey));
         ("Status", CUint d.(CD_Status)); ("FieldName", CStr d.(CD_FieldName))]
  end.

(** [ipld.Node]: a [dag.ProtoNode] with its data and its links, or another kind
    of node. *)
Inductive Node `{CidOps} :=
  | ProtoNode (data : bytes) (links : list DAGLink)
  | OtherNode.

Definition Node_Links `{CidOps} (n : Node) : list DAGLink :=
  match n with ProtoNode _ links => links | OtherNode => [] end.

Definition LWW_DeltaDecode `{CidOps, CborCodec} (n : Node) : result Delta :=
  match n with
  | OtherNode => Err ErrUnexpectedType
  | ProtoNode data _ =>
      let! l := cbor_Decode data in
      Ok (DLWW (mkLWWRegDelta (cbor_str "SchemaVersionID" l) (cbor_uint "Priority" l)
            (cbor_bytes "Data" l) (cbor_bytes "DocKey" l) (cbor_str "FieldName" l)))
  end.

Definition Composite_DeltaDecode `{CidOps, CborCodec} (n : Node) : result Delta :=
  match n with
  | OtherNode => Err ErrUnexpectedType
  | ProtoNode data links =>
      let! l := cbor_Decode data in
      let subDAGs := List.filter (fun link => negb (String.eqb link.(L_Name) "head")) links in
      Ok (DComposite (mkCompositeDAGDelta _ (cbor_str "SchemaVersionID" l) (cbor_uint "Priority" l)
            (cbor_bytes "Data" l) (cbor_bytes "DocKey" l) subDAGs (cbor_uint "Status" l)
            (cbor_str "FieldName" l)))
  end.

(** ** Priorities *)

Section Crdt.
Context {S : Type} `{Datastore S} `{DsKey} `{CidOps}.

(** [PutUvarint] always writes at least one byte, so [n == 0] does not happen. *)
Definition setPriority (key : DataStoreKey) (priority : Z) : M S unit :=
  let prioK := WithPriorityFlag key in
  let buf := PutUvarint priority in
  if (String.length buf =? 0)%nat then mfail ErrEncodingPriority
  else ds_Put (ToDS prioK) buf.

Definition getPriority (key : DataStoreKey) : M S Z :=
  let pKey := WithPriorityFlag key in
  let* r := mtry (ds_Get (ToDS pKey)) in
  match r with
  | inr e => if errors_Is e ErrNotFound then mret 0 else mfail e
  | inl pbuf =>
      let '(prio, num) := Uvarint pbuf in
      if num <=? 0 then mfail ErrDecodingPriority else mret prio
  end.

(** ** The last-writer-wins register *)

Record LWWRegister := NewLWWRegister {
  R_key : DataStoreKey;
  R_schemaVersionKey : CollectionSchemaVersionKey;
  R_fieldName : string;
}.

Definition LWW_ID (reg : LWWRegister) : string := DataStoreKey_ToString reg.(R_key).

Definition LWW_Value (reg : LWWRegister) : M S bytes :=
  let valueK := WithValueFlag reg.(R_key) in
  let* buf := ds_Get (ToDS valueK) in
  match buf with
  | EmptyString => mpanic
  | String _ rest => mret rest
  end.

Definition LWW_Set (reg : LWWRegister) (value : bytes) : Delta :=
  DLWW (mkLWWRegDelta reg.(R_schemaVersionKey).(SchemaVersionId) 0 value
          reg.(R_key).(DocKey) reg.(R_fieldName)).

Definition tail_bytes (b : bytes) : bytes :=
  match b with EmptyString => EmptyString | String _ rest => rest end.

(** A read for which a missing key is the nil slice. *)
Definition getOrNil (k : string) : M S bytes :=
  let* r := mtry (ds_Get k) in
  match r with
  | inl v => mret v
  | inr e => if errors_Is e ErrNotFound then mret "" else mfail e
  end.

(** [bytes.Compare(curValue, val) >= 0] is [val <= curValue]. *)
Definition setValue (reg : LWWRegister) (val : bytes) (priority : Z) : M S unit :=
  let* rp := mtry (getPriority reg.(R_key)) in
  match rp with
  | inr e => mfail (ErrFailedToGetPriority e)
  | inl curPrio =>
      let key := WithValueFlag reg.(R_key) in
      let* marker := getOrNil (ToDS (ToPrimaryDataStoreKey reg.(R_key))) in
      let key := if String.eqb marker (String DeletedObjectMarker "")
                 then WithDeletedFlag key else key in
      if priority <? curPrio then mret tt
      else
        let* ignore :=
          (if priority =? curPrio then
             let* rc := mtry (ds_Get (ToDS key)) in
             let curValue := tail_bytes (match rc with inl v => v | inr _ => "" end) in
             mret (String.leb val curValue)
           else mret false) in
        if (ignore : bool) then mret tt
        else
          let buf := String (byte_of LWW_REGISTER) val in
          let* rw := mtry (ds_Put (ToDS key) buf) in
          match rw with
          | inr e => mfail (ErrFailedToStoreValue e)
          | inl _ => setPriority reg.(R_key) priority
          end
  end.

Definition LWW_Merge (reg : LWWRegister) (delta : Delta) : M S unit :=
  match delta with
  | DLWW d => setValue reg d.(LD_Data) d.(LD_Priority)
  | DComposite _ => mfail ErrMismatchedMergeType
  end.

(** ** The composite DAG *)

Record CompositeDAG := NewCompositeDAG {
  C_key : DataStoreKey;
  C_schemaVersionKey : CollectionSchemaVersionKey;
  C_fieldName : string;
}.

Definition Composite_ID (c : CompositeDAG) : string := DataStoreKey_ToString c.(C_key).

(** [CompositeDAG.Value] is always nil. *)
Definition Composite_Value (c : CompositeDAG) : M S bytes := mret "".

Definition link_le (a b : DAGLink) : Prop := Cid_String a.(L_Cid) <=s Cid_String b.(L_Cid).

#[global] Instance link_le_dec : RelDecision link_le.
Proof. intros a b. unfold link_le. apply _. Defined.

(** [sort.Slice] orders the links by the string form of their CID. *)
Definition Composite_Set (c : CompositeDAG) (patch : bytes) (links : list DAGLink) : Delta :=
  DComposite (mkCompositeDAGDelta _ c.(C_schemaVersionKey).(SchemaVersionId) 0 patch
                c.(C_key).(DocKey) (merge_sort link_le links) 0 c.(C_fieldName)).

(** The loop over the query results.  An entry that carries an error ends the
    loop with the outer [err], which is nil there. *)
Fixpoint deleteEntries (es : list entry) : M S unit :=
  match es with
  | [] => mret tt
  | Ok (k, v) :: rest =>
      let* dsKey := mlift (NewDataStoreKey k) in
      let* _ := (if String.eqb dsKey.(InstanceType) ValueKey
                 then ds_Put (ToDS (WithDeletedFlag dsKey)) v else mret tt) in
      let* _ := ds_Delete (ToDS dsKey) in
      deleteEntries rest
  | _ :: _ => mret tt
  end.

(** The error of [Query] is not inspected: with an error the results are nil and
    ranging over them panics. *)
Definition deleteWithPrefix (c : CompositeDAG) (key : DataStoreKey) : M S unit :=
  let* r := mtry (ds_Get (ToDS key)) in
  let* _ :=
    match r with
    | inl val =>
        let* _ := ds_Put (ToDS (WithDeletedFlag c.(C_key))) val in
        ds_Delete (ToDS key)
    | inr e => if errors_Is e ErrNotFound then mret tt else mfail e
    end in
  let* rq := mtry (ds_Query (DataStoreKey_ToString key)) in
  match rq with
  | inr _ => mpanic
  | inl es => deleteEntries es
  end.

Definition Composite_Merge (c : CompositeDAG) (delta : Delta) : M S unit :=
  let deleted := match delta with
                 | DComposite d => IsDeleted d.(CD_Status)
                 | DLWW _ => false
                 end in
  let pk := ToDS (ToPrimaryDataStoreKey c.(C_key)) in
  if deleted then
    let* _ := ds_Put pk (String DeletedObjectMarker "") in
    deleteWithPrefix c (WithFieldId (WithValueFlag c.(C_key)) "")
  else
    let* exists_ := ds_Has pk in
    if (exists_ : bool) then mret tt else ds_Put pk (String ObjectMarker "").
End Crdt.

(** ** The keys of one document *)

Section DocKeys.
Context `{DsKey}.
Variables col doc : string.
Hypothesis Hcol : elem_ok col = true.
Hypothesis Hdoc : elem_ok doc = true.

(** The value, deleted and priority instances of field [f], the object marker
    and the bare value prefix of the document. *)
Definition vkey (f : string) : string := path_of [col; ValueKey; doc; f].
Definition dkey (f : string) : string := path_of [col; DeletedKey; doc; f].
Definition pkey (f : string) : string := path_of [col; PriorityKey; doc; f].
Definition mkey : string := path_of [col; "pk"; doc].
Definition bare : string := path_of [col; ValueKey; doc].

Definition fieldKey (f : string) : DataStoreKey := mkDataStoreKey col "" doc f.

Lemma fieldKey_ok f : elem_ok f = true -> doc_ok (fieldKey f) = true.
Proof. intros Hf. unfold doc_ok. cbn. by rewrite Hcol, Hdoc, Hf, Bool.orb_true_r. Qed.

Lemma ToDS_flag t f :
  elem_ok t = true -> elem_ok f = true ->
  ToDS (mkDataStoreKey col t doc f) = path_of [col; t; doc; f].
Proof.
  intros Ht Hf. assert (key_ok (mkDataStoreKey col t doc f) = true) as Hk.
  { unfold key_ok. cbn. by rewrite Hcol, Hdoc, Ht, Hf, Bool.orb_true_r. }
  rewrite ToDS_DataStoreKey, DataStoreKey_ToString_elems by done.
  unfold key_elems. cbn [CollectionID InstanceType DocKey FieldId].
  by rewrite (elem_ok_nonempty f Hf).
Qed.

Lemma ToDS_bare : ToDS (mkDataStoreKey col ValueKey doc "") = bare.
Proof.
  assert (key_ok (mkDataStoreKey col ValueKey doc "") = true) as Hk.
  { unfold key_ok. cbn. by rewrite Hcol, Hdoc. }
  by rewrite ToDS_DataStoreKey, DataStoreKey_ToString_elems.
Qed.

Lemma ToString_bare : DataStoreKey_ToString (mkDataStoreKey col ValueKey doc "") = bare.
Proof.
  assert (key_ok (mkDataStoreKey col ValueKey doc "") = true) as Hk.
  { unfold key_ok. cbn. by rewrite Hcol, Hdoc. }
  by rewrite DataStoreKey_ToString_elems.
Qed.

Lemma ToDS_marker : ToDS (mkPrimaryDataStoreKey col doc) = mkey.
Proof.
  assert (primary_ok (mkPrimaryDataStoreKey col doc) = true) as Hk.
  { unfold primary_ok. cbn. by rewrite Hcol, Hdoc. }
  by rewrite ToDS_Primary, PrimaryDataStoreKey_ToString_elems.
Qed.

Lemma clean_bare : clean_key bare = true.
Proof. apply clean_key_path_of. auto. Qed.

Lemma below_vkey f : below bare (vkey f).
Proof.
  exists f. unfold bare, vkey. cbn [path_of]. by rewrite !str_app_nil_r, !str_app_cons, !str_app_assoc.
Qed.

Lemma free_list (l : list string) :
  forallb (free_of "/") l = true -> Forall (fun w => free_of "/" w = true) l.
Proof.
  induction l as [|w l IH]; [by constructor|]. cbn. rewrite Bool.andb_true_iff.
  intros [? ?]; auto.
Qed.

Lemma path_ne l l' :
  Forall (fun w => free_of "/" w = true) l -> Forall (fun w => free_of "/" w = true) l' ->
  l <> l' -> path_of l <> path_of l'.
Proof. intros H1 H2 Hne E. by apply path_of_inj in E. Qed.
End DocKeys.

(** The elements of a document key contain no separator. *)
Ltac path_free :=
  repeat (constructor; [by (apply elem_ok_free; assumption) || reflexivity|]); constructor.

(** Keys made of well-formed elements are clean. *)
#[export] Hint Extern 1 (clean_key _ = true) =>
  (apply clean_key_path_of; repeat (constructor; [assumption || reflexivity|]); constructor) : go.

(** Distinctness of document keys from the freeness of their elements. *)
Ltac key_ne :=
  apply path_ne; [path_free..
                 |congruence || (unfold ValueKey, DeletedKey, PriorityKey; congruence)].

(** ** The register as a join

    The abstract state of a register is the pair of the priority and the value it
    holds; merging a delta takes the larger of the two pairs, priorities first and
    values, byte-wise, second. *)

Definition lww : Type := Z * bytes.

Definition lww_lt (a b : lww) : Prop := a.1 < b.1 \/ (a.1 = b.1 /\ a.2 <s b.2).

#[global] Instance lww_lt_dec : RelDecision lww_lt.
Proof. intros a b. unfold lww_lt. apply _. Defined.

Definition lww_max (a b : lww) : lww := if decide (lww_lt a b) then b else a.

Lemma lww_lt_irrefl a : ~ lww_lt a a.
Proof. intros [?|[_ ?]]; [lia|]. by eapply str_lt_irrefl. Qed.

Lemma lww_lt_trans a b c : lww_lt a b -> lww_lt b c -> lww_lt a c.
Proof.
  unfold lww_lt. intros [?|[? ?]] [?|[? ?]]; [left; lia..|right]. split; [lia|].
  by eapply str_lt_trans.
Qed.

Lemma lww_lt_total a b : lww_lt a b \/ a = b \/ lww_lt b a.
Proof.
  destruct a as [p v], b as [q w]. unfold lww_lt. cbn.
  destruct (Z.lt_trichotomy p q) as [?|[->|?]]; auto.
  destruct (str_lt_total v w) as [?|[->|?]]; auto.
Qed.

Lemma lww_not_lt_trans a b c : ~ lww_lt a b -> ~ lww_lt b c -> ~ lww_lt a c.
Proof.
  intros Hab Hbc Hac. destruct (lww_lt_total a b) as [?|[->|?]]; auto.
  apply Hbc. by eapply lww_lt_trans.
Qed.

Lemma lww_not_lt_antisym a b : ~ lww_lt a b -> ~ lww_lt b a -> a = b.
Proof. destruct (lww_lt_total a b) as [?|[?|?]]; tauto. Qed.

(** The maximum of a non-empty list of states. *)
Definition lww_maximum (a : lww) (l : list lww) : lww := foldl lww_max a l.

Lemma lww_max_ub_l a b : ~ lww_lt (lww_max a b) a.
Proof.
  unfold lww_max. case_decide; [|apply lww_lt_irrefl]. intros ?.
  eapply lww_lt_irrefl, lww_lt_trans; eauto.
Qed.

Lemma lww_max_ub_r a b : ~ lww_lt (lww_max a b) b.
Proof. unfold lww_max. case_decide; [apply lww_lt_irrefl|done]. Qed.

Lemma lww_maximum_ub a l x : x ∈ a :: l -> ~ lww_lt (lww_maximum a l) x.
Proof.
  revert a x; induction l as [|b l IH]; intros a x.
  - intros ->%list_elem_of_singleton. apply lww_lt_irrefl.
  - intros Hx. change (lww_maximum a (b :: l)) with (lww_maximum (lww_max a b) l).
    rewrite !elem_of_cons in Hx. destruct Hx as [->|[->|Hx]].
    + eapply lww_not_lt_trans; [apply IH; left|apply lww_max_ub_l].
    + eapply lww_not_lt_trans; [apply IH; left|apply lww_max_ub_r].
    + apply IH. by right.
Qed.

Lemma lww_maximum_in a l : lww_maximum a l ∈ a :: l.
Proof.
  revert a; induction l as [|b l IH]; intros a; [left|].
  change (lww_maximum a (b :: l)) with (lww_maximum (lww_max a b) l).
  specialize (IH (lww_max a b)). rewrite elem_of_cons in IH. destruct IH as [->|IH]; [|set_solver].
  unfold lww_max. case_decide; set_solver.
Qed.

Lemma lww_maximum_unique a l b l' :
  (forall x, x ∈ a :: l <-> x ∈ b :: l') -> lww_maximum a l = lww_maximum b l'.
Proof.
  intros Heq. apply lww_not_lt_antisym; apply lww_maximum_ub; apply Heq, lww_maximum_in.
Qed.

Section Register.
Context {S : Type} `{LawfulDatastore S} `{DsKey} `{CidOps}.
Variables col doc f : string.
Hypothesis Hcol : elem_ok col = true.
Hypothesis Hdoc : elem_ok doc = true.
Hypothesis Hf : elem_ok f = true.

Local Abbreviation vk := (vkey col doc f).
Local Abbreviation dk := (dkey col doc f).
Local Abbreviation pk := (pkey col doc f).
Local Abbreviation mk := (mkey col doc).

(** The priority stored for the field is absent or an encoded [uint64]. *)
Definition reg_wf (m : contents) : Prop :=
  m !! pk = None \/ exists p, is_u64 p /\ m !! pk = Some (PutUvarint p).

Definition is_deleted_doc (m : contents) : bool :=
  bool_decide (m !! mk = Some (String DeletedObjectMarker "")).

(** The key that holds the value: the deleted instance for a deleted document. *)
Definition active_key (m : contents) : string := if is_deleted_doc m then dk else vk.

Definition reg_prio (m : contents) : Z :=
  match m !! pk with Some b => (Uvarint b).1 | None => 0 end.
Definition reg_val (m : contents) : bytes := tail_bytes (default "" (m !! active_key m)).
Definition reg_state (m : contents) : lww := (reg_prio m, reg_val m).

Definition reg_write (m : contents) (x : lww) : contents :=
  <[pk := PutUvarint x.1]> (<[active_key m := String (byte_of LWW_REGISTER) x.2]> m).

Definition reg_apply (m : contents) (x : lww) : contents :=
  if decide (lww_lt (reg_state m) x) then reg_write m x else m.

Lemma vk_pk : vk <> pk. Proof. key_ne. Qed.
Lemma dk_pk : dk <> pk. Proof. key_ne. Qed.
Lemma vk_dk : vk <> dk. Proof. key_ne. Qed.
Lemma mk_pk : mk <> pk. Proof. key_ne. Qed.
Lemma mk_vk : mk <> vk. Proof. key_ne. Qed.
Lemma mk_dk : mk <> dk. Proof. key_ne. Qed.

Lemma active_key_cases m : active_key m = dk \/ active_key m = vk.
Proof. unfold active_key. destruct (is_deleted_doc m); auto. Qed.

Lemma active_key_pk m : active_key m <> pk.
Proof. destruct (active_key_cases m) as [->| ->]; auto using dk_pk, vk_pk. Qed.

Lemma active_key_mk m : active_key m <> mk.
Proof.
  destruct (active_key_cases m) as [->| ->]; intros E; symmetry in E; revert E;
    auto using mk_dk, mk_vk.
Qed.

Lemma clean_active m : clean_key (active_key m) = true.
Proof. destruct (active_key_cases m) as [->| ->]; auto with go. Qed.
#[local] Hint Resolve clean_active : go.

Lemma is_deleted_doc_write m x : is_deleted_doc (reg_write m x) = is_deleted_doc m.
Proof.
  unfold is_deleted_doc, reg_write.
  rewrite !lookup_insert_ne; auto using active_key_mk, mk_pk, not_eq_sym.
Qed.

Lemma active_key_write m x : active_key (reg_write m x) = active_key m.
Proof. unfold active_key. by rewrite is_deleted_doc_write. Qed.

Lemma reg_state_write m x : is_u64 x.1 -> reg_state (reg_write m x) = x.
Proof.
  intros Hx. unfold reg_state, reg_prio, reg_val. rewrite active_key_write. unfold reg_write.
  rewrite lookup_insert_eq, lookup_insert_ne by auto using active_key_pk, not_eq_sym.
  rewrite lookup_insert_eq, Uvarint_PutUvarint by done. by destruct x.
Qed.

Lemma reg_wf_write m x : is_u64 x.1 -> reg_wf (reg_write m x).
Proof. intros Hx. right. exists x.1. split; [done|]. apply lookup_insert_eq. Qed.

Lemma reg_wf_apply m x : is_u64 x.1 -> reg_wf m -> reg_wf (reg_apply m x).
Proof. intros. unfold reg_apply. case_decide; auto using reg_wf_write. Qed.

Lemma reg_write_write m x y : reg_write (reg_write m x) y = reg_write m y.
Proof.
  unfold reg_write at 1. rewrite active_key_write. unfold reg_write.
  rewrite (insert_insert_ne _ (active_key m) pk) by auto using active_key_pk.
  by rewrite insert_insert_eq, insert_insert_eq.
Qed.

(** Two merges are one merge of the larger delta. *)
Lemma reg_apply_apply m x y :
  is_u64 x.1 -> reg_apply (reg_apply m x) y = reg_apply m (lww_max x y).
Proof.
  intros Hx. unfold reg_apply at 2 3. unfold lww_max.
  destruct (decide (lww_lt (reg_state m) x)) as [Hm|Hm].
  - unfold reg_apply. rewrite reg_state_write by done.
    destruct (decide (lww_lt x y)) as [Hxy|Hxy].
    + rewrite decide_True by by eapply lww_lt_trans. apply reg_write_write.
    + by rewrite decide_True.
  - unfold reg_apply. destruct (decide (lww_lt x y)) as [Hxy|Hxy]; [done|].
    rewrite (decide_False (P := lww_lt _ x)) by done.
    by rewrite decide_False by by eapply lww_not_lt_trans.
Qed.

Lemma reg_apply_foldl m x l :
  is_u64 x.1 -> Forall (fun y => is_u64 y.1) l ->
  foldl reg_apply m (x :: l) = reg_apply m (lww_maximum x l).
Proof.
  intros Hx Hl. revert x Hx. induction Hl as [|y l Hy Hl IH]; intros x Hx; [done|].
  change (foldl reg_apply m (x :: y :: l)) with (foldl reg_apply (reg_apply (reg_apply m x) y) l).
  rewrite reg_apply_apply by done.
  assert (is_u64 (lww_max x y).1) as Hm by (unfold lww_max; by case_decide).
  apply (IH _ Hm).
Qed.

(** *** The code computes the join *)

Variables (t : string) (sv : CollectionSchemaVersionKey) (name : string).
Local Abbreviation key := (mkDataStoreKey col t doc f).
Local Abbreviation reg := (NewLWWRegister key sv name).

Lemma steps_getPriority s :
  reg_wf (view s) ->
  steps (getPriority key) s (view s) (Ok (reg_prio (view s))).
Proof.
  intros Hwf. unfold getPriority.
  change (WithPriorityFlag key) with (mkDataStoreKey col PriorityKey doc f).
  rewrite ToDS_flag by done. store_bind steps_tryGet.
  fold (pkey col doc f). unfold reg_prio.
  destruct Hwf as [E|(p & Hp & E)]; rewrite E; [by rewrite <- Hview|].
  rewrite Uvarint_PutUvarint by done. pose proof (PutUvarint_length p).
  replace (_ <=? 0) with false by lia. by rewrite <- Hview.
Qed.

Lemma steps_getOrNil k s :
  clean_key k = true ->
  steps (getOrNil k) s (view s) (Ok (default "" (view s !! k))).
Proof.
  intros Hk. unfold getOrNil. store_bind steps_tryGet. destruct (view s !! k); by rewrite <- Hview.
Qed.

Lemma steps_setPriority p s :
  steps (setPriority key p) s (<[pk := PutUvarint p]> (view s)) (Ok tt).
Proof.
  unfold setPriority.
  change (WithPriorityFlag key) with (mkDataStoreKey col PriorityKey doc f).
  rewrite ToDS_flag by done. pose proof (PutUvarint_length p).
  replace (_ =? 0)%nat with false by (symmetry; apply Nat.eqb_neq; lia). apply law_Put. auto with go.
Qed.

Lemma deleted_marker m :
  String.eqb (default "" (m !! mk)) (String DeletedObjectMarker "") = is_deleted_doc m.
Proof.
  apply Bool.eq_iff_eq_true. unfold is_deleted_doc. rewrite String.eqb_eq, bool_decide_eq_true.
  destruct (m !! mk); cbn; split; congruence.
Qed.

Lemma active_ToDS m :
  ToDS (if is_deleted_doc m then WithDeletedFlag (WithValueFlag key) else WithValueFlag key) =
    active_key m.
Proof.
  unfold active_key, is_deleted_doc. case_bool_decide.
  - change (WithDeletedFlag (WithValueFlag key)) with (mkDataStoreKey col DeletedKey doc f).
    by apply ToDS_flag.
  - change (WithValueFlag key) with (mkDataStoreKey col ValueKey doc f). by apply ToDS_flag.
Qed.

Lemma reg_apply_lt m p v : p < reg_prio m -> reg_apply m (p, v) = m.
Proof.
  intros Hp. unfold reg_apply. rewrite decide_False; [done|].
  unfold lww_lt, reg_state. cbn. intros [?|[? _]]; lia.
Qed.

(** The guard of the tie: the value read is the abstract one. *)
Lemma steps_tie p v s :
  reg_prio (view s) <= p ->
  steps
    (if p =? reg_prio (view s)
     then let* rc := mtry (ds_Get (active_key (view s))) in
          let curValue := tail_bytes (match rc with inl v => v | inr _ => "" end) in
          mret (String.leb v curValue)
     else mret false) s (view s)
    (Ok (negb (bool_decide (lww_lt (reg_state (view s)) (p, v))))).
Proof.
  intros Hge. destruct (Z.eqb_spec p (reg_prio (view s))) as [->|Hne].
  - store_bind steps_tryGet. apply steps_ret_eq; [done|].
    transitivity (String.leb v (reg_val (view s))).
    { unfold reg_val. by destruct (view s !! _). }
    apply Bool.eq_iff_eq_true. rewrite Bool.negb_true_iff, bool_decide_eq_false.
    change (_ = true) with (v <=s reg_val (view s)). rewrite str_le_lt.
    unfold lww_lt. cbn. split; [intros Hlt [?|[_ ?]]; [lia|done]|tauto].
  - rewrite bool_decide_eq_true_2; [apply steps_ret|]. left. cbn. lia.
Qed.

Lemma steps_setValue p v s :
  reg_wf (view s) ->
  steps (setValue reg v p) s (reg_apply (view s) (p, v)) (Ok tt).
Proof.
  intros Hwf. unfold setValue. cbn [R_key].
  eapply steps_bind; [by apply steps_try_ok, steps_getPriority|]. intros s1 E1. cbv beta iota.
  change (ToPrimaryDataStoreKey key) with (mkPrimaryDataStoreKey col doc).
  rewrite ToDS_marker by done.
  eapply steps_bind; [apply steps_getOrNil; auto with go|]. intros s2 E2. cbv beta zeta.
  rewrite deleted_marker, active_ToDS. rewrite E1 in *. rewrite <- E2 in *. clear s1 E1 E2 s.
  rename s2 into s.
  destruct (Z.ltb_spec p (reg_prio (view s))) as [Hlt|Hge].
  { rewrite reg_apply_lt by done. apply steps_ret. }
  eapply steps_bind; [by apply steps_tie|]. intros s1 E1. cbv beta. unfold reg_apply.
  rewrite <- E1. case_decide as Hd.
  - rewrite bool_decide_eq_true_2 by done. cbn [negb].
    eapply steps_bind; [apply steps_try_ok, law_Put; auto with go|]. intros s3 E3. cbv beta iota.
    unfold reg_write. cbn [fst snd]. rewrite <- E3. apply steps_setPriority.
  - rewrite bool_decide_eq_false_2 by done. apply steps_ret.
Qed.
End Register.

(** ** Deletion *)

Section Deletion.
Context `{DsKey} `{CidOps}.
Variables col doc : string.
Hypothesis Hcol : elem_ok col = true.
Hypothesis Hdoc : elem_ok doc = true.

Local Abbreviation mk := (mkey col doc).

(** The invariant of a document: nothing is stored at its bare value prefix, what
    lies below the prefix are its fields, its fields are stored under the value
    instance or, once it is deleted, under the deleted instance, and a field that
    has a priority has a value. *)
Record doc_inv (m : contents) : Prop := {
  inv_bare : m !! bare col doc = None;
  inv_below : forall k, is_Some (m !! k) -> below (bare col doc) k ->
    exists f, elem_ok f = true /\ k = vkey col doc f;
  inv_deleted : is_deleted_doc col doc m = true ->
    forall f, elem_ok f = true -> m !! vkey col doc f = None;
  inv_active : is_deleted_doc col doc m = false ->
    forall f, elem_ok f = true -> m !! dkey col doc f = None;
  inv_reg : forall f, elem_ok f = true -> reg_wf col doc f m;
  inv_stored : forall f, elem_ok f = true -> is_Some (m !! pkey col doc f) ->
    exists v, m !! active_key col doc f m = Some (String (byte_of LWW_REGISTER) v);
}.

(** Moving one field aside. *)
Definition move (m : contents) (e : string * bytes) : contents :=
  delete (vkey col doc e.1) (<[dkey col doc e.1 := e.2]> m).

Definition moves (m : contents) (l : list (string * bytes)) : contents := foldl move m l.

Lemma vkey_inj f g : elem_ok f = true -> elem_ok g = true -> vkey col doc f = vkey col doc g -> f = g.
Proof.
  intros Hf Hg E. apply path_of_inj in E; [congruence|path_free..].
Qed.

Lemma dkey_inj f g : elem_ok f = true -> elem_ok g = true -> dkey col doc f = dkey col doc g -> f = g.
Proof.
  intros Hf Hg E. apply path_of_inj in E; [congruence|path_free..].
Qed.

Lemma vkey_dkey f g : elem_ok f = true -> elem_ok g = true -> vkey col doc f <> dkey col doc g.
Proof. intros. key_ne. Qed.

Definition names_ok (l : list (string * bytes)) : Prop :=
  Forall (fun e => elem_ok e.1 = true) l.

Lemma lookup_moves_vkey m l f v :
  names_ok l -> (f, v) ∈ l -> moves m l !! vkey col doc f = None.
Proof.
  intros Hl Hin. revert m. induction l as [|[g w] l IH] using rev_ind; [by apply elem_of_nil in Hin|].
  intros m. apply Forall_app in Hl as [Hl [Hg _]%Forall_cons]. cbn in Hg.
  unfold moves. rewrite foldl_app. cbn. unfold move at 1. cbn.
  apply elem_of_app in Hin as [Hin|E%list_elem_of_singleton].
  - assert (elem_ok f = true) as Hf by (rewrite Forall_forall in Hl; exact (Hl _ Hin)).
    apply lookup_delete_None. destruct (decide (vkey col doc g = vkey col doc f)); [by left|right].
    rewrite lookup_insert_ne by (apply not_eq_sym, vkey_dkey; done). by apply IH.
  - simplify_eq. apply lookup_delete_eq.
Qed.

Lemma lookup_moves_dkey m l f v :
  names_ok l -> NoDup l.*1 -> (f, v) ∈ l -> moves m l !! dkey col doc f = Some v.
Proof.
  intros Hl Hnd Hin. revert m. induction l as [|[g w] l IH] using rev_ind; [by apply elem_of_nil in Hin|].
  intros m. apply Forall_app in Hl as [Hl [Hg _]%Forall_cons]. cbn in Hg.
  rewrite fmap_app in Hnd. apply NoDup_app in Hnd as (Hnd & Hdis & _).
  unfold moves. rewrite foldl_app. cbn. unfold move at 1. cbn.
  apply elem_of_app in Hin as [Hin|E%list_elem_of_singleton].
  - assert (elem_ok f = true) as Hf by (rewrite Forall_forall in Hl; exact (Hl _ Hin)).
    assert (f <> g) as Hfg.
    { intros ->. apply (Hdis g); [|set_solver]. apply list_elem_of_fmap. by exists (g, v). }
    rewrite lookup_delete_ne by (apply vkey_dkey; done).
    rewrite lookup_insert_ne by (intros ?%dkey_inj; congruence). by apply IH.
  - simplify_eq. rewrite lookup_delete_ne by (apply vkey_dkey; done). apply lookup_insert_eq.
Qed.

Lemma lookup_moves_ne m l k :
  (forall f v, (f, v) ∈ l -> k <> vkey col doc f /\ k <> dkey col doc f) ->
  moves m l !! k = m !! k.
Proof.
  revert m; induction l as [|[g w] l IH]; intros m Hk; [done|].
  change (moves m ((g, w) :: l)) with (moves (move m (g, w)) l).
  rewrite IH by (intros; apply (Hk f v); by right). destruct (Hk g w); [left|].
  unfold move. cbn. rewrite lookup_delete_ne, lookup_insert_ne; auto.
Qed.

Lemma key_cases k :
  (exists f, elem_ok f = true /\ k = vkey col doc f) \/
  (exists f, elem_ok f = true /\ k = dkey col doc f) \/
  (forall f, elem_ok f = true -> k <> vkey col doc f /\ k <> dkey col doc f).
Proof.
  set (strip t := TrimPrefix k (path_of [col; t; doc] +:+ "/")).
  assert (forall t f, k = path_of [col; t; doc; f] -> strip t = f) as Hstrip.
  { intros t f ->. unfold strip.
    change [col; t; doc; f] with ([col; t; doc] ++ [f]). rewrite path_of_snoc.
    rewrite <- str_app_assoc. apply TrimPrefix_app. }
  destruct (decide (elem_ok (strip ValueKey) = true /\ k = vkey col doc (strip ValueKey)))
    as [[? ?]|Hv]; [eauto|].
  destruct (decide (elem_ok (strip DeletedKey) = true /\ k = dkey col doc (strip DeletedKey)))
    as [[? ?]|Hd]; [eauto|].
  right; right. intros f Hf. split; intros E.
  - apply Hv. rewrite (Hstrip ValueKey f E). done.
  - apply Hd. rewrite (Hstrip DeletedKey f E). done.
Qed.

(** The fields stored under the value instance. *)
Definition doc_fields (m : contents) : list (string * bytes) :=
  (fun e => (TrimPrefix e.1 (bare col doc +:+ "/"), e.2)) <$>
    List.filter (fun e => HasPrefix e.1 (bare col doc +:+ "/")) (map_to_list m).

Definition doc_delete (m : contents) : contents :=
  moves (<[mk := String DeletedObjectMarker ""]> m) (doc_fields m).

Lemma vkey_bare f : vkey col doc f = (bare col doc +:+ "/") +:+ f.
Proof.
  unfold vkey, bare. change [col; ValueKey; doc; f] with ([col; ValueKey; doc] ++ [f]).
  by rewrite path_of_snoc, <- str_app_assoc.
Qed.

Lemma TrimPrefix_vkey f : TrimPrefix (vkey col doc f) (bare col doc +:+ "/") = f.
Proof. by rewrite vkey_bare, TrimPrefix_app. Qed.

Lemma elem_of_doc_fields m f v :
  doc_inv m -> (f, v) ∈ doc_fields m <-> elem_ok f = true /\ m !! vkey col doc f = Some v.
Proof.
  intros Hi. unfold doc_fields. rewrite list_elem_of_fmap. split.
  - intros ([k w] & E & Hin). cbn in E. simplify_eq.
    apply list_elem_of_In, filter_In in Hin as [Hin Hp]. cbn in Hp.
    apply list_elem_of_In, elem_of_map_to_list in Hin. apply HasPrefix_spec in Hp.
    destruct (inv_below _ Hi k) as (f & Hf & ->); [by eexists|done|].
    by rewrite TrimPrefix_vkey.
  - intros [Hf Hm]. exists (vkey col doc f, v). cbn [fst snd]. split.
    + by rewrite TrimPrefix_vkey.
    + apply list_elem_of_In, filter_In. split.
      * by apply list_elem_of_In, elem_of_map_to_list.
      * cbn [fst]. apply HasPrefix_spec. rewrite vkey_bare. by eexists.
Qed.

Lemma doc_fields_ok m : doc_inv m -> names_ok (doc_fields m).
Proof. intros Hi. apply Forall_forall. intros [f v] Hin. by apply elem_of_doc_fields in Hin as [? _]. Qed.

Lemma doc_fields_NoDup m : doc_inv m -> NoDup (doc_fields m).*1.
Proof.
  intros Hi. apply (NoDup_fmap_1 (vkey col doc)).
  replace (vkey col doc <$> (doc_fields m).*1) with
    (List.filter (fun e => HasPrefix e.1 (bare col doc +:+ "/")) (map_to_list m)).*1;
    [apply MapStore.NoDup_filter_fst, NoDup_fst_map_to_list|].
  unfold doc_fields. rewrite <- !list_fmap_compose. apply list_fmap_ext.
  intros i [k w] [Hin Hp]%list_elem_of_lookup_2%list_elem_of_In%filter_In.
  apply list_elem_of_In, elem_of_map_to_list in Hin.
  destruct (inv_below _ Hi k) as (f & _ & ->); [by eexists|by apply HasPrefix_spec|].
  cbn [compose fst]. unfold compose. cbn [fst]. by rewrite TrimPrefix_vkey.
Qed.

Lemma moves_eq m l l' :
  names_ok l -> NoDup l.*1 -> names_ok l' -> NoDup l'.*1 -> (forall e, e ∈ l <-> e ∈ l') ->
  moves m l = moves m l'.
Proof.
  intros Hl Hnd Hl' Hnd' Heq. apply map_eq. intros k.
  assert (forall l : list (string * bytes), (forall f v, (f, v) ∈ l -> k <> vkey col doc f /\ k <> dkey col doc f) \/
    exists f v, (f, v) ∈ l /\ (k = vkey col doc f \/ k = dkey col doc f)) as Hdec.
  { clear. intros l. induction l as [|[f v] l IH].
    - left. intros f v Hin. by apply elem_of_nil in Hin.
    - destruct (decide (k = vkey col doc f)); [right; exists f, v; split; [left|auto]|].
      destruct (decide (k = dkey col doc f)); [right; exists f, v; split; [left|auto]|].
      destruct IH as [IH|(g & w & Hin & E)]; [left|right; exists g, w; split; [by right|done]].
      intros g w [E|Hin]%elem_of_cons; [by simplify_eq|eauto]. }
  destruct (Hdec l) as [Hne|(f & v & Hin & [->| ->])].
  - rewrite !lookup_moves_ne; [done| |done]. intros f v Hin. apply (Hne f v). by apply Heq.
  - rewrite (lookup_moves_vkey m l f v) by done.
    by rewrite (lookup_moves_vkey m l' f v) by (try apply Heq; done).
  - rewrite (lookup_moves_dkey m l f v) by done.
    by rewrite (lookup_moves_dkey m l' f v) by (try apply Heq; done).
Qed.

Lemma mkey_vkey f : elem_ok f = true -> mk <> vkey col doc f.
Proof. intros. by apply mk_vk. Qed.

Lemma mkey_dkey f : elem_ok f = true -> mk <> dkey col doc f.
Proof. intros. by apply mk_dk. Qed.

Lemma doc_delete_mkey m : doc_inv m -> doc_delete m !! mk = Some (String DeletedObjectMarker "").
Proof.
  intros Hi. unfold doc_delete. rewrite lookup_moves_ne, lookup_insert_eq; [done|].
  intros f v [Hf _]%elem_of_doc_fields; auto using mkey_vkey, mkey_dkey.
Qed.

Lemma doc_delete_vkey m f : doc_inv m -> elem_ok f = true -> doc_delete m !! vkey col doc f = None.
Proof.
  intros Hi Hf. unfold doc_delete. destruct (m !! vkey col doc f) as [v|] eqn:E.
  - apply (lookup_moves_vkey _ _ f v); [by apply doc_fields_ok|]. by apply elem_of_doc_fields.
  - rewrite lookup_moves_ne, lookup_insert_ne; auto using mkey_vkey.
    intros g v [Hg Hv]%elem_of_doc_fields; [|done].
    split; [intros ->%vkey_inj; congruence|by apply vkey_dkey].
Qed.

Lemma doc_delete_dkey m f :
  doc_inv m -> elem_ok f = true ->
  doc_delete m !! dkey col doc f =
    match m !! vkey col doc f with Some v => Some v | None => m !! dkey col doc f end.
Proof.
  intros Hi Hf. unfold doc_delete. destruct (m !! vkey col doc f) as [v|] eqn:E.
  - apply lookup_moves_dkey; [by apply doc_fields_ok|by apply doc_fields_NoDup|].
    by apply elem_of_doc_fields.
  - rewrite lookup_moves_ne, lookup_insert_ne; auto using mkey_dkey.
    intros g v [Hg Hv]%elem_of_doc_fields; [|done].
    split; [by apply not_eq_sym, vkey_dkey|intros ->%dkey_inj; congruence].
Qed.

Lemma doc_delete_other m k :
  doc_inv m -> k <> mk -> (forall f, elem_ok f = true -> k <> vkey col doc f /\ k <> dkey col doc f) ->
  doc_delete m !! k = m !! k.
Proof.
  intros Hi Hk Hf. unfold doc_delete. rewrite lookup_moves_ne, lookup_insert_ne; auto.
  intros f v [Hok _]%elem_of_doc_fields; auto.
Qed.

Lemma pkey_other f g : elem_ok f = true -> elem_ok g = true ->
  pkey col doc f <> vkey col doc g /\ pkey col doc f <> dkey col doc g.
Proof. intros. split; key_ne. Qed.

Lemma pkey_mkey f : elem_ok f = true -> pkey col doc f <> mk.
Proof. intros. key_ne. Qed.

Lemma doc_delete_pkey m f :
  doc_inv m -> elem_ok f = true -> doc_delete m !! pkey col doc f = m !! pkey col doc f.
Proof. intros. apply doc_delete_other; auto using pkey_mkey, pkey_other. Qed.

Lemma doc_delete_deleted m : doc_inv m -> is_deleted_doc col doc (doc_delete m) = true.
Proof. intros. apply bool_decide_eq_true. by apply doc_delete_mkey. Qed.

Lemma active_key_deleted f m : doc_inv m -> active_key col doc f (doc_delete m) = dkey col doc f.
Proof. intros Hi. unfold active_key. by rewrite doc_delete_deleted. Qed.

(** Only the value instance is below the value prefix. *)
Lemma not_below_bare t ws : t <> ValueKey -> free_of "/" t = true -> ~ below (bare col doc) (path_of (col :: t :: ws)).
Proof.
  intros Ht Hfree [rest E].
  replace ((bare col doc +:+ "/") +:+ rest) with
    (String "/" (col +:+ String "/" (ValueKey +:+ String "/" ((doc +:+ "/") +:+ rest)))) in E
    by (unfold bare; cbn [path_of]; by rewrite !str_app_nil_r, !str_app_cons, !str_app_assoc).
  cbn [path_of] in E. injection E as E. apply (inj (String.append col)) in E. injection E as E.
  apply (f_equal (fun s => Split s "/")) in E.
  rewrite (Split_app ValueKey) in E by done.
  destruct ws as [|w ws].
  - cbn [path_of] in E. rewrite str_app_nil_r in E. rewrite (Split_free t) in E by done.
    injection E as E _. done.
  - cbn [path_of] in E. rewrite (Split_app t) in E by done. injection E as E _. done.
Qed.

Lemma doc_inv_delete m : doc_inv m -> doc_inv (doc_delete m).
Proof.
  intros Hi. split.
  - rewrite doc_delete_other; [apply Hi|done|key_ne|]. intros f Hf. split; key_ne.
  - intros k Hk Hb.
    destruct (key_cases k) as [?|[(f & Hf & ->)|Hne]]; [done| |].
    + exfalso. revert Hb. by apply not_below_bare.
    + destruct (decide (k = mk)) as [->|]; [exfalso; revert Hb; by apply not_below_bare|].
      rewrite doc_delete_other in Hk by done. by apply (inv_below _ Hi).
  - intros _ f Hf. by apply doc_delete_vkey.
  - rewrite doc_delete_deleted by done. done.
  - intros f Hf. unfold reg_wf. rewrite doc_delete_pkey by done. by apply (inv_reg _ Hi).
  - intros f Hf. rewrite doc_delete_pkey by done. intros (v & Hv)%(inv_stored _ Hi); [|done].
    exists v. rewrite active_key_deleted, doc_delete_dkey by done. unfold active_key in Hv.
    destruct (is_deleted_doc col doc m) eqn:Hd; [by rewrite (inv_deleted _ Hi)|by rewrite Hv].
Qed.

(** *** The operations on a document *)

Definition doc_activate (m : contents) : contents :=
  match m !! mk with Some _ => m | None => <[mk := String ObjectMarker ""]> m end.

Inductive doc_op :=
  | OpField (f : string) (x : lww)
  | OpActivate
  | OpDelete.

Definition op_ok (o : doc_op) : Prop :=
  match o with OpField f x => elem_ok f = true /\ is_u64 x.1 | _ => True end.

Definition doc_apply (m : contents) (o : doc_op) : contents :=
  match o with
  | OpField f x => reg_apply col doc f m x
  | OpActivate => doc_activate m
  | OpDelete => doc_delete m
  end.

Lemma active_key_elim m f (P : string -> Prop) :
  (is_deleted_doc col doc m = true -> P (dkey col doc f)) ->
  (is_deleted_doc col doc m = false -> P (vkey col doc f)) -> P (active_key col doc f m).
Proof. unfold active_key. destruct (is_deleted_doc col doc m); auto. Qed.

Lemma lookup_reg_write_ne m f x k :
  k <> pkey col doc f -> k <> active_key col doc f m -> reg_write col doc f m x !! k = m !! k.
Proof. intros. unfold reg_write. by rewrite !lookup_insert_ne. Qed.

Lemma active_key_ne f g m m' :
  elem_ok f = true -> elem_ok g = true -> f <> g -> active_key col doc f m <> active_key col doc g m'.
Proof.
  intros Hf Hg Hne.
  do 2 (apply active_key_elim; intros _); intros E;
    [by apply dkey_inj in E|symmetry in E; by apply vkey_dkey in E|by apply vkey_dkey in E
    |by apply vkey_inj in E].
Qed.

Lemma pkey_active f g m : elem_ok f = true -> elem_ok g = true -> pkey col doc f <> active_key col doc g m.
Proof. intros. apply active_key_elim; intros _; by apply pkey_other. Qed.

Lemma doc_inv_write m f x :
  elem_ok f = true -> is_u64 x.1 -> doc_inv m -> doc_inv (reg_write col doc f m x).
Proof.
  intros Hf Hx Hi. split.
  - rewrite lookup_reg_write_ne; [apply Hi|key_ne|]. apply active_key_elim; intros; key_ne.
  - intros k Hk Hb. destruct (decide (k = pkey col doc f)) as [->|].
    { exfalso. revert Hb. by apply not_below_bare. }
    destruct (decide (k = active_key col doc f m)) as [->|].
    { revert Hb. apply active_key_elim; [|eauto]. intros _ Hb. exfalso. revert Hb.
      by apply not_below_bare. }
    rewrite lookup_reg_write_ne in Hk by done. by apply (inv_below _ Hi).
  - rewrite is_deleted_doc_write by done. intros Hd g Hg.
    rewrite lookup_reg_write_ne; [by apply (inv_deleted _ Hi)| |].
    + apply not_eq_sym. by apply pkey_other.
    + unfold active_key. rewrite Hd. by apply vkey_dkey.
  - rewrite is_deleted_doc_write by done. intros Hd g Hg.
    rewrite lookup_reg_write_ne; [by apply (inv_active _ Hi)| |].
    + apply not_eq_sym. by apply pkey_other.
    + unfold active_key. rewrite Hd. by apply not_eq_sym, vkey_dkey.
  - intros g Hg. destruct (decide (f = g)) as [->|Hne]; [by apply reg_wf_write|].
    unfold reg_wf. rewrite lookup_reg_write_ne; [by apply (inv_reg _ Hi)|key_ne|].
    by apply pkey_active.
  - intros g Hg. unfold active_key at 1. rewrite is_deleted_doc_write by done.
    fold (active_key col doc g m). destruct (decide (f = g)) as [->|Hne].
    + intros _. exists x.2. unfold reg_write.
      by rewrite lookup_insert_ne, lookup_insert_eq by (by apply pkey_active).
    + rewrite !lookup_reg_write_ne; [by apply (inv_stored _ Hi)|by apply not_eq_sym, pkey_active
        |by apply active_key_ne, not_eq_sym|key_ne|by apply pkey_active].
Qed.

Lemma activate_deleted m : is_deleted_doc col doc (doc_activate m) = is_deleted_doc col doc m.
Proof.
  unfold doc_activate. destruct (m !! mk) eqn:E; [done|]. unfold is_deleted_doc.
  rewrite lookup_insert_eq, E. by rewrite !bool_decide_eq_false_2.
Qed.

Lemma activate_lookup m k : k <> mk -> doc_activate m !! k = m !! k.
Proof. intros. unfold doc_activate. destruct (m !! mk); [done|]. by rewrite lookup_insert_ne. Qed.

Lemma doc_inv_activate m : doc_inv m -> doc_inv (doc_activate m).
Proof.
  intros Hi. split.
  - rewrite activate_lookup by key_ne. apply Hi.
  - intros k Hk Hb. destruct (decide (k = mk)) as [->|].
    { exfalso. revert Hb. by apply not_below_bare. }
    rewrite activate_lookup in Hk by done. by apply (inv_below _ Hi).
  - rewrite activate_deleted. intros. rewrite activate_lookup by (by apply not_eq_sym, mkey_vkey).
    by apply (inv_deleted _ Hi).
  - rewrite activate_deleted. intros. rewrite activate_lookup by (by apply not_eq_sym, mkey_dkey).
    by apply (inv_active _ Hi).
  - intros f Hf. unfold reg_wf. rewrite activate_lookup by (by apply pkey_mkey). by apply (inv_reg _ Hi).
  - intros f Hf. rewrite activate_lookup by (by apply pkey_mkey). intros Hp.
    unfold active_key. rewrite activate_deleted. fold (active_key col doc f m).
    rewrite activate_lookup by (by apply active_key_mk). by apply (inv_stored _ Hi).
Qed.

Lemma doc_inv_apply m o : op_ok o -> doc_inv m -> doc_inv (doc_apply m o).
Proof.
  destruct o as [f x| |]; cbn; [|auto using doc_inv_activate, doc_inv_delete..].
  intros [Hf Hx] Hi. unfold reg_apply. case_decide; [by apply doc_inv_write|done].
Qed.

(** A merge commutes with a transformation that keeps the register and commutes
    with the write. *)
Lemma reg_apply_comm f x m (T : contents -> contents) :
  reg_state col doc f (T m) = reg_state col doc f m ->
  reg_write col doc f (T m) x = T (reg_write col doc f m x) ->
  reg_apply col doc f (T m) x = T (reg_apply col doc f m x).
Proof. intros E1 E2. unfold reg_apply. rewrite E1. by case_decide. Qed.

Lemma reg_state_write_ne f g m x :
  elem_ok f = true -> elem_ok g = true -> f <> g ->
  reg_state col doc f (reg_write col doc g m x) = reg_state col doc f m.
Proof.
  intros Hf Hg Hne. unfold reg_state, reg_prio, reg_val.
  assert (active_key col doc f (reg_write col doc g m x) = active_key col doc f m) as ->
    by (unfold active_key; by rewrite is_deleted_doc_write).
  rewrite !lookup_reg_write_ne; auto using active_key_ne, pkey_active.
  - apply not_eq_sym. by apply pkey_active.
  - key_ne.
Qed.

Lemma reg_write_comm f g m x y :
  elem_ok f = true -> elem_ok g = true -> f <> g ->
  reg_write col doc f (reg_write col doc g m x) y = reg_write col doc g (reg_write col doc f m y) x.
Proof.
  intros Hf Hg Hne. assert (pkey col doc f <> pkey col doc g) as Hp by key_ne.
  assert (forall h h' m' z, elem_ok h = true -> elem_ok h' = true ->
    active_key col doc h (reg_write col doc h' m' z) = active_key col doc h m') as Hb.
  { intros. unfold active_key. by rewrite is_deleted_doc_write. }
  unfold reg_write at 1 3. rewrite !Hb by done. unfold reg_write.
  rewrite (insert_insert_ne _ (active_key col doc f m) (pkey col doc g)) by
    (apply not_eq_sym; by apply pkey_active).
  rewrite (insert_insert_ne _ (pkey col doc f) (pkey col doc g)) by done.
  f_equal.
  rewrite (insert_insert_ne _ (active_key col doc g m) (pkey col doc f)) by
    (apply not_eq_sym; by apply pkey_active).
  f_equal. apply insert_insert_ne. by apply active_key_ne.
Qed.

Lemma field_field f g m x y :
  elem_ok f = true -> elem_ok g = true -> is_u64 x.1 -> is_u64 y.1 ->
  reg_apply col doc g (reg_apply col doc f m x) y = reg_apply col doc f (reg_apply col doc g m y) x.
Proof.
  intros Hf Hg Hx Hy. destruct (decide (f = g)) as [->|Hne].
  - rewrite !reg_apply_apply by done. f_equal. unfold lww_max.
    destruct (decide (lww_lt x y)) as [H1'|H1'], (decide (lww_lt y x)) as [H2'|H2']; auto.
    + exfalso. eapply lww_lt_irrefl, lww_lt_trans; eauto.
    + by apply lww_not_lt_antisym.
  - apply (reg_apply_comm g y m (fun m => reg_apply col doc f m x)).
    + unfold reg_apply. case_decide; [by apply reg_state_write_ne|done].
    + unfold reg_apply at 1. unfold reg_apply. rewrite reg_state_write_ne by done.
      case_decide; [by apply reg_write_comm|done].
Qed.

Lemma field_activate f m x :
  elem_ok f = true ->
  reg_apply col doc f (doc_activate m) x = doc_activate (reg_apply col doc f m x).
Proof.
  intros Hf.
  assert (active_key col doc f (doc_activate m) = active_key col doc f m) as Ha
    by (unfold active_key; by rewrite activate_deleted).
  apply (reg_apply_comm f x m doc_activate).
  - unfold reg_state, reg_prio, reg_val. rewrite Ha.
    rewrite !activate_lookup; [done| |by apply pkey_mkey].
    by apply active_key_mk.
  - unfold doc_activate at 2. rewrite lookup_reg_write_ne;
      [|by apply not_eq_sym, pkey_mkey|by apply not_eq_sym, active_key_mk].
    unfold reg_write. rewrite Ha. unfold doc_activate. destruct (m !! mk); [done|].
    rewrite (insert_insert_ne _ (active_key col doc f m) mk) by by apply active_key_mk.
    rewrite (insert_insert_ne _ (pkey col doc f) mk) by by apply pkey_mkey. done.
Qed.

Lemma doc_delete_activate m : doc_inv m -> doc_delete (doc_activate m) = doc_delete m.
Proof.
  intros Hi. pose proof (doc_inv_activate m Hi) as Hi'. apply map_eq. intros k.
  destruct (key_cases k) as [(f & Hf & ->)|[(f & Hf & ->)|Hne]].
  - by rewrite !doc_delete_vkey.
  - rewrite !doc_delete_dkey by done.
    by rewrite !activate_lookup by auto using mkey_vkey, mkey_dkey, not_eq_sym.
  - destruct (decide (k = mk)) as [->|Hk]; [by rewrite !doc_delete_mkey|].
    rewrite !doc_delete_other by done. by apply activate_lookup.
Qed.

Lemma activate_doc_delete m : doc_inv m -> doc_activate (doc_delete m) = doc_delete m.
Proof. intros Hi. unfold doc_activate at 1. by rewrite doc_delete_mkey. Qed.

Lemma doc_delete_idem m : doc_inv m -> doc_delete (doc_delete m) = doc_delete m.
Proof.
  intros Hi. pose proof (doc_inv_delete m Hi) as Hi'. apply map_eq. intros k.
  destruct (key_cases k) as [(f & Hf & ->)|[(f & Hf & ->)|Hne]].
  - by rewrite !doc_delete_vkey.
  - rewrite (doc_delete_dkey (doc_delete m)) by done. by rewrite doc_delete_vkey.
  - destruct (decide (k = mk)) as [->|Hk]; [by rewrite !doc_delete_mkey|].
    by rewrite (doc_delete_other (doc_delete m)).
Qed.

(** Deletion moves the register, it does not change it. *)
Lemma reg_state_delete f m :
  doc_inv m -> elem_ok f = true -> reg_state col doc f (doc_delete m) = reg_state col doc f m.
Proof.
  intros Hi Hf. unfold reg_state, reg_prio, reg_val. rewrite doc_delete_pkey by done. f_equal.
  rewrite active_key_deleted, doc_delete_dkey by done.
  destruct (is_deleted_doc col doc m) eqn:Hd; unfold active_key; rewrite Hd.
  - by rewrite (inv_deleted _ Hi).
  - rewrite (inv_active _ Hi) by done. by destruct (m !! vkey col doc f).
Qed.

Lemma reg_write_delete f m x :
  doc_inv m -> elem_ok f = true -> is_u64 x.1 ->
  reg_write col doc f (doc_delete m) x = doc_delete (reg_write col doc f m x).
Proof.
  intros Hi Hf Hx. pose proof (doc_inv_write m f x Hf Hx Hi) as Hi'.
  apply map_eq. intros k.
  destruct (decide (k = pkey col doc f)) as [->|Hp].
  { rewrite doc_delete_pkey by done. unfold reg_write. by rewrite !lookup_insert_eq. }
  destruct (decide (k = dkey col doc f)) as [->|Hd].
  { rewrite doc_delete_dkey by done. unfold reg_write at 1. rewrite active_key_deleted by done.
    rewrite lookup_insert_ne, lookup_insert_eq by (apply pkey_other; done).
    unfold reg_write. rewrite !(lookup_insert_ne _ (pkey col doc f)) by (by apply pkey_other).
    apply active_key_elim; intros E; [|by rewrite lookup_insert_eq].
    rewrite lookup_insert_ne, lookup_insert_eq by (by apply not_eq_sym, vkey_dkey).
    by rewrite (inv_deleted _ Hi). }
  rewrite lookup_reg_write_ne by (rewrite ?active_key_deleted; done).
  destruct (key_cases k) as [(g & Hg & ->)|[(g & Hg & ->)|Hne]].
  - by rewrite !doc_delete_vkey.
  - assert (f <> g) as Hfg by congruence. rewrite !doc_delete_dkey by done.
    rewrite !lookup_reg_write_ne; [done|done| |by apply not_eq_sym, pkey_other|].
    + apply active_key_elim; intros _; [done|by apply not_eq_sym, vkey_dkey].
    + apply active_key_elim; intros _; [by apply vkey_dkey|].
      intros ?%vkey_inj; [by subst|done..].
  - destruct (decide (k = mk)) as [->|Hk]; [by rewrite !doc_delete_mkey|].
    rewrite !doc_delete_other by done. symmetry. apply lookup_reg_write_ne; [done|].
    apply active_key_elim; intros _; by apply Hne.
Qed.

Lemma field_delete f m x :
  doc_inv m -> elem_ok f = true -> is_u64 x.1 ->
  reg_apply col doc f (doc_delete m) x = doc_delete (reg_apply col doc f m x).
Proof. intros. apply reg_apply_comm; [by apply reg_state_delete|by apply reg_write_delete]. Qed.

Lemma field_idem f m x :
  is_u64 x.1 -> elem_ok f = true ->
  reg_apply col doc f (reg_apply col doc f m x) x = reg_apply col doc f m x.
Proof. intros Hx Hf. rewrite reg_apply_apply by done. f_equal. unfold lww_max. by case_decide. Qed.

Lemma doc_apply_comm m o1 o2 :
  doc_inv m -> op_ok o1 -> op_ok o2 ->
  doc_apply (doc_apply m o1) o2 = doc_apply (doc_apply m o2) o1.
Proof.
  intros Hi Ho1 Ho2. destruct o1 as [f x| |], o2 as [g y| |]; cbn in *; destruct_and?; try done.
  - by apply field_field.
  - symmetry. by apply field_activate.
  - symmetry. by apply field_delete.
  - by apply field_activate.
  - by rewrite doc_delete_activate, activate_doc_delete.
  - by apply field_delete.
  - by rewrite doc_delete_activate, activate_doc_delete.
Qed.

Lemma doc_apply_idem m o :
  doc_inv m -> op_ok o -> doc_apply (doc_apply m o) o = doc_apply m o.
Proof.
  intros Hi Ho. destruct o as [f x| |]; cbn in *; destruct_and?.
  - by apply field_idem.
  - unfold doc_activate at 1. unfold doc_activate. destruct (m !! mk) eqn:E; [by rewrite E|].
    by rewrite lookup_insert_eq.
  - by apply doc_delete_idem.
Qed.
End Deletion.

(** ** Merging the deltas of a document *)

Section Document.
Context {S : Type} `{LawfulDatastore S} `{DsKey} `{CidOps}.
Variables col doc : string.
Hypothesis Hcol : elem_ok col = true.
Hypothesis Hdoc : elem_ok doc = true.
Variables (t : string) (sv : CollectionSchemaVersionKey) (name composite : string).

(** The deltas that reach a document: field deltas for its registers and composite
    deltas for the document itself. *)
Inductive doc_delta :=
  | FieldDelta (f : string) (d : LWWRegDelta)
  | DocDelta (d : CompositeDAGDelta).

Definition merge_delta (d : doc_delta) : M S unit :=
  match d with
  | FieldDelta f d => LWW_Merge (NewLWWRegister (mkDataStoreKey col t doc f) sv f) (DLWW d)
  | DocDelta d =>
      Composite_Merge (NewCompositeDAG (mkDataStoreKey col t doc composite) sv name) (DComposite d)
  end.

Fixpoint merge_deltas (ds : list doc_delta) : M S unit :=
  match ds with
  | [] => mret tt
  | d :: ds' => let* _ := merge_delta d in merge_deltas ds'
  end.

Definition delta_ok (d : doc_delta) : Prop :=
  match d with FieldDelta f d => elem_ok f = true /\ is_u64 d.(LD_Priority) | DocDelta _ => True end.

Definition op_of (d : doc_delta) : doc_op :=
  match d with
  | FieldDelta f d => OpField f (d.(LD_Priority), d.(LD_Data))
  | DocDelta d => if IsDeleted d.(CD_Status) then OpDelete else OpActivate
  end.

Lemma op_of_ok d : delta_ok d -> op_ok (op_of d).
Proof. destruct d; cbn; [done|]. by destruct (IsDeleted _). Qed.

Lemma NewDataStoreKey_vkey f :
  elem_ok f = true -> NewDataStoreKey (vkey col doc f) = Ok (mkDataStoreKey col ValueKey doc f).
Proof. intros Hf. unfold vkey. rewrite NewDataStoreKey_path; [done|path_free]. Qed.

Lemma steps_deleteEntries l s :
  names_ok l ->
  steps (deleteEntries ((fun e => Ok (vkey col doc e.1, e.2)) <$> l)) s
    (moves col doc (view s) l) (Ok tt).
Proof.
  intros Hl. revert s. induction Hl as [|[f v] l Hf Hl IH]; intros s; [by split|].
  cbn [fmap list_fmap fst snd] in *. cbn [deleteEntries].
  rewrite NewDataStoreKey_vkey by done.
  eapply steps_bind; [apply steps_lift|]. intros s1 E1. cbn [InstanceType].
  change (String.eqb ValueKey ValueKey) with true. cbv iota.
  change (WithDeletedFlag (mkDataStoreKey col ValueKey doc f)) with (mkDataStoreKey col DeletedKey doc f).
  rewrite !ToDS_flag by done.
  store_bind law_Put. store_bind law_Delete.
  change (moves col doc (view s) ((f, v) :: l)) with (moves col doc (move col doc (view s) (f, v)) l).
  replace (move col doc (view s) (f, v)) with (view s2); [apply IH|].
  rewrite Hview0, Hview, E1. done.
Qed.

Local Abbreviation composite_dag := (NewCompositeDAG (mkDataStoreKey col t doc composite) sv name).

Lemma query_names (m : contents) l :
  (forall k, is_Some (m !! k) -> below (bare col doc) k ->
    exists f, elem_ok f = true /\ k = vkey col doc f) ->
  NoDup l.*1 -> (forall k v, (k, v) ∈ l <-> m !! k = Some v /\ below (bare col doc) k) ->
  exists l', l = (fun e => (vkey col doc e.1, e.2)) <$> l' /\ names_ok l' /\ NoDup l'.*1.
Proof.
  intros Hi Hnd Hl. exists ((fun e => (TrimPrefix e.1 (bare col doc +:+ "/"), e.2)) <$> l).
  assert (forall k v, (k, v) ∈ l -> exists f, elem_ok f = true /\ k = vkey col doc f) as Hk.
  { intros k v [Hm Hb]%Hl. by apply Hi. }
  assert (l = (fun e => (vkey col doc e.1, e.2)) <$>
    ((fun e => (TrimPrefix e.1 (bare col doc +:+ "/"), e.2)) <$> l)) as E.
  { rewrite <- list_fmap_compose. symmetry. rewrite <- (list_fmap_id l) at 2. apply list_fmap_ext.
    intros i [k v] (f & Hf & ->)%list_elem_of_lookup_2%Hk. unfold compose. cbn [fst snd].
    by rewrite TrimPrefix_vkey. }
  split; [done|]. split.
  - apply Forall_forall. intros e ([k v] & -> & (f & Hf & ->)%Hk)%list_elem_of_fmap. cbn [fst].
    by rewrite TrimPrefix_vkey.
  - apply (NoDup_fmap_1 (vkey col doc)). rewrite E, <- !list_fmap_compose in Hnd.
    by rewrite <- !list_fmap_compose.
Qed.

Lemma query_elem (m : contents) l' f v :
  names_ok l' ->
  (forall k v, (k, v) ∈ (fun e => (vkey col doc e.1, e.2)) <$> l' <->
    m !! k = Some v /\ below (bare col doc) k) ->
  (f, v) ∈ l' <-> elem_ok f = true /\ m !! vkey col doc f = Some v.
Proof.
  intros Hok Hl. pose proof (proj1 (Forall_forall _ _) Hok) as Hok'. split.
  - intros Hin. split; [exact (Hok' _ Hin)|]. apply Hl, list_elem_of_fmap. by exists (f, v).
  - intros [Hf Hv].
    assert ((vkey col doc f, v) ∈ (fun e => (vkey col doc e.1, e.2)) <$> l') as Hin
      by (apply Hl; split; [done|apply below_vkey]).
    apply list_elem_of_fmap in Hin as ([g w] & E & Hin).
    cbn [fst snd] in E. apply pair_eq in E as [E ->].
    apply vkey_inj in E; [by subst|done..|]. exact (Hok' _ Hin).
Qed.

(** The store between the marker and the loop: the keys below the prefix are
    still the fields. *)
Lemma doc_marked m (m' := <[mkey col doc := String DeletedObjectMarker ""]> m) :
  doc_inv col doc m ->
  m' !! bare col doc = None /\
  (forall k, is_Some (m' !! k) -> below (bare col doc) k ->
    exists f, elem_ok f = true /\ k = vkey col doc f) /\
  (forall f, elem_ok f = true -> m' !! vkey col doc f = m !! vkey col doc f).
Proof.
  intros Hi. unfold m'. split; [|split].
  - rewrite lookup_insert_ne by key_ne. apply Hi.
  - intros k Hk Hb. destruct (decide (k = mkey col doc)) as [->|].
    + exfalso. revert Hb. by apply not_below_bare.
    + rewrite lookup_insert_ne in Hk by done. by apply (inv_below _ _ _ Hi).
  - intros f Hf. by rewrite lookup_insert_ne by (by apply mkey_vkey).
Qed.

(** Merging a composite delta with a deleted status is [doc_delete]. *)
Lemma steps_composite_delete d s :
  doc_inv col doc (view s) -> IsDeleted d.(CD_Status) = true ->
  steps (Composite_Merge composite_dag (DComposite d)) s (doc_delete col doc (view s)) (Ok tt).
Proof.
  intros Hi Hd. unfold Composite_Merge. rewrite Hd. cbn [C_key].
  change (ToPrimaryDataStoreKey (mkDataStoreKey col t doc composite)) with (mkPrimaryDataStoreKey col doc).
  change (WithFieldId (WithValueFlag (mkDataStoreKey col t doc composite)) "")
    with (mkDataStoreKey col ValueKey doc "").
  rewrite ToDS_marker by done. destruct (doc_marked _ Hi) as (Hbare & Hbelow & Hv).
  unfold doc_delete. set (m := <[mkey col doc := _]> (view s)) in *.
  eapply steps_bind; [apply law_Put; auto with go|]. fold m. intros s1 Es1. unfold deleteWithPrefix.
  rewrite ToDS_bare, ToString_bare by done.
  eapply steps_bind; [apply steps_tryGet; auto with go|]. rewrite Es1, Hbare. intros s2 Es2. cbv beta iota.
  rewrite errors_Is_refl.
  eapply steps_bind; [apply steps_ret|]. rewrite Es2. intros s3 Es3.
  destruct (law_Query (bare col doc) s3 (clean_bare _ _ Hcol Hdoc)) as (l & Hq & Hnd & Hl).
  eapply steps_bind; [apply steps_try_ok, Hq|]. rewrite Es3 in *. intros s4 Es4. cbv beta iota.
  destruct (query_names m l Hbelow Hnd Hl) as (l' & -> & Hok & Hnd').
  rewrite <- list_fmap_compose, <- Es4.
  rewrite (moves_eq col doc Hcol Hdoc (view s4) (doc_fields col doc (view s)) l');
    [by apply steps_deleteEntries|by apply doc_fields_ok|by apply doc_fields_NoDup|done..|].
  intros [f v]. rewrite elem_of_doc_fields, (query_elem m) by done. naive_solver congruence.
Qed.

Lemma steps_composite_active d s :
  IsDeleted d.(CD_Status) = false ->
  steps (Composite_Merge composite_dag (DComposite d)) s (doc_activate col doc (view s)) (Ok tt).
Proof.
  intros Hd. unfold Composite_Merge. rewrite Hd. cbn [C_key].
  change (ToPrimaryDataStoreKey (mkDataStoreKey col t doc composite)) with (mkPrimaryDataStoreKey col doc).
  rewrite ToDS_marker by done. eapply steps_bind; [apply law_Has; auto with go|]. intros s1 Es1. cbv beta.
  unfold doc_activate. rewrite <- Es1. destruct (view s1 !! mkey col doc) eqn:E.
  - rewrite bool_decide_eq_true_2 by done. apply steps_ret.
  - rewrite bool_decide_eq_false_2 by (by intros []). apply law_Put. auto with go.
Qed.

Lemma steps_merge_delta d s :
  doc_inv col doc (view s) -> delta_ok d ->
  steps (merge_delta d) s (doc_apply col doc (view s) (op_of d)) (Ok tt).
Proof.
  intros Hi Hd. destruct d as [f d|d]; cbn [merge_delta op_of delta_ok] in *.
  - destruct Hd as [Hf Hp]. apply steps_setValue; try done. by apply (inv_reg _ _ _ Hi).
  - destruct (IsDeleted _) eqn:E; [by apply steps_composite_delete|by apply steps_composite_active].
Qed.

Lemma steps_merge_deltas ds s :
  doc_inv col doc (view s) -> Forall delta_ok ds ->
  steps (merge_deltas ds) s (foldl (doc_apply col doc) (view s) (op_of <$> ds)) (Ok tt).
Proof.
  intros Hi Hds. revert s Hi. induction Hds as [|d ds Hd Hds IH]; intros s Hi; [by split|].
  cbn [merge_deltas]. eapply steps_bind; [by apply steps_merge_delta|]. intros s1 E1. cbn.
  rewrite <- E1. apply IH. rewrite E1. apply doc_inv_apply; auto using op_of_ok.
Qed.

(** The field deltas of [f], as register states. *)
Definition states_of (f : string) (ds : list doc_delta) : list lww :=
  omap (fun d => match d with
                 | FieldDelta g d => if String.eqb f g then Some (d.(LD_Priority), d.(LD_Data)) else None
                 | DocDelta _ => None
                 end) ds.

Lemma reg_state_apply_delta f m d :
  elem_ok f = true -> doc_inv col doc m -> delta_ok d ->
  reg_state col doc f (doc_apply col doc m (op_of d)) =
    lww_maximum (reg_state col doc f m) (states_of f [d]).
Proof.
  intros Hf Hi Hd. destruct d as [g d|d]; cbn [op_of doc_apply delta_ok] in *.
  - destruct Hd as [Hg Hp]. unfold states_of. cbn. destruct (String.eqb_spec f g) as [->|Hne]; cbn.
    + unfold reg_apply, lww_max. case_decide; [by apply reg_state_write|done].
    + unfold reg_apply. case_decide; [by apply reg_state_write_ne|done].
  - destruct (IsDeleted _); cbn; [by apply reg_state_delete|].
    unfold reg_state, reg_prio, reg_val, active_key. rewrite activate_deleted by done.
    fold (active_key col doc f m). rewrite !activate_lookup; auto using pkey_mkey, active_key_mk.
Qed.

(** Merging keeps, for every field, the largest of the state the store had and the
    deltas merged, whether or not the document is deleted in between. *)
Lemma reg_state_merge f ds m :
  elem_ok f = true -> doc_inv col doc m -> Forall delta_ok ds ->
  reg_state col doc f (foldl (doc_apply col doc) m (op_of <$> ds)) =
    lww_maximum (reg_state col doc f m) (states_of f ds).
Proof.
  intros Hf Hi Hds. revert m Hi. induction Hds as [|d ds Hd Hds IH]; intros m Hi; [done|].
  cbn [fmap list_fmap foldl]. rewrite IH by (apply doc_inv_apply; auto using op_of_ok).
  rewrite reg_state_apply_delta by done. unfold lww_maximum. rewrite <- foldl_app. f_equal.
  unfold states_of. cbn. by destruct d as [g ?|]; [destruct (String.eqb f g)|].
Qed.

Definition deletes (d : doc_delta) : bool :=
  match d with FieldDelta _ _ => false | DocDelta d => IsDeleted d.(CD_Status) end.

Lemma deleted_apply m d :
  doc_inv col doc m -> delta_ok d ->
  is_deleted_doc col doc (doc_apply col doc m (op_of d)) = is_deleted_doc col doc m || deletes d.
Proof.
  intros Hi Hd. destruct d as [g d|d]; cbn in *.
  - destruct Hd as [Hg _]. rewrite Bool.orb_false_r. unfold reg_apply.
    case_decide; [by apply is_deleted_doc_write|done].
  - destruct (IsDeleted _); cbn; [by rewrite doc_delete_deleted, Bool.orb_true_r|].
    by rewrite activate_deleted, Bool.orb_false_r.
Qed.

(** A document is deleted once one of the deltas merged deletes it. *)
Lemma deleted_merge ds m :
  doc_inv col doc m -> Forall delta_ok ds ->
  is_deleted_doc col doc (foldl (doc_apply col doc) m (op_of <$> ds)) =
    is_deleted_doc col doc m || existsb deletes ds.
Proof.
  intros Hi Hds. revert m Hi. induction Hds as [|d ds Hd Hds IH]; intros m Hi.
  - cbn. by rewrite Bool.orb_false_r.
  - cbn [fmap list_fmap foldl existsb]. rewrite IH by (apply doc_inv_apply; auto using op_of_ok).
    rewrite deleted_apply by done. by rewrite Bool.orb_assoc.
Qed.

Lemma doc_inv_merge ds m :
  doc_inv col doc m -> Forall delta_ok ds ->
  doc_inv col doc (foldl (doc_apply col doc) m (op_of <$> ds)).
Proof.
  intros Hi Hds. apply (foldl_inv _ (doc_inv col doc) op_ok); [by apply doc_inv_apply| |done].
  apply Forall_fmap. eapply Forall_impl; [exact Hds|]. apply op_of_ok.
Qed.

Lemma doc_inv_empty : doc_inv col doc ∅.
Proof.
  split; try (intros; apply lookup_empty).
  - intros k [v Hv]. by rewrite lookup_empty in Hv.
  - intros f _. left. apply lookup_empty.
  - intros f _ [v Hv]. by rewrite lookup_empty in Hv.
Qed.

Lemma steps_LWW_Value f s v :
  elem_ok f = true -> view s !! vkey col doc f = v ->
  steps (LWW_Value (NewLWWRegister (mkDataStoreKey col t doc f) sv f)) s (view s)
    match v with
    | None => Err ErrNotFound
    | Some EmptyString => Panic
    | Some (String _ rest) => Ok rest
    end.
Proof.
  intros Hf Hv. unfold LWW_Value. cbn [R_key].
  change (WithValueFlag (mkDataStoreKey col t doc f)) with (mkDataStoreKey col ValueKey doc f).
  rewrite ToDS_flag by done. fold (vkey col doc f).
  destruct v as [v|].
  - eapply steps_bind; [apply steps_Get_Some; [auto with go|done]|]. intros s1 <-. by destruct v.
  - apply steps_bind_err, steps_Get_None; [auto with go|done].
Qed.

(** C1: replicas of a document that merge the same set of deltas, in any order and
    any number of times, all merges succeeding, end with the same contents.  The
    deltas are the field deltas of its registers and the composite deltas of the
    document, deletions included. *)
Theorem merge_deltas_converge s1 s2 ds1 ds2 :
  doc_inv col doc (view s1) -> view s1 = view s2 ->
  Forall delta_ok ds1 -> (forall d, d ∈ ds1 <-> d ∈ ds2) ->
  exists v, steps (merge_deltas ds1) s1 v (Ok tt) /\ steps (merge_deltas ds2) s2 v (Ok tt).
Proof.
  intros Hi Es Hds Heq.
  assert (Forall delta_ok ds2) as Hds2.
  { rewrite Forall_forall in *. intros d Hd. by apply Hds, Heq. }
  assert (forall ds, Forall delta_ok ds -> Forall op_ok (op_of <$> ds)) as Hok.
  { intros ds ?. apply Forall_fmap. eapply Forall_impl; [done|]. apply op_of_ok. }
  eexists. split; [by apply steps_merge_deltas|].
  rewrite (foldl_same_elements (doc_apply col doc) (doc_inv col doc) op_ok)
    with (l' := op_of <$> ds2); auto using doc_inv_apply, doc_apply_comm, doc_apply_idem.
  - rewrite Es in Hi |- *. by apply steps_merge_deltas.
  - intros o. rewrite !list_elem_of_fmap. by setoid_rewrite Heq.
Qed.

(** [d] is the largest delta of field [f] in [ds] and larger than the state [x]. *)
Definition wins (f : string) (x : lww) (ds : list doc_delta) (d : LWWRegDelta) : Prop :=
  FieldDelta f d ∈ ds /\ lww_lt x (d.(LD_Priority), d.(LD_Data)) /\
  forall d', FieldDelta f d' ∈ ds ->
    ~ lww_lt (d.(LD_Priority), d.(LD_Data)) (d'.(LD_Priority), d'.(LD_Data)).

Lemma wins_maximum f x ds d :
  wins f x ds d -> lww_maximum x (states_of f ds) = (d.(LD_Priority), d.(LD_Data)).
Proof.
  intros (Hin & Hlt & Hmax).
  assert (forall x, x ∈ states_of f ds <->
    exists d', FieldDelta f d' ∈ ds /\ x = (d'.(LD_Priority), d'.(LD_Data))) as Hel.
  { intros y. unfold states_of. rewrite list_elem_of_omap. split.
    - intros ([g d'|d'] & Hd' & E); [|done]. destruct (String.eqb_spec f g); [|done]. naive_solver.
    - intros (d' & Hd' & ->). exists (FieldDelta f d'). split; [done|]. by rewrite String.eqb_refl. }
  apply lww_not_lt_antisym.
  - apply lww_maximum_ub. right. apply Hel. eauto.
  - pose proof (lww_maximum_in x (states_of f ds)) as Hmem.
    apply elem_of_cons in Hmem as [->|(d' & Hd' & ->)%Hel]; [|by apply Hmax].
    intros Hgt. eapply lww_lt_irrefl, lww_lt_trans; eauto.
Qed.

(** The stored form of a register whose priority is positive. *)
Lemma stored_state m f :
  doc_inv col doc m -> elem_ok f = true -> 0 < reg_prio col doc f m ->
  m !! active_key col doc f m = Some (String (byte_of LWW_REGISTER) (reg_val col doc f m)).
Proof.
  intros Hi Hf Hp. destruct (inv_stored _ _ _ Hi f Hf) as (v & Ev).
  - unfold reg_prio in Hp. destruct (m !! pkey col doc f); [done|lia].
  - unfold reg_val. by rewrite Ev.
Qed.

Lemma merged_state s ds f d :
  doc_inv col doc (view s) -> elem_ok f = true -> Forall delta_ok ds ->
  wins f (reg_state col doc f (view s)) ds d -> 0 < d.(LD_Priority) ->
  let m := foldl (doc_apply col doc) (view s) (op_of <$> ds) in
  m !! active_key col doc f m = Some (String (byte_of LWW_REGISTER) d.(LD_Data)).
Proof.
  intros Hi Hf Hds Hw Hpos m.
  assert (reg_state col doc f m = (d.(LD_Priority), d.(LD_Data))) as Hst
    by (unfold m; rewrite reg_state_merge by done; by apply wins_maximum).
  injection Hst as Hp Hv. rewrite stored_state; [by rewrite Hv|by apply doc_inv_merge|done|lia].
Qed.


(** once a deletion has been merged, before or after any updates, the document
    stays deleted: its marker is the deleted marker, none of its fields can be read,
    and the field data, updates that arrive after the deletion included, are kept
    under the deleted instance of the field. *)
Theorem merge_deltas_deleted s ds :
  doc_inv col doc (view s) -> Forall delta_ok ds -> existsb deletes ds = true ->
  exists v, steps (merge_deltas ds) s v (Ok tt) /\
    v !! mkey col doc = Some (String DeletedObjectMarker "") /\
    (forall f s', elem_ok f = true -> view s' = v ->
      steps (LWW_Value (NewLWWRegister (mkDataStoreKey col t doc f) sv f)) s' v (Err ErrNotFound)) /\
    (forall f d, elem_ok f = true -> wins f (reg_state col doc f (view s)) ds d -> 0 < d.(LD_Priority) ->
      v !! dkey col doc f = Some (String (byte_of LWW_REGISTER) d.(LD_Data))).
Proof.
  intros Hi Hds Hdel. eexists. split; [by apply steps_merge_deltas|].
  set (m := foldl _ _ _).
  assert (is_deleted_doc col doc m = true) as Hd
    by (unfold m; rewrite deleted_merge, Hdel by done; apply Bool.orb_true_r).
  assert (doc_inv col doc m) as Him by (by apply doc_inv_merge).
  split; [|split].
  - by apply bool_decide_eq_true in Hd.
  - intros f s' Hf E. rewrite <- E in *. apply (steps_LWW_Value f s' None Hf).
    by apply (inv_deleted _ _ _ Him).
  - intros f d Hf Hw Hpos. pose proof (merged_state s ds f d Hi Hf Hds Hw Hpos) as Hm.
    cbv zeta in Hm. fold m in Hm. unfold active_key in Hm. by rewrite Hd in Hm.
Qed.
End Document.

(** ** Encoding of deltas *)

Section Encoding.
Context `{CidOps} `{CborCodec}.

(** a delta read back from a node that carries its encoding is the delta: the
    register ignores the links of the node, the composite DAG takes them, other
    than those named "head", as its sub-DAGs. *)
Theorem DeltaDecode_Marshal (l : LWWRegDelta) (c : CompositeDAGDelta) (links : list DAGLink) :
  (forall link, link ∈ c.(CD_SubDAGs) -> link.(L_Name) <> "head") ->
  exists bl bc, Marshal (DLWW l) = Ok bl /\ Marshal (DComposite c) = Ok bc /\
    LWW_DeltaDecode (ProtoNode bl links) = Ok (DLWW l) /\
    Composite_DeltaDecode (ProtoNode bc c.(CD_SubDAGs)) = Ok (DComposite c).
Proof.
  intros Hhead. cbn [Marshal].
  match goal with |- exists bl bc, cbor_Encode ?x = _ /\ cbor_Encode ?y = _ /\ _ =>
    destruct (cbor_total x) as [bl Hl], (cbor_total y) as [bc Hc] end.
  exists bl, bc. split; [done|]. split; [done|].
  apply cbor_roundtrip in Hl, Hc. unfold LWW_DeltaDecode, Composite_DeltaDecode.
  rewrite Hl, Hc. cbn. split; [by destruct l|].
  rewrite (List.filter_ext_in _ (fun _ => true)).
  - rewrite List.filter_true. by destruct c.
  - intros link Hin%list_elem_of_In%Hhead. by destruct (String.eqb_spec (L_Name link) "head").
Qed.
End Encoding.

(** ** Instances and witnesses *)

Module CrdtWitness.
Import MapStore KeyInstances.

#[export] Instance cbor_value_eq_dec : EqDecision cbor_value.
Proof. solve_decision. Defined.

#[export] Instance cbor_value_countable : Countable cbor_value.
Proof.
  refine (inj_countable'
    (fun c => match c with CStr s => inl s | CUint n => inr (inl n) | CBytes b => inr (inr b) end)
    (fun c => match c with inl s => CStr s | inr (inl n) => CUint n | inr (inr b) => CBytes b end) _).
  by intros [].
Defined.

(** A codec: the digits of a number that encodes the fields. *)
Fixpoint print_pos (p : positive) : string :=
  match p with
  | xH => ""
  | xO p' => String "0" (print_pos p')
  | xI p' => String "1" (print_pos p')
  end.

Fixpoint parse_pos (s : string) : positive :=
  match s with
  | EmptyString => xH
  | String c s' => if Ascii.eqb c "0" then xO (parse_pos s') else xI (parse_pos s')
  end.

Lemma parse_print_pos p : parse_pos (print_pos p) = p.
Proof. induction p as [p IH|p IH|]; cbn; by rewrite ?IH. Qed.

#[export] Program Instance CborCodec_pos : CborCodec := {|
  cbor_Encode l := Ok (print_pos (encode l));
  cbor_Decode b := match countable.decode (parse_pos b) with Some l => Ok l | None => Err ErrCidDecode end |}.
Next Obligation. eauto. Qed.
Next Obligation. intros l b [= <-]. by rewrite parse_print_pos, decode_encode. Qed.

Definition sv0 : CollectionSchemaVersionKey := NewCollectionSchemaVersionKey "sv".

Definition fd (p : Z) (v : bytes) : LWWRegDelta := mkLWWRegDelta "sv" p v "doc" "1".
Definition cd (status : Z) : CompositeDAGDelta :=
  mkCompositeDAGDelta _ "sv" 1 "" "doc" [mkDAGLink _ "_head" 3%N] status "".
Definition fset (p : Z) (v : bytes) : doc_delta := FieldDelta "1" (fd p v).

Lemma merge_deltas_converge_witness :
  exists v,
    steps (merge_deltas (S := contents) "1" "doc" "" sv0 "" "C"
      [DocDelta (cd 1); fset 1 "a"; fset 2 "b"; DocDelta (cd 2)]) ∅ v (Ok tt) /\
    steps (merge_deltas (S := contents) "1" "doc" "" sv0 "" "C"
      [DocDelta (cd 2); fset 2 "b"; fset 1 "a"; fset 2 "b"; DocDelta (cd 1)]) ∅ v (Ok tt).
Proof.
  apply merge_deltas_converge; [done..|apply doc_inv_empty|done| |].
  - repeat constructor; done.
  - intros d. rewrite !elem_of_cons. tauto.
Defined.


Lemma merge_deltas_deleted_witness :
  exists v, steps (merge_deltas (S := contents) "1" "doc" "" sv0 "" "C"
      [fset 1 "a"; DocDelta (cd 2); fset 2 "b"]) ∅ v (Ok tt) /\
    v !! mkey "1" "doc" = Some (String DeletedObjectMarker "") /\
    v !! dkey "1" "doc" "1" = Some (String (byte_of LWW_REGISTER) "b").
Proof.
  destruct (merge_deltas_deleted (S := contents) "1" "doc" eq_refl eq_refl "" sv0 "" "C" ∅
    [fset 1 "a"; DocDelta (cd 2); fset 2 "b"]) as (v & Hs & Hm & _ & Hd);
    [apply doc_inv_empty|repeat constructor; done|done|].
  exists v. split; [done|]. split; [done|].
  apply (Hd "1" (fd 2 "b") eq_refl); [|done].
  split; [set_solver|]. split; [left; vm_compute; reflexivity|].
  intros d'. rewrite !elem_of_cons, elem_of_nil. unfold fset, lww_lt.
  intros [E|[E|[E|[]]]]; simplify_eq; vm_compute; intuition congruence.
Defined.

Lemma DeltaDecode_Marshal_witness :
  exists bl bc, Marshal (DLWW (fd 1 "a")) = Ok bl /\ Marshal (DComposite (cd 1)) = Ok bc /\
    LWW_DeltaDecode (ProtoNode bl []) = Ok (DLWW (fd 1 "a")) /\
    Composite_DeltaDecode (ProtoNode bc [mkDAGLink _ "_head" 3%N]) = Ok (DComposite (cd 1)).
Proof.
  apply (DeltaDecode_Marshal (fd 1 "a") (cd 1) []).
  intros link. cbn. intros ->%list_elem_of_singleton. done.
Defined.
End CrdtWitness.
