(* ===== verification/Clock.v ===== *)
(** * The Merkle clock (merkle/clock) and the Merkle CRDTs (merkle/crdt)

    A Merkle clock orders the deltas of one CRDT in a DAG of blocks: a new block
    links to the current heads and its height, the priority of its delta, is one more
    than theirs.  The heads are kept in the head store, the blocks in the block
    store, and the deltas are merged into the data store.  IPLD nodes and CIDs are
    code outside the repository: the class [DagOps]. *)

From Stdlib Require Import Ascii.
From S2P Require Import Prelude GoStd Keys Store MultiStore Crdt.

(** [node.Cid()], [node.RawData()], [cid.Bytes()] and the order in which a
    [dag.ProtoNode] keeps its links.  The CID of a node is a defined CID that is not
    the CID of one of its links. *)
Class DagOps `{CidOps} := {
  Node_Cid : Node -> Cid;
  Node_RawData : Node -> bytes;
  Cid_Bytes : Cid -> bytes;
  link_order : list DAGLink -> list DAGLink;
  link_order_perm : forall l, link_order l ≡ₚ l;
  Node_Cid_Defined : forall n, Cid_Defined (Node_Cid n) = true;
  Node_Cid_fresh : forall n l, l ∈ Node_Links n -> L_Cid l <> Node_Cid n;
}.

(** [core.ReplicatedData]. *)
Record ReplicatedData `{CidOps} (S : Type) := mkReplicatedData {
  RD_ID : string;
  RD_Merge : Delta -> string -> M S unit;
  RD_DeltaDecode : Node -> result Delta;
  RD_Value : M S bytes;
}.
Arguments mkReplicatedData {_ _} _ _ _ _.
Arguments RD_ID {_ _} _.
Arguments RD_Merge {_ _} _ _ _.
Arguments RD_DeltaDecode {_ _} _ _.
Arguments RD_Value {_ _} _.

(** ** Operations *)

Definition ErrDecodingHeight : error := ErrNew "error decoding height".

(** The [NewErr...] constructors wrap the error of a call. *)
Definition wrap_err {S A} (msg : string) (m : M S A) : M S A :=
  let* r := mtry m in
  match r with inl x => mret x | inr e => mfail (ErrWrap msg e) end.

Section Clock.
Context {S : Type} `{MultiStore S} `{DsKey} `{CidOps} `{!BlockKeys} `{!DagOps} `{CborCodec}.

(** *** The head set *)
Section Heads.
Variable namespace : HeadStoreKey.

Definition heads_key (c : Cid) : HeadStoreKey := Head_WithCid namespace c.

Definition heads_Write (c : Cid) (height : Z) : M S unit :=
  let buf := PutUvarint height in
  @ds_Put S (store_of NHead) (ToDS (heads_key c)) buf.

Definition heads_IsHead (c : Cid) : M S bool :=
  @ds_Has S (store_of NHead) (ToDS (heads_key c)).

Definition heads_Replace (old new : Cid) (height : Z) : M S unit :=
  let* _ := @ds_Delete S (store_of NHead) (ToDS (heads_key old)) in
  heads_Write new height.

(** The loop over the results of the query. *)
Fixpoint heads_collect (es : list entry) (heads : list Cid) (maxHeight : Z) : result (list Cid * Z) :=
  match es with
  | [] => Ok (heads, maxHeight)
  | Err e :: _ => Err (ErrWrap "failed to get next query result" e)
  | Panic :: _ => Panic
  | Ok (k, v) :: rest =>
      let! headKey := NewHeadStoreKey k in
      let '(height, n) := Uvarint v in
      if n <=? 0 then Err ErrDecodingHeight
      else heads_collect rest (heads ++ [headKey.(H_Cid)])
             (if maxHeight <? height then height else maxHeight)
  end.

Definition cid_le (a b : Cid) : Prop := Cid_Bytes a <=s Cid_Bytes b.

#[local] Instance cid_le_dec : RelDecision cid_le.
Proof. intros a b. unfold cid_le. apply _. Defined.

Definition heads_List : M S (list Cid * Z) :=
  let* results := @ds_Query S (store_of NHead) (HeadStoreKey_ToString namespace) in
  let* (heads, maxHeight) := mlift (heads_collect results [] 0) in
  mret (merge_sort cid_le heads, maxHeight).
End Heads.

(** *** Nodes *)
Definition head_link (h : Cid) : DAGLink := mkDAGLink _ "_head" h.

Definition makeNode (delta : Delta) (heads : list Cid) : result Node :=
  let! data := Marshal delta in
  Ok (ProtoNode data (link_order ((head_link <$> heads) ++ Links delta))).

(** *** The clock *)
Record MerkleClock := NewMerkleClock {
  mc_namespace : HeadStoreKey;
  mc_crdt : ReplicatedData S;
}.

Definition node_block (n : Node) : Block := NewBlockWithCid _ (Node_RawData n) (Node_Cid n).

(** The delta is shared with the caller, who reads its priority afterwards: the
    updated delta is part of the result. *)
Definition putBlock (heads : list Cid) (height : Z) (delta : Delta) : M S (Node * Delta) :=
  let delta := SetPriority delta height in
  let* node := wrap_err "error creating block" (mlift (makeNode delta heads)) in
  let* _ := wrap_err "error writing block" (@bs_Put S (store_of NBlock) _ _ (node_block node)) in
  mret (node, delta).

(** The loop over the links.  An error of the last [Write] is logged and dropped. *)
Fixpoint processLinks (mc : MerkleClock) (root : Cid) (rootPrio : Z) (links : list DAGLink)
    (children : list Cid) : M S (list Cid) :=
  match links with
  | [] => mret children
  | l :: rest =>
      let linkCid := L_Cid l in
      let* isHead := wrap_err "error checking if is head" (heads_IsHead mc.(mc_namespace) linkCid) in
      if (isHead : bool) then
        let* _ := wrap_err "error replacing head"
                    (heads_Replace mc.(mc_namespace) linkCid root rootPrio) in
        processLinks mc root rootPrio rest children
      else
        let* known := wrap_err "error checking for known block "
                        (@bs_Has S (store_of NBlock) _ _ linkCid) in
        if (known : bool) then
          let* _ := mtry (heads_Write mc.(mc_namespace) root rootPrio) in
          processLinks mc root rootPrio rest children
        else processLinks mc root rootPrio rest (children ++ [linkCid])
  end.

Definition has_heads (links : list DAGLink) : bool :=
  existsb (fun l => String.eqb (L_Name l) "_head") links.

Definition ProcessNode (mc : MerkleClock) (root : Cid) (rootPrio : Z) (delta : Delta) (node : Node)
    : M S (list Cid) :=
  let current := Node_Cid node in
  let* _ := wrap_err "error merging delta" (RD_Merge mc.(mc_crdt) delta (block_key current)) in
  let links := Node_Links node in
  let* _ := (if has_heads links then mret tt
             else wrap_err "error adding head" (heads_Write mc.(mc_namespace) root rootPrio)) in
  processLinks mc root rootPrio links [].

Definition AddDAGNode (mc : MerkleClock) (delta : Delta) : M S (Node * Delta) :=
  let* (heads, height) := wrap_err "error getting heads" (heads_List mc.(mc_namespace)) in
  let height := u64 (height + 1) in
  let delta := SetPriority delta height in
  let* (nd, delta) := putBlock heads height delta in
  let* _ := ProcessNode mc (Node_Cid nd) height delta nd in
  mret (nd, delta).
End Clock.

(** ** The head store of one clock *)

Section HeadStore.
Context {S : Type} `{LawfulMultiStore S} `{DsKey} `{CidOps} `{!BlockKeys} `{!DagOps} `{CborCodec}.
Variables doc field : string.
Hypothesis Hdoc : elem_ok doc = true.
Hypothesis Hfield : elem_ok field = true.

Local Abbreviation ns := (mkHeadStoreKey _ doc field Cid_Undef).

Definition hkey (c : Cid) : string := path_of [doc; field; Cid_String c].

Lemma Cid_elem_ok c : Cid_Defined c = true -> elem_ok (Cid_String c) = true.
Proof.
  intros Hc. apply Bool.andb_true_iff. split; [by apply Cid_String_elem|apply Cid_String_free].
Qed.

Lemma head_key_ok_cid c : Cid_Defined c = true -> head_key_ok (heads_key ns c) = true.
Proof. intros Hc. unfold head_key_ok. cbn. by rewrite Hdoc, Hfield, Hc. Qed.

Lemma clean_hkey c : Cid_Defined c = true -> clean_key (hkey c) = true.
Proof. intros Hc%Cid_elem_ok. apply clean_key_path_of. auto. Qed.

Lemma ToDS_hkey c : Cid_Defined c = true -> ToDS (heads_key ns c) = hkey c.
Proof.
  intros Hc. unfold ToDS. cbn [ToString Key_HeadStoreKey].
  change (NewKey (HeadStoreKey_ToString (heads_key ns c)) = hkey c).
  rewrite HeadStoreKey_ToString_path by by apply head_key_ok_cid.
  apply NewKey_clean. by apply clean_hkey.
Qed.

Lemma hkey_inj c c' : Cid_Defined c = true -> Cid_Defined c' = true -> hkey c = hkey c' -> c = c'.
Proof.
  intros Hc Hc' E. apply path_of_inj in E.
  - injection E as E. pose proof (Cid_Decode_String c Hc) as D.
    rewrite E, Cid_Decode_String in D by done. congruence.
  - auto using elem_ok_free, Cid_String_free.
  - auto using elem_ok_free, Cid_String_free.
Qed.

Lemma hkey_neq c c' : Cid_Defined c = true -> Cid_Defined c' = true -> c <> c' -> hkey c <> hkey c'.
Proof. intros Hc Hc' Hne E. by apply hkey_inj in E. Qed.

(** A read or a write of the head store. *)
Lemma msteps_Write c h s :
  Cid_Defined c = true ->
  msteps (heads_Write ns c h) s (upd (views s) NHead (<[hkey c := PutUvarint h]> (views s NHead))) (Ok tt).
Proof.
  intros Hc. unfold heads_Write. rewrite ToDS_hkey by done. apply msteps_in.
  apply (@law_Put S _ (lawful_of NHead)). by apply clean_hkey.
Qed.

Lemma msteps_IsHead c s :
  Cid_Defined c = true ->
  msteps (heads_IsHead ns c) s (views s) (Ok (bool_decide (is_Some (views s NHead !! hkey c)))).
Proof.
  intros Hc. unfold heads_IsHead. rewrite ToDS_hkey by done.
  eapply msteps_ext; [apply msteps_in, (@law_Has S _ (lawful_of NHead)); by apply clean_hkey|].
  intros n. apply upd_same.
Qed.

Lemma msteps_Replace old new h s :
  Cid_Defined old = true -> Cid_Defined new = true ->
  msteps (heads_Replace ns old new h) s
    (upd (views s) NHead (<[hkey new := PutUvarint h]> (delete (hkey old) (views s NHead)))) (Ok tt).
Proof.
  intros Hold Hnew. unfold heads_Replace. rewrite ToDS_hkey by done.
  eapply msteps_bind; [apply msteps_in, (@law_Delete S _ (lawful_of NHead)); by apply clean_hkey|].
  intros s1 E1. eapply msteps_ext; [by apply msteps_Write|]. intros n.
  unfold upd at 1. rewrite !E1. unfold upd. by repeat case_decide.
Qed.

Lemma msteps_wrap {A} msg (m : M S A) s V x : msteps m s V (Ok x) -> msteps (wrap_err msg m) s V (Ok x).
Proof.
  intros Hm. eapply msteps_bind; [by apply msteps_try_ok|]. intros s1 E1. by apply msteps_ret.
Qed.

Lemma msteps_bs_Has c s :
  msteps (@bs_Has S (store_of NBlock) _ _ c) s (views s)
    (Ok (bool_decide (is_Some (views s NBlock !! block_key c)))).
Proof.
  unfold bs_Has.
  eapply msteps_ext; [apply msteps_in, (@law_Has S _ (lawful_of NBlock)), block_key_clean|].
  intros n. apply upd_same.
Qed.

(** *** The links of a node *)

Section Links.
Variables (root : Cid) (prio : Z).
Hypothesis Hroot : Cid_Defined root = true.

Local Abbreviation buf := (PutUvarint prio).

Definition is_head (m : contents) (c : Cid) : bool := bool_decide (is_Some (m !! hkey c)).

Definition link_step (known : Cid -> bool) (st : contents * list Cid) (c : Cid) : contents * list Cid :=
  let '(m, children) := st in
  if is_head m c then (<[hkey root := buf]> (delete (hkey c) m), children)
  else if known c then (<[hkey root := buf]> m, children)
  else (m, children ++ [c]).

Definition known_in (V : namespace -> contents) (c : Cid) : bool :=
  bool_decide (is_Some (V NBlock !! block_key c)).

Lemma msteps_processLinks crdt links children s :
  Forall (fun l => Cid_Defined (L_Cid l) = true) links ->
  let st := foldl (link_step (known_in (views s))) (views s NHead, children) (L_Cid <$> links) in
  msteps (processLinks (NewMerkleClock ns crdt) root prio links children) s
    (upd (views s) NHead st.1) (Ok st.2).
Proof.
  intros Hl. revert s children. induction Hl as [|l links Hl Hls IH]; intros s children; cbv zeta.
  { apply msteps_ret. intros n. by rewrite upd_same. }
  cbn [processLinks mc_namespace fmap list_fmap foldl].
  eapply msteps_bind; [by apply msteps_wrap, msteps_IsHead|]. intros s1 E1. cbv beta.
  assert (forall s2 m', (forall n, views s2 n = upd (views s) NHead m' n) ->
    forall ch, msteps (processLinks (NewMerkleClock ns crdt) root prio links ch) s2
      (upd (views s) NHead (foldl (link_step (known_in (views s))) (m', ch) (L_Cid <$> links)).1)
      (Ok (foldl (link_step (known_in (views s))) (m', ch) (L_Cid <$> links)).2)) as Hnext.
  { intros s2 m' E2 ch. specialize (IH s2 ch). cbv zeta in IH.
    assert (views s2 NBlock = views s NBlock) as EB by (rewrite E2; by apply upd_ne).
    assert (views s2 NHead = m') as EH by (rewrite E2; apply upd_eq).
    unfold known_in in IH |- *. rewrite EB, EH in IH. eapply msteps_ext; [exact IH|].
    intros n. unfold upd. case_decide; [done|]. rewrite E2. by apply upd_ne. }
  unfold link_step at 2 4. unfold is_head. case_bool_decide as Hh.
  - eapply msteps_bind; [by apply msteps_wrap, msteps_Replace|]. intros s2 E2. apply Hnext.
    intros n. rewrite E2. unfold upd. rewrite !E1. by case_decide.
  - eapply msteps_bind; [by apply msteps_wrap, msteps_bs_Has|]. intros s2 E2. cbv beta.
    unfold known_in at 2 4. rewrite E1. case_bool_decide as Hk.
    + eapply msteps_bind; [by apply msteps_try_ok, msteps_Write|]. intros s3 E3. apply Hnext.
      intros n. rewrite E3. unfold upd. rewrite !E2, !E1. by case_decide.
    + apply Hnext. intros n. rewrite E2, E1. by rewrite upd_same.
Qed.

Definition defined (cs : list Cid) : Prop := Forall (fun c => Cid_Defined c = true) cs.

Lemma link_step_other known m ch c k :
  k <> hkey root -> k <> hkey c -> (link_step known (m, ch) c).1 !! k = m !! k.
Proof.
  intros Hr Hc. unfold link_step. destruct (is_head m c); [|destruct (known c)]; cbn; [| |done].
  - by rewrite lookup_insert_ne, lookup_delete_ne.
  - by rewrite lookup_insert_ne.
Qed.

Lemma link_step_self known m ch c :
  Cid_Defined c = true -> c <> root -> (link_step known (m, ch) c).1 !! hkey c = None.
Proof.
  intros Hc Hne. pose proof (hkey_neq root c Hroot Hc (not_eq_sym Hne)) as Hk.
  unfold link_step, is_head. case_bool_decide as Hh.
  - cbn. by rewrite lookup_insert_ne, lookup_delete_eq.
  - apply eq_None_not_Some in Hh. destruct (known c); cbn; [by rewrite lookup_insert_ne|done].
Qed.

(** A head that is linked to is removed, and other keys are left alone. *)
Lemma links_other known cs m ch k :
  k <> hkey root -> (forall c, c ∈ cs -> k <> hkey c) ->
  (foldl (link_step known) (m, ch) cs).1 !! k = m !! k.
Proof.
  intros Hr. revert m ch. induction cs as [|c cs IH]; intros m ch Hk; [done|]. cbn [foldl].
  pose proof (link_step_other known m ch c k Hr (Hk c ltac:(left))) as E.
  destruct (link_step known (m, ch) c) as [m' ch']. rewrite IH; [done|]. intros c' Hin. apply Hk. by right.
Qed.

Lemma links_removed known cs m ch c :
  defined cs -> root ∉ cs -> c ∈ cs -> (foldl (link_step known) (m, ch) cs).1 !! hkey c = None.
Proof.
  intros Hd Hr Hin. revert m ch. induction Hd as [|c' cs Hc' Hd IH]; intros m ch; [by apply elem_of_nil in Hin|].
  apply not_elem_of_cons in Hr as [Hr Hrs]. cbn [foldl].
  destruct (decide (c ∈ cs)) as [Hin'|Hnin].
  - destruct (link_step known (m, ch) c') as [m' ch']. by apply IH.
  - apply elem_of_cons in Hin as [->|]; [|done].
    pose proof (link_step_self known m ch c' Hc' (not_eq_sym Hr)) as E.
    destruct (link_step known (m, ch) c') as [m' ch']. rewrite links_other; [done| |].
    + by apply hkey_neq, not_eq_sym.
    + intros c Hin. apply hkey_neq; [done| |by intros ->]. by eapply Forall_forall in Hd.
Qed.

(** The root is a head as soon as one of the links is a head or a known block. *)
Lemma links_root known cs m ch :
  defined cs -> root ∉ cs ->
  (foldl (link_step known) (m, ch) cs).1 !! hkey root =
    if existsb (fun c => is_head m c || known c) cs then Some buf else m !! hkey root.
Proof.
  intros Hd. revert m ch. induction Hd as [|c cs Hc Hd IH]; intros m ch Hr; [done|].
  apply not_elem_of_cons in Hr as [Hr Hrs]. cbn [foldl existsb].
  unfold link_step at 2. destruct (is_head m c); cbn [orb].
  - rewrite IH, lookup_insert_eq by done. by destruct (existsb _ cs).
  - destruct (known c); cbn [orb].
    + rewrite IH, lookup_insert_eq by done. by destruct (existsb _ cs).
    + by apply IH.
Qed.

(** The children are the links that are not known. *)
Lemma links_children known cs m ch :
  defined cs -> root ∉ cs -> (forall c, c ∈ cs -> is_head m c = true -> known c = true) ->
  (foldl (link_step known) (m, ch) cs).2 = ch ++ List.filter (fun c => negb (known c)) cs.
Proof.
  intros Hd. revert m ch. induction Hd as [|c cs Hc Hd IH]; intros m ch Hr Hk.
  { cbn. by rewrite app_nil_r. }
  apply not_elem_of_cons in Hr as [Hr Hrs]. cbn [foldl List.filter].
  assert (forall c', c' ∈ cs -> is_head (link_step known (m, ch) c).1 c' = true -> known c' = true) as Hk'.
  { intros c' Hin' Hh. destruct (decide (c' = c)) as [->|Hne].
    - unfold is_head in Hh. rewrite link_step_self in Hh by (auto using not_eq_sym). by apply bool_decide_eq_true in Hh as [].
    - apply Hk; [by right|]. unfold is_head in *. rewrite link_step_other in Hh; [done| |];
        apply hkey_neq; try done; try (by eapply Forall_forall in Hd). by intros ->. }
  destruct (link_step known (m, ch) c) as [m' ch'] eqn:E. rewrite IH by (try apply Hk'; done).
  unfold link_step in E. destruct (is_head m c) eqn:Hh.
  - injection E as <- <-. by rewrite (Hk c ltac:(left) Hh).
  - destruct (known c); injection E as <- <-; cbn [negb]; [done|]. by rewrite <- app_assoc.
Qed.
End Links.

(** *** Processing a node *)

(** The head store when the loop over the links of a node starts. *)
Definition links_start (root : Cid) (prio : Z) (links : list DAGLink) (m : contents) : contents :=
  if has_heads links then m else <[hkey root := PutUvarint prio]> m.

Definition links_end (known : Cid -> bool) (root : Cid) (prio : Z) (links : list DAGLink) (m : contents)
    : contents * list Cid :=
  foldl (link_step root prio known) (links_start root prio links m, []) (L_Cid <$> links).

Lemma msteps_ProcessNode crdt root prio delta node s D :
  msteps (RD_Merge crdt delta (block_key (Node_Cid node))) s (upd (views s) NData D) (Ok tt) ->
  Cid_Defined root = true -> defined (L_Cid <$> Node_Links node) ->
  let st := links_end (known_in (views s)) root prio (Node_Links node) (views s NHead) in
  msteps (ProcessNode (NewMerkleClock ns crdt) root prio delta node) s
    (upd (upd (views s) NData D) NHead st.1) (Ok st.2).
Proof.
  intros Hmerge Hroot Hdef st. unfold ProcessNode. cbn [mc_crdt mc_namespace].
  eapply msteps_bind; [by apply msteps_wrap|]. intros s1 E1.
  assert (msteps (if has_heads (Node_Links node) then mret tt
      else wrap_err "error adding head" (heads_Write ns root prio)) s1
    (upd (upd (views s) NData D) NHead (links_start root prio (Node_Links node) (views s NHead))) (Ok tt)) as Hw.
  { unfold links_start. destruct (has_heads _).
    - apply msteps_ret. intros n. rewrite E1. unfold upd. by repeat case_decide; subst.
    - eapply msteps_ext; [by apply msteps_wrap, msteps_Write|]. intros n.
      unfold upd. rewrite !E1. unfold upd. by repeat case_decide. }
  eapply msteps_bind; [exact Hw|]. intros s2 E2. cbv beta zeta.
  assert (views s2 NHead = links_start root prio (Node_Links node) (views s NHead)) as EH
    by (rewrite E2; apply upd_eq).
  assert (views s2 NBlock = views s NBlock) as EB by (rewrite E2; done).
  pose proof (msteps_processLinks root prio Hroot crdt (Node_Links node) [] s2) as Hp. cbv zeta in Hp.
  unfold known_in in Hp. rewrite EH, EB in Hp.
  eapply msteps_ext; [apply Hp; by apply Forall_fmap in Hdef|].
  intros n. unfold upd. rewrite E2. unfold upd. by repeat case_decide.
Qed.

Lemma links_start_is_head root prio links m c :
  Cid_Defined root = true -> Cid_Defined c = true -> c <> root ->
  is_head (links_start root prio links m) c = is_head m c.
Proof.
  intros Hr Hc Hne. unfold links_start, is_head. destruct (has_heads links); [done|].
  rewrite lookup_insert_ne; [done|]. by apply hkey_neq, not_eq_sym.
Qed.

Lemma links_end_root known root prio links m :
  Cid_Defined root = true -> defined (L_Cid <$> links) -> root ∉ L_Cid <$> links ->
  (links_end known root prio links m).1 !! hkey root =
    if negb (has_heads links) || existsb (fun c => is_head m c || known c) (L_Cid <$> links)
    then Some (PutUvarint prio) else m !! hkey root.
Proof.
  intros Hroot Hdef Hnin. unfold links_end. rewrite links_root by done.
  replace (existsb _ (L_Cid <$> links)) with
    (existsb (fun c => is_head m c || known c) (L_Cid <$> links)).
  - unfold links_start. destruct (has_heads links); cbn; [done|].
    rewrite lookup_insert_eq. by destruct (existsb _ _).
  - apply Bool.eq_iff_eq_true. rewrite !existsb_exists. setoid_rewrite <- list_elem_of_In.
    split; intros (c & Hin & Hc); exists c; (split; [done|]);
      (rewrite links_start_is_head in * || rewrite links_start_is_head); try done;
      (by eapply Forall_forall in Hdef) || (by intros ->).
Qed.

Lemma links_end_other known root prio links m k :
  k <> hkey root -> (forall c, c ∈ L_Cid <$> links -> k <> hkey c) ->
  (links_end known root prio links m).1 !! k = m !! k.
Proof.
  intros Hk Hks. unfold links_end. rewrite links_other by done. unfold links_start.
  destruct (has_heads links); [done|]. by rewrite lookup_insert_ne.
Qed.

(** Nothing is added to the head store but the root. *)
Lemma links_end_entries known root prio links m k v :
  (links_end known root prio links m).1 !! k = Some v ->
  (k = hkey root /\ v = PutUvarint prio) \/ m !! k = Some v.
Proof.
  unfold links_end. intros Hk.
  assert (forall m ch cs, (foldl (link_step root prio known) (m, ch) cs).1 !! k = Some v ->
    (k = hkey root /\ v = PutUvarint prio) \/ m !! k = Some v) as Hfold.
  { clear. intros m ch cs. revert m ch. induction cs as [|c cs IH]; intros m ch; [by right|]. cbn [foldl].
    unfold link_step at 2. destruct (is_head m c); [|destruct (known c)]; intros [?|E]%IH; auto.
    - apply lookup_insert_Some in E as [[<- <-]|[_ [_ E]%lookup_delete_Some]]; auto.
    - apply lookup_insert_Some in E as [[<- <-]|[_ E]]; auto. }
  apply Hfold in Hk as [?|E]; [by left|]. unfold links_start in E. destruct (has_heads links); [by right|].
  apply lookup_insert_Some in E as [[<- <-]|[_ E]]; auto.
Qed.

Lemma existsb_implied {A} (f g : A -> bool) l :
  (forall x, x ∈ l -> f x = true -> g x = true) -> existsb (fun x => f x || g x) l = existsb g l.
Proof.
  intros Hfg. induction l as [|x l IH]; [done|]. cbn. rewrite IH by (intros; apply Hfg; [by right|done]).
  destruct (f x) eqn:E; [by rewrite (Hfg x ltac:(left) E)|done].
Qed.

(** C5: processing a node whose heads are known merges its delta, removes the heads
    it links to, makes the root a head when the node has no head link or reaches a
    known block, returns the links that are not known, and changes nothing else. *)
Theorem ProcessNode_heads crdt root prio delta node s D :
  let cids := L_Cid <$> Node_Links node in
  msteps (RD_Merge crdt delta (block_key (Node_Cid node))) s (upd (views s) NData D) (Ok tt) ->
  Cid_Defined root = true -> defined cids -> root ∉ cids ->
  (forall c, c ∈ cids -> is_head (views s NHead) c = true -> known_in (views s) c = true) ->
  exists m,
    msteps (ProcessNode (NewMerkleClock ns crdt) root prio delta node) s
      (upd (upd (views s) NData D) NHead m)
      (Ok (List.filter (fun c => negb (known_in (views s) c)) cids)) /\
    (forall c, c ∈ cids -> m !! hkey c = None) /\
    m !! hkey root =
      (if negb (has_heads (Node_Links node)) || existsb (known_in (views s)) cids
       then Some (PutUvarint prio) else views s NHead !! hkey root) /\
    (forall k, k <> hkey root -> (forall c, c ∈ cids -> k <> hkey c) -> m !! k = views s NHead !! k).
Proof.
  intros cids Hmerge Hroot Hdef Hnin Hknown.
  pose proof (msteps_ProcessNode crdt root prio delta node s D Hmerge Hroot Hdef) as Hp. cbv zeta in Hp.
  eexists. split; [|split; [|split]].
  - unfold links_end in Hp at 2. rewrite links_children in Hp; [exact Hp|done..|].
    intros c Hin. rewrite links_start_is_head; [by apply Hknown|done| |by intros ->].
    by eapply Forall_forall in Hdef.
  - intros c Hin. by apply links_removed.
  - rewrite links_end_root by done. by rewrite existsb_implied.
  - intros k. apply links_end_other.
Qed.

(** *** Listing the heads *)

Definition heads_wf (m : contents) : Prop :=
  forall k v, m !! k = Some v -> below (path_of [doc; field]) k ->
    exists c h, Cid_Defined c = true /\ is_u64 h /\ k = hkey c /\ v = PutUvarint h.

Definition height_of (m : contents) (c : Cid) : Z :=
  match m !! hkey c with Some b => (Uvarint b).1 | None => 0 end.

Lemma below_hkey c : below (path_of [doc; field]) (hkey c).
Proof.
  exists (Cid_String c). unfold hkey. change [doc; field; Cid_String c] with ([doc; field] ++ [Cid_String c]).
  by rewrite path_of_snoc, str_app_assoc.
Qed.

Lemma collect_entries (cl : list (Cid * Z)) acc mx :
  Forall (fun e => Cid_Defined e.1 = true /\ is_u64 e.2) cl ->
  heads_collect ((fun e => Ok (hkey e.1, PutUvarint e.2)) <$> cl) acc mx =
    Ok (acc ++ cl.*1, foldl Z.max mx cl.*2).
Proof.
  intros Hcl. revert acc mx. induction Hcl as [|[c h] cl [Hc Hh] Hcl IH]; intros acc mx.
  { cbn. by rewrite app_nil_r. }
  cbn [fmap list_fmap heads_collect fst snd]. cbn [fst snd] in Hc, Hh.
  pose proof (head_key_ok_cid c Hc) as Hok.
  assert (NewHeadStoreKey (hkey c) = Ok (heads_key ns c)) as ->.
  { exact (NewHeadStoreKey_path _ Hok). }
  cbn [rbind]. rewrite Uvarint_PutUvarint by done. pose proof (PutUvarint_length h).
  replace (_ <=? 0) with false by lia. rewrite IH. cbn [heads_key Head_WithCid H_Cid].
  rewrite <- app_assoc. do 2 f_equal. cbn. f_equal. destruct (Z.ltb_spec mx h); lia.
Qed.

Lemma heads_entries m l :
  heads_wf m -> NoDup l.*1 ->
  (forall k v, (k, v) ∈ l <-> m !! k = Some v /\ below (path_of [doc; field]) k) ->
  exists cl : list (Cid * Z), l = (fun e => (hkey e.1, PutUvarint e.2)) <$> cl /\
    Forall (fun e => Cid_Defined e.1 = true /\ is_u64 e.2) cl /\ NoDup cl.*1 /\
    forall c, c ∈ cl.*1 <-> Cid_Defined c = true /\ is_head m c = true.
Proof.
  intros Hwf Hnd Hl.
  destruct (Forall_fmap_inv (fun e : Cid * Z => (hkey e.1, PutUvarint e.2))
    (fun e => Cid_Defined e.1 = true /\ is_u64 e.2) l) as (cl & -> & Hcl).
  { apply Forall_forall. intros [k v] [Hk Hb]%Hl.
    destruct (Hwf k v Hk Hb) as (c & h & Hc & Hh & -> & ->). by exists (c, h). }
  exists cl. split; [done|]. split; [done|]. split.
  { apply (NoDup_fmap_1 hkey). by rewrite <- !list_fmap_compose in *. }
  pose proof (proj1 (Forall_forall _ _) Hcl) as Hcl'.
  intros c. rewrite list_elem_of_fmap. unfold is_head. rewrite bool_decide_eq_true. split.
  - intros ([c' h] & -> & Hin). destruct (Hcl' _ Hin) as [Hc Hh]. split; [done|].
    exists (PutUvarint h). apply Hl, list_elem_of_fmap. by exists (c', h).
  - intros [Hc [v Hv]]. assert ((hkey c, v) ∈ (fun e : Cid * Z => (hkey e.1, PutUvarint e.2)) <$> cl) as Hin
      by (apply Hl; split; [done|apply below_hkey]).
    apply list_elem_of_fmap in Hin as ([c' h] & [E1 E2]%pair_eq & Hin). exists (c', h). split; [|done].
    apply hkey_inj in E1; [done|done|]. exact (proj1 (Hcl' _ Hin)).
Qed.

(** The heads of a store and their largest height, as [List] returns them. *)
Record heads_of (m : contents) (hs : list Cid) (h : Z) : Prop := {
  ho_elem : forall c, c ∈ hs <-> Cid_Defined c = true /\ is_head m c = true;
  ho_nodup : NoDup hs;
  ho_ub : forall c, c ∈ hs -> height_of m c <= h;
  ho_max : (hs = [] /\ h = 0) \/ exists c, c ∈ hs /\ height_of m c = h;
}.

Lemma ToString_ns : HeadStoreKey_ToString ns = path_of [doc; field].
Proof.
  unfold HeadStoreKey_ToString, add_part. cbn [H_DocKey H_FieldId H_Cid].
  rewrite (elem_ok_nonempty _ Hdoc), (elem_ok_nonempty _ Hfield), Cid_Defined_Undef.
  cbn [path_of]. by rewrite str_app_nil_r, !str_app_nil_l, !str_app_assoc.
Qed.

Lemma height_of_entry m (cl : list (Cid * Z)) c h :
  (forall k v, (k, v) ∈ (fun e : Cid * Z => (hkey e.1, PutUvarint e.2)) <$> cl <->
    m !! k = Some v /\ below (path_of [doc; field]) k) ->
  (c, h) ∈ cl -> is_u64 h -> height_of m c = h.
Proof.
  intros Hl Hin Hh. unfold height_of. destruct (Hl (hkey c) (PutUvarint h)) as [[-> _] _].
  - apply list_elem_of_fmap. by exists (c, h).
  - by rewrite Uvarint_PutUvarint.
Qed.

Lemma msteps_List s :
  heads_wf (views s NHead) ->
  exists hs h, msteps (heads_List ns) s (views s) (Ok (hs, h)) /\ heads_of (views s NHead) hs h.
Proof.
  intros Hwf. unfold heads_List. rewrite ToString_ns.
  assert (clean_key (path_of [doc; field]) = true) as Hclean by (apply clean_key_path_of; auto).
  destruct (@law_Query S _ (lawful_of NHead) _ s Hclean) as (l & Hq & Hnd & Hl).
  destruct (heads_entries _ l Hwf Hnd Hl) as (cl & -> & Hcl & Hndc & Hmem).
  exists (merge_sort cid_le cl.*1), (foldl Z.max 0 cl.*2). split.
  - eapply msteps_bind; [by eapply msteps_in|]. intros s1 E1. cbv beta.
    rewrite <- list_fmap_compose. unfold compose. rewrite collect_entries by done.
    eapply msteps_bind; [apply msteps_lift|]. intros s2 E2. apply msteps_ret.
    intros n. rewrite E2, E1. apply upd_same.
  - assert (forall c, c ∈ merge_sort cid_le cl.*1 <-> c ∈ cl.*1) as Hperm
      by (intros c; by rewrite (merge_sort_Permutation cid_le cl.*1)).
    assert (forall c h, (c, h) ∈ cl -> height_of (views s NHead) c = h) as Hht.
    { intros c h Hin. eapply height_of_entry; [exact Hl|done|].
      exact (proj2 (proj1 (Forall_forall _ _) Hcl _ Hin)). }
    split.
    + intros c. rewrite Hperm. apply Hmem.
    + by rewrite merge_sort_Permutation.
    + intros c. rewrite Hperm, list_elem_of_fmap. intros ([c' h] & -> & Hin). cbn [fst].
      rewrite (Hht _ _ Hin). apply foldl_max_ge. right. apply list_elem_of_fmap. by exists (c', h).
    + destruct cl as [|e cl]; [by left|right].
      destruct (foldl_max_in (e :: cl).*2 0) as [E|([c h] & E & Hin)%list_elem_of_fmap].
      * exists e.1. rewrite Hperm. split; [left|].
        assert (e ∈ e :: cl) as Hin by left. destruct e as [c h]. cbn [fst]. rewrite (Hht _ _ Hin).
        pose proof (proj2 (proj1 (Forall_forall _ _) Hcl _ Hin)) as Hh. unfold is_u64 in Hh. cbn [snd] in Hh.
        pose proof (foldl_max_ge ((c, h) :: cl).*2 0 h ltac:(right; left)). lia.
      * exists c. rewrite Hperm. split; [apply list_elem_of_fmap; by exists (c, h)|].
        rewrite (Hht _ _ Hin). by rewrite E.
Qed.

(** *** Adding a node *)

Lemma Links_SetPriority d h : Links (SetPriority d h) = Links d.
Proof. by destruct d. Qed.

Lemma SetPriority_SetPriority d h h' : SetPriority (SetPriority d h) h' = SetPriority d h'.
Proof. by destruct d. Qed.

Lemma GetPriority_SetPriority d h : GetPriority (SetPriority d h) = h.
Proof. by destruct d. Qed.

Lemma makeNode_ok delta heads :
  exists nd, makeNode delta heads = Ok nd /\ Node_Links nd ≡ₚ (head_link <$> heads) ++ Links delta.
Proof.
  unfold makeNode. assert (exists b, Marshal delta = Ok b) as [b ->].
  { destruct delta; cbn; apply cbor_total. }
  eexists. split; [done|]. apply link_order_perm.
Qed.

Lemma msteps_putBlock heads height delta s :
  exists nd, Node_Links nd ≡ₚ (head_link <$> heads) ++ Links delta /\
    makeNode (SetPriority delta height) heads = Ok nd /\
    msteps (putBlock heads height delta) s
      (upd (views s) NBlock (put_block (views s NBlock) (node_block nd)))
      (Ok (nd, SetPriority delta height)).
Proof.
  destruct (makeNode_ok (SetPriority delta height) heads) as (nd & Hnd & Hl).
  rewrite Links_SetPriority in Hl. exists nd. split; [done|]. split; [done|]. unfold putBlock.
  rewrite Hnd. eapply msteps_bind; [apply msteps_wrap, msteps_lift|]. intros s1 E1. cbv beta.
  eapply msteps_bind.
  { apply msteps_wrap, msteps_in. apply (@steps_bs_Put S _ (lawful_of NBlock)). }
  intros s2 E2. apply msteps_ret. intros n. rewrite E2. unfold upd. rewrite !E1.
  change (@view S _ s1) with (views s1 NBlock). rewrite E1. done.
Qed.

Lemma head_link_named heads (links : list DAGLink) nl :
  nl ≡ₚ (head_link <$> heads) ++ links -> (heads = [] -> forall l, l ∈ links -> L_Name l <> "_head") ->
  has_heads nl = negb (bool_decide (heads = [])).
Proof.
  intros Hp Hn. apply Bool.eq_iff_eq_true. unfold has_heads. rewrite existsb_exists.
  setoid_rewrite <- list_elem_of_In. setoid_rewrite Hp. setoid_rewrite elem_of_app.
  rewrite Bool.negb_true_iff, bool_decide_eq_false. split.
  - intros (l & [(c & -> & Hc)%list_elem_of_fmap|Hin] & El).
    + intros ->. by apply elem_of_nil in Hc.
    + intros Hh. apply String.eqb_eq in El. by eapply Hn.
  - destruct heads as [|c heads]; [done|]. intros _. exists (head_link c). split; [left; left|done].
Qed.

(** The head store after a local change: the new node is the only head. *)
Lemma links_end_single known nd hs h prio m (links : list DAGLink) c :
  heads_of m hs h -> defined (L_Cid <$> links) ->
  Node_Links nd ≡ₚ (head_link <$> hs) ++ links -> (hs = [] -> forall l, l ∈ links -> L_Name l <> "_head") ->
  Cid_Defined c = true ->
  (links_end known (Node_Cid nd) prio (Node_Links nd) m).1 !! hkey c =
    if decide (c = Node_Cid nd) then Some (PutUvarint prio) else None.
Proof.
  intros Hho Hdef Hp Hn Hc. set (root := Node_Cid nd) in *.
  assert (Cid_Defined root = true) as Hroot by apply Node_Cid_Defined.
  assert (forall c', c' ∈ L_Cid <$> Node_Links nd <-> c' ∈ hs \/ c' ∈ L_Cid <$> links) as Hcids.
  { intros c'. rewrite Hp, fmap_app, elem_of_app, <- list_fmap_compose.
    change (L_Cid ∘ head_link) with (@id Cid). by rewrite list_fmap_id. }
  assert (defined (L_Cid <$> Node_Links nd)) as Hdn.
  { apply Forall_forall. intros c' [Hin|Hin]%Hcids; [by apply (ho_elem _ _ _ Hho)|].
    by eapply Forall_forall in Hdef. }
  assert (root ∉ L_Cid <$> Node_Links nd) as Hnin.
  { intros (l & E & Hin)%list_elem_of_fmap. by apply (Node_Cid_fresh nd l Hin). }
  destruct (decide (c = root)) as [->|Hne].
  - rewrite links_end_root by done. rewrite (head_link_named hs links) by done.
    case_bool_decide as Hhs; [done|]. cbn. destruct hs as [|c' hs]; [done|].
    assert (existsb (fun c => is_head m c || known c) (L_Cid <$> Node_Links nd) = true) as ->; [|done].
    apply existsb_exists. exists c'. split.
    + apply list_elem_of_In, Hcids. left. left.
    + destruct (proj1 (ho_elem _ _ _ Hho c') ltac:(left)) as [_ ->]. done.
  - destruct (decide (c ∈ L_Cid <$> Node_Links nd)) as [Hin|Hnc].
    + by apply links_removed.
    + rewrite links_end_other.
      * destruct (m !! hkey c) eqn:E; [|done]. exfalso. apply Hnc, Hcids. left.
        apply (ho_elem _ _ _ Hho). split; [done|]. apply bool_decide_eq_true. by eexists.
      * by apply hkey_neq.
      * intros c' Hin E. apply hkey_inj in E; [by subst|done|by eapply Forall_forall in Hdn].
Qed.

(** What a local change leaves: a node that links to the heads there were, one head,
    the node, of height [h + 1], and the block of the node in the block store. *)
Record added (V V' : namespace -> contents) (hs : list Cid) (h : Z) (delta : Delta) (nd : Node) : Prop := {
  added_links : Node_Links nd ≡ₚ (head_link <$> hs) ++ Links delta;
  added_node : makeNode (SetPriority delta (h + 1)) hs = Ok nd;
  added_head : forall c, Cid_Defined c = true ->
    V' NHead !! hkey c = if decide (c = Node_Cid nd) then Some (PutUvarint (h + 1)) else None;
  added_entries : forall k v, V' NHead !! k = Some v ->
    (k = hkey (Node_Cid nd) /\ v = PutUvarint (h + 1)) \/ V NHead !! k = Some v;
  added_other : forall k, ~ below (path_of [doc; field]) k -> V' NHead !! k = V NHead !! k;
  added_block : V' NBlock = put_block (V NBlock) (node_block nd);
  added_system : V' NSystem = V NSystem;
}.

Lemma next_height m hs h :
  heads_wf m -> heads_of m hs h ->
  (forall c, is_head m c = true -> height_of m c < 2 ^ 64 - 1) -> is_u64 (h + 1).
Proof.
  intros Hwf Hho Hlt. unfold is_u64. destruct (ho_max _ _ _ Hho) as [[_ ->]|(c & Hin & <-)]; [lia|].
  destruct (proj1 (ho_elem _ _ _ Hho c) Hin) as [Hc Hh]. pose proof (Hlt c Hh).
  enough (0 <= height_of m c) by lia. unfold height_of.
  apply bool_decide_eq_true in Hh as [v Hv]. rewrite Hv.
  destruct (Hwf _ _ Hv (below_hkey c)) as (c' & h' & _ & Hh' & _ & ->).
  rewrite Uvarint_PutUvarint by done. unfold is_u64 in Hh'. cbn. lia.
Qed.

Lemma msteps_AddDAGNode crdt delta s (D : Z -> contents) :
  heads_wf (views s NHead) ->
  (forall c, is_head (views s NHead) c = true -> height_of (views s NHead) c < 2 ^ 64 - 1) ->
  defined (L_Cid <$> Links delta) ->
  (forall h, heads_of (views s NHead) [] h -> forall l, l ∈ Links delta -> L_Name l <> "_head") ->
  (forall h id s', is_u64 h -> views s' NData = views s NData ->
    msteps (RD_Merge crdt (SetPriority delta h) id) s' (upd (views s') NData (D h)) (Ok tt)) ->
  exists hs h nd V, heads_of (views s NHead) hs h /\
    msteps (AddDAGNode (NewMerkleClock ns crdt) delta) s V (Ok (nd, SetPriority delta (h + 1))) /\
    added (views s) V hs h delta nd /\ V NData = D (h + 1).
Proof.
  intros Hwf Hlt Hdef Hn Hmerge.
  destruct (msteps_List s Hwf) as (hs & h & HL & Hho).
  assert (is_u64 (h + 1)) as Hh by by eapply next_height.
  pose proof (u64_small _ Hh) as Hu.
  destruct (msteps_putBlock hs (h + 1) (SetPriority delta (h + 1)) s) as (nd & Hl & Hmk & Hput).
  rewrite Links_SetPriority in Hl. rewrite SetPriority_SetPriority in Hmk, Hput.
  set (V1 := upd (views s) NBlock (put_block (views s NBlock) (node_block nd))) in *.
  set (st := links_end (known_in V1) (Node_Cid nd) (h + 1) (Node_Links nd) (views s NHead)).
  exists hs, h, nd, (upd (upd V1 NData (D (h + 1))) NHead st.1).
  split; [done|]. split.
  - unfold AddDAGNode. cbn [mc_namespace].
    eapply msteps_bind; [by apply msteps_wrap|]. intros s1 E1. cbv beta iota zeta. rewrite Hu.
    destruct (msteps_putBlock hs (h + 1) (SetPriority delta (h + 1)) s1) as (nd' & _ & Hmk' & Hput').
    rewrite SetPriority_SetPriority in Hmk', Hput'. assert (nd' = nd) as -> by congruence.
    eapply msteps_bind; [exact Hput'|]. intros s2 E2. cbv beta iota.
    assert (forall n, views s2 n = V1 n) as EV.
    { intros n. rewrite E2. unfold V1, upd. rewrite !E1. done. }
    assert (defined (L_Cid <$> Node_Links nd)) as Hdn.
    { apply Forall_forall. intros c. rewrite Hl, fmap_app, elem_of_app, <- list_fmap_compose.
      change (L_Cid ∘ head_link) with (@id Cid). rewrite list_fmap_id.
      intros [Hin|Hin]; [by apply (ho_elem _ _ _ Hho)|by eapply Forall_forall in Hdef]. }
    pose proof (msteps_ProcessNode crdt (Node_Cid nd) (h + 1) (SetPriority delta (h + 1)) nd s2
      (D (h + 1))) as Hp. cbv zeta in Hp.
    eapply msteps_bind.
    { apply Hp; [|apply Node_Cid_Defined|done]. apply Hmerge; [done|]. by rewrite EV. }
    intros s3 E3. apply msteps_ret. intros n. rewrite E3. unfold st, known_in, upd.
    rewrite !EV. done.
  - split; [|done]. split.
    + done.
    + done.
    + intros c Hc. rewrite upd_eq. apply (links_end_single _ nd hs h _ _ (Links delta)); [done..| |done].
      intros ->. by apply (Hn h).
    + intros k v. rewrite upd_eq. apply links_end_entries.
    + intros k Hk. rewrite upd_eq. unfold st. apply links_end_other.
      * intros ->. apply Hk, below_hkey.
      * intros c _ ->. apply Hk, below_hkey.
    + done.
    + done.
Qed.
End HeadStore.

(** ** Merkle CRDTs *)

Definition ErrFactoryTypeNoExist : error := ErrNew "no such factory for the given type exists".
Definition COMPOSITE : Z := 3.

Section MerkleCRDT.
Context {S : Type} `{MultiStore S} `{DsKey} `{CidOps} `{!BlockKeys} `{!DagOps} `{CborCodec}.

(** [baseMerkleCRDT]: a clock and the CRDT it orders. *)
Record baseMerkleCRDT := mkBaseMerkleCRDT {
  base_clock : @MerkleClock S _;
  base_crdt : ReplicatedData S;
}.

Definition Publish (base : baseMerkleCRDT) (delta : Delta) : M S (Node * Delta) :=
  AddDAGNode base.(base_clock) delta.

Definition base_Merge (base : baseMerkleCRDT) (other : Delta) (id : string) : M S unit :=
  RD_Merge base.(base_crdt) other id.

Definition base_DeltaDecode (base : baseMerkleCRDT) (node : Node) : result Delta :=
  RD_DeltaDecode base.(base_crdt) node.

(** The register and the composite DAG as [ReplicatedData]. *)
Definition LWW_data (reg : LWWRegister) : ReplicatedData S :=
  mkReplicatedData (LWW_ID reg) (fun d _ => @LWW_Merge S (store_of NData) _ _ reg d) LWW_DeltaDecode
    (@LWW_Value S (store_of NData) _ reg).

Definition Composite_data (c : CompositeDAG) : ReplicatedData S :=
  mkReplicatedData (Composite_ID c) (fun d _ => @Composite_Merge S (store_of NData) _ _ c d)
    Composite_DeltaDecode (Composite_Value c).

Record MerkleLWWRegister := mkMerkleLWWRegister { lww_base : baseMerkleCRDT; lww_reg : LWWRegister }.

Definition NewMerkleLWWRegister (schemaVersionKey : CollectionSchemaVersionKey) (key : DataStoreKey)
    (fieldName : string) : MerkleLWWRegister :=
  let register := NewLWWRegister key schemaVersionKey fieldName in
  let clk := NewMerkleClock (ToHeadStoreKey key) (LWW_data register) in
  mkMerkleLWWRegister (mkBaseMerkleCRDT clk (LWW_data register)) register.

Definition MerkleLWW_Set (r : MerkleLWWRegister) (value : bytes) : M S (Node * Z) :=
  let delta := LWW_Set r.(lww_reg) value in
  let* (nd, delta) := Publish r.(lww_base) delta in
  mret (nd, GetPriority delta).

Definition MerkleLWW_Value (r : MerkleLWWRegister) : M S bytes :=
  @LWW_Value S (store_of NData) _ r.(lww_reg).

Record MerkleCompositeDAG := mkMerkleCompositeDAG { comp_base : baseMerkleCRDT; comp_reg : CompositeDAG }.

Definition NewMerkleCompositeDAG (schemaVersionKey : CollectionSchemaVersionKey) (key : DataStoreKey)
    (fieldName : string) : MerkleCompositeDAG :=
  let compositeDag := NewCompositeDAG key schemaVersionKey fieldName in
  let clk := NewMerkleClock (ToHeadStoreKey key) (Composite_data compositeDag) in
  mkMerkleCompositeDAG (mkBaseMerkleCRDT clk (Composite_data compositeDag)) compositeDag.

Definition SetStatus (d : Delta) (status : Z) : Delta :=
  match d with
  | DComposite d =>
      DComposite (mkCompositeDAGDelta _ d.(CD_SchemaVersionID) d.(CD_Priority) d.(CD_Data) d.(CD_DocKey)
        d.(CD_SubDAGs) status d.(CD_FieldName))
  | DLWW _ => d
  end.

Definition MerkleComposite_Delete (m : MerkleCompositeDAG) (links : list DAGLink) : M S (Node * Z) :=
  let delta := Composite_Set m.(comp_reg) "" links in
  let delta := SetStatus delta Deleted in
  let* (nd, delta) := Publish m.(comp_base) delta in
  mret (nd, GetPriority delta).

Definition MerkleComposite_Set (m : MerkleCompositeDAG) (patch : bytes) (links : list DAGLink)
    : M S (Node * Z) :=
  let delta := Composite_Set m.(comp_reg) patch links in
  let* (nd, delta) := Publish m.(comp_base) delta in
  mret (nd, GetPriority delta).

(** The factory: the two registered types, each instantiated with the stores. *)
Inductive MerkleCRDT :=
  | MLWW (r : MerkleLWWRegister)
  | MComposite (m : MerkleCompositeDAG).

Definition factory_Instance (schemaVersionKey : CollectionSchemaVersionKey) (t : Z)
    (key : DataStoreKey) (fieldName : string) : result MerkleCRDT :=
  if t =? LWW_REGISTER then Ok (MLWW (NewMerkleLWWRegister schemaVersionKey key fieldName))
  else if t =? COMPOSITE then Ok (MComposite (NewMerkleCompositeDAG schemaVersionKey key fieldName))
  else Err ErrFactoryTypeNoExist.
End MerkleCRDT.

(** ** Local changes *)

Section Local.
Context {S : Type} `{LawfulMultiStore S} `{DsKey} `{CidOps} `{!BlockKeys} `{!DagOps} `{CborCodec}.
Variables col doc f : string.
Hypothesis Hcol : elem_ok col = true.
Hypothesis Hdoc : elem_ok doc = true.
Hypothesis Hf : elem_ok f = true.
Variables (t : string) (sv : CollectionSchemaVersionKey) (name : string).

Local Abbreviation key := (mkDataStoreKey col t doc f).

(** The heights of the heads are at least the priority the register holds. *)
Definition clock_ahead (V : namespace -> contents) : Prop :=
  forall hs h, heads_of doc f (V NHead) hs h -> reg_prio col doc f (V NData) <= h.

(** The state in which a field of a document can be written. *)
Record field_ready (V : namespace -> contents) : Prop := {
  fr_doc : doc_inv col doc (V NData);
  fr_heads : heads_wf doc f (V NHead);
  fr_ahead : clock_ahead V;
}.

Lemma data_Merge value h id s :
  doc_inv col doc (views s NData) ->
  msteps (RD_Merge (LWW_data (NewLWWRegister key sv name))
      (SetPriority (LWW_Set (NewLWWRegister key sv name) value) h) id) s
    (upd (views s) NData (reg_apply col doc f (views s NData) (h, value))) (Ok tt).
Proof.
  intros Hi. apply msteps_in.
  apply (@steps_setValue S _ (lawful_of NData) _ col doc f Hcol Hdoc Hf t sv name).
  by apply (inv_reg _ _ _ Hi).
Qed.

Lemma heads_wf_added V V' hs h delta nd :
  added doc f V V' hs h delta nd -> is_u64 (h + 1) -> heads_wf doc f (V NHead) ->
  heads_wf doc f (V' NHead).
Proof.
  intros Ha Hh Hwf k v [[-> ->]|Hk]%(added_entries _ _ _ _ _ _ _ _ Ha) Hb; [|by apply Hwf].
  exists (Node_Cid nd), (h + 1). split; [apply Node_Cid_Defined|done].
Qed.

(** After a local change the new node is the one head, of height [h + 1]. *)
Lemma heads_of_added V V' hs h delta nd hs' h' :
  added doc f V V' hs h delta nd -> is_u64 (h + 1) -> heads_of doc f (V' NHead) hs' h' -> h' = h + 1.
Proof.
  intros Ha Hh Hho.
  assert (forall c, c ∈ hs' -> c = Node_Cid nd) as Honly.
  { intros c [Hc Hin]%(ho_elem _ _ _ _ _ Hho). apply bool_decide_eq_true in Hin as [v Hv].
    rewrite (added_head _ _ _ _ _ _ _ _ Ha) in Hv by done. by case_decide. }
  assert (V' NHead !! hkey doc f (Node_Cid nd) = Some (PutUvarint (h + 1))) as Hnew.
  { rewrite (added_head _ _ _ _ _ _ _ _ Ha) by apply Node_Cid_Defined. by rewrite decide_True. }
  assert (Node_Cid nd ∈ hs') as Hin.
  { apply (ho_elem _ _ _ _ _ Hho). split; [apply Node_Cid_Defined|]. apply bool_decide_eq_true. by eexists. }
  destruct (ho_max _ _ _ _ _ Hho) as [[-> _]|(c & Hc%Honly & <-)]; [by apply elem_of_nil in Hin|].
  subst c. unfold height_of. by rewrite Hnew, Uvarint_PutUvarint.
Qed.

Lemma reg_apply_newer m p v :
  reg_prio col doc f m < p -> reg_apply col doc f m (p, v) = reg_write col doc f m (p, v).
Proof. intros Hp. unfold reg_apply. rewrite decide_True; [done|]. by left. Qed.

(** A local write: the node, the heads and the data. *)
Lemma msteps_LWW_Set s value :
  field_ready (views s) ->
  (forall c, is_head doc f (views s NHead) c = true -> height_of doc f (views s NHead) c < 2 ^ 64 - 1) ->
  exists hs h nd V,
    heads_of doc f (views s NHead) hs h /\
    msteps (MerkleLWW_Set (NewMerkleLWWRegister sv key name) value) s V (Ok (nd, h + 1)) /\
    added doc f (views s) V hs h (LWW_Set (NewLWWRegister key sv name) value) nd /\ is_u64 (h + 1) /\
    V NData = reg_write col doc f (views s NData) (h + 1, value).
Proof.
  intros [Hi Hwf Hahead] Hlt.
  destruct (msteps_AddDAGNode doc f Hdoc Hf (LWW_data (NewLWWRegister key sv name))
    (LWW_Set (NewLWWRegister key sv name) value) s
    (fun h => reg_apply col doc f (views s NData) (h, value))) as (hs & h & nd & V & Hho & Hadd & Ha & HD);
    [done|done|by constructor|by intros ? _ ? ?%elem_of_nil| |].
  { intros h id s' _ E. rewrite <- E. apply data_Merge. by rewrite E. }
  assert (is_u64 (h + 1)) as Hh by by eapply next_height.
  exists hs, h, nd, V. split; [done|]. split; [|split; [done|split; [done|]]].
  - unfold MerkleLWW_Set. cbn [lww_reg NewMerkleLWWRegister lww_base]. unfold Publish. cbn [base_clock].
    eapply msteps_bind; [exact Hadd|]. intros s1 E1. by apply msteps_ret.
  - rewrite HD. apply reg_apply_newer. pose proof (Hahead hs h Hho). lia.
Qed.


(** *** Deletion *)

Variable composite : string.
Hypothesis Hcomposite : elem_ok composite = true.

Local Abbreviation ckey := (mkDataStoreKey col t doc composite).
Local Abbreviation cdag := (NewCompositeDAG ckey sv name).

Lemma Composite_delete_Merge patch links h id s :
  doc_inv col doc (views s NData) ->
  msteps (RD_Merge (Composite_data cdag)
      (SetPriority (SetStatus (Composite_Set cdag patch links) Deleted) h) id) s
    (upd (views s) NData (doc_delete col doc (views s NData))) (Ok tt).
Proof.
  intros Hi. apply msteps_in.
  by apply (@steps_composite_delete S _ (lawful_of NData) _ _ col doc Hcol Hdoc t sv name composite).
Qed.

Lemma Composite_active_Merge patch links h id s :
  msteps (RD_Merge (Composite_data cdag) (SetPriority (Composite_Set cdag patch links) h) id) s
    (upd (views s) NData (doc_activate col doc (views s NData))) (Ok tt).
Proof.
  apply msteps_in.
  by apply (@steps_composite_active S _ (lawful_of NData) _ _ col doc Hcol Hdoc t sv name composite).
Qed.

(** A local change of the composite DAG with a delta that has the effect [D] on the data.  When the
    document has no heads, no link is named as one. *)
Lemma msteps_Composite s delta links (D : contents) :
  heads_wf doc composite (views s NHead) ->
  (forall c, is_head doc composite (views s NHead) c = true ->
    height_of doc composite (views s NHead) c < 2 ^ 64 - 1) ->
  Links delta ≡ₚ links -> defined (L_Cid <$> links) ->
  (forall h, heads_of doc composite (views s NHead) [] h -> forall l, l ∈ links -> L_Name l <> "_head") ->
  (forall h id s', views s' NData = views s NData ->
    msteps (RD_Merge (Composite_data cdag) (SetPriority delta h) id) s' (upd (views s') NData D) (Ok tt)) ->
  exists hs h nd V,
    heads_of doc composite (views s NHead) hs h /\
    (forall B (k : Node * Z -> M S B) r V', (forall s1, (forall n, views s1 n = V n) -> msteps (k (nd, h + 1)) s1 V' r) ->
      msteps (let* (nd, delta) := Publish (mkBaseMerkleCRDT (NewMerkleClock (mkHeadStoreKey _ doc composite Cid_Undef)
        (Composite_data cdag)) (Composite_data cdag)) delta in k (nd, GetPriority delta)) s V' r) /\
    added doc composite (views s) V hs h delta nd /\ is_u64 (h + 1) /\ V NData = D.
Proof.
  intros Hwf Hlt Hperm Hdef Hn Hm.
  destruct (msteps_AddDAGNode doc composite Hdoc Hcomposite (Composite_data cdag) delta s (fun _ => D))
    as (hs & h & nd & V & Hho & Hadd & Ha & HD); [done|done| | |intros h id s' _; apply Hm|].
  { unfold defined. by rewrite Hperm. }
  { intros h Hh l. rewrite Hperm. by apply (Hn h). }
  exists hs, h, nd, V. split; [done|]. split; [|split; [done|split; [by eapply next_height|done]]].
  intros B k r V' Hk. eapply msteps_bind; [exact Hadd|]. intros s1 E1.
  cbv beta iota. rewrite GetPriority_SetPriority. by apply Hk.
Qed.

Lemma Links_Composite_Set patch links : Links (Composite_Set cdag patch links) ≡ₚ links.
Proof. apply merge_sort_Permutation. Qed.

Lemma msteps_Composite_Delete s links :
  doc_inv col doc (views s NData) -> heads_wf doc composite (views s NHead) ->
  (forall c, is_head doc composite (views s NHead) c = true ->
    height_of doc composite (views s NHead) c < 2 ^ 64 - 1) ->
  defined (L_Cid <$> links) ->
  (forall h, heads_of doc composite (views s NHead) [] h -> forall l, l ∈ links -> L_Name l <> "_head") ->
  exists hs h nd V,
    heads_of doc composite (views s NHead) hs h /\
    msteps (MerkleComposite_Delete (NewMerkleCompositeDAG sv ckey name) links) s V (Ok (nd, h + 1)) /\
    added doc composite (views s) V hs h (SetStatus (Composite_Set cdag "" links) Deleted) nd /\ is_u64 (h + 1) /\
    V NData = doc_delete col doc (views s NData).
Proof.
  intros Hi Hwf Hlt Hdef Hn.
  destruct (msteps_Composite s (SetStatus (Composite_Set cdag "" links) Deleted) links (doc_delete col doc (views s NData)))
    as (hs & h & nd & V & Hho & Hrun & Ha); [done|done|apply (Links_Composite_Set "" links)|done|done| |].
  { intros h id s' E. rewrite <- E. apply Composite_delete_Merge. by rewrite E. }
  exists hs, h, nd, V. split; [done|]. split; [|done]. apply Hrun. intros s1 E1. by apply msteps_ret.
Qed.

Lemma msteps_Composite_Set s patch links :
  heads_wf doc composite (views s NHead) ->
  (forall c, is_head doc composite (views s NHead) c = true ->
    height_of doc composite (views s NHead) c < 2 ^ 64 - 1) ->
  defined (L_Cid <$> links) ->
  (forall h, heads_of doc composite (views s NHead) [] h -> forall l, l ∈ links -> L_Name l <> "_head") ->
  exists hs h nd V,
    heads_of doc composite (views s NHead) hs h /\
    msteps (MerkleComposite_Set (NewMerkleCompositeDAG sv ckey name) patch links) s V (Ok (nd, h + 1)) /\
    added doc composite (views s) V hs h (Composite_Set cdag patch links) nd /\ is_u64 (h + 1) /\
    V NData = doc_activate col doc (views s NData).
Proof.
  intros Hwf Hlt Hdef Hn.
  destruct (msteps_Composite s (Composite_Set cdag patch links) links (doc_activate col doc (views s NData)))
    as (hs & h & nd & V & Hho & Hrun & Ha); [done|done|apply Links_Composite_Set|done|done| |].
  { intros h id s' E. rewrite <- E. apply Composite_active_Merge. }
  exists hs, h, nd, V. split; [done|]. split; [|done]. apply Hrun. intros s1 E1. by apply msteps_ret.
Qed.

(** deleting a document locally records one node, of a priority above that of
    the heads of the document, that links to them and to the links given and becomes
    the only head, and leaves the document deleted: its fields are moved to the
    deleted instance and the marker is the deleted marker. *)
Theorem MerkleComposite_Delete_spec s links :
  doc_inv col doc (views s NData) -> heads_wf doc composite (views s NHead) ->
  (forall c, is_head doc composite (views s NHead) c = true ->
    height_of doc composite (views s NHead) c < 2 ^ 64 - 1) ->
  defined (L_Cid <$> links) -> (forall l, l ∈ links -> L_Name l <> "_head") ->
  exists hs h nd V,
    heads_of doc composite (views s NHead) hs h /\
    msteps (MerkleComposite_Delete (NewMerkleCompositeDAG sv ckey name) links) s V (Ok (nd, h + 1)) /\
    added doc composite (views s) V hs h (SetStatus (Composite_Set cdag "" links) Deleted) nd /\
    Node_Links nd ≡ₚ (head_link <$> hs) ++ links /\
    V NData = doc_delete col doc (views s NData) /\
    V NData !! mkey col doc = Some (String DeletedObjectMarker "") /\ doc_inv col doc (V NData).
Proof.
  intros Hi Hwf Hlt Hdef Hn.
  destruct (msteps_Composite_Delete s links Hi Hwf Hlt Hdef (fun _ _ => Hn)) as (hs & h & nd & V & Hho & Hs & Ha & _ & HD).
  exists hs, h, nd, V. split; [done|]. split; [done|]. split; [done|].
  split; [rewrite (added_links _ _ _ _ _ _ _ _ Ha); f_equiv; apply (Links_Composite_Set "" links)|].
  rewrite HD. split; [done|]. split; [by apply doc_delete_mkey|by apply doc_inv_delete].
Qed.
End Local.

(** ** Reading nodes back *)

Section Decode.
Context `{CidOps} `{!DagOps} `{CborCodec}.

(** a register delta is read back from the node made of it and any heads.  A
    composite delta is not when there are heads: the links to the heads, which carry
    the name "_head", are read as sub-DAGs, since the decoder only drops links named
    "head". *)
Theorem makeNode_DeltaDecode heads (l : LWWRegDelta) (c : CompositeDAGDelta) nl nc :
  makeNode (DLWW l) heads = Ok nl -> makeNode (DComposite c) heads = Ok nc ->
  (forall link, link ∈ c.(CD_SubDAGs) -> L_Name link <> "head") ->
  LWW_DeltaDecode nl = Ok (DLWW l) /\
  exists subDAGs, subDAGs ≡ₚ (head_link <$> heads) ++ c.(CD_SubDAGs) /\
    Composite_DeltaDecode nc =
      Ok (DComposite (mkCompositeDAGDelta _ c.(CD_SchemaVersionID) c.(CD_Priority) c.(CD_Data)
            c.(CD_DocKey) subDAGs c.(CD_Status) c.(CD_FieldName))).
Proof.
  unfold makeNode. intros Hl Hc Hhead. cbn [Marshal Links] in *.
  destruct (cbor_Encode _) as [bl| |] eqn:El in Hl; try done.
  destruct (cbor_Encode _) as [bc| |] eqn:Ec in Hc; try done.
  injection Hl as <-. injection Hc as <-. apply cbor_roundtrip in El, Ec.
  unfold LWW_DeltaDecode, Composite_DeltaDecode. rewrite El, Ec. cbn. split; [by destruct l|].
  eexists. split; [|done].
  rewrite (List.filter_ext_in _ (fun _ => true)), List.filter_true; [apply link_order_perm|].
  intros link Hin%list_elem_of_In. rewrite link_order_perm, elem_of_app in Hin.
  destruct (String.eqb_spec (L_Name link) "head") as [E|]; [|done]. exfalso.
  destruct Hin as [(h & -> & _)%list_elem_of_fmap|Hin]; [done|]. by eapply Hhead.
Qed.
End Decode.

(** ** Witnesses *)

Module ClockWitness.
Import MultiInstances CrdtWitness.

(** The CID of a node is above those of its links. *)
#[export] Program Instance DagOps_N : DagOps := {|
  Node_Cid n := N.succ (foldr N.max 0%N (L_Cid <$> Node_Links n));
  Node_RawData n := match n with ProtoNode d _ => d | OtherNode => "" end;
  Cid_Bytes := Cid_String;
  link_order l := l |}.
Next Obligation. done. Qed.
Next Obligation. intros n. apply Bool.negb_true_iff, N.eqb_neq. lia. Qed.
Next Obligation.
  intros n l Hin E.
  assert (forall x cs, x ∈ cs -> (x <= foldr N.max 0 cs)%N) as Hmax.
  { intros x cs. induction cs as [|y cs IH]; [by intros ?%elem_of_nil|]. cbn.
    intros [->|Hx]%elem_of_cons; [lia|]. specialize (IH Hx). lia. }
  assert (L_Cid l ∈ L_Cid <$> Node_Links n) as Hl by (apply list_elem_of_fmap; eauto).
  apply Hmax in Hl. cbn in *. lia.
Qed.

Definition cidn (n : N) : @Cid CidOps_N := n.

#[local] Existing Instance MultiStoreFrom.
#[local] Existing Instance LawfulMultiStoreFrom.

Lemma views_empty n : views (S := contents) ∅ n = ∅.
Proof.
  change (strip (namespaceKey n) ∅ = ∅). apply map_eq. intros k. by rewrite lookup_strip, !lookup_empty.
Qed.

Lemma heads_wf_empty doc f : heads_wf doc f ∅.
Proof. intros k v Hk. by rewrite lookup_empty in Hk. Qed.

Lemma is_head_empty doc f c : is_head doc f ∅ c = false.
Proof. apply bool_decide_eq_false. rewrite lookup_empty. by intros []. Qed.

Lemma field_ready_empty : field_ready "1" "doc" "1" (views (∅ : contents)).
Proof.
  split; rewrite ?views_empty.
  - by apply doc_inv_empty.
  - apply heads_wf_empty.
  - intros hs h [_ _ _ [[_ ->]|(c & Hc & <-)]]; rewrite views_empty; unfold reg_prio, height_of;
      rewrite ?views_empty, !lookup_empty; done.
Qed.

Lemma ProcessNode_heads_witness :
  let node := ProtoNode "" [mkDAGLink CidOps_N "_head" (cidn 3)] in
  let crdt := mkReplicatedData (S := contents) "" (fun _ _ => mret tt) (fun _ => Panic) (mret "") in
  exists m,
    msteps (ProcessNode (NewMerkleClock (mkHeadStoreKey _ "doc" "1" Cid_Undef) crdt) (cidn 4) 7
        (DLWW (fd 1 "a")) node) ∅
      (upd (upd (views ∅) NData (views ∅ NData)) NHead m) (Ok [cidn 3]) /\ m !! hkey "doc" "1" (cidn 3) = None.
Proof.
  destruct (ProcessNode_heads (S := contents) "doc" "1" eq_refl eq_refl
    (mkReplicatedData "" (fun _ _ => mret tt) (fun _ => Panic) (mret "")) (cidn 4) 7 (DLWW (fd 1 "a"))
    (ProtoNode "" [mkDAGLink CidOps_N "_head" (cidn 3)]) ∅ (views ∅ NData)) as (m & Hm & Hrem & _).
  - apply msteps_ret. intros n. by rewrite upd_same.
  - reflexivity.
  - repeat constructor.
  - vm_compute. set_solver.
  - intros c Hc. rewrite views_empty, is_head_empty. done.
  - exists m. split; [exact Hm|]. apply Hrem. left.
Defined.


Lemma MerkleComposite_Delete_spec_witness :
  exists hs h nd V,
    heads_of "doc" "C" (views (S := contents) ∅ NHead) hs h /\
    msteps (MerkleComposite_Delete (NewMerkleCompositeDAG sv0 (mkDataStoreKey "1" "" "doc" "C") "")
      [mkDAGLink CidOps_N "age" 2%N]) ∅ V (Ok (nd, h + 1)) /\
    V NData !! mkey "1" "doc" = Some (String DeletedObjectMarker "").
Proof.
  destruct (MerkleComposite_Delete_spec (S := contents) "1" "doc" eq_refl eq_refl "" sv0 "" "C" eq_refl ∅
    [mkDAGLink CidOps_N "age" 2%N]) as (hs & h & nd & V & Hho & Hs & _ & _ & _ & Hm & _).
  - rewrite views_empty. by apply doc_inv_empty.
  - rewrite views_empty. apply heads_wf_empty.
  - intros c. by rewrite views_empty, is_head_empty.
  - repeat constructor.
  - intros l. by intros ->%list_elem_of_singleton.
  - exists hs, h, nd, V. done.
Defined.

Lemma makeNode_DeltaDecode_witness :
  exists nl nc, makeNode (DLWW (fd 1 "a")) [cidn 5] = Ok nl /\ makeNode (DComposite (cd 1)) [cidn 5] = Ok nc /\
    LWW_DeltaDecode nl = Ok (DLWW (fd 1 "a")) /\
    exists subDAGs, subDAGs ≡ₚ [head_link (cidn 5); mkDAGLink CidOps_N "_head" 3%N] /\
      Composite_DeltaDecode nc =
        Ok (DComposite (mkCompositeDAGDelta _ "sv" 1 "" "doc" subDAGs 1 "")).
Proof.
  do 2 eexists. split; [reflexivity|]. split; [reflexivity|].
  apply (makeNode_DeltaDecode [cidn 5] (fd 1 "a") (cd 1)); [reflexivity..|].
  intros link. by intros ->%list_elem_of_singleton.
Defined.
End ClockWitness.
