(* ===== verification/MemStore.v ===== *)
(** * The in-memory datastore (datastore/memory)

    A multi-version store: a commit writes its items under the next version, a
    transaction reads the versions up to the one it started from, and a commit fails
    when a key that the transaction read or wrote was committed by another in the
    meantime.  Transactions are objects on a heap, since the store refers to those in
    flight.  The methods are atomic steps of the store, as their locks make them;
    the interleavings of several clients are sequences of such steps. *)

From S2P Require Import Prelude GoStd Keys Store BTree.

(** ** Items *)

Record dsItem := mkItem {
  i_key : string;
  i_version : Z;
  i_val : bytes;
  i_isDeleted : bool;
  i_isGet : bool;
}.

Definition zeroItem : dsItem := mkItem "" 0 "" false false.

Definition byKeys (a b : dsItem) : bool :=
  if String.ltb a.(i_key) b.(i_key) then true
  else String.eqb a.(i_key) b.(i_key) && (a.(i_version) <? b.(i_version)).

(** A transaction in flight: its version, its expiry and its place on the heap. *)
Record dsTxn := mkDsTxn {
  d_dsVersion : Z;
  d_txnVersion : Z;
  d_expiresAt : Z;
  d_txn : nat;
}.

Definition byDSVersion (a b : dsTxn) : bool :=
  if a.(d_dsVersion) <? b.(d_dsVersion) then true
  else (a.(d_dsVersion) =? b.(d_dsVersion)) && (a.(d_txnVersion) <? b.(d_txnVersion)).

Lemma byKeys_true a b :
  byKeys a b = true <->
    a.(i_key) <s b.(i_key) \/ (a.(i_key) = b.(i_key) /\ a.(i_version) < b.(i_version)).
Proof.
  unfold byKeys. destruct (String.ltb _ _) eqn:E.
  - split; [by left|done].
  - rewrite Bool.andb_true_iff, String.eqb_eq, Z.ltb_lt. unfold str_lt. rewrite E. naive_solver.
Qed.

Lemma byKeys_false a b :
  byKeys a b = false <->
    b.(i_key) <s a.(i_key) \/ (a.(i_key) = b.(i_key) /\ b.(i_version) <= a.(i_version)).
Proof.
  rewrite <- Bool.not_true_iff_false, byKeys_true.
  destruct (str_lt_total (i_key a) (i_key b)) as [Hlt|[Heq|Hlt]].
  - split; [tauto|]. intros [?|[E _]]; exfalso; [by eapply str_lt_irrefl, str_lt_trans|].
    rewrite E in Hlt. by eapply str_lt_irrefl.
  - rewrite Heq. pose proof (str_lt_irrefl (i_key b)). split; [|naive_solver lia].
    intros Hn. right. split; [done|]. destruct (Z.lt_ge_cases (i_version a) (i_version b)); naive_solver.
  - split; [by left|]. intros _ [?|[E _]]; [by eapply str_lt_irrefl, str_lt_trans|].
    rewrite E in Hlt. by eapply str_lt_irrefl.
Qed.

#[global] Instance TreeOrder_byKeys : TreeOrder byKeys.
Proof.
  split.
  - intros x. apply byKeys_false. right. split; [done|lia].
  - intros x y z. rewrite !byKeys_true. intros [Hxy|[-> Hv]] [Hyz|[Hk Hv']].
    + left. by eapply str_lt_trans.
    + left. by rewrite <- Hk.
    + by left.
    + right. split; [done|lia].
  - intros x y z. rewrite !byKeys_false. intros [Hxy|[-> Hv]] [Hyz|[Hk Hv']].
    + left. by eapply str_lt_trans.
    + left. by rewrite <- Hk.
    + by left.
    + right. split; [done|lia].
Qed.

#[global] Instance TreeOrder_byDSVersion : TreeOrder byDSVersion.
Proof.
  split; unfold byDSVersion.
  - intros x. rewrite !Z.ltb_irrefl. by rewrite Bool.andb_false_r.
  - intros x y z. repeat case_split; lia.
  - intros x y z. repeat case_split; lia.
Qed.

(** ** The store and its transactions *)

Section Defs.
Context `{BTreeG} `{DsKey}.

Record basicTxn := mkTxn {
  t_ops : tree byKeys;
  t_dsVersion : Z;
  t_readOnly : bool;
  t_discarded : bool;
  t_closed : bool;
}.

Record memDS := mkDS {
  version : Z;
  values : tree byKeys;
  inFlightTxn : tree byDSVersion;
  closed : bool;
  heap : gmap nat basicTxn;
}.

Definition set_version (d : memDS) v := mkDS v d.(values) d.(inFlightTxn) d.(closed) d.(heap).
Definition set_values (d : memDS) x := mkDS d.(version) x d.(inFlightTxn) d.(closed) d.(heap).
Definition set_inFlight (d : memDS) x := mkDS d.(version) d.(values) x d.(closed) d.(heap).
Definition set_heap (d : memDS) x := mkDS d.(version) d.(values) d.(inFlightTxn) d.(closed) x.

Definition set_ops (t : basicTxn) x :=
  mkTxn x t.(t_dsVersion) t.(t_readOnly) t.(t_discarded) t.(t_closed).

Definition NewDatastore : memDS := mkDS 0 (bt_New byKeys) (bt_New byDSVersion) false ∅.

Definition nextVersion (d : memDS) : memDS := set_version d (u64 (d.(version) + 1)).

(** [Datastore.get]: the largest version of the key that is not above [version]. *)
Definition get (d : memDS) (key : string) (v : Z) : dsItem :=
  match Descend byKeys (mkItem key v "" false false) (items d.(values)) with
  | Some item => if String.eqb key item.(i_key) then item else zeroItem
  | None => zeroItem
  end.

Definition absent (item : dsItem) : bool := String.eqb item.(i_key) "" || item.(i_isDeleted).

(** *** Reads of the store *)

Definition ds_read (key : string) : M memDS bytes := fun d =>
  (d, if d.(closed) then Err ErrClosed
      else let result := get d key d.(version) in
           if absent result then Err ErrNotFound else Ok result.(i_val)).

Definition ds_size (key : string) : M memDS Z := fun d =>
  (d, if d.(closed) then Err ErrClosed
      else let result := get d key d.(version) in
           if absent result then Err ErrNotFound else Ok (Z.of_nat (String.length result.(i_val)))).

Definition ds_has (key : string) : M memDS bool := fun d =>
  (d, if d.(closed) then Err ErrClosed else Ok (negb (absent (get d key d.(version))))).

(** *** Transactions *)

Definition getTxnVersion (t : basicTxn) : Z := u64 (t.(t_dsVersion) + 1).

(** The heap grows by one transaction; [now] is the time of the call and an hour is
    the life of a transaction. *)
Definition hour : Z := 3600.

Definition newTransaction (now : Z) (readOnly : bool) : M memDS nat := fun d =>
  let v := d.(version) in
  let id := fresh (dom d.(heap)) in
  let txn := mkTxn (bt_New byKeys) v readOnly false false in
  let d := set_heap d (<[id := txn]> d.(heap)) in
  (set_inFlight d (bt_Set (mkDsTxn v (u64 (v + 1)) (now + hour) id) d.(inFlightTxn)), Ok id).

Definition NewTransaction (now : Z) (readOnly : bool) : M memDS nat := fun d =>
  if d.(closed) then (d, Err ErrClosed) else newTransaction now readOnly d.

(** Access to a transaction of the heap. *)
Definition txn_run {A} (id : nat) (f : memDS -> basicTxn -> memDS * result A) : M memDS A := fun d =>
  match d.(heap) !! id with Some t => f d t | None => (d, Panic) end.

Definition put_txn (d : memDS) (id : nat) (t : basicTxn) : memDS := set_heap d (<[id := t]> d.(heap)).

(** [basicTxn.get]: the item of the transaction, else that of its snapshot, which is
    recorded among the operations as read. *)
Definition txn_get (d : memDS) (t : basicTxn) (key : string) : dsItem * basicTxn :=
  let result :=
    match Descend byKeys (mkItem key (getTxnVersion t) "" false false) (items t.(t_ops)) with
    | Some item => if String.eqb key item.(i_key) then item else zeroItem
    | None => zeroItem
    end in
  if String.eqb result.(i_key) "" then
    let r := get d key t.(t_dsVersion) in
    let r := mkItem r.(i_key) r.(i_version) r.(i_val) r.(i_isDeleted) true in
    (r, set_ops t (bt_Set r t.(t_ops)))
  else (result, t).

Definition txn_Get (id : nat) (key : string) : M memDS bytes := txn_run id (fun d t =>
  if t.(t_closed) then (d, Err ErrClosed)
  else if t.(t_discarded) then (d, Err ErrTxnDiscarded)
  else let '(result, t) := txn_get d t key in
       (put_txn d id t, if absent result then Err ErrNotFound else Ok result.(i_val))).

Definition txn_GetSize (id : nat) (key : string) : M memDS Z := txn_run id (fun d t =>
  if t.(t_closed) then (d, Err ErrClosed)
  else if t.(t_discarded) then (d, Err ErrTxnDiscarded)
  else let '(result, t) := txn_get d t key in
       (put_txn d id t,
        if absent result then Err ErrNotFound else Ok (Z.of_nat (String.length result.(i_val))))).

(** [Has] looks at the store's own flag, not the transaction's. *)
Definition txn_Has (id : nat) (key : string) : M memDS bool := txn_run id (fun d t =>
  if d.(closed) then (d, Err ErrClosed)
  else if t.(t_discarded) then (d, Err ErrTxnDiscarded)
  else let '(result, t) := txn_get d t key in (put_txn d id t, Ok (negb (absent result)))).

Definition txn_Put (id : nat) (key : string) (value : bytes) : M memDS unit := txn_run id (fun d t =>
  if t.(t_closed) then (d, Err ErrClosed)
  else if t.(t_discarded) then (d, Err ErrTxnDiscarded)
  else if t.(t_readOnly) then (d, Err ErrReadOnlyTxn)
  else (put_txn d id (set_ops t (bt_Set (mkItem key (getTxnVersion t) value false false) t.(t_ops))), Ok tt)).

Definition txn_Delete (id : nat) (key : string) : M memDS unit := txn_run id (fun d t =>
  if t.(t_closed) then (d, Err ErrClosed)
  else if t.(t_discarded) then (d, Err ErrTxnDiscarded)
  else if t.(t_readOnly) then (d, Err ErrReadOnlyTxn)
  else let '(item, t) := txn_get d t key in
       if absent item then (put_txn d id t, Ok tt)
       else (put_txn d id (set_ops t (bt_Set (mkItem key (getTxnVersion t) "" true false) t.(t_ops))), Ok tt)).

(** Transactions whose time is over leave the list of those in flight.  The code
    repeats the scan until it finds none; the first scan finds them all. *)
Definition clearOldInFlightTxn (now : Z) (d : memDS) : memDS :=
  set_inFlight d
    (foldl (fun tr i => bt_Delete i tr) d.(inFlightTxn)
       (List.filter (fun i => i.(d_expiresAt) <? now) (items d.(inFlightTxn)))).

Definition clearInFlightTxn (now : Z) (t : basicTxn) (d : memDS) : memDS :=
  clearOldInFlightTxn now
    (set_inFlight d (bt_Delete (mkDsTxn t.(t_dsVersion) (getTxnVersion t) 0 0) d.(inFlightTxn))).

Definition txn_Discard (now : Z) (id : nat) : M memDS unit := txn_run id (fun d t =>
  if t.(t_discarded) then (d, Ok tt)
  else
    let d := clearInFlightTxn now t d in
    (put_txn d id (mkTxn (bt_New byKeys) t.(t_dsVersion) t.(t_readOnly) true t.(t_closed)), Ok tt)).

Definition checkForConflicts (d : memDS) (t : basicTxn) : result unit :=
  if t.(t_dsVersion) =? d.(version) then Ok tt
  else if existsb (fun item =>
            let k := NewKey item.(i_key) in
            negb ((get d k d.(version)).(i_version) =? (get d k t.(t_dsVersion)).(i_version)))
         (items t.(t_ops))
       then Err ErrTxnConflict else Ok tt.

(** The operations other than reads are written under the next version. *)
Definition with_version (item : dsItem) (v : Z) : dsItem :=
  mkItem item.(i_key) v item.(i_val) item.(i_isDeleted) item.(i_isGet).

Definition apply_ops (v : Z) (l : list dsItem) (vals : tree byKeys) : tree byKeys :=
  foldl (fun vals item => if item.(i_isGet) then vals else bt_Set (with_version item v) vals) vals l.

Definition commit (d : memDS) (t : basicTxn) : memDS * result unit :=
  match checkForConflicts d t with
  | Ok _ =>
      let d := nextVersion d in
      (set_values d (apply_ops d.(version) (items t.(t_ops)) d.(values)), Ok tt)
  | r => (d, r)
  end.

(** The deferred [Discard] runs whatever the commit returned. *)
Definition txn_Commit (now : Z) (id : nat) : M memDS unit := txn_run id (fun d t =>
  if t.(t_closed) then (d, Err ErrClosed)
  else if t.(t_discarded) then (d, Err ErrTxnDiscarded)
  else
    let '(d, r) := if t.(t_readOnly) then (d, Ok tt) else commit d t in
    ((txn_Discard now id d).1, r)).

(** *** Writes of the store: a transaction of their own *)

Definition ds_put (now : Z) (key : string) (value : bytes) : M memDS unit := fun d =>
  if d.(closed) then (d, Err ErrClosed)
  else (let* tx := newTransaction now false in
        let* _ := mtry (txn_Put tx key value) in
        txn_Commit now tx) d.

Definition ds_delete (now : Z) (key : string) : M memDS unit := fun d =>
  if d.(closed) then (d, Err ErrClosed)
  else (let* tx := newTransaction now false in
        let* _ := mtry (txn_Delete tx key) in
        txn_Commit now tx) d.

(** *** Queries *)

(** The loop over the items, in order: the last version of each run of a key. *)
Fixpoint lastVersions (item : dsItem) (rest : list dsItem) : list dsItem :=
  match rest with
  | [] => [item]
  | next :: rest' =>
      if String.eqb item.(i_key) next.(i_key) then lastVersions next rest'
      else item :: lastVersions next rest'
  end.

Definition latest_items (l : list dsItem) : list dsItem :=
  match l with [] => [] | item :: rest => lastVersions item rest end.

Definition setEntry (item : dsItem) : string * bytes := (item.(i_key), item.(i_val)).

Definition ds_entries (d : memDS) : list (string * bytes) :=
  setEntry <$> List.filter (fun i => negb i.(i_isDeleted)) (latest_items (items d.(values))).

(** [Query] for the values too; [apply] is what [NaiveQueryApply] does for the query. *)
Definition ds_Query (apply : list (string * bytes) -> list (string * bytes))
    : M memDS (list (string * bytes)) := fun d =>
  (d, if d.(closed) then Err ErrClosed else Ok (apply (ds_entries d))).

(** The operations up to the key of an item of the store: those of that key replace
    the item, the others are added when they are writes. *)
Fixpoint ops_before (item : dsItem) (ops : list dsItem) (re : list (string * bytes))
    : dsItem * list dsItem * list (string * bytes) :=
  match ops with
  | o :: ops' =>
      if String.leb o.(i_key) item.(i_key) then
        if String.eqb o.(i_key) item.(i_key) then ops_before o ops' re
        else if negb o.(i_isDeleted) && negb o.(i_isGet) then ops_before item ops' (re ++ [setEntry o])
        else ops_before item ops' re
      else (item, ops, re)
  | [] => (item, [], re)
  end.

Fixpoint merge_ops (store ops : list dsItem) (re : list (string * bytes)) : list (string * bytes) :=
  match store with
  | [] => re ++ (setEntry <$> List.filter (fun o => negb o.(i_isDeleted) && negb o.(i_isGet)) ops)
  | item :: store' =>
      let '(item, ops, re) := ops_before item ops re in
      merge_ops store' ops (if item.(i_isDeleted) then re else re ++ [setEntry item])
  end.

Definition txn_entries (d : memDS) (t : basicTxn) : list (string * bytes) :=
  merge_ops (latest_items (items d.(values))) (items t.(t_ops)) [].

Definition txn_Query (apply : list (string * bytes) -> list (string * bytes)) (id : nat)
    : M memDS (list (string * bytes)) := txn_run id (fun d t =>
  if d.(closed) then (d, Err ErrClosed)
  else if t.(t_discarded) then (d, Err ErrTxnDiscarded)
  else (d, Ok (apply (txn_entries d t)))).

(** *** Purging old versions *)

(** One pass: an item is dropped when a later version, not above [v], of its key
    follows; at most a thousand per pass. *)
Fixpoint purge_scan (v total : Z) (item : dsItem) (rest : list dsItem) : list dsItem :=
  match rest with
  | [] => []
  | next :: rest' =>
      if v <? next.(i_version) then purge_scan v total item rest'
      else
        let '(del, total) :=
          if String.eqb item.(i_key) next.(i_key) then ([item], total + 1) else ([], total) in
        if 1000 <=? total then del else del ++ purge_scan v total next rest'
  end.

Definition purge_pass (v : Z) (l : list dsItem) : list dsItem :=
  match l with [] => [] | item :: rest => purge_scan v 0 item rest end.

Fixpoint purge_loop (fuel : nat) (v : Z) (vals : tree byKeys) : option (tree byKeys) :=
  match fuel with
  | O => None
  | Datatypes.S fuel' =>
      match purge_pass v (items vals) with
      | [] => Some vals
      | del => purge_loop fuel' v (foldl (fun tr i => bt_Delete i tr) vals del)
      end
  end.

Definition purge_version (d : memDS) : Z :=
  match Min (items d.(inFlightTxn)) with Some m => m.(d_dsVersion) | None => d.(version) end.

Definition executePurge (d : memDS) : option memDS :=
  match purge_loop (Datatypes.S (length (items d.(values)))) (purge_version d) d.(values) with
  | Some vals => Some (set_values d vals)
  | None => None
  end.

(** *** Batches: the operations by key, committed without a conflict check *)

Inductive batch_op := BatchPut (value : bytes) | BatchDelete.

Definition basicBatch : Type := gmap string batch_op.

Definition batch_Put (b : basicBatch) (key : string) (value : bytes) : basicBatch :=
  <[key := BatchPut value]> b.
Definition batch_Delete (b : basicBatch) (key : string) : basicBatch := <[key := BatchDelete]> b.

Definition batch_item (v : Z) (e : string * batch_op) : dsItem :=
  match e.2 with
  | BatchPut value => mkItem e.1 v value false false
  | BatchDelete => mkItem e.1 v "" true false
  end.

Definition batch_Commit (b : basicBatch) (d : memDS) : memDS :=
  let d := nextVersion d in
  set_values d (foldl (fun vals e => bt_Set (batch_item d.(version) e) vals) d.(values) (map_to_list b)).

(** *** Closing *)
Definition close_txn (d : memDS) (i : dsTxn) : memDS :=
  match d.(heap) !! i.(d_txn) with
  | Some t => put_txn d i.(d_txn) (mkTxn t.(t_ops) t.(t_dsVersion) t.(t_readOnly) t.(t_discarded) true)
  | None => d
  end.

Definition Close (d : memDS) : memDS * result unit :=
  if d.(closed) then (d, Err ErrClosed)
  else (foldl close_txn (mkDS d.(version) d.(values) d.(inFlightTxn) true d.(heap)) (items d.(inFlightTxn)), Ok tt).
End Defs.

(** ** Versions of a key *)

(** [is_at l k v o]: [o] is the last version of [k] in [l] that is not above [v]. *)
Definition is_at (l : list dsItem) (k : string) (v : Z) (o : option dsItem) : Prop :=
  match o with
  | Some x => x ∈ l /\ x.(i_key) = k /\ x.(i_version) <= v /\
      forall y, y ∈ l -> y.(i_key) = k -> y.(i_version) <= v -> y.(i_version) <= x.(i_version)
  | None => forall y, y ∈ l -> y.(i_key) = k -> v < y.(i_version)
  end.

Definition at_version (l : list dsItem) (k : string) (v : Z) : option dsItem :=
  match Descend byKeys (mkItem k v "" false false) l with
  | Some x => if String.eqb k x.(i_key) then Some x else None
  | None => None
  end.

Lemma equiv_byKeys x y :
  equiv byKeys x y = true <-> x.(i_key) = y.(i_key) /\ x.(i_version) = y.(i_version).
Proof.
  unfold equiv. rewrite Bool.andb_true_iff, !Bool.negb_true_iff, !byKeys_false.
  pose proof (str_lt_irrefl (i_key x)). split.
  - intros [[?|[E ?]] [?|[E' ?]]].
    + exfalso. by eapply str_lt_irrefl, str_lt_trans.
    + exfalso. by rewrite E' in *.
    + exfalso. by rewrite E in *.
    + split; [done|lia].
  - intros [-> ->]. split; right; (split; [done|lia]).
Qed.

Lemma is_at_unique l k v o1 o2 :
  ascending byKeys l -> is_at l k v o1 -> is_at l k v o2 -> o1 = o2.
Proof.
  intros Hl. destruct o1 as [x|], o2 as [y|]; cbn.
  - intros (Hx & Hkx & Hvx & Hmx) (Hy & Hky & Hvy & Hmy). f_equal.
    apply (ascending_unique (less := byKeys) l); [done..|]. apply equiv_byKeys. split; [congruence|].
    pose proof (Hmx y Hy Hky Hvy). pose proof (Hmy x Hx Hkx Hvx). lia.
  - intros (Hx & Hkx & Hvx & _) Hn. specialize (Hn x Hx Hkx). lia.
  - intros Hn (Hx & Hkx & Hvx & _). specialize (Hn y Hx Hkx). lia.
  - done.
Qed.

Lemma at_version_is_at l k v : ascending byKeys l -> is_at l k v (at_version l k v).
Proof.
  intros Hl. unfold at_version. destruct (Descend _ _ _) as [x|] eqn:E.
  - apply Descend_Some in E as (Hx & Hp & Hmax); [|done].
    apply byKeys_false in Hp. cbn in Hp.
    assert (forall y, y ∈ l -> i_key y = k -> i_version y <= v -> byKeys x y = false) as Hle.
    { intros y Hy Hk Hv. apply Hmax; [done|]. apply byKeys_false. right. cbn. split; [done|lia]. }
    destruct (String.eqb_spec k (i_key x)) as [->|Hne]; cbn.
    + destruct Hp as [Hp|[_ Hp]]; [by apply str_lt_irrefl in Hp|].
      split; [done|]. split; [done|]. split; [lia|]. intros y Hy Hk Hv.
      specialize (Hle y Hy Hk Hv). apply byKeys_false in Hle as [Hlt|[_ ?]]; [|lia].
      rewrite Hk in Hlt. by apply str_lt_irrefl in Hlt.
    + intros y Hy Hk. destruct (Z.lt_ge_cases v (i_version y)) as [|Hv]; [done|]. exfalso.
      specialize (Hle y Hy Hk Hv). apply byKeys_false in Hle as [Hlt|[E' _]]; [|congruence].
      destruct Hp as [Hp|[E' _]]; [|congruence]. rewrite Hk in Hlt. by eapply str_lt_irrefl, str_lt_trans.
  - intros y Hy Hk. pose proof (proj1 (Descend_None _ _) E y Hy) as Hp.
    apply byKeys_true in Hp as [Hlt|[_ Hlt]]; [|done]. cbn in Hlt. rewrite Hk in Hlt.
    by apply str_lt_irrefl in Hlt.
Qed.

(** What is stored at a version is determined by the items up to that version. *)
Lemma at_version_ext l l' k v :
  ascending byKeys l -> ascending byKeys l' ->
  (forall y, y.(i_key) = k -> y.(i_version) <= v -> y ∈ l <-> y ∈ l') ->
  at_version l k v = at_version l' k v.
Proof.
  intros Hl Hl' Heq. apply (is_at_unique l k v); [done|by apply at_version_is_at|].
  pose proof (at_version_is_at l' k v Hl') as Ha. destruct (at_version l' k v) as [x|]; cbn in *.
  - destruct Ha as (Hx & Hk & Hv & Hmax). split; [by apply Heq|]. split; [done|]. split; [done|].
    intros y Hy Hky Hvy. apply Hmax; [by apply Heq|done..].
  - intros y Hy Hk. destruct (Z.lt_ge_cases v (i_version y)) as [|Hv]; [done|].
    apply Ha; [by apply Heq|done].
Qed.

(** Above the largest version nothing changes. *)
Lemma at_version_top l k v u :
  ascending byKeys l -> (forall x, x ∈ l -> x.(i_version) <= v) -> v <= u ->
  at_version l k u = at_version l k v.
Proof.
  intros Hl Hle Hu. apply (is_at_unique l k u); [done|by apply at_version_is_at|].
  pose proof (at_version_is_at l k v Hl) as Ha. destruct (at_version l k v) as [x|]; cbn in *.
  - destruct Ha as (Hx & Hk & Hv & Hmax). split; [done|]. split; [done|]. split; [lia|]. auto.
  - intros y Hy Hk. specialize (Ha y Hy Hk). specialize (Hle y Hy). lia.
Qed.

Section Props.
Context `{BTreeG} `{DsKey}.

Lemma items_asc (t : tree byKeys) : ascending byKeys (items t).
Proof. apply items_ascending. Qed.

Lemma get_at d k v : get d k v = default zeroItem (at_version (items d.(values)) k v).
Proof. unfold get, at_version. destruct (Descend _ _ _) as [x|]; [|done]. by destruct (String.eqb k _). Qed.

(** *** Writing a version *)

Lemma items_Set_older x (t : tree byKeys) y :
  y.(i_version) < x.(i_version) -> y ∈ items (bt_Set x t) <-> y ∈ items t.
Proof.
  intros Hlt. rewrite items_Set. split.
  - intros [->|[? _]]; [lia|done].
  - intros Hy. right. split; [done|]. apply Bool.not_true_iff_false. rewrite equiv_byKeys. lia.
Qed.

Lemma apply_ops_older v l vals y :
  y.(i_version) < v -> y ∈ items (apply_ops v l vals) <-> y ∈ items vals.
Proof.
  intros Hlt. revert vals. induction l as [|o l IH]; intros vals; [done|]. cbn.
  unfold apply_ops in IH. rewrite IH. destruct (i_isGet o); [done|]. by rewrite items_Set_older.
Qed.

(** A commit does not change what is stored at older versions. *)
Lemma apply_ops_at v l vals k u :
  u < v -> at_version (items (apply_ops v l vals)) k u = at_version (items vals) k u.
Proof.
  intros Hlt. apply at_version_ext; [apply items_asc..|]. intros y _ Hy. apply apply_ops_older. lia.
Qed.

(** The write of a key among the operations of a transaction. *)
Definition write_of (l : list dsItem) (k : string) : option dsItem :=
  List.find (fun o => negb o.(i_isGet) && String.eqb o.(i_key) k) l.

Definition writes_unique (l : list dsItem) : Prop :=
  forall o o', o ∈ l -> o' ∈ l -> o.(i_isGet) = false -> o'.(i_isGet) = false ->
    o.(i_key) = o'.(i_key) -> o = o'.

Lemma write_of_Some l k o :
  write_of l k = Some o -> o ∈ l /\ o.(i_isGet) = false /\ o.(i_key) = k.
Proof.
  intros [Hin Ho]%find_some. apply Bool.andb_true_iff in Ho as [Ho%Bool.negb_true_iff Hk%String.eqb_eq].
  split; [by apply list_elem_of_In|done].
Qed.

Lemma write_of_None l k o : write_of l k = None -> o ∈ l -> o.(i_isGet) = false -> o.(i_key) <> k.
Proof.
  intros Hn Hin%list_elem_of_In Hg Hk. apply (find_none _ _ Hn) in Hin. rewrite Hg, Hk, String.eqb_refl in Hin. done.
Qed.

Lemma apply_ops_new v l vals y :
  writes_unique l -> (forall x, x ∈ items vals -> x.(i_version) < v) ->
  y ∈ items (apply_ops v l vals) <->
    y ∈ items vals \/ exists o, o ∈ l /\ o.(i_isGet) = false /\ y = with_version o v.
Proof.
  intros Hu Hold. induction l as [|o l IH] using rev_ind.
  - cbn. split; [by left|]. intros [?|(o & Hin & _)]; [done|by apply elem_of_nil in Hin].
  - unfold apply_ops in *. rewrite foldl_app. cbn.
    assert (writes_unique l) as Hul by (intros ? ? ? ?; apply Hu; set_solver).
    destruct (i_isGet o) eqn:Hg.
    + rewrite (IH Hul). split; (intros [?|(o' & Hin & Hg' & ->)]; [by left|right; exists o'; split; [|done]]).
      * apply elem_of_app. by left.
      * apply elem_of_app in Hin as [?| ->%list_elem_of_singleton]; [done|congruence].
    + rewrite items_Set, (IH Hul). split.
      * intros [->|[[?|(o' & Hin & ? & ->)] _]]; [right; exists o|by left|right; exists o'].
        -- split; [apply elem_of_app; right; left|done].
        -- split; [apply elem_of_app; by left|done].
      * intros [Hy|(o' & [Hin| ->%list_elem_of_singleton]%elem_of_app & Hg' & ->)]; [right| |by left].
        -- split; [by left|]. apply Bool.not_true_iff_false. rewrite equiv_byKeys. cbn.
           specialize (Hold y Hy). lia.
        -- destruct (equiv byKeys (with_version o v) (with_version o' v)) eqn:E; [left|right; split; eauto].
           apply equiv_byKeys in E as [Hk _]. cbn in Hk. f_equal. apply Hu; set_solver.
Qed.

(** After a commit the new version of a key is its write, else the last version. *)
Lemma apply_ops_latest v l vals k :
  writes_unique l -> (forall x, x ∈ items vals -> x.(i_version) < v) ->
  at_version (items (apply_ops v l vals)) k v =
    match write_of l k with
    | Some o => Some (with_version o v)
    | None => at_version (items vals) k v
    end.
Proof.
  intros Hu Hold.
  destruct (write_of l k) as [o|] eqn:Hw.
  - apply write_of_Some in Hw as (Hin & Hg & Hk).
    apply (is_at_unique (items (apply_ops v l vals)) k v); [apply items_asc|apply at_version_is_at, items_asc|].
    cbn. split; [apply apply_ops_new; eauto|]. split; [done|]. split; [lia|]. intros y _ _ ?. lia.
  - apply at_version_ext; [apply items_asc..|]. intros y Hk Hv. rewrite apply_ops_new by done.
    split; [|by left]. intros [?|(o & Hin & Hg & ->)]; [done|].
    exfalso. by apply (write_of_None l k o Hw Hin Hg).
Qed.

(** *** Purging *)

Lemma items_NoDup (t : tree byKeys) : NoDup (items t).
Proof.
  pose proof (items_asc t) as Hs. induction Hs as [|x l Hs IH Hx]; [constructor|].
  constructor; [|done]. rewrite Forall_forall in Hx. intros Hin. pose proof (Hx x Hin) as E.
  by rewrite (less_irrefl byKeys) in E.
Qed.

(** An item that a pass drops has a successor of its key that is not above [v]. *)
Lemma purge_scan_spec v total item rest x :
  ascending byKeys (item :: rest) -> x ∈ purge_scan v total item rest ->
  x ∈ item :: rest /\ exists y, y ∈ rest /\ y.(i_key) = x.(i_key) /\
    x.(i_version) < y.(i_version) <= v.
Proof.
  revert total item. induction rest as [|next rest IH]; intros total item Hs Hx; [by apply elem_of_nil in Hx|].
  apply StronglySorted_inv in Hs as [Hs Hall]. rewrite Forall_forall in Hall.
  assert (ascending byKeys (item :: rest)) as Hs'.
  { apply StronglySorted_inv in Hs as [Hs _]. constructor; [done|]. apply Forall_forall.
    intros y Hy. apply Hall. by right. }
  cbn [purge_scan] in Hx. destruct (Z.ltb_spec v (i_version next)) as [Hv|Hv].
  - destruct (IH total item Hs' Hx) as (Hin & y & Hy & ?). split; [set_solver|]. exists y. split; [by right|done].
  - assert (forall total, x ∈ purge_scan v total next rest ->
      x ∈ item :: next :: rest /\ exists y, y ∈ next :: rest /\ i_key y = i_key x /\
        i_version x < i_version y <= v) as Hrec.
    { intros tot Hin. destruct (IH tot next Hs Hin) as (Hxin & y & Hy & ?). split; [by right|].
      exists y. split; [by right|done]. }
    destruct (String.eqb_spec (i_key item) (i_key next)) as [E|E].
    + assert (i_version item < i_version next) as Hlt.
      { specialize (Hall next ltac:(left)). apply byKeys_true in Hall as [Hlt|[_ ?]]; [|done].
        rewrite E in Hlt. by apply str_lt_irrefl in Hlt. }
      assert (x = item \/ x ∈ purge_scan v (total + 1) next rest) as [->|Hin].
      { destruct (1000 <=? total + 1); [|apply elem_of_app in Hx as [Hx|Hx]; [|by right]];
          left; by apply list_elem_of_singleton. }
      * split; [left|]. exists next. split; [left|]. split; [done|lia].
      * by apply (Hrec (total + 1)).
    + destruct (1000 <=? total); [by apply elem_of_nil in Hx|]. by apply (Hrec total).
Qed.

Lemma purge_pass_spec v l x :
  ascending byKeys l -> x ∈ purge_pass v l ->
  x ∈ l /\ exists y, y ∈ l /\ y.(i_key) = x.(i_key) /\ x.(i_version) < y.(i_version) <= v.
Proof.
  intros Hl Hx. destruct l as [|item rest]; [by apply elem_of_nil in Hx|].
  destruct (purge_scan_spec v 0 item rest x Hl Hx) as (Hin & y & Hy & ?). split; [done|].
  exists y. split; [by right|done].
Qed.

Definition delete_all (del : list dsItem) (vals : tree byKeys) : tree byKeys :=
  foldl (fun tr i => bt_Delete i tr) vals del.

Lemma items_delete_all del vals y :
  (forall x, x ∈ del -> x ∈ items vals) ->
  y ∈ items (delete_all del vals) <-> y ∈ items vals /\ y ∉ del.
Proof.
  unfold delete_all. induction del as [|x del IH] using rev_ind; intros Hdel; [cbn; set_solver|].
  rewrite foldl_app. cbn. rewrite items_Delete, IH by set_solver.
  rewrite not_elem_of_app, list_elem_of_singleton. split.
  - intros [[Hy Hn] E]. split; [done|]. split; [done|]. intros ->. by rewrite equiv_refl in E.
  - intros (Hy & Hn & Hne). split; [done|]. apply Bool.not_true_iff_false. intros E.
    apply Hne. symmetry. apply (ascending_unique (less := byKeys) (items vals)); [apply items_asc|set_solver|done..].
Qed.

(** A pass keeps what is stored at [v] and at later versions. *)
Lemma purge_pass_at v vals k u :
  v <= u ->
  at_version (items (delete_all (purge_pass v (items vals)) vals)) k u = at_version (items vals) k u.
Proof.
  intros Hu. set (del := purge_pass v (items vals)).
  assert (forall x, x ∈ del -> x ∈ items vals /\ exists y, y ∈ items vals /\ i_key y = i_key x /\
    i_version x < i_version y <= v) as Hdel by (intros x; apply purge_pass_spec, items_asc).
  assert (forall y, y ∈ items (delete_all del vals) <-> y ∈ items vals /\ y ∉ del) as Hmem
    by (intros y; apply items_delete_all; intros x Hx; by apply Hdel).
  apply (is_at_unique (items (delete_all del vals)) k u); [apply items_asc|apply at_version_is_at, items_asc|].
  pose proof (at_version_is_at (items vals) k u (items_asc vals)) as Ha.
  destruct (at_version (items vals) k u) as [x|]; cbn in *.
  - destruct Ha as (Hx & Hk & Hv & Hmax). split; [|split; [done|split; [done|]]].
    + apply Hmem. split; [done|]. intros (_ & y & Hy & Hky & Hlt)%Hdel.
      pose proof (Hmax y Hy ltac:(congruence) ltac:(lia)). lia.
    + intros y [Hy _]%Hmem. by apply Hmax.
  - intros y [Hy _]%Hmem. by apply Ha.
Qed.

Lemma delete_all_length del vals :
  (forall x, x ∈ del -> x ∈ items vals) -> del <> [] ->
  (length (items (delete_all del vals)) < length (items vals))%nat.
Proof.
  intros Hdel Hne. destruct del as [|x del]; [done|].
  assert (x ∈ items vals) as Hx by (apply Hdel; left).
  assert (NoDup (x :: items (delete_all (x :: del) vals))) as Hnd.
  { constructor; [|apply items_NoDup]. rewrite items_delete_all by done. set_solver. }
  apply (submseteq_length (x :: items (delete_all (x :: del) vals))).
  apply NoDup_submseteq; [done|]. intros y [->|Hy]%elem_of_cons; [done|].
  by apply items_delete_all in Hy as [? _].
Qed.

Lemma purge_loop_ok fuel v vals :
  (length (items vals) < fuel)%nat ->
  exists vals', purge_loop fuel v vals = Some vals' /\
    forall k u, v <= u -> at_version (items vals') k u = at_version (items vals) k u.
Proof.
  revert vals. induction fuel as [|fuel IH]; intros vals Hlen; [lia|]. cbn [purge_loop].
  destruct (purge_pass v (items vals)) as [|x del] eqn:E; [by exists vals|].
  assert (forall y, y ∈ x :: del -> y ∈ items vals) as Hdel.
  { intros y Hy. rewrite <- E in Hy. by apply (purge_pass_spec v (items vals) y (items_asc vals) Hy). }
  destruct (IH (delete_all (x :: del) vals)) as (vals' & Hl & Hat).
  { pose proof (delete_all_length (x :: del) vals Hdel ltac:(done)). lia. }
  exists vals'. split; [done|]. intros k u Hu. rewrite Hat by done. rewrite <- E. by apply purge_pass_at.
Qed.

(** *** Steps of the store *)

(** The atomic steps of the clients of a store and of the store itself; the string of
    a [ds.Key] is never empty. *)
Inductive step : memDS -> memDS -> Prop :=
  | step_new now readOnly d : step d (NewTransaction now readOnly d).1
  | step_get id k d : k <> "" -> step d (txn_Get id k d).1
  | step_size id k d : k <> "" -> step d (txn_GetSize id k d).1
  | step_has id k d : k <> "" -> step d (txn_Has id k d).1
  | step_put id k v d : k <> "" -> step d (txn_Put id k v d).1
  | step_delete id k d : k <> "" -> step d (txn_Delete id k d).1
  | step_discard now id d : step d (txn_Discard now id d).1
  | step_commit now id d : step d (txn_Commit now id d).1
  | step_batch (b : gmap string batch_op) d : b !! "" = None -> step d (batch_Commit b d)
  | step_ds_put now k v d : k <> "" -> step d (ds_put now k v d).1
  | step_ds_delete now k d : k <> "" -> step d (ds_delete now k d).1
  | step_purge d d' : executePurge d = Some d' -> step d d'
  | step_close d : step d (Close d).1.

(** The store at [v] and before is the same. *)
Definition keeps (v : Z) (d d' : memDS) : Prop :=
  version d <= version d' /\
  forall k u, v <= u <= version d -> at_version (items d'.(values)) k u = at_version (items d.(values)) k u.

Lemma keeps_refl v d : keeps v d d.
Proof. split; [lia|done]. Qed.

Lemma keeps_same v d d' : version d' = version d -> values d' = values d -> keeps v d d'.
Proof. intros E1 E2. split; [lia|]. intros k u _. by rewrite E2. Qed.

Lemma keeps_trans v d1 d2 d3 : keeps v d1 d2 -> keeps v d2 d3 -> keeps v d1 d3.
Proof. intros [L1 K1] [L2 K2]. split; [lia|]. intros k u Hu. rewrite K2, K1; [done|lia..]. Qed.

Definition room (d : memDS) : Prop := 0 <= version d < 2 ^ 64 - 1.

Lemma nextVersion_room d : room d -> version (nextVersion d) = version d + 1.
Proof. intros Hr. unfold room in Hr. cbn. apply u64_small. unfold is_u64. lia. Qed.

Lemma keeps_commit v d t : room d -> keeps v d (commit d t).1.
Proof.
  intros Hr. unfold commit. destruct (checkForConflicts d t); [|apply keeps_refl..].
  pose proof (nextVersion_room d Hr) as E. cbn [fst set_values values version] in *.
  split; [cbn in *; lia|]. intros k u Hu. cbn [set_values values]. rewrite apply_ops_at; [done|].
  cbn in *. lia.
Qed.

(** Steps that change neither the version nor the values. *)
Definition same_store (d d' : memDS) : Prop := version d' = version d /\ values d' = values d.

Lemma same_keeps v d d' : same_store d d' -> keeps v d d'.
Proof. intros [E1 E2]. by apply keeps_same. Qed.

Lemma same_txn_run {A} id (f : memDS -> basicTxn -> memDS * result A) d :
  (forall t, same_store d (f d t).1) -> same_store d (txn_run id f d).1.
Proof. intros Hf. unfold txn_run. destruct (heap d !! id); [apply Hf|done]. Qed.

Ltac same_txn :=
  apply same_txn_run; intros t; cbv beta;
  repeat (match goal with |- context [if ?b then _ else _] => destruct b end; try done);
  try (match goal with |- context [txn_get ?d ?t ?k] => destruct (txn_get d t k) end; done).

Lemma same_Get id k d : same_store d (txn_Get id k d).1.
Proof. same_txn. Qed.
Lemma same_GetSize id k d : same_store d (txn_GetSize id k d).1.
Proof. same_txn. Qed.
Lemma same_Has id k d : same_store d (txn_Has id k d).1.
Proof. same_txn. Qed.
Lemma same_Put id k v d : same_store d (txn_Put id k v d).1.
Proof. same_txn. Qed.
Lemma same_Delete id k d : same_store d (txn_Delete id k d).1.
Proof.
  same_txn. destruct (txn_get d t k) as [item t']. by destruct (absent item).
Qed.
Lemma same_Discard now id d : same_store d (txn_Discard now id d).1.
Proof. same_txn. Qed.

Lemma keeps_txn_Commit v now id d : room d -> keeps v d (txn_Commit now id d).1.
Proof.
  intros Hr. unfold txn_Commit, txn_run. destruct (heap d !! id) as [t|]; [|apply keeps_refl].
  destruct (t_closed t); [apply keeps_refl|]. destruct (t_discarded t); [apply keeps_refl|].
  destruct (if t_readOnly t then _ else _) as [d1 r] eqn:E. cbn [fst].
  apply (keeps_trans v d d1); [|apply same_keeps, same_Discard].
  destruct (t_readOnly t); [injection E as <- <-; apply keeps_refl|].
  pose proof (keeps_commit v d t Hr) as Hk. by rewrite E in Hk.
Qed.

(** The writes of the store: a transaction of one operation. *)
Lemma keeps_single v now (op : nat -> M memDS unit) d :
  (forall id d, same_store d (op id d).1) -> room d ->
  keeps v d ((let* tx := newTransaction now false in let* _ := mtry (op tx) in txn_Commit now tx) d).1.
Proof.
  intros Hop Hr. unfold mbind, mtry. destruct (newTransaction now false d) as [d1 r1] eqn:E1.
  assert (same_store d d1) as Hs1 by (unfold newTransaction in E1; injection E1 as <- _; done).
  unfold newTransaction in E1. injection E1 as _ <-.
  set (id := fresh (dom (heap d))) in *.
  destruct (op id d1) as [d2 r2] eqn:E2.
  assert (same_store d1 d2) as Hs2 by (specialize (Hop id d1); by rewrite E2 in Hop).
  assert (room d2) as Hr2.
  { unfold room in *. destruct Hs1 as [V1 _], Hs2 as [V2 _]. congruence. }
  apply (keeps_trans v d d1); [by apply same_keeps|]. apply (keeps_trans v d1 d2); [by apply same_keeps|].
  destruct r2; [by apply keeps_txn_Commit..|apply keeps_refl].
Qed.

Lemma keeps_batch v b d : room d -> keeps v d (batch_Commit b d).
Proof.
  intros Hr. pose proof (nextVersion_room d Hr) as E. unfold batch_Commit.
  split; [cbn in *; lia|]. intros k u Hu. cbn [set_values values].
  apply at_version_ext; [apply items_asc..|]. intros y _ Hy.
  assert (forall l (vals : tree byKeys), y ∈ items (foldl (fun vals e => bt_Set (batch_item (version (nextVersion d)) e) vals) vals l) <->
    y ∈ items vals) as Hl.
  { induction l as [|e l IH]; intros vals; [done|]. cbn [foldl]. rewrite IH. apply items_Set_older.
    unfold batch_item. rewrite E. destruct e.2; cbn; lia. }
  apply Hl.
Qed.

Lemma same_Close d : same_store d (Close d).1.
Proof.
  unfold Close. destruct (closed d); [done|]. cbn [fst].
  assert (forall l d0, same_store d0 (foldl close_txn d0 l)) as Hl.
  { induction l as [|i l IH]; intros d0; [done|]. cbn [foldl]. destruct (IH (close_txn d0 i)) as [E1 E2].
    unfold same_store. rewrite E1, E2. unfold close_txn. by destruct (heap d0 !! _). }
  destruct (Hl (items (inFlightTxn d)) (mkDS (version d) (values d) (inFlightTxn d) true (heap d))) as [E1 E2].
  split; [by rewrite E1|by rewrite E2].
Qed.

(** A version that is in flight is not purged. *)
Lemma purge_version_le d v :
  (exists i, i ∈ items (inFlightTxn d) /\ d_dsVersion i = v) -> purge_version d <= v.
Proof.
  intros (i & Hi & <-). unfold purge_version, Min.
  pose proof (items_ascending (inFlightTxn d)) as Hs. destruct (items (inFlightTxn d)) as [|m l]; [by apply elem_of_nil in Hi|].
  cbn. apply elem_of_cons in Hi as [->|Hi]; [lia|].
  apply StronglySorted_inv in Hs as [_ Hs]. rewrite Forall_forall in Hs. specialize (Hs i Hi).
  unfold byDSVersion in Hs. destruct (Z.ltb_spec (d_dsVersion m) (d_dsVersion i)); [lia|].
  destruct (Z.eqb_spec (d_dsVersion m) (d_dsVersion i)); [lia|done].
Qed.

Lemma executePurge_ok d :
  exists d', executePurge d = Some d' /\ version d' = version d /\
    forall k u, purge_version d <= u ->
      at_version (items d'.(values)) k u = at_version (items d.(values)) k u.
Proof.
  unfold executePurge.
  destruct (purge_loop_ok (Datatypes.S (length (items (values d)))) (purge_version d) (values d)) as (vals & -> & Hat);
    [lia|]. by exists (set_values d vals).
Qed.

Lemma keeps_step v d d' :
  step d d' -> room d ->
  (executePurge d = Some d' -> exists i, i ∈ items (inFlightTxn d) /\ d_dsVersion i = v) ->
  keeps v d d'.
Proof.
  intros Hs Hr Hp.
  destruct Hs; auto using same_keeps, same_Get, same_GetSize, same_Has, same_Put, same_Delete, same_Discard,
    same_Close, keeps_txn_Commit, keeps_batch.
  - unfold NewTransaction. destruct (closed d); by apply keeps_same.
  - unfold ds_put. destruct (closed d); [apply keeps_refl|]. apply keeps_single; auto using same_Put.
  - unfold ds_delete. destruct (closed d); [apply keeps_refl|]. apply keeps_single; auto using same_Delete.
  - destruct (executePurge_ok d) as (d1 & E & HV & Hat). assert (d1 = d') as -> by congruence.
    pose proof (purge_version_le d v (Hp ltac:(assumption))). split; [lia|]. intros k u Hu. apply Hat. lia.
Qed.

(** *** Transactions *)

Definition item_value (o : option dsItem) : option bytes :=
  match o with Some x => if x.(i_isDeleted) then None else Some x.(i_val) | None => None end.

(** The contents of the store at a version. *)
Definition snapshot (d : memDS) (v : Z) (k : string) : option bytes :=
  item_value (at_version (items d.(values)) k v).

(** What a transaction sees: its own writes over its snapshot. *)
Definition txn_view (d : memDS) (t : basicTxn) (k : string) : option bytes :=
  match write_of (items t.(t_ops)) k with
  | Some o => item_value (Some o)
  | None => snapshot d t.(t_dsVersion) k
  end.

Definition as_get (x : dsItem) : dsItem :=
  mkItem x.(i_key) x.(i_version) x.(i_val) x.(i_isDeleted) true.

(** Writes carry the version of the transaction; reads are items of its snapshot,
    or the zero item for a key that is absent from it. *)
Record txn_wf (d : memDS) (t : basicTxn) : Prop := {
  tw_version : 0 <= t.(t_dsVersion) <= version d;
  tw_write : forall o, o ∈ items t.(t_ops) -> o.(i_isGet) = false ->
    o.(i_key) <> "" /\ o.(i_version) = t.(t_dsVersion) + 1;
  tw_read : forall o, o ∈ items t.(t_ops) -> o.(i_isGet) = true -> o.(i_key) <> "" ->
    exists x, at_version (items d.(values)) o.(i_key) t.(t_dsVersion) = Some x /\ o = as_get x;
}.

Record ds_wf (d : memDS) : Prop := {
  dw_room : room d;
  dw_values : forall x, x ∈ items d.(values) ->
    0 < x.(i_version) <= version d /\ x.(i_key) <> "" /\ x.(i_isGet) = false;
}.

Lemma txnVersion_room d t : room d -> txn_wf d t -> getTxnVersion t = t.(t_dsVersion) + 1.
Proof. intros Hr [Hv _ _]. unfold room in Hr. apply u64_small. unfold is_u64. lia. Qed.

Lemma txn_writes_unique d t : txn_wf d t -> writes_unique (items t.(t_ops)).
Proof.
  intros Ht o o' Ho Ho' Hg Hg' Hk. apply (ascending_unique (less := byKeys) (items (t_ops t))); [apply items_asc|done..|].
  apply equiv_byKeys. split; [done|].
  destruct (tw_write _ _ Ht o Ho Hg) as [_ ->], (tw_write _ _ Ht o' Ho' Hg') as [_ ->]. done.
Qed.

(** The last operation on a key is its write, else the item read. *)
Lemma txn_ops_at d t k :
  txn_wf d t -> k <> "" ->
  at_version (items t.(t_ops)) k (t.(t_dsVersion) + 1) = write_of (items t.(t_ops)) k \/
  (write_of (items t.(t_ops)) k = None /\
   exists x, at_version (items t.(t_ops)) k (t.(t_dsVersion) + 1) = Some (as_get x) /\
     at_version (items d.(values)) k t.(t_dsVersion) = Some x).
Proof.
  intros Ht Hk. pose proof (at_version_is_at (items (t_ops t)) k (t_dsVersion t + 1) (items_asc _)) as Ha.
  destruct (write_of (items (t_ops t)) k) as [o|] eqn:Hw.
  - left. apply write_of_Some in Hw as (Ho & Hg & Hko).
    destruct (tw_write _ _ Ht o Ho Hg) as [_ Hv].
    apply (is_at_unique (items (t_ops t)) k (t_dsVersion t + 1)); [apply items_asc|done|].
    cbn. split; [done|]. split; [done|]. split; [lia|]. intros y _ _ ?. lia.
  - destruct (at_version (items (t_ops t)) k (t_dsVersion t + 1)) as [o|] eqn:E; [|by left].
    right. split; [done|]. destruct Ha as (Ho & Hko & _ & _).
    destruct (i_isGet o) eqn:Hg.
    + destruct (tw_read _ _ Ht o Ho Hg) as (x & Hx & ->); [congruence|]. exists x.
      split; [done|]. cbn in Hko. by rewrite <- Hko.
    + exfalso. by apply (write_of_None _ k o Hw Ho Hg).
Qed.

Lemma at_version_key l k v x : ascending byKeys l -> at_version l k v = Some x -> x.(i_key) = k /\ x ∈ l /\ x.(i_version) <= v.
Proof. intros Hl E. pose proof (at_version_is_at l k v Hl) as Ha. rewrite E in Ha. cbn in Ha. tauto. Qed.

Lemma write_of_ext l l' k :
  writes_unique l -> (forall o, o.(i_isGet) = false -> o ∈ l <-> o ∈ l') -> write_of l k = write_of l' k.
Proof.
  intros Hu Heq. destruct (write_of l k) as [o|] eqn:E, (write_of l' k) as [o'|] eqn:E'; [| | |done].
  - apply write_of_Some in E as (Ho & Hg & Hk), E' as (Ho' & Hg' & Hk'). f_equal.
    apply Hu; [done|by apply Heq|done|done|congruence].
  - apply write_of_Some in E as (Ho & Hg & Hk). exfalso.
    by apply (write_of_None l' k o E'); [apply Heq| |].
  - apply write_of_Some in E' as (Ho & Hg & Hk). exfalso.
    by apply (write_of_None l k o' E); [apply Heq| |].
Qed.

(** Recording a read keeps the writes, and the reads of other keys. *)
Lemma items_Set_read d t r y :
  txn_wf d t -> r.(i_version) <= t.(t_dsVersion) -> (y.(i_isGet) = false \/ y.(i_key) <> r.(i_key)) ->
  y ∈ items t.(t_ops) -> y ∈ items (bt_Set r t.(t_ops)).
Proof.
  intros Ht Hr Hy Hin. apply items_Set. right. split; [done|]. apply Bool.not_true_iff_false.
  rewrite equiv_byKeys. intros [Ek Ev]. destruct Hy as [Hg|Hne]; [|congruence].
  destruct (tw_write _ _ Ht y Hin Hg) as [_ ?]. lia.
Qed.

Lemma txn_wf_read d t k :
  ds_wf d -> txn_wf d t ->
  txn_wf d (set_ops t (bt_Set (as_get (get d k t.(t_dsVersion))) t.(t_ops))).
Proof.
  intros Hd Ht. split; cbn [set_ops t_ops t_dsVersion]; [apply Ht| |].
  - intros o [->|[Ho _]]%items_Set Hg; [done|]. by apply (tw_write _ _ Ht).
  - intros o [->|[Ho _]]%items_Set Hg Hne; [|by apply (tw_read _ _ Ht)].
    rewrite get_at in *. destruct (at_version (items (values d)) k (t_dsVersion t)) as [x|] eqn:E; cbn in *; [|done].
    destruct (at_version_key _ _ _ _ (items_asc _) E) as (-> & _). by exists x.
Qed.

Lemma get_version_le d t k :
  txn_wf d t -> (as_get (get d k t.(t_dsVersion))).(i_version) <= t.(t_dsVersion).
Proof.
  intros Ht. rewrite get_at. destruct (at_version _ _ _) as [x|] eqn:E; cbn.
  - apply at_version_key in E as (_ & _ & ?); [done|apply items_asc].
  - apply (tw_version _ _ Ht).
Qed.

(** The two cases of a read: from the operations, or from the snapshot. *)
Lemma txn_get_cases d t k :
  ds_wf d -> txn_wf d t -> k <> "" ->
  (exists o, o ∈ items t.(t_ops) /\ o.(i_key) = k /\ txn_get d t k = (o, t) /\
     item_value (Some o) = txn_view d t k) \/
  (write_of (items t.(t_ops)) k = None /\
   txn_get d t k = (as_get (get d k t.(t_dsVersion)),
                    set_ops t (bt_Set (as_get (get d k t.(t_dsVersion))) t.(t_ops)))).
Proof.
  intros Hd Ht Hk. unfold txn_get. rewrite (txnVersion_room d t (dw_room _ Hd) Ht).
  pose proof (txn_ops_at d t k Ht Hk) as Hat. unfold txn_view.
  assert (match Descend byKeys (mkItem k (t_dsVersion t + 1) "" false false) (items (t_ops t)) with
    | Some item => if String.eqb k (i_key item) then item else zeroItem | None => zeroItem end =
    default zeroItem (at_version (items (t_ops t)) k (t_dsVersion t + 1))) as ->.
  { unfold at_version. destruct (Descend _ _ _) as [x|]; [|done]. by destruct (String.eqb k _). }
  destruct (at_version (items (t_ops t)) k (t_dsVersion t + 1)) as [o|] eqn:E; cbn [default from_option].
  - left. destruct (at_version_key _ _ _ _ (items_asc _) E) as (Hko & Ho & _). exists o.
    unfold id. destruct (String.eqb_spec (i_key o) "") as [|_]; [congruence|].
    split; [done|]. split; [done|]. split; [done|].
    destruct Hat as [<-|(-> & x & [= ->] & Hx)]; [done|]. unfold snapshot. by rewrite Hx.
  - right. destruct Hat as [<-|(_ & x & [=] & _)]. done.
Qed.

Lemma absent_value o : o.(i_key) <> "" -> (if absent o then None else Some o.(i_val)) = item_value (Some o).
Proof. intros Hk. unfold absent. cbn. by destruct (String.eqb_spec (i_key o) ""). Qed.

(** What a read of a transaction does: it returns what the transaction sees and keeps
    its writes; the item of a key present in the snapshot is recorded. *)
Record reads (d : memDS) (t : basicTxn) (k : string) (r : dsItem) (t' : basicTxn) : Prop := {
  rd_value : (if absent r then None else Some r.(i_val)) = txn_view d t k;
  rd_meta : t' = set_ops t t'.(t_ops);
  rd_wf : txn_wf d t';
  rd_writes : forall k', write_of (items t'.(t_ops)) k' = write_of (items t.(t_ops)) k';
  rd_keep : forall o, o ∈ items t.(t_ops) -> o.(i_isGet) = false \/ o.(i_key) <> "" ->
    exists o', o' ∈ items t'.(t_ops) /\ o'.(i_key) = o.(i_key);
  rd_record : is_Some (at_version (items d.(values)) k t.(t_dsVersion)) ->
    exists o, o ∈ items t'.(t_ops) /\ o.(i_key) = k;
}.

Lemma txn_get_spec d t k :
  ds_wf d -> txn_wf d t -> k <> "" -> reads d t k (txn_get d t k).1 (txn_get d t k).2.
Proof.
  intros Hd Ht Hk. destruct (txn_get_cases d t k Hd Ht Hk) as [(o & Ho & Hko & -> & Hv)|[Hw ->]]; cbn [fst snd].
  - split; try done; [|by destruct t|eauto..]. rewrite absent_value; congruence.
  - set (r := as_get (get d k (t_dsVersion t))).
    assert (i_version r <= t_dsVersion t) as Hr by by apply get_version_le.
    split.
    + unfold txn_view. rewrite Hw. unfold r, snapshot. rewrite get_at.
      destruct (at_version _ k _) as [x|] eqn:E; cbn [default from_option]; [|done].
      apply at_version_key in E as (Hkx & _); [|apply items_asc]. unfold id.
      rewrite absent_value; [done|]. cbn. congruence.
    + done.
    + by apply txn_wf_read.
    + intros k'. cbn [set_ops t_ops]. symmetry. apply write_of_ext; [by eapply txn_writes_unique|].
      intros o Hg. split; [apply (items_Set_read d t); auto|].
      intros [->|[? _]]%items_Set; [done|done].
    + intros o Ho _. cbn [set_ops t_ops]. destruct (decide (i_key o = i_key r)) as [E|Hne].
      * exists r. split; [apply items_Set; by left|done].
      * exists o. split; [|done]. apply (items_Set_read d t); auto.
    + intros [x Hx]. exists r. cbn [set_ops t_ops]. split; [apply items_Set; by left|].
      unfold r. rewrite get_at, Hx. cbn. by apply at_version_key in Hx as (-> & _); [|apply items_asc].
Qed.

(** *** Commits *)

Lemma at_version_version d k u u' :
  ds_wf d -> (get d k u).(i_version) = (get d k u').(i_version) ->
  at_version (items d.(values)) k u = at_version (items d.(values)) k u'.
Proof.
  intros Hd. rewrite !get_at.
  destruct (at_version _ k u) as [x|] eqn:E, (at_version _ k u') as [y|] eqn:E'; cbn; unfold id; intros Hv.
  - destruct (at_version_key _ _ _ _ (items_asc _) E) as (Hkx & Hx & _).
    destruct (at_version_key _ _ _ _ (items_asc _) E') as (Hky & Hy & _).
    f_equal. apply (ascending_unique (less := byKeys) (items (values d))); [apply items_asc|done..|].
    apply equiv_byKeys. split; congruence.
  - destruct (at_version_key _ _ _ _ (items_asc _) E) as (_ & Hx & _).
    destruct (dw_values _ Hd x Hx). lia.
  - destruct (at_version_key _ _ _ _ (items_asc _) E') as (_ & Hy & _).
    destruct (dw_values _ Hd y Hy). lia.
  - done.
Qed.

(** The keys of the operations, reads of absent keys apart, are clean. *)
Definition ops_clean (t : basicTxn) : Prop :=
  forall o, o ∈ items t.(t_ops) -> o.(i_key) <> "" -> clean_key o.(i_key) = true.

Definition unchanged (d : memDS) (t : basicTxn) (k : string) : Prop :=
  at_version (items d.(values)) k (version d) = at_version (items d.(values)) k t.(t_dsVersion).

Lemma checkForConflicts_ok d t :
  ds_wf d -> ops_clean t -> checkForConflicts d t = Ok tt ->
  forall o, o ∈ items t.(t_ops) -> o.(i_key) <> "" -> unchanged d t o.(i_key).
Proof.
  intros Hd Hc Hok o Ho Hk. unfold checkForConflicts in Hok. unfold unchanged.
  destruct (Z.eqb_spec (t_dsVersion t) (version d)) as [->|_]; [done|].
  destruct (existsb _ _) eqn:E; [done|]. apply at_version_version; [done|].
  rewrite <- Bool.not_true_iff_false, existsb_exists in E.
  destruct (Z.eq_dec (i_version (get d (i_key o) (version d))) (i_version (get d (i_key o) (t_dsVersion t))))
    as [|Hne]; [done|]. exfalso. apply E. exists o. split; [by apply list_elem_of_In|].
  rewrite NewKey_clean by by apply Hc. by apply Bool.negb_true_iff, Z.eqb_neq.
Qed.

Lemma checkForConflicts_err d t :
  (exists e, checkForConflicts d t = Err e) \/ checkForConflicts d t = Panic ->
  checkForConflicts d t = Err ErrTxnConflict /\ t.(t_dsVersion) <> version d /\
  exists o, o ∈ items t.(t_ops) /\ ~ unchanged d t (NewKey o.(i_key)).
Proof.
  unfold checkForConflicts. destruct (Z.eqb_spec (t_dsVersion t) (version d)) as [|Hne]; [by intros [[]|]|].
  destruct (existsb _ _) eqn:E; [|by intros [[]|]]. intros _. split; [done|]. split; [done|].
  apply existsb_exists in E as (o & Ho & Hv). exists o. split; [by apply list_elem_of_In|].
  intros Hu. apply Bool.negb_true_iff, Z.eqb_neq in Hv. apply Hv. rewrite !get_at.
  unfold unchanged in Hu. by rewrite Hu.
Qed.

Lemma commit_values d t :
  ds_wf d -> txn_wf d t -> checkForConflicts d t = Ok tt ->
  let d' := (commit d t).1 in
  (commit d t).2 = Ok tt /\ version d' = version d + 1 /\
  (forall x, x ∈ items d'.(values) -> 0 < x.(i_version) <= version d' /\ x.(i_key) <> "" /\ x.(i_isGet) = false) /\
  forall k, snapshot d' (version d') k =
    match write_of (items t.(t_ops)) k with
    | Some o => item_value (Some o)
    | None => snapshot d (version d) k
    end.
Proof.
  intros Hd Ht Hok. unfold commit. rewrite Hok. cbn [fst snd].
  pose proof (nextVersion_room d (dw_room _ Hd)) as Hv.
  assert (forall x, x ∈ items (values d) -> i_version x < version (nextVersion d)) as Hold.
  { intros x Hx. destruct (dw_values _ Hd x Hx). lia. }
  split; [done|]. split; [done|]. split.
  - intros x. cbn [set_values values version].
    rewrite apply_ops_new by (try done; by eapply txn_writes_unique).
    pose proof (dw_room _ Hd) as Hr. unfold room in Hr. cbn [nextVersion set_version values] in *.
    intros [Hx|(o & Ho & Hg & ->)].
    + destruct (dw_values _ Hd x Hx) as (? & ? & ?). split; [|done]. cbn in *. lia.
    + cbn in *. destruct (tw_write _ _ Ht o Ho Hg). split; [lia|done].
  - intros k. unfold snapshot. cbn [set_values values version].
    rewrite apply_ops_latest by (try done; by eapply txn_writes_unique).
    destruct (write_of (items (t_ops t)) k) as [o|]; [done|]. f_equal.
    apply at_version_top; [apply items_asc| |lia]. intros x Hx. by apply (dw_values _ Hd).
Qed.

(** *** Queries *)

Lemma lastVersions_spec item rest x :
  ascending byKeys (item :: rest) ->
  x ∈ lastVersions item rest <->
    x ∈ item :: rest /\ forall y, y ∈ item :: rest -> y.(i_key) = x.(i_key) -> y.(i_version) <= x.(i_version).
Proof.
  revert item. induction rest as [|next rest IH]; intros item Hs; cbn [lastVersions].
  { rewrite !list_elem_of_singleton. split; [intros ->|by intros [-> _]].
    split; [done|]. intros y ->%list_elem_of_singleton _. lia. }
  apply StronglySorted_inv in Hs as [Hs Hall]. rewrite Forall_forall in Hall.
  destruct (String.eqb_spec (i_key item) (i_key next)) as [E|E].
  - rewrite (IH next Hs). assert (i_version item < i_version next) as Hlt.
    { specialize (Hall next ltac:(left)). apply byKeys_true in Hall as [Hlt|[_ ?]]; [|done].
      rewrite E in Hlt. by apply str_lt_irrefl in Hlt. }
    split.
    + intros [Hx Hmax]. split; [by right|]. intros y [->|Hy]%elem_of_cons Hk; [|by apply Hmax].
      specialize (Hmax next ltac:(left) ltac:(congruence)). lia.
    + intros [[->|Hx]%elem_of_cons Hmax].
      * specialize (Hmax next ltac:(set_solver) ltac:(congruence)). lia.
      * split; [done|]. intros y Hy. apply Hmax. by right.
  - rewrite elem_of_cons, (IH next Hs).
    assert (forall y, y ∈ next :: rest -> i_key y <> i_key item) as Hne.
    { intros y Hy Ek. apply E. specialize (Hall y Hy) as Hyi. specialize (Hall next ltac:(left)).
      apply byKeys_true in Hall as [Hlt|[? _]]; [|done]. exfalso.
      apply elem_of_cons in Hy as [->|Hy]; [by apply E|].
      apply StronglySorted_inv in Hs as [_ Hs]. rewrite Forall_forall in Hs. specialize (Hs y Hy).
      apply byKeys_true in Hs as [Hlt'|[Ek' _]]; [|congruence].
      rewrite Ek in Hlt'. by eapply str_lt_irrefl, str_lt_trans. }
    split.
    + intros [->|[Hx Hmax]].
      * split; [left|]. intros y [->|Hy]%elem_of_cons Hk; [lia|]. by apply Hne in Hy.
      * split; [by right|]. intros y [->|Hy]%elem_of_cons Hk; [by apply Hne in Hx|by apply Hmax].
    + intros [[->|Hx]%elem_of_cons Hmax]; [by left|right]. split; [done|]. intros y Hy. apply Hmax. by right.
Qed.

Lemma ds_entries_spec d k v :
  ds_wf d -> (k, v) ∈ ds_entries d <-> snapshot d (version d) k = Some v.
Proof.
  intros Hd. unfold ds_entries, snapshot. rewrite list_elem_of_fmap.
  assert (forall x, x ∈ latest_items (items (values d)) <->
    at_version (items (values d)) (i_key x) (version d) = Some x) as Hl.
  { intros x. pose proof (items_asc (values d)) as Hs.
    assert (x ∈ latest_items (items (values d)) <-> x ∈ items (values d) /\
      forall y, y ∈ items (values d) -> i_key y = i_key x -> i_version y <= i_version x) as ->.
    { unfold latest_items. destruct (items (values d)) as [|i l]; [set_solver|]. by apply lastVersions_spec. }
    split.
    - intros [Hx Hmax]. apply (is_at_unique (items (values d)) (i_key x) (version d)); [done|by apply at_version_is_at|].
      cbn. split; [done|]. split; [done|]. split; [by apply (dw_values _ Hd)|]. auto.
    - intros E. pose proof (at_version_is_at (items (values d)) (i_key x) (version d) Hs) as Ha.
      rewrite E in Ha. destruct Ha as (Hx & _ & _ & Hmax). split; [done|]. intros y Hy Hk.
      apply Hmax; [done..|]. by apply (dw_values _ Hd). }
  split.
  - intros (x & [= -> ->] & Hin). apply list_elem_of_In, filter_In in Hin as [Hin Hdel].
    apply list_elem_of_In, Hl in Hin. rewrite Hin. cbn. by destruct (i_isDeleted x).
  - intros Hv. destruct (at_version (items (values d)) k (version d)) as [x|] eqn:E; [|done].
    destruct (at_version_key _ _ _ _ (items_asc _) E) as (Hk & _). cbn in Hv.
    destruct (i_isDeleted x) eqn:Hdel; [done|]. injection Hv as <-. exists x. split; [by rewrite <- Hk|].
    apply list_elem_of_In, filter_In. split; [|by rewrite Hdel]. apply list_elem_of_In, Hl. by rewrite Hk.
Qed.

(** *** The store as a map *)

Definition new_txn (d : memDS) : basicTxn := mkTxn (bt_New byKeys) (version d) false false false.

Lemma new_txn_wf d : ds_wf d -> txn_wf d (new_txn d).
Proof.
  intros Hd. pose proof (dw_room _ Hd) as Hr. unfold room in Hr.
  split; cbn; [lia|..]; intros o Ho; rewrite items_New in Ho; by apply elem_of_nil in Ho.
Qed.

(** A transaction that starts and commits without another commit in between has no
    conflict; its commit installs its writes. *)
Lemma commit_alone now id d t :
  ds_wf d -> heap d !! id = Some t -> txn_wf d t -> t.(t_dsVersion) = version d ->
  t.(t_closed) = false -> t.(t_discarded) = false -> t.(t_readOnly) = false ->
  exists d', txn_Commit now id d = (d', Ok tt) /\ version d' = version d + 1 /\ closed d' = closed d /\
    (forall x, x ∈ items d'.(values) -> 0 < x.(i_version) <= version d' /\ x.(i_key) <> "" /\ x.(i_isGet) = false) /\
    forall k, snapshot d' (version d') k =
      match write_of (items t.(t_ops)) k with
      | Some o => item_value (Some o)
      | None => snapshot d (version d) k
      end.
Proof.
  intros Hd Hid Ht Hv Hc Hdisc Hro.
  assert (checkForConflicts d t = Ok tt) as Hok by (unfold checkForConflicts; by rewrite Hv, Z.eqb_refl).
  destruct (commit_values d t Hd Ht Hok) as (Hr & Hver & Hvals & Hsnap).
  unfold txn_Commit, txn_run. rewrite Hid, Hc, Hdisc, Hro.
  assert (closed (commit d t).1 = closed d) as Hcl by (unfold commit; by rewrite Hok).
  destruct (commit d t) as [d1 r]. cbn [fst snd] in *. subst r.
  destruct (same_Discard now id d1) as [E1 E2].
  exists (txn_Discard now id d1).1. split; [done|]. rewrite E1, E2. split; [done|].
  split; [|split; [done|intros k; unfold snapshot in *; by rewrite E2]].
  rewrite <- Hcl. unfold txn_Discard, txn_run. destruct (heap d1 !! id) as [t1|]; [|done]. by destruct (t_discarded t1).
Qed.

(** A write of a transaction. *)
Lemma txn_wf_write d t o :
  txn_wf d t -> o.(i_isGet) = false -> o.(i_key) <> "" -> o.(i_version) = t.(t_dsVersion) + 1 ->
  txn_wf d (set_ops t (bt_Set o t.(t_ops))).
Proof.
  intros Ht Hg Hk Hv. split; cbn; [apply Ht| |].
  - intros y [->|[Hy _]]%items_Set ?; [done|by apply (tw_write _ _ Ht)].
  - intros y [->|[Hy _]]%items_Set ? ?; [congruence|by apply (tw_read _ _ Ht)].
Qed.

Lemma write_of_Set d t o k :
  txn_wf d t -> o.(i_isGet) = false -> o.(i_key) <> "" -> o.(i_version) = t.(t_dsVersion) + 1 ->
  write_of (items (bt_Set o t.(t_ops))) k =
    if String.eqb o.(i_key) k then Some o else write_of (items t.(t_ops)) k.
Proof.
  intros Ht Hg Hk Hv.
  pose proof (txn_writes_unique d _ (txn_wf_write d t o Ht Hg Hk Hv)) as Hu. cbn [set_ops t_ops] in Hu.
  assert (forall y, y ∈ items (bt_Set o (t_ops t)) <->
    y = o \/ (y ∈ items (t_ops t) /\ equiv byKeys o y = false)) as Hmem by (intros y; apply items_Set).
  destruct (write_of (items (bt_Set o (t_ops t))) k) as [y|] eqn:E.
  - apply write_of_Some in E as (Hy & Hgy & Hky). destruct (String.eqb_spec (i_key o) k) as [Hko|Hne].
    + f_equal. apply Hu; [done|apply Hmem; by left|done..|congruence].
    + apply Hmem in Hy as [->|[Hy _]]; [done|].
      destruct (write_of (items (t_ops t)) k) as [y'|] eqn:E'.
      * apply write_of_Some in E' as (Hy' & Hgy' & Hky'). f_equal.
        apply (txn_writes_unique d t Ht); [done..|congruence].
      * exfalso. by apply (write_of_None _ k y E').
  - destruct (String.eqb_spec (i_key o) k) as [Hko|Hne].
    + exfalso. apply (write_of_None _ k o E); [apply Hmem; by left|done..].
    + destruct (write_of (items (t_ops t)) k) as [y'|] eqn:E'; [|done]. exfalso.
      apply write_of_Some in E' as (Hy' & Hgy' & Hky'). apply (write_of_None _ k y' E); [|done..].
      apply Hmem. right. split; [done|]. apply Bool.not_true_iff_false. rewrite equiv_byKeys.
      intros [? _]. congruence.
Qed.

Lemma write_of_New k : write_of (items (bt_New byKeys)) k = None.
Proof. by rewrite items_New. Qed.

(** A write of the store: a transaction of one operation [op] that turns the new
    transaction into [t]. *)
Lemma single_spec now (op : nat -> M memDS unit) d t :
  ds_wf d -> txn_wf d t -> t = set_ops (new_txn d) t.(t_ops) ->
  (forall id d1, heap d1 !! id = Some (new_txn d) -> values d1 = values d ->
    op id d1 = (put_txn d1 id t, Ok tt)) ->
  exists d', (let* tx := newTransaction now false in let* _ := mtry (op tx) in txn_Commit now tx) d = (d', Ok tt) /\
    version d' = version d + 1 /\ closed d' = closed d /\
    (forall x, x ∈ items d'.(values) -> 0 < x.(i_version) <= version d' /\ x.(i_key) <> "" /\ x.(i_isGet) = false) /\
    forall k, snapshot d' (version d') k =
      match write_of (items t.(t_ops)) k with
      | Some o => item_value (Some o)
      | None => snapshot d (version d) k
      end.
Proof.
  intros Hd Ht Et Hop. unfold mbind at 1, newTransaction. unfold mbind, mtry.
  set (id := fresh (dom (heap d))). set (d1 := set_inFlight _ _).
  rewrite (Hop id d1); [|apply lookup_insert_eq|done].
  destruct (commit_alone now id (put_txn d1 id t) t) as (d' & Hc & Hver & Hcl & Hvals & Hsnap).
  - split; apply Hd.
  - apply lookup_insert_eq.
  - split; apply Ht.
  - by rewrite Et.
  - by rewrite Et.
  - by rewrite Et.
  - by rewrite Et.
  - exists d'. split; [exact Hc|]. done.
Qed.

Lemma new_txnVersion d : ds_wf d -> getTxnVersion (new_txn d) = version d + 1.
Proof. intros Hd. exact (txnVersion_room d _ (dw_room _ Hd) (new_txn_wf d Hd)). Qed.

Lemma ds_put_spec now k v d :
  ds_wf d -> closed d = false -> k <> "" ->
  exists d', ds_put now k v d = (d', Ok tt) /\ version d' = version d + 1 /\ closed d' = false /\
    (forall x, x ∈ items d'.(values) -> 0 < x.(i_version) <= version d' /\ x.(i_key) <> "" /\ x.(i_isGet) = false) /\
    forall k', snapshot d' (version d') k' = if String.eqb k k' then Some v else snapshot d (version d) k'.
Proof.
  intros Hd Hcl Hk. unfold ds_put. rewrite Hcl.
  set (item := mkItem k (getTxnVersion (new_txn d)) v false false).
  pose proof (new_txnVersion d Hd) as Hv.
  destruct (single_spec now (fun id => txn_Put id k v) d (set_ops (new_txn d) (bt_Set item (t_ops (new_txn d)))))
    as (d' & Hc & Hver & Hcl' & Hvals & Hsnap).
  - done.
  - apply txn_wf_write; [by apply new_txn_wf|done..].
  - done.
  - intros id d1 Hid _. unfold txn_Put, txn_run. by rewrite Hid.
  - exists d'. split; [done|]. split; [done|]. split; [congruence|]. split; [done|]. intros k'.
    rewrite Hsnap. cbn [set_ops t_ops]. rewrite (write_of_Set d (new_txn d) item k' (new_txn_wf d Hd) eq_refl Hk Hv).
    unfold item. cbn [i_key]. rewrite write_of_New. by destruct (String.eqb k k').
Qed.

Lemma ds_delete_spec now k d :
  ds_wf d -> closed d = false -> k <> "" ->
  exists d', ds_delete now k d = (d', Ok tt) /\ version d' = version d + 1 /\ closed d' = false /\
    (forall x, x ∈ items d'.(values) -> 0 < x.(i_version) <= version d' /\ x.(i_key) <> "" /\ x.(i_isGet) = false) /\
    forall k', snapshot d' (version d') k' = if String.eqb k k' then None else snapshot d (version d) k'.
Proof.
  intros Hd Hcl Hk. unfold ds_delete. rewrite Hcl.
  destruct (txn_get_spec d (new_txn d) k Hd (new_txn_wf d Hd) Hk) as [Hval Hmeta Hwf Hwrites _ _].
  destruct (txn_get d (new_txn d) k) as [r t'] eqn:Eg. cbn [fst snd] in *.
  assert (getTxnVersion t' = t_dsVersion t' + 1) as Hv by (apply (txnVersion_room d); [apply Hd|done]).
  set (item := mkItem k (getTxnVersion t') "" true false).
  set (t := if absent r then t' else set_ops t' (bt_Set item (t_ops t'))).
  destruct (single_spec now (fun id => txn_Delete id k) d t) as (d' & Hc & Hver & Hcl' & Hvals & Hsnap).
  - done.
  - unfold t. destruct (absent r); [done|]. by apply txn_wf_write.
  - unfold t. destruct (absent r); [done|]. by rewrite Hmeta.
  - intros id d1 Hid Hvals. unfold txn_Delete, txn_run. rewrite Hid. cbn [new_txn t_closed t_discarded t_readOnly].
    assert (txn_get d1 (new_txn d) k = (r, t')) as ->.
    { rewrite <- Eg. unfold txn_get, get. by rewrite Hvals. }
    unfold t. by destruct (absent r).
  - exists d'. split; [done|]. split; [done|]. split; [congruence|]. split; [done|]. intros k'.
    rewrite Hsnap. unfold t. destruct (absent r).
    + rewrite Hwrites. cbn [new_txn t_ops]. rewrite write_of_New.
      unfold txn_view in Hval. cbn [new_txn t_ops t_dsVersion] in Hval. rewrite write_of_New in Hval.
      destruct (String.eqb_spec k k') as [<-|]; [by rewrite <- Hval|done].
    + cbn [set_ops t_ops]. rewrite (write_of_Set d t' item k' Hwf eq_refl Hk Hv). unfold item at 1. cbn [i_key].
      destruct (String.eqb k k'); [done|]. rewrite Hwrites. cbn [new_txn t_ops]. by rewrite write_of_New.
Qed.

(** *** The invariant *)

Record mem_inv (d : memDS) : Prop := {
  mi_values : forall x, x ∈ items d.(values) ->
    0 < x.(i_version) <= version d /\ x.(i_key) <> "" /\ x.(i_isGet) = false;
  mi_version : 0 <= version d;
  mi_txn : forall id t, heap d !! id = Some t -> txn_wf d t;
}.

Lemma mem_inv_wf d : mem_inv d -> room d -> ds_wf d.
Proof. intros Hi Hr. split; [done|apply Hi]. Qed.

Lemma txn_wf_keeps d d' t : txn_wf d t -> keeps t.(t_dsVersion) d d' -> txn_wf d' t.
Proof.
  intros Ht [Hv Hk]. destruct (tw_version _ _ Ht). split; [lia|apply Ht|]. intros o Ho Hg Hne.
  rewrite Hk by lia. by apply (tw_read _ _ Ht).
Qed.

Lemma txn_wf_same d d' t : txn_wf d t -> same_store d d' -> txn_wf d' t.
Proof. intros Ht Hs. eapply txn_wf_keeps; [done|by apply same_keeps]. Qed.

(** Steps that only replace a transaction of the heap by a well-formed one. *)
Lemma mem_inv_same d d' :
  mem_inv d -> same_store d d' ->
  (forall id t, heap d' !! id = Some t -> heap d !! id = Some t \/ txn_wf d t) -> mem_inv d'.
Proof.
  intros Hi [E1 E2] Hheap. split; rewrite ?E1, ?E2; [apply Hi..|].
  intros id t Hid. apply (txn_wf_same d); [|done]. destruct (Hheap id t Hid); [by eapply mi_txn|done].
Qed.

Lemma mem_inv_put d id t : mem_inv d -> txn_wf d t -> mem_inv (put_txn d id t).
Proof.
  intros Hi Ht. apply (mem_inv_same d); [done|done|]. cbn. intros id' t'.
  rewrite lookup_insert_Some. intros [[_ <-]|[_ ?]]; [by right|by left].
Qed.

Lemma inv_txn_run {A} id (f : memDS -> basicTxn -> memDS * result A) d :
  mem_inv d -> (forall t, txn_wf d t -> mem_inv (f d t).1) -> mem_inv (txn_run id f d).1.
Proof.
  intros Hi Hf. unfold txn_run. destruct (heap d !! id) as [t|] eqn:E; [|done]. apply Hf. by eapply mi_txn.
Qed.

Lemma inv_read d t k id :
  mem_inv d -> room d -> txn_wf d t -> k <> "" -> mem_inv (put_txn d id (txn_get d t k).2).
Proof.
  intros Hi Hr Ht Hk. apply mem_inv_put; [done|].
  apply (rd_wf _ _ _ _ _ (txn_get_spec d t k (mem_inv_wf d Hi Hr) Ht Hk)).
Qed.

Lemma inv_Get id k d : mem_inv d -> room d -> k <> "" -> mem_inv (txn_Get id k d).1.
Proof.
  intros Hi Hr Hk. apply inv_txn_run; [done|]. intros t Ht. cbv beta.
  destruct (t_closed t); [done|]. destruct (t_discarded t); [done|].
  pose proof (inv_read d t k id Hi Hr Ht Hk) as Hp. by destruct (txn_get d t k).
Qed.

Lemma inv_GetSize id k d : mem_inv d -> room d -> k <> "" -> mem_inv (txn_GetSize id k d).1.
Proof.
  intros Hi Hr Hk. apply inv_txn_run; [done|]. intros t Ht. cbv beta.
  destruct (t_closed t); [done|]. destruct (t_discarded t); [done|].
  pose proof (inv_read d t k id Hi Hr Ht Hk) as Hp. by destruct (txn_get d t k).
Qed.

Lemma inv_Has id k d : mem_inv d -> room d -> k <> "" -> mem_inv (txn_Has id k d).1.
Proof.
  intros Hi Hr Hk. apply inv_txn_run; [done|]. intros t Ht. cbv beta.
  destruct (closed d); [done|]. destruct (t_discarded t); [done|].
  pose proof (inv_read d t k id Hi Hr Ht Hk) as Hp. by destruct (txn_get d t k).
Qed.

Lemma inv_Put id k v d : mem_inv d -> room d -> k <> "" -> mem_inv (txn_Put id k v d).1.
Proof.
  intros Hi Hr Hk. apply inv_txn_run; [done|]. intros t Ht. cbv beta.
  destruct (t_closed t); [done|]. destruct (t_discarded t); [done|]. destruct (t_readOnly t); [done|].
  apply mem_inv_put; [done|]. apply txn_wf_write; [done..|]. by apply (txnVersion_room d).
Qed.

Lemma inv_Delete id k d : mem_inv d -> room d -> k <> "" -> mem_inv (txn_Delete id k d).1.
Proof.
  intros Hi Hr Hk. apply inv_txn_run; [done|]. intros t Ht. cbv beta.
  destruct (t_closed t); [done|]. destruct (t_discarded t); [done|]. destruct (t_readOnly t); [done|].
  pose proof (rd_wf _ _ _ _ _ (txn_get_spec d t k (mem_inv_wf d Hi Hr) Ht Hk)) as Hwf.
  destruct (txn_get d t k) as [item t']. cbn [snd] in Hwf. destruct (absent item); [by apply mem_inv_put|].
  apply mem_inv_put; [done|]. apply txn_wf_write; [done..|]. by apply (txnVersion_room d).
Qed.

Lemma inv_Discard now id d : mem_inv d -> mem_inv (txn_Discard now id d).1.
Proof.
  intros Hi. apply inv_txn_run; [done|]. intros t Ht. cbv beta. destruct (t_discarded t); [done|]. cbn [fst].
  apply mem_inv_put.
  - by apply (mem_inv_same d); [|done|left].
  - split; cbn; [apply Ht|..]; intros o Ho; rewrite items_New in Ho; by apply elem_of_nil in Ho.
Qed.

Lemma inv_newTransaction now readOnly d : mem_inv d -> mem_inv (newTransaction now readOnly d).1.
Proof.
  intros Hi. apply (mem_inv_same d); [done|done|]. cbn. intros id t.
  rewrite lookup_insert_Some. intros [[_ <-]|[_ ?]]; [right|by left].
  split; cbn; [split; [apply Hi|lia]|..]; intros o Ho; rewrite items_New in Ho; by apply elem_of_nil in Ho.
Qed.

Lemma inv_commit d t : mem_inv d -> room d -> txn_wf d t -> mem_inv (commit d t).1.
Proof.
  intros Hi Hr Ht. destruct (checkForConflicts d t) as [[]|e|] eqn:E.
  - destruct (commit_values d t (mem_inv_wf d Hi Hr) Ht E) as (_ & Hver & Hvals & _).
    split; [done|pose proof (mi_version _ Hi); lia|].
    intros id t' Hid. apply (txn_wf_keeps d); [|by apply keeps_commit].
    unfold commit in Hid. rewrite E in Hid. by apply (mi_txn _ Hi id).
  - unfold commit. by rewrite E.
  - unfold commit. by rewrite E.
Qed.

Lemma inv_Commit now id d : mem_inv d -> room d -> mem_inv (txn_Commit now id d).1.
Proof.
  intros Hi Hr. apply inv_txn_run; [done|]. intros t Ht. cbv beta.
  destruct (t_closed t); [done|]. destruct (t_discarded t); [done|].
  pose proof (inv_commit d t Hi Hr Ht) as Hc.
  destruct (if t_readOnly t then _ else _) as [d1 r] eqn:E. cbn [fst]. apply inv_Discard.
  destruct (t_readOnly t); [by injection E as <- <-|by rewrite E in Hc].
Qed.
(** The writes of the store are the steps of a transaction of their own. *)
Lemma inv_single now (op : nat -> M memDS unit) d :
  (forall id d, same_store d (op id d).1) ->
  (forall id d, mem_inv d -> room d -> mem_inv (op id d).1) ->
  mem_inv d -> room d ->
  mem_inv ((let* tx := newTransaction now false in let* _ := mtry (op tx) in txn_Commit now tx) d).1.
Proof.
  intros Hsame Hop Hi Hr. unfold mbind, mtry.
  pose proof (inv_newTransaction now false d Hi) as Hi1.
  destruct (newTransaction now false d) as [d1 r1] eqn:E1. cbn [fst] in Hi1.
  unfold newTransaction in E1. injection E1 as E1 <-. set (id := fresh (dom (heap d))) in *.
  assert (room d1) as Hr1 by by rewrite <- E1.
  pose proof (Hop id d1 Hi1 Hr1) as Hi2. destruct (Hsame id d1) as [V2 _].
  destruct (op id d1) as [d2 r2]. cbn [fst] in *.
  assert (room d2) as Hr2 by (unfold room in *; congruence).
  destruct r2; [by apply inv_Commit..|done].
Qed.

Lemma inv_batch (b : gmap string batch_op) d : mem_inv d -> room d -> b !! "" = None -> mem_inv (batch_Commit b d).
Proof.
  intros Hi Hr Hb. pose proof (nextVersion_room d Hr) as E. unfold room in Hr.
  assert (forall (l : list (string * batch_op)) (vals : tree byKeys) x,
    (forall e, e ∈ l -> e.1 <> "") ->
    x ∈ items (foldl (fun vals e => bt_Set (batch_item (version (nextVersion d)) e) vals) vals l) ->
    x ∈ items vals \/ (0 < x.(i_version) <= version (nextVersion d) /\ x.(i_key) <> "" /\ x.(i_isGet) = false)) as Hl.
  { induction l as [|e l IH]; intros vals x Hne; [by left|]. cbn [foldl].
    intros [Hx|?]%IH; [|by right|set_solver].
    apply items_Set in Hx as [->|[? _]]; [right|by left].
    specialize (Hne e (list_elem_of_here _ _)).
    unfold batch_item. rewrite E. destruct e.2; cbn; (split; [lia|done]). }
  split.
  - intros x Hx. unfold batch_Commit in *. cbn [set_values values version] in *. apply Hl in Hx as [Hx|Hx].
    + cbn [nextVersion set_version values] in Hx. destruct (mi_values _ Hi x Hx) as (? & ? & ?).
      split; [cbn in *; lia|done].
    + done.
    + intros [k op] He%elem_of_map_to_list. cbn. intros ->. rewrite Hb in He. done.
  - unfold batch_Commit. cbn in *. lia.
  - intros id t Hid. apply (txn_wf_keeps d); [|by apply keeps_batch]. by apply (mi_txn _ Hi id).
Qed.

Lemma inv_Close d : mem_inv d -> mem_inv (Close d).1.
Proof.
  intros Hi. unfold Close. destruct (closed d); [done|]. cbn [fst].
  assert (forall l d0, mem_inv d0 -> mem_inv (foldl close_txn d0 l)) as Hl.
  { induction l as [|i l IH]; intros d0 Hd0; [done|]. cbn [foldl]. apply IH. unfold close_txn.
    destruct (heap d0 !! d_txn i) as [t|] eqn:E; [|done]. apply mem_inv_put; [done|].
    destruct (mi_txn _ Hd0 _ _ E). by split. }
  apply Hl. apply (mem_inv_same d); [done|done|by left].
Qed.

(** A version has an entry among the transactions in flight; the versions of the
    transactions that hold operations all have one. *)
Definition in_flight (d : memDS) (v : Z) : Prop :=
  exists i, i ∈ items (inFlightTxn d) /\ d_dsVersion i = v.

Definition all_in_flight (d : memDS) : Prop :=
  forall id t, heap d !! id = Some t -> items t.(t_ops) <> [] -> in_flight d t.(t_dsVersion).

Lemma purge_loop_items fuel v vals vals' y :
  purge_loop fuel v vals = Some vals' -> y ∈ items vals' -> y ∈ items vals.
Proof.
  revert vals. induction fuel as [|fuel IH]; intros vals; cbn [purge_loop]; [done|].
  destruct (purge_pass v (items vals)) as [|x del] eqn:E; [by intros [= ->]|].
  intros Hl Hy. apply (IH _ Hl) in Hy. change (foldl _ vals (x :: del)) with (delete_all (x :: del) vals) in Hy.
  apply items_delete_all in Hy as [? _]; [done|]. rewrite <- E. intros z Hz.
  by apply (purge_pass_spec v (items vals) z (items_asc vals) Hz).
Qed.

Lemma inv_purge d d' : mem_inv d -> executePurge d = Some d' -> all_in_flight d -> mem_inv d'.
Proof.
  intros Hi Hp Hf. destruct (executePurge_ok d) as (d1 & E & HV & Hat). assert (d1 = d') as -> by congruence.
  clear E. unfold executePurge in Hp. destruct (purge_loop _ _ _) as [vals|] eqn:El; [|done].
  injection Hp as <-. split; cbn [set_values values version heap].
  - intros x Hx. apply (mi_values _ Hi). by eapply purge_loop_items.
  - apply Hi.
  - intros id t Hid. pose proof (mi_txn _ Hi id t Hid) as Ht. split; [apply Ht..|].
    intros o Ho Hg Hk. rewrite Hat; [by apply (tw_read _ _ Ht)|]. apply purge_version_le.
    apply (Hf id t Hid). intros E. rewrite E in Ho. by apply elem_of_nil in Ho.
Qed.

Lemma inv_step d d' :
  step d d' -> room d -> (executePurge d = Some d' -> all_in_flight d) -> mem_inv d -> mem_inv d'.
Proof.
  intros Hs Hr Hp Hi.
  destruct Hs; auto using inv_Get, inv_GetSize, inv_Has, inv_Put, inv_Delete, inv_Discard, inv_Close, inv_Commit,
    inv_batch.
  - unfold NewTransaction. destruct (closed d); [done|]. by apply inv_newTransaction.
  - unfold ds_put. destruct (closed d); [done|]. apply inv_single; auto using inv_Put, same_Put.
  - unfold ds_delete. destruct (closed d); [done|]. apply inv_single; auto using inv_Delete, same_Delete.
  - eapply inv_purge; eauto.
Qed.

(** The runs of a store over which the version [v] stays in use: before each purge it
    is in flight, and so is the version of every transaction that holds operations. *)
Inductive runs (v : Z) (d : memDS) : memDS -> Prop :=
  | runs_refl : runs v d d
  | runs_step d1 d2 :
      runs v d d1 -> room d1 -> step d1 d2 ->
      (executePurge d1 = Some d2 -> in_flight d1 v /\ all_in_flight d1) ->
      runs v d d2.

Lemma runs_inv v d d' : runs v d d' -> mem_inv d -> mem_inv d'.
Proof. intros Hr Hi. induction Hr as [|d1 d2 _ IH Hroom Hs Hp]; [done|]. eapply inv_step; naive_solver. Qed.

Lemma runs_keeps v d d' : runs v d d' -> keeps v d d'.
Proof.
  intros Hr. induction Hr as [|d1 d2 _ IH Hroom Hs Hp]; [apply keeps_refl|].
  eapply keeps_trans; [done|]. apply keeps_step; [done|done|]. intros E. by destruct (Hp E).
Qed.

Lemma runs_view v d d' t k :
  runs v d d' -> t.(t_dsVersion) = v -> v <= version d -> txn_view d' t k = txn_view d t k.
Proof.
  intros Hr Hv Hle. destruct (runs_keeps v d d' Hr) as [_ Hk]. unfold txn_view, snapshot.
  rewrite Hv, Hk; [done|lia].
Qed.

Lemma NewDatastore_inv : mem_inv NewDatastore.
Proof.
  split; cbn; [|lia|by intros id t]. intros x. rewrite items_New. by intros ?%elem_of_nil.
Qed.

Definition value_result (o : option bytes) : result bytes :=
  match o with Some v => Ok v | None => Err ErrNotFound end.

Lemma purge_scan_nil v item rest x y :
  ascending byKeys (item :: rest) -> purge_scan v 0 item rest = [] ->
  x ∈ item :: rest -> y ∈ item :: rest -> x.(i_key) = y.(i_key) ->
  x.(i_version) <= v -> y.(i_version) <= v -> x = y.
Proof.
  revert item x y. induction rest as [|next rest IH]; intros item x y Hs Hnil Hx Hy Hk Hvx Hvy; [set_solver|].
  apply StronglySorted_inv in Hs as [Hs Hall]. rewrite Forall_forall in Hall.
  cbn [purge_scan] in Hnil. destruct (Z.ltb_spec v (i_version next)) as [Hv|Hv].
  - apply (IH item); [|done| | |done..].
    + apply StronglySorted_inv in Hs as [Hs _]. constructor; [done|]. apply Forall_forall. intros z Hz.
      apply Hall. by right.
    + apply elem_of_cons in Hx as [->|[->|Hx]%elem_of_cons]; [left|lia|by right].
    + apply elem_of_cons in Hy as [->|[->|Hy]%elem_of_cons]; [left|lia|by right].
  - destruct (String.eqb_spec (i_key item) (i_key next)) as [E|E]; [by destruct (1000 <=? 0 + 1)|].
    cbn in Hnil.
    assert (forall z, z ∈ next :: rest -> i_key z <> i_key item) as Hne.
    { intros z Hz Ez.
      assert (i_key item <s i_key next) as Hlt.
      { specialize (Hall next ltac:(left)). by apply byKeys_true in Hall as [?|[? _]]. }
      apply elem_of_cons in Hz as [->|Hz]; [congruence|].
      apply StronglySorted_inv in Hs as [_ Hs]. rewrite Forall_forall in Hs. specialize (Hs z Hz).
      apply byKeys_true in Hs as [Hs|[Hs _]]; [|congruence]. rewrite Ez in Hs.
      by eapply str_lt_irrefl, str_lt_trans. }
    apply elem_of_cons in Hx as [->|Hx], Hy as [->|Hy]; [done|..].
    + exfalso. by apply (Hne y).
    + exfalso. by apply (Hne x).
    + by apply (IH next).
Qed.

Lemma purge_pass_nil v l x y :
  ascending byKeys l -> purge_pass v l = [] -> x ∈ l -> y ∈ l -> x.(i_key) = y.(i_key) ->
  x.(i_version) <= v -> y.(i_version) <= v -> x = y.
Proof. destruct l as [|item rest]; [intros _ _ Hx; by apply elem_of_nil in Hx|apply purge_scan_nil]. Qed.

Lemma purge_loop_done fuel v vals vals' :
  purge_loop fuel v vals = Some vals' -> purge_pass v (items vals') = [].
Proof.
  revert vals. induction fuel as [|fuel IH]; intros vals; cbn [purge_loop]; [done|].
  destruct (purge_pass v (items vals)) as [|x del] eqn:E; [by intros [= <-]|apply IH].
Qed.

(** *** Properties *)

(** over every run of a store that starts empty, in which the clients' steps and
    purges interleave in any order and the version counter does not overflow, the
    stored items are those of committed writes (their versions are not above the
    store's) and every transaction holds only writes at its own version and reads that
    are the items of its snapshot. *)
Theorem runs_mem_inv v d : runs v NewDatastore d -> mem_inv d.
Proof. intros Hr. by apply (runs_inv v NewDatastore), NewDatastore_inv. Qed.


(** C4: a commit is serializable with respect to the keys of its operations.  It
    succeeds only if none of these keys was committed since the snapshot, and then the
    store after it is the store before it with the transaction's writes; else it fails
    with the conflict error because one of the keys did change, and the store is as it
    was.  Either way the transaction is discarded. *)
Theorem txn_Commit_serializable now id d t :
  mem_inv d -> room d -> heap d !! id = Some t -> ops_clean t ->
  t.(t_closed) = false -> t.(t_discarded) = false -> t.(t_readOnly) = false ->
  exists d', (t_discarded <$> heap d' !! id) = Some true /\
    ((txn_Commit now id d = (d', Ok tt) /\ version d' = version d + 1 /\
       (forall o, o ∈ items t.(t_ops) -> o.(i_key) <> "" -> unchanged d t o.(i_key)) /\
       forall k, snapshot d' (version d') k =
         match write_of (items t.(t_ops)) k with
         | Some o => item_value (Some o)
         | None => snapshot d (version d) k
         end) \/
     (txn_Commit now id d = (d', Err ErrTxnConflict) /\ same_store d d' /\
       exists o, o ∈ items t.(t_ops) /\ ~ unchanged d t (NewKey o.(i_key)))).
Proof.
  intros Hi Hr Hid Hclean Hc Hdisc Hro. pose proof (mem_inv_wf d Hi Hr) as Hd.
  pose proof (mi_txn _ Hi _ _ Hid) as Ht.
  unfold txn_Commit, txn_run. rewrite Hid, Hc, Hdisc, Hro.
  assert (forall d1, heap d1 !! id = Some t ->
    t_discarded <$> heap (txn_Discard now id d1).1 !! id = Some true) as Hdis.
  { intros d1 H1. unfold txn_Discard, txn_run. rewrite H1, Hdisc. cbn. by rewrite lookup_insert_eq. }
  destruct (checkForConflicts d t) as [[]|e|] eqn:E.
  - destruct (commit_values d t Hd Ht E) as (_ & Hver & _ & Hsnap). unfold commit in *. rewrite E in *.
    cbn [fst] in *. eexists. split; [|left; split; [done|]]; [by apply Hdis|].
    destruct (same_Discard now id (set_values (nextVersion d)
      (apply_ops (version (nextVersion d)) (items (t_ops t)) (values (nextVersion d))))) as [E1 E2].
    unfold snapshot in *. rewrite E1, E2. split; [done|]. split; [by apply checkForConflicts_ok|done].
  - unfold commit. rewrite E. eexists. split; [|right]; [by apply Hdis|].
    destruct (checkForConflicts_err d t) as (E' & _ & Ho); [eauto|]. split; [congruence|].
    split; [apply same_Discard|done].
  - destruct (checkForConflicts_err d t) as (E' & _ & Ho); [eauto|]. congruence.
Qed.

(** C8: without transactions the store is a map.  [Get], [Has] and [Query] return
    what it holds at its version; [Put] and [Delete] succeed and change the one key,
    whatever the transactions in flight; a closed store refuses all of them. *)
Theorem memDS_refines_map now k v d :
  mem_inv d -> room d -> k <> "" ->
  (closed d = false ->
    ds_read k d = (d, value_result (snapshot d (version d) k)) /\
    ds_has k d = (d, Ok (bool_decide (is_Some (snapshot d (version d) k)))) /\
    (forall k' v', (k', v') ∈ ds_entries d <-> snapshot d (version d) k' = Some v') /\
    (exists d', ds_put now k v d = (d', Ok tt) /\
      forall k', snapshot d' (version d') k' = if String.eqb k k' then Some v else snapshot d (version d) k') /\
    (exists d', ds_delete now k d = (d', Ok tt) /\
      forall k', snapshot d' (version d') k' = if String.eqb k k' then None else snapshot d (version d) k')) /\
  (closed d = true ->
    ds_read k d = (d, Err ErrClosed) /\ ds_has k d = (d, Err ErrClosed) /\
    ds_put now k v d = (d, Err ErrClosed) /\ ds_delete now k d = (d, Err ErrClosed)).
Proof.
  intros Hi Hr Hk. pose proof (mem_inv_wf d Hi Hr) as Hd.
  assert (value_result (snapshot d (version d) k) =
      (let result := get d k (version d) in if absent result then Err ErrNotFound else Ok (i_val result)) /\
    bool_decide (is_Some (snapshot d (version d) k)) = negb (absent (get d k (version d)))) as [Hv1 Hv2].
  { unfold snapshot. rewrite get_at. destruct (at_version _ k _) as [x|] eqn:E; cbn; [|done].
    apply at_version_key in E as (Hkx & _); [|apply items_asc].
    unfold absent, id. destruct (String.eqb_spec (i_key x) ""); [congruence|]. by destruct (i_isDeleted x). }
  split; intros Hc.
  - split; [|split; [|split; [|split]]].
    + unfold ds_read. by rewrite Hc, Hv1.
    + unfold ds_has. by rewrite Hc, Hv2.
    + intros k' v'. by apply ds_entries_spec.
    + destruct (ds_put_spec now k v d Hd Hc Hk) as (d' & E & _ & _ & _ & Hs). by exists d'.
    + destruct (ds_delete_spec now k d Hd Hc Hk) as (d' & E & _ & _ & _ & Hs). by exists d'.
  - unfold ds_read, ds_has, ds_put, ds_delete. by rewrite Hc.
Qed.

(** a purge always ends.  It changes neither the version nor what the store holds
    at any version from the oldest one in flight on, and afterwards no key has two
    versions that both lie at or below that version. *)
Theorem executePurge_safe d :
  exists d', executePurge d = Some d' /\ version d' = version d /\
    (forall v k, in_flight d v -> snapshot d' v k = snapshot d v k) /\
    (forall k, purge_version d <= version d -> snapshot d' (version d) k = snapshot d (version d) k) /\
    (forall x y, x ∈ items d'.(values) -> y ∈ items d'.(values) -> x.(i_key) = y.(i_key) ->
      x.(i_version) <= purge_version d -> y.(i_version) <= purge_version d -> x = y).
Proof.
  destruct (executePurge_ok d) as (d' & E & HV & Hat). exists d'. split; [done|]. split; [done|].
  split; [|split].
  - intros v k Hf. unfold snapshot. by rewrite Hat by by apply purge_version_le.
  - intros k Hle. unfold snapshot. by rewrite Hat.
  - unfold executePurge in E. destruct (purge_loop _ _ _) as [vals|] eqn:El; [|done]. injection E as <-.
    intros x y. cbn [set_values values]. apply purge_pass_nil; [apply items_asc|]. by eapply purge_loop_done.
Qed.
End Props.

(** ** Concrete runs *)

Module MemWitness.
Import ListTree KeyInstances.

(** A transaction starts over [/a = 1]; a batch writes the key again and the store is
    purged while the transaction is in flight. *)
Definition s1 : memDS := (ds_put 0 "/a" "1" NewDatastore).1.
Definition s2 : memDS := (NewTransaction 0 false s1).1.
Definition s3 : memDS := batch_Commit (batch_Put ∅ "/a" "2") s2.
Definition s4 : memDS := default s3 (executePurge s3).
Definition tx : nat := fresh (dom s1.(heap)).
Definition t2 : basicTxn := default (new_txn s1) (s2.(heap) !! tx).

(** A step that moves the version or the transactions in flight is not a purge. *)
Definition traits (d : memDS) : Z * nat := (version d, length (items (inFlightTxn d))).

Lemma not_purge d d' (P : Prop) : traits d <> traits d' -> executePurge d = Some d' -> P.
Proof.
  intros Hne E. destruct Hne. unfold executePurge in E. by destruct (purge_loop _ _ _); [injection E as <-|].
Qed.

Lemma runs_s1 v : runs v NewDatastore s1.
Proof.
  apply (runs_step v _ NewDatastore); [apply runs_refl|done|by apply step_ds_put|].
  apply not_purge. by vm_compute.
Qed.

Lemma runs_s2 v : runs v NewDatastore s2.
Proof.
  apply (runs_step v _ s1); [apply runs_s1|done|apply step_new|]. apply not_purge. by vm_compute.
Qed.

Lemma s2_inv : mem_inv s2.
Proof. apply (runs_inv 0 NewDatastore); [apply runs_s2|apply NewDatastore_inv]. Qed.

Lemma s3_ops : Forall (fun e : nat * basicTxn => items (t_ops e.2) = []) (map_to_list s3.(heap)).
Proof. vm_compute. repeat constructor. Qed.

Lemma runs_s4 : runs 1 s2 s4.
Proof.
  apply (runs_step 1 _ s3).
  - apply (runs_step 1 _ s2); [apply runs_refl|done|by apply step_batch|]. apply not_purge. by vm_compute.
  - done.
  - apply step_purge. vm_compute. reflexivity.
  - intros _. split.
    + eexists. split; [vm_compute; left|reflexivity].
    + intros id t Hid%elem_of_map_to_list Hne. pose proof s3_ops as Hf. rewrite Forall_forall in Hf.
      by specialize (Hf (id, t) Hid).
Qed.

Lemma runs_mem_inv_witness : runs 0 NewDatastore s2 /\ mem_inv s2.
Proof. split; [apply runs_s2|]. apply (runs_mem_inv 0 s2), runs_s2. Defined.


(** A commit that conflicts: the key it wrote was committed in between. *)
Definition s5 : memDS := (txn_Put tx "/a" "3" s3).1.
Definition t5 : basicTxn := default t2 (s5.(heap) !! tx).

Lemma s5_inv : mem_inv s5.
Proof. apply inv_Put; [|done|done]. apply inv_batch; [apply s2_inv|done|done]. Qed.

Lemma txn_Commit_serializable_witness : (txn_Commit 0 tx s5).2 = Err ErrTxnConflict.
Proof.
  destruct (txn_Commit_serializable 0 tx s5 t5) as (d' & _ & [(_ & _ & Hu & _)|(E & _)]).
  - apply s5_inv.
  - by vm_compute.
  - vm_compute. reflexivity.
  - intros o Ho _. vm_compute in Ho. apply list_elem_of_singleton in Ho as ->. reflexivity.
  - reflexivity.
  - reflexivity.
  - reflexivity.
  - specialize (Hu (mkItem "/a" 2 "3" false false) ltac:(vm_compute; left) ltac:(discriminate)).
    vm_compute in Hu. discriminate Hu.
  - by rewrite E.
Defined.

Lemma memDS_refines_map_witness :
  ds_read "/a" s2 = (s2, Ok "1") /\
  exists d', ds_delete 0 "/a" s2 = (d', Ok tt) /\ snapshot d' (version d') "/a" = None.
Proof.
  destruct (memDS_refines_map 0 "/a" "3" s2) as [Ho _]; [apply s2_inv|by vm_compute|discriminate|].
  destruct (Ho eq_refl) as (Hr & _ & _ & _ & d' & E & Hs). split; [exact Hr|].
  exists d'. split; [exact E|]. by rewrite Hs.
Defined.

(** A transaction that reads a key, which another client then writes. *)
Definition read_then_commit : M memDS unit :=
  let* t := NewTransaction 0 false in
  let* _ := mtry (txn_Get t "/a") in
  let* _ := ds_put 0 "/a" "other" in
  let* _ := txn_Put t "/b" "mine" in
  txn_Commit 0 t.

(** A key that a transaction found absent is not checked.  After a read of [/a]
    that finds nothing another client writes it, and the commit still succeeds; had the
    key been there, the same steps end in a conflict. *)
Lemma absent_read_run :
  (read_then_commit NewDatastore).2 = Ok tt /\ (read_then_commit s1).2 = Err ErrTxnConflict.
Proof. split; vm_compute; reflexivity. Qed.

(** Two transactions of one version share one entry among those in flight: when the
    first ends, a purge takes the version that the second still reads. *)
Definition purge_shared : M memDS bytes :=
  let* t := NewTransaction 0 false in
  let* u := NewTransaction 0 false in
  let* _ := txn_Discard 0 u in
  let* _ := ds_put 0 "/a" "2" in
  let* _ := (fun d => (default d (executePurge d), Ok tt)) in
  txn_Get t "/a".

(** The snapshot of a transaction is lost when another transaction of the same
    version ends before a purge: its read of a key that is in its snapshot fails. *)
Lemma purge_shared_run :
  snapshot s1 (version s1) "/a" = Some "1" /\ (purge_shared s1).2 = Err ErrNotFound.
Proof. split; vm_compute; reflexivity. Qed.

(** A query of a transaction is not answered from its snapshot: it returns an
    entry that was committed after the transaction started, which [Get] does not see. *)
Lemma txn_query_run :
  exists (d : memDS) id t, d.(heap) !! id = Some t /\
    txn_entries d t = [("/a", "1")] /\ (txn_Get id "/a" d).2 = Err ErrNotFound.
Proof.
  pose (r := NewTransaction 0 false NewDatastore).
  exists (ds_put 0 "/a" "1" r.1).1, (fresh (dom (@heap BTreeG_list NewDatastore))).
  eexists. split; [vm_compute; reflexivity|]. split; vm_compute; reflexivity.
Qed.
End MemWitness.
