(* ===== verification/Values.v ===== *)
(** * Field values

    The dynamic values ([any]) that documents and filters hold, with the machine
    numbers and the instants they are made of: float64 as an IEEE 754 binary64 of
    [SpecFloat], the conversions between the numeric types, and the parser of
    RFC 3339 times. *)

From Stdlib Require Import SpecFloat Ascii.
From S2P Require Import Prelude GoStd.

(** ** Floating point *)

Definition float64 : Type := spec_float.

Definition f64_zero : float64 := S754_zero false.
Definition f64_add : float64 -> float64 -> float64 := SFadd 53 1024.
Definition f64_div : float64 -> float64 -> float64 := SFdiv 53 1024.
Definition f64_eqb : float64 -> float64 -> bool := SFeqb.
Definition f64_ltb : float64 -> float64 -> bool := SFltb.
Definition f64_leb : float64 -> float64 -> bool := SFleb.

(** [float64(z)]: the nearest double, ties to even. *)
Definition f64_of_Z (z : Z) : float64 := binary_normalize 53 1024 z 0 false.

(** [float64(f)] of a float32, which is exact. *)
Definition f64_of_f32 (f : spec_float) : float64 :=
  match f with
  | S754_finite s m e => binary_normalize 53 1024 (if s then Z.neg m else Z.pos m) e s
  | _ => f
  end.

(** [int64(f)] drops the fraction.  A value out of range gives the smallest integer,
    as on amd64 (the language leaves it open). *)
Definition Z_of_f64 (f : float64) : Z :=
  match f with
  | S754_zero _ => 0
  | S754_finite s m e =>
      let t := if 0 <=? e then Z.pos m * 2 ^ e else Z.pos m / 2 ^ (- e) in
      let z := if s then - t else t in
      if (- 2 ^ 63 <=? z) && (z <? 2 ^ 63) then z else - 2 ^ 63
  | _ => - 2 ^ 63
  end.

Definition f64_nan (f : float64) : bool := match f with S754_nan => true | _ => false end.

Lemma SFcompare_sym x y : SFcompare y x = option_map CompOpp (SFcompare x y).
Proof.
  destruct x as [[]|[]| |[] m1 e1], y as [[]|[]| |[] m2 e2]; try done; cbn; f_equal;
    rewrite (Z.compare_antisym e1 e2); destruct (e1 ?= e2)%Z; try done;
    change (Pos.compare_cont Eq) with Pos.compare; by rewrite (Pos.compare_antisym m1 m2).
Qed.

Lemma SFcompare_total x y : SFcompare x y = None -> x = S754_nan \/ y = S754_nan.
Proof. destruct x, y; cbn; try done; auto. Qed.

(** The weak order is the opposite of the strict one, unless a number is NaN. *)
Lemma f64_leb_negb x y : f64_nan x = false -> f64_nan y = false -> f64_leb x y = negb (f64_ltb y x).
Proof.
  intros Hx Hy. unfold f64_ltb, f64_leb, SFltb, SFleb. rewrite (SFcompare_sym x y).
  destruct (SFcompare x y) as [[]|] eqn:E; try done. by destruct (SFcompare_total x y E) as [-> | ->].
Qed.

Lemma f64_ltb_asym x y : f64_ltb x y && f64_ltb y x = false.
Proof. unfold f64_ltb, SFltb. rewrite (SFcompare_sym x y). by destruct (SFcompare x y) as [[]|]. Qed.

Lemma f64_leb_ltb x y : f64_leb x y = f64_ltb x y || f64_eqb x y.
Proof. unfold f64_leb, f64_ltb, f64_eqb, SFleb, SFltb, SFeqb. by destruct (SFcompare x y) as [[]|]. Qed.

Lemma f64_eqb_sym x y : f64_eqb x y = f64_eqb y x.
Proof. unfold f64_eqb, SFeqb. rewrite (SFcompare_sym x y). by destruct (SFcompare x y) as [[]|]. Qed.

Lemma f64_leb_trans x y z : f64_leb x y = true -> f64_leb y z = true -> f64_leb x z = true.
Proof.
  unfold f64_leb, SFleb.
  destruct x as [[]|[]| |[] m1 e1], y as [[]|[]| |[] m2 e2], z as [[]|[]| |[] m3 e3]; try done; cbn;
    change (Pos.compare_cont Eq) with Pos.compare;
    destruct (Z.compare_spec e1 e2), (Z.compare_spec e2 e3), (Z.compare_spec e1 e3); try done; try lia;
    destruct (Pos.compare_spec m1 m2), (Pos.compare_spec m2 m3), (Pos.compare_spec m1 m3); try done; lia.
Qed.

(** Rounding an integer never gives NaN: the mantissa stays nonnegative. *)
Lemma shr_fexp_nonneg prec emax m e l : 0 <= m -> 0 <= shr_m (fst (shr_fexp prec emax m e l)).
Proof.
  intros Hm. unfold shr_fexp, shr.
  assert (0 <= shr_m (shr_record_of_loc m l)) as H0 by (by destruct l as [|[]]).
  destruct (_ - e) as [|p|p]; [done| |done]. cbn [fst].
  revert H0. generalize (shr_record_of_loc m l).
  assert (forall mrs, 0 <= shr_m mrs -> 0 <= shr_m (shr_1 mrs)) as Hstep.
  { intros [[|[q|q|]|q] r s]; cbn; lia. }
  induction p as [p IH|p IH|]; cbn; intros mrs H0; auto.
Qed.

Lemma f64_of_Z_nan z : f64_nan (f64_of_Z z) = false.
Proof.
  assert (forall s p e, f64_nan (binary_round 53 1024 s p e) = false) as Hr; [|by destruct z; [|apply Hr..]].
  intros s p e. unfold binary_round. destruct (shl_align _ _ _) as [mz ez]. unfold binary_round_aux.
  pose proof (shr_fexp_nonneg 53 1024 (Z.pos mz) ez loc_Exact ltac:(lia)) as H1.
  destruct (shr_fexp 53 1024 (Z.pos mz) ez loc_Exact) as [mrs e1]. cbn [fst] in H1.
  assert (0 <= round_nearest_even (shr_m mrs) (loc_of_shr_record mrs)) as H2.
  { unfold round_nearest_even. destruct (loc_of_shr_record mrs) as [|[]]; [lia|..|lia|lia].
    destruct (Z.even _); lia. }
  pose proof (shr_fexp_nonneg 53 1024 _ e1 loc_Exact H2) as H3.
  destruct (shr_fexp 53 1024 _ e1 loc_Exact) as [mrs2 e2]. cbn [fst] in H3.
  destruct (shr_m mrs2) as [|q|q]; [done|by case_match|lia].
Qed.

(** ** Integers as floats

    An integer below 2^53 is its own double, and so are sums of such integers. *)

Lemma digits2_log2 p : Z.pos (digits2_pos p) = Z.log2 (Z.pos p) + 1.
Proof.
  induction p as [p IH|p IH|]; [..|done]; cbn [digits2_pos]; rewrite Pos2Z.inj_succ, IH.
  - rewrite (Pos2Z.inj_xI p), Z.log2_succ_double by lia. lia.
  - rewrite (Pos2Z.inj_xO p), Z.log2_double by lia. lia.
Qed.

Lemma digits2_shift p q n :
  0 <= n -> Z.pos q = Z.pos p * 2 ^ n -> Z.pos (digits2_pos q) = Z.pos (digits2_pos p) + n.
Proof. intros Hn E. rewrite !digits2_log2, E, Z.log2_mul_pow2 by lia. lia. Qed.

Lemma iter_xO_shift d m : Z.pos (Pos.iter xO m d) = Z.pos m * 2 ^ Z.pos d.
Proof.
  change (Z.pos (Zpower.shift_pos d m) = Z.pos m * 2 ^ Z.pos d).
  rewrite Zpower.shift_pos_correct. cbn. lia.
Qed.

Lemma iter_shr_1 n x :
  0 <= x ->
  SpecFloat.iter_pos shr_1 n (Build_shr_record (x * 2 ^ Z.pos n) false false) = Build_shr_record x false false.
Proof.
  assert (forall x, 0 <= x -> shr_1 (Build_shr_record (x * 2) false false) = Build_shr_record x false false) as H1.
  { intros [|q|q] Hq; [done| |lia]. rewrite Z.mul_comm. done. }
  revert x. induction n as [n IH|n IH|]; intros x Hx; cbn [SpecFloat.iter_pos].
  - assert (x * 2 ^ Z.pos n~1 = (x * 2 ^ Z.pos n * 2 ^ Z.pos n) * 2) as ->.
    { rewrite (Pos2Z.inj_xI n), Z.pow_add_r, Z.pow_twice_r by lia. lia. }
    rewrite H1 by lia. rewrite IH by lia. by apply IH.
  - assert (x * 2 ^ Z.pos n~0 = x * 2 ^ Z.pos n * 2 ^ Z.pos n) as ->.
    { rewrite (Pos2Z.inj_xO n), Z.pow_twice_r. lia. }
    rewrite IH by lia. by apply IH.
  - change (2 ^ 1) with 2. by apply H1.
Qed.

Lemma shr_fexp_exact m e n q :
  0 <= n -> Z.pos m = Z.pos q * 2 ^ n -> fexp 53 1024 (Z.pos (digits2_pos m) + e) - e = n ->
  shr_fexp 53 1024 (Z.pos m) e loc_Exact = (Build_shr_record (Z.pos q) false false, e + n).
Proof.
  intros Hn Hm He. unfold shr_fexp. cbn [Zdigits2 shr_record_of_loc]. rewrite He. unfold shr.
  destruct n as [|n|n]; [|by rewrite Hm, iter_shr_1|lia].
  rewrite Hm, Z.pow_0_r, Z.mul_1_r, Z.add_0_r. done.
Qed.

(** The rounding of an integer of at most 53 digits, given with [k] more binary places,
    is the integer with 53 digits. *)
Lemma binary_round_exact s p k m q :
  let d := Z.pos (digits2_pos p) in
  d <= 53 -> 0 <= k -> Z.pos m = Z.pos p * 2 ^ k -> Z.pos q = Z.pos p * 2 ^ (53 - d) ->
  binary_round 53 1024 s m (- k) = S754_finite s q (d - 53).
Proof.
  intros d Hd Hk Hm Hq. unfold binary_round.
  pose proof (digits2_shift p m k Hk Hm) as Dm. pose proof (digits2_shift p q (53 - d) ltac:(lia) Hq) as Dq.
  fold d in Dm, Dq.
  assert (forall x, x = d -> fexp 53 1024 x = d - 53) as Hf by (intros x ->; unfold fexp, emin; lia).
  assert (forall m' e n, 0 <= n -> e + n = d - 53 -> Z.pos m' = Z.pos q * 2 ^ n -> Z.pos (digits2_pos m') = 53 + n ->
    binary_round_aux 53 1024 s (Z.pos m') e loc_Exact = S754_finite s q (d - 53)) as Haux.
  { intros m' e n Hn He Hm' Dm'. unfold binary_round_aux.
    rewrite (shr_fexp_exact m' e n q Hn Hm') by (rewrite Hf; lia). rewrite He. cbn [shr_m loc_of_shr_record round_nearest_even].
    rewrite (shr_fexp_exact q (d - 53) 0 q) by (try rewrite Hf; lia). cbn [shr_m].
    rewrite Z.add_0_r. by destruct (Z.leb_spec (d - 53) (1024 - 53)); [|lia]. }
  rewrite Hf by lia. unfold shl_align. destruct (d - 53 - - k) as [|n|n] eqn:En.
  - apply (Haux _ _ 0); try lia. rewrite Hm, Hq. replace (53 - d) with k by lia. lia.
  - apply (Haux _ _ (Z.pos n)); try lia. rewrite Hm, Hq, <- Z.mul_assoc, <- Z.pow_add_r by lia. do 2 f_equal. lia.
  - pose proof (iter_xO_shift n m) as En'. assert (Pos.iter xO m n = q) as ->.
    { apply Pos2Z.inj. rewrite En', Hm, Hq, <- Z.mul_assoc, <- Z.pow_add_r by lia. do 2 f_equal. lia. }
    apply (Haux _ _ 0); lia.
Qed.

Definition exact53 (z : Z) : Prop := Z.abs z < 2 ^ 53.

Definition mantissa (p : positive) : positive := Z.to_pos (Z.pos p * 2 ^ (53 - Z.pos (digits2_pos p))).

Lemma digits2_53 p : Z.pos p < 2 ^ 53 -> Z.pos (digits2_pos p) <= 53.
Proof. intros Hp. rewrite digits2_log2. apply Z.log2_lt_pow2 in Hp; lia. Qed.

Lemma mantissa_spec p : Z.pos p < 2 ^ 53 -> Z.pos (mantissa p) = Z.pos p * 2 ^ (53 - Z.pos (digits2_pos p)).
Proof. intros Hp%digits2_53. unfold mantissa. rewrite Z2Pos.id; [done|]. pose proof (Z.pow_pos_nonneg 2 (53 - Z.pos (digits2_pos p))). lia. Qed.

Definition f64_int (z : Z) : float64 :=
  match z with
  | 0 => S754_zero false
  | Z.pos p => S754_finite false (mantissa p) (Z.pos (digits2_pos p) - 53)
  | Z.neg p => S754_finite true (mantissa p) (Z.pos (digits2_pos p) - 53)
  end.

Lemma normalize_int z k : exact53 z -> 0 <= k -> binary_normalize 53 1024 (z * 2 ^ k) (- k) false = f64_int z.
Proof.
  intros Hz Hk. pose proof (Z.pow_pos_nonneg 2 k ltac:(lia) Hk).
  unfold exact53 in Hz. destruct z as [|p|p]; [done|..].
  - destruct (Z.pos p * 2 ^ k) as [|m|m] eqn:E; [lia| |lia]. cbn [binary_normalize].
    apply binary_round_exact; auto using digits2_53. by apply mantissa_spec.
  - destruct (Z.neg p * 2 ^ k) as [|m|m] eqn:E; [lia|lia|]. cbn [binary_normalize].
    apply binary_round_exact; [apply digits2_53; lia|done| |apply mantissa_spec; lia].
    apply (f_equal Z.opp) in E. cbn in E. lia.
Qed.

Lemma f64_of_Z_int z : exact53 z -> f64_of_Z z = f64_int z.
Proof. intros Hz. rewrite <- (normalize_int z 0 Hz) by lia. unfold f64_of_Z. by rewrite Z.mul_1_r. Qed.

Lemma align_int (s : bool) p e' :
  Z.pos p < 2 ^ 53 -> e' <= Z.pos (digits2_pos p) - 53 ->
  cond_Zopp s (Z.pos (fst (shl_align (mantissa p) (Z.pos (digits2_pos p) - 53) e'))) =
    (if s then Z.neg p else Z.pos p) * 2 ^ (- e').
Proof.
  intros Hp He.
  assert (Z.pos (fst (shl_align (mantissa p) (Z.pos (digits2_pos p) - 53) e')) = Z.pos p * 2 ^ (- e')) as Hv.
  { unfold shl_align. pose proof (digits2_53 p Hp). destruct (e' - (Z.pos (digits2_pos p) - 53)) as [|d|d] eqn:Ed; [|lia|]; cbn [fst].
    - rewrite mantissa_spec by done. do 2 f_equal. lia.
    - rewrite iter_xO_shift, mantissa_spec, <- Z.mul_assoc, <- Z.pow_add_r by (done || lia). do 2 f_equal. lia. }
  rewrite Hv. destruct s; cbn [cond_Zopp]; lia.
Qed.

Lemma f64_add_finite (s : bool) p (s' : bool) q :
  Z.pos p < 2 ^ 53 -> Z.pos q < 2 ^ 53 ->
  let z := (if s then Z.neg p else Z.pos p) + (if s' then Z.neg q else Z.pos q) in
  exact53 z ->
  f64_add (S754_finite s (mantissa p) (Z.pos (digits2_pos p) - 53))
    (S754_finite s' (mantissa q) (Z.pos (digits2_pos q) - 53)) = f64_int z.
Proof.
  intros Hp Hq z Hz. unfold f64_add, SFadd. cbv zeta.
  pose proof (digits2_53 p Hp). pose proof (digits2_53 q Hq).
  generalize (Z.le_min_l (Z.pos (digits2_pos p) - 53) (Z.pos (digits2_pos q) - 53)).
  generalize (Z.le_min_r (Z.pos (digits2_pos p) - 53) (Z.pos (digits2_pos q) - 53)).
  generalize (Z.min (Z.pos (digits2_pos p) - 53) (Z.pos (digits2_pos q) - 53)). intros ez H1 H2.
  rewrite !align_int by done. rewrite <- Z.mul_add_distr_r. fold z.
  rewrite <- (normalize_int z (- ez) Hz) by lia. by rewrite Z.opp_involutive.
Qed.

(** Adding two such integers is exact as long as the sum is one too. *)
Lemma f64_add_exact a b :
  exact53 a -> exact53 b -> exact53 (a + b) -> f64_add (f64_of_Z a) (f64_of_Z b) = f64_of_Z (a + b).
Proof.
  intros Ha Hb Hab. rewrite !f64_of_Z_int by done. unfold exact53 in Ha, Hb.
  destruct a as [|p|p], b as [|q|q]; try done.
  - by apply (f64_add_finite false p false q); [lia..|].
  - by apply (f64_add_finite false p true q); [lia..|].
  - by apply (f64_add_finite true p false q); [lia..|].
  - by apply (f64_add_finite true p true q); [lia..|].
Qed.

(** Converting such an integer to a double and back. *)
Lemma Z_of_f64_of_Z z : exact53 z -> Z_of_f64 (f64_of_Z z) = z.
Proof.
  intros Hz. rewrite f64_of_Z_int by done. unfold exact53 in Hz.
  assert (forall p, Z.pos p < 2 ^ 53 ->
    (if 0 <=? Z.pos (digits2_pos p) - 53 then Z.pos (mantissa p) * 2 ^ (Z.pos (digits2_pos p) - 53)
     else Z.pos (mantissa p) / 2 ^ (- (Z.pos (digits2_pos p) - 53))) = Z.pos p) as Hp.
  { intros p Hp. pose proof (digits2_53 p Hp). rewrite mantissa_spec by done. destruct (Z.leb_spec 0 (Z.pos (digits2_pos p) - 53)).
    - replace (Z.pos (digits2_pos p)) with 53 by lia. change (2 ^ (53 - 53)) with 1. lia.
    - replace (- (Z.pos (digits2_pos p) - 53)) with (53 - Z.pos (digits2_pos p)) by lia. apply Z.div_mul. lia. }
  destruct z as [|p|p]; [done|..]; cbn [f64_int Z_of_f64]; rewrite Hp by lia.
  - destruct (Z.leb_spec (- 2 ^ 63) (Z.pos p)), (Z.ltb_spec (Z.pos p) (2 ^ 63)); cbn [andb]; lia.
  - destruct (Z.leb_spec (- 2 ^ 63) (- Z.pos p)), (Z.ltb_spec (- Z.pos p) (2 ^ 63)); cbn [andb]; lia.
Qed.

(** ** Times *)

(** An instant is the number of nanoseconds since the year 1, which is all that
    [After], [Before] and [Equal] look at. *)
Definition time : Type := Z.

Definition isDigit (c : ascii) : bool := match digit c with Some _ => true | None => false end.

(** [getnum s fixed]: one digit or two, two when [fixed]. *)
Definition getnum (s : string) (fixed : bool) : option (Z * string) :=
  match s with
  | String c1 s1 =>
      match digit c1 with
      | None => None
      | Some d1 =>
          match s1 with
          | String c2 s2 =>
              match digit c2 with
              | Some d2 => Some (d1 * 10 + d2, s2)
              | None => if fixed then None else Some (d1, s1)
              end
          | "" => if fixed then None else Some (d1, s1)
          end
      end
  | "" => None
  end.

Definition skip_char (c : ascii) (s : string) : option string :=
  match s with String c' s' => if Ascii.eqb c c' then Some s' else None | "" => None end.

Definition isLeap (year : Z) : bool :=
  (year mod 4 =? 0) && (negb (year mod 100 =? 0) || (year mod 400 =? 0)).

Definition daysIn (month year : Z) : Z :=
  if month =? 2 then if isLeap year then 29 else 28
  else if existsb (Z.eqb month) [4; 6; 9; 11] then 30 else 31.

Definition daysBefore (month year : Z) : Z :=
  foldl (fun n m => n + daysIn (Z.of_nat m) year) 0 (seq 1 (Z.to_nat (month - 1))).

(** Days from 1 January of the year 1. *)
Definition daysSinceEpoch (year month day : Z) : Z :=
  let y := year - 1 in
  365 * y + y / 4 - y / 100 + y / 400 + daysBefore month year + (day - 1).

(** The digits after the decimal point, as nanoseconds. *)
Fixpoint fraction (n : nat) (unit acc : Z) (s : string) : Z * string :=
  match s with
  | String c s' =>
      match digit c with
      | Some d => match n with
                  | O => fraction 0 unit acc s'
                  | Datatypes.S n' => fraction n' (unit / 10) (acc + d * unit) s'
                  end
      | None => (acc, s)
      end
  | "" => (acc, s)
  end.

Definition parseFraction (s : string) : Z * string :=
  match s with
  | String p (String c _ as s') =>
      if (Ascii.eqb p "." || Ascii.eqb p ",") && isDigit c then fraction 9 100000000 0 s' else (0, s)
  | _ => (0, s)
  end.

(** The zone of the layout "Z07:00", in seconds. *)
Definition parseZone (s : string) : option Z :=
  match s with
  | "Z" => Some 0
  | String sign (String h1 (String h2 (String ":" (String m1 (String m2 ""))))) =>
      match digit h1, digit h2, digit m1, digit m2 with
      | Some h1, Some h2, Some m1, Some m2 =>
          let h := h1 * 10 + h2 in let m := m1 * 10 + m2 in
          if (24 <? h) || (60 <? m) then None
          else if Ascii.eqb sign "+" then Some (h * 3600 + m * 60)
          else if Ascii.eqb sign "-" then Some (- (h * 3600 + m * 60))
          else None
      | _, _, _, _ => None
      end
  | _ => None
  end.

Definition opt_bind {A B} (o : option A) (f : A -> option B) : option B :=
  match o with Some x => f x | None => None end.
Notation "'let?' x ':=' m 'in' k" := (opt_bind m (fun x => k))
  (at level 10, x pattern, m at level 100, k at level 200) : go_scope.

(** [time.Parse(time.RFC3339, s)] *)
Definition parseYear (s : string) : option (Z * string) :=
  match s with
  | String a (String b (String c (String d s'))) =>
      match digits_val 0 (String a (String b (String c (String d "")))) with
      | Some y => Some (y, s')
      | None => None
      end
  | _ => None
  end.

Definition time_Parse (s : string) : option time :=
  let? (year, s) := parseYear s in
  let? s := skip_char "-" s in
  let? (month, s) := getnum s true in
  let? s := skip_char "-" s in
  let? (day, s) := getnum s true in
  let? s := skip_char "T" s in
  let? (hour, s) := getnum s false in
  let? s := skip_char ":" s in
  let? (min, s) := getnum s true in
  let? s := skip_char ":" s in
  let? (sec, s) := getnum s true in
  let '(ns, s) := parseFraction s in
  let? zone := parseZone s in
  if (month <? 1) || (12 <? month) || (day <? 1) || (daysIn month year <? day)
     || (24 <=? hour) || (60 <=? min) || (60 <=? sec)
  then None
  else Some ((daysSinceEpoch year month day * 86400 + hour * 3600 + min * 60 + sec - zone) * 1000000000 + ns).

(** ** Values *)

Inductive ikind := KInt8 | KInt16 | KInt32 | KInt | KInt64 | KUint64.

#[global] Instance ikind_eq_dec : EqDecision ikind.
Proof. solve_decision. Defined.

(** The keys of a filter: a field of the document, by its index, or an operator. *)
Inductive FilterKey :=
  | PropertyIndex (Index : nat)
  | Operator (Operation : string).

(** [any], as far as documents and filters go: nil, scalars, nillable scalars, slices
    of them, documents, and the lists and maps of filter conditions, by key ([VFilter]) and by
    name, as a request has them ([VMap]).  The entries of a map are in the order in which a
    loop over the map visits them. *)
Inductive val :=
  | VNil
  | VBool (b : bool)
  | VInt (k : ikind) (z : Z)
  | VFloat32 (f : spec_float)
  | VFloat64 (f : float64)
  | VString (s : string)
  | VBytes (b : bytes)
  | VTime (t : time)
  | VOptBool (o : option bool)
  | VOptInt (o : option Z)
  | VOptFloat (o : option float64)
  | VOptString (o : option string)
  | VBools (l : list bool)
  | VOptBools (l : list (option bool))
  | VInts (l : list Z)
  | VOptInts (l : list (option Z))
  | VFloats (l : list float64)
  | VOptFloats (l : list (option float64))
  | VStrings (l : list string)
  | VOptStrings (l : list (option string))
  | VList (l : list val)
  | VDoc (d : Doc)
  | VDocs (l : list Doc)
  | VFilter (l : list (FilterKey * val))
  | VMap (l : list (string * val))
with Doc := mkDoc (Hidden : bool) (Fields : list val) (Status : Z).

Definition Hidden (d : Doc) : bool := let 'mkDoc h _ _ := d in h.
Definition Fields (d : Doc) : list val := let 'mkDoc _ fs _ := d in fs.
Definition Status (d : Doc) : Z := let 'mkDoc _ _ st := d in st.

Definition set_Hidden (d : Doc) (h : bool) : Doc := let 'mkDoc _ fs st := d in mkDoc h fs st.
Definition set_Fields (d : Doc) (fs : list val) : Doc := let 'mkDoc h _ st := d in mkDoc h fs st.

(** [v == nil] *)
Definition is_nil (v : val) : bool := match v with VNil => true | _ => false end.

(** Reading and writing a field by its index; both panic out of range. *)
Definition get_field (d : Doc) (i : nat) : result val :=
  match Fields d !! i with Some v => Ok v | None => Panic end.

Definition set_field (d : Doc) (i : nat) (v : val) : result Doc :=
  if decide (i < length (Fields d))%nat then Ok (set_Fields d (<[i := v]> (Fields d))) else Panic.

Lemma get_set_field d i v d' j :
  set_field d i v = Ok d' ->
  get_field d' j = if decide (i = j) then Ok v else get_field d j.
Proof.
  unfold set_field. case_decide as Hi; [|done]. intros [= <-]. unfold get_field.
  destruct d as [h fs st]. cbn [set_Fields Fields] in *. destruct (decide (i = j)) as [<-|Hne].
  - by rewrite list_lookup_insert_eq.
  - by rewrite list_lookup_insert_ne.
Qed.

(** ** Induction over values and documents *)

Section ValInd.
Variables (P : val -> Prop) (Q : Doc -> Prop).
Hypothesis Hbase : forall v, match v with VList _ | VDoc _ | VDocs _ | VFilter _ | VMap _ => True | _ => P v end.
Hypothesis Hlist : forall l, Forall P l -> P (VList l).
Hypothesis Hdoc : forall d, Q d -> P (VDoc d).
Hypothesis Hdocs : forall l, Forall Q l -> P (VDocs l).
Hypothesis Hfilter : forall l, Forall (fun e => P e.2) l -> P (VFilter l).
Hypothesis Hmap : forall l, Forall (fun e => P e.2) l -> P (VMap l).
Hypothesis HDoc : forall h fs st, Forall P fs -> Q (mkDoc h fs st).

Fixpoint val_ind' (v : val) : P v :=
  match v with
  | VList l => Hlist l ((fix go l := match l return Forall P l with
                         | [] => Forall_nil_2 _ | v :: l => Forall_cons_2 _ _ _ (val_ind' v) (go l) end) l)
  | VDoc d => Hdoc d (Doc_ind' d)
  | VDocs l => Hdocs l ((fix go l := match l return Forall Q l with
                         | [] => Forall_nil_2 _ | d :: l => Forall_cons_2 _ _ _ (Doc_ind' d) (go l) end) l)
  | VFilter l => Hfilter l ((fix go l := match l return Forall (fun e => P e.2) l with
                         | [] => Forall_nil_2 _ | e :: l => Forall_cons_2 _ _ _ (val_ind' e.2) (go l) end) l)
  | VMap l => Hmap l ((fix go l := match l return Forall (fun e => P e.2) l with
                         | [] => Forall_nil_2 _ | e :: l => Forall_cons_2 _ _ _ (val_ind' e.2) (go l) end) l)
  | v => Hbase v
  end
with Doc_ind' (d : Doc) : Q d :=
  match d with
  | mkDoc h fs st => HDoc h fs st ((fix go l := match l return Forall P l with
                         | [] => Forall_nil_2 _ | v :: l => Forall_cons_2 _ _ _ (val_ind' v) (go l) end) fs)
  end.
End ValInd.
