(* ===== verification/DocMap.v ===== *)
(** * Documents of the planner and their mappings (core/doc.go)

    A document is a slice of values; a [DocumentMapping] gives names to its indexes,
    says which are rendered and holds the mappings of its sub-documents.  Indexes of
    slices are natural numbers; an access out of range panics, as does a name that the
    mapping does not have. *)

From S2P Require Import Prelude GoStd Values.

Definition DocKeyFieldIndex : nat := 0.

Definition TypeNameFieldName : string := "__typename".

(** ** Documents *)

Definition GetKey (d : Doc) : result string :=
  let! v := get_field d DocKeyFieldIndex in
  Ok (match v with VString s => s | _ => "" end).

Definition SetKey (d : Doc) (key : string) : result Doc := set_field d DocKeyFieldIndex (VString key).

(** [Clone]: the copy is a new [Doc], of which only the fields are filled in. *)
Fixpoint Clone (d : Doc) : Doc :=
  match d with mkDoc _ fs _ => mkDoc false (clone_val <$> fs) 0 end
with clone_val (v : val) : val :=
  match v with
  | VDoc d => VDoc (Clone d)
  | VDocs l => VDocs (Clone <$> l)
  | v => v
  end.

(** ** Mappings *)

Record RenderKey := mkRenderKey { RK_Index : nat; RK_Key : string }.

Record mappingTypeInfo := mkTypeInfo { TI_Index : nat; TI_Name : string }.

Inductive DocumentMapping := mkMapping {
  typeInfo : option mappingTypeInfo;
  RenderKeys : list RenderKey;
  IndexesByName : gmap string (list nat);
  nextIndex : nat;
  ChildMappings : list (option DocumentMapping);
}.

Definition NewDocumentMapping : DocumentMapping := mkMapping None [] ∅ 0 [].

Fixpoint CloneWithoutRender (m : DocumentMapping) : DocumentMapping :=
  match m with
  | mkMapping ti _ ibn next children =>
      mkMapping ti [] ibn next
        ((fun c => match c with Some c => Some (CloneWithoutRender c) | None => None end) <$> children)
  end.

Definition GetNextIndex (m : DocumentMapping) : nat := m.(nextIndex).

Definition NewDoc (m : DocumentMapping) : Doc := mkDoc false (replicate m.(nextIndex) VNil) 0.

(** A name that is not in the map has the nil slice, whose first element is out of
    range. *)
Definition indexes (m : DocumentMapping) (name : string) : list nat := default [] (m.(IndexesByName) !! name).

Definition FirstIndexOfName (m : DocumentMapping) (name : string) : result nat :=
  match indexes m name with i :: _ => Ok i | [] => Panic end.

Definition FirstOfName (m : DocumentMapping) (d : Doc) (name : string) : result val :=
  let! i := FirstIndexOfName m name in get_field d i.

Definition SetFirstOfName (m : DocumentMapping) (d : Doc) (name : string) (value : val) : result Doc :=
  let! i := FirstIndexOfName m name in set_field d i value.

Definition Add (m : DocumentMapping) (index : nat) (name : string) : DocumentMapping :=
  mkMapping m.(typeInfo) m.(RenderKeys)
    (<[name := indexes m name ++ [index]]> m.(IndexesByName))
    (if (m.(nextIndex) <=? index)%nat then Datatypes.S index else m.(nextIndex))
    m.(ChildMappings).

Definition SetTypeName (m : DocumentMapping) (typeName : string) : DocumentMapping :=
  let index := GetNextIndex m in
  let m := Add m index TypeNameFieldName in
  mkMapping (Some (mkTypeInfo index typeName)) m.(RenderKeys) m.(IndexesByName) m.(nextIndex) m.(ChildMappings).

(** The slice of children grows to [index + 1] when the index is its last or beyond. *)
Definition SetChildAt (m : DocumentMapping) (index : nat) (child : option DocumentMapping) : DocumentMapping :=
  let len := length m.(ChildMappings) in
  let newMappings :=
    if Z.of_nat len - 1 <=? Z.of_nat index
    then take (index + 1) m.(ChildMappings) ++ replicate (index + 1 - len) None
    else m.(ChildMappings) in
  mkMapping m.(typeInfo) m.(RenderKeys) m.(IndexesByName) m.(nextIndex) (<[index := child]> newMappings).

(** The names are tried in the order in which the loop visits the map. *)
Fixpoint find_index (targetIndex : nat) (l : list (string * list nat)) : option string :=
  match l with
  | [] => None
  | (name, idxs) :: l => if existsb (Nat.eqb targetIndex) idxs then Some name else find_index targetIndex l
  end.

Fixpoint TryToFindNameFromIndex (m : DocumentMapping) (targetIndex : nat) : option string :=
  match m with
  | mkMapping _ _ ibn _ children =>
      match find_index targetIndex (map_to_list ibn) with
      | Some name => Some name
      | None =>
          (fix go (l : list (option DocumentMapping)) : option string :=
             match l with
             | [] => None
             | None :: l => go l
             | Some c :: l =>
                 match TryToFindNameFromIndex c targetIndex with Some name => Some name | None => go l end
             end) children
      end
  end.

(** ** Rendering *)

Inductive rendered :=
  | RValue (v : val)
  | RMap (m : gmap string rendered)
  | RMaps (l : list (gmap string rendered)).

(** [ChildMappings[i]], then a method call on it: out of range and nil both panic. *)
Definition child_at (m : DocumentMapping) (i : nat) : result DocumentMapping :=
  match m.(ChildMappings) !! i with Some (Some c) => Ok c | _ => Panic end.

(** The rendered documents of a slice: those that are not hidden. *)
Fixpoint render_docs (to_map : Doc -> DocumentMapping -> result (gmap string rendered))
    (inner : option DocumentMapping) (l : list Doc) : result (list (gmap string rendered)) :=
  match l with
  | [] => Ok []
  | d :: l =>
      if Hidden d then render_docs to_map inner l
      else match inner with
           | None => Panic
           | Some c =>
               let! x := to_map d c in
               let! xs := render_docs to_map inner l in
               Ok (x :: xs)
           end
  end.

(** The loop over the render keys; [renders] holds the fields' rendering. *)
Definition render_keys (renders : list (DocumentMapping -> nat -> result rendered)) (m : DocumentMapping)
    (acc : result (gmap string rendered)) (rk : RenderKey) : result (gmap string rendered) :=
  let! out := acc in
  match renders !! rk.(RK_Index) with
  | None => Panic
  | Some render => let! v := render m rk.(RK_Index) in Ok (<[rk.(RK_Key) := v]> out)
  end.

(** [ToMap]; the child mapping of a slice is looked up even when the slice is empty. *)
Fixpoint ToMap (doc : Doc) (m : DocumentMapping) : result (gmap string rendered) :=
  match doc with
  | mkDoc _ fs _ => foldl (render_keys (map render_value fs) m) (Ok ∅) m.(RenderKeys)
  end
with render_value (v : val) (m : DocumentMapping) (i : nat) : result rendered :=
  match v with
  | VDocs l =>
      match m.(ChildMappings) !! i with
      | None => Panic
      | Some inner => let! innerArray := render_docs ToMap inner l in Ok (RMaps innerArray)
      end
  | VDoc d => let! inner := child_at m i in let! x := ToMap d inner in Ok (RMap x)
  | v =>
      match m.(typeInfo) with
      | Some ti => if Nat.eqb i ti.(TI_Index) then Ok (RValue (VString ti.(TI_Name))) else Ok (RValue v)
      | None => Ok (RValue v)
      end
  end.

(** ** Properties of mappings *)

(** The mappings that the operations build. *)
Inductive built : DocumentMapping -> Prop :=
  | built_new : built NewDocumentMapping
  | built_add m index name : built m -> built (Add m index name)
  | built_type m typeName : built m -> built (SetTypeName m typeName)
  | built_child m index child : built m -> built (SetChildAt m index child)
  | built_clone m : built m -> built (CloneWithoutRender m).

(** Every name has an index, and all indexes are below the next one. *)
Definition mapping_wf (m : DocumentMapping) : Prop :=
  map_Forall (fun _ l => l <> [] /\ Forall (fun i => i < nextIndex m)%nat l) m.(IndexesByName).

Lemma mapping_wf_Add m index name : mapping_wf m -> mapping_wf (Add m index name).
Proof.
  intros Hm. unfold mapping_wf, Add. cbn.
  assert (nextIndex m <= (if (nextIndex m <=? index)%nat then S index else nextIndex m) /\
          index < (if (nextIndex m <=? index)%nat then S index else nextIndex m))%nat as [Hle Hlt]
    by (destruct (Nat.leb_spec (nextIndex m) index); lia).
  assert (forall l, Forall (fun i => i < nextIndex m)%nat l ->
    Forall (fun i => i < if (nextIndex m <=? index)%nat then S index else nextIndex m)%nat l) as Hmono.
  { intros l Hl. eapply Forall_impl; [done|]. cbn. lia. }
  apply map_Forall_insert_2.
  - split; [by destruct (indexes m name)|]. apply Forall_app. split; [|by constructor].
    apply Hmono. unfold indexes. destruct (IndexesByName m !! name) as [l|] eqn:E; [|constructor].
    by apply (Hm name l E).
  - intros k l Hk. destruct (Hm k l Hk). auto.
Qed.

Lemma built_wf m : built m -> mapping_wf m.
Proof.
  induction 1 as [|m index name _ IH|m typeName _ IH|m index child _ IH|m _ IH].
  - by apply map_Forall_empty.
  - by apply mapping_wf_Add.
  - by apply (mapping_wf_Add m (nextIndex m) TypeNameFieldName).
  - done.
  - by destruct m.
Qed.

Lemma wf_FirstIndexOfName m name :
  mapping_wf m -> is_Some (m.(IndexesByName) !! name) ->
  exists i, FirstIndexOfName m name = Ok i /\ (i < nextIndex m)%nat.
Proof.
  intros Hm [l Hl]. destruct (Hm name l Hl) as [Hne Hall]. unfold FirstIndexOfName, indexes. rewrite Hl.
  destruct l as [|i l]; [done|]. exists i. by apply Forall_cons in Hall as [? _].
Qed.

(** a document made from a mapping has a cell for every name of the mapping.  On a
    document of that length, setting a name succeeds, reads back, keeps the length and
    every name with another first index; a name that the mapping lacks panics. *)
Theorem SetFirstOfName_spec m d name v :
  built m -> length (Fields d) = nextIndex m ->
  length (Fields (NewDoc m)) = nextIndex m /\
  (is_Some (m.(IndexesByName) !! name) ->
    exists d', SetFirstOfName m d name v = Ok d' /\ FirstOfName m d' name = Ok v /\
      length (Fields d') = nextIndex m /\
      forall name', FirstIndexOfName m name' <> FirstIndexOfName m name ->
        FirstOfName m d' name' = FirstOfName m d name') /\
  (m.(IndexesByName) !! name = None -> SetFirstOfName m d name v = Panic /\ FirstOfName m d name = Panic).
Proof.
  intros Hm%built_wf Hlen. split; [apply length_replicate|]. split.
  - intros Hs. destruct (wf_FirstIndexOfName m name Hm Hs) as (i & Hi & Hlt).
    unfold SetFirstOfName, FirstOfName. rewrite Hi. cbn [rbind].
    destruct (set_field d i v) as [d'|e|] eqn:E; unfold set_field in E; case_decide; try lia; try done.
    exists d'. split; [done|]. assert (set_field d i v = Ok d') as Hset by (unfold set_field; by case_decide).
    split; [by rewrite (get_set_field d i v d' i Hset), decide_True by done|]. split.
    + injection E as <-. destruct d. cbn in *. by rewrite length_insert.
    + intros name' Hne. destruct (FirstIndexOfName m name') as [j|e|]; cbn [rbind]; [|done..].
      rewrite (get_set_field d i v d' j Hset). destruct (decide (i = j)) as [->|]; done.
  - intros Hn. unfold SetFirstOfName, FirstOfName, FirstIndexOfName, indexes. by rewrite Hn.
Qed.

(** ** Cloning and rendering *)

(** No document of a slice is hidden, at any depth. *)
Fixpoint shown (d : Doc) : bool :=
  match d with mkDoc _ fs _ => forallb shown_val fs end
with shown_val (v : val) : bool :=
  match v with
  | VDoc d => shown d
  | VDocs l => forallb (fun d => negb (Hidden d) && shown d) l
  | _ => true
  end.

Lemma Hidden_Clone d : Hidden (Clone d) = false.
Proof. by destruct d. Qed.

Lemma render_docs_Clone inner l :
  Forall (fun d => shown d = true -> forall m, ToMap (Clone d) m = ToMap d m) l ->
  forallb (fun d => negb (Hidden d) && shown d) l = true ->
  render_docs ToMap inner (Clone <$> l) = render_docs ToMap inner l.
Proof.
  induction 1 as [|d l Hd _ IH]; [done|]. cbn [forallb]. rewrite !andb_true_iff, negb_true_iff.
  intros [[Hh Hs] Hl]. cbn [fmap list_fmap render_docs]. rewrite Hidden_Clone, Hh.
  destruct inner as [c|]; [|done]. by rewrite Hd, IH.
Qed.

Lemma render_keys_ext r r' m acc rks :
  length r = length r' -> (forall i f f', r !! i = Some f -> r' !! i = Some f' -> f m i = f' m i) ->
  foldl (render_keys r m) acc rks = foldl (render_keys r' m) acc rks.
Proof.
  intros Hlen Hr. revert acc. induction rks as [|rk rks IH]; intros acc; [done|]. cbn [foldl]. rewrite IH. f_equal.
  unfold render_keys. destruct acc as [out| |]; [|done..]. cbn [rbind].
  destruct (r !! RK_Index rk) as [f|] eqn:E, (r' !! RK_Index rk) as [f'|] eqn:E'; [|..|done].
  - by rewrite (Hr _ f f').
  - apply lookup_lt_Some in E. apply lookup_ge_None in E'. lia.
  - apply lookup_lt_Some in E'. apply lookup_ge_None in E. lia.
Qed.

Lemma ToMap_Clone_shown d : shown d = true -> forall m, ToMap (Clone d) m = ToMap d m.
Proof.
  apply (Doc_ind' (fun v => shown_val v = true -> forall m i, render_value (clone_val v) m i = render_value v m i)
    (fun d => shown d = true -> forall m, ToMap (Clone d) m = ToMap d m)).
  - intros []; done.
  - done.
  - intros d' IH Hs m i. change (clone_val (VDoc d')) with (VDoc (Clone d')).
    assert (forall d, render_value (VDoc d) m i =
      let! inner := child_at m i in let! x := ToMap d inner in Ok (RMap x)) as E by done. rewrite !E.
    destruct (child_at m i); cbn [rbind]; [|done..]. by rewrite IH.
  - intros l IH Hs m i.
    assert (forall l', render_value (VDocs l') m i =
      match ChildMappings m !! i with
      | None => Panic
      | Some inner => let! innerArray := render_docs ToMap inner l' in Ok (RMaps innerArray)
      end) as E by done.
    change (clone_val (VDocs l)) with (VDocs (Clone <$> l)). rewrite !E.
    destruct (ChildMappings m !! i); [|done]. by rewrite render_docs_Clone.
  - done.
  - done.
  - intros h fs st IH Hs m.
    change (foldl (render_keys (map render_value (clone_val <$> fs)) m) (Ok ∅) (RenderKeys m) =
      foldl (render_keys (map render_value fs) m) (Ok ∅) (RenderKeys m)).
    apply render_keys_ext; [by rewrite !length_map|]. intros i f f'.
    rewrite !list_lookup_fmap. destruct (fs !! i) as [v|] eqn:E; [|done]. cbn. intros [= <-] [= <-].
    rewrite Forall_forall in IH. apply list_elem_of_lookup_2 in E. apply IH; [done|].
    change (forallb shown_val fs = true) in Hs. rewrite forallb_forall in Hs. by apply Hs, list_elem_of_In.
Qed.

(** a copy renders like the document it is a copy of, under every mapping and
    including panics, as long as no document of a slice is hidden. *)
Theorem ToMap_Clone d m : shown d = true -> ToMap (Clone d) m = ToMap d m.
Proof. intros Hs. by apply ToMap_Clone_shown. Qed.

(** a copy does not keep the hidden flag, so that a hidden document, which is not
    rendered, is rendered in the copy; nor does it keep the status. *)
Theorem Clone_shows_hidden :
  exists d m, ToMap d m = Ok {["group" := RMaps []]} /\
    ToMap (Clone d) m = Ok {["group" := RMaps [{["name" := RValue (VString "John")]}]]} /\
    Status d <> Status (Clone d).
Proof.
  exists (mkDoc false [VDocs [mkDoc true [VString "John"] 1]] 1),
    (mkMapping None [mkRenderKey 0 "group"] ∅ 1 [Some (mkMapping None [mkRenderKey 0 "name"] ∅ 1 [])]).
  split; [|split]; [vm_compute; reflexivity..|done].
Qed.

(** ** Concrete mappings *)

Module DocWitness.

Definition m0 : DocumentMapping := SetTypeName (Add (Add NewDocumentMapping 0 "_key") 1 "name") "User".

Lemma m0_built : built m0.
Proof. repeat constructor. Qed.

Lemma SetFirstOfName_spec_witness :
  exists d', SetFirstOfName m0 (NewDoc m0) "name" (VString "John") = Ok d' /\
    FirstOfName m0 d' "name" = Ok (VString "John").
Proof.
  destruct (SetFirstOfName_spec m0 (NewDoc m0) "name" (VString "John")) as (_ & Hs & _);
    [apply m0_built|reflexivity|].
  destruct Hs as (d' & E & Hg & _); [by exists [1%nat]|]. exists d'. split; [exact E|exact Hg].
Defined.

Lemma ToMap_Clone_witness :
  let d := mkDoc false [VString "bae-1"; VString "John"; VNil] 1 in
  shown d = true /\ ToMap (Clone d) m0 = ToMap d m0.
Proof. split; [reflexivity|]. apply (ToMap_Clone (mkDoc false [VString "bae-1"; VString "John"; VNil] 1) m0). reflexivity. Defined.
End DocWitness.
