(* ===== verification/Connor.v ===== *)
(** * Filters (connor)

    The language of conditions that select documents.  A condition is matched against
    a value by [eq]; a map of conditions matches when each of its entries does, an
    entry being a property of the document or an operator.  The keys of the maps are
    those of planner/mapper/targetable.go.  [connor.Match] and the operators are
    mutually recursive through [eq], which every operator takes as an argument here. *)

From Stdlib Require Import Ascii.
From S2P Require Import Prelude GoStd Values.

Definition ErrTimeParse : error := ErrNew "parsing time".

(** ** Numbers (connor/numbers) *)

(** The check of the conversion from uint64 compares the integer with its own image,
    which always agrees. *)
Definition TryUpcast (n : val) : val :=
  match n with
  | VInt KUint64 z =>
      let nnn := i64 z in
      if u64 nnn =? z then VInt KInt64 nnn else n
  | VInt _ z => VInt KInt64 z
  | VFloat32 f => VFloat64 (f64_of_f32 f)
  | v => v
  end.

Definition numbers_Equal (condition data : val) : bool :=
  match TryUpcast condition with
  | VInt KInt64 ucv =>
      match TryUpcast data with
      | VInt KInt64 udv => ucv =? udv
      | VFloat64 udv => let fucv := f64_of_Z ucv in f64_eqb fucv udv && (Z_of_f64 fucv =? ucv)
      | _ => false
      end
  | VFloat64 ucv =>
      match TryUpcast data with
      | VFloat64 udv => f64_eqb ucv udv
      | VInt KInt64 udv => let iucv := Z_of_f64 ucv in (iucv =? udv) && f64_eqb (f64_of_Z iucv) ucv
      | _ => false
      end
  | _ => false
  end.

(** ** Times (connor/time) *)

Definition time_Equal (condition data : val) : bool :=
  match condition with
  | VTime c =>
      match data with
      | VTime d => d =? c
      | VString s => match time_Parse s with Some d => d =? c | None => false end
      | _ => false
      end
  | _ => false
  end.

(** ** Filter keys *)

(** A field of nil is nil; a field of anything but a document panics. *)
Definition GetProp (k : FilterKey) (data : val) : result val :=
  match k with
  | PropertyIndex i =>
      match data with
      | VNil => Ok VNil
      | VDoc d => get_field d i
      | _ => Panic
      end
  | Operator _ => Ok data
  end.

Definition GetOperatorOrDefault (k : FilterKey) (defaultOp : string) : string :=
  match k with PropertyIndex _ => defaultOp | Operator op => op end.

(** ** Deep equality

    [reflect.DeepEqual] on the values that are left to it.  The data of a document
    never hold a condition map. *)

Definition list_eqb {A} (f : A -> A -> bool) : list A -> list A -> bool :=
  fix go l1 l2 :=
    match l1, l2 with
    | [], [] => true
    | x :: l1, y :: l2 => f x y && go l1 l2
    | _, _ => false
    end.

Definition option_eqb {A} (f : A -> A -> bool) (a b : option A) : bool :=
  match a, b with Some x, Some y => f x y | None, None => true | _, _ => false end.

Fixpoint DeepEqual (a b : val) : bool :=
  match a, b with
  | VNil, VNil => true
  | VBool x, VBool y => Bool.eqb x y
  | VInt k x, VInt k' y => bool_decide (k = k') && (x =? y)
  | VFloat32 x, VFloat32 y | VFloat64 x, VFloat64 y => f64_eqb x y
  | VString x, VString y | VBytes x, VBytes y => String.eqb x y
  | VTime x, VTime y => x =? y
  | VOptBool x, VOptBool y => option_eqb Bool.eqb x y
  | VOptInt x, VOptInt y => option_eqb Z.eqb x y
  | VOptFloat x, VOptFloat y => option_eqb f64_eqb x y
  | VOptString x, VOptString y => option_eqb String.eqb x y
  | VBools x, VBools y => list_eqb Bool.eqb x y
  | VOptBools x, VOptBools y => list_eqb (option_eqb Bool.eqb) x y
  | VInts x, VInts y => list_eqb Z.eqb x y
  | VOptInts x, VOptInts y => list_eqb (option_eqb Z.eqb) x y
  | VFloats x, VFloats y => list_eqb f64_eqb x y
  | VOptFloats x, VOptFloats y => list_eqb (option_eqb f64_eqb) x y
  | VStrings x, VStrings y => list_eqb String.eqb x y
  | VOptStrings x, VOptStrings y => list_eqb (option_eqb String.eqb) x y
  | VList x, VList y => list_eqb DeepEqual x y
  | VDoc x, VDoc y => Doc_DeepEqual x y
  | VDocs x, VDocs y => list_eqb Doc_DeepEqual x y
  | VMap x, VMap y =>
      Nat.eqb (length x) (length y) && forallb (fun e => existsb (fun e' => String.eqb e.1 e'.1 && DeepEqual e.2 e'.2) y) x
  | _, _ => false
  end
with Doc_DeepEqual (a b : Doc) : bool :=
  match a, b with
  | mkDoc h fs st, mkDoc h' fs' st' => Bool.eqb h h' && list_eqb DeepEqual fs fs' && (st =? st')
  end.

(** ** Ordering operators *)

(** A time condition: the data are a time, or a string that is parsed as one. *)
Definition with_time (test : time -> bool) (data : val) : result bool :=
  match data with
  | VTime d => Ok (test d)
  | VString s => match time_Parse s with Some d => Ok (test d) | None => Err ErrTimeParse end
  | _ => Err ErrUnhandledType
  end.

Definition ge (condition data : val) : result bool :=
  match condition with
  | VNil => Ok true
  | VTime c => with_time (fun d => (c <? d) || (d =? c)) data
  | _ =>
      match TryUpcast condition with
      | VFloat64 cn =>
          Ok (match TryUpcast data with
              | VFloat64 dn => f64_leb cn dn
              | VInt KInt64 dn => f64_ltb cn (f64_of_Z dn)
              | _ => false
              end)
      | VInt KInt64 cn =>
          Ok (match TryUpcast data with
              | VFloat64 dn => f64_leb (f64_of_Z cn) dn
              | VInt KInt64 dn => cn <=? dn
              | _ => false
              end)
      | _ => Err ErrUnhandledType
      end
  end.

Definition gt (condition data : val) : result bool :=
  match condition with
  | VNil => Ok (negb (is_nil data))
  | VTime c => with_time (fun d => c <? d) data
  | _ =>
      match TryUpcast condition with
      | VFloat64 cn =>
          Ok (match TryUpcast data with
              | VFloat64 dn => f64_ltb cn dn
              | VInt KInt64 dn => f64_ltb cn (f64_of_Z dn)
              | _ => false
              end)
      | VInt KInt64 cn =>
          Ok (match TryUpcast data with
              | VFloat64 dn => f64_ltb (f64_of_Z cn) dn
              | VInt KInt64 dn => cn <? dn
              | _ => false
              end)
      | _ => Err ErrUnhandledType
      end
  end.

Definition le (condition data : val) : result bool :=
  match condition with
  | VNil => Ok (is_nil data)
  | VTime c => with_time (fun d => (d <? c) || (d =? c)) data
  | _ =>
      match TryUpcast condition with
      | VFloat64 cn =>
          Ok (match TryUpcast data with
              | VFloat64 dn => f64_leb dn cn
              | VInt KInt64 dn => f64_leb (f64_of_Z dn) cn
              | _ => false
              end)
      | VInt KInt64 cn =>
          Ok (match TryUpcast data with
              | VFloat64 dn => f64_leb dn (f64_of_Z cn)
              | VInt KInt64 dn => dn <=? cn
              | _ => false
              end)
      | _ => Err ErrUnhandledType
      end
  end.

Definition lt (condition data : val) : result bool :=
  match condition with
  | VNil => Ok false
  | VTime c => with_time (fun d => d <? c) data
  | _ =>
      match TryUpcast condition with
      | VFloat64 cn =>
          Ok (match TryUpcast data with
              | VFloat64 dn => f64_ltb dn cn
              | VInt KInt64 dn => f64_ltb (f64_of_Z dn) cn
              | _ => false
              end)
      | VInt KInt64 cn =>
          Ok (match TryUpcast data with
              | VFloat64 dn => f64_ltb dn (f64_of_Z cn)
              | VInt KInt64 dn => dn <? cn
              | _ => false
              end)
      | _ => Err ErrUnhandledType
      end
  end.

(** ** Patterns *)

Definition first_is (c : ascii) (s : string) : bool :=
  match s with String c' _ => Ascii.eqb c' c | "" => false end.

Fixpoint last_is (c : ascii) (s : string) : bool :=
  match s with
  | "" => false
  | String c' "" => Ascii.eqb c' c
  | String _ s' => last_is c s'
  end.

(** A string against a pattern with [%] for any characters at its start, at its end or
    once in the middle; patterns of fewer than two bytes are literal. *)
Definition like_string (cn d : string) : bool :=
  if (2 <=? String.length cn)%nat then
    let hasPrefix := first_is "%" cn in
    let cn := if hasPrefix then TrimPrefix cn "%" else cn in
    let hasSuffix := last_is "%" cn in
    let cn := if hasSuffix then TrimSuffix cn "%" else cn in
    match hasPrefix, hasSuffix with
    | true, true => Contains d cn
    | true, false => HasSuffix d cn
    | false, true => HasPrefix d cn
    | false, false =>
        match Split cn "%" with
        | [s; e] => HasPrefix d s && HasSuffix d e
        | _ => String.eqb cn d
        end
    end
  else String.eqb cn d.

Definition like (condition data : val) : result bool :=
  match data with
  | VOptString None => Ok (is_nil condition)
  | _ =>
      let data := match data with VOptString (Some s) => VString s | _ => data end in
      match condition with
      | VString cn => Ok (match data with VString d => like_string cn d | _ => false end)
      | _ => Err ErrUnhandledType
      end
  end.

(** Inverting the result of an operator. *)
Definition invert (r : result bool) : result bool := let! m := r in Ok (negb m).

Definition nlike (conditions data : val) : result bool := invert (like conditions data).

(** ** Matching *)

(** The loops over a list of conditions. *)
Section Loops.
Variable test : val -> result bool.

Fixpoint all_of (cn : list val) : result bool :=
  match cn with
  | [] => Ok true
  | c :: cn => let! m := test c in if m then all_of cn else Ok false
  end.

Fixpoint any_of (cn : list val) : result bool :=
  match cn with
  | [] => Ok false
  | c :: cn => let! m := test c in if m then Ok true else any_of cn
  end.
End Loops.

Section Operators.
Variable eq : val -> val -> result bool.

Definition and (condition data : val) : result bool :=
  match condition with VList cn => all_of (fun c => eq c data) cn | _ => Err ErrUnhandledType end.

Definition or (condition data : val) : result bool :=
  match condition with VList cn => any_of (fun c => eq c data) cn | _ => Err ErrUnhandledType end.

Definition in_ (conditions data : val) : result bool :=
  match conditions with VList cn => any_of (fun ce => eq ce data) cn | _ => Err ErrUnhandledType end.

Definition nin (conditions data : val) : result bool := invert (in_ conditions data).

Definition ne (conditions data : val) : result bool := invert (eq conditions data).

Definition matchWith (op : string) (conditions data : val) : result bool :=
  if String.eqb op "_and" then and conditions data
  else if String.eqb op "_eq" then eq conditions data
  else if String.eqb op "_ge" then ge conditions data
  else if String.eqb op "_gt" then gt conditions data
  else if String.eqb op "_in" then in_ conditions data
  else if String.eqb op "_le" then le conditions data
  else if String.eqb op "_lt" then lt conditions data
  else if String.eqb op "_ne" then ne conditions data
  else if String.eqb op "_nin" then nin conditions data
  else if String.eqb op "_or" then or conditions data
  else if String.eqb op "_like" then like conditions data
  else if String.eqb op "_nlike" then nlike conditions data
  else Err (ErrUnknownOperator op).

(** The entries of a condition map, until one fails. *)
Fixpoint match_props (data : val) (cn : list (FilterKey * val)) : result bool :=
  match cn with
  | [] => Ok true
  | (prop, cond) :: cn =>
      let! d := GetProp prop data in
      let! m := matchWith (GetOperatorOrDefault prop "_eq") cond d in
      if m then match_props data cn else Ok false
  end.

(** The second switch of [eq]. *)
Definition eq_value (condition data : val) : result bool :=
  match condition with
  | VString cn => Ok (match data with VString d => String.eqb d cn | _ => false end)
  | VInt KInt64 _ | VInt KInt32 _ | VFloat64 _ => Ok (numbers_Equal condition data)
  | VFilter cn => match_props data cn
  | VTime _ => Ok (time_Equal condition data)
  | _ => Ok (DeepEqual condition data)
  end.
End Operators.

Fixpoint any_doc (test : Doc -> result bool) (arr : list Doc) : result bool :=
  match arr with
  | [] => Ok false
  | item :: arr => let! m := test item in if m then Ok true else any_doc test arr
  end.

(** [eq]: a slice of documents matches when one of them does; a nillable value without
    a value matches nil only. *)
Fixpoint eq (condition data : val) {struct condition} : result bool :=
  match data with
  | VDocs arr => any_doc (fun item => eq_value eq condition (VDoc item)) arr
  | VOptBool None | VOptInt None | VOptFloat None | VOptString None => Ok (is_nil condition)
  | VOptBool (Some b) => eq_value eq condition (VBool b)
  | VOptInt (Some z) => eq_value eq condition (VInt KInt64 z)
  | VOptFloat (Some f) => eq_value eq condition (VFloat64 f)
  | VOptString (Some s) => eq_value eq condition (VString s)
  | _ => eq_value eq condition data
  end.

Definition Match (conditions : list (FilterKey * val)) (data : val) : result bool := eq (VFilter conditions) data.

(** [mapper.RunFilter]: without a filter everything passes. *)
Definition RunFilter (doc : val) (filter : option (list (FilterKey * val))) : result bool :=
  match filter with None => Ok true | Some conditions => Match conditions doc end.

(** ** Maps of conditions *)

(** The outcome of one entry. *)
Definition entry_result (data : val) (e : FilterKey * val) : result bool :=
  let! d := GetProp e.1 data in matchWith eq (GetOperatorOrDefault e.1 "_eq") e.2 d.

Definition holds (data : val) (e : FilterKey * val) : bool :=
  match entry_result data e with Ok b => b | _ => false end.

Lemma match_props_holds data cn :
  Forall (fun e => is_ok (entry_result data e) = true) cn ->
  match_props eq data cn = Ok (forallb (holds data) cn).
Proof.
  induction 1 as [|[k c] cn He _ IH]; [done|]. cbn [match_props forallb]. unfold holds at 1.
  unfold entry_result in *. cbn [fst snd] in *. destruct (GetProp k data) as [d| |]; cbn [rbind] in *; [|done..].
  destruct (matchWith eq _ c d) as [[]| |]; cbn [rbind] in *; done.
Qed.

Lemma forallb_perm {A} (f : A -> bool) l l' : l ≡ₚ l' -> forallb f l = forallb f l'.
Proof.
  intros Hp. apply Bool.eq_iff_eq_true. rewrite !forallb_forall.
  split; intros Hf x Hx%list_elem_of_In; apply Hf, list_elem_of_In; [by rewrite Hp|by rewrite <- Hp].
Qed.

(** ** Numbers *)

(** A number, its upcast: an integer or a float that is not NaN. *)
Inductive number : val -> Prop :=
  | number_int v z : TryUpcast v = VInt KInt64 z -> number v
  | number_float v f : TryUpcast v = VFloat64 f -> f64_nan f = false -> number v.

Definition is_float (v : val) : bool := match TryUpcast v with VFloat64 _ => true | _ => false end.

(** ** Patterns *)

Lemma first_is_free c x : free_of c x = true -> first_is c x = false.
Proof. destruct x; [done|]. cbn. by rewrite Bool.andb_true_iff, Bool.negb_true_iff; intros [? _]. Qed.

Lemma first_is_app c x y : x <> "" -> first_is c (x +:+ y) = first_is c x.
Proof. by destruct x. Qed.

Lemma last_is_free c x : free_of c x = true -> last_is c x = false.
Proof.
  induction x as [|a x IH]; [done|]. cbn. rewrite Bool.andb_true_iff, Bool.negb_true_iff. intros [Ha Hx].
  destruct x; [done|by apply IH].
Qed.

Lemma last_is_app c x y : y <> "" -> last_is c (x +:+ y) = last_is c y.
Proof.
  intros Hy. induction x as [|a x IH]; [done|]. rewrite str_app_cons. cbn [last_is].
  destruct (x +:+ y) eqn:E; [by destruct x|done].
Qed.

Lemma TrimSuffix_app s suf : TrimSuffix (s +:+ suf) suf = s.
Proof.
  unfold TrimSuffix. destruct (HasSuffix (s +:+ suf) suf) eqn:E.
  - rewrite str_app_length. replace (_ + _ - _)%nat with (String.length s) by lia.
    clear E. induction s as [|a s IH]; [by destruct suf|]. rewrite str_app_cons. cbn. by rewrite IH.
  - exfalso. apply Bool.not_true_iff_false in E. apply E, HasSuffix_spec. by exists s.
Qed.

Lemma str_len_pos x : x <> "" -> (1 <= String.length x)%nat.
Proof. destruct x; [done|]. cbn. lia. Qed.

(** What [like_string] does once the pattern is long enough. *)
Lemma like_string_long cn d :
  (2 <= String.length cn)%nat ->
  like_string cn d =
    let hasPrefix := first_is "%" cn in
    let cn := if hasPrefix then TrimPrefix cn "%" else cn in
    let hasSuffix := last_is "%" cn in
    let cn := if hasSuffix then TrimSuffix cn "%" else cn in
    match hasPrefix, hasSuffix with
    | true, true => Contains d cn
    | true, false => HasSuffix d cn
    | false, true => HasPrefix d cn
    | false, false =>
        match Split cn "%" with
        | [s; e] => HasPrefix d s && HasSuffix d e
        | _ => String.eqb cn d
        end
    end.
Proof. intros Hl. unfold like_string. by destruct (Nat.leb_spec 2 (String.length cn)); [|lia]. Qed.

(** ** Properties *)

(** a map of conditions whose entries can all be evaluated matches a document when
    every entry does, in whatever order the map is visited. *)
Theorem Match_order conditions conditions' d :
  conditions ≡ₚ conditions' ->
  Forall (fun e => is_ok (entry_result (VDoc d) e) = true) conditions ->
  Match conditions (VDoc d) = Ok (forallb (holds (VDoc d)) conditions) /\
  Match conditions' (VDoc d) = Match conditions (VDoc d).
Proof.
  intros Hp Hok. assert (forall cn, Match cn (VDoc d) = match_props eq (VDoc d) cn) as E by done.
  rewrite !E, !match_props_holds by (try done; by rewrite <- Hp).
  by rewrite (forallb_perm _ _ _ Hp).
Qed.

(** on numbers the ordering operators agree with one another: [_lt] is the
    opposite of [_ge] and [_gt] of [_le], and the weak ones are implied by the strict.
    The exception is [_ge] with a float condition on an integer, which is [_gt]. *)
Theorem ordering_operators c d :
  number c -> number d ->
  exists l g, lt c d = Ok l /\ gt c d = Ok g /\ le c d = Ok (negb g) /\
    ge c d = Ok (if is_float c && negb (is_float d) then g else negb l) /\ l && g = false.
Proof.
  intros Hc Hd.
  assert (c <> VNil /\ forall t, c <> VTime t) as [Hc1 Hc2] by (destruct Hc as [[] z E|[] f E Hf]; done).
  assert (forall A (r1 : A) (r2 : time -> A) r3,
    match c with VNil => r1 | VTime t => r2 t | _ => r3 end = r3) as Hr by (destruct c; try done; by destruct (Hc2 t)).
  unfold lt, gt, le, ge. rewrite !Hr. unfold is_float.
  destruct Hc as [c zc Ec|c fc Ec Hfc], Hd as [d zd Ed|d fd Ed Hfd]; rewrite Ec, Ed; cbn [andb negb];
    eexists _, _; (split; [done|]); (split; [done|]).
  - rewrite <- !Z.leb_antisym. split; [done|]. split; [done|]. lia.
  - rewrite <- !f64_leb_negb, f64_ltb_asym by auto using f64_of_Z_nan. done.
  - rewrite <- !f64_leb_negb, f64_ltb_asym by auto using f64_of_Z_nan. done.
  - rewrite <- !f64_leb_negb, f64_ltb_asym by done. done.
Qed.

(** [_like] on the documented forms of a pattern: [%x%] finds the strings that
    contain [x], [%x] those that end with it, [x%] those that start with it, [x%y]
    those that start with [x] and end with [y] (the two may overlap), and a pattern
    without [%] is literal. *)
Theorem like_string_spec x y d :
  x <> "" -> y <> "" -> free_of "%" x = true -> free_of "%" y = true ->
  (like_string ("%" +:+ x +:+ "%") d = true <-> exists a b, d = a +:+ x +:+ b) /\
  (like_string ("%" +:+ x) d = true <-> exists a, d = a +:+ x) /\
  (like_string (x +:+ "%") d = true <-> str_prefix x d) /\
  (like_string (x +:+ "%" +:+ y) d = true <-> str_prefix x d /\ exists a, d = a +:+ y) /\
  (like_string x d = true <-> d = x).
Proof.
  intros Hx Hy Fx Fy. pose proof (str_len_pos x Hx). pose proof (str_len_pos y Hy).
  assert (last_is "%" (x +:+ "%") = true) as Hl1 by by rewrite last_is_app.
  pose proof (last_is_free _ _ Fx) as Hl2. pose proof (last_is_free _ _ Fy) as Hl3.
  pose proof (first_is_free _ _ Fx) as Hf.
  assert (forall s, first_is "%" ("%" +:+ s) = true) as Hp by done.
  split; [|split; [|split; [|split]]].
  - rewrite like_string_long by (rewrite !str_app_length; cbn; lia).
    cbv zeta. rewrite Hp, TrimPrefix_app, Hl1, TrimSuffix_app. apply Contains_spec.
  - rewrite like_string_long by (rewrite !str_app_length; cbn; lia).
    cbv zeta. rewrite Hp, TrimPrefix_app, Hl2. apply HasSuffix_spec.
  - rewrite like_string_long by (rewrite !str_app_length; cbn; lia).
    cbv zeta. rewrite first_is_app, Hf, Hl1, TrimSuffix_app by done. apply HasPrefix_spec.
  - rewrite like_string_long by (rewrite !str_app_length; cbn; lia).
    cbv zeta. rewrite first_is_app, Hf by done.
    rewrite last_is_app, last_is_app, Hl3 by (done || by destruct y).
    change ("%" +:+ y) with (String "%" y). rewrite Split_app, Split_free by done.
    by rewrite Bool.andb_true_iff, HasPrefix_spec, HasSuffix_spec.
  - unfold like_string. destruct (Nat.leb_spec 2 (String.length x)).
    + cbv zeta. rewrite Hf, Hl2, Split_free by done. rewrite String.eqb_eq. naive_solver.
    + rewrite String.eqb_eq. naive_solver.
Qed.

(** the conversion of a uint64 is taken to be safe always: a number from 2^63 on
    becomes negative, and then compares as less than 0. *)
Theorem TryUpcast_uint64 z :
  is_u64 z ->
  TryUpcast (VInt KUint64 z) = VInt KInt64 (i64 z) /\
  (2 ^ 63 <= z -> lt (VInt KInt64 0) (VInt KUint64 z) = Ok true).
Proof.
  intros Hz. unfold is_u64 in Hz.
  assert ((u64 (i64 z) =? z) = true) as E.
  { apply Z.eqb_eq. unfold u64, i64. rewrite Zminus_mod, Zmod_mod, <- Zminus_mod.
    replace (z + 2 ^ 63 - 2 ^ 63) with z by lia. apply Z.mod_small. lia. }
  split; [cbn; by rewrite E|]. intros Hge. cbn -[Z.ltb]. rewrite E. f_equal. apply Z.ltb_lt.
  unfold i64. replace (z + 2 ^ 63) with (z - 2 ^ 63 + 1 * 2 ^ 64) by lia. rewrite Z.mod_add by lia.
  rewrite Z.mod_small by lia. lia.
Qed.

(** ** Concrete filters *)

Module ConnorWitness.

(** [{name: {_like: "%oh%"}, age: {_ge: 21}}] over a user. *)
Definition by_name : FilterKey * val :=
  (PropertyIndex 1, VFilter [(Operator "_like", VString "%oh%")]).
Definition by_age : FilterKey * val := (PropertyIndex 2, VFilter [(Operator "_ge", VInt KInt64 21)]).
Definition john : Doc := mkDoc false [VString "bae-1"; VOptString (Some "John"); VInt KInt64 21] 1.

Lemma Match_order_witness :
  Match [by_name; by_age] (VDoc john) = Ok true /\ Match [by_age; by_name] (VDoc john) = Ok true.
Proof.
  destruct (Match_order [by_name; by_age] [by_age; by_name] john) as [E1 E2].
  - apply Permutation_swap.
  - repeat constructor.
  - rewrite E2, E1. split; vm_compute; reflexivity.
Defined.

Lemma ordering_operators_witness :
  ge (VFloat64 (f64_of_Z 5)) (VInt KInt64 5) = Ok false /\ le (VFloat64 (f64_of_Z 5)) (VInt KInt64 5) = Ok true.
Proof.
  destruct (ordering_operators (VFloat64 (f64_of_Z 5)) (VInt KInt64 5)) as (l & g & Hl & Hg & Hle & Hge & _).
  - by eapply number_float.
  - by eapply number_int.
  - vm_compute in Hl, Hg. injection Hl as <-. injection Hg as <-. rewrite Hle, Hge. split; reflexivity.
Defined.

Lemma like_string_spec_witness : like_string "Jo%hn" "John" = true.
Proof.
  destruct (like_string_spec "Jo" "hn" "John") as (_ & _ & _ & E & _); [discriminate|discriminate|reflexivity..|].
  apply E. split; [by exists "hn"|by exists "Jo"].
Defined.

Lemma TryUpcast_uint64_witness : lt (VInt KInt64 0) (VInt KUint64 (2 ^ 63)) = Ok true.
Proof. apply (TryUpcast_uint64 (2 ^ 63)); [split; [discriminate|reflexivity]|discriminate]. Defined.
End ConnorWitness.
