(* ===== verification/Plan.v ===== *)
(** * Plan nodes (planner): limits, pipes and ordering

    A plan is a tree of nodes; a node pulls documents out of its source with [Next] and
    gives the current one with [Value].  The interface is the class [PlanNode]; a node
    over a source is a state that contains the state of the source.  What a node
    delivers is the relation [yields]: the documents of successive calls and the
    result of the call that ends them. *)

From S2P Require Import Prelude GoStd Values DocMap Connor Store.

(** ** The interface *)

Class PlanNode (N : Type) := {
  pn_Init : M N unit;
  pn_Next : M N bool;
  pn_Value : N -> Doc;
}.

(** The calls of [Next] until one does not return true. *)
Inductive yields {N} `{PlanNode N} : N -> list Doc -> result bool -> Prop :=
  | yields_end n r : (pn_Next n).2 = r -> r <> Ok true -> yields n [] r
  | yields_doc n n' docs r :
      pn_Next n = (n', Ok true) -> yields n' docs r -> yields n (pn_Value n' :: docs) r.

(** ** The document container (db/container) *)

Definition DocumentContainer : Type := list Doc.

Definition NewDocumentContainer (capacity : nat) : DocumentContainer := replicate capacity (mkDoc false [] 0).
Definition Container_At (c : list Doc) (index : Z) : result Doc :=
  if index <? 0 then Panic else match c !! Z.to_nat index with Some d => Ok d | None => Panic end.
Definition Container_Len (c : DocumentContainer) : Z := Z.of_nat (length c).
Definition AddDoc (c : DocumentContainer) (doc : Doc) : DocumentContainer := c ++ [Clone doc].
Definition Container_Swap (c : list Doc) (i j : Z) : result (list Doc) :=
  let! di := Container_At c i in
  let! dj := Container_At c j in
  Ok (<[Z.to_nat j := di]> (<[Z.to_nat i := dj]> c)).

(** ** Limits *)

Section Limit.
Context {N : Type} `{PlanNode N}.

Record limitNode := mkLimit { l_plan : N; l_limit : Z; l_offset : Z; l_rowIndex : Z }.

Definition Limit_new (plan : N) (limit offset : Z) : limitNode := mkLimit plan limit offset 0.

Definition limit_Init : M limitNode unit := fun n =>
  let '(plan, r) := pn_Init n.(l_plan) in
  (mkLimit plan n.(l_limit) n.(l_offset) 0, r).

(** The loop pulls documents until the row index is beyond the offset, which takes at
    most one round more than the offset. *)
Fixpoint limit_loop (fuel : nat) (n : limitNode) : limitNode * result bool :=
  match fuel with
  | O => (n, Panic)
  | Datatypes.S fuel =>
      let '(plan, r) := pn_Next n.(l_plan) in
      match r with
      | Ok true =>
          let n := mkLimit plan n.(l_limit) n.(l_offset) (u64 (n.(l_rowIndex) + 1)) in
          if n.(l_offset) <? n.(l_rowIndex) then (n, Ok true) else limit_loop fuel n
      | r => (mkLimit plan n.(l_limit) n.(l_offset) n.(l_rowIndex), r)
      end
  end.

Definition limit_Next : M limitNode bool := fun n =>
  if negb (n.(l_limit) =? 0) && (u64 (n.(l_limit) + n.(l_offset)) <=? n.(l_rowIndex)) then (n, Ok false)
  else limit_loop (Datatypes.S (Z.to_nat n.(l_offset))) n.

#[global] Instance PlanNode_limit : PlanNode limitNode := {|
  pn_Init := limit_Init;
  pn_Next := limit_Next;
  pn_Value n := pn_Value n.(l_plan) |}.
End Limit.
Arguments limitNode : clear implicits.

(** ** Comparison of values (db/base/compare.go) *)

Definition compareNil (a b : val) : Z :=
  if is_nil a && is_nil b then 0 else if is_nil b && negb (is_nil a) then 1 else -1.

Definition compareBool (a b : bool) : Z := if Bool.eqb a b then 0 else if a && negb b then 1 else -1.
Definition compareInt (a b : Z) : Z := if a =? b then 0 else if b <? a then 1 else -1.
Definition compareFloat (a b : float64) : Z := if f64_eqb a b then 0 else if f64_ltb b a then 1 else -1.
Definition compareTime (a b : time) : Z := if a =? b then 0 else if b <? a then 1 else -1.
Definition compareString (a b : string) : Z :=
  if String.eqb a b then 0 else if String.ltb a b then -1 else 1.

(** [Compare]: a type assertion that fails panics; the case of [int] asserts int64. *)
Definition Compare (a b : val) : result Z :=
  if is_nil a || is_nil b then Ok (compareNil a b)
  else match a with
  | VBool v => match b with VBool w => Ok (compareBool v w) | _ => Panic end
  | VInt KInt v | VInt KInt64 v => match b with VInt KInt64 w => Ok (compareInt v w) | _ => Panic end
  | VInt KUint64 v => match b with VInt KUint64 w => Ok (compareInt v w) | _ => Panic end
  | VFloat64 v => match b with VFloat64 w => Ok (compareFloat v w) | _ => Panic end
  | VTime v => match b with VTime w => Ok (compareTime v w) | _ => Panic end
  | VString v => match b with VString w => Ok (compareString v w) | _ => Panic end
  | VBytes v => match b with VBytes w => Ok (compareString v w) | _ => Panic end
  | _ => Ok 0
  end.

(** ** Ordering *)

Inductive SortDirection := ASC | DESC.

Record OrderCondition := mkOrder { FieldIndexes : list nat; Direction : SortDirection }.

Fixpoint getMapPropList (obj : Doc) (p : nat) (props : list nat) : result val :=
  match props with
  | [] => get_field obj p
  | p' :: props =>
      let! v := get_field obj p in
      match v with VDoc subObj => getMapPropList subObj p' props | _ => Ok VNil end
  end.

Definition getDocProp (obj : Doc) (prop : list nat) : result val :=
  match prop with [] => Ok VNil | p :: props => getMapPropList obj p props end.

(** The loop returns in its first round. *)
Definition docValueLess (ordering : list OrderCondition) (docA docB : Doc) : result bool :=
  match ordering with
  | [] => Ok false
  | order :: _ =>
      let! a := getDocProp docA order.(FieldIndexes) in
      let! b := getDocProp docB order.(FieldIndexes) in
      let! compare := Compare a b in
      Ok (match order.(Direction) with DESC => 0 <? compare | ASC => compare <? 0 end)
  end.

(** [sort.Stable] by insertion, from the front: a document moves down past those that
    it is less than.  Larger inputs are merged from blocks sorted this way, which for a
    strict weak order gives the same list. *)
Section Stable.
Variable less : Doc -> Doc -> result bool.

Fixpoint insert_down (x : Doc) (rev_sorted : list Doc) : result (list Doc) :=
  match rev_sorted with
  | [] => Ok [x]
  | y :: l =>
      let! b := less x y in
      if b then let! l := insert_down x l in Ok (y :: l) else Ok (x :: y :: l)
  end.

Fixpoint stable_sort_go (rev_sorted l : list Doc) : result (list Doc) :=
  match l with
  | [] => Ok (rev rev_sorted)
  | x :: l => let! s := insert_down x rev_sorted in stable_sort_go s l
  end.

Definition stable_sort (l : list Doc) : result (list Doc) := stable_sort_go [] l.
End Stable.

Record valuesNode := mkValues { v_ordering : list OrderCondition; v_docs : DocumentContainer; v_docIndex : Z }.

Definition newContainerValuesNode (ordering : list OrderCondition) : valuesNode :=
  mkValues ordering (NewDocumentContainer 0) (-1).

Definition values_Next : M valuesNode bool := fun n =>
  if Container_Len n.(v_docs) - 1 <=? n.(v_docIndex) then (n, Ok false)
  else (mkValues n.(v_ordering) n.(v_docs) (n.(v_docIndex) + 1), Ok true).

Definition SortAll (n : valuesNode) : result valuesNode :=
  let! docs := stable_sort (docValueLess n.(v_ordering)) n.(v_docs) in
  Ok (mkValues n.(v_ordering) docs n.(v_docIndex)).

Definition zeroDoc : Doc := mkDoc false [] 0.

Definition values_Value (n : valuesNode) : Doc :=
  match Container_At n.(v_docs) n.(v_docIndex) with Ok d => d | _ => zeroDoc end.

Section Order.
Context {N : Type} `{PlanNode N}.

(** The strategy is the values node in which the documents are collected. *)
Record orderNode := mkOrderNode {
  o_plan : N;
  o_ordering : list OrderCondition;
  o_orderStrategy : option valuesNode;
  o_needSort : bool;
}.

Definition OrderBy (plan : N) (ordering : list OrderCondition) : orderNode := mkOrderNode plan ordering None true.

Definition order_Init : M orderNode unit := fun n =>
  let '(plan, r) := pn_Init n.(o_plan) in (mkOrderNode plan n.(o_ordering) None true, r).

(** The loop that consumes the source.  Its length is that of the source: the fuel is
    given by the caller. *)
Fixpoint order_fill (fuel : nat) (n : orderNode) (v : valuesNode) : orderNode * result valuesNode :=
  match fuel with
  | O => (n, Panic)
  | Datatypes.S fuel =>
      let '(plan, r) := pn_Next n.(o_plan) in
      let n := mkOrderNode plan n.(o_ordering) (Some v) n.(o_needSort) in
      match r with
      | Ok true => order_fill fuel n (mkValues v.(v_ordering) (AddDoc v.(v_docs) (pn_Value plan)) v.(v_docIndex))
      | Ok false => (n, SortAll v)
      | Err e => (n, Err e)
      | Panic => (n, Panic)
      end
  end.

Definition order_Next (fuel : nat) : M orderNode bool := fun n =>
  let '(n, r) :=
    if n.(o_needSort)
    then order_fill fuel n (default (newContainerValuesNode n.(o_ordering)) n.(o_orderStrategy))
    else (n, match n.(o_orderStrategy) with Some v => Ok v | None => Panic end) in
  match r with
  | Ok v =>
      let '(v, r) := values_Next v in
      (mkOrderNode n.(o_plan) n.(o_ordering) (Some v) false, r)
  | Err e => (n, Err e)
  | Panic => (n, Panic)
  end.

Definition order_Value (n : orderNode) : Doc :=
  match n.(o_orderStrategy) with Some v => values_Value v | None => zeroDoc end.

Definition PlanNode_order (fuel : nat) : PlanNode orderNode := {|
  pn_Init := order_Init;
  pn_Next := order_Next fuel;
  pn_Value := order_Value |}.
End Order.
Arguments orderNode : clear implicits.

(** ** Limits *)

Section LimitProps.
Context {N : Type} `{PlanNode N}.

Lemma yields_not_true (n : N) docs r : yields n docs r -> r <> Ok true.
Proof. by induction 1. Qed.

Lemma limit_loop_spec fuel (plan : N) l o row docs r :
  yields plan docs r -> (Z.to_nat (o - row) < fuel)%nat ->
  0 <= row -> row + Z.of_nat (length docs) < 2 ^ 64 ->
  match drop (Z.to_nat (o - row)) docs with
  | [] => (limit_loop fuel (mkLimit plan l o row)).2 = r
  | d :: ds =>
      exists plan', limit_loop fuel (mkLimit plan l o row) = (mkLimit plan' l o (Z.max row o + 1), Ok true) /\
        pn_Value plan' = d /\ yields plan' ds r
  end.
Proof.
  revert plan row docs. induction fuel as [|fuel IH]; intros plan row docs Hy Hf Hr Hb; [lia|].
  cbn [limit_loop l_plan l_limit l_offset l_rowIndex].
  destruct Hy as [plan r E Hne|plan plan' ds r E Hy].
  - rewrite drop_nil. destruct (pn_Next plan) as [plan' r']. cbn in E. subst r'. by destruct r as [[]| |].
  - rewrite E. cbn [length] in Hb. rewrite u64_small by (unfold is_u64; lia).
    destruct (Z.ltb_spec o (row + 1)) as [Hlt|Hge].
    + replace (Z.to_nat (o - row)) with O by lia. cbn [drop].
      exists plan'. split; [|done]. by replace (Z.max row o + 1) with (row + 1) by lia.
    + replace (Z.to_nat (o - row)) with (S (Z.to_nat (o - (row + 1)))) by lia. cbn [drop].
      specialize (IH plan' (row + 1) ds Hy ltac:(lia) ltac:(lia) ltac:(lia)).
      destruct (drop (Z.to_nat (o - (row + 1))) ds); [done|].
      destruct IH as (p & Hl & ?). exists p. split; [|done]. rewrite Hl. do 2 f_equal. lia.
Qed.

Definition limited (l o row : Z) (docs : list Doc) : list Doc :=
  let rest := drop (Z.to_nat (o - row)) docs in
  if l =? 0 then rest else take (Z.to_nat (l + o - Z.max row o)) rest.

Lemma limit_yields_from (plan : N) l o row docs r :
  yields plan docs r -> 0 <= l -> 0 <= o -> l + o < 2 ^ 64 -> 0 <= row ->
  row + Z.of_nat (length docs) < 2 ^ 64 ->
  exists r', yields (mkLimit plan l o row) (limited l o row docs) r' /\ (r' = r \/ (l <> 0 /\ r' = Ok false)).
Proof.
  intros Hy Hl Ho Hlo. remember (length docs) as len eqn:Hlen. revert plan row docs Hy Hlen.
  induction (lt_wf len) as [len _ IH]. intros plan row docs Hy -> Hr Hb.
  pose proof (yields_not_true _ _ _ Hy) as Hne.
  unfold limited. destruct (negb (l =? 0) && (u64 (l + o) <=? row)) eqn:Estop.
  - apply andb_true_iff in Estop as [El%negb_true_iff Erow]. rewrite El.
    rewrite u64_small in Erow by (unfold is_u64; lia).
    replace (Z.to_nat (l + o - Z.max row o)) with O by lia. cbn [take].
    exists (Ok false). split; [|right; split; [lia|done]]. apply yields_end; [|done].
    cbn. unfold limit_Next. cbn [l_limit l_offset l_rowIndex]. rewrite El. cbn.
    rewrite u64_small by (unfold is_u64; lia). by rewrite Erow.
  - assert (pn_Next (mkLimit plan l o row) = limit_loop (S (Z.to_nat o)) (mkLimit plan l o row)) as En.
    { cbn. unfold limit_Next. cbn [l_limit l_offset l_rowIndex]. by rewrite Estop. }
    pose proof (limit_loop_spec (S (Z.to_nat o)) plan l o row docs r Hy ltac:(lia) Hr Hb) as Hspec.
    destruct (drop (Z.to_nat (o - row)) docs) as [|d ds] eqn:Ed.
    + exists r. split; [|by left]. rewrite take_nil. replace (if l =? 0 then [] else []) with (@nil Doc) by by destruct (l =? 0).
      apply yields_end; [by rewrite En|done].
    + destruct Hspec as (plan' & Hloop & <- & Hy').
      assert (length docs = (Z.to_nat (o - row) + S (length ds))%nat) as Hlen.
      { apply (f_equal length) in Ed. rewrite length_drop in Ed. cbn in Ed. lia. }
      destruct (IH (length ds) ltac:(lia) plan' (Z.max row o + 1) ds Hy' eq_refl ltac:(lia) ltac:(lia))
        as (r' & Hyr & Hr').
      exists r'. split; [|done].
      assert ((if l =? 0 then pn_Value plan' :: ds else take (Z.to_nat (l + o - Z.max row o)) (pn_Value plan' :: ds)) =
        pn_Value (mkLimit plan' l o (Z.max row o + 1)) :: limited l o (Z.max row o + 1) ds) as ->.
      { unfold limited. replace (Z.to_nat (o - (Z.max row o + 1))) with O by lia. cbn [drop].
        destruct (Z.eqb_spec l 0) as [->|Hl0]; [done|].
        assert (Z.max row o < l + o) as Hlt.
        { apply andb_false_iff in Estop as [Hs|Hs]; [apply negb_false_iff in Hs; lia|].
          rewrite u64_small in Hs by (unfold is_u64; lia). lia. }
        replace (Z.to_nat (l + o - Z.max row o)) with (S (Z.to_nat (l + o - Z.max (Z.max row o + 1) o))) by lia.
        done. }
      eapply yields_doc; [by rewrite En|done].
Qed.

(** over a source that yields [docs], a limit node yields the documents after the
    offset, up to the limit if it is not zero.  It ends as the source does, or without
    an error once the limit is reached. *)
Theorem limitNode_yields (plan : N) limit offset docs r :
  yields plan docs r -> 0 <= limit -> 0 <= offset -> limit + offset < 2 ^ 64 ->
  Z.of_nat (length docs) < 2 ^ 64 ->
  exists r', (r' = r \/ (limit <> 0 /\ r' = Ok false)) /\
    yields (Limit_new plan limit offset)
      (let rest := drop (Z.to_nat offset) docs in if limit =? 0 then rest else take (Z.to_nat limit) rest) r'.
Proof.
  intros Hy Hl Ho Hlo Hb.
  destruct (limit_yields_from plan limit offset 0 docs r Hy Hl Ho Hlo ltac:(lia) ltac:(lia)) as (r' & Hyr & Hr').
  exists r'. split; [done|]. unfold limited in Hyr.
  replace (offset - 0) with offset in Hyr by lia.
  replace (limit + offset - Z.max 0 offset) with limit in Hyr by lia. done.
Qed.
End LimitProps.

(** ** Stable sorting *)

Section StableProps.
Variables (ltb : Doc -> Doc -> bool) (ok : Doc -> Prop).
Hypothesis ltb_asym : forall x y, ok x -> ok y -> ltb x y = true -> ltb y x = false.
Hypothesis ltb_trans_neg : forall x y z, ok x -> ok y -> ok z ->
  ltb x y = false -> ltb y z = false -> ltb x z = false.

Definition equivb (x y : Doc) : bool := negb (ltb x y) && negb (ltb y x).

Variable less : Doc -> Doc -> result bool.
Hypothesis less_ok : forall x y, ok x -> ok y -> less x y = Ok (ltb x y).

Definition descending : list Doc -> Prop := StronglySorted (fun a b => ltb a b = false).

Lemma equivb_spec x y : equivb x y = true <-> ltb x y = false /\ ltb y x = false.
Proof. unfold equivb. by rewrite andb_true_iff, !negb_true_iff. Qed.

Lemma equivb_lt w x y : ok w -> ok x -> ok y -> equivb w x = true -> equivb w y = true -> ltb x y = false.
Proof. intros Hw Hx Hy [H1 H2]%equivb_spec [H3 H4]%equivb_spec. by apply (ltb_trans_neg x w y). Qed.

Lemma insert_down_spec x l :
  ok x -> Forall ok l -> descending l ->
  exists l', insert_down less x l = Ok l' /\ l' ≡ₚ x :: l /\ descending l' /\
    forall w, ok w -> List.filter (equivb w) l' = List.filter (equivb w) (x :: l).
Proof.
  intros Hx Hok Hs. induction Hs as [|y l Hs IH Hy]; cbn [insert_down].
  - exists [x]. repeat split; try done. by repeat constructor.
  - apply Forall_cons in Hok as [Hoy Hok]. rewrite less_ok by done. cbn [rbind].
    destruct (ltb x y) eqn:E.
    + destruct (IH Hok) as (l' & -> & Hp & Hs' & Hf). cbn [rbind]. exists (y :: l').
      split; [done|]. split; [rewrite Hp; apply Permutation_swap|]. split.
      * constructor; [done|]. rewrite Hp. constructor; [by apply ltb_asym|done].
      * intros w Hw. cbn [List.filter]. rewrite Hf by done. cbn [List.filter].
        destruct (equivb w x) eqn:Ex, (equivb w y) eqn:Ey; try done.
        by rewrite (equivb_lt w x y) in E.
    + exists (x :: y :: l). split; [done|]. split; [done|]. split; [|done].
      constructor; [by constructor|]. constructor; [done|].
      rewrite Forall_forall in Hy, Hok |- *. intros z Hz. apply (ltb_trans_neg x y z); auto.
Qed.

Lemma stable_sort_go_spec acc l :
  Forall ok acc -> Forall ok l -> descending acc ->
  exists out, stable_sort_go less acc l = Ok out /\ out ≡ₚ rev acc ++ l /\ descending (rev out) /\
    forall w, ok w -> List.filter (equivb w) out = List.filter (equivb w) (rev acc ++ l).
Proof.
  revert acc. induction l as [|x l IH]; intros acc Ha Hl Hs; cbn [stable_sort_go].
  - exists (rev acc). rewrite app_nil_r, rev_involutive. done.
  - apply Forall_cons in Hl as [Hx Hl]. destruct (insert_down_spec x acc Hx Ha Hs) as (s & -> & Hp & Hs' & Hf).
    cbn [rbind]. destruct (IH s) as (out & Ho & Hpo & Hso & Hfo); [|done..|].
    { rewrite Hp. by constructor. }
    exists out. split; [done|]. split; [|split; [done|]].
    + rewrite Hpo. rewrite <- !Permutation_rev, Hp. by rewrite <- Permutation_middle.
    + intros w Hw. rewrite Hfo, !List.filter_app, !List.filter_rev, Hf by done. cbn [List.filter].
      destruct (equivb w x); cbn [rev]; by rewrite <- ?app_assoc.
Qed.

Lemma stable_sort_spec l :
  Forall ok l ->
  exists out, stable_sort less l = Ok out /\ out ≡ₚ l /\
    StronglySorted (fun a b => ltb b a = false) out /\
    forall w, ok w -> List.filter (equivb w) out = List.filter (equivb w) l.
Proof.
  intros Hl. destruct (stable_sort_go_spec [] l) as (out & Ho & Hp & Hs & Hf); [done..|constructor|].
  exists out. split; [done|]. split; [done|]. split; [|done].
  rewrite <- (rev_involutive out). revert Hs. generalize (rev out). intros l' Hs.
  induction Hs as [|x l' Hs IH Hx]; [constructor|]. cbn [rev]. apply StronglySorted_app_2; [|done|by repeat constructor].
  intros a b Ha ->%list_elem_of_singleton. rewrite Forall_forall in Hx. apply Hx.
  apply list_elem_of_In. rewrite in_rev. by apply list_elem_of_In.
Qed.
End StableProps.

(** ** Comparison *)

(** A three-way comparison that orders the values it is used on. *)
Record cmp_order {A} (cmp : A -> A -> Z) (P : A -> Prop) : Prop := {
  co_sym : forall x y, P x -> P y -> cmp y x = - cmp x y;
  co_trans : forall x y z, P x -> P y -> P z -> cmp x y <= 0 -> cmp y z <= 0 -> cmp x z <= 0;
}.

Lemma compareInt_order : cmp_order compareInt (fun _ => True).
Proof.
  split; unfold compareInt.
  - intros x y _ _. destruct (Z.eqb_spec x y), (Z.eqb_spec y x), (Z.ltb_spec x y), (Z.ltb_spec y x); lia.
  - intros x y z _ _ _.
    destruct (Z.eqb_spec x y), (Z.eqb_spec y z), (Z.eqb_spec x z), (Z.ltb_spec y x), (Z.ltb_spec z y), (Z.ltb_spec z x); lia.
Qed.

Lemma compareBool_order : cmp_order compareBool (fun _ => True).
Proof. split; [by intros [] []|by intros [] [] []]. Qed.

Lemma compareString_le x y : compareString x y <= 0 <-> x <=s y.
Proof.
  rewrite str_le_eq. unfold compareString, str_lt.
  destruct (String.eqb_spec x y); [naive_solver lia|]. destruct (String.ltb x y); naive_solver lia.
Qed.

Lemma compareString_order : cmp_order compareString (fun _ => True).
Proof.
  split.
  - intros x y _ _. unfold compareString. destruct (String.eqb_spec x y) as [->|Hne].
    + by rewrite String.eqb_refl.
    + destruct (String.eqb_spec y x) as [|_]; [congruence|].
      destruct (String.ltb x y) eqn:E1, (String.ltb y x) eqn:E2; try done; exfalso.
      * by eapply str_lt_irrefl, (str_lt_trans x y x).
      * destruct (str_lt_total x y) as [Hl|[Hl|Hl]]; unfold str_lt in Hl; congruence.
  - intros x y z _ _ _. rewrite !compareString_le. apply str_le_trans.
Qed.

Lemma compareFloat_order : cmp_order compareFloat (fun f => f64_nan f = false).
Proof.
  assert (forall x y, f64_nan x = false -> f64_nan y = false ->
    compareFloat x y <= 0 <-> f64_leb x y = true) as Hle.
  { intros x y Hx Hy. unfold compareFloat. rewrite (f64_leb_negb x y) by done.
    pose proof (f64_leb_negb x y Hx Hy) as E. rewrite (f64_leb_ltb x y) in E.
    destruct (f64_eqb x y), (f64_ltb y x), (f64_ltb x y); cbn in *; naive_solver lia. }
  split.
  - intros x y Hx Hy. unfold compareFloat.
    pose proof (f64_leb_negb x y Hx Hy) as E1. pose proof (f64_leb_negb y x Hy Hx) as E2.
    rewrite f64_leb_ltb in E1, E2. rewrite (f64_eqb_sym y x) in *.
    pose proof (f64_ltb_asym x y).
    destruct (f64_eqb x y), (f64_ltb y x), (f64_ltb x y); cbn in *; done.
  - intros x y z Hx Hy Hz. rewrite !Hle by done. apply f64_leb_trans.
Qed.

(** The kinds of keys: nil goes with every kind. *)
Inductive keykind := KKBool | KKInt64 | KKUint64 | KKFloat64 | KKTime | KKString | KKBytes.

Definition of_kind (k : keykind) (v : val) : bool :=
  match k, v with
  | _, VNil | KKBool, VBool _ | KKInt64, VInt KInt64 _ | KKUint64, VInt KUint64 _
  | KKTime, VTime _ | KKString, VString _ | KKBytes, VBytes _ => true
  | KKFloat64, VFloat64 f => negb (f64_nan f)
  | _, _ => false
  end.

Definition cmp (a b : val) : Z := match Compare a b with Ok c => c | _ => 0 end.

Lemma Compare_cmp k a b : of_kind k a = true -> of_kind k b = true -> Compare a b = Ok (cmp a b).
Proof.
  unfold cmp. intros Ha Hb. assert (exists c, Compare a b = Ok c) as [c ->]; [|done].
  destruct k, a as [| |[]| | | | | | | | | | | | | | | | | | | | | |]; try done;
    destruct b as [| |[]| | | | | | | | | | | | | | | | | | | | | |]; try done; by eexists.
Qed.

Lemma cmp_kind_order k : cmp_order cmp (fun v => of_kind k v = true).
Proof.
  pose proof compareInt_order as [Is It]. pose proof compareBool_order as [Bs Bt].
  pose proof compareString_order as [Ss St]. pose proof compareFloat_order as [Fs Ft].
  split.
  - intros x y Hx Hy.
    destruct k, x as [| |[]| | | | | | | | | | | | | | | | | | | | | |]; try done;
      destruct y as [| |[]| | | | | | | | | | | | | | | | | | | | | |]; try done; cbn in Hx, Hy |- *; auto.
    apply Fs; by apply negb_true_iff.
  - intros x y z Hx Hy Hz.
    destruct k, x as [| |[]| | | | | | | | | | | | | | | | | | | | | |]; try done;
      destruct y as [| |[]| | | | | | | | | | | | | | | | | | | | | |]; try done;
      destruct z as [| |[]| | | | | | | | | | | | | | | | | | | | | |]; try done; cbn in Hx, Hy, Hz |- *;
      try (cbn; intros; lia); eauto.
    apply Ft; by apply negb_true_iff.
Qed.

(** ** The ordering node *)

(** Whether a document comes before another: by the first condition. *)
Definition before (order : OrderCondition) (a b : Doc) : bool :=
  match getDocProp a order.(FieldIndexes), getDocProp b order.(FieldIndexes) with
  | Ok x, Ok y => match order.(Direction) with DESC => 0 <? cmp x y | ASC => cmp x y <? 0 end
  | _, _ => false
  end.

(** The document has a key of the kind. *)
Definition has_key (order : OrderCondition) (k : keykind) (d : Doc) : Prop :=
  exists v, getDocProp d order.(FieldIndexes) = Ok v /\ of_kind k v = true.

Lemma get_field_Clone d i : get_field (Clone d) i = let! v := get_field d i in Ok (clone_val v).
Proof.
  destruct d as [h fs st]. unfold get_field. cbn [Fields].
  change (Fields (Clone (mkDoc h fs st))) with (clone_val <$> fs). rewrite list_lookup_fmap. by destruct (fs !! i).
Qed.

Lemma getMapPropList_Clone d p props :
  getMapPropList (Clone d) p props = let! v := getMapPropList d p props in Ok (clone_val v).
Proof.
  revert d p. induction props as [|p' props IH]; intros d p; cbn [getMapPropList]; rewrite get_field_Clone; [done|].
  destruct (get_field d p) as [v| |]; cbn [rbind]; [|done..]. destruct v; try done. apply IH.
Qed.

Lemma has_key_Clone order k d : has_key order k d -> has_key order k (Clone d).
Proof.
  intros (v & Hv & Hk). exists v. split; [|done]. unfold getDocProp in *.
  destruct (FieldIndexes order) as [|p props]; [done|]. rewrite getMapPropList_Clone, Hv. cbn [rbind].
  by destruct k, v.
Qed.

Lemma docValueLess_before order rest k a b :
  has_key order k a -> has_key order k b -> docValueLess (order :: rest) a b = Ok (before order a b).
Proof.
  intros (x & Hx & Kx) (y & Hy & Ky). unfold docValueLess, before. rewrite Hx, Hy. cbn [rbind].
  by rewrite (Compare_cmp k x y Kx Ky).
Qed.

Lemma before_asym order k a b :
  has_key order k a -> has_key order k b -> before order a b = true -> before order b a = false.
Proof.
  intros (x & Hx & Kx) (y & Hy & Ky). unfold before. rewrite Hx, Hy.
  pose proof (co_sym _ _ (cmp_kind_order k) x y Kx Ky). destruct (Direction order); lia.
Qed.

Lemma before_trans_neg order k a b c :
  has_key order k a -> has_key order k b -> has_key order k c ->
  before order a b = false -> before order b c = false -> before order a c = false.
Proof.
  intros (x & Hx & Kx) (y & Hy & Ky) (z & Hz & Kz). unfold before. rewrite Hx, Hy, Hz.
  destruct (cmp_kind_order k) as [Hs Ht].
  pose proof (Hs x y Kx Ky). pose proof (Hs y z Ky Kz). pose proof (Hs x z Kx Kz).
  destruct (Direction order).
  - intros. pose proof (Ht z y x Kz Ky Kx ltac:(lia) ltac:(lia)). lia.
  - intros. pose proof (Ht x y z Kx Ky Kz ltac:(lia) ltac:(lia)). lia.
Qed.

Section OrderProps.
Context {N : Type} `{PlanNode N}.

Lemma order_fill_ok fuel (plan : N) ord strat docs v r :
  yields plan docs r -> (length docs < fuel)%nat ->
  exists n', o_ordering n' = ord /\
    order_fill fuel (mkOrderNode plan ord strat true) v =
      (n', match r with
           | Ok _ => SortAll (mkValues v.(v_ordering) (v.(v_docs) ++ (Clone <$> docs)) v.(v_docIndex))
           | Err e => Err e
           | Panic => Panic
           end).
Proof.
  intros Hy. revert fuel strat v. induction Hy as [plan r E Hne|plan plan' docs r E _ IH]; intros fuel strat v Hf;
    (destruct fuel as [|fuel]; [cbn in Hf; lia|]); cbn [order_fill o_plan o_ordering o_needSort].
  - destruct (pn_Next plan) as [plan' r']. cbn in E. subst r'.
    rewrite app_nil_r. destruct r as [[]| |]; [done|..]; (eexists; split; [|done]); done.
  - rewrite E. cbn in Hf.
    destruct (IH fuel (Some v) (mkValues v.(v_ordering) (AddDoc v.(v_docs) (pn_Value plan')) v.(v_docIndex)) ltac:(lia))
      as (n' & Ho & Hfill).
    exists n'. split; [done|]. rewrite Hfill. cbn [v_ordering v_docs v_docIndex]. unfold AddDoc.
    by rewrite <- app_assoc.
Qed.

(** Once sorted, the node hands out the documents in turn. *)
Lemma order_sorted_yields fuel (plan : N) ord ord' out i :
  -1 <= i -> i < Z.of_nat (length out) ->
  @yields _ (PlanNode_order fuel) (mkOrderNode plan ord (Some (mkValues ord' out i)) false)
    (drop (Z.to_nat (i + 1)) out) (Ok false).
Proof.
  intros Hi Hlt. remember (Z.to_nat (Z.of_nat (length out) - 1 - i)) as k eqn:Hk. revert i Hi Hlt Hk.
  induction k as [|k IH]; intros i Hi Hlt Hk.
  - rewrite drop_ge by lia. apply yields_end; [|done]. cbn. unfold order_Next, values_Next. cbn.
    unfold Container_Len. by destruct (Z.leb_spec (Z.of_nat (length out) - 1) i); [|lia].
  - destruct (out !! Z.to_nat (i + 1)) as [d|] eqn:E; [|apply lookup_ge_None in E; lia].
    rewrite (drop_S _ _ _ E). replace (S (Z.to_nat (i + 1))) with (Z.to_nat (i + 1 + 1)) by lia.
    assert (d = order_Value (mkOrderNode plan ord (Some (mkValues ord' out (i + 1))) false)) as Ed.
    { unfold order_Value, values_Value, Container_At. cbn [o_orderStrategy v_docs v_docIndex].
      destruct (Z.ltb_spec (i + 1) 0); [lia|]. by rewrite E. }
    rewrite Ed at 1.
    eapply (@yields_doc _ (PlanNode_order fuel) _ (mkOrderNode plan ord (Some (mkValues ord' out (i + 1))) false)).
    + cbn. unfold order_Next, values_Next. cbn. unfold Container_Len.
      by destruct (Z.leb_spec (Z.of_nat (length out) - 1) i); [lia|].
    + apply IH; lia.
Qed.

Lemma order_Next_first fuel (plan : N) ord docs out r :
  yields plan docs r -> (length docs < fuel)%nat ->
  (r = Ok false -> stable_sort (docValueLess ord) (Clone <$> docs) = Ok out) ->
  match r with
  | Ok _ => exists n', order_Next fuel (OrderBy plan ord) =
      (let '(v, r) := values_Next (mkValues ord out (-1)) in
       (mkOrderNode (o_plan n') ord (Some v) false, r))
  | r => (order_Next fuel (OrderBy plan ord)).2 = r
  end.
Proof.
  intros Hy Hf Hs. pose proof (yields_not_true _ _ _ Hy) as Hne. unfold order_Next, OrderBy.
  cbn [o_needSort o_ordering o_orderStrategy default].
  destruct (order_fill_ok fuel plan ord None docs (newContainerValuesNode ord) r Hy Hf) as (n' & Ho & ->).
  destruct r as [[]|e|]; [done| |done|done].
  unfold SortAll. cbn [v_ordering v_docs v_docIndex newContainerValuesNode NewDocumentContainer replicate app].
  rewrite Hs by done. cbn [rbind]. exists n'. by destruct (values_Next _) as [v r]; rewrite Ho.
Qed.

(** C32: an ordering node delivers a copy of every document of its source, sorted by
    the first condition in its direction, nil first when ascending, and documents with
    equal keys in the order of the source; an error of the source is its only result.
    The keys are of one kind and no float key is NaN. *)
Theorem orderNode_sorts fuel (plan : N) order rest k docs r :
  yields plan docs r -> (length docs < fuel)%nat -> Forall (has_key order k) docs ->
  (r = Ok false ->
    exists out, @yields _ (PlanNode_order fuel) (OrderBy plan (order :: rest)) out (Ok false) /\
      out ≡ₚ Clone <$> docs /\
      StronglySorted (fun a b => before order b a = false) out /\
      forall d, has_key order k d ->
        List.filter (equivb (before order) d) out = List.filter (equivb (before order) d) (Clone <$> docs)) /\
  (forall e, r = Err e -> @yields _ (PlanNode_order fuel) (OrderBy plan (order :: rest)) [] (Err e)).
Proof.
  intros Hy Hf Hk.
  assert (Forall (has_key order k) (Clone <$> docs)) as Hkc
    by (apply Forall_fmap; eapply Forall_impl; [done|apply has_key_Clone]).
  destruct (stable_sort_spec (before order) (has_key order k) (before_asym order k) (before_trans_neg order k)
    (docValueLess (order :: rest)) (docValueLess_before order rest k) _ Hkc) as (out & Hs & Hp & Hsort & Hst).
  pose proof (order_Next_first fuel plan (order :: rest) docs out r Hy Hf (fun _ => Hs)) as Hn.
  split.
  - intros ->. exists out. split; [|done]. destruct Hn as (n' & Hn).
    pose proof (order_sorted_yields fuel (o_plan n') (order :: rest) (order :: rest) out (-1) ltac:(lia)) as Hys.
    destruct out as [|d out].
    + apply yields_end; [|done]. change ((order_Next fuel (OrderBy plan (order :: rest))).2 = Ok false). by rewrite Hn.
    + specialize (Hys ltac:(cbn; lia)). inversion Hys as [? ? E Hne|? n2 ds r' E Hy2]; subst.
      eapply (@yields_doc _ (PlanNode_order fuel)); [|done].
      change (order_Next fuel (OrderBy plan (order :: rest)) = (n2, Ok true)). rewrite Hn. exact E.
  - intros e ->. apply yields_end; [exact Hn|done].
Qed.
End OrderProps.

(** ** Concrete plans *)

Module PlanWitness.

(** A source that holds its documents. *)
Record listNode := mkList { remaining : list Doc; current : Doc }.

#[export] Instance PlanNode_list : PlanNode listNode := {|
  pn_Init n := (n, Ok tt);
  pn_Next n := match n.(remaining) with
               | [] => (n, Ok false)
               | d :: ds => (mkList ds d, Ok true)
               end;
  pn_Value n := n.(current) |}.

Lemma list_yields docs d : yields (mkList docs d) docs (Ok false).
Proof.
  revert d. induction docs as [|x docs IH]; intros d; [by apply yields_end|].
  change (x :: docs) with (pn_Value (mkList docs x) :: docs) at 2. by apply yields_doc.
Qed.

Definition user (name : string) (age : Z) : Doc := mkDoc false [VString name; VInt KInt64 age] 0.
Definition users : list Doc := [user "Bob" 30; user "Ann" 40; user "Bob" 20; user "Cid" 10].
Definition by_name : OrderCondition := mkOrder [0%nat] ASC.
Definition by_age : OrderCondition := mkOrder [1%nat] ASC.

Lemma limitNode_yields_witness :
  exists r, yields (Limit_new (mkList users zeroDoc) 2 1) [user "Ann" 40; user "Bob" 20] r.
Proof.
  destruct (limitNode_yields (mkList users zeroDoc) 2 1 users (Ok false)) as (r & _ & Hy).
  - apply list_yields.
  - discriminate.
  - discriminate.
  - reflexivity.
  - reflexivity.
  - exists r. exact Hy.
Defined.

Lemma orderNode_sorts_witness :
  exists out, @yields _ (PlanNode_order 5) (OrderBy (mkList users zeroDoc) [by_name]) out (Ok false) /\
    StronglySorted (fun a b => before by_name b a = false) out.
Proof.
  destruct (orderNode_sorts 5 (mkList users zeroDoc) by_name [] KKString users (Ok false)) as [Hs _].
  - apply list_yields.
  - vm_compute. lia.
  - repeat constructor; eexists; (split; [reflexivity|reflexivity]).
  - destruct (Hs eq_refl) as (out & Hy & _ & Hsort & _). exists out. split; [exact Hy|exact Hsort].
Defined.

(** The documents that a plan yields, by running it. *)
Fixpoint drain {N} `{PlanNode N} (fuel : nat) (n : N) : list Doc :=
  match fuel with
  | O => []
  | Datatypes.S fuel =>
      match pn_Next n with (n', Ok true) => pn_Value n' :: drain fuel n' | _ => [] end
  end.

(** the second ordering condition has no effect: users ordered by name and then by
    age come with the two of one name in the order of the source.  And two values of
    type int, which is what counts are, cannot be compared. *)
Theorem ordering_second_condition :
  @drain _ (PlanNode_order 5) 5 (OrderBy (mkList users zeroDoc) [by_name; by_age]) =
    [user "Ann" 40; user "Bob" 30; user "Bob" 20; user "Cid" 10] /\
  Compare (VInt KInt 1) (VInt KInt 2) = Panic.
Proof. split; vm_compute; reflexivity. Qed.
End PlanWitness.
