(* ===== verification/Aggregate.v ===== *)
(** * Aggregates (planner): count, sum and average

    Each of these nodes takes the documents of its source and writes one field of each.
    The items of an array are filtered, ordered and limited with the enumerable package
    (sourcenetwork/immutable), which is code outside the repository and appears as the
    class [Enumerable].  Arithmetic is in float64, as in the code. *)

From S2P Require Import Prelude GoStd Values DocMap Connor Store Plan.

(** ** The enumerable package *)

Class Enumerable := {
  en_Where {A} : (A -> result bool) -> list A -> result (list A);
  en_Sort {A} : (A -> A -> bool) -> list A -> list A;
  en_Skip {A} : Z -> list A -> list A;
  en_Take {A} : Z -> list A -> list A;
  en_Where_ok {A} (p : A -> result bool) (q : A -> bool) l :
    (forall x, x ∈ l -> p x = Ok (q x)) -> en_Where p l = Ok (List.filter q l);
  en_Sort_perm {A} (less : A -> A -> bool) l : en_Sort less l ≡ₚ l;
  en_Skip_drop {A} n (l : list A) : en_Skip n l = drop (Z.to_nat n) l;
  en_Take_take {A} n (l : list A) : en_Take n l = take (Z.to_nat n) l;
}.

(** ** Targets (planner/mapper) *)

Record Limit := mkLimitOf { Limit_limit : Z; Limit_offset : Z }.

Record AggregateTarget := mkTarget {
  AT_Index : nat;
  AT_Filter : option (list (FilterKey * val));
  AT_Limit : option Limit;
  AT_OrderBy : list OrderCondition;
  AT_ChildTarget : nat;
}.

(** A slice field as the list of its items; [None] when the field is no slice of the
    types of a field. *)
Definition slice_items (v : val) : option (list val) :=
  match v with
  | VBools l => Some (VBool <$> l)
  | VOptBools l => Some (VOptBool <$> l)
  | VInts l => Some (VInt KInt64 <$> l)
  | VOptInts l => Some (VOptInt <$> l)
  | VFloats l => Some (VFloat64 <$> l)
  | VOptFloats l => Some (VOptFloat <$> l)
  | VStrings l => Some (VString <$> l)
  | VOptStrings l => Some (VOptString <$> l)
  | _ => None
  end.

(** [reflect.Value.Len] on the kinds that have a length. *)
Definition reflect_Len (v : val) : option nat :=
  match v with
  | VDocs l => Some (length l)
  | VList l => Some (length l)
  | VFilter l => Some (length l)
  | VMap l => Some (length l)
  | VString s | VBytes s => Some (String.length s)
  | v => length <$> slice_items v
  end.

Section Aggregates.
Context `{Enumerable}.

Definition where_filter (filter : option (list (FilterKey * val))) (items : list val) : result (list val) :=
  match filter with
  | Some f => en_Where (fun item => RunFilter item (Some f)) items
  | None => Ok items
  end.

Definition skip_take (limit : option Limit) (items : list val) : list val :=
  match limit with
  | Some l => en_Take l.(Limit_limit) (en_Skip l.(Limit_offset) items)
  | None => items
  end.

(** ** Count *)

Definition countDocs (docs : list Doc) : nat :=
  foldl (fun count doc => if Hidden doc then count else Datatypes.S count) 0%nat docs.

Definition countItems (items : list val) (filter : option (list (FilterKey * val))) (limit : option Limit)
    : result nat :=
  let! items := where_filter filter items in Ok (length (skip_take limit items)).

(** What one target adds to the count. *)
Definition count_source (property : val) (source : AggregateTarget) : result nat :=
  match reflect_Len property with
  | None => Ok 0%nat
  | Some len =>
      match source.(AT_Filter), source.(AT_Limit) with
      | None, None => Ok len
      | _, _ =>
          match property with
          | VDocs array => Ok (countDocs array)
          | _ =>
              match slice_items property with
              | Some array => countItems array source.(AT_Filter) source.(AT_Limit)
              | None => Ok 0%nat
              end
          end
      end
  end.

Fixpoint count_sources (d : Doc) (sources : list AggregateTarget) (count : nat) : result nat :=
  match sources with
  | [] => Ok count
  | source :: sources =>
      let! property := get_field d source.(AT_Index) in
      let! n := count_source property source in
      count_sources d sources (count + n)
  end.

Definition count_doc (virtualFieldIndex : nat) (aggregateMapping : list AggregateTarget) (d : Doc) : result Doc :=
  let! count := count_sources d aggregateMapping 0 in
  set_field d virtualFieldIndex (VInt KInt (Z.of_nat count)).

(** ** Sum *)

(** The float of a field that can be summed; other fields add nothing. *)
Definition toFloat (v : val) : float64 :=
  match v with
  | VInt KInt z | VInt KInt64 z | VInt KUint64 z => f64_of_Z z
  | VFloat64 f => f
  | _ => f64_zero
  end.

Fixpoint sumDocs (childTarget : nat) (docs : list Doc) (sum : float64) : result float64 :=
  match docs with
  | [] => Ok sum
  | doc :: docs =>
      if Hidden doc then sumDocs childTarget docs sum
      else let! v := get_field doc childTarget in sumDocs childTarget docs (f64_add sum (toFloat v))
  end.

(** The items of the array types that are summed: nillable items without a value
    count as zero. *)
Definition item_float (v : val) : float64 :=
  match v with
  | VInt KInt64 z | VOptInt (Some z) => f64_of_Z z
  | VFloat64 f | VOptFloat (Some f) => f
  | _ => f64_zero
  end.

(** [lessN] and [lessO]. *)
Definition item_less (a b : val) : bool :=
  match a, b with
  | VInt KInt64 x, VInt KInt64 y => x <? y
  | VFloat64 x, VFloat64 y => f64_ltb x y
  | (VOptInt None | VOptFloat None), _ => true
  | _, (VOptInt None | VOptFloat None) => false
  | VOptInt (Some x), VOptInt (Some y) => x <? y
  | VOptFloat (Some x), VOptFloat (Some y) => f64_ltb x y
  | _, _ => false
  end.

Definition reverse (original : val -> val -> bool) (a b : val) : bool := negb (original a b).

Definition sort_items (orderBy : list OrderCondition) (items : list val) : list val :=
  match orderBy with
  | [] => items
  | order :: _ =>
      match order.(Direction) with
      | ASC => en_Sort item_less items
      | DESC => en_Sort (reverse item_less) items
      end
  end.

Definition sumItems (items : list val) (target : AggregateTarget) : result float64 :=
  let! items := where_filter target.(AT_Filter) items in
  let items := skip_take target.(AT_Limit) (sort_items target.(AT_OrderBy) items) in
  Ok (foldl (fun sum item => f64_add sum (item_float item)) f64_zero items).

Definition sum_source (child : val) (source : AggregateTarget) : result float64 :=
  match child with
  | VDocs docs => sumDocs source.(AT_ChildTarget) docs f64_zero
  | VInts _ | VOptInts _ | VFloats _ | VOptFloats _ =>
      match slice_items child with Some items => sumItems items source | None => Ok f64_zero end
  | _ => Ok f64_zero
  end.

Fixpoint sum_sources (d : Doc) (sources : list AggregateTarget) (sum : float64) : result float64 :=
  match sources with
  | [] => Ok sum
  | source :: sources =>
      let! child := get_field d source.(AT_Index) in
      let! collectionSum := sum_source child source in
      sum_sources d sources (f64_add sum collectionSum)
  end.

Definition sum_doc (isFloat : bool) (virtualFieldIndex : nat) (aggregateMapping : list AggregateTarget) (d : Doc)
    : result Doc :=
  let! sum := sum_sources d aggregateMapping f64_zero in
  set_field d virtualFieldIndex (if isFloat then VFloat64 sum else VInt KInt64 (Z_of_f64 sum)).

(** ** Average *)

Definition average_doc (sumFieldIndex countFieldIndex virtualFieldIndex : nat) (d : Doc) : result Doc :=
  let! countProp := get_field d countFieldIndex in
  match countProp with
  | VInt KInt count =>
      if count =? 0 then set_field d virtualFieldIndex (VFloat64 f64_zero)
      else
        let! sumProp := get_field d sumFieldIndex in
        match sumProp with
        | VFloat64 sum => set_field d virtualFieldIndex (VFloat64 (f64_div sum (f64_of_Z count)))
        | VInt KInt64 sum => set_field d virtualFieldIndex (VFloat64 (f64_div (f64_of_Z sum) (f64_of_Z count)))
        | _ => Err ErrUnhandledType
        end
  | _ => Err ErrUnexpectedType
  end.
End Aggregates.

(** ** The nodes *)

Section Node.
Context {N : Type} `{PlanNode N}.

(** The node keeps the current document, which it has written to. *)
Record aggregateNode := mkAggregate { a_plan : N; a_currentValue : Doc }.

(** [Next] of the three nodes, for the function that writes the field. *)
Definition aggregate_Next (write : Doc -> result Doc) : M aggregateNode bool := fun n =>
  let '(plan, r) := pn_Next n.(a_plan) in
  match r with
  | Ok true =>
      match write (pn_Value plan) with
      | Ok d => (mkAggregate plan d, Ok true)
      | Err e => (mkAggregate plan (pn_Value plan), Err e)
      | Panic => (mkAggregate plan (pn_Value plan), Panic)
      end
  | r => (mkAggregate plan n.(a_currentValue), r)
  end.

Definition PlanNode_aggregate (write : Doc -> result Doc) : PlanNode aggregateNode := {|
  pn_Init n := let '(plan, r) := pn_Init n.(a_plan) in (mkAggregate plan n.(a_currentValue), r);
  pn_Next := aggregate_Next write;
  pn_Value := a_currentValue |}.
End Node.
Arguments aggregateNode : clear implicits.

Definition countNode `{Enumerable} {N} `{PlanNode N} (virtualFieldIndex : nat) (aggregateMapping : list AggregateTarget) :=
  PlanNode_aggregate (N := N) (count_doc virtualFieldIndex aggregateMapping).

Definition sumNode `{Enumerable} {N} `{PlanNode N} (isFloat : bool) (virtualFieldIndex : nat)
    (aggregateMapping : list AggregateTarget) :=
  PlanNode_aggregate (N := N) (sum_doc isFloat virtualFieldIndex aggregateMapping).

Definition averageNode {N} `{PlanNode N} (sumFieldIndex countFieldIndex virtualFieldIndex : nat) :=
  PlanNode_aggregate (N := N) (average_doc sumFieldIndex countFieldIndex virtualFieldIndex).

(** ** Streams of aggregates *)

Section Stream.
Context {N : Type} `{PlanNode N}.

Lemma aggregate_yields (write : Doc -> result Doc) (plan : N) docs out r d0 :
  yields plan docs r -> Forall2 (fun d d' => write d = Ok d') docs out ->
  @yields _ (PlanNode_aggregate write) (mkAggregate plan d0) out r.
Proof.
  intros Hy. revert out d0. induction Hy as [plan r E Hne|plan plan' docs r E _ IH]; intros out d0 Hf.
  - inversion Hf; subst. apply yields_end; [|done]. cbn. unfold aggregate_Next. cbn.
    destruct (pn_Next plan) as [plan' r']. by destruct r' as [[]| |].
  - inversion Hf as [|? d' ? out' Hw Hf']; subst.
    apply (@yields_doc _ (PlanNode_aggregate write) _ (mkAggregate plan' d')); [|by apply IH].
    cbn. unfold aggregate_Next. cbn. by rewrite E, Hw.
Qed.
End Stream.

(** ** Sums of integers *)

Definition zsum (l : list Z) : Z := foldr Z.add 0 l.

(** All the sums along the way are below 2^53. *)
Definition exact_sums (l : list Z) : Prop := Forall exact53 l /\ forall n, exact53 (zsum (take n l)).

Lemma foldl_add_exact l a :
  Forall exact53 l -> (forall n, exact53 (a + zsum (take n l))) ->
  foldl (fun sum item => f64_add sum (item_float item)) (f64_of_Z a) (VInt KInt64 <$> l) = f64_of_Z (a + zsum l).
Proof.
  intros Hl. revert a. induction Hl as [|x l Hx _ IH]; intros a Hs; cbn [fmap list_fmap foldl zsum foldr].
  - by rewrite Z.add_0_r.
  - cbn [item_float]. rewrite f64_add_exact.
    + rewrite IH; [by rewrite Z.add_assoc|]. intros n. specialize (Hs (S n)). cbn in Hs. by rewrite <- Z.add_assoc.
    + specialize (Hs O). cbn in Hs. by rewrite Z.add_0_r in Hs.
    + done.
    + specialize (Hs 1%nat). cbn in Hs. by rewrite Z.add_0_r in Hs.
Qed.

Lemma filter_fmap {A B} (f : A -> B) (q : B -> bool) l :
  List.filter q (f <$> l) = f <$> List.filter (fun x => q (f x)) l.
Proof. induction l as [|x l IH]; [done|]. cbn. destruct (q (f x)); cbn; by rewrite <- IH. Qed.

Lemma Ok_inj {A} (x y : A) : Ok x = Ok y -> x = y.
Proof. congruence. Qed.

Section Selection.
Context `{Enumerable}.

(** The integers of an array that a target aggregates; [q] is what its filter says. *)
Definition selected (target : AggregateTarget) (q : val -> bool) (l : list Z) : list Z :=
  let l := match target.(AT_Filter) with Some _ => List.filter (fun z => q (VInt KInt64 z)) l | None => l end in
  match target.(AT_Limit) with
  | Some lim => take (Z.to_nat lim.(Limit_limit)) (drop (Z.to_nat lim.(Limit_offset)) l)
  | None => l
  end.

Definition filter_says (target : AggregateTarget) (q : val -> bool) (items : list val) : Prop :=
  forall f, target.(AT_Filter) = Some f -> forall item, item ∈ items -> RunFilter item (Some f) = Ok (q item).

Lemma select_items target q l :
  filter_says target q (VInt KInt64 <$> l) ->
  (let! items := where_filter target.(AT_Filter) (VInt KInt64 <$> l) in Ok (skip_take target.(AT_Limit) items)) =
    Ok (VInt KInt64 <$> selected target q l).
Proof.
  intros Hq.
  assert (forall l', skip_take target.(AT_Limit) (VInt KInt64 <$> l') =
    VInt KInt64 <$> match target.(AT_Limit) with
      | Some lim => take (Z.to_nat lim.(Limit_limit)) (drop (Z.to_nat lim.(Limit_offset)) l')
      | None => l'
      end) as Hst.
  { intros l'. unfold skip_take. destruct (AT_Limit target) as [lim|]; [|done].
    by rewrite en_Take_take, en_Skip_drop, fmap_take, fmap_drop. }
  unfold where_filter, selected. destruct (AT_Filter target) as [f|] eqn:E; cbn [rbind].
  - rewrite (en_Where_ok _ q) by by apply Hq. cbn [rbind]. by rewrite filter_fmap, Hst.
  - by rewrite Hst.
Qed.

Lemma count_source_ints target q l :
  filter_says target q (VInt KInt64 <$> l) ->
  count_source (VInts l) target = Ok (length (selected target q l)).
Proof.
  intros Hq. pose proof (select_items target q l Hq) as Hs. unfold count_source.
  cbn [reflect_Len slice_items fmap option_fmap option_map].
  destruct (AT_Filter target) as [f|] eqn:Ef, (AT_Limit target) as [lim|] eqn:El.
  4: { unfold selected. rewrite Ef, El. by rewrite length_fmap. }
  all: unfold countItems; destruct (where_filter _ _) as [items| |]; cbn [rbind] in *; [|done..];
    apply Ok_inj in Hs as ->; by rewrite length_fmap.
Qed.

Lemma sum_source_ints target q l :
  filter_says target q (VInt KInt64 <$> l) -> target.(AT_OrderBy) = [] -> exact_sums (selected target q l) ->
  sum_source (VInts l) target = Ok (f64_of_Z (zsum (selected target q l))).
Proof.
  intros Hq Ho [He1 He2]. pose proof (select_items target q l Hq) as Hs. unfold sum_source. cbn [slice_items].
  unfold sumItems. destruct (where_filter _ _) as [items| |]; cbn [rbind] in *; [|done..].
  unfold sort_items. rewrite Ho. apply Ok_inj in Hs as ->. by rewrite (foldl_add_exact _ 0).
Qed.
End Selection.

(** ** The three aggregates of an array of integers *)

Section Pipeline.
Context `{Enumerable}.
Context (target : AggregateTarget) (q : val -> bool) (c s a : nat).

(** A document whose target is an array of integers, with room for the aggregates. *)
Record aggregable (l : list Z) (d : Doc) : Prop := {
  ag_field : get_field d target.(AT_Index) = Ok (VInts l);
  ag_room : Forall (fun i => i < length (Fields d))%nat [c; s; a];
  ag_filter : filter_says target q (VInt KInt64 <$> l);
  ag_exact : exact_sums (selected target q l);
}.

(** The document with its aggregates. *)
Record aggregated (l : list Z) (d d' : Doc) : Prop := {
  ad_count : get_field d' c = Ok (VInt KInt (Z.of_nat (length (selected target q l))));
  ad_sum : get_field d' s = Ok (VInt KInt64 (zsum (selected target q l)));
  ad_average : get_field d' a = Ok (VFloat64
    (match selected target q l with
     | [] => f64_zero
     | sel => f64_div (f64_of_Z (zsum sel)) (f64_of_Z (Z.of_nat (length sel)))
     end));
  ad_other : forall i, i ∉ [c; s; a] -> get_field d' i = get_field d i;
}.

Hypothesis Hdistinct : NoDup [target.(AT_Index); c; s; a].
Hypothesis Hunordered : target.(AT_OrderBy) = [].

Lemma set_field_ok d i v :
  (i < length (Fields d))%nat ->
  exists d', set_field d i v = Ok d' /\ length (Fields d') = length (Fields d).
Proof.
  intros Hi. unfold set_field. rewrite decide_True by done. eexists. split; [done|].
  destruct d. cbn. apply length_insert.
Qed.

Lemma aggregate_doc l d :
  aggregable l d ->
  exists d1 d2 d3, count_doc c [target] d = Ok d1 /\ sum_doc false s [target] d1 = Ok d2 /\
    average_doc s c a d2 = Ok d3 /\ aggregated l d d3.
Proof.
  intros [Hf Hroom Hq He]. set (sel := selected target q l) in *.
  rewrite !Forall_cons in Hroom. destruct Hroom as (Rc & Rs & Ra & _).
  destruct (set_field_ok d c (VInt KInt (Z.of_nat (length sel))) Rc) as (d1 & E1 & L1).
  destruct (set_field_ok d1 s (VInt KInt64 (zsum sel)) ltac:(lia)) as (d2 & E2 & L2).
  set (avg := match sel with [] => f64_zero | _ => f64_div (f64_of_Z (zsum sel)) (f64_of_Z (Z.of_nat (length sel))) end).
  destruct (set_field_ok d2 a (VFloat64 avg) ltac:(lia)) as (d3 & E3 & L3).
  pose proof (fun j => get_set_field d c _ d1 j E1) as G1.
  pose proof (fun j => get_set_field d1 s _ d2 j E2) as G2.
  pose proof (fun j => get_set_field d2 a _ d3 j E3) as G3.
  rewrite !NoDup_cons, !not_elem_of_cons in Hdistinct.
  destruct Hdistinct as ((? & ? & ? & _) & (? & ? & _) & (? & _) & _).
  exists d1, d2, d3. split; [|split; [|split]].
  - unfold count_doc. cbn [count_sources]. rewrite Hf. cbn [rbind]. rewrite (count_source_ints target q l Hq).
    exact E1.
  - unfold sum_doc. cbn [sum_sources]. rewrite G1, decide_False by congruence. rewrite Hf. cbn [rbind].
    rewrite (sum_source_ints target q l Hq Hunordered He). cbn [rbind]. fold sel.
    assert (exact53 (zsum sel)) as Hz.
    { destruct He as [_ He]. specialize (He (length sel)). by rewrite take_ge in He by lia. }
    change f64_zero with (f64_of_Z 0). rewrite f64_add_exact by done. rewrite Z.add_0_l, Z_of_f64_of_Z by done.
    exact E2.
  - unfold average_doc. rewrite G2, decide_False, G1, decide_True by congruence. cbn [rbind].
    rewrite G2, decide_True by done. cbn [rbind]. unfold avg in E3.
    destruct (Z.eqb_spec (Z.of_nat (length sel)) 0) as [E|E]; destruct sel as [|z sel'] eqn:Es; cbn in E; try lia; exact E3.
  - split.
    + by rewrite G3, decide_False, G2, decide_False, G1, decide_True by congruence.
    + by rewrite G3, decide_False, G2, decide_True by congruence.
    + rewrite G3, decide_True by congruence. unfold avg, sel. by destruct (selected target q l).
    + intros i Hi. rewrite !not_elem_of_cons in Hi. destruct Hi as (? & ? & ? & _).
      by rewrite G3, decide_False, G2, decide_False, G1, decide_False by congruence.
Qed.
End Pipeline.

(** C33: the plan of an average over an array of integers, an average over a sum over a
    count: for every document of the source it yields the document with the number and
    the sum of the items that pass the filter and the limit, and their quotient, or
    zero when there are none.  The sum is exact as long as the sums along the way stay
    below 2^53. *)
Theorem average_pipeline `{Enumerable} {N} `{PlanNode N} (plan : N) target q c s a (ints : Doc -> list Z) docs r d1 d2 d3 :
  NoDup [target.(AT_Index); c; s; a] -> target.(AT_OrderBy) = [] ->
  yields plan docs r -> Forall (fun d => aggregable target q c s a (ints d) d) docs ->
  exists out,
    @yields _ (averageNode (H := sumNode (H0 := countNode (H0 := _) c [target]) false s [target]) s c a)
      (mkAggregate (mkAggregate (mkAggregate plan d1) d2) d3) out r /\
    Forall2 (fun d d' => aggregated target q c s a (ints d) d d') docs out.
Proof.
  intros Hnd Ho Hy Hag.
  assert (exists o1 o2 out, Forall2 (fun d d' => count_doc c [target] d = Ok d') docs o1 /\
    Forall2 (fun d d' => sum_doc false s [target] d = Ok d') o1 o2 /\
    Forall2 (fun d d' => average_doc s c a d = Ok d') o2 out /\
    Forall2 (fun d d' => aggregated target q c s a (ints d) d d') docs out) as (o1 & o2 & out & F1 & F2 & F3 & F4).
  { clear Hy. induction Hag as [|d docs Hd _ (o1 & o2 & out & F1 & F2 & F3 & F4)].
    - exists [], [], []. repeat constructor.
    - destruct (aggregate_doc target q c s a Hnd Ho (ints d) d Hd) as (e1 & e2 & e3 & ? & ? & ? & ?).
      exists (e1 :: o1), (e2 :: o2), (e3 :: out). repeat split; by constructor. }
  exists out. split; [|done].
  apply (aggregate_yields _ _ o2); [|done]. apply (aggregate_yields _ _ o1); [|done].
  by apply (aggregate_yields _ _ docs).
Qed.

(** ** Concrete aggregates *)

Module AggregateWitness.
Import PlanWitness.

Fixpoint where_list {A} (p : A -> result bool) (l : list A) : result (list A) :=
  match l with
  | [] => Ok []
  | x :: l => let! b := p x in let! l := where_list p l in Ok (if b then x :: l else l)
  end.

#[export] Program Instance Enumerable_list : Enumerable := {|
  en_Where A := where_list;
  en_Sort A less l := l;
  en_Skip A n l := drop (Z.to_nat n) l;
  en_Take A n l := take (Z.to_nat n) l |}.
Next Obligation.
  intros A p q l Hp. induction l as [|x l IH]; [done|]. cbn [where_list]. rewrite Hp by left. cbn [rbind].
  rewrite IH; [cbn; by destruct (q x)|]. intros y Hy. apply Hp. by right.
Qed.
Next Obligation. done. Qed.
Next Obligation. done. Qed.
Next Obligation. done. Qed.

(** [_count], [_sum] and [_avg] of the scores above 1, the first of them skipped. *)
Definition above_1 : list (FilterKey * val) := [(Operator "_gt", VInt KInt64 1)].
Definition scores : AggregateTarget := mkTarget 0 (Some above_1) (Some (mkLimitOf 5 1)) [] 0.
Definition player : Doc := mkDoc false [VInts [1; 3; 4; 8]; VNil; VNil; VNil] 0.
Definition is_above_1 (v : val) : bool := match v with VInt KInt64 z => 1 <? z | _ => false end.

Lemma player_aggregable : aggregable scores is_above_1 1 2 3 [1; 3; 4; 8] player.
Proof.
  split.
  - reflexivity.
  - cbn. repeat constructor.
  - intros f [= <-] item (z & -> & _)%list_elem_of_fmap. unfold RunFilter, Match. cbn. by destruct (1 <? z).
  - assert (selected scores is_above_1 [1; 3; 4; 8] = [4; 8]) as -> by reflexivity.
    split; [repeat (constructor; [unfold exact53; lia|]); constructor|].
    intros n. assert (exact53 0 /\ exact53 4 /\ exact53 12) as (? & ? & ?) by (unfold exact53; lia).
    by destruct n as [|[|[|n]]].
Qed.

Lemma average_pipeline_witness :
  exists out,
    @yields _ (averageNode (H := sumNode (H0 := countNode 1 [scores]) false 2 [scores]) 2 1 3)
      (mkAggregate (mkAggregate (mkAggregate (mkList [player] zeroDoc) zeroDoc) zeroDoc) zeroDoc) out (Ok false) /\
    Forall2 (fun d d' => aggregated scores is_above_1 1 2 3 [1; 3; 4; 8] d d') [player] out.
Proof.
  apply (average_pipeline (mkList [player] zeroDoc) scores is_above_1 1 2 3 (fun _ => [1; 3; 4; 8])).
  - apply (bool_decide_unpack _). vm_compute. exact I.
  - reflexivity.
  - apply list_yields.
  - constructor; [apply player_aggregable|constructor].
Defined.

(** The sum is in float64 even for integers: beyond 2^53 it drops units. *)
Lemma sum_loses_precision :
  sum_doc false 1 [mkTarget 0 None None [] 0] (mkDoc false [VInts [2 ^ 53; 1]; VNil] 0) =
    Ok (mkDoc false [VInts [2 ^ 53; 1]; VInt KInt64 (2 ^ 53)] 0).
Proof. vm_compute. reflexivity. Qed.
End AggregateWitness.
