(* ===== verification/Group.v ===== *)
(** * Grouping (planner/group.go, planner/arbitrary_join.go)

    A group node joins the documents of its data sources by a key made of the printed
    values of the group-by fields: parents give the group its fields, children are
    collected in a cell of the group.  A data source stands for the documents that its
    parent and its child plan yield and for how they end; the pipe that both read from
    and its index are left out. *)

From S2P Require Import Prelude GoStd Values DocMap Store Plan Aggregate.

(** ** Keys *)

Section Group.

(** How [%v] prints the values that are neither nil, a bool, an integer nor a string. *)
Variable fmt_other : val -> string.

Definition sprint_int (z : Z) : string := if z <? 0 then "-" +:+ Sprint (- z) else Sprint z.

Definition Sprintf_v (v : val) : string :=
  match v with
  | VNil => "<nil>"
  | VBool true => "true"
  | VBool false => "false"
  | VInt _ z => sprint_int z
  | VString s => s
  | v => fmt_other v
  end.

Fixpoint generateKey (doc : Doc) (keyFields : list nat) : result string :=
  match keyFields with
  | [] => Ok ""
  | i :: keyFields =>
      let! v := get_field doc i in
      let! rest := generateKey doc keyFields in
      Ok (Sprint (Z.of_nat i) +:+ "_" +:+ Sprintf_v v +:+ "_" +:+ rest)
  end.

(** ** The ordered map *)

Record orderedMap := mkOrdered { om_values : list Doc; om_indexesByKey : gmap string nat }.

Definition om_empty : orderedMap := mkOrdered [] ∅.

(** The cells of [value] from index [i] on, apart from those of children, are copied
    into [existing]. *)
Fixpoint copy_cells (childIndexes : list nat) (i : nat) (cells : list val) (existing : Doc) : result Doc :=
  match cells with
  | [] => Ok existing
  | v :: cells =>
      if existsb (Nat.eqb i) childIndexes then copy_cells childIndexes (S i) cells existing
      else let! existing := set_field existing i v in copy_cells childIndexes (S i) cells existing
  end.

(** An empty group at each child index; the slice of fields grows if need be. *)
Definition clear_child (value : Doc) (childAddress : nat) : Doc :=
  let fs := Fields value in
  let fs := if (length fs <=? childAddress)%nat
            then fs ++ replicate (childAddress + 1 - length fs) VNil else fs in
  set_Fields value (<[childAddress := VDocs []]> fs).

Definition om_mergeParent (key : string) (childIndexes : list nat) (value : Doc) (m : orderedMap)
    : result orderedMap :=
  match m.(om_indexesByKey) !! key with
  | Some index =>
      match m.(om_values) !! index with
      | None => Panic
      | Some existing =>
          let! existing := copy_cells childIndexes 0 (Fields value) existing in
          Ok (mkOrdered (<[index := existing]> m.(om_values)) m.(om_indexesByKey))
      end
  | None =>
      let value := foldl clear_child value childIndexes in
      Ok (mkOrdered (m.(om_values) ++ [value]) (<[key := length m.(om_values)]> m.(om_indexesByKey)))
  end.

(** The child is added to the cell of the parent at [index]. *)
Definition add_child (childIndex : nat) (value parent : Doc) : result Doc :=
  let! childProperty := get_field parent childIndex in
  match childProperty with
  | VNil => set_field parent childIndex (VDocs [value])
  | VDocs childCollection => set_field parent childIndex (VDocs (childCollection ++ [value]))
  | _ => Panic
  end.

Definition om_appendChild (key : string) (childIndex : nat) (value : Doc) (mapping : DocumentMapping) (m : orderedMap)
    : result orderedMap :=
  let '(index, m) :=
    match m.(om_indexesByKey) !! key with
    | Some index => (index, m)
    | None =>
        let index := length m.(om_values) in
        (index, mkOrdered (m.(om_values) ++ [NewDoc mapping]) (<[key := index]> m.(om_indexesByKey)))
    end in
  match m.(om_values) !! index with
  | None => Panic
  | Some parent =>
      let! parent := add_child childIndex value parent in
      Ok (mkOrdered (<[index := parent]> m.(om_values)) m.(om_indexesByKey))
  end.

(** ** Joining *)

(** The documents that the parent and the child plan yield, and what their last [Next]
    returns: [Ok false], or an error.  A plan that is nil yields nothing. *)
Record dataSource := mkSource {
  s_parents : list Doc; s_parentEnd : result bool;
  s_children : list Doc; s_childEnd : result bool;
  s_childIndex : nat }.

(** The loop of [join] takes a parent and a child in turn, as long as there are any, and
    stops at an error of either. *)
Inductive join_step :=
  | JParent (value : Doc)
  | JChild (value : Doc)
  | JStop (failure : result orderedMap).

Definition end_steps (r : result bool) : list join_step :=
  match r with Ok _ => [] | Err e => [JStop (Err e)] | Panic => [JStop Panic] end.

Fixpoint interleave (ps : list Doc) (pe : list join_step) (cs : list Doc) (ce : list join_step) : list join_step :=
  match ps, cs with
  | [], cs => pe ++ (JChild <$> cs) ++ ce
  | p :: ps, [] => JParent p :: ce ++ interleave ps pe [] []
  | p :: ps, c :: cs => JParent p :: JChild c :: interleave ps pe cs ce
  end.

Definition source_steps (source : dataSource) : list join_step :=
  interleave source.(s_parents) (end_steps source.(s_parentEnd)) source.(s_children) (end_steps source.(s_childEnd)).

Definition join_one (keyFields : list nat) (mapping : DocumentMapping) (childIndexes : list nat) (childIndex : nat)
    (acc : result orderedMap) (step : join_step) : result orderedMap :=
  let! m := acc in
  match step with
  | JParent value =>
      let! key := generateKey value keyFields in om_mergeParent key childIndexes value m
  | JChild value =>
      let! key := generateKey value keyFields in om_appendChild key childIndex value mapping m
  | JStop failure => failure
  end.

Definition join (sources : list dataSource) (keyFields : list nat) (mapping : DocumentMapping) : result orderedMap :=
  let childIndexes := s_childIndex <$> sources in
  foldl (fun acc source =>
    foldl (join_one keyFields mapping childIndexes source.(s_childIndex)) acc (source_steps source))
    (Ok om_empty) sources.

(** ** The node *)

Record childSelect := mkChildSelect { cs_Index : nat; cs_Limit : option Limit }.

(** Children before the offset and from limit plus offset on are hidden. *)
Definition hide_docs (lim : Limit) (docs : list Doc) : list Doc :=
  imap (fun i d =>
    if (Z.of_nat i <? lim.(Limit_offset)) || (u64 (lim.(Limit_limit) + lim.(Limit_offset)) <=? Z.of_nat i)
    then set_Hidden d true else d) docs.

Definition group_child (c : childSelect) (group : Doc) : result Doc :=
  let! subSelect := get_field group c.(cs_Index) in
  match subSelect with
  | VNil => set_field group c.(cs_Index) (VDocs [])
  | VDocs childDocs =>
      match c.(cs_Limit) with
      | Some lim => set_field group c.(cs_Index) (VDocs (hide_docs lim childDocs))
      | None => Ok group
      end
  | _ => Panic
  end.

Fixpoint group_children (cs : list childSelect) (group : Doc) : result Doc :=
  match cs with [] => Ok group | c :: cs => let! group := group_child c group in group_children cs group end.

Fixpoint map_result {A B} (f : A -> result B) (l : list A) : result (list B) :=
  match l with
  | [] => Ok []
  | x :: l => let! y := f x in let! l := map_result f l in Ok (y :: l)
  end.

Record groupNode := mkGroup {
  g_childSelects : list childSelect;
  g_groupByFields : list nat;
  g_dataSources : list dataSource;
  g_mapping : DocumentMapping;
  g_values : option (list Doc);
  g_currentValue : Doc;
  g_currentIndex : nat;
}.

Definition group_Init : M groupNode unit := fun n =>
  (mkGroup n.(g_childSelects) n.(g_groupByFields) n.(g_dataSources) n.(g_mapping) None zeroDoc 0, Ok tt).

Definition group_values (n : groupNode) : result (list Doc) :=
  match n.(g_values) with
  | Some values => Ok values
  | None =>
      let! m := join n.(g_dataSources) n.(g_groupByFields) n.(g_mapping) in
      map_result (group_children n.(g_childSelects)) m.(om_values)
  end.

Definition group_Next : M groupNode bool := fun n =>
  match group_values n with
  | Ok values =>
      let set v i := mkGroup n.(g_childSelects) n.(g_groupByFields) n.(g_dataSources) n.(g_mapping) (Some values) v i in
      match values !! n.(g_currentIndex) with
      | Some v => (set v (S n.(g_currentIndex)), Ok true)
      | None => (set n.(g_currentValue) n.(g_currentIndex), Ok false)
      end
  | Err e => (n, Err e)
  | Panic => (n, Panic)
  end.

Definition PlanNode_group : PlanNode groupNode := {|
  pn_Init := group_Init;
  pn_Next := group_Next;
  pn_Value := g_currentValue |}.
End Group.

(** ** Groups *)

Section Groups.
Context (fmt_other : val -> string) (keyFields : list nat) (mapping : DocumentMapping) (ci : nat).
Context (key : Doc -> string).

(** A document with all the cells of the mapping and its key. *)
Definition doc_ok (d : Doc) : Prop :=
  length (Fields d) = nextIndex mapping /\ generateKey fmt_other d keyFields = Ok (key d).

Hypothesis ci_range : (ci < nextIndex mapping)%nat.
Hypothesis ci_no_key : ci ∉ keyFields.

Definition children (k : string) (cs : list Doc) : list Doc := List.filter (fun d => String.eqb (key d) k) cs.

Definition add_key (ks : list string) (k : string) : list string := if decide (k ∈ ks) then ks else ks ++ [k].

(** The state of the join: the keys in the order in which they came up, the keys of the
    parents, and the children. *)
Record groups (ks pk : list string) (cs : list Doc) (m : orderedMap) : Prop := {
  gr_len : length m.(om_values) = length ks;
  gr_nodup : NoDup ks;
  gr_index : forall k i, m.(om_indexesByKey) !! k = Some i <-> ks !! i = Some k;
  gr_pk : forall k, k ∈ pk -> k ∈ ks;
  gr_cs : forall c, c ∈ cs -> key c ∈ ks;
  gr_cell : forall i k g, ks !! i = Some k -> m.(om_values) !! i = Some g ->
    length (Fields g) = nextIndex mapping /\ get_field g ci = Ok (VDocs (children k cs)) /\
    (k ∈ pk -> generateKey fmt_other g keyFields = Ok k);
}.

Lemma groups_empty : groups [] [] [] om_empty.
Proof. split; cbn; [done|constructor|..]; [|set_solver..|done]. intros k i. by rewrite lookup_empty. Qed.

Lemma generateKey_ext d d' ks :
  (forall i, i ∈ ks -> get_field d i = get_field d' i) -> generateKey fmt_other d ks = generateKey fmt_other d' ks.
Proof.
  induction ks as [|i ks IH]; intros Hf; [done|]. cbn [generateKey]. rewrite Hf by left.
  rewrite IH; [done|]. intros j Hj. apply Hf. by right.
Qed.

Lemma copy_cells_spec i cells d :
  (i + length cells <= length (Fields d))%nat ->
  exists d', copy_cells [ci] i cells d = Ok d' /\ length (Fields d') = length (Fields d) /\
    get_field d' ci = get_field d ci /\
    (forall j, (j < i)%nat -> get_field d' j = get_field d j) /\
    (forall j v, cells !! j = Some v -> (i + j)%nat <> ci -> get_field d' (i + j) = Ok v).
Proof.
  revert i d. induction cells as [|v cells IH]; intros i d Hlen; cbn [copy_cells length] in *.
  - exists d. repeat split; done.
  - cbn [existsb]. destruct (Nat.eqb_spec i ci) as [->|Hne]; cbn [orb].
    + destruct (IH (S ci) d ltac:(lia)) as (d' & -> & L & C & Lo & Hi). exists d'. repeat split; auto.
      intros [|j] w Hj Hn; [lia|]. replace (ci + S j)%nat with (S ci + j)%nat by lia. apply Hi; [done|lia].
    + destruct (set_field_ok d i v ltac:(lia)) as (d1 & E1 & L1). rewrite E1. cbn [rbind].
      pose proof (fun j => get_set_field d i v d1 j E1) as G.
      destruct (IH (S i) d1 ltac:(lia)) as (d' & -> & L & C & Lo & Hi). exists d'.
      split; [done|]. split; [lia|]. split; [by rewrite C, G, decide_False by done|]. split.
      * intros j Hj. rewrite Lo, G, decide_False by lia. done.
      * intros [|j] w Hj Hn.
        -- injection Hj as ->. rewrite Nat.add_0_r, Lo, G, decide_True by lia. done.
        -- replace (i + S j)%nat with (S i + j)%nat by lia. apply Hi; [done|lia].
Qed.

Lemma get_field_Some d i v : get_field d i = Ok v <-> Fields d !! i = Some v.
Proof. unfold get_field. destruct (Fields d !! i); naive_solver. Qed.

(** A key that is new: its group goes to the end. *)
Lemma groups_new ks pk pk' cs cs' m k g :
  groups ks pk cs m -> k ∉ ks ->
  (forall k', k' ∈ pk' -> k' = k \/ k' ∈ pk) -> (forall k', k' <> k -> k' ∈ pk' -> k' ∈ pk) ->
  (forall c, c ∈ cs' -> c ∈ cs \/ key c = k) -> (forall k', k' <> k -> children k' cs' = children k' cs) ->
  length (Fields g) = nextIndex mapping -> get_field g ci = Ok (VDocs (children k cs')) ->
  (k ∈ pk' -> generateKey fmt_other g keyFields = Ok k) ->
  groups (ks ++ [k]) pk' cs'
    (mkOrdered (m.(om_values) ++ [g]) (<[k := length m.(om_values)]> m.(om_indexesByKey))).
Proof.
  intros [Hlen Hnd Hix Hpk Hcs Hcell] Hk Hp1 Hp2 Hc1 Hc2 Lg Cg Kg. split; cbn [om_values om_indexesByKey].
  - rewrite !length_app. cbn. lia.
  - apply NoDup_app. split; [done|]. split; [|apply NoDup_singleton]. intros x Hx ->%list_elem_of_singleton. done.
  - intros k' i. rewrite lookup_insert_Some, lookup_snoc_Some, Hix, Hlen. split.
    + intros [[<- <-]|[Hne Hi]]; [by right|]. left. split; [|done]. by eapply lookup_lt_Some.
    + intros [[_ Hi]|[-> <-]]; [|by left]. right. split; [|done]. intros <-.
      apply Hk. by eapply list_elem_of_lookup_2.
  - intros k' Hk'. apply elem_of_app. destruct (Hp1 k' Hk') as [->|?]; [right; by left|left; auto].
  - intros c Hc. apply elem_of_app. destruct (Hc1 c Hc) as [?| ->]; [left; auto|right; by left].
  - intros i k' g' Hi Hg. rewrite lookup_snoc_Some in Hi. rewrite lookup_snoc_Some in Hg.
    destruct Hi as [[Hi1 Hi]|[-> <-]], Hg as [[Hg1 Hg]|[Hg1 <-]]; try lia; [|done].
    assert (k' <> k) as Hne. { intros ->. apply Hk. by eapply list_elem_of_lookup_2. }
    destruct (Hcell i k' g' Hi Hg) as (? & ? & ?). rewrite Hc2 by done. repeat split; auto.
Qed.

(** A key that is there: its group changes. *)
Lemma groups_update ks pk pk' cs cs' m k i g g' :
  groups ks pk cs m -> m.(om_indexesByKey) !! k = Some i -> m.(om_values) !! i = Some g ->
  (forall k', k' ∈ pk' -> k' = k \/ k' ∈ pk) ->
  (forall c, c ∈ cs' -> c ∈ cs \/ key c = k) -> (forall k', k' <> k -> children k' cs' = children k' cs) ->
  length (Fields g') = nextIndex mapping -> get_field g' ci = Ok (VDocs (children k cs')) ->
  (k ∈ pk' -> generateKey fmt_other g' keyFields = Ok k) ->
  groups ks pk' cs' (mkOrdered (<[i := g']> m.(om_values)) m.(om_indexesByKey)).
Proof.
  intros [Hlen Hnd Hix Hpk Hcs Hcell] Hk Hg Hp1 Hc1 Hc2 Lg Cg Kg.
  pose proof (proj1 (Hix k i) Hk) as Hi. pose proof (list_elem_of_lookup_2 _ _ _ Hi) as Hin.
  split; cbn [om_values om_indexesByKey]; [by rewrite length_insert|done|done|..].
  - intros k' Hk'. destruct (Hp1 k' Hk') as [->|?]; auto.
  - intros c Hc. destruct (Hc1 c Hc) as [?| ->]; auto.
  - intros j k' h Hj Hh. destruct (decide (i = j)) as [<-|Hne].
    + rewrite list_lookup_insert_eq in Hh by by eapply lookup_lt_Some. injection Hh as <-.
      assert (k' = k) as -> by congruence. done.
    + rewrite list_lookup_insert_ne in Hh by done. destruct (Hcell j k' h Hj Hh) as (? & ? & ?).
      assert (k' <> k) as Hkk. { intros ->. apply Hne. eapply NoDup_lookup; eauto. }
      rewrite Hc2 by done. repeat split; auto. intros Hk'. destruct (Hp1 k' Hk'); [done|auto].
Qed.

Lemma groups_lookup ks pk cs m k :
  groups ks pk cs m ->
  (exists i g, k ∈ ks /\ (m.(om_indexesByKey) !! k = Some i) /\ m.(om_values) !! i = Some g /\ ks !! i = Some k) \/
  ((k ∉ ks) /\ m.(om_indexesByKey) !! k = None).
Proof.
  intros Hg. destruct (om_indexesByKey m !! k) as [i|] eqn:E.
  - left. pose proof (proj1 (gr_index _ _ _ _ Hg k i) E) as Hi.
    destruct (om_values m !! i) as [g|] eqn:Eg.
    + exists i, g. split; [by eapply list_elem_of_lookup_2|done].
    + apply lookup_ge_None in Eg. apply lookup_lt_Some in Hi. rewrite (gr_len _ _ _ _ Hg) in Eg. lia.
  - right. split; [|done]. intros [i Hi]%list_elem_of_lookup_1.
    apply (gr_index _ _ _ _ Hg) in Hi. congruence.
Qed.

Lemma children_none ks pk cs m k : groups ks pk cs m -> k ∉ ks -> children k cs = [].
Proof.
  intros Hg Hk. pose proof (gr_cs _ _ _ _ Hg) as Hcs. clear Hg. induction cs as [|c cs IH]; [done|].
  unfold children. cbn [List.filter]. destruct (String.eqb_spec (key c) k) as [<-|].
  - destruct Hk. apply Hcs. left.
  - apply IH. intros c' Hc'. apply Hcs. by right.
Qed.

Lemma children_snoc k cs c :
  children k (cs ++ [c]) = children k cs ++ (if String.eqb (key c) k then [c] else []).
Proof. unfold children. rewrite List.filter_app. cbn. by destruct (String.eqb (key c) k). Qed.

(** Merging a parent and appending a child. *)
Lemma mergeParent_groups ks pk cs m p :
  groups ks pk cs m -> doc_ok p ->
  exists m', om_mergeParent (key p) [ci] p m = Ok m' /\ groups (add_key ks (key p)) (key p :: pk) cs m'.
Proof.
  intros Hg [Lp Kp]. unfold om_mergeParent, add_key.
  destruct (groups_lookup ks pk cs m (key p) Hg) as [(i & g & Hin & Hi & Hv & Hk)|[Hn Hi]]; rewrite Hi.
  - rewrite Hv, decide_True by done. destruct (gr_cell _ _ _ _ Hg i (key p) g Hk Hv) as (Lg & Cg & _).
    destruct (copy_cells_spec 0 (Fields p) g) as (g' & -> & L & C & _ & Hc); [lia|]. cbn [rbind].
    eexists. split; [done|]. eapply groups_update; try done; [set_solver|auto|lia|by rewrite C|].
    intros _. rewrite <- Kp. apply generateKey_ext. intros j Hj.
    destruct (Fields p !! j) as [v|] eqn:E.
    + transitivity (Ok v); [|symmetry; by apply get_field_Some]. apply (Hc j v E). cbn. by intros ->.
    + unfold get_field. rewrite E. apply lookup_ge_None in E.
      destruct (Fields g' !! j) eqn:E'; [apply lookup_lt_Some in E'; lia|done].
  - rewrite decide_False by done. eexists. split; [done|]. cbn [foldl].
    assert (clear_child p ci = set_Fields p (<[ci := VDocs []]> (Fields p))) as ->.
    { unfold clear_child. by destruct (Nat.leb_spec (length (Fields p)) ci); [lia|]. }
    destruct p as [h fs st]. cbn [set_Fields Fields] in *.
    assert (forall j, get_field (mkDoc h (<[ci := VDocs []]> fs) st) j =
      if decide (ci = j) then Ok (VDocs []) else get_field (mkDoc h fs st) j) as Hget.
    { intros j. apply (get_set_field (mkDoc h fs st) ci (VDocs [])). unfold set_field. cbn [Fields].
      by rewrite decide_True by lia. }
    eapply groups_new; try done; [set_solver|set_solver|auto|cbn [Fields]; by rewrite length_insert|..].
    + rewrite Hget, decide_True by done. by rewrite (children_none ks pk cs m).
    + intros _. rewrite <- Kp. apply generateKey_ext. intros j Hj. rewrite Hget, decide_False; [done|].
      by intros <-.
Qed.

Lemma appendChild_groups ks pk cs m c :
  groups ks pk cs m -> doc_ok c ->
  exists m', om_appendChild (key c) ci c mapping m = Ok m' /\ groups (add_key ks (key c)) pk (cs ++ [c]) m'.
Proof.
  intros Hg [Lc Kc]. unfold om_appendChild, add_key.
  assert (forall c', c' ∈ cs ++ [c] -> c' ∈ cs \/ key c' = key c) as Hc1.
  { intros c' [?| ->%list_elem_of_singleton]%elem_of_app; auto. }
  assert (forall k', k' <> key c -> children k' (cs ++ [c]) = children k' cs) as Hc2.
  { intros k' Hk'. rewrite children_snoc. destruct (String.eqb_spec (key c) k'); [congruence|]. by rewrite app_nil_r. }
  destruct (groups_lookup ks pk cs m (key c) Hg) as [(i & g & Hin & Hi & Hv & Hk)|[Hn Hi]]; rewrite Hi.
  - rewrite Hv, decide_True by done. destruct (gr_cell _ _ _ _ Hg i (key c) g Hk Hv) as (Lg & Cg & Kg).
    unfold add_child. rewrite Cg. cbn [rbind].
    destruct (set_field_ok g ci (VDocs (children (key c) cs ++ [c])) ltac:(lia)) as (g' & E & L). rewrite E. cbn [rbind].
    pose proof (fun j => get_set_field g ci _ g' j E) as G.
    eexists. split; [done|]. eapply groups_update; try done; [auto|lia| |].
    + rewrite G, decide_True by done. by rewrite children_snoc, String.eqb_refl.
    + intros Hpk. rewrite <- (Kg Hpk). apply generateKey_ext. intros j Hj. rewrite G, decide_False; [done|]. by intros <-.
  - rewrite decide_False by done. cbn [om_values om_indexesByKey].
    rewrite (list_lookup_middle _ [] _ (length (om_values m))) by done.
    unfold add_child, NewDoc.
    assert (get_field (mkDoc false (replicate (nextIndex mapping) VNil) 0) ci = Ok VNil) as ->.
    { apply get_field_Some. cbn. by apply lookup_replicate_2. }
    cbn [rbind].
    destruct (set_field_ok (mkDoc false (replicate (nextIndex mapping) VNil) 0) ci (VDocs [c]))
      as (g' & E & L); [cbn; by rewrite length_replicate|]. rewrite E. cbn [rbind].
    cbn [Fields] in L. rewrite length_replicate in L.
    eexists. split; [done|]. rewrite insert_app_r_alt, Nat.sub_diag by lia. cbn [insert list_insert].
    eapply groups_new; try done; [auto|..].
    + rewrite (get_set_field _ ci _ g' ci E), decide_True by done.
      by rewrite children_snoc, String.eqb_refl, (children_none ks pk cs m) by done.
    + intros Hpk. by destruct Hn; apply (gr_pk _ _ _ _ Hg).
Qed.

Definition step_doc (s : join_step) : Doc := match s with JParent d | JChild d => d | JStop _ => zeroDoc end.
Definition step_ok (s : join_step) : Prop := match s with JParent d | JChild d => doc_ok d | JStop _ => False end.
Definition step_parents (l : list join_step) : list Doc := omap (fun s => match s with JParent d => Some d | _ => None end) l.
Definition step_children (l : list join_step) : list Doc := omap (fun s => match s with JChild d => Some d | _ => None end) l.

Lemma join_steps l ks pk cs m :
  groups ks pk cs m -> Forall step_ok l ->
  exists m', foldl (join_one fmt_other keyFields mapping [ci] ci) (Ok m) l = Ok m' /\
    groups (foldl add_key ks ((fun s => key (step_doc s)) <$> l)) (rev (key <$> step_parents l) ++ pk)
      (cs ++ step_children l) m'.
Proof.
  intros Hg Hl. revert ks pk cs m Hg. induction Hl as [|s l Hs _ IH]; intros ks pk cs m Hg.
  - exists m. cbn. by rewrite app_nil_r.
  - cbn [foldl fmap list_fmap]. destruct s as [p|c|]; cbn [step_ok] in Hs; [| |done]; unfold join_one at 2; cbn [rbind];
      pose proof Hs as [_ ->]; cbn [rbind].
    + destruct (mergeParent_groups ks pk cs m p Hg Hs) as (m1 & -> & Hg1).
      destruct (IH _ _ _ _ Hg1) as (m' & E & Hg'). exists m'. split; [done|].
      cbn [step_doc step_parents step_children omap list_omap fmap list_fmap rev]. by rewrite <- app_assoc.
    + destruct (appendChild_groups ks pk cs m c Hg Hs) as (m1 & -> & Hg1).
      destruct (IH _ _ _ _ Hg1) as (m' & E & Hg'). exists m'. split; [done|].
      cbn [step_doc step_parents step_children omap list_omap]. by rewrite <- app_assoc in Hg'.
Qed.

Lemma interleave_docs ps cs :
  step_parents (interleave ps [] cs []) = ps /\ step_children (interleave ps [] cs []) = cs.
Proof.
  revert cs. induction ps as [|p ps IH]; intros cs.
  - cbn [interleave app]. rewrite app_nil_r. induction cs as [|c cs [IH1 IH2]]; [done|]. cbn. split; [done|by f_equal].
  - destruct cs as [|c cs]; cbn [interleave app].
    + destruct (IH []) as [E1 E2]. cbn. split; [by f_equal|done].
    + destruct (IH cs) as [E1 E2]. cbn. split; by f_equal.
Qed.

Lemma elem_of_interleave s ps cs pe ce :
  s ∈ interleave ps pe cs ce -> s ∈ JParent <$> ps \/ s ∈ JChild <$> cs \/ s ∈ pe \/ s ∈ ce.
Proof.
  revert cs ce. induction ps as [|p ps IH]; intros cs ce; [cbn [interleave]; set_solver|].
  destruct cs as [|c cs]; cbn [interleave]; rewrite ?elem_of_cons, ?elem_of_app.
  - intros [->|[?|[?|[?|[?|?]]]%IH]]; set_solver.
  - intros [->|[->|[?|[?|[?|?]]]%IH]]; set_solver.
Qed.

Lemma interleave_step_ok ps cs : Forall doc_ok ps -> Forall doc_ok cs -> Forall step_ok (interleave ps [] cs []).
Proof.
  rewrite !Forall_forall. intros Hps Hcs s [Hs|[Hs|[Hs|Hs]]]%elem_of_interleave; try by apply elem_of_nil in Hs.
  - apply list_elem_of_fmap in Hs as (d & -> & Hd). by apply Hps.
  - apply list_elem_of_fmap in Hs as (d & -> & Hd). by apply Hcs.
Qed.

(** An end that comes first in either plan cuts the steps after documents. *)
Lemma interleave_stop ps cs pe ce f :
  Forall doc_ok ps -> Forall doc_ok cs -> pe = [JStop f] /\ ce = [] \/ pe = [] /\ ce = [JStop f] ->
  exists l l', interleave ps pe cs ce = l ++ JStop f :: l' /\ Forall step_ok l.
Proof.
  intros Hps. revert cs. induction Hps as [|p ps Hp Hps IH]; intros cs Hcs He.
  - destruct He as [[-> ->]|[-> ->]]; [by exists [], ((JChild <$> cs) ++ [])|].
    exists (JChild <$> cs), []. split; [done|]. by apply Forall_fmap.
  - destruct Hcs as [|c cs Hc Hcs]; cbn [interleave].
    + destruct He as [[-> ->]|[-> ->]]; [|exists [JParent p], (interleave ps [] [] []); split; [done|by apply Forall_singleton]].
      destruct (IH [] (Forall_nil_2 _) ltac:(by left)) as (l & l' & E & Hl). cbn [app]. rewrite E.
      exists (JParent p :: l), l'. split; [done|]. by constructor.
    + destruct (IH cs Hcs He) as (l & l' & -> & Hl). exists (JParent p :: JChild c :: l), l'.
      split; [done|]. do 2 (constructor; [done|]). done.
Qed.

Lemma join_failed l f : (forall m, f <> Ok m) -> foldl (join_one fmt_other keyFields mapping [ci] ci) f l = f.
Proof. intros Hf. induction l as [|s l IH]; [done|]. cbn [foldl]. by destruct f as [m| |]; [destruct (Hf m)|..]. Qed.

(** *** Hidden children *)

Definition visible (docs : list Doc) : list Doc := List.filter (fun d => negb (Hidden d)) docs.

Definition limited_docs (lim : option Limit) (docs : list Doc) : list Doc :=
  match lim with
  | Some l => take (Z.to_nat l.(Limit_limit)) (drop (Z.to_nat l.(Limit_offset)) docs)
  | None => docs
  end.

Definition limit_ok (lim : option Limit) : Prop :=
  forall l, lim = Some l -> 0 <= l.(Limit_limit) /\ 0 <= l.(Limit_offset) /\ l.(Limit_limit) + l.(Limit_offset) < 2 ^ 64.

Lemma visible_all docs : Forall (fun d => Hidden d = false) docs -> visible docs = docs.
Proof. induction 1 as [|d docs Hd _ IH]; [done|]. unfold visible. cbn. rewrite Hd. cbn. by f_equal. Qed.

Lemma visible_hide_from k lo hi docs :
  Forall (fun d => Hidden d = false) docs -> 0 <= lo <= hi ->
  visible (imap (fun i d => if (Z.of_nat (k + i) <? lo) || (hi <=? Z.of_nat (k + i)) then set_Hidden d true else d) docs) =
    take (Z.to_nat (hi - Z.max (Z.of_nat k) lo)) (drop (Z.to_nat (lo - Z.of_nat k)) docs).
Proof.
  intros Hd Hlo. revert k. induction Hd as [|d docs Hh _ IH]; intros k.
  - cbn. by rewrite drop_nil, take_nil.
  - rewrite imap_cons. unfold visible. cbn [List.filter]. fold (visible (imap _ docs)) || idtac.
    assert (forall b : bool, Hidden (if b then set_Hidden d true else d) = b) as Hb by (destruct d; cbn in Hh |- *; by intros []).
    rewrite Hb, Nat.add_0_r.
    specialize (IH (S k)). unfold visible in IH.
    rewrite (imap_ext _ (fun i d => if (Z.of_nat (S k + i) <? lo) || (hi <=? Z.of_nat (S k + i)) then set_Hidden d true else d)).
    2: { intros i x _. unfold compose. by replace (k + S i)%nat with (S k + i)%nat by lia. }
    rewrite IH. destruct (Z.ltb_spec (Z.of_nat k) lo); cbn [orb negb].
    + replace (Z.to_nat (lo - Z.of_nat k)) with (S (Z.to_nat (lo - Z.of_nat (S k)))) by lia. cbn [drop].
      do 2 f_equal. lia.
    + replace (Z.to_nat (lo - Z.of_nat (S k))) with O by lia. replace (Z.to_nat (lo - Z.of_nat k)) with O by lia.
      cbn [drop]. destruct (Z.leb_spec hi (Z.of_nat k)); cbn [negb].
      * replace (Z.to_nat (hi - Z.max (Z.of_nat k) lo)) with O by lia.
        by replace (Z.to_nat (hi - Z.max (Z.of_nat (S k)) lo)) with O by lia.
      * replace (Z.to_nat (hi - Z.max (Z.of_nat k) lo)) with (S (Z.to_nat (hi - Z.max (Z.of_nat (S k)) lo))) by lia. done.
Qed.

Lemma visible_hide l docs :
  Forall (fun d => Hidden d = false) docs -> limit_ok (Some l) ->
  visible (hide_docs l docs) = limited_docs (Some l) docs.
Proof.
  intros Hd Hl. destruct (Hl l eq_refl) as (H1 & H2 & H3).
  pose proof (visible_hide_from 0 l.(Limit_offset) (l.(Limit_limit) + l.(Limit_offset)) docs Hd ltac:(lia)) as Hv.
  unfold hide_docs. rewrite u64_small by (unfold is_u64; lia). cbn [Nat.add] in Hv. rewrite Hv. cbn [limited_docs].
  f_equal; [lia|]. f_equal. lia.
Qed.

Lemma group_child_ok lim g docs :
  length (Fields g) = nextIndex mapping -> get_field g ci = Ok (VDocs docs) ->
  Forall (fun d => Hidden d = false) docs -> limit_ok lim ->
  exists g' docs', group_children [mkChildSelect ci lim] g = Ok g' /\ get_field g' ci = Ok (VDocs docs') /\
    visible docs' = limited_docs lim docs /\
    generateKey fmt_other g' keyFields = generateKey fmt_other g keyFields.
Proof.
  intros Lg Cg Hd Hl. cbn [group_children]. unfold group_child. cbn [cs_Index cs_Limit]. rewrite Cg. cbn [rbind].
  destruct lim as [l|].
  - destruct (set_field_ok g ci (VDocs (hide_docs l docs)) ltac:(lia)) as (g' & E & L). rewrite E. cbn [rbind].
    exists g', (hide_docs l docs). split; [done|]. rewrite (get_set_field g ci _ g' ci E), decide_True by done.
    split; [done|]. split; [by apply visible_hide|]. apply generateKey_ext. intros j Hj.
    rewrite (get_set_field g ci _ g' j E), decide_False; [done|]. by intros <-.
  - exists g, docs. split; [done|]. split; [done|]. split; [by apply visible_all|done].
Qed.

Lemma children_shown k cs : Forall (fun d => Hidden d = false) cs -> Forall (fun d => Hidden d = false) (children k cs).
Proof.
  rewrite !Forall_forall. intros Hc d. unfold children. rewrite list_elem_of_In, filter_In, <- list_elem_of_In.
  intros [? _]. auto.
Qed.

(** *** The node *)

Definition group_of (lim : option Limit) (ps cs : list Doc) (k : string) (g : Doc) : Prop :=
  (k ∈ key <$> ps -> generateKey fmt_other g keyFields = Ok k) /\
  exists docs, get_field g ci = Ok (VDocs docs) /\ visible docs = limited_docs lim (children k cs).

Definition the_group (lim : option Limit) (ps : list Doc) (pe : result bool) (cs : list Doc) (ce : result bool) : groupNode :=
  mkGroup [mkChildSelect ci lim] keyFields [mkSource ps pe cs ce ci] mapping None zeroDoc 0.

Lemma group_node_yields vs n i :
  n.(g_values) = Some vs -> n.(g_currentIndex) = i ->
  @yields _ (PlanNode_group fmt_other) n (drop i vs) (Ok false).
Proof.
  remember (length vs - i)%nat as k eqn:Hk. revert n i Hk. induction k as [|k IH]; intros n i Hk Hn Hi.
  - rewrite drop_ge by lia. apply yields_end; [|done]. cbn. unfold group_Next, group_values. rewrite Hn, Hi.
    destruct (vs !! i) eqn:E; [apply lookup_lt_Some in E; lia|done].
  - destruct (vs !! i) as [v|] eqn:E; [|apply lookup_ge_None in E; lia]. rewrite (drop_S _ _ _ E).
    set (n' := mkGroup n.(g_childSelects) n.(g_groupByFields) n.(g_dataSources) n.(g_mapping) (Some vs) v (S i)).
    change (v :: drop (S i) vs) with (@pn_Value _ (PlanNode_group fmt_other) n' :: drop (S i) vs).
    apply (@yields_doc _ (PlanNode_group fmt_other)); [|by apply IH; [lia|..]].
    cbn. unfold group_Next, group_values. by rewrite Hn, Hi, E.
Qed.

Lemma group_values_ok lim ps cs :
  Forall doc_ok ps -> Forall doc_ok cs -> Forall (fun d => Hidden d = false) cs -> limit_ok lim ->
  let ks := foldl add_key [] ((fun s => key (step_doc s)) <$> interleave ps [] cs []) in
  exists out, group_values fmt_other (the_group lim ps (Ok false) cs (Ok false)) = Ok out /\ NoDup ks /\
    Forall2 (group_of lim ps cs) ks out.
Proof.
  intros Hps Hcs Hh Hl ks. destruct (interleave_docs ps cs) as [E1 E2].
  pose proof (interleave_step_ok ps cs Hps Hcs) as Hst.
  destruct (join_steps _ [] [] [] om_empty groups_empty Hst) as (m & Hj & [Hlen Hnd _ _ _ Hcell]).
  rewrite E1, E2 in *. cbn [app] in Hcell. fold ks in Hlen, Hnd, Hcell.
  unfold group_values, the_group. cbn [g_values g_dataSources g_groupByFields g_mapping g_childSelects].
  unfold join, source_steps. cbn [fmap list_fmap s_childIndex foldl s_parents s_children s_parentEnd s_childEnd end_steps].
  rewrite Hj. cbn [rbind].
  revert Hlen Hcell. clear -Hl Hh ci_range ci_no_key Hnd. revert Hnd. generalize ks. clear ks. intros ks Hnd.
  enough (forall vs ks', length vs = length ks' ->
    (forall i k g, ks' !! i = Some k -> vs !! i = Some g ->
      length (Fields g) = nextIndex mapping /\ get_field g ci = Ok (VDocs (children k cs)) /\
      (k ∈ rev (key <$> ps) ++ [] -> generateKey fmt_other g keyFields = Ok k)) ->
    exists out, map_result (group_children [mkChildSelect ci lim]) vs = Ok out /\ Forall2 (group_of lim ps cs) ks' out) as Hgo.
  { intros Hlen Hcell. destruct (Hgo (om_values m) ks Hlen Hcell) as (out & ? & ?). by exists out. }
  induction vs as [|g vs IH]; intros [|k ks'] Hlen Hcell; try done.
  - exists []. split; [done|constructor].
  - destruct (Hcell 0%nat k g eq_refl eq_refl) as (Lg & Cg & Kg).
    destruct (group_child_ok lim g _ Lg Cg (children_shown k cs Hh) Hl) as (g' & docs & Hg & Cg' & Hv & Kg').
    destruct (IH ks') as (out & Ho & Hf); [cbn in Hlen; lia|intros i; apply (Hcell (S i))|].
    exists (g' :: out). cbn [map_result]. rewrite Hg. cbn [rbind]. rewrite Ho. split; [done|].
    constructor; [|done]. split; [|by exists docs]. intros Hk. rewrite Kg'. apply Kg.
    rewrite app_nil_r. apply list_elem_of_In. rewrite <- in_rev. by apply list_elem_of_In.
Qed.

Lemma elem_of_add_keys k ks l : k ∈ foldl add_key ks l <-> k ∈ ks \/ k ∈ l.
Proof.
  revert ks. induction l as [|x l IH]; intros ks; cbn [foldl]; [set_solver|]. rewrite IH. unfold add_key.
  case_decide; set_solver.
Qed.

Lemma group_keys k ps cs :
  k ∈ foldl add_key [] ((fun s => key (step_doc s)) <$> interleave ps [] cs []) <-> k ∈ key <$> ps ++ cs.
Proof.
  rewrite elem_of_add_keys, fmap_app, elem_of_app, !list_elem_of_fmap. destruct (interleave_docs ps cs) as [E1 E2]. split.
  - intros [?%elem_of_nil|(s & -> & [Hs|[Hs|[?%elem_of_nil|?%elem_of_nil]]]%elem_of_interleave)]; try done;
      apply list_elem_of_fmap in Hs as (d & -> & Hd); [left|right]; by exists d.
  - intros Hk. right. destruct Hk as [(d & -> & Hd)|(d & -> & Hd)].
    + rewrite <- E1 in Hd. apply list_elem_of_omap in Hd as ([x|x|x] & Hx & [= ->]). by exists (JParent d).
    + rewrite <- E2 in Hd. apply list_elem_of_omap in Hd as ([x|x|x] & Hx & [= ->]). by exists (JChild d).
Qed.

Lemma group_values_error lim ps pe cs ce e :
  Forall doc_ok ps -> Forall doc_ok cs -> pe = Err e /\ ce = Ok false \/ pe = Ok false /\ ce = Err e ->
  group_values fmt_other (the_group lim ps pe cs ce) = Err e.
Proof.
  intros Hps Hcs He.
  destruct (interleave_stop ps cs (end_steps pe) (end_steps ce) (Err e) Hps Hcs) as (l & l' & E & Hl).
  { destruct He as [[-> ->]|[-> ->]]; [by left|by right]. }
  destruct (join_steps l [] [] [] om_empty groups_empty Hl) as (m & Hj & _).
  unfold group_values, the_group, join, source_steps. cbn [g_values g_dataSources g_groupByFields g_mapping fmap list_fmap
    s_childIndex foldl s_parents s_children s_parentEnd s_childEnd].
  rewrite E, foldl_app, Hj. cbn [foldl]. unfold join_one at 2. cbn [rbind]. by rewrite join_failed.
Qed.

(** C34: a group node yields one group for every key of its parents and children.  The
    group has the key of its parents, and its cell of children shows the children with
    that key, in the order of the source, after the offset and up to the limit.  An
    error of the parent or the child plan is the result of the node. *)
Theorem groupNode_groups lim ps cs :
  Forall doc_ok ps -> Forall doc_ok cs -> Forall (fun d => Hidden d = false) cs -> limit_ok lim ->
  (exists ks out, @yields _ (PlanNode_group fmt_other) (the_group lim ps (Ok false) cs (Ok false)) out (Ok false) /\
    NoDup ks /\ (forall k, k ∈ ks <-> k ∈ key <$> ps ++ cs) /\ Forall2 (group_of lim ps cs) ks out) /\
  (forall e, @yields _ (PlanNode_group fmt_other) (the_group lim ps (Err e) cs (Ok false)) [] (Err e) /\
    @yields _ (PlanNode_group fmt_other) (the_group lim ps (Ok false) cs (Err e)) [] (Err e)).
Proof.
  intros Hps Hcs Hh Hl. split.
  - destruct (group_values_ok lim ps cs Hps Hcs Hh Hl) as (out & Hv & Hnd & Hf).
    eexists _, out. split; [|split; [exact Hnd|split; [intros k; apply group_keys|exact Hf]]].
    destruct out as [|g out].
    + apply yields_end; [|done]. cbn. unfold group_Next. by rewrite Hv.
    + set (n := mkGroup [mkChildSelect ci lim] keyFields [mkSource ps (Ok false) cs (Ok false) ci] mapping (Some (g :: out)) g 1).
      change (g :: out) with (@pn_Value _ (PlanNode_group fmt_other) n :: drop 1 (g :: out)).
      apply (@yields_doc _ (PlanNode_group fmt_other)); [|by apply group_node_yields].
      cbn. unfold group_Next. by rewrite Hv.
  - intros e. split; (apply yields_end; [|done]); cbn; unfold group_Next;
      rewrite (group_values_error lim ps _ cs _ e); try done; [by left|by right].
Qed.
End Groups.

(** ** Concrete groups *)

Module GroupWitness.

Definition fmt0 (_ : val) : string := "?".

(** Users with a name, a city and a cell for the group. *)
Definition mapping0 : DocumentMapping := Add (Add (Add NewDocumentMapping 0 "name") 1 "city") 2 "_group".
Definition person (name city : string) : Doc := mkDoc false [VString name; VString city; VNil] 0.
Definition people : list Doc := [person "Ann" "Oslo"; person "Bob" "Rome"; person "Cid" "Oslo"].
Definition by_city (d : Doc) : string :=
  match generateKey fmt0 d [1%nat] with Ok k => k | _ => "" end.

Lemma people_ok : Forall (doc_ok fmt0 [1%nat] mapping0 by_city) people.
Proof. repeat (constructor; [split; vm_compute; reflexivity|]). constructor. Qed.

Lemma groupNode_groups_witness :
  exists ks out,
    @yields _ (PlanNode_group fmt0)
      (the_group [1%nat] mapping0 2 (Some (mkLimitOf 1 0)) people (Ok false) people (Ok false)) out (Ok false) /\
    Forall2 (group_of fmt0 [1%nat] 2 by_city (Some (mkLimitOf 1 0)) people people) ks out.
Proof.
  destruct (groupNode_groups fmt0 [1%nat] mapping0 2 by_city) with (lim := Some (mkLimitOf 1 0)) (ps := people) (cs := people)
    as [(ks & out & Hy & _ & _ & Hf) _].
  - vm_compute. lia.
  - intros [E|E%elem_of_nil]%elem_of_cons; [discriminate E|done].
  - exact people_ok.
  - exact people_ok.
  - repeat (constructor; [reflexivity|]). constructor.
  - intros l [= <-]. cbn. lia.
  - exists ks, out. split; [exact Hy|exact Hf].
Defined.

(** the key of a group is ambiguous: two documents that differ in both group-by
    fields have one key, and so one group.  And a group with an offset but no limit,
    which is a limit of zero, hides all of its documents. *)
Theorem group_departures :
  generateKey fmt0 (person "a_1_b" "c") [0%nat; 1%nat] = generateKey fmt0 (person "a" "b_1_c") [0%nat; 1%nat] /\
  (forall docs offset, 0 <= offset < 2 ^ 64 ->
    Forall (fun d => Hidden d = true) (hide_docs (mkLimitOf 0 offset) docs)).
Proof.
  split; [vm_compute; reflexivity|]. intros docs offset Ho. unfold hide_docs. cbn [Limit_limit Limit_offset].
  rewrite Z.add_0_l, u64_small by done. apply Forall_forall. intros d Hd.
  apply list_elem_of_lookup_1 in Hd as [i Hi]. rewrite list_lookup_imap in Hi.
  destruct (docs !! i) as [x|]; [|done]. cbn in Hi. injection Hi as <-.
  destruct (Z.ltb_spec (Z.of_nat i) offset), (Z.leb_spec offset (Z.of_nat i)); try lia; by destruct x.
Qed.
End GroupWitness.
