(* ===== verification/Desc.v ===== *)
(** * Collection descriptions (client/descriptions.go, client/ctype.go, db/base/collection_keys.go)

    The description of a collection and of its fields, the lookups in it, and the keys
    of its documents and fields. *)

From S2P Require Import Prelude GoStd Keys Store Crdt MultiStore Clock.

(** ** Field kinds and relation types *)

Definition FieldKind_None : Z := 0.
Definition FieldKind_DocKey : Z := 1.
Definition FieldKind_BOOL : Z := 2.
Definition FieldKind_BOOL_ARRAY : Z := 3.
Definition FieldKind_INT : Z := 4.
Definition FieldKind_INT_ARRAY : Z := 5.
Definition FieldKind_FLOAT : Z := 6.
Definition FieldKind_FLOAT_ARRAY : Z := 7.
Definition FieldKind_DATETIME : Z := 10.
Definition FieldKind_STRING : Z := 11.
Definition FieldKind_STRING_ARRAY : Z := 12.
Definition FieldKind_FOREIGN_OBJECT : Z := 16.
Definition FieldKind_FOREIGN_OBJECT_ARRAY : Z := 17.
Definition FieldKind_NILLABLE_BOOL_ARRAY : Z := 18.
Definition FieldKind_NILLABLE_INT_ARRAY : Z := 19.
Definition FieldKind_NILLABLE_FLOAT_ARRAY : Z := 20.
Definition FieldKind_NILLABLE_STRING_ARRAY : Z := 21.

Definition FieldKindStringToEnumMapping : list (string * Z) := [
  ("ID", FieldKind_DocKey);
  ("Boolean", FieldKind_BOOL);
  ("[Boolean]", FieldKind_NILLABLE_BOOL_ARRAY);
  ("[Boolean!]", FieldKind_BOOL_ARRAY);
  ("Integer", FieldKind_INT);
  ("[Integer]", FieldKind_NILLABLE_INT_ARRAY);
  ("[Integer!]", FieldKind_INT_ARRAY);
  ("DateTime", FieldKind_DATETIME);
  ("Float", FieldKind_FLOAT);
  ("[Float]", FieldKind_NILLABLE_FLOAT_ARRAY);
  ("[Float!]", FieldKind_FLOAT_ARRAY);
  ("String", FieldKind_STRING);
  ("[String]", FieldKind_NILLABLE_STRING_ARRAY);
  ("[String!]", FieldKind_STRING_ARRAY)].

Definition Relation_Type_ONE : Z := 1.
Definition Relation_Type_MANY : Z := 2.
Definition Relation_Type_ONEONE : Z := 4.
Definition Relation_Type_ONEMANY : Z := 8.
Definition Relation_Type_MANYMANY : Z := 16.
Definition Relation_Type_INTERNAL_ID : Z := 64.
Definition Relation_Type_Primary : Z := 128.

Definition NONE_CRDT : Z := 0.

(** ** Descriptions *)

Record FieldDescription := mkField {
  fd_Name : string;
  fd_ID : Z;
  fd_Kind : Z;
  fd_Schema : string;
  fd_RelationName : string;
  fd_Typ : Z;
  fd_RelationType : Z;
}.

#[global] Instance FieldDescription_eq_dec : EqDecision FieldDescription.
Proof. solve_decision. Defined.

Record SchemaDescription := mkSchema {
  sd_SchemaID : string;
  sd_VersionID : string;
  sd_Name : string;
  sd_Fields : list FieldDescription;
}.

#[global] Instance SchemaDescription_eq_dec : EqDecision SchemaDescription.
Proof. solve_decision. Defined.

Record CollectionDescription := mkCollectionDescription {
  cd_Name : string;
  cd_ID : Z;
  cd_Schema : SchemaDescription;
}.

#[global] Instance CollectionDescription_eq_dec : EqDecision CollectionDescription.
Proof. solve_decision. Defined.

Definition set_ID (f : FieldDescription) (id : Z) : FieldDescription :=
  mkField f.(fd_Name) id f.(fd_Kind) f.(fd_Schema) f.(fd_RelationName) f.(fd_Typ) f.(fd_RelationType).
Definition set_Typ (f : FieldDescription) (t : Z) : FieldDescription :=
  mkField f.(fd_Name) f.(fd_ID) f.(fd_Kind) f.(fd_Schema) f.(fd_RelationName) t f.(fd_RelationType).
Definition with_Fields (s : SchemaDescription) (fs : list FieldDescription) : SchemaDescription :=
  mkSchema s.(sd_SchemaID) s.(sd_VersionID) s.(sd_Name) fs.
Definition with_Schema (d : CollectionDescription) (s : SchemaDescription) : CollectionDescription :=
  mkCollectionDescription d.(cd_Name) d.(cd_ID) s.
Definition with_VersionID (s : SchemaDescription) (v : string) : SchemaDescription :=
  mkSchema s.(sd_SchemaID) v s.(sd_Name) s.(sd_Fields).
Definition with_SchemaID (s : SchemaDescription) (v : string) : SchemaDescription :=
  mkSchema v s.(sd_VersionID) s.(sd_Name) s.(sd_Fields).

Definition FieldID_String (id : Z) : string := Sprint (u32 id).

Definition IDString (col : CollectionDescription) : string := Sprint col.(cd_ID).

Definition IsEmpty (sd : SchemaDescription) : bool := (length sd.(sd_Fields) =? 0)%nat.

(** The first field with a property, as the loops return it; [(FieldDescription{}, false)]
    is [None]. *)
Definition first_field (col : CollectionDescription) (p : FieldDescription -> bool) : option FieldDescription :=
  if negb (IsEmpty col.(cd_Schema)) then List.find p col.(cd_Schema).(sd_Fields) else None.

Definition GetField (col : CollectionDescription) (name : string) : option FieldDescription :=
  first_field col (fun f => String.eqb f.(fd_Name) name).

Definition GetFieldByID (col : CollectionDescription) (id : string) : option FieldDescription :=
  first_field col (fun f => String.eqb (FieldID_String f.(fd_ID)) id).

Definition GetRelation (col : CollectionDescription) (name : string) : option FieldDescription :=
  first_field col (fun f => String.eqb f.(fd_RelationName) name).

Definition GetFieldKey (sd : SchemaDescription) (fieldName : string) : Z :=
  match List.find (fun f => String.eqb f.(fd_Name) fieldName) sd.(sd_Fields) with
  | Some f => u32 f.(fd_ID)
  | None => 0
  end.

Definition IsObject (f : FieldDescription) : bool :=
  (f.(fd_Kind) =? FieldKind_FOREIGN_OBJECT) || (f.(fd_Kind) =? FieldKind_FOREIGN_OBJECT_ARRAY).

Definition IsObjectArray (f : FieldDescription) : bool := f.(fd_Kind) =? FieldKind_FOREIGN_OBJECT_ARRAY.

Definition IsPrimaryRelation (f : FieldDescription) : bool :=
  (0 <? f.(fd_RelationType)) && negb (Z.land f.(fd_RelationType) Relation_Type_Primary =? 0).

Definition IsSet (m target : Z) : bool := 0 <? Z.land m target.

(** ** Keys of a collection *)

Definition COMPOSITE_NAMESPACE : string := "C".
Definition ErrBaseInvalidCrdtType : error := ErrNew "invalid CRDT type".

Definition MakeCollectionKey (col : CollectionDescription) : DataStoreKey := mkDataStoreKey (IDString col) "" "" "".

Definition MakeDocKey (col : CollectionDescription) (docKey : string) : DataStoreKey :=
  mkDataStoreKey (IDString col) "" docKey "".

Definition getFieldKey (c : CollectionDescription) (key : DataStoreKey) (fieldName : string) : DataStoreKey :=
  if negb (IsEmpty c.(cd_Schema)) then WithFieldId key (Sprint (GetFieldKey c.(cd_Schema) fieldName))
  else WithFieldId key fieldName.

Definition MakePrimaryIndexKeyForCRDT (c : CollectionDescription) (ctype : Z) (key : DataStoreKey) (fieldName : string)
    : result DataStoreKey :=
  if ctype =? COMPOSITE then Ok (WithFieldId (WithInstanceInfo (MakeCollectionKey c) key) COMPOSITE_NAMESPACE)
  else if ctype =? LWW_REGISTER then Ok (WithInstanceInfo (MakeCollectionKey c) (getFieldKey c key fieldName))
  else Err ErrBaseInvalidCrdtType.
