(* ===== verification/Schema.v ===== *)
(** * Sequences and collections (db/sequence.go, db/collection.go, db/schema.go)

    The system store of a database holds, for every collection, the description of each
    of its schema versions, and the current version under its name and under its schema
    id; and a sequence from which the ids of collections are drawn.  The operations run
    in a transaction; [S] is its state.  Descriptions are encoded as JSON
    ([encoding/json]) and identified by the CID of a hash (go-cid). *)

From Stdlib Require Import Ascii.
From stdpp Require Import pretty.
From S2P Require Import Prelude GoStd Keys Store Crdt MultiStore Clock Desc.

(** ** Errors (db/errors.go, client/errors.go)

    The key-value pairs that the errors carry are left out. *)

Definition ErrCollectionAlreadyExists : error := ErrNew "collection already exists".
Definition ErrCollectionNameEmpty : error := ErrNew "collection name can't be empty".
Definition ErrSchemaIdEmpty : error := ErrNew "schema ID can't be empty".
Definition ErrSchemaVersionIdEmpty : error := ErrNew "schema version ID can't be empty".
Definition ErrKeyEmpty : error := ErrNew "key cannot be empty".
Definition ErrSchemaFirstFieldDocKey : error := ErrNew "collection schema first field must be a DocKey".
Definition ErrCannotSetVersionID : error := ErrNew "setting the VersionID is not supported. It is updated automatically".
Definition NewErrUninitializeProperty : error := ErrNew "invalid state, required property is uninitialized".
Definition NewErrAddCollectionWithPatch : error := ErrNew "unknown collection, adding collections via patch is not supported".
Definition NewErrCollectionIDDoesntMatch : error := ErrNew "CollectionID does not match existing".
Definition NewErrSchemaIDDoesntMatch : error := ErrNew "SchemaID does not match existing".
Definition NewErrCannotModifySchemaName : error := ErrNew "modifying the schema name is not supported".
Definition NewErrCannotSetFieldID : error := ErrNew "explicitly setting a field ID value is not supported".
Definition NewErrCannotAddRelationalField : error := ErrNew "the adding of new relation fields is not yet supported".
Definition NewErrDuplicateField : error := ErrNew "duplicate field".
Definition NewErrCannotMutateField : error := ErrNew "mutating an existing field is not supported".
Definition NewErrCannotMoveField : error := ErrNew "moving fields is not currently supported".
Definition NewErrInvalidCRDTType : error := ErrNew "only default or LWW (last writer wins) CRDT types are supported".
Definition NewErrCannotDeleteField : error := ErrNew "deleting an existing field is not supported".

(** ** Interfaces to encoding/json and go-cid *)

(** JSON keeps strings of printable ASCII. *)
Fixpoint plain (s : string) : bool :=
  match s with
  | EmptyString => true
  | String c s => (32 <=? byte_val c) && (byte_val c <? 127) && plain s
  end.

Definition plain_field (f : FieldDescription) : bool :=
  plain f.(fd_Name) && plain f.(fd_Schema) && plain f.(fd_RelationName).

Definition plain_desc (d : CollectionDescription) : bool :=
  plain d.(cd_Name) && plain d.(cd_Schema).(sd_SchemaID) && plain d.(cd_Schema).(sd_VersionID) &&
  plain d.(cd_Schema).(sd_Name) && forallb plain_field d.(cd_Schema).(sd_Fields).

Class DescCodec `{CidOps} := {
  json_Marshal_global : string -> SchemaDescription -> result bytes;
  json_Marshal_schema : SchemaDescription -> result bytes;
  json_Marshal_desc : CollectionDescription -> result bytes;
  json_Unmarshal_desc : bytes -> result CollectionDescription;
  pref_Sum : bytes -> result Cid;
  json_global_total : forall n s, exists b, json_Marshal_global n s = Ok b;
  json_schema_total : forall s, exists b, json_Marshal_schema s = Ok b;
  json_desc_total : forall d, exists b, json_Marshal_desc d = Ok b;
  json_desc_roundtrip : forall d b, plain_desc d = true ->
    json_Marshal_desc d = Ok b -> json_Unmarshal_desc b = Ok d;
  pref_Sum_total : forall b, exists c, pref_Sum b = Ok c /\ Cid_Defined c = true;
  Cid_String_plain : forall c, Cid_Defined c = true -> plain (Cid_String c) = true;
}.

Definition NewSHA256CidV1 `{DescCodec} (data : bytes) : result Cid := pref_Sum data.

Section Schema.
Context {S : Type} `{MultiStore S} `{DsKey} `{DescCodec}.

(** ** The system store *)

Definition sys_Get (k : string) : M S bytes := @ds_Get S (store_of NSystem) k.
Definition sys_Has (k : string) : M S bool := @ds_Has S (store_of NSystem) k.
Definition sys_Put (k : string) (v : bytes) : M S unit := @ds_Put S (store_of NSystem) k v.
Definition sys_Query (p : string) : M S (list entry) := @ds_Query S (store_of NSystem) p.

(** ** Sequences *)

Record sequence := mkSequence { seq_key : SequenceKey; seq_val : Z }.

Definition seq_get (seq : sequence) : M S sequence :=
  let* val := sys_Get (ToDS seq.(seq_key)) in
  let* num := mlift (Uint64 val) in
  mret (mkSequence seq.(seq_key) num).

Definition seq_update (seq : sequence) : M S unit := sys_Put (ToDS seq.(seq_key)) (PutUint64 seq.(seq_val)).

Definition getSequence (key : string) : M S sequence :=
  if String.eqb key "" then mfail ErrKeyEmpty else
  let seq := mkSequence (NewSequenceKey key) 0 in
  let* r := mtry (seq_get seq) in
  match r with
  | inl seq => mret seq
  | inr err =>
      if errors_Is err ErrNotFound then
        let* _ := seq_update seq in
        mret seq
      else mfail err
  end.

Definition seq_next (seq : sequence) : M S (sequence * Z) :=
  let* seq := seq_get seq in
  let seq := mkSequence seq.(seq_key) (u64 (seq.(seq_val) + 1)) in
  let* _ := seq_update seq in
  mret (seq, seq.(seq_val)).

(** ** Collections *)

Record collection := mkCollection {
  col_colID : Z;
  col_schemaID : string;
  col_desc : CollectionDescription;
}.

(** The checks of one field and its id. *)
Definition newField (i : nat) (field : FieldDescription) : result FieldDescription :=
  if String.eqb field.(fd_Name) "" then Err NewErrUninitializeProperty
  else if field.(fd_Kind) =? FieldKind_None then Err NewErrUninitializeProperty
  else if negb (field.(fd_Kind) =? FieldKind_DocKey) && negb (IsObject field) && (field.(fd_Typ) =? NONE_CRDT)
  then Err NewErrUninitializeProperty
  else Ok (set_ID field (u32 (Z.of_nat i))).

Fixpoint newFields (i : nat) (fields : list FieldDescription) : result (list FieldDescription) :=
  match fields with
  | [] => Ok []
  | field :: fields =>
      let! field := newField i field in
      let! fields := newFields (Datatypes.S i) fields in
      Ok (field :: fields)
  end.

Definition KeyFieldName : string := "_key".

Definition newCollection (desc : CollectionDescription) : result collection :=
  if String.eqb desc.(cd_Name) "" then Err NewErrUninitializeProperty else
  match desc.(cd_Schema).(sd_Fields) with
  | [] => Err NewErrUninitializeProperty
  | docKeyField :: _ =>
      if negb (docKeyField.(fd_Kind) =? FieldKind_DocKey) || negb (String.eqb docKeyField.(fd_Name) KeyFieldName)
      then Err ErrSchemaFirstFieldDocKey else
      let! fields := newFields 0 desc.(cd_Schema).(sd_Fields) in
      let desc := with_Schema desc (with_Fields desc.(cd_Schema) fields) in
      Ok (mkCollection desc.(cd_ID) "" desc)
  end.

(** The version of a description is stored under its id, and the id under the schema
    and under the name. *)
Definition putVersion (desc : CollectionDescription) (schemaVersionID schemaID name : string) : M S unit :=
  let* buf := mlift (json_Marshal_desc desc) in
  let* _ := sys_Put (ToDS (NewCollectionSchemaVersionKey schemaVersionID)) buf in
  let* _ := sys_Put (ToDS (NewCollectionSchemaKey schemaID)) schemaVersionID in
  sys_Put (ToDS (NewCollectionKey name)) schemaVersionID.

Definition createCollection (desc : CollectionDescription) : M S collection :=
  let name := desc.(cd_Name) in
  let* exists_ := sys_Has (ToDS (NewCollectionKey name)) in
  if (exists_ : bool) then mfail ErrCollectionAlreadyExists else
  let* colSeq := getSequence COLLECTION in
  let* (_, colID) := seq_next colSeq in
  let desc := mkCollectionDescription name (u32 colID) desc.(cd_Schema) in
  let* col := mlift (newCollection desc) in
  let* globalSchemaBuf := mlift (json_Marshal_global col.(col_desc).(cd_Name) col.(col_desc).(cd_Schema)) in
  let* cid := mlift (NewSHA256CidV1 globalSchemaBuf) in
  let schemaID := Cid_String cid in
  let schemaVersionID := schemaID in
  let desc := with_Schema col.(col_desc)
    (with_SchemaID (with_VersionID col.(col_desc).(cd_Schema) schemaVersionID) schemaID) in
  let* _ := putVersion desc schemaVersionID schemaID name in
  mret (mkCollection col.(col_colID) schemaID desc).

Definition getCollectionByVersionID (schemaVersionId : string) : M S collection :=
  if String.eqb schemaVersionId "" then mfail ErrSchemaVersionIdEmpty else
  let* buf := sys_Get (ToDS (NewCollectionSchemaVersionKey schemaVersionId)) in
  let* desc := mlift (json_Unmarshal_desc buf) in
  mret (mkCollection desc.(cd_ID) desc.(cd_Schema).(sd_SchemaID) desc).

Definition getCollectionByName (name : string) : M S collection :=
  if String.eqb name "" then mfail ErrCollectionNameEmpty else
  let* buf := sys_Get (ToDS (NewCollectionKey name)) in
  getCollectionByVersionID buf.

Definition getCollectionBySchemaID (schemaID : string) : M S collection :=
  if String.eqb schemaID "" then mfail ErrSchemaIdEmpty else
  let* buf := sys_Get (ToDS (NewCollectionSchemaKey schemaID)) in
  getCollectionByVersionID buf.

(** The loop over the results of the query.  At an error of a result the function
    returns [nil, err] with the [err] of the query, which is nil. *)
Fixpoint collectCollections (es : list entry) (cols : list collection) : M S (list collection) :=
  match es with
  | [] => mret cols
  | Err _ :: _ => mret []
  | Panic :: _ => mpanic
  | Ok (_, schemaVersionId) :: es =>
      let* col := wrap_err "failed to get collection" (getCollectionByVersionID schemaVersionId) in
      collectCollections es (cols ++ [col])
  end.

Definition getAllCollections : M S (list collection) :=
  let prefix := NewCollectionKey "" in
  let* q := wrap_err "failed to create collection prefix query" (sys_Query (CollectionKey_ToString prefix)) in
  collectCollections q [].

(** ** Updates of a schema *)

(** One round of the loop over the proposed fields. *)
Record update_state := mkUpdate { hasChanged : bool; newFieldNames : list string; newFieldIds : list Z }.

(** A Go map read with its zero value for an absent key; a later entry replaces an
    earlier one. *)
Definition fieldByID (fields : list FieldDescription) (id : Z) : option FieldDescription :=
  List.find (fun f => f.(fd_ID) =? id) (rev fields).

Fixpoint fieldIndex (fields : list FieldDescription) (i : Z) (acc : Z) (name : string) : Z :=
  match fields with
  | [] => acc
  | f :: fields => fieldIndex fields (i + 1) (if String.eqb f.(fd_Name) name then i else acc) name
  end.

Definition validateField (existing : list FieldDescription) (proposedIndex : nat) (proposedField : FieldDescription)
    (st : update_state) : result update_state :=
  let existingField :=
    if negb (proposedField.(fd_ID) =? 0) || String.eqb proposedField.(fd_Name) KeyFieldName
    then fieldByID existing proposedField.(fd_ID) else None in
  let fieldAlreadyExists := bool_decide (is_Some existingField) in
  if negb (proposedField.(fd_ID) =? 0) && negb fieldAlreadyExists then Err NewErrCannotSetFieldID else
  let changed := st.(hasChanged) || negb fieldAlreadyExists in
  if negb fieldAlreadyExists && IsObject proposedField then Err NewErrCannotAddRelationalField else
  if bool_decide (proposedField.(fd_Name) ∈ st.(newFieldNames)) then Err NewErrDuplicateField else
  if fieldAlreadyExists && negb (bool_decide (existingField = Some proposedField)) then Err NewErrCannotMutateField else
  if fieldAlreadyExists && negb (Z.of_nat proposedIndex =? fieldIndex existing 0 0 proposedField.(fd_Name))
  then Err NewErrCannotMoveField else
  if negb (proposedField.(fd_Typ) =? NONE_CRDT) && negb (proposedField.(fd_Typ) =? LWW_REGISTER)
  then Err NewErrInvalidCRDTType else
  Ok (mkUpdate changed (proposedField.(fd_Name) :: st.(newFieldNames)) (proposedField.(fd_ID) :: st.(newFieldIds))).

Fixpoint validateFields (existing : list FieldDescription) (i : nat) (proposed : list FieldDescription)
    (st : update_state) : result update_state :=
  match proposed with
  | [] => Ok st
  | f :: proposed =>
      let! st := validateField existing i f st in
      validateFields existing (Datatypes.S i) proposed st
  end.

Definition validateUpdate (existingDesc proposedDesc : CollectionDescription) : result bool :=
  let existing := existingDesc.(cd_Schema) in
  let proposed := proposedDesc.(cd_Schema) in
  if negb (proposedDesc.(cd_ID) =? existingDesc.(cd_ID)) then Err NewErrCollectionIDDoesntMatch else
  if negb (String.eqb proposed.(sd_SchemaID) existing.(sd_SchemaID)) then Err NewErrSchemaIDDoesntMatch else
  if negb (String.eqb proposed.(sd_Name) existing.(sd_Name)) then Err NewErrCannotModifySchemaName else
  if negb (String.eqb proposed.(sd_VersionID) "") && negb (String.eqb proposed.(sd_VersionID) existing.(sd_VersionID))
  then Err ErrCannotSetVersionID else
  let! st := validateFields existing.(sd_Fields) 0 proposed.(sd_Fields) (mkUpdate false [] []) in
  if forallb (fun f => bool_decide (f.(fd_ID) ∈ st.(newFieldIds))) existing.(sd_Fields)
  then Ok st.(hasChanged) else Err NewErrCannotDeleteField.

Definition validateUpdateCollection (proposedDesc : CollectionDescription) : M S bool :=
  let* r := mtry (getCollectionByName proposedDesc.(cd_Name)) in
  match r with
  | inr err => if errors_Is err ErrNotFound then mfail NewErrAddCollectionWithPatch else mfail err
  | inl existingCollection => mlift (validateUpdate existingCollection.(col_desc) proposedDesc)
  end.

(** New fields get their index as id and the default CRDT type. *)
Definition updateField (i : nat) (field : FieldDescription) : FieldDescription :=
  let field := if field.(fd_ID) =? 0 then set_ID field (u32 (Z.of_nat i)) else field in
  if field.(fd_Typ) =? NONE_CRDT then set_Typ field LWW_REGISTER else field.

Definition updateCollection (desc : CollectionDescription) : M S collection :=
  let* hasChanged := validateUpdateCollection desc in
  if negb hasChanged then getCollectionByName desc.(cd_Name) else
  let schema := with_Fields desc.(cd_Schema) (imap updateField desc.(cd_Schema).(sd_Fields)) in
  let* globalSchemaBuf := mlift (json_Marshal_schema schema) in
  let* cid := mlift (NewSHA256CidV1 globalSchemaBuf) in
  let schemaVersionID := Cid_String cid in
  let desc := with_Schema desc (with_VersionID schema schemaVersionID) in
  let* _ := putVersion desc schemaVersionID desc.(cd_Schema).(sd_SchemaID) desc.(cd_Name) in
  getCollectionByName desc.(cd_Name).

(** ** Schemas of a database *)

(** The parser of the request language (request/graphql), as far as the database uses
    it. *)
Record Parser := mkParser {
  ParseSDL : string -> M S (list CollectionDescription);
  SetSchema : list CollectionDescription -> M S unit;
}.

Definition getCollectionDescriptions : M S (list CollectionDescription) :=
  let* collections := getAllCollections in
  mret (col_desc <$> collections).

Fixpoint createCollections (descs : list CollectionDescription) : M S (list CollectionDescription) :=
  match descs with
  | [] => mret []
  | desc :: descs =>
      let* col := createCollection desc in
      let* rest := createCollections descs in
      mret (col.(col_desc) :: rest)
  end.

Definition addSchema (parser : Parser) (schemaString : string) : M S (list CollectionDescription) :=
  let* existingDescriptions := getCollectionDescriptions in
  let* newDescriptions := ParseSDL parser schemaString in
  let* _ := SetSchema parser (existingDescriptions ++ newDescriptions) in
  createCollections newDescriptions.

Definition loadSchema (parser : Parser) : M S unit :=
  let* descriptions := getCollectionDescriptions in
  SetSchema parser descriptions.

Definition getCollectionsByName : M S (gmap string CollectionDescription) :=
  let* collections := getAllCollections in
  mret (foldl (fun m c => <[c.(col_desc).(cd_Name) := c.(col_desc)]> m) ∅ collections).

(** [db.initialize], within its transaction. *)
Definition initialize (parser : Parser) : M S unit :=
  let* r := mtry (sys_Has (NewKey "init")) in
  let* exists_ := match r with
                  | inl b => mret b
                  | inr err => if errors_Is err ErrNotFound then mret false else mfail err
                  end in
  if (exists_ : bool) then loadSchema parser
  else
    let* _ := getSequence COLLECTION in
    sys_Put (NewKey "init") (String (byte_of 1) "").
End Schema.

(** ** Paths of a patch *)

Definition elements_of (path : string) : list string := Split (TrimPrefix path "/") "/".

Definition isField (path : string) : bool :=
  match elements_of path with
  | [_; s; fs; _] => String.eqb fs "Fields" && String.eqb s "Schema"
  | _ => false
  end.

Definition isFieldKind (path : string) : bool :=
  match elements_of path with
  | [_; s; fs; _; k] => String.eqb k "Kind" && String.eqb fs "Fields" && String.eqb s "Schema"
  | _ => false
  end.

(** ** What an update of a schema may change *)

(** A schema as the database stores it: the key field comes first, the id of a field is
    its index, and the names are distinct. *)
Record fields_wf (fs : list FieldDescription) : Prop := {
  fw_key : exists f fs', fs = f :: fs' /\ f.(fd_Name) = KeyFieldName /\ f.(fd_Kind) = FieldKind_DocKey;
  fw_ids : forall i f, fs !! i = Some f -> f.(fd_ID) = Z.of_nat i;
  fw_names : NoDup (fd_Name <$> fs);
}.

(** A field that an update adds: it has no id yet, is not the key and not a relation. *)
Definition new_field (f : FieldDescription) : Prop :=
  f.(fd_ID) = 0 /\ f.(fd_Name) <> KeyFieldName /\ IsObject f = false.

Definition typ_ok (f : FieldDescription) : Prop := f.(fd_Typ) = NONE_CRDT \/ f.(fd_Typ) = LWW_REGISTER.

Section Update.
Variable ex : list FieldDescription.
Hypothesis Hwf : fields_wf ex.

Lemma find_rev_unique {A} (p : A -> bool) l x :
  x ∈ l -> p x = true -> (forall y, y ∈ l -> p y = true -> y = x) -> List.find p (rev l) = Some x.
Proof.
  intros Hx Hp Hu. destruct (List.find p (rev l)) as [y|] eqn:E.
  - apply find_some in E as [Hy Hpy]. f_equal. apply Hu; [|done]. by apply list_elem_of_In, in_rev.
  - eapply find_none in E; [by rewrite Hp in E|]. by apply in_rev; rewrite rev_involutive; apply list_elem_of_In.
Qed.

Lemma fieldByID_lookup id f : fieldByID ex id = Some f <-> ex !! Z.to_nat id = Some f /\ 0 <= id.
Proof.
  unfold fieldByID. split.
  - intros [Hin E]%find_some. apply Z.eqb_eq in E. apply in_rev, list_elem_of_In, list_elem_of_lookup in Hin as [i Hi].
    pose proof (fw_ids _ Hwf _ _ Hi) as Hid. rewrite <- E, Hid, Nat2Z.id. split; [done|lia].
  - intros [Hi Hid]. pose proof (fw_ids _ Hwf _ _ Hi) as E. apply find_rev_unique.
    + by eapply list_elem_of_lookup_2.
    + apply Z.eqb_eq. lia.
    + intros g [j Hj]%list_elem_of_lookup Hg%Z.eqb_eq. pose proof (fw_ids _ Hwf _ _ Hj) as Ej.
      replace j with (Z.to_nat id) in Hj by lia. congruence.
Qed.

Lemma fieldIndex_other fs i acc name : name ∉ fd_Name <$> fs -> fieldIndex fs i acc name = acc.
Proof.
  revert i acc. induction fs as [|f fs IH]; intros i acc Hn; [done|]. cbn in Hn |- *.
  apply not_elem_of_cons in Hn as [Hf Hn]. rewrite IH by done. destruct (String.eqb_spec (fd_Name f) name); [congruence|done].
Qed.

Lemma fieldIndex_lookup fs i acc j f :
  NoDup (fd_Name <$> fs) -> fs !! j = Some f -> fieldIndex fs i acc f.(fd_Name) = i + Z.of_nat j.
Proof.
  revert i acc j. induction fs as [|g fs IH]; intros i acc j Hnd Hj; [done|]. cbn in Hnd |- *.
  apply NoDup_cons in Hnd as [Hg Hnd]. destruct j as [|j]; cbn in Hj.
  - injection Hj as ->. rewrite String.eqb_refl, fieldIndex_other by done. lia.
  - rewrite (IH _ _ j) by done. lia.
Qed.

(** One round of the loop: the field is the one at its place, or it is new. *)
Lemma validateField_ok i f st st' :
  validateField ex i f st = Ok st' <->
  (f.(fd_Name) ∉ st.(newFieldNames)) /\ typ_ok f /\
  exists b, (ex !! i = Some f /\ b = false \/ new_field f /\ b = true) /\
    st' = mkUpdate (st.(hasChanged) || b) (f.(fd_Name) :: st.(newFieldNames)) (f.(fd_ID) :: st.(newFieldIds)).
Proof.
  destruct (fw_key _ Hwf) as (k & ks & Hk & Hkn & _).
  assert (ex !! 0%nat = Some k) as H0 by by rewrite Hk.
  pose proof (fw_ids _ Hwf _ _ H0) as Hk0. cbn in Hk0.
  unfold validateField, typ_ok, new_field.
  set (e := if negb (fd_ID f =? 0) || String.eqb (fd_Name f) KeyFieldName then fieldByID ex (fd_ID f) else None).
  assert (forall g, e = Some g -> ex !! Z.to_nat (fd_ID f) = Some g /\ 0 <= fd_ID f) as He.
  { unfold e. intros g. destruct (_ || _); [|done]. apply fieldByID_lookup. }
  assert (ex !! i = Some f -> e = Some f) as Hat.
  { intros Hi. pose proof (fw_ids _ Hwf _ _ Hi) as Hid. unfold e.
    destruct (Z.eqb_spec (fd_ID f) 0) as [E|E]; cbn.
    - assert (i = 0%nat) as -> by lia. assert (f = k) as -> by congruence. rewrite Hkn. cbn.
      apply fieldByID_lookup. rewrite Hk0. cbn. split; [done|lia].
    - apply fieldByID_lookup. rewrite Hid, Nat2Z.id. split; [done|lia]. }
  assert (fd_ID f = 0 -> fd_Name f <> KeyFieldName -> e = None) as Hnew.
  { intros E Hn. unfold e. rewrite E. cbn. by destruct (String.eqb_spec (fd_Name f) KeyFieldName). }
  assert (fd_ID f = 0 -> fd_Name f = KeyFieldName -> e = Some k) as Hkey.
  { intros E Hn. unfold e. rewrite E, Hn. cbn. by apply fieldByID_lookup. }
  clearbody e. split.
  - intros Hv. destruct e as [g|] eqn:Ee.
    + rewrite bool_decide_eq_true_2 in Hv by done. rewrite Bool.andb_false_r in Hv. cbn [negb andb] in Hv.
      case_bool_decide as Hn; [done|]. case_bool_decide as Hg; [|done]. injection Hg as ->. cbn [negb] in Hv.
      destruct (He f eq_refl) as [Hl Hp]. pose proof (fw_ids _ Hwf _ _ Hl) as Hid.
      rewrite (fieldIndex_lookup ex 0 0 _ f (fw_names _ Hwf) Hl) in Hv.
      destruct (Z.eqb_spec (Z.of_nat i) (0 + Z.of_nat (Z.to_nat (fd_ID f)))); [|done]. cbn [negb] in Hv.
      destruct (Z.eqb_spec (fd_Typ f) NONE_CRDT), (Z.eqb_spec (fd_Typ f) LWW_REGISTER); cbn in Hv; try done;
        (injection Hv as <-; split; [done|split; [auto|]]; exists false; split; [|done]; left;
         (split; [|done]); replace i with (Z.to_nat (fd_ID f)) by lia; done).
    + rewrite bool_decide_eq_false_2 in Hv by (by intros []). cbn [negb andb] in Hv. rewrite Bool.andb_true_r in Hv.
      destruct (Z.eqb_spec (fd_ID f) 0) as [E|]; [|done]. cbn [negb] in Hv.
      destruct (IsObject f) eqn:Ho; [done|]. case_bool_decide as Hn; [done|].
      assert (fd_Name f <> KeyFieldName) as Hnk.
      { intros Hnk. by specialize (Hkey E Hnk). }
      destruct (Z.eqb_spec (fd_Typ f) NONE_CRDT), (Z.eqb_spec (fd_Typ f) LWW_REGISTER); cbn in Hv; try done;
        (injection Hv as <-; split; [done|split; [auto|]]; exists true; split; [|done]; right; done).
  - intros (Hn & Ht & b & Hb & ->). rewrite (bool_decide_eq_false_2 (_ ∈ newFieldNames _)) by done.
    assert (negb (fd_Typ f =? NONE_CRDT) && negb (fd_Typ f =? LWW_REGISTER) = false) as ->.
    { destruct Ht as [->| ->]; [done|]. by rewrite Bool.andb_false_r. }
    destruct Hb as [[Hi ->]|[(E & Hnk & Ho) ->]].
    + rewrite (Hat Hi). rewrite bool_decide_eq_true_2 by done. cbn [negb]. rewrite Bool.andb_false_r. cbn [andb].
      rewrite bool_decide_eq_true_2 by done. cbn [negb].
      rewrite (fieldIndex_lookup ex 0 0 i f (fw_names _ Hwf) Hi), Z.add_0_l, Z.eqb_refl. done.
    + rewrite (Hnew E Hnk), bool_decide_eq_false_2 by (by intros []). rewrite E, Ho. done.
Qed.

Lemma validateFields_ok i pr st st' :
  validateFields ex i pr st = Ok st' <->
  NoDup (fd_Name <$> pr) /\ (forall f, f ∈ pr -> f.(fd_Name) ∉ st.(newFieldNames)) /\ Forall typ_ok pr /\
  exists bs, Forall2 (fun '(j, f) b => ex !! (i + j)%nat = Some f /\ b = false \/ new_field f /\ b = true)
      (imap pair pr) bs /\
    st' = mkUpdate (st.(hasChanged) || existsb id bs) (rev (fd_Name <$> pr) ++ st.(newFieldNames))
      (rev (fd_ID <$> pr) ++ st.(newFieldIds)).
Proof.
  revert i st. induction pr as [|f pr IH]; intros i st; cbn [validateFields].
  - split.
    + intros [= <-]. split; [constructor|]. split; [by intros ? ?%elem_of_nil|]. split; [constructor|].
      exists []. split; [constructor|]. destruct st. cbn. by rewrite Bool.orb_false_r.
    + intros (_ & _ & _ & bs & Hb & ->). inversion Hb; subst. destruct st. cbn. by rewrite Bool.orb_false_r.
  - assert (forall bs, Forall2 (fun '(j, f) b => ex !! (i + j)%nat = Some f /\ b = false \/ new_field f /\ b = true)
        (imap (fun j f => (S j, f)) pr) bs <->
      Forall2 (fun '(j, f) b => ex !! (S i + j)%nat = Some f /\ b = false \/ new_field f /\ b = true) (imap pair pr) bs) as Hsh.
    { intros bs. assert (imap (fun j f => (S j, f)) pr = (fun '(j, f) => (S j, f)) <$> imap pair pr) as ->.
      { rewrite fmap_imap. by apply imap_ext. }
      rewrite Forall2_fmap_l. split; intros HF; (eapply Forall2_impl; [exact HF|]);
        intros [j g] b; cbn; by rewrite Nat.add_succ_r. }
    split.
    + destruct (validateField ex i f st) as [st1| |] eqn:E; cbn [rbind]; try done.
      apply validateField_ok in E as (Hn & Ht & b & Hb & ->). rewrite IH. cbn [newFieldNames newFieldIds hasChanged].
      intros (Hnd & Hn' & Ht' & bs & Hbs & ->). split; [|split; [|split]].
      * cbn. constructor; [|done]. intros (g & Eg & Hg)%list_elem_of_fmap.
        apply (Hn' g Hg). rewrite Eg. left.
      * intros g [->|Hg]%elem_of_cons; [done|]. intros Hin. apply (Hn' g Hg). by right.
      * by constructor.
      * exists (b :: bs). split.
        -- rewrite imap_cons. constructor; [by rewrite Nat.add_0_r|]. by apply Hsh.
        -- cbn. by rewrite <- !app_assoc, Bool.orb_assoc.
    + intros (Hnd & Hn & Ht & bs & Hbs & ->). rewrite imap_cons in Hbs. inversion Hbs as [|? b ? bs' Hb Hbs']; subst.
      rewrite Nat.add_0_r in Hb. inversion Ht as [|? ? Ht1 Ht2]; subst. cbn in Hnd. apply NoDup_cons in Hnd as [Hf Hnd].
      assert (validateField ex i f st = Ok (mkUpdate (hasChanged st || b) (fd_Name f :: newFieldNames st)
        (fd_ID f :: newFieldIds st))) as ->.
      { apply validateField_ok. split; [apply Hn; left|]. split; [done|]. by exists b. }
      cbn [rbind]. apply IH. cbn [newFieldNames newFieldIds hasChanged]. split; [done|]. split; [|split; [done|]].
      * intros g Hg [E|Hin]%elem_of_cons; [|by eapply Hn; [right|]]. apply Hf. rewrite <- E. by apply list_elem_of_fmap_2.
      * exists bs'. split; [by apply Hsh|]. cbn. by rewrite <- !app_assoc, Bool.orb_assoc.
Qed.

Lemma existing_not_new i f : ex !! i = Some f -> new_field f -> False.
Proof.
  intros Hi (Hid & Hn & _). destruct (fw_key _ Hwf) as (k & ks & Hk & Hkn & _).
  rewrite (fw_ids _ Hwf _ _ Hi) in Hid. assert (i = 0%nat) as -> by lia. rewrite Hk in Hi. injection Hi as <-. done.
Qed.

(** The fields of an accepted update: the fields there were, after the first, keep their
    places, and the others are new. *)
Definition update_fields (pr : list FieldDescription) (changed : bool) : Prop :=
  exists k ks k' added, ex = k :: ks /\ pr = k' :: ks ++ added /\ (k' = k \/ new_field k') /\
    Forall new_field added /\ changed = negb (bool_decide (k' = k /\ added = [])).

Lemma update_fields_shape pr bs :
  Forall2 (fun '(j, f) b => ex !! (0 + j)%nat = Some f /\ b = false \/ new_field f /\ b = true) (imap pair pr) bs ->
  (forallb (fun f => bool_decide (f.(fd_ID) ∈ rev (fd_ID <$> pr) ++ [])) ex = true ->
    update_fields pr (existsb id bs)) /\
  (forall changed, update_fields pr changed ->
    forallb (fun f => bool_decide (f.(fd_ID) ∈ rev (fd_ID <$> pr) ++ [])) ex = true).
Proof.
  intros Hbs. destruct (fw_key _ Hwf) as (k & ks & Hk & Hkn & _).
  assert (forall j f, pr !! j = Some f ->
    ex !! j = Some f /\ bs !! j = Some false \/ new_field f /\ bs !! j = Some true) as Hpt.
  { intros j f Hj. assert (imap pair pr !! j = Some (j, f)) as Hj' by by rewrite list_lookup_imap, Hj.
    destruct (Forall2_lookup_l _ _ _ _ _ Hbs Hj') as (b & Hb & [[? ->]|[? ->]]); [left|right]; done. }
  assert (length bs = length pr) as Hlen.
  { apply Forall2_length in Hbs. by rewrite length_imap in Hbs. }
  assert (existsb id bs = true <-> exists j f, pr !! j = Some f /\ new_field f) as Hex.
  { rewrite existsb_exists. split.
    - intros (b & [j Hj]%list_elem_of_In%list_elem_of_lookup & Hb). cbn in Hb. subst b.
      destruct (lookup_lt_is_Some_2 pr j) as [f Hf]; [rewrite <- Hlen; by eapply lookup_lt_Some|].
      destruct (Hpt j f Hf) as [[_ ?]|[? _]]; [congruence|by exists j, f].
    - intros (j & f & Hj & Hf). destruct (Hpt j f Hj) as [[? _]|[_ Hb]]; [by destruct (existing_not_new j f)|].
      exists true. split; [|done]. by eapply list_elem_of_In, list_elem_of_lookup_2. }
  split.
  - intros Hids. rewrite forallb_forall in Hids.
    assert (forall j e, ex !! j = Some e -> exists j' f, pr !! j' = Some f /\ fd_ID f = Z.of_nat j) as Hin.
    { intros j e Hj. specialize (Hids e ltac:(by eapply list_elem_of_In, list_elem_of_lookup_2)).
      apply bool_decide_eq_true in Hids. rewrite app_nil_r, list_elem_of_In, <- in_rev, <- list_elem_of_In in Hids.
      apply list_elem_of_fmap in Hids as (f & Ef & [j' Hj']%list_elem_of_lookup). exists j', f.
      split; [done|]. by rewrite <- Ef, (fw_ids _ Hwf _ _ Hj). }
    assert (forall j, (1 <= j < length ex)%nat -> pr !! j = ex !! j) as Hsame.
    { intros j Hj. destruct (lookup_lt_is_Some_2 ex j) as [e He]; [lia|].
      destruct (Hin j e He) as (j' & f & Hf & Ef). destruct (Hpt j' f Hf) as [[He' _]|[(E & _) _]]; [|lia].
      rewrite (fw_ids _ Hwf _ _ He') in Ef. assert (j' = j) as -> by lia. congruence. }
    destruct pr as [|k' pr'].
    { destruct (Hin 0%nat k) as (? & ? & ? & _); [by rewrite Hk|done]. }
    exists k, ks, k', (drop (length ks) pr').
    assert (ks = take (length ks) pr') as Hks.
    { apply list_eq. intros j. destruct (decide (j < length ks)%nat) as [Hlt|Hge].
      - rewrite lookup_take_lt by done. specialize (Hsame (S j)). rewrite Hk in Hsame. symmetry. apply Hsame. cbn. lia.
      - rewrite lookup_take_ge by lia. by apply lookup_ge_None_2; lia. }
    assert (k' = k \/ new_field k') as Hk'.
    { destruct (Hpt 0%nat k' eq_refl) as [[He _]|[? _]]; [left|by right]. rewrite Hk in He. by injection He. }
    assert (Forall new_field (drop (length ks) pr')) as Hadd.
    { apply Forall_lookup. intros j f. rewrite lookup_drop. intros Hj. destruct (Hpt (S (length ks + j)) f Hj) as [[He _]|[? _]]; [|done].
      rewrite Hk in He. apply lookup_lt_Some in He. cbn in He. lia. }
    split; [done|]. split; [f_equal; rewrite Hks at 1; by rewrite take_drop|]. split; [done|]. split; [done|].
    apply Bool.eq_iff_eq_true. rewrite Hex, Bool.negb_true_iff, bool_decide_eq_false. split.
    + intros (j & f & Hj & Hf) [-> Hnil]. apply (existing_not_new j f); [|done].
      assert (length pr' <= length ks)%nat as Hle by (apply (f_equal length) in Hnil; rewrite length_drop in Hnil; cbn in Hnil; lia).
      destruct j as [|j]; [by rewrite Hk|]. rewrite <- Hsame; [done|]. apply lookup_lt_Some in Hj. rewrite Hk. cbn in Hj |- *. lia.
    + intros Hne. destruct Hk' as [->|Hk']; [|by exists 0%nat, k'].
      destruct (drop (length ks) pr') as [|f fs] eqn:Ed; [by destruct Hne|].
      exists (S (length ks)), f. split; [|by inversion Hadd].
      pose proof (lookup_drop pr' (length ks) 0) as L. rewrite Ed, Nat.add_0_r in L. exact (eq_sym L).
  - intros changed (k0 & ks0 & k' & added & E & -> & Hk' & Hadd & _). rewrite Hk in E. injection E as <- <-.
    apply forallb_forall. intros e [j Hj]%list_elem_of_In%list_elem_of_lookup. apply bool_decide_eq_true.
    rewrite app_nil_r, list_elem_of_In, <- in_rev, <- list_elem_of_In. rewrite Hk in Hj. destruct j as [|j]; cbn in Hj.
    + injection Hj as <-. pose proof (fw_ids _ Hwf 0 k ltac:(by rewrite Hk)) as E0. cbn.
      destruct Hk' as [->|(E & _)]; [left|]. replace (fd_ID k) with (fd_ID k') by lia. left.
    + cbn. right. apply list_elem_of_fmap_2, elem_of_app. left. by eapply list_elem_of_lookup_2.
Qed.
End Update.

Lemma update_fields_fun ex pr b b' : update_fields ex pr b -> update_fields ex pr b' -> b = b'.
Proof.
  intros (k & ks & k' & added & -> & -> & _ & _ & ->) (? & ? & ? & ? & [= <- <-] & [= <- E] & _ & _ & ->).
  apply app_inv_head in E as ->. done.
Qed.

Lemma Forall2_choose {A B} (R : A -> B -> Prop) l : Forall (fun x => exists y, R x y) l -> exists k, Forall2 R l k.
Proof.
  induction 1 as [|x l [y Hy] _ [k Hk]]; [by exists []|]. exists (y :: k). by constructor.
Qed.

Lemma update_fields_marks ex pr changed : update_fields ex pr changed ->
  exists bs, Forall2 (fun '(j, f) b => ex !! (0 + j)%nat = Some f /\ b = false \/ new_field f /\ b = true) (imap pair pr) bs.
Proof.
  intros (k & ks & k' & added & -> & -> & Hk & Hadd & _). apply Forall2_choose, Forall_lookup.
  intros i [j f]. rewrite list_lookup_imap_Some. intros (g & Hg & [= -> ->]). cbn [Nat.add].
  destruct i as [|i]; cbn in Hg |- *.
  - injection Hg as ->. destruct Hk as [->|Hk]; [exists false; by left|exists true; by right].
  - apply lookup_app_Some in Hg as [Hg|[_ Hg]]; [exists false; by left|exists true; right].
    split; [|done]. by eapply Forall_lookup_1 in Hadd.
Qed.

Lemma validateFields_spec ex pr changed :
  fields_wf ex ->
  (let! st := validateFields ex 0 pr (mkUpdate false [] []) in
   if forallb (fun f => bool_decide (f.(fd_ID) ∈ st.(newFieldIds))) ex
   then Ok st.(hasChanged) else Err NewErrCannotDeleteField) = Ok changed <->
  NoDup (fd_Name <$> pr) /\ Forall typ_ok pr /\ update_fields ex pr changed.
Proof.
  intros Hwf. split.
  - destruct (validateFields ex 0 pr _) as [st| |] eqn:E; cbn [rbind]; try done.
    apply (validateFields_ok ex Hwf) in E as (Hnd & _ & Ht & bs & Hbs & ->). cbn [newFieldIds hasChanged orb].
    destruct (forallb _ ex) eqn:Ef; [|done]. intros [= <-]. split; [done|]. split; [done|].
    by apply (update_fields_shape ex Hwf pr bs Hbs).
  - intros (Hnd & Ht & Hu). destruct (update_fields_marks _ _ _ Hu) as [bs Hbs].
    assert (validateFields ex 0 pr (mkUpdate false [] []) =
      Ok (mkUpdate (existsb id bs) (rev (fd_Name <$> pr) ++ []) (rev (fd_ID <$> pr) ++ []))) as ->.
    { apply (validateFields_ok ex Hwf). split; [done|]. split; [by intros ? ? ?%elem_of_nil|]. split; [done|]. by exists bs. }
    cbn [rbind newFieldIds hasChanged]. destruct (update_fields_shape ex Hwf pr bs Hbs) as [H1 H2].
    specialize (H2 _ Hu). rewrite H2. f_equal. by apply (update_fields_fun ex pr); [apply H1|].
Qed.

Lemma validateUpdate_iff old new changed :
  fields_wf old.(cd_Schema).(sd_Fields) ->
  validateUpdate old new = Ok changed <->
  new.(cd_ID) = old.(cd_ID) /\ new.(cd_Schema).(sd_SchemaID) = old.(cd_Schema).(sd_SchemaID) /\
  new.(cd_Schema).(sd_Name) = old.(cd_Schema).(sd_Name) /\
  (new.(cd_Schema).(sd_VersionID) = "" \/ new.(cd_Schema).(sd_VersionID) = old.(cd_Schema).(sd_VersionID)) /\
  NoDup (fd_Name <$> new.(cd_Schema).(sd_Fields)) /\ Forall typ_ok new.(cd_Schema).(sd_Fields) /\
  update_fields old.(cd_Schema).(sd_Fields) new.(cd_Schema).(sd_Fields) changed.
Proof.
  intros Hwf. unfold validateUpdate.
  destruct (Z.eqb_spec (cd_ID new) (cd_ID old)) as [E1|E1]; cbn [negb]; [|by split; [|intros (? & _)]].
  destruct (String.eqb_spec (sd_SchemaID (cd_Schema new)) (sd_SchemaID (cd_Schema old))) as [E2|E2]; cbn [negb];
    [|by split; [|intros (_ & ? & _)]].
  destruct (String.eqb_spec (sd_Name (cd_Schema new)) (sd_Name (cd_Schema old))) as [E3|E3]; cbn [negb];
    [|by split; [|intros (_ & _ & ? & _)]].
  destruct (String.eqb_spec (sd_VersionID (cd_Schema new)) "") as [E4|E4],
    (String.eqb_spec (sd_VersionID (cd_Schema new)) (sd_VersionID (cd_Schema old))) as [E5|E5]; cbn [negb andb];
    try (split; [done|intros (_ & _ & _ & [?|?] & _); done]).
  all: trans (NoDup (fd_Name <$> sd_Fields (cd_Schema new)) /\ Forall typ_ok (sd_Fields (cd_Schema new)) /\
    update_fields (sd_Fields (cd_Schema old)) (sd_Fields (cd_Schema new)) changed); [|tauto].
  all: set (ex := sd_Fields (cd_Schema old)) in *; set (pr := sd_Fields (cd_Schema new)) in *; clearbody ex pr.
  all: by apply validateFields_spec.
Qed.

(** an update of a schema is accepted exactly when it keeps the ids and the name of
    the collection and its fields keep their places: behind the first field come the
    fields there were, unchanged, and then new ones, without id, not relations, with
    distinct names and supported CRDT types.  The first field is the one there was or,
    and this is more than the checks mean to allow, a new one.  The result tells whether
    any field is new. *)
Theorem validateUpdate_spec old new changed :
  fields_wf old.(cd_Schema).(sd_Fields) ->
  validateUpdate old new = Ok changed <->
  new.(cd_ID) = old.(cd_ID) /\ new.(cd_Schema).(sd_SchemaID) = old.(cd_Schema).(sd_SchemaID) /\
  new.(cd_Schema).(sd_Name) = old.(cd_Schema).(sd_Name) /\
  (new.(cd_Schema).(sd_VersionID) = "" \/ new.(cd_Schema).(sd_VersionID) = old.(cd_Schema).(sd_VersionID)) /\
  NoDup (fd_Name <$> new.(cd_Schema).(sd_Fields)) /\ Forall typ_ok new.(cd_Schema).(sd_Fields) /\
  update_fields old.(cd_Schema).(sd_Fields) new.(cd_Schema).(sd_Fields) changed.
Proof. apply validateUpdate_iff. Qed.

(** ** The catalog of collections *)

Definition name_key (name : string) : string := path_of ["collection"; "names"; name].
Definition schema_key (id : string) : string := path_of ["collection"; "schema"; id].
Definition version_key (id : string) : string := path_of ["collection"; "version"; id].
Definition seq_path : string := path_of ["seq"; "collection"; "names"].

Section Catalog.
Context {S : Type} `{LawfulMultiStore S} `{DsKey} `{DescCodec}.

#[local] Instance sysStore : Datastore S := store_of NSystem.
#[local] Instance sysLawful : LawfulDatastore S := lawful_of NSystem.

Lemma ToDS_parts {A} `{Key A} (k : A) w ws :
  ToString k = path_of (w :: ws) -> Forall (fun w => elem_ok w = true) (w :: ws) -> ToDS k = path_of (w :: ws).
Proof. intros E Hws. unfold ToDS. rewrite E. by apply NewKey_clean, clean_key_path_of. Qed.

Lemma add_part_elems p a b w : p = path_of [a; b] -> elem_ok w = true -> add_part p w = path_of [a; b; w].
Proof.
  intros -> Hw. unfold add_part. rewrite elem_ok_nonempty by done. by rewrite <- (path_of_snoc [a; b]).
Qed.

Lemma ToDS_name name : elem_ok name = true -> ToDS (NewCollectionKey name) = name_key name.
Proof.
  intros Hn. apply ToDS_parts; [|by repeat constructor]. by apply (add_part_elems COLLECTION).
Qed.

Lemma ToDS_schema id : elem_ok id = true -> ToDS (NewCollectionSchemaKey id) = schema_key id.
Proof.
  intros Hn. apply ToDS_parts; [|by repeat constructor]. by apply (add_part_elems COLLECTION_SCHEMA).
Qed.

Lemma ToDS_version id : elem_ok id = true -> ToDS (NewCollectionSchemaVersionKey id) = version_key id.
Proof.
  intros Hn. apply ToDS_parts; [|by repeat constructor]. by apply (add_part_elems COLLECTION_SCHEMA_VERSION).
Qed.

(** The name of the collection sequence starts with a slash itself, which makes a double
    slash in the key. *)
Lemma ToDS_seq : ToDS (NewSequenceKey COLLECTION) = seq_path.
Proof. unfold ToDS. by apply NewKey_collapse. Qed.

Lemma clean_catalog_key a b c : elem_ok a = true -> elem_ok b = true -> elem_ok c = true ->
  clean_key (path_of [a; b; c]) = true.
Proof. intros. by apply clean_key_path_of; repeat constructor. Qed.

Hint Resolve clean_catalog_key : go.

(** *** Sequences *)

Definition seq_at (m : contents) (n : Z) : Prop :=
  is_u64 n /\ (m !! seq_path = Some (PutUint64 n) \/ m !! seq_path = None /\ n = 0).

Lemma steps_nextID s n :
  seq_at (view s) n ->
  steps (let* colSeq := getSequence COLLECTION in seq_next colSeq) s
    (<[seq_path := PutUint64 (u64 (n + 1))]> (view s))
    (Ok (mkSequence (NewSequenceKey COLLECTION) (u64 (n + 1)), u64 (n + 1))).
Proof.
  intros [Hn Hs].
  assert (forall s0, view s0 !! seq_path = Some (PutUint64 n) ->
    steps (seq_get (mkSequence (NewSequenceKey COLLECTION) 0)) s0 (view s0)
      (Ok (mkSequence (NewSequenceKey COLLECTION) n)) /\
    steps (seq_next (mkSequence (NewSequenceKey COLLECTION) n)) s0 (<[seq_path := PutUint64 (u64 (n + 1))]> (view s0))
      (Ok (mkSequence (NewSequenceKey COLLECTION) (u64 (n + 1)), u64 (n + 1)))) as Hgen.
  { intros s0 E.
    assert (forall seq, seq_key seq = NewSequenceKey COLLECTION ->
      steps (seq_get seq) s0 (view s0) (Ok (mkSequence (NewSequenceKey COLLECTION) n))) as Hget.
    { intros seq Hk. unfold seq_get. rewrite Hk, ToDS_seq.
      eapply steps_bind; [by apply steps_Get_Some|]. intros s1 E1. rewrite Uint64_PutUint64 by done.
      eapply steps_bind; [apply steps_lift|]. intros s2 E2. apply steps_ret_eq; congruence. }
    split; [by apply Hget|]. unfold seq_next. eapply steps_bind; [by apply Hget|]. intros s1 E1.
    unfold seq_update. cbn [seq_key seq_val]. rewrite ToDS_seq.
    eapply steps_bind; [by apply law_Put|]. intros s2 E2. apply steps_ret_eq; [|done]. by rewrite E2, E1. }
  unfold getSequence. change (String.eqb COLLECTION "") with false. cbv iota. destruct Hs as [E|[E ->]].
  - destruct (Hgen s E) as [Hg _]. eapply steps_bind.
    { eapply steps_bind; [by apply steps_try_ok|]. intros s1 E1. by apply steps_ret_eq. }
    intros s2 E2. rewrite <- E2. by apply Hgen; rewrite E2.
  - eapply (steps_bind _ _ s (<[seq_path := PutUint64 0]> (view s)) (mkSequence (NewSequenceKey COLLECTION) 0)).
    { eapply steps_bind.
      { apply steps_try_err. unfold seq_get. cbn [seq_key]. rewrite ToDS_seq. eapply steps_bind_err. by apply steps_Get_None. }
      intros s1 E1. cbn [errors_Is]. rewrite bool_decide_eq_true_2 by done. cbn [orb].
      eapply steps_bind; [unfold seq_update; cbn [seq_key seq_val]; rewrite ToDS_seq; by apply law_Put|].
      intros s2 E2. apply steps_ret_eq; [|done]. by rewrite E2, E1. }
    intros s3 E3. pose proof (Hgen s3) as [_ Hnext]; [by rewrite E3, lookup_insert_eq|].
    by rewrite E3, insert_insert_eq in Hnext.
Qed.

(** *** The store represents a catalog *)

Abbreviation catalog := (gmap string CollectionDescription).

Definition col_of (d : CollectionDescription) : collection := mkCollection d.(cd_ID) d.(cd_Schema).(sd_SchemaID) d.

(** A description as it is stored, when [n] ids have been drawn. *)
Record desc_wf (n : Z) (name : string) (d : CollectionDescription) : Prop := {
  dw_name : d.(cd_Name) = name;
  dw_elem : elem_ok name = true;
  dw_plain : plain_desc d = true;
  dw_fields : fields_wf d.(cd_Schema).(sd_Fields);
  dw_version : elem_ok d.(cd_Schema).(sd_VersionID) = true;
  dw_schema : elem_ok d.(cd_Schema).(sd_SchemaID) = true;
  dw_id : 1 <= d.(cd_ID) <= n;
}.

Record catalog_wf (c : catalog) (n : Z) : Prop := {
  cw_desc : forall name d, c !! name = Some d -> desc_wf n name d;
  cw_ids : forall name name' d d', c !! name = Some d -> c !! name' = Some d' -> d.(cd_ID) = d'.(cd_ID) -> name = name';
  cw_schemas : forall name name' d d', c !! name = Some d -> c !! name' = Some d' ->
    d.(cd_Schema).(sd_SchemaID) = d'.(cd_Schema).(sd_SchemaID) -> name = name';
}.

Record holds (m : contents) (c : catalog) : Prop := {
  h_entry : forall name d, c !! name = Some d ->
    m !! name_key name = Some d.(cd_Schema).(sd_VersionID) /\
    m !! schema_key d.(cd_Schema).(sd_SchemaID) = Some d.(cd_Schema).(sd_VersionID) /\
    exists b, m !! version_key d.(cd_Schema).(sd_VersionID) = Some b /\ json_Unmarshal_desc b = Ok d;
  h_only : forall k v, m !! k = Some v -> below COLLECTION k -> exists name, k = name_key name /\ is_Some (c !! name);
}.

Lemma catalog_key_inj a b x a' b' x' :
  elem_ok a = true -> elem_ok b = true -> elem_ok x = true -> elem_ok a' = true -> elem_ok b' = true -> elem_ok x' = true ->
  path_of [a; b; x] = path_of [a'; b'; x'] -> a = a' /\ b = b' /\ x = x'.
Proof. intros ?????? E. apply path_of_inj in E; [by injection E|path_free..]. Qed.

Lemma name_key_inj x y : elem_ok x = true -> elem_ok y = true -> name_key x = name_key y -> x = y.
Proof. intros Hx Hy E. by apply (catalog_key_inj "collection" "names" x "collection" "names" y) in E as (_ & _ & E). Qed.

Lemma schema_key_inj x y : elem_ok x = true -> elem_ok y = true -> schema_key x = schema_key y -> x = y.
Proof. intros Hx Hy E. by apply (catalog_key_inj "collection" "schema" x "collection" "schema" y) in E as (_ & _ & E). Qed.

Lemma version_key_inj x y : elem_ok x = true -> elem_ok y = true -> version_key x = version_key y -> x = y.
Proof. intros Hx Hy E. by apply (catalog_key_inj "collection" "version" x "collection" "version" y) in E as (_ & _ & E). Qed.

Lemma below_name name : below COLLECTION (name_key name).
Proof. exists name. unfold name_key. cbn. by rewrite str_app_nil_r. Qed.

Lemma holds_lookup m c n name :
  holds m c -> catalog_wf c n -> elem_ok name = true ->
  m !! name_key name = (fun d => d.(cd_Schema).(sd_VersionID)) <$> c !! name.
Proof.
  intros Hm Hc Hn. destruct (c !! name) as [d|] eqn:E; [by destruct (h_entry _ _ Hm _ _ E) as [-> _]|].
  destruct (m !! name_key name) as [v|] eqn:Ev; [|done]. exfalso.
  destruct (h_only _ _ Hm _ _ Ev (below_name name)) as (name' & Ek & [d Hd]).
  apply name_key_inj in Ek as ->; [congruence|done|]. by apply (dw_elem _ _ _ (cw_desc _ _ Hc _ _ Hd)).
Qed.

Lemma steps_getVersion s c n name d :
  holds (view s) c -> catalog_wf c n -> c !! name = Some d ->
  steps (getCollectionByVersionID d.(cd_Schema).(sd_VersionID)) s (view s) (Ok (col_of d)).
Proof.
  intros Hm Hc Hd. destruct (h_entry _ _ Hm _ _ Hd) as (_ & _ & b & Hb & Hj).
  pose proof (dw_version _ _ _ (cw_desc _ _ Hc _ _ Hd)) as Hv.
  unfold getCollectionByVersionID. rewrite elem_ok_nonempty by done. rewrite ToDS_version by done.
  eapply steps_bind; [apply steps_Get_Some; [by apply clean_catalog_key|done]|]. intros s1 E1. rewrite Hj.
  eapply steps_bind; [apply steps_lift|]. intros s2 E2. apply steps_ret_eq; [congruence|done].
Qed.

Lemma steps_getByName s c n name :
  holds (view s) c -> catalog_wf c n -> elem_ok name = true ->
  steps (getCollectionByName name) s (view s)
    (match c !! name with Some d => Ok (col_of d) | None => Err ErrNotFound end).
Proof.
  intros Hm Hc Hn. pose proof (holds_lookup _ _ _ _ Hm Hc Hn) as Hl.
  unfold getCollectionByName. rewrite elem_ok_nonempty, ToDS_name by done.
  destruct (c !! name) as [d|] eqn:E; cbn in Hl.
  - eapply steps_bind; [apply steps_Get_Some; [by apply clean_catalog_key|done]|]. intros s1 E1.
    rewrite <- E1 in Hm |- *. by apply (steps_getVersion _ _ _ _ _ Hm Hc E).
  - eapply steps_bind_err, steps_Get_None; [by apply clean_catalog_key|done].
Qed.

Lemma steps_getBySchemaID s c n name d :
  holds (view s) c -> catalog_wf c n -> c !! name = Some d ->
  steps (getCollectionBySchemaID d.(cd_Schema).(sd_SchemaID)) s (view s) (Ok (col_of d)).
Proof.
  intros Hm Hc Hd. destruct (h_entry _ _ Hm _ _ Hd) as (_ & Hs & _).
  pose proof (dw_schema _ _ _ (cw_desc _ _ Hc _ _ Hd)) as Hv.
  unfold getCollectionBySchemaID. rewrite elem_ok_nonempty, ToDS_schema by done.
  eapply steps_bind; [apply steps_Get_Some; [by apply clean_catalog_key|done]|]. intros s1 E1.
  rewrite <- E1 in Hm |- *. by apply (steps_getVersion _ _ _ _ _ Hm Hc Hd).
Qed.

(** Every collection is found, once. *)
Definition lists_all (c : catalog) (cols : list collection) : Prop :=
  NoDup cols /\ forall col, col ∈ cols <-> exists name d, c !! name = Some d /\ col = col_of d.

Lemma steps_collect s c n l ds acc :
  holds (view s) c -> catalog_wf c n ->
  Forall2 (fun e d => exists name, e.1 = name_key name /\ c !! name = Some d /\ e.2 = d.(cd_Schema).(sd_VersionID)) l ds ->
  steps (collectCollections (Ok <$> l) acc) s (view s) (Ok (acc ++ (col_of <$> ds))).
Proof.
  intros Hm Hc Hl. revert s acc Hm. induction Hl as [|[k v] d l ds (name & Ek & Hd & Ev) _ IH]; intros s acc Hm.
  { cbn. by rewrite app_nil_r. }
  cbn in Ek, Ev. subst k v. cbn [fmap list_fmap collectCollections]. eapply steps_bind.
  { eapply steps_bind; [apply steps_try_ok; by eapply steps_getVersion|]. intros s1 E1. by apply steps_ret_eq. }
  intros s1 E1. cbv beta. rewrite <- E1 in Hm |- *. specialize (IH s1 (acc ++ [col_of d]) Hm).
  by rewrite <- app_assoc in IH.
Qed.

Lemma steps_getAll s c n :
  holds (view s) c -> catalog_wf c n ->
  exists cols, steps getAllCollections s (view s) (Ok cols) /\ lists_all c cols.
Proof.
  intros Hm Hc. destruct (law_Query COLLECTION s ltac:(done)) as (l & Hq & Hnd & Hl).
  assert (Forall (fun e => exists d name, e.1 = name_key name /\ c !! name = Some d /\ e.2 = d.(cd_Schema).(sd_VersionID)) l)
    as [ds Hds]%Forall2_choose.
  { apply Forall_forall. intros [k v] [Hk Hb]%Hl. destruct (h_only _ _ Hm _ _ Hk Hb) as (name & -> & [d Hd]).
    exists d, name. split; [done|]. split; [done|]. destruct (h_entry _ _ Hm _ _ Hd) as [E _]. cbn. congruence. }
  exists (col_of <$> ds). split.
  - unfold getAllCollections. change (CollectionKey_ToString (NewCollectionKey "")) with COLLECTION.
    eapply steps_bind.
    { eapply steps_bind; [by apply steps_try_ok|]. intros s1 E1. by apply steps_ret_eq. }
    intros s1 E1. cbv beta. rewrite <- E1 in Hm |- *. by apply (steps_collect _ _ _ _ _ [] Hm Hc).
  - assert (forall i d, ds !! i = Some d -> exists name v, l !! i = Some (name_key name, v) /\ c !! name = Some d) as Hat.
    { intros i d Hi. destruct (Forall2_lookup_r _ _ _ _ _ Hds Hi) as ([k v] & Hk & name & Ek & Hd & _).
      cbn in Ek. subst k. by exists name, v. }
    split.
    + apply NoDup_fmap_2; [by intros d d' [=]|]. apply NoDup_alt. intros i j d Hi Hj.
      destruct (Hat i d Hi) as (name & v & Hli & Hd), (Hat j d Hj) as (name' & v' & Hlj & Hd').
      assert (name = name') as <-.
      { by rewrite <- (dw_name _ _ _ (cw_desc _ _ Hc _ _ Hd)), <- (dw_name _ _ _ (cw_desc _ _ Hc _ _ Hd')). }
      rewrite NoDup_alt in Hnd. apply (Hnd i j (name_key name)); rewrite list_lookup_fmap; [by rewrite Hli|by rewrite Hlj].
    + intros col. rewrite list_elem_of_fmap. split.
      * intros (d & -> & [i Hi]%list_elem_of_lookup). destruct (Hat i d Hi) as (name & v & _ & Hd). by exists name, d.
      * intros (name & d & Hd & ->). exists d. split; [done|].
        destruct (h_entry _ _ Hm _ _ Hd) as [Hk _].
        assert ((name_key name, sd_VersionID (cd_Schema d)) ∈ l) as [i Hi]%list_elem_of_lookup.
        { apply Hl. split; [done|apply below_name]. }
        destruct (Forall2_lookup_l _ _ _ _ _ Hds Hi) as (d' & Hd' & name' & Ek & Hdd & _). cbn in Ek.
        apply name_key_inj in Ek as ->; [|by eapply dw_elem, cw_desc..].
        assert (d' = d) as -> by congruence. by eapply list_elem_of_lookup_2.
Qed.

(** *** Writing a version *)

Lemma steps_putVersion s d v sid name :
  elem_ok v = true -> elem_ok sid = true -> elem_ok name = true ->
  exists b, json_Marshal_desc d = Ok b /\
    steps (putVersion d v sid name) s
      (<[name_key name := v]> (<[schema_key sid := v]> (<[version_key v := b]> (view s)))) (Ok tt).
Proof.
  intros Hv Hs Hn. destruct (json_desc_total d) as [b Hb]. exists b. split; [done|].
  unfold putVersion. rewrite Hb, ToDS_version, ToDS_schema, ToDS_name by done.
  eapply steps_bind; [apply steps_lift|]. intros s1 E1.
  eapply steps_bind; [by apply law_Put, clean_catalog_key|]. intros s2 E2.
  eapply steps_bind; [by apply law_Put, clean_catalog_key|]. intros s3 E3.
  rewrite <- E1, <- E2, <- E3. by apply law_Put, clean_catalog_key.
Qed.

Lemma name_schema x y : elem_ok x = true -> elem_ok y = true -> name_key x <> schema_key y.
Proof. intros Hx Hy. by apply path_ne; [path_free..|]. Qed.
Lemma name_version x y : elem_ok x = true -> elem_ok y = true -> name_key x <> version_key y.
Proof. intros Hx Hy. by apply path_ne; [path_free..|]. Qed.
Lemma schema_version x y : elem_ok x = true -> elem_ok y = true -> schema_key x <> version_key y.
Proof. intros Hx Hy. by apply path_ne; [path_free..|]. Qed.

Lemma schema_not_below x : ~ below COLLECTION (schema_key x).
Proof. by intros [t E]. Qed.
Lemma version_not_below x : ~ below COLLECTION (version_key x).
Proof. by intros [t E]. Qed.
Lemma seq_not_below : ~ below COLLECTION seq_path.
Proof. by intros [t E]. Qed.

(** A version of the description of [name] is put, under a version id that no other
    collection uses. *)
Lemma holds_put m c n n' name d b :
  holds m c -> catalog_wf c n -> catalog_wf (<[name := d]> c) n' ->
  json_Marshal_desc d = Ok b ->
  (forall name' d', c !! name' = Some d' -> name' <> name ->
    d'.(cd_Schema).(sd_VersionID) <> d.(cd_Schema).(sd_VersionID)) ->
  holds (<[name_key name := d.(cd_Schema).(sd_VersionID)]>
    (<[schema_key d.(cd_Schema).(sd_SchemaID) := d.(cd_Schema).(sd_VersionID)]>
    (<[version_key d.(cd_Schema).(sd_VersionID) := b]> m))) (<[name := d]> c).
Proof.
  intros Hm Hc Hc' Hb Hfresh.
  destruct (cw_desc _ _ Hc' name d ltac:(by rewrite lookup_insert_eq)) as [Hname Hel Hpl Hfs Hv Hsi Hid].
  split.
  - intros name' d' Hl. pose proof (cw_desc _ _ Hc' _ _ Hl) as [_ Hel' _ _ Hv' Hsi' _].
    apply lookup_insert_Some in Hl as [[<- <-]|[Hne Hl]].
    + rewrite lookup_insert_eq. split; [done|]. split.
      * rewrite lookup_insert_ne by (by apply name_schema). by rewrite lookup_insert_eq.
      * exists b. rewrite lookup_insert_ne by (by apply name_version).
        rewrite lookup_insert_ne by (by apply schema_version). rewrite lookup_insert_eq.
        split; [done|]. by apply json_desc_roundtrip.
    + destruct (h_entry _ _ Hm _ _ Hl) as (H1' & H2' & b' & H3' & H4').
      assert (sd_SchemaID (cd_Schema d') <> sd_SchemaID (cd_Schema d)) as Hsne.
      { intros E. apply Hne. symmetry. apply (cw_schemas _ _ Hc' name' name d' d); [by rewrite lookup_insert_ne|by rewrite lookup_insert_eq|done]. }
      pose proof (Hfresh _ _ Hl (not_eq_sym Hne)) as Hvne.
      repeat split.
      * rewrite lookup_insert_ne by (intros ?%name_key_inj; done).
        rewrite lookup_insert_ne by (apply not_eq_sym; by apply name_schema).
        by rewrite lookup_insert_ne by (apply not_eq_sym; by apply name_version).
      * rewrite lookup_insert_ne by (by apply name_schema).
        rewrite lookup_insert_ne by (intros ?%schema_key_inj; done).
        by rewrite lookup_insert_ne by (apply not_eq_sym; by apply schema_version).
      * exists b'. split; [|done]. rewrite lookup_insert_ne by (by apply name_version).
        rewrite lookup_insert_ne by (by apply schema_version).
        by rewrite lookup_insert_ne by (intros ?%version_key_inj; done).
  - intros k v Hk Hb'. apply lookup_insert_Some in Hk as [[<- _]|[_ Hk]].
    { exists name. split; [done|]. by rewrite lookup_insert_eq. }
    apply lookup_insert_Some in Hk as [[<- _]|[_ Hk]]; [by destruct (schema_not_below _ Hb')|].
    apply lookup_insert_Some in Hk as [[<- _]|[_ Hk]]; [by destruct (version_not_below _ Hb')|].
    destruct (h_only _ _ Hm _ _ Hk Hb') as (name' & -> & Hn). exists name'. split; [done|].
    destruct (decide (name = name')) as [->|Hne]; [by rewrite lookup_insert_eq|by rewrite lookup_insert_ne].
Qed.

Lemma holds_seq m c n v : holds m c -> catalog_wf c n -> holds (<[seq_path := v]> m) c.
Proof.
  intros Hm Hc.
  assert (forall a x, seq_path <> path_of ["collection"; a; x]) as Hne by done.
  split.
  - intros name d Hd. unfold name_key, schema_key, version_key. rewrite !lookup_insert_ne by apply Hne.
    by apply (h_entry _ _ Hm).
  - intros k w Hk Hb. apply lookup_insert_Some in Hk as [[<- _]|[_ Hk]]; [by destruct (seq_not_below Hb)|].
    by apply (h_only _ _ Hm _ _ Hk).
Qed.

(** *** Creating a collection *)

Lemma newFields_ok i fs fs' :
  newFields i fs = Ok fs' -> fs' = imap (fun j f => set_ID f (u32 (Z.of_nat (i + j)))) fs.
Proof.
  revert i fs'. induction fs as [|f fs IH]; intros i fs'; cbn [newFields]; [by intros [= <-]|].
  unfold newField. destruct (String.eqb _ _); [done|]. destruct (_ =? FieldKind_None); [done|].
  destruct (_ && _); [done|]. cbn [rbind]. destruct (newFields (Datatypes.S i) fs) as [gs| |] eqn:E; [|done..]. cbn [rbind].
  intros [= <-]. rewrite (IH _ _ E), imap_cons, Nat.add_0_r. f_equal. apply imap_ext. intros j g _. unfold compose.
  by rewrite Nat.add_succ_r.
Qed.

Lemma imap_set_ID_names (g : nat -> Z) fs : fd_Name <$> imap (fun j f => set_ID f (g j)) fs = fd_Name <$> fs.
Proof. rewrite fmap_imap. revert g. induction fs as [|f fs IH]; intros g; [done|]. rewrite imap_cons. cbn. f_equal. apply IH. Qed.

Lemma newCollection_ok desc col :
  newCollection desc = Ok col -> NoDup (fd_Name <$> desc.(cd_Schema).(sd_Fields)) ->
  Z.of_nat (length desc.(cd_Schema).(sd_Fields)) < 2 ^ 32 ->
  exists fs, col = mkCollection desc.(cd_ID) "" (with_Schema desc (with_Fields desc.(cd_Schema) fs)) /\ fields_wf fs.
Proof.
  unfold newCollection. destruct (String.eqb _ _); [done|]. intros Hn Hnd Hlen.
  destruct (sd_Fields (cd_Schema desc)) as [|k ks] eqn:Ef; [done|].
  destruct (Z.eqb_spec (fd_Kind k) FieldKind_DocKey) as [Hk|]; [|done].
  destruct (String.eqb_spec (fd_Name k) KeyFieldName) as [Hkn|]; [|done]. cbn [negb orb] in Hn.
  destruct (newFields 0 (k :: ks)) as [fs| |] eqn:E; [|done..]. cbn [rbind] in Hn. injection Hn as <-.
  exists fs. split; [done|]. apply newFields_ok in E as ->. split.
  - rewrite imap_cons. by eexists _, _.
  - intros j f. rewrite list_lookup_imap_Some. intros (g & Hg & ->). cbn [Nat.add set_ID fd_ID].
    apply u32_small. apply lookup_lt_Some in Hg. unfold is_u32. lia.
  - by rewrite (imap_set_ID_names (fun j => u32 (Z.of_nat (0 + j)))).
Qed.

(** The collection that [createCollection] makes of a description and a new id. *)
Definition created (desc : CollectionDescription) (id : Z) : result collection :=
  let! col := newCollection (mkCollectionDescription desc.(cd_Name) id desc.(cd_Schema)) in
  let! buf := json_Marshal_global col.(col_desc).(cd_Name) col.(col_desc).(cd_Schema) in
  let! cid := NewSHA256CidV1 buf in
  Ok (col_of (with_Schema col.(col_desc)
    (with_SchemaID (with_VersionID col.(col_desc).(cd_Schema) (Cid_String cid)) (Cid_String cid)))).

Lemma created_ok desc id col :
  created desc id = Ok col -> elem_ok desc.(cd_Name) = true -> NoDup (fd_Name <$> desc.(cd_Schema).(sd_Fields)) ->
  Z.of_nat (length desc.(cd_Schema).(sd_Fields)) < 2 ^ 32 -> 1 <= id -> plain_desc col.(col_desc) = true ->
  desc_wf id desc.(cd_Name) col.(col_desc) /\ col = col_of col.(col_desc) /\ cd_ID col.(col_desc) = id /\
  col.(col_desc).(cd_Schema).(sd_VersionID) = col.(col_desc).(cd_Schema).(sd_SchemaID).
Proof.
  unfold created. intros Hc Hel Hnd Hlen Hid.
  destruct (newCollection _) as [col0| |] eqn:E; [|done..]. cbn [rbind] in Hc.
  apply newCollection_ok in E as (fs & -> & Hwf); [|done..]. cbn [col_desc] in Hc.
  destruct (json_Marshal_global _ _) as [buf| |]; [|done..]. cbn [rbind] in Hc.
  destruct (pref_Sum_total buf) as (cid & Hcid & Hdef). unfold NewSHA256CidV1 in Hc. rewrite Hcid in Hc. cbn [rbind] in Hc.
  injection Hc as <-. cbn [col_of col_desc]. intros Hpl.
  assert (elem_ok (Cid_String cid) = true) as Hce.
  { unfold elem_ok. by rewrite Cid_String_elem, Cid_String_free. }
  split; [|done]. by split; cbn.
Qed.

Lemma mbind_assoc {A B C} (m : M S A) (k : A -> M S B) (k2 : B -> M S C) s :
  mbind m (fun x => mbind (k x) k2) s = mbind (mbind m k) k2 s.
Proof. unfold mbind. destruct (m s) as [s1 [x|e|]]; done. Qed.

Lemma steps_fun {A} (m m' : M S A) s v r : m s = m' s -> steps m' s v r -> steps m s v r.
Proof. unfold steps. by intros ->. Qed.

Lemma catalog_wf_insert c n n' name d :
  catalog_wf c n -> n <= n' -> desc_wf n' name d ->
  (forall name' d', c !! name' = Some d' -> name' <> name ->
    d'.(cd_ID) <> d.(cd_ID) /\ d'.(cd_Schema).(sd_SchemaID) <> d.(cd_Schema).(sd_SchemaID)) ->
  catalog_wf (<[name := d]> c) n'.
Proof.
  intros Hc Hn Hd Hf. split.
  - intros name' d' [[<- <-]|[_ Hl]]%lookup_insert_Some; [done|].
    destruct (cw_desc _ _ Hc _ _ Hl) as []. split; try done. lia.
  - intros x y d1 d2 [[<- <-]|[Hx H1']]%lookup_insert_Some [[<- <-]|[Hy H2']]%lookup_insert_Some E; [done|..].
    + destruct (Hf _ _ H2' (not_eq_sym Hy)) as [? _]. congruence.
    + destruct (Hf _ _ H1' (not_eq_sym Hx)) as [? _]. congruence.
    + by eapply (cw_ids _ _ Hc).
  - intros x y d1 d2 [[<- <-]|[Hx H1']]%lookup_insert_Some [[<- <-]|[Hy H2']]%lookup_insert_Some E; [done|..].
    + destruct (Hf _ _ H2' (not_eq_sym Hy)) as [_ ?]. congruence.
    + destruct (Hf _ _ H1' (not_eq_sym Hx)) as [_ ?]. congruence.
    + by eapply (cw_schemas _ _ Hc).
Qed.

Lemma seq_at_put m n v sid name (b : bytes) :
  seq_at m n -> seq_at (<[name_key name := v]> (<[schema_key sid := v]> (<[version_key v := b]> m))) n.
Proof. unfold seq_at. by rewrite !lookup_insert_ne by done. Qed.

(** The hash of a new collection is not the id or the version of another. *)
Definition fresh_id (c : catalog) (id : string) : Prop :=
  forall name d, c !! name = Some d ->
    d.(cd_Schema).(sd_SchemaID) <> id /\ d.(cd_Schema).(sd_VersionID) <> id.

Lemma steps_create s c n desc col :
  holds (view s) c -> catalog_wf c n -> seq_at (view s) n -> n + 1 < 2 ^ 32 ->
  elem_ok desc.(cd_Name) = true -> c !! desc.(cd_Name) = None ->
  NoDup (fd_Name <$> desc.(cd_Schema).(sd_Fields)) -> Z.of_nat (length desc.(cd_Schema).(sd_Fields)) < 2 ^ 32 ->
  created desc (n + 1) = Ok col -> plain_desc col.(col_desc) = true -> fresh_id c col.(col_schemaID) ->
  exists v, steps (createCollection desc) s v (Ok col) /\
    holds v (<[desc.(cd_Name) := col.(col_desc)]> c) /\ catalog_wf (<[desc.(cd_Name) := col.(col_desc)]> c) (n + 1) /\
    seq_at v (n + 1).
Proof.
  intros Hm Hc Hs Hn Hel Hnone Hnd Hlen Hcr Hpl Hfr.
  assert (0 <= n) as Hn0 by (destruct Hs as [[? _] _]; done).
  destruct (created_ok _ _ _ Hcr Hel Hnd Hlen ltac:(lia) Hpl) as (Hdw & Hcol & Hid & Hver).
  assert (catalog_wf (<[cd_Name desc := col_desc col]> c) (n + 1)) as Hc'.
  { apply (catalog_wf_insert c n); [done|lia|done|]. intros name' d' Hl _. split.
    - pose proof (dw_id _ _ _ (cw_desc _ _ Hc _ _ Hl)). lia.
    - rewrite Hcol in Hfr. by apply (Hfr _ _ Hl). }
  unfold created in Hcr.
  destruct (newCollection _) as [col0| |] eqn:Ecol; [|done..]. cbn [rbind] in Hcr.
  assert (col_colID col0 = cd_ID (col_desc col0)) as Eid by by destruct (newCollection_ok _ _ Ecol Hnd Hlen) as (fs & -> & _).
  destruct (json_Marshal_global _ _) as [buf| |] eqn:Ebuf; [|done..]. cbn [rbind] in Hcr.
  destruct (NewSHA256CidV1 buf) as [cid| |] eqn:Ecid; [|done..]. cbn [rbind] in Hcr. injection Hcr as Ecr.
  set (d := with_Schema (col_desc col0) (with_SchemaID (with_VersionID (cd_Schema (col_desc col0)) (Cid_String cid)) (Cid_String cid))) in *.
  assert (col_desc col = d) as Ed by by rewrite <- Ecr.
  assert (elem_ok (Cid_String cid) = true) as Hce.
  { pose proof (dw_schema _ _ _ Hdw) as Hx. by rewrite Ed in Hx. }
  destruct (steps_putVersion s d (Cid_String cid) (Cid_String cid) (cd_Name desc) Hce Hce Hel) as (b & Hb & _).
  exists (<[name_key (cd_Name desc) := Cid_String cid]> (<[schema_key (Cid_String cid) := Cid_String cid]>
    (<[version_key (Cid_String cid) := b]> (<[seq_path := PutUint64 (u64 (n + 1))]> (view s))))).
  assert (is_u64 (n + 1)) as Hu by (unfold is_u64; lia). rewrite (u64_small _ Hu).
  split; [|split; [|split; [done|]]].
  - unfold createCollection. rewrite ToDS_name by done.
    eapply steps_bind; [apply law_Has, clean_catalog_key; done|]. intros s1 E1. cbv beta.
    rewrite (holds_lookup _ _ _ _ Hm Hc Hel), Hnone. rewrite bool_decide_eq_false_2 by (by intros []).
    eapply steps_fun; [apply mbind_assoc|].
    eapply steps_bind; [apply (steps_nextID s1 n); by rewrite E1|]. intros s2 E2. cbv beta iota.
    rewrite (u64_small _ Hu), u32_small in * by (unfold is_u32; lia).
    rewrite Ecol. eapply steps_bind; [apply steps_lift|]. intros s3 E3. cbv beta.
    rewrite Ebuf. eapply steps_bind; [apply steps_lift|]. intros s4 E4. cbv beta.
    rewrite Ecid. eapply steps_bind; [apply steps_lift|]. intros s5 E5. cbv beta zeta. fold d.
    destruct (steps_putVersion s5 d (Cid_String cid) (Cid_String cid) (cd_Name desc) Hce Hce Hel) as (b' & Hb' & Hput).
    rewrite Hb in Hb'. injection Hb' as <-.
    rewrite E5, E4, E3, E2, E1 in Hput. eapply steps_bind; [exact Hput|]. intros s6 E6. apply steps_ret_eq; [done|].
    rewrite Hcol, Ed. unfold col_of. f_equal. exact Eid.
  - assert (Cid_String cid = sd_VersionID (cd_Schema d)) as Ev by done.
    assert (Cid_String cid = sd_SchemaID (cd_Schema d)) as Es by done.
    rewrite Ed. rewrite Ed in Hc'. apply (holds_put _ c n (n + 1) (cd_Name desc) d b).
    + by apply (holds_seq _ _ n).
    + exact Hc.
    + exact Hc'.
    + exact Hb.
    + intros name' d' Hl _. rewrite Hcol in Hfr. destruct (Hfr _ _ Hl) as [_ Hv]. by rewrite Ed in Hv.
  - apply seq_at_put. split; [done|]. left. by rewrite lookup_insert_eq.
Qed.

(** *** Updating a collection *)

Lemma steps_validate s c n desc :
  holds (view s) c -> catalog_wf c n -> elem_ok desc.(cd_Name) = true ->
  steps (validateUpdateCollection desc) s (view s)
    (match c !! desc.(cd_Name) with
     | Some old => validateUpdate old desc
     | None => Err NewErrAddCollectionWithPatch
     end).
Proof.
  intros Hm Hc Hel. pose proof (steps_getByName _ _ _ _ Hm Hc Hel) as Hg. unfold validateUpdateCollection.
  destruct (c !! cd_Name desc) as [old|].
  - eapply steps_bind; [by apply steps_try_ok|]. intros s1 E1. rewrite <- E1. apply steps_lift.
  - eapply steps_bind; [by apply steps_try_err|]. intros s1 E1. cbn [errors_Is].
    rewrite bool_decide_eq_true_2 by done. cbn [orb]. rewrite <- E1. done.
Qed.

(** The description that [updateCollection] makes of an accepted proposal. *)
Definition updated (desc : CollectionDescription) : result CollectionDescription :=
  let schema := with_Fields desc.(cd_Schema) (imap updateField desc.(cd_Schema).(sd_Fields)) in
  let! buf := json_Marshal_schema schema in
  let! cid := NewSHA256CidV1 buf in
  Ok (with_Schema desc (with_VersionID schema (Cid_String cid))).

Lemma updated_ID desc d : updated desc = Ok d -> d.(cd_ID) = desc.(cd_ID).
Proof.
  unfold updated. destruct (json_Marshal_schema _) as [b| |]; cbn [rbind]; try done.
  destruct (NewSHA256CidV1 b) as [cid| |]; cbn [rbind]; try done. by intros [= <-].
Qed.

Lemma validateUpdate_no_panic old desc : validateUpdate old desc <> Panic.
Proof.
  assert (forall pr i st, validateFields (sd_Fields (cd_Schema old)) i pr st <> Panic) as Hp.
  { induction pr as [|f pr IH]; intros i st; cbn [validateFields]; [done|]. unfold validateField.
    repeat (case_match; cbn [rbind]; try done). }
  unfold validateUpdate. repeat (case_match; try done). destruct (validateFields _ _ _ _) eqn:E; cbn [rbind]; [by case_match|done|].
  by apply Hp in E.
Qed.

Lemma updateField_name i f : fd_Name (updateField i f) = fd_Name f.
Proof. unfold updateField. by repeat case_match. Qed.

Lemma updateField_ID i f :
  fd_ID (updateField i f) = if fd_ID f =? 0 then u32 (Z.of_nat i) else fd_ID f.
Proof. unfold updateField. by repeat case_match. Qed.

Lemma updateField_Kind i f : fd_Kind (updateField i f) = fd_Kind f.
Proof. unfold updateField. by repeat case_match. Qed.

Lemma fields_wf_update ex pr changed k ks :
  fields_wf ex -> update_fields ex pr changed -> pr = k :: ks -> fd_Name k = KeyFieldName ->
  NoDup (fd_Name <$> pr) -> Z.of_nat (length pr) < 2 ^ 32 -> fields_wf (imap updateField pr).
Proof.
  intros Hwf (k0 & ks0 & k' & added & Hex & Hpr & Hk & Hadd & _) Ek Hkn Hnd Hlen.
  assert (k' = k0) as ->.
  { rewrite Ek in Hpr. injection Hpr as <- _. by destruct Hk as [->|(_ & Hn & _)]. }
  destruct (fw_key _ Hwf) as (k1 & ks1 & E1 & Hk1 & Hkk). rewrite Hex in E1. injection E1 as <- <-.
  split.
  - rewrite Hpr, imap_cons. eexists _, _. split; [done|]. by rewrite updateField_name, updateField_Kind.
  - intros i f. rewrite list_lookup_imap_Some. intros (g & Hg & ->). rewrite updateField_ID.
    pose proof (lookup_lt_Some _ _ _ Hg) as Hi. destruct (Z.eqb_spec (fd_ID g) 0) as [E|E].
    + apply u32_small. unfold is_u32. lia.
    + assert (ex !! i = Some g) as Hgi.
      { rewrite Hex. rewrite Hpr in Hg. destruct i as [|i]; [done|]. cbn in Hg |- *.
        apply lookup_app_Some in Hg as [Hg|[_ Hg]]; [done|]. eapply Forall_lookup_1 in Hadd; [|done]. by destruct Hadd. }
      by apply (fw_ids _ Hwf).
  - rewrite fmap_imap. rewrite (imap_ext _ (fun _ => fd_Name)) by (intros; apply updateField_name).
    change (imap (fun _ => fd_Name) pr) with (imap (const fd_Name) pr). by rewrite imap_const.
Qed.

Lemma steps_update s c n desc old d :
  holds (view s) c -> catalog_wf c n -> seq_at (view s) n ->
  c !! desc.(cd_Name) = Some old -> validateUpdate old desc = Ok true ->
  (fd_Name <$> head desc.(cd_Schema).(sd_Fields)) = Some KeyFieldName ->
  Z.of_nat (length desc.(cd_Schema).(sd_Fields)) < 2 ^ 32 ->
  updated desc = Ok d -> plain_desc d = true ->
  (forall name d', c !! name = Some d' -> name <> desc.(cd_Name) ->
    d'.(cd_Schema).(sd_VersionID) <> d.(cd_Schema).(sd_VersionID)) ->
  exists v, steps (updateCollection desc) s v (Ok (col_of d)) /\
    holds v (<[desc.(cd_Name) := d]> c) /\ catalog_wf (<[desc.(cd_Name) := d]> c) n /\ seq_at v n.
Proof.
  intros Hm Hc Hs Hold Hval Hhd Hlen Hup Hpl Hfr.
  pose proof (cw_desc _ _ Hc _ _ Hold) as [_ Hel _ Hwf _ Hsch Hid].
  destruct (proj1 (validateUpdate_iff old desc true Hwf) Hval) as (E1 & E2 & _ & _ & Hnd & _ & Hu).
  unfold updated in Hup. destruct (json_Marshal_schema _) as [buf| |] eqn:Ebuf; [|done..]. cbn [rbind] in Hup.
  destruct (pref_Sum_total buf) as (cid & Hcid & Hdef). unfold NewSHA256CidV1 in Hup. rewrite Hcid in Hup.
  cbn [rbind] in Hup. injection Hup as Ed.
  assert (elem_ok (Cid_String cid) = true) as Hce.
  { unfold elem_ok. by rewrite Cid_String_elem, Cid_String_free. }
  assert (fields_wf (sd_Fields (cd_Schema d))) as Hwf'.
  { rewrite <- Ed. cbn. destruct (sd_Fields (cd_Schema desc)) as [|k ks] eqn:Ef; [done|]. cbn in Hhd. injection Hhd as Hk.
    by eapply fields_wf_update. }
  assert (catalog_wf (<[cd_Name desc := d]> c) n) as Hc'.
  { apply (catalog_wf_insert c n); [done|lia| |].
    - split; [by rewrite <- Ed|exact Hel|exact Hpl|exact Hwf'|by rewrite <- Ed|rewrite <- Ed; cbn; by rewrite E2|].
      rewrite <- Ed. cbn. by rewrite E1.
    - intros name' d' Hl Hne. rewrite <- Ed. cbn. rewrite E1, E2. split; intros E; apply Hne.
      + by apply (cw_ids _ _ Hc _ _ _ _ Hl Hold).
      + by apply (cw_schemas _ _ Hc _ _ _ _ Hl Hold). }
  assert (elem_ok (sd_SchemaID (cd_Schema desc)) = true) as Hsd by by rewrite E2.
  destruct (steps_putVersion s d (Cid_String cid) (sd_SchemaID (cd_Schema desc)) (cd_Name desc) Hce Hsd Hel) as (b & Hb & _).
  set (v := <[name_key (cd_Name desc) := Cid_String cid]> (<[schema_key (sd_SchemaID (cd_Schema desc)) := Cid_String cid]>
    (<[version_key (Cid_String cid) := b]> (view s)))).
  assert (holds v (<[cd_Name desc := d]> c)) as Hv.
  { assert (Cid_String cid = sd_VersionID (cd_Schema d)) as Ev by by rewrite <- Ed.
    assert (sd_SchemaID (cd_Schema desc) = sd_SchemaID (cd_Schema d)) as Es by by rewrite <- Ed.
    unfold v. rewrite Ev, Es. by apply (holds_put _ c n n (cd_Name desc) d b). }
  exists v. split; [|split; [exact Hv|split; [exact Hc'|by apply seq_at_put]]].
  unfold updateCollection. pose proof (steps_validate _ _ _ desc Hm Hc Hel) as Hva. rewrite Hold, Hval in Hva.
  eapply steps_bind; [exact Hva|]. intros s1 Es1. cbv beta. cbn [negb].
  rewrite Ebuf. eapply steps_bind; [apply steps_lift|]. intros s2 Es2. cbv beta.
  unfold NewSHA256CidV1. rewrite Hcid. eapply steps_bind; [apply steps_lift|]. intros s3 Es3. cbv beta zeta. rewrite Ed.
  replace (sd_SchemaID (cd_Schema d)) with (sd_SchemaID (cd_Schema desc)) by (by rewrite <- Ed).
  replace (cd_Name d) with (cd_Name desc) by (by rewrite <- Ed).
  destruct (steps_putVersion s3 d (Cid_String cid) (sd_SchemaID (cd_Schema desc)) (cd_Name desc) Hce Hsd Hel) as (b' & Hb' & Hput).
  rewrite Hb in Hb'. injection Hb' as <-. rewrite Es3, Es2, Es1 in Hput. fold v in Hput.
  eapply steps_bind; [exact Hput|]. intros s4 Es4. rewrite <- Es4 in Hv |- *.
  pose proof (steps_getByName _ _ _ (cd_Name desc) Hv Hc' Hel) as Hget. by rewrite lookup_insert_eq in Hget.
Qed.

(** *** The database *)

Record db_at (V : namespace -> contents) (c : catalog) (n : Z) : Prop := {
  da_holds : holds (V NSystem) c;
  da_wf : catalog_wf c n;
  da_seq : seq_at (V NSystem) n;
}.

Lemma msteps_read {A} (m : M S A) s r : steps m s (view s) r -> msteps m s (views s) r.
Proof. intros Hm. eapply msteps_ext; [apply (msteps_in NSystem), Hm|]. intros n. apply upd_same. Qed.

(** What [createCollection] relies on: a name that can be part of a key, distinct names
    of fields, ids and counts within 32 bits, and a hash without collision. *)
Record create_ok (c : catalog) (n : Z) (desc : CollectionDescription) (col : collection) : Prop := {
  ck_ids : n + 1 < 2 ^ 32;
  ck_name : elem_ok desc.(cd_Name) = true;
  ck_fields : NoDup (fd_Name <$> desc.(cd_Schema).(sd_Fields));
  ck_length : Z.of_nat (length desc.(cd_Schema).(sd_Fields)) < 2 ^ 32;
  ck_created : created desc (n + 1) = Ok col;
  ck_plain : plain_desc col.(col_desc) = true;
  ck_fresh : fresh_id c col.(col_schemaID);
}.

(** C9: the system store is a catalog of collections.  A collection is found by name
    and by schema id, and all collections are listed once; a name that is taken is
    refused; and a new collection is stored under the next id, its fields numbered by
    their place, next to the others, which stay as they were. *)
Theorem catalog_refines s c n :
  db_at (views s) c n ->
  (forall name, elem_ok name = true ->
    msteps (getCollectionByName name) s (views s)
      (match c !! name with Some d => Ok (col_of d) | None => Err ErrNotFound end)) /\
  (forall name d, c !! name = Some d ->
    msteps (getCollectionBySchemaID d.(cd_Schema).(sd_SchemaID)) s (views s) (Ok (col_of d))) /\
  (exists cols, msteps getAllCollections s (views s) (Ok cols) /\ lists_all c cols) /\
  (forall desc, elem_ok desc.(cd_Name) = true -> is_Some (c !! desc.(cd_Name)) ->
    msteps (createCollection desc) s (views s) (Err ErrCollectionAlreadyExists)) /\
  (forall desc col, create_ok c n desc col -> c !! desc.(cd_Name) = None ->
    fields_wf col.(col_desc).(cd_Schema).(sd_Fields) /\ col.(col_desc).(cd_ID) = n + 1 /\
    exists v, msteps (createCollection desc) s (upd (views s) NSystem v) (Ok col) /\
      db_at (upd (views s) NSystem v) (<[desc.(cd_Name) := col.(col_desc)]> c) (n + 1)).
Proof.
  intros [Hm Hc Hs]. split; [|split; [|split; [|split]]].
  - intros name Hn. by apply msteps_read, (steps_getByName s c n).
  - intros name d Hd. by apply msteps_read, (steps_getBySchemaID s c n name).
  - destruct (steps_getAll s c n Hm Hc) as (cols & Hg & Hl). exists cols. split; [by apply msteps_read|done].
  - intros desc Hn [d Hd]. apply msteps_read. unfold createCollection. rewrite ToDS_name by done.
    eapply steps_bind; [by apply law_Has, clean_catalog_key|]. intros s1 E1. cbv beta.
    rewrite (holds_lookup (view s) c n) by done. rewrite Hd. cbn. rewrite <- E1. done.
  - intros desc col [H1' H2' H3' H4' H5' H6' H7'] Hnone.
    assert (1 <= n + 1) as Hn0 by (destruct Hs as [[? _] _]; lia).
    destruct (created_ok _ _ _ H5' H2' H3' H4' Hn0 H6') as (Hdw & _ & Hid & _).
    split; [by apply (dw_fields _ _ _ Hdw)|]. split; [done|].
    destruct (steps_create s c n desc col) as (v & Hst & Hh & Hw & Hq); try done.
    exists v. split; [by apply msteps_in|]. split; [by rewrite upd_eq|done|by rewrite upd_eq].
Qed.

(** What [updateCollection] relies on: the key field stays first, and the hash of the
    new version is not the version of another collection. *)
Record update_ok (c : catalog) (desc d : CollectionDescription) : Prop := {
  uk_key : fd_Name <$> head desc.(cd_Schema).(sd_Fields) = Some KeyFieldName;
  uk_length : Z.of_nat (length desc.(cd_Schema).(sd_Fields)) < 2 ^ 32;
  uk_updated : updated desc = Ok d;
  uk_plain : plain_desc d = true;
  uk_fresh : forall name d', c !! name = Some d' -> name <> desc.(cd_Name) ->
    d'.(cd_Schema).(sd_VersionID) <> d.(cd_Schema).(sd_VersionID);
}.

(** C10: updating a collection.  An unknown name and a proposal that is not accepted are
    refused and leave the store as it was; a proposal without new fields changes nothing
    and returns the collection there is; an accepted one replaces the description of its
    collection by one whose fields are again numbered by their place, and keeps the
    others. *)
Theorem updateCollection_refines s c n desc :
  db_at (views s) c n -> elem_ok desc.(cd_Name) = true ->
  match c !! desc.(cd_Name) with
  | None => msteps (updateCollection desc) s (views s) (Err NewErrAddCollectionWithPatch)
  | Some old =>
      match validateUpdate old desc with
      | Err e => msteps (updateCollection desc) s (views s) (Err e)
      | Panic => False
      | Ok false => msteps (updateCollection desc) s (views s) (Ok (col_of old))
      | Ok true => forall d, update_ok c desc d ->
          fields_wf d.(cd_Schema).(sd_Fields) /\ d.(cd_ID) = old.(cd_ID) /\
          exists v, msteps (updateCollection desc) s (upd (views s) NSystem v) (Ok (col_of d)) /\
            db_at (upd (views s) NSystem v) (<[desc.(cd_Name) := d]> c) n
      end
  end.
Proof.
  intros [Hm Hc Hs] Hel. change (holds (view s) c) in Hm. pose proof (steps_validate s c n desc Hm Hc Hel) as Hv.
  destruct (c !! cd_Name desc) as [old|] eqn:Hold.
  2: { apply msteps_read. by eapply steps_bind_err. }
  destruct (validateUpdate old desc) as [[]|e|] eqn:Hval.
  - intros d [H1' H2' H3' H4' H5'].
    destruct (steps_update s c n desc old d) as (v & Hst & Hh & Hw & Hq); try done.
    assert ((<[cd_Name desc := d]> c : catalog) !! cd_Name desc = Some d) as Hl by by rewrite lookup_insert_eq.
    split; [by apply (dw_fields _ _ _ (cw_desc _ _ Hw _ _ Hl))|]. split.
    { apply validateUpdate_iff in Hval as [E _]; [|by apply (dw_fields _ _ _ (cw_desc _ _ Hc _ _ Hold))].
      rewrite <- E. by apply updated_ID. }
    exists v. split; [by apply msteps_in|]. split; [by rewrite upd_eq|done|by rewrite upd_eq].
  - apply msteps_read. eapply steps_bind; [exact Hv|]. intros s1 E1. cbn [negb].
    rewrite <- E1 in Hm |- *. pose proof (steps_getByName s1 c n _ Hm Hc Hel) as Hg. by rewrite Hold in Hg.
  - apply msteps_read. by eapply steps_bind_err.
  - by apply validateUpdate_no_panic in Hval.
Qed.

(** *** Ids *)

(** The ids of [k] collections, as [createCollection] draws them. *)
Fixpoint drawIDs (k : nat) : M S (list Z) :=
  match k with
  | O => mret []
  | Datatypes.S k =>
      let* (_, colID) := (let* colSeq := getSequence COLLECTION in seq_next colSeq) in
      let* ids := drawIDs k in
      mret (u32 colID :: ids)
  end.

Definition seq_after (m : contents) (n : Z) (k : nat) : contents :=
  match k with O => m | _ => <[seq_path := PutUint64 (n + Z.of_nat k)]> m end.

Lemma seq_after_succ m n k :
  seq_after (<[seq_path := PutUint64 (n + 1)]> m) (n + 1) k = seq_after m n (Datatypes.S k).
Proof.
  destruct k as [|k]; cbn [seq_after]; [done|]. rewrite insert_insert_eq. do 2 f_equal. lia.
Qed.

Lemma steps_drawIDs k s n :
  seq_at (view s) n -> n + Z.of_nat k < 2 ^ 64 ->
  steps (drawIDs k) s (seq_after (view s) n k) (Ok ((fun i => (n + 1 + i) mod 2 ^ 32) <$> seqZ 0 (Z.of_nat k))).
Proof.
  revert s n. induction k as [|k IH]; intros s n Hs Hk; [done|].
  assert (is_u64 (n + 1)) as Hu by (destruct Hs as [[? ?] _]; unfold is_u64; lia).
  pose proof (steps_nextID s n Hs) as Hn. rewrite (u64_small _ Hu) in Hn.
  cbn [drawIDs]. eapply steps_bind; [exact Hn|]. intros s1 E1. cbv beta iota.
  assert (seq_at (view s1) (n + 1)) as Hs1 by (rewrite E1; split; [done|left; apply lookup_insert_eq]).
  eapply steps_bind; [apply (IH s1 (n + 1) Hs1); lia|]. intros s2 E2. cbv beta. rewrite E1, seq_after_succ in E2.
  apply steps_ret_eq; [done|]. replace (Z.of_nat (Datatypes.S k)) with (1 + Z.of_nat k) by lia.
  rewrite (seqZ_cons 0 (1 + Z.of_nat k)) by lia. cbn [fmap list_fmap]. unfold u32. rewrite Z.add_0_r. f_equal.
  replace (Z.pred (1 + Z.of_nat k)) with (Z.of_nat k) by lia. change (Z.succ 0) with (1 + 0).
  rewrite <- (fmap_add_seqZ 1 0), <- list_fmap_compose. apply list_fmap_ext. intros i x _. unfold compose. f_equal. lia.
Qed.

End Catalog.

(** ** Instances and witnesses *)

Module SchemaWitness.
Import MapStore KeyInstances MultiInstances CrdtWitness.

#[export] Instance FieldDescription_countable : Countable FieldDescription.
Proof.
  refine (inj_countable' (fun f => (fd_Name f, fd_ID f, fd_Kind f, fd_Schema f, fd_RelationName f, fd_Typ f, fd_RelationType f))
    (fun '(a, b, c, d, e, f, g) => mkField a b c d e f g) _). by intros [].
Defined.

#[export] Instance CollectionDescription_countable : Countable CollectionDescription.
Proof.
  refine (inj_countable' (fun d => (cd_Name d, cd_ID d, sd_SchemaID (cd_Schema d), sd_VersionID (cd_Schema d),
      sd_Name (cd_Schema d), sd_Fields (cd_Schema d)))
    (fun '(a, b, c, d, e, f) => mkCollectionDescription a b (mkSchema c d e f)) _). by intros [a b []].
Defined.

Lemma digits_plain s n : digits_val n s <> None -> plain s = true.
Proof.
  revert n. induction s as [|c s IH]; intros n; [done|]. cbn [digits_val plain].
  unfold digit. destruct (_ && _) eqn:E; [|done]. intros Hd. rewrite (IH _ Hd), Bool.andb_true_r.
  apply Bool.andb_true_iff in E as [E1 E2]. apply Bool.andb_true_iff. lia.
Qed.

(** The hash of data is its length, for a database that keeps one collection. *)
#[export] Program Instance DescCodec_pos : DescCodec := {|
  json_Marshal_global n s := Ok n;
  json_Marshal_schema s := Ok (sd_Name s);
  json_Marshal_desc d := Ok (print_pos (encode d));
  json_Unmarshal_desc b := match countable.decode (parse_pos b) with Some d => Ok d | None => Err ErrCidDecode end;
  pref_Sum b := Ok (N.of_nat (String.length b) + 1)%N |}.
Next Obligation. eauto. Qed.
Next Obligation. eauto. Qed.
Next Obligation. eauto. Qed.
Next Obligation. intros d b _ [= <-]. by rewrite parse_print_pos, decode_encode. Qed.
Next Obligation. intros b. eexists. split; [done|]. apply Bool.negb_true_iff, N.eqb_neq. lia. Qed.
Next Obligation. intros c _. apply (digits_plain (pretty c) 0). by rewrite pretty_digits. Qed.

Definition key_field : FieldDescription := mkField KeyFieldName 0 FieldKind_DocKey "" "" NONE_CRDT 0.
Definition name_field : FieldDescription := mkField "name" 1 FieldKind_STRING "" "" LWW_REGISTER 0.
Definition age_field : FieldDescription := mkField "age" 0 FieldKind_INT "" "" NONE_CRDT 0.

Definition users_of (sid vid : string) (fs : list FieldDescription) : CollectionDescription :=
  mkCollectionDescription "Users" 1 (mkSchema sid vid "Users" fs).

Definition users : CollectionDescription := users_of "6" "6" [key_field; name_field].

#[local] Existing Instance MultiStoreFrom.
#[local] Existing Instance LawfulMultiStoreFrom.

Lemma fields_wf_users : fields_wf [key_field; name_field].
Proof.
  split; [by eexists _, _| |].
  - intros [|[|[|i]]] f; cbn; [by intros [= <-]..|done|done].
  - by repeat constructor; set_solver.
Qed.

Lemma db_at_empty : db_at (views (S := contents) ∅) ∅ 0.
Proof.
  assert (forall n, views (S := contents) ∅ n = ∅) as Hv.
  { intros n. change (strip (namespaceKey n) ∅ = ∅). apply map_eq. intros k. by rewrite lookup_strip, !lookup_empty. }
  split; rewrite ?Hv; split; try (intros *; rewrite lookup_empty; done); try done.
  right. by rewrite lookup_empty.
Qed.

Lemma validateUpdate_spec_witness :
  validateUpdate users (users_of "6" "" [key_field; name_field; age_field]) = Ok true /\
  update_fields [key_field; name_field] [key_field; name_field; age_field] true.
Proof.
  split; [vm_compute; reflexivity|].
  apply (validateUpdate_spec users (users_of "6" "" [key_field; name_field; age_field]) true fields_wf_users).
  vm_compute. reflexivity.
Defined.

Lemma catalog_refines_witness :
  exists v, msteps (createCollection users) (∅ : contents) (upd (views ∅) NSystem v) (Ok (col_of users)) /\
    db_at (upd (views (∅ : contents)) NSystem v) (<["Users" := users]> ∅) 1.
Proof.
  destruct (catalog_refines (∅ : contents) ∅ 0 db_at_empty) as (_ & _ & _ & _ & Hcreate).
  destruct (Hcreate users (col_of users)) as (_ & _ & Hv).
  - split; try (vm_compute; reflexivity).
    + by repeat constructor; set_solver.
    + intros name d Hd. by rewrite lookup_empty in Hd.
  - apply lookup_empty.
  - exact Hv.
Defined.

(** The database after the collection has been created. *)
Definition users_db : contents := (createCollection users ∅).1.

Lemma db_at_users : db_at (views users_db) (<["Users" := users]> ∅) 1.
Proof.
  destruct db_at_empty as [Hm Hc Hs].
  destruct (steps_create (∅ : contents) ∅ 0 users (col_of users) Hm Hc Hs) as (v & [_ [Hv _]] & Hh & Hw & Hq);
    try (vm_compute; reflexivity); [by repeat constructor; set_solver|by intros name d Hd; rewrite lookup_empty in Hd|].
  assert (views users_db NSystem = v) as E by exact Hv. by split; rewrite ?E.
Qed.

Definition users_new : CollectionDescription := users_of "6" "6" [key_field; name_field; age_field].
Definition users_updated : CollectionDescription :=
  users_of "6" "6" [set_Typ key_field LWW_REGISTER; name_field; set_ID (set_Typ age_field LWW_REGISTER) 2].

Lemma updateCollection_refines_witness :
  exists v, msteps (updateCollection users_new) users_db (upd (views users_db) NSystem v) (Ok (col_of users_updated)) /\
    db_at (upd (views users_db) NSystem v) (<["Users" := users_updated]> (<["Users" := users]> ∅)) 1.
Proof.
  pose proof (updateCollection_refines users_db (<["Users" := users]> ∅) 1 users_new db_at_users eq_refl) as Hu.
  rewrite lookup_insert_eq in Hu.
  assert (validateUpdate users users_new = Ok true) as Hval by (vm_compute; reflexivity). rewrite Hval in Hu.
  destruct (Hu users_updated) as (_ & _ & Hv); [|exact Hv].
  split; try (vm_compute; reflexivity).
  intros name d' [[<- _]|[_ Hd]]%lookup_insert_Some Hne; [by destruct Hne|by rewrite lookup_empty in Hd].
Defined.


(** two places where the schema code departs from what it means to do.  An update
    may replace the key field of a collection, since a new field without id counts as
    the field of id 0 that must not be deleted.  And when reading the collections meets
    an error, it returns no collection and no error. *)
Theorem schema_departures :
  validateUpdate users (users_of "6" "" [age_field; name_field]) = Ok true /\
  (forall (s : contents) e es cols, collectCollections (Err e :: es) cols s = (s, Ok [])).
Proof. split; [vm_compute; reflexivity|done]. Qed.
End SchemaWitness.
