(* ===== verification/Iterate.v ===== *)
(** * Iterators over a store (datastore/iterable, datastore/wrappedStore.go,
    datastore/badger/v3/iterator.go)

    An iterator runs over the entries of a store between two keys, in the order of the
    keys.  Badger iterates natively; for other stores a shim turns the iteration into a
    query; and a namespace iterates over its part of the root store.  The fetchers rely
    on one law ([LawfulIterable]): between a prefix and its end lie the entries below
    the prefix.  The results of an iteration are those at the time of the call. *)

From Stdlib Require Import Ascii.
From stdpp Require Import sorting.
From S2P Require Import Prelude GoStd Keys Store MultiStore.

Definition key_le (x y : string * bytes) : Prop := x.1 <=s y.1.

#[global] Instance key_le_dec : RelDecision key_le.
Proof. intros x y. unfold key_le. apply _. Defined.

Definition sort_keys (l : list (string * bytes)) : list (string * bytes) := merge_sort key_le l.

(** The entries strictly below a prefix, in the order of their keys. *)
Definition entries_below (m : contents) (p : string) : list (string * bytes) := sort_keys (MapStore.query p m).

(** ** The interface *)

(** [GetIterator] with an order by key, ascending or descending, and [IteratePrefix] of
    the iterator it returns. *)
Class Iterable (S : Type) := {
  IteratePrefix : bool -> string -> string -> M S (list entry);
}.

(** The keys between a prefix and its end are below the prefix. *)
Definition only_below (m : contents) (p : string) : Prop :=
  forall k v, m !! k = Some v -> p <=s k -> k <=s bytesPrefixEnd p -> below p k.

Class LawfulIterable (S : Type) `{LawfulDatastore S} `{Iterable S} := {
  law_Iterate : forall p s, clean_key p = true -> clean_key (bytesPrefixEnd p) = true ->
    only_below (view s) p ->
    steps (IteratePrefix false p (bytesPrefixEnd p)) s (view s) (Ok (Ok <$> entries_below (view s) p));
}.

(** ** The shim over queries *)

(** [betweenFilter] of the shim. *)
Record betweenFilter := mkBetween { bf_start : string; bf_end : string }.

Definition between_Filter (f : betweenFilter) (e : string * bytes) : bool :=
  String.leb f.(bf_start) e.1 && String.leb e.1 f.(bf_end).

(** [dsq.Query], as far as the shim uses it: prefix, filters and the order by key. *)
Record dsQuery := mkQuery {
  q_Prefix : string;
  q_Filters : list betweenFilter;
  q_Descending : bool;
}.

Class QueryStore (S : Type) := {
  q_Query : dsQuery -> M S (list entry);
}.

(** A query returns the entries below its prefix, which is taken as a path, that pass
    the filters, in the order. *)
Definition query_results `{DsKey} (q : dsQuery) (m : contents) : list (string * bytes) :=
  let l := List.filter (fun e => forallb (fun f => between_Filter f e) q.(q_Filters))
             (entries_below m (NewKey q.(q_Prefix))) in
  if q.(q_Descending) then rev l else l.

Class LawfulQuery (S : Type) `{LawfulDatastore S} `{QueryStore S} `{DsKey} := {
  law_q_Query : forall q s, clean_key (NewKey q.(q_Prefix)) = true ->
    steps (q_Query q) s (view s) (Ok (Ok <$> query_results q (view s)));
}.

Fixpoint shared (a b : string) : string :=
  match a, b with
  | String c a, String d b => if Ascii.eqb c d then String c (shared a b) else ""
  | _, _ => ""
  end.

Definition keyMax : string := String (byte_of 255) (String (byte_of 255) "").

Definition prefixEnd `{DsKey} (k : string) : string :=
  if (String.length k =? 0)%nat then NewKey keyMax else NewKey (bytesPrefixEnd k).

Definition shim_IteratePrefix {S} `{QueryStore S} `{DsKey} (descending : bool) (startPrefix endPrefix : string)
    : M S (list entry) :=
  if String.eqb (prefixEnd startPrefix) endPrefix
  then q_Query (mkQuery startPrefix [] descending)
  else q_Query (mkQuery (shared startPrefix endPrefix) [mkBetween startPrefix endPrefix] descending).

Definition Iterable_shim {S} `{QueryStore S} `{DsKey} : Iterable S := {| IteratePrefix := shim_IteratePrefix |}.

(** ** Iterators of a namespace *)

Definition wrapped_IteratePrefix {S} `{Iterable S} `{PrefixTransform} (p : string) (descending : bool)
    (startPrefix endPrefix : string) : M S (list entry) :=
  let* results := IteratePrefix descending (ConvertKey p startPrefix) (ConvertKey p endPrefix) in
  mret (invert_entry p <$> results).

Definition Iterable_wrapped {S} `{Iterable S} `{PrefixTransform} (p : string) : Iterable S :=
  {| IteratePrefix := wrapped_IteratePrefix p |}.

(** ** Iterators of badger *)

(** A badger transaction: the entries it sees, in the order of their keys.  An iterator
    stands at an entry and moves to the next one, in either direction; [Seek] moves to
    the first entry at or after a key in that direction. *)
Class BadgerTxn (S : Type) := {
  items : S -> list (string * result bytes);
}.

Definition isValidAscending (key startPrefix endPrefix : string) : bool :=
  String.leb startPrefix key && String.leb key endPrefix.

Definition isValidDescending (key startPrefix endPrefix : string) : bool :=
  String.leb key startPrefix && String.leb endPrefix key.

Definition getItemKeyValidator (reversedOrder : bool) : string -> string -> string -> bool :=
  if reversedOrder then isValidDescending else isValidAscending.

Fixpoint Seek (reversedOrder : bool) (k : string) (l : list (string * result bytes)) : list (string * result bytes) :=
  match l with
  | [] => []
  | e :: l' =>
      if (if reversedOrder then String.leb e.1 k else String.leb k e.1) then l else Seek reversedOrder k l'
  end.

(** The iterator is made without the query, so that it has no filters and no limit. *)
Fixpoint yieldResults (reversedOrder : bool) (startPrefix endPrefix : string) (l : list (string * result bytes))
    : list entry :=
  match l with
  | [] => []
  | (key, value) :: l =>
      if getItemKeyValidator reversedOrder key startPrefix endPrefix
      then (let! b := value in Ok (key, b)) :: yieldResults reversedOrder startPrefix endPrefix l
      else []
  end.

Definition badger_IteratePrefix {S} `{BadgerTxn S} (reversedOrder : bool) (startPrefix endPrefix : string)
    : M S (list entry) := fun s =>
  let its := if reversedOrder then rev (items s) else items s in
  (s, Ok (yieldResults reversedOrder startPrefix endPrefix (Seek reversedOrder startPrefix its))).

Definition Iterable_badger {S} `{BadgerTxn S} : Iterable S := {| IteratePrefix := badger_IteratePrefix |}.

(** What a transaction sees is the contents of the store, in order and readable. *)
Class LawfulBadgerTxn (S : Type) `{LawfulDatastore S} `{BadgerTxn S} := {
  law_items : forall s, exists l, items s = (prod_map id Ok <$> l) /\
    StronglySorted key_le l /\ NoDup l.*1 /\ forall k v, (k, v) ∈ l <-> view s !! k = Some v;
}.

(** ** Sorted entries *)

#[global] Instance key_le_total : Total key_le.
Proof. intros x y. unfold key_le. rewrite !str_le_eq. destruct (str_lt_total x.1 y.1) as [?|[->|?]]; auto. Qed.

#[global] Instance key_le_trans : Transitive key_le.
Proof. intros x y z. apply str_le_trans. Qed.

Lemma str_le_antisym s t : s <=s t -> t <=s s -> s = t.
Proof.
  rewrite (str_le_eq s t). intros [Hlt|]; [|done]. rewrite str_le_lt. by intros Hn.
Qed.

(** A list of entries with distinct keys has one order. *)
Lemma sorted_keys_unique (l1 l2 : list (string * bytes)) :
  StronglySorted key_le l1 -> StronglySorted key_le l2 -> NoDup l1.*1 -> NoDup l2.*1 ->
  (forall e, e ∈ l1 <-> e ∈ l2) -> l1 = l2.
Proof.
  intros S1 S2 N1 N2 He. apply StronglySorted_unique_strong with key_le; [|done..|].
  - intros [k1 v1] [k2 v2] H1 H2%He Hle Hge. assert (k1 = k2) as -> by by apply str_le_antisym.
    f_equal. apply list_elem_of_lookup in H1 as [i Hi], H2 as [j Hj].
    assert (i = j) as ->; [|congruence].
    apply (NoDup_lookup l1.*1 i j k2); [done|by rewrite list_lookup_fmap, Hi|by rewrite list_lookup_fmap, Hj].
  - apply NoDup_Permutation; [by eapply NoDup_fmap_1|by eapply NoDup_fmap_1|done].
Qed.

Lemma sort_keys_sorted l : StronglySorted key_le (sort_keys l).
Proof. apply (StronglySorted_merge_sort key_le). Qed.

Lemma elem_of_sort_keys e l : e ∈ sort_keys l <-> e ∈ l.
Proof. unfold sort_keys. by rewrite merge_sort_Permutation. Qed.

Lemma NoDup_sort_keys l : NoDup l.*1 -> NoDup (sort_keys l).*1.
Proof. unfold sort_keys. by rewrite merge_sort_Permutation. Qed.

Lemma entries_below_sorted m p : StronglySorted key_le (entries_below m p).
Proof. apply sort_keys_sorted. Qed.

Lemma entries_below_NoDup m p : NoDup (entries_below m p).*1.
Proof. apply NoDup_sort_keys, MapStore.NoDup_filter_fst, NoDup_fst_map_to_list. Qed.

Lemma elem_of_entries_below m p k v : (k, v) ∈ entries_below m p <-> m !! k = Some v /\ below p k.
Proof.
  unfold entries_below, MapStore.query, below. rewrite elem_of_sort_keys.
  by rewrite list_elem_of_In, filter_In, <- list_elem_of_In, elem_of_map_to_list, HasPrefix_spec.
Qed.

(** A sorted list of the entries below a prefix is the list of these entries. *)
Lemma entries_below_unique m p l :
  StronglySorted key_le l -> NoDup l.*1 -> (forall k v, (k, v) ∈ l <-> m !! k = Some v /\ below p k) ->
  l = entries_below m p.
Proof.
  intros Hs Hn He. apply sorted_keys_unique; auto using entries_below_sorted, entries_below_NoDup.
  intros [k v]. by rewrite He, elem_of_entries_below.
Qed.

(** The end of a prefix that is a path. *)
Lemma clean_not_ff p : clean_key p = true -> all_ff p = false.
Proof. intros [r ->]%clean_slash. done. Qed.

Lemma prefix_range p k :
  clean_key p = true -> p <=s k /\ k <s bytesPrefixEnd p <-> str_prefix p k.
Proof.
  intros Hp%clean_not_ff. rewrite bytesPrefixEnd_bump. destruct (bump_str p) as [e|] eqn:E.
  - by apply bump_str_range.
  - apply bump_str_None in E. congruence.
Qed.

Lemma below_range p k : clean_key p = true -> below p k -> p <=s k /\ k <=s bytesPrefixEnd p.
Proof.
  intros Hp [t Ht]. assert (str_prefix p k) as Hk by (exists ("/" +:+ t); by rewrite Ht, str_app_assoc).
  apply prefix_range in Hk as [Hl Hr]; auto with go.
Qed.

(** ** The shim is lawful for a prefix *)

Section ShimLawful.
Context {S : Type} `{LawfulQuery S}.

#[program] Definition LawfulIterable_shim : @LawfulIterable S _ _ Iterable_shim := {| law_Iterate := _ |}.
Next Obligation.
  intros p s Hp He Hb. cbn. unfold shim_IteratePrefix, prefixEnd.
  destruct (clean_slash p Hp) as [r Er]. destruct (Nat.eqb_spec (String.length p) 0) as [E|E]; [by rewrite Er in E|].
  rewrite NewKey_clean, String.eqb_refl by done.
  pose proof (law_q_Query (mkQuery p [] false) s) as L. cbn [q_Prefix] in L. rewrite NewKey_clean in L by done.
  specialize (L Hp). unfold query_results in L. cbn [q_Prefix q_Filters q_Descending] in L.
  rewrite NewKey_clean, filter_all in L by done. exact L.
Qed.
End ShimLawful.

(** ** Badger's iterators are lawful *)

Section BadgerLawful.
Context {S : Type} `{LawfulBadgerTxn S}.

Lemma sorted_cons_inv e l : StronglySorted key_le (e :: l) -> StronglySorted key_le l /\ forall e', e' ∈ l -> key_le e e'.
Proof. intros Hs. apply StronglySorted_inv in Hs as [Hs Hall]. split; [done|]. by apply Forall_forall. Qed.

Lemma Seek_sorted k l :
  StronglySorted key_le l ->
  Seek false k (prod_map id Ok <$> l) = (prod_map id Ok <$> List.filter (fun e => String.leb k e.1) l).
Proof.
  induction l as [|[k' v] l IH]; intros Hs; [done|]. apply sorted_cons_inv in Hs as [Hs Hle].
  cbn [fmap list_fmap Seek List.filter prod_map fst snd id]. destruct (String.leb k k') eqn:E; [|by apply IH].
  cbn [fmap list_fmap prod_map fst snd id]. f_equal. rewrite filter_all; [done|]. intros e' He'. eapply str_le_trans; [exact E|by apply Hle].
Qed.

Lemma yieldResults_sorted a b l :
  StronglySorted key_le l -> (forall e, e ∈ l -> a <=s e.1) ->
  yieldResults false a b (prod_map id Ok <$> l) = (Ok <$> List.filter (fun e => String.leb e.1 b) l).
Proof.
  induction l as [|[k v] l IH]; intros Hs Ha; [done|]. apply sorted_cons_inv in Hs as [Hs Hle].
  cbn [fmap list_fmap yieldResults List.filter prod_map fst snd id].
  unfold getItemKeyValidator, isValidAscending. assert (String.leb a k = true) as -> by (apply (Ha (k, v)); left). cbn [andb].
  destruct (String.leb k b) eqn:E.
  - cbn. f_equal. apply IH; [done|]. intros e He. apply Ha. by right.
  - assert (List.filter (fun e : string * bytes => String.leb e.1 b) l = []) as ->; [|done].
    destruct (List.filter _ l) as [|e l'] eqn:El; [done|]. assert (e ∈ List.filter (fun e : string * bytes => String.leb e.1 b) l) as He.
    { rewrite El. left. }
    apply list_elem_of_In, filter_In in He as [He%list_elem_of_In Hb].
    pose proof (str_le_trans _ _ _ (Hle _ He) Hb) as Hkb. unfold str_le in Hkb. cbn in Hkb. congruence.
Qed.

Lemma StronglySorted_filter (f : string * bytes -> bool) l :
  StronglySorted key_le l -> StronglySorted key_le (List.filter f l).
Proof.
  induction l as [|e l IH]; intros Hs; [done|]. apply sorted_cons_inv in Hs as [Hs Hle]. cbn.
  destruct (f e); [|auto]. constructor; [auto|]. apply Forall_forall. intros e' He'.
  apply Hle. by apply list_elem_of_In, filter_In in He' as [He'%list_elem_of_In _].
Qed.

(** Ascending, an iterator of badger returns the entries between its keys, the second
    one included. *)
Lemma badger_ascending a b s :
  exists l, badger_IteratePrefix false a b s = (s, Ok (Ok <$> l)) /\
    StronglySorted key_le l /\ NoDup l.*1 /\
    forall k v, (k, v) ∈ l <-> view s !! k = Some v /\ a <=s k /\ k <=s b.
Proof.
  destruct (law_items s) as (l & El & Hs & Hn & Hl).
  exists (List.filter (fun e => String.leb e.1 b) (List.filter (fun e => String.leb a e.1) l)). split.
  - unfold badger_IteratePrefix. rewrite El, Seek_sorted by done.
    rewrite yieldResults_sorted; [done|by apply StronglySorted_filter|].
    intros e He. by apply list_elem_of_In, filter_In in He as [_ He].
  - split; [by do 2 apply StronglySorted_filter|]. split; [by do 2 apply MapStore.NoDup_filter_fst|].
    intros k v. rewrite list_elem_of_In, !filter_In, <- list_elem_of_In, Hl. cbn. tauto.
Qed.

#[program] Definition LawfulIterable_badger : @LawfulIterable S _ _ Iterable_badger := {| law_Iterate := _ |}.
Next Obligation.
  intros p s Hp He Hb. destruct (badger_ascending p (bytesPrefixEnd p) s) as (l & E & Hs & Hn & Hl).
  unfold steps. cbn [IteratePrefix Iterable_badger]. rewrite E. cbn [fst snd]. split; [|done]. do 2 f_equal.
  apply entries_below_unique; [done..|]. intros k v. rewrite Hl. split.
  - intros (Hm & Hge & Hle). split; [done|]. by apply (Hb k v).
  - intros [Hm Hbl]. split; [done|]. by apply below_range.
Qed.

(** Descending, it returns nothing when its keys are in ascending order, as the spans of
    the fetchers are. *)
Lemma badger_descending_empty a b s : a <s b -> badger_IteratePrefix true a b s = (s, Ok []).
Proof.
  intros Hab. unfold badger_IteratePrefix. do 2 f_equal. destruct (Seek true a _) as [|[k v] l]; [done|]. cbn.
  unfold isValidDescending. destruct (String.leb k a) eqn:E1; [|done]. destruct (String.leb b k) eqn:E2; [|done].
  exfalso. apply (str_lt_irrefl a). eapply str_lt_le_trans; [exact Hab|]. by eapply str_le_trans.
Qed.
End BadgerLawful.

(** ** Iterators of a namespace are lawful *)

Lemma bump_str_app p q e : bump_str q = Some e -> bump_str (p +:+ q) = Some (p +:+ e).
Proof. intros Hq. induction p as [|c p IH]; [done|]. rewrite str_app_cons, bump_str_cons, IH. done. Qed.

Lemma bytesPrefixEnd_app p q : clean_key q = true -> bytesPrefixEnd (p +:+ q) = p +:+ bytesPrefixEnd q.
Proof.
  intros Hq%clean_not_ff. rewrite !bytesPrefixEnd_bump. destruct (bump_str q) as [e|] eqn:E.
  - by rewrite (bump_str_app _ _ _ E).
  - apply bump_str_None in E. congruence.
Qed.

Lemma str_app_le_l p s t : p +:+ s <=s p +:+ t <-> s <=s t.
Proof. by rewrite !str_le_lt, str_app_lt_l. Qed.

Lemma below_app p q k : below (p +:+ q) (p +:+ k) <-> below q k.
Proof.
  unfold below, str_prefix. split; intros [t Ht]; exists t.
  - rewrite !str_app_assoc in Ht. apply str_app_inj_l in Ht. by rewrite Ht, str_app_assoc.
  - by rewrite Ht, !str_app_assoc.
Qed.

Lemma below_app_inv p q k : below (p +:+ q) k -> exists k', k = p +:+ k' /\ below q k'.
Proof.
  intros [t Ht]. exists (q +:+ "/" +:+ t). split; [by rewrite Ht, !str_app_assoc|].
  exists t. by rewrite str_app_assoc.
Qed.

(** The entries of a namespace are those of the root store below it, without its
    prefix. *)
Lemma entries_below_strip m p q :
  entries_below m (p +:+ q) = prod_map (String.append p) id <$> entries_below (strip p m) q.
Proof.
  symmetry. apply entries_below_unique.
  - generalize (entries_below_sorted (strip p m) q). generalize (entries_below (strip p m) q).
    intros l Hs. induction Hs as [|e l Hs IH Hall]; [constructor|]. cbn. constructor; [done|].
    apply Forall_fmap. eapply Forall_impl; [exact Hall|]. intros e' He'. unfold key_le. cbn. by apply str_app_le_l.
  - rewrite <- list_fmap_compose.
    replace (fst ∘ prod_map (String.append p) id) with (String.append p ∘ fst (B := bytes)) by done.
    rewrite list_fmap_compose. apply NoDup_fmap_2; [apply _|]. apply entries_below_NoDup.
  - intros k v. rewrite list_elem_of_fmap. split.
    + intros ([k' v'] & [= -> ->] & Hin%elem_of_entries_below). rewrite lookup_strip in Hin.
      by rewrite below_app.
    + intros [Hm Hb]. apply below_app_inv in Hb as (k' & -> & Hb). exists (k', v). split; [done|].
      by rewrite elem_of_entries_below, lookup_strip.
Qed.

Section WrappedIterable.
Context {S : Type} `{LawfulIterable S} `{DsKey} `{PrefixTransform}.
Variable p : string.
Hypothesis Hp : clean_key p = true.

#[program] Definition LawfulIterable_wrapped :
  @LawfulIterable S (wrappedStore p) (LawfulDatastore_wrapped p Hp) (Iterable_wrapped p) := {| law_Iterate := _ |}.
Next Obligation.
  intros q s Hq He Hb. cbn. unfold wrapped_IteratePrefix.
  rewrite !ConvertKey_clean, <- bytesPrefixEnd_app by done.
  eapply steps_bind.
  - apply wrapped_steps, law_Iterate; [by apply clean_key_app| |].
    + rewrite bytesPrefixEnd_app by done. by apply clean_key_app.
    + intros k v Hk Hge Hle. rewrite bytesPrefixEnd_app in Hle by done.
      assert (str_prefix p k) as [k' ->].
      { destruct (decide (k = p +:+ bytesPrefixEnd q)) as [->|Hne]; [by eexists|].
        apply (str_prefix_between p k (bytesPrefixEnd q)).
        - eapply str_le_trans; [|exact Hge]. apply str_prefix_le. by eexists.
        - apply str_le_eq in Hle as [Hlt|?]; done. }
      apply below_app. rewrite str_app_le_l in Hge, Hle. eapply (Hb k' v); [|done..]. cbn. by rewrite lookup_strip.
  - intros s1 E1. apply steps_ret_eq; [done|]. cbn.
    rewrite entries_below_strip, <- !list_fmap_compose. apply list_fmap_ext.
    intros i [k v] [_ [t Ht]]%list_elem_of_lookup_2%elem_of_entries_below. cbn.
    destruct (clean_slash q Hq) as [r Er]. rewrite Er in Ht.
    assert (k = String "/" (r +:+ "/" +:+ t)) as -> by (by rewrite Ht, !str_app_assoc).
    by rewrite InvertKey_prefix.
Qed.
End WrappedIterable.

(** ** Instances and runs *)

Module IterateWitness.
Export MapStore MultiInstances.

#[export] Instance QueryStore_map : QueryStore contents := {|
  q_Query q := fun m => (m, Ok (Ok <$> query_results q m)) |}.

#[export] Program Instance LawfulQuery_map : LawfulQuery contents.
Next Obligation. done. Qed.

#[export] Instance BadgerTxn_map : BadgerTxn contents := {|
  items m := prod_map id Ok <$> sort_keys (map_to_list m) |}.

#[export] Program Instance LawfulBadgerTxn_map : LawfulBadgerTxn contents.
Next Obligation.
  intros m. exists (sort_keys (map_to_list m)). split; [done|]. split; [apply sort_keys_sorted|].
  split; [apply NoDup_sort_keys, NoDup_fst_map_to_list|].
  intros k v. by rewrite elem_of_sort_keys, elem_of_map_to_list.
Qed.

(** the iterators depart from a range of keys in three ways.  The shim over queries
    takes the common beginning of the two keys as a path, and so finds nothing between
    two documents whose keys begin alike, where badger finds the entry; both include the
    entry at the end key, although spans exclude it; and in descending order badger finds
    nothing between keys given in ascending order, as the spans of the fetchers are. *)
Theorem iterator_departures :
  let m : contents := {[ "/1/v/doc1/1" := "x" ]} in
  let m' : contents := {[ "/1/w" := "y" ]} in
  (shim_IteratePrefix false "/1/v/doc1" "/1/v/doc3" m).2 = Ok [] /\
  (badger_IteratePrefix false "/1/v/doc1" "/1/v/doc3" m).2 = Ok [Ok ("/1/v/doc1/1", "x")] /\
  (shim_IteratePrefix false "/1/u" "/1/w" m').2 = Ok [Ok ("/1/w", "y")] /\
  (badger_IteratePrefix false "/1/v" "/1/w" m').2 = Ok [Ok ("/1/w", "y")] /\
  (badger_IteratePrefix true "/1/v" "/1/w" m).2 = Ok [].
Proof. repeat split; vm_compute; reflexivity. Qed.
End IterateWitness.
