(* ===== verification/Fetcher.v ===== *)
(** * Fetching documents (db/fetcher/fetcher.go, encoded_doc.go)

    A document is stored as one entry per field, below the key of the document.  The
    fetcher runs over the entries of a list of spans and puts the entries of one document
    together; a second fetcher runs over the deleted documents, and the two are merged.
    The state of an operation is the store and the fetcher; a fetcher that fails stays as
    the failing operation left it.  [Close] of iterators and results, which only release
    resources, is left out. *)

From Stdlib Require Import Ascii.
From stdpp Require Import pretty.
From S2P Require Import Prelude GoStd Keys Spans Store MultiStore Crdt Values DocMap Desc Schema Iterate.

(** [cbor.Unmarshal] into a value of type [any].  Maps, which no field kind has, are
    outside of [val]. *)
Class CborAny := {
  cbor_Unmarshal_any : bytes -> result val;
}.

(** ** Encoded documents *)

Record encProperty := mkEncProperty { ep_Desc : FieldDescription; ep_Raw : bytes }.

(** [untypedValue.(T)] for the element types of the array kinds. *)
Definition as_bool (v : val) : result bool := match v with VBool b => Ok b | _ => Err ErrUnexpectedType end.
Definition as_float (v : val) : result float64 := match v with VFloat64 f => Ok f | _ => Err ErrUnexpectedType end.
Definition as_string (v : val) : result string := match v with VString s => Ok s | _ => Err ErrUnexpectedType end.

Definition convertToInt (v : val) : result Z :=
  match v with
  | VInt KUint64 z => Ok (i64 z)
  | VInt KInt64 z => Ok z
  | VFloat64 f => Ok (Z_of_f64 f)
  | _ => Err ErrUnexpectedType
  end.

Fixpoint convertArray {A} (conv : val -> result A) (items : list val) : result (list A) :=
  match items with
  | [] => Ok []
  | v :: items =>
      let! x := conv v in
      let! xs := convertArray conv items in
      Ok (x :: xs)
  end.

(** [convertNillableArray] and [convertNillableArrayWithConverter]. *)
Definition convertNillable {A} (conv : val -> result A) (v : val) : result (option A) :=
  if is_nil v then Ok None else let! x := conv v in Ok (Some x).

Definition convertNillableArray {A} (conv : val -> result A) (items : list val) : result (list (option A)) :=
  convertArray (convertNillable conv) items.

Definition decodeArray (kind : Z) (array : list val) : result val :=
  if kind =? FieldKind_BOOL_ARRAY then let! l := convertArray as_bool array in Ok (VBools l)
  else if kind =? FieldKind_NILLABLE_BOOL_ARRAY then let! l := convertNillableArray as_bool array in Ok (VOptBools l)
  else if kind =? FieldKind_INT_ARRAY then let! l := convertArray convertToInt array in Ok (VInts l)
  else if kind =? FieldKind_NILLABLE_INT_ARRAY then let! l := convertNillableArray convertToInt array in Ok (VOptInts l)
  else if kind =? FieldKind_FLOAT_ARRAY then let! l := convertArray as_float array in Ok (VFloats l)
  else if kind =? FieldKind_NILLABLE_FLOAT_ARRAY then let! l := convertNillableArray as_float array in Ok (VOptFloats l)
  else if kind =? FieldKind_STRING_ARRAY then let! l := convertArray as_string array in Ok (VStrings l)
  else if kind =? FieldKind_NILLABLE_STRING_ARRAY then let! l := convertNillableArray as_string array in Ok (VOptStrings l)
  else Ok (VList array).

(** CBOR often encodes values typed as floats as integers. *)
Definition decodeScalar (kind : Z) (v : val) : val :=
  if kind =? FieldKind_FLOAT then
    match v with
    | VInt (KInt64 | KInt | KUint64) z => VFloat64 (f64_of_Z z)
    | _ => v
    end
  else v.

Definition prop_Decode `{CborAny} (e : encProperty) : result (Z * val) :=
  match e.(ep_Raw) with
  | EmptyString => Panic
  | String c buf =>
      let ctype := byte_val c in
      let! v := cbor_Unmarshal_any buf in
      match v with
      | VList array => let! v := decodeArray e.(ep_Desc).(fd_Kind) array in Ok (ctype, v)
      | _ => Ok (ctype, decodeScalar e.(ep_Desc).(fd_Kind) v)
      end
  end.

(** The properties of a document are a map by field; the list is in the order in which a
    loop over the map visits them. *)
Record encodedDocument := mkEncoded {
  ed_Key : option bytes;
  ed_Properties : list (FieldDescription * encProperty);
}.

Definition ed_zero : encodedDocument := mkEncoded None [].

Fixpoint put_prop (ps : list (FieldDescription * encProperty)) (f : FieldDescription) (p : encProperty)
    : list (FieldDescription * encProperty) :=
  match ps with
  | [] => [(f, p)]
  | (g, q) :: ps => if decide (g = f) then (f, p) :: ps else (g, q) :: put_prop ps f p
  end.

Fixpoint decodeFields `{CborAny} (ps : list (FieldDescription * encProperty)) (doc : Doc) : result Doc :=
  match ps with
  | [] => Ok doc
  | (fieldDesc, prop) :: ps =>
      let! (_, v) := prop_Decode prop in
      let! doc := set_field doc (Z.to_nat fieldDesc.(fd_ID)) v in
      decodeFields ps doc
  end.

Definition DecodeToDoc `{CborAny} (encdoc : encodedDocument) (mapping : DocumentMapping) : result Doc :=
  let doc := NewDoc mapping in
  let! doc := SetKey doc (default "" encdoc.(ed_Key)) in
  decodeFields encdoc.(ed_Properties) doc.

(** ** The state of a fetcher *)

Record KeyValue := mkKeyValue { kv_Key : DataStoreKey; kv_Value : bytes }.

(** The iterator of the code is [f_kvIter], which is made once; the results that are
    left of the current span are [f_results]. *)
Record fetcher := mkFetcher {
  f_col : option CollectionDescription;
  f_reverse : bool;
  f_spans : list (option span);
  f_curSpanIndex : Z;
  f_schemaFields : gmap Z FieldDescription;
  f_doc : option encodedDocument;
  f_kv : option KeyValue;
  f_kvIter : bool;
  f_results : option (list entry);
  f_kvEnd : bool;
  f_isReading : bool;
}.

Definition new_fetcher : fetcher := mkFetcher None false [] 0 ∅ None None false None false false.

Definition set_doc (f : fetcher) (d : encodedDocument) : fetcher :=
  mkFetcher f.(f_col) f.(f_reverse) f.(f_spans) f.(f_curSpanIndex) f.(f_schemaFields) (Some d) f.(f_kv) f.(f_kvIter)
    f.(f_results) f.(f_kvEnd) f.(f_isReading).
Definition set_kv (f : fetcher) (kv : option KeyValue) : fetcher :=
  mkFetcher f.(f_col) f.(f_reverse) f.(f_spans) f.(f_curSpanIndex) f.(f_schemaFields) f.(f_doc) kv f.(f_kvIter)
    f.(f_results) f.(f_kvEnd) f.(f_isReading).
Definition set_results (f : fetcher) (r : option (list entry)) : fetcher :=
  mkFetcher f.(f_col) f.(f_reverse) f.(f_spans) f.(f_curSpanIndex) f.(f_schemaFields) f.(f_doc) f.(f_kv) f.(f_kvIter)
    r f.(f_kvEnd) f.(f_isReading).
Definition set_kvEnd (f : fetcher) (b : bool) : fetcher :=
  mkFetcher f.(f_col) f.(f_reverse) f.(f_spans) f.(f_curSpanIndex) f.(f_schemaFields) f.(f_doc) f.(f_kv) f.(f_kvIter)
    f.(f_results) b f.(f_isReading).
Definition set_reading (f : fetcher) (b : bool) : fetcher :=
  mkFetcher f.(f_col) f.(f_reverse) f.(f_spans) f.(f_curSpanIndex) f.(f_schemaFields) f.(f_doc) f.(f_kv) f.(f_kvIter)
    f.(f_results) f.(f_kvEnd) b.
Definition set_kvIter (f : fetcher) : fetcher :=
  mkFetcher f.(f_col) f.(f_reverse) f.(f_spans) f.(f_curSpanIndex) f.(f_schemaFields) f.(f_doc) f.(f_kv) true
    f.(f_results) f.(f_kvEnd) f.(f_isReading).
Definition set_curSpan (f : fetcher) (i : Z) : fetcher :=
  mkFetcher f.(f_col) f.(f_reverse) f.(f_spans) i f.(f_schemaFields) f.(f_doc) f.(f_kv) f.(f_kvIter)
    f.(f_results) f.(f_kvEnd) f.(f_isReading).
Definition set_spans (f : fetcher) (spans : list (option span)) : fetcher :=
  mkFetcher f.(f_col) f.(f_reverse) spans (-1) f.(f_schemaFields) f.(f_doc) f.(f_kv) f.(f_kvIter)
    f.(f_results) f.(f_kvEnd) f.(f_isReading).

Definition fget {S} : M (S * fetcher) fetcher := fun s => (s, Ok s.2).
Definition fmod {S} (u : fetcher -> fetcher) : M (S * fetcher) unit := fun s => ((s.1, u s.2), Ok tt).
Definition on_store {S T A} (m : M S A) : M (S * T) A := fun s => let '(s1, r) := m s.1 in ((s1, s.2), r).

(** The map of the fields of a schema by their id. *)
Definition schemaFields (fields : list FieldDescription) : gmap Z FieldDescription :=
  foldl (fun m f => <[u32 f.(fd_ID) := f]> m) ∅ fields.

Definition fetcher_init (col : CollectionDescription) (reverse : bool) (f : fetcher) : fetcher :=
  mkFetcher (Some col) reverse f.(f_spans) f.(f_curSpanIndex) (schemaFields col.(cd_Schema).(sd_Fields)) (Some ed_zero)
    f.(f_kv) false None f.(f_kvEnd) false.

Definition NewErrFieldIdNotFound : error := ErrNew "unable to find FieldDescription for given FieldId".

(** ** Reading one span list *)

Section Fetch.
Context {S : Type} `{Iterable S} `{DsKey}.

Definition nextKV : M (S * fetcher) (bool * option KeyValue) :=
  let* f := fget in
  match f.(f_results) with
  | None => mpanic
  | Some [] => mret (true, None)
  | Some (res :: results) =>
      let* _ := fmod (fun f => set_results f (Some results)) in
      let* (key, value) := mlift res in
      let* dsKey := mlift (NewDataStoreKey key) in
      mret (false, Some (mkKeyValue dsKey value))
  end.

(** The part of [startNextSpan] after the test for the last span.  The code calls
    [nextKey], which may start the span after this one. *)
Definition startSpan (sp : option span) (nextKey : M (S * fetcher) bool) : M (S * fetcher) bool :=
  let* _ := fmod set_kvIter in
  match sp with
  | None => mpanic
  | Some sp =>
      let* f := fget in
      let* r := mtry (on_store (IteratePrefix f.(f_reverse) (ToDS sp.(Start)) (ToDS sp.(End)))) in
      match r with
      | inr err => let* _ := fmod (fun f => set_results f None) in mfail err
      | inl results =>
          let* _ := fmod (fun f => set_curSpan (set_results f (Some results)) (f.(f_curSpanIndex) + 1)) in
          let* _ := nextKey in
          mret true
      end
  end.

Definition value_or_deleted (kv : KeyValue) : bool :=
  String.eqb kv.(kv_Key).(InstanceType) ValueKey || String.eqb kv.(kv_Key).(InstanceType) DeletedKey.

(** [nextKey], when [rest] are the spans after the current one. *)
Fixpoint nextKey_from (rest : list (option span)) : M (S * fetcher) bool :=
  let* r := mtry nextKV in
  match r with
  | inr err => let* _ := fmod (fun f => set_kv f None) in mfail err
  | inl (iterDone, kv) =>
      let* _ := fmod (fun f => set_kv f kv) in
      let spanDone := match kv with Some kv => iterDone || negb (value_or_deleted kv) | None => iterDone end in
      let* _ := fmod (fun f => set_kvEnd f spanDone) in
      if (spanDone : bool) then
        let* _ := match rest with [] => mret false | sp :: rest => startSpan sp (nextKey_from rest) end in
        mret true
      else
        let* f := fget in
        match kv, f.(f_doc) with
        | Some kv, Some doc =>
            match doc.(ed_Key) with
            | Some key =>
                if String.eqb kv.(kv_Key).(DocKey) key then mret false
                else let* _ := fmod (fun f => set_reading f false) in mret true
            | None => mret false
            end
        | _, _ => mpanic
        end
  end.

Definition rest_spans (f : fetcher) : list (option span) := drop (Z.to_nat (f.(f_curSpanIndex) + 1)) f.(f_spans).

Definition nextKey : M (S * fetcher) bool :=
  let* f := fget in nextKey_from (rest_spans f).

Definition startNextSpan : M (S * fetcher) bool :=
  let* f := fget in
  match rest_spans f with
  | [] => mret false
  | sp :: rest => startSpan sp (nextKey_from rest)
  end.

Definition processKV (kv : KeyValue) : M (S * fetcher) unit :=
  let* f := fget in
  match f.(f_doc) with
  | None => mfail NewErrUninitializeProperty
  | Some _ =>
      let* _ := if f.(f_isReading) then mret tt
                else fmod (fun f => set_doc (set_reading f true) (mkEncoded (Some kv.(kv_Key).(DocKey)) [])) in
      let* f := fget in
      match f.(f_kv), f.(f_doc) with
      | Some cur, Some doc =>
          if String.eqb cur.(kv_Value) (String ObjectMarker "") then mret tt else
          let* fieldID := mlift (FieldID kv.(kv_Key)) in
          match f.(f_schemaFields) !! fieldID with
          | None => mfail NewErrFieldIdNotFound
          | Some fieldDesc =>
              fmod (fun f => set_doc f (mkEncoded doc.(ed_Key)
                (put_prop doc.(ed_Properties) fieldDesc (mkEncProperty fieldDesc kv.(kv_Value)))))
          end
      | _, _ => mpanic
      end
  end.

(** The loop of [FetchNext].  It ends with the results of the current span at the
    latest, so that a round for each of them, and one more, is enough. *)
Fixpoint FetchNext_loop (fuel : nat) : M (S * fetcher) (option encodedDocument) :=
  match fuel with
  | O => mpanic
  | Datatypes.S fuel =>
      let* f := fget in
      match f.(f_kv) with
      | None => mpanic
      | Some kv =>
          let* _ := processKV kv in
          let* end_ := nextKey in
          if (end_ : bool) then let* f := fget in mret f.(f_doc) else FetchNext_loop fuel
      end
  end.

(** The code returns a pointer to the document of the fetcher, which the next call
    overwrites; its callers decode the document before. *)
Definition FetchNext : M (S * fetcher) (option encodedDocument) :=
  let* f := fget in
  if f.(f_kvEnd) then mret None else
  match f.(f_kv) with
  | None => mfail NewErrUninitializeProperty
  | Some _ => FetchNext_loop (Datatypes.S (length (default [] f.(f_results))))
  end.

(** [start]; the spans are absent when the whole collection is scanned. *)
Definition fetcher_start (spans : option (list span)) (withDeleted : bool) : M (S * fetcher) unit :=
  let* f := fget in
  match f.(f_col), f.(f_doc) with
  | Some col, Some _ =>
      let flag := if withDeleted then WithDeletedFlag else WithValueFlag in
      let* spans :=
        match spans with
        | None =>
            let start := flag (MakeCollectionKey col) in
            mret [Some (NewSpan start (PrefixEnd start))]
        | Some l =>
            let* merged := mlift (MergeAscending ((fun sp => NewSpan (flag sp.(Start)) (flag sp.(End))) <$> l)) in
            mret (if f.(f_reverse) then rev merged else merged)
        end in
      let* _ := fmod (fun f => set_spans f spans) in
      let* _ := startNextSpan in
      mret tt
  | _, _ => mfail NewErrUninitializeProperty
  end.

(** Calling [FetchNext] until it returns nothing. *)
Fixpoint drain (n : nat) : M (S * fetcher) (list encodedDocument) :=
  match n with
  | O => mpanic
  | Datatypes.S n =>
      let* r := FetchNext in
      match r with
      | None => mret []
      | Some doc => let* docs := drain n in mret (doc :: docs)
      end
  end.
End Fetch.

(** ** The fetcher of a collection, with its deleted documents *)

Record DocumentFetcher := mkDocumentFetcher {
  df_active : fetcher;
  df_deleted : option fetcher;
}.

Definition on_active {S A} (m : M (S * fetcher) A) : M (S * DocumentFetcher) A := fun s =>
  let '((s1, f), r) := m (s.1, s.2.(df_active)) in ((s1, mkDocumentFetcher f s.2.(df_deleted)), r).

Definition on_deleted {S A} (ddf : fetcher) (m : M (S * fetcher) A) : M (S * DocumentFetcher) A := fun s =>
  let '((s1, f), r) := m (s.1, ddf) in ((s1, mkDocumentFetcher s.2.(df_active) (Some f)), r).

Definition fetcher_Init (col : CollectionDescription) (reverse showDeleted : bool) (df : DocumentFetcher)
    : result DocumentFetcher :=
  if IsEmpty col.(cd_Schema) then Err NewErrUninitializeProperty else
  let active := fetcher_init col reverse df.(df_active) in
  if showDeleted
  then Ok (mkDocumentFetcher active (Some (fetcher_init col reverse (default new_fetcher df.(df_deleted)))))
  else Ok (mkDocumentFetcher active df.(df_deleted)).

Section FetchDoc.
Context {S : Type} `{Iterable S} `{DsKey} `{CborAny}.

Definition dget : M (S * DocumentFetcher) DocumentFetcher := fun s => (s, Ok s.2).

Definition Fetcher_Start (spans : option (list span)) : M (S * DocumentFetcher) unit :=
  let* _ := on_active (fetcher_start spans false) in
  let* df := dget in
  match df.(df_deleted) with
  | None => mret tt
  | Some ddf => on_deleted ddf (fetcher_start spans true)
  end.

(** Whether the next deleted document comes before the next active one. *)
Definition deleted_first (reverse : bool) (df ddf : fetcher) : result bool :=
  if df.(f_kvEnd) then Ok true else
  match ddf.(f_kv), df.(f_kv) with
  | Some dkv, Some kv =>
      let d := dkv.(kv_Key).(DocKey) in
      let a := kv.(kv_Key).(DocKey) in
      Ok (if reverse then String.ltb a d else String.ltb d a)
  | _, _ => Panic
  end.

Definition FetchNextDoc (mapping : DocumentMapping) : M (S * DocumentFetcher) (option (bytes * Doc)) :=
  let* df := dget in
  let* deleted :=
    match df.(df_deleted) with
    | None => mret None
    | Some ddf =>
        if ddf.(f_kvEnd) then mret None else
        let* first := mlift (deleted_first df.(df_active).(f_reverse) df.(df_active) ddf) in
        if (first : bool) then on_deleted ddf FetchNext else mret None
    end in
  let* r :=
    match deleted with
    | Some encdoc => mret (Some (encdoc, Deleted))
    | None =>
        let* active := on_active FetchNext in
        mret (match active with Some encdoc => Some (encdoc, Active) | None => None end)
    end in
  match r with
  | None => mret None
  | Some (encdoc, status) =>
      let* doc := mlift (DecodeToDoc encdoc mapping) in
      mret (Some (default "" encdoc.(ed_Key), mkDoc (Hidden doc) (Fields doc) status))
  end.

(** Calling [FetchNextDoc] until it returns nothing. *)
Fixpoint drainDocs (n : nat) (mapping : DocumentMapping) : M (S * DocumentFetcher) (list (bytes * Doc)) :=
  match n with
  | O => mpanic
  | Datatypes.S n =>
      let* r := FetchNextDoc mapping in
      match r with
      | None => mret []
      | Some doc => let* docs := drainDocs n mapping in mret (doc :: docs)
      end
  end.
End FetchDoc.

(** ** The documents of a list of entries *)

Abbreviation prop := (FieldDescription * encProperty)%type.
Abbreviation row := (string * option prop)%type.

(** What an entry says: a document, and one of its fields unless it is the marker of an
    object. *)
Definition kv_row (fields : gmap Z FieldDescription) (kv : KeyValue) : option row :=
  if value_or_deleted kv then
    if String.eqb kv.(kv_Value) (String ObjectMarker "") then Some (kv.(kv_Key).(DocKey), None)
    else match FieldID kv.(kv_Key) with
         | Ok id => match fields !! id with
                    | Some fd => Some (kv.(kv_Key).(DocKey), Some (fd, mkEncProperty fd kv.(kv_Value)))
                    | None => None
                    end
         | _ => None
         end
  else None.

Definition row_of (fields : gmap Z FieldDescription) (e : string * bytes) : option row :=
  match NewDataStoreKey e.1 with
  | Ok key => kv_row fields (mkKeyValue key e.2)
  | _ => None
  end.

Definition add_prop (ps : list prop) (p : option prop) : list prop :=
  match p with Some (f, p) => put_prop ps f p | None => ps end.

(** Consecutive entries of one document make up the document. *)
Fixpoint docs_from (d : string) (ps : list prop) (rows : list row) : list encodedDocument :=
  match rows with
  | [] => [mkEncoded (Some d) ps]
  | (d', p) :: rows =>
      if String.eqb d' d then docs_from d (add_prop ps p) rows
      else mkEncoded (Some d) ps :: docs_from d' (add_prop [] p) rows
  end.

Definition docs_of (rows : list row) : list encodedDocument :=
  match rows with
  | [] => []
  | (d, p) :: rows => docs_from d (add_prop [] p) rows
  end.

(** The remaining rows of a span, behind empty spans. *)
Fixpoint skip_empty (L : list (list row)) : list (list row) :=
  match L with
  | [] :: L => skip_empty L
  | _ => L
  end.

(** No document has rows in two spans that follow each other. *)
Fixpoint spans_apart (L : list (list row)) : Prop :=
  match L with
  | [] => True
  | rows :: L =>
      (forall r r', last rows = Some r -> head (concat L) = Some r' -> r.1 <> r'.1) /\ spans_apart L
  end.

(** ** Runs of a fetcher *)

Section FetchSpec.
Context {S : Type} `{LawfulDatastore S} `{!Iterable S} `{!LawfulIterable S} `{DsKey}.

(** [fsteps m s f r f']: run with the fetcher, or pair of fetchers, [f], [m] returns [r],
    leaves [f'] and changes nothing in the store. *)
Definition fsteps {T A} (m : M (S * T) A) (s : S) (f : T) (r : result A) (f' : T) : Prop :=
  (m (s, f)).2 = r /\ (m (s, f)).1.2 = f' /\ view (m (s, f)).1.1 = view s /\ rest (m (s, f)).1.1 = rest s.

Lemma fsteps_bind {T A B} (m : M (S * T) A) (k : A -> M (S * T) B) s f x f1 r f' :
  fsteps m s f (Ok x) f1 ->
  (forall s1, view s1 = view s -> fsteps (k x) s1 f1 r f') ->
  fsteps (mbind m k) s f r f'.
Proof.
  unfold fsteps, mbind. destruct (m (s, f)) as [[s1 g] q]. cbn. intros (-> & -> & Hv & Hr) Hk.
  destruct (Hk s1 Hv) as (E1 & E2 & E3 & E4). by rewrite E1, E2, E3, E4, Hv, Hr.
Qed.

(** The state between two computations. *)
Lemma fsteps_then {T A} (m : M (S * T) A) s f x f1 :
  fsteps m s f (Ok x) f1 ->
  exists s1, view s1 = view s /\
    forall B (k : A -> M (S * T) B) r f', fsteps (k x) s1 f1 r f' -> fsteps (mbind m k) s f r f'.
Proof.
  unfold fsteps, mbind. destruct (m (s, f)) as [[s1 g] q]. cbn. intros (-> & -> & Hv & Hr).
  exists s1. split; [done|]. intros B k r f' (E1 & E2 & E3 & E4). by rewrite E1, E2, E3, E4, Hv, Hr.
Qed.

Lemma fsteps_get s f : fsteps fget s f (Ok f) f.
Proof. done. Qed.

Lemma fsteps_mod u s f : fsteps (fmod u) s f (Ok tt) (u f).
Proof. done. Qed.

Lemma fsteps_ret {T A} (x : A) s (f : T) : fsteps (mret x) s f (Ok x) f.
Proof. done. Qed.

Lemma fsteps_lift {T A} (r : result A) s (f : T) : fsteps (mlift r) s f r f.
Proof. done. Qed.

Lemma fsteps_try {T A} (m : M (S * T) A) s f x f' :
  fsteps m s f (Ok x) f' -> fsteps (mtry m) s f (Ok (inl x)) f'.
Proof. unfold fsteps, mtry. destruct (m (s, f)) as [[s1 g] q]. cbn. by intros (-> & -> & Hv & Hr). Qed.

Lemma fsteps_store {T A} (m : M S A) s (f : T) r : steps m s (view s) r -> fsteps (on_store m) s f r f.
Proof. unfold steps, fsteps, on_store. cbn. destruct (m s) as [s1 q]. cbn. by intros (-> & -> & ->). Qed.

Lemma fsteps_bind_get {B} (k : fetcher -> M (S * fetcher) B) s f r f' :
  fsteps (k f) s f r f' -> fsteps (mbind fget k) s f r f'.
Proof. done. Qed.

Lemma fsteps_bind_mod {B} u (k : unit -> M (S * fetcher) B) s f r f' :
  fsteps (k tt) s (u f) r f' -> fsteps (mbind (fmod u) k) s f r f'.
Proof. done. Qed.

(** What the operations of a fetcher leave alone. *)
Record keeps (f f' : fetcher) : Prop := {
  kp_col : f'.(f_col) = f.(f_col);
  kp_reverse : f'.(f_reverse) = f.(f_reverse);
  kp_fields : f'.(f_schemaFields) = f.(f_schemaFields);
  kp_spans : f'.(f_spans) = f.(f_spans);
}.

Lemma fetcher_keeps_trans f g h : keeps f g -> keeps g h -> keeps f h.
Proof. intros [? ? ? ?] [? ? ? ?]. split; congruence. Qed.

Variables (V : contents) (fields : gmap Z FieldDescription).

(** A span from a prefix to its end, whose entries can be read as rows. *)
Definition span_rows (sp : option span) (rows : list row) : Prop :=
  exists sp' p, sp = Some sp' /\ ToDS sp'.(Start) = p /\ ToDS sp'.(End) = bytesPrefixEnd p /\
    clean_key p = true /\ clean_key (bytesPrefixEnd p) = true /\ only_below V p /\
    mapM (row_of fields) (entries_below V p) = Some rows.

(** The fetcher over the schema [fields], its documents in ascending order. *)
Record fetching (f : fetcher) (rows : list row) (rowss : list (list row)) : Prop := {
  fe_fields : f.(f_schemaFields) = fields;
  fe_reverse : f.(f_reverse) = false;
  fe_cur : -1 <= f.(f_curSpanIndex);
  fe_results : exists es, f.(f_results) = Some (Ok <$> es) /\ mapM (row_of fields) es = Some rows;
  fe_rest : Forall2 span_rows (rest_spans f) rowss;
}.

(** It has read the row [r], and the rows [rows] and then those of [rowss] follow. *)
Record stands (f : fetcher) (r : row) (rows : list row) (rowss : list (list row)) : Prop := {
  st_fetching : fetching f rows rowss;
  st_end : f.(f_kvEnd) = false;
  st_kv : exists kv, f.(f_kv) = Some kv /\ kv_row fields kv = Some r;
}.

Definition same_doc (doc : encodedDocument) (r : row) : bool :=
  match doc.(ed_Key) with Some k => String.eqb r.1 k | None => true end.

Lemma kv_row_inv kv r : kv_row fields kv = Some r -> value_or_deleted kv = true /\ r.1 = kv.(kv_Key).(DocKey).
Proof. unfold kv_row. intros E. repeat case_split_in E; naive_solver. Qed.

(** Reading an entry that is there. *)
Lemma nextKV_row s f e es r :
  f.(f_results) = Some (Ok <$> e :: es) -> row_of fields e = Some r ->
  exists kv, kv_row fields kv = Some r /\
    fsteps nextKV s f (Ok (false, Some kv)) (set_results f (Some (Ok <$> es))).
Proof.
  intros Hr He. unfold row_of in He. destruct e as [k v]. cbn [fst snd] in He.
  destruct (NewDataStoreKey k) as [key| |] eqn:Ek; [|done..]. exists (mkKeyValue key v). split; [done|].
  unfold nextKV. apply fsteps_bind_get. rewrite Hr. cbn [fmap list_fmap]. apply fsteps_bind_mod.
  unfold fsteps, mbind, mlift, mret. rewrite Ek. done.
Qed.

(** What [nextKey] reaches from rows that are left. *)
Definition reached (doc : encodedDocument) (rows : list row) (rowss : list (list row)) (f : fetcher) (b : bool)
    (f' : fetcher) : Prop :=
  match skip_empty (rows :: rowss) with
  | (r :: rows') :: rowss' =>
      stands f' r rows' rowss' /\ f'.(f_isReading) = f.(f_isReading) && same_doc doc r /\
      b = match rows with [] => true | _ => negb (same_doc doc r) end
  | _ => f'.(f_kvEnd) = true /\ b = true
  end.

Lemma mapM_row_cons es r rows :
  mapM (row_of fields) es = Some (r :: rows) ->
  exists e es', es = e :: es' /\ row_of fields e = Some r /\ mapM (row_of fields) es' = Some rows.
Proof.
  destruct es as [|e es]; [done|]. cbn. destruct (row_of fields e) eqn:E1; [|done]. cbn.
  destruct (mapM _ es) eqn:E2; [|done]. cbn. intros [= -> ->]. naive_solver.
Qed.

Lemma mapM_row_nil es : mapM (row_of fields) es = Some [] -> es = [].
Proof.
  destruct es as [|e es]; [done|]. cbn. destruct (row_of fields e); [|done]. cbn. by destruct (mapM _ es).
Qed.

Lemma rest_spans_next f sp rest : -1 <= f.(f_curSpanIndex) ->
  rest_spans f = sp :: rest -> drop (Z.to_nat (f.(f_curSpanIndex) + 1 + 1)) f.(f_spans) = rest.
Proof.
  unfold rest_spans. intros Hc E. replace (Z.to_nat (f_curSpanIndex f + 1 + 1)) with (1 + Z.to_nat (f_curSpanIndex f + 1))%nat by lia.
  by rewrite <- (skipn_skipn 1), E.
Qed.

(** The rows of the current span go on. *)
Lemma nextKey_row rest s f r rows rowss doc :
  fetching f (r :: rows) rowss -> f.(f_doc) = Some doc ->
  exists f', fsteps (nextKey_from rest) s f (Ok (negb (same_doc doc r))) f' /\ keeps f f' /\ f'.(f_doc) = Some doc /\
    stands f' r rows rowss /\ f'.(f_isReading) = f.(f_isReading) && same_doc doc r.
Proof.
  intros [Hf Hr Hc (es & He & Hm) Hrest] Hd. apply mapM_row_cons in Hm as (e & es' & -> & Hrow & Hm).
  destruct (nextKV_row s f e es' r He Hrow) as (kv & Hkv & Hn).
  destruct (kv_row_inv kv r Hkv) as [Hvd Hdoc].
  set (f1 := set_kvEnd (set_kv (set_results f (Some (Ok <$> es'))) (Some kv)) false).
  assert (stands f1 r rows rowss) as Hst by (split; [split; eauto|done|by exists kv]).
  assert (forall r' f', fsteps (match doc.(ed_Key) with
       | Some key => if String.eqb kv.(kv_Key).(DocKey) key then mret false
                     else let* _ := fmod (fun f => set_reading f false) in mret true
       | None => mret false end) s f1 r' f' -> fsteps (nextKey_from rest) s f r' f') as Hrun.
  { intros r' f' Hrun. destruct rest; cbn [nextKey_from];
      (eapply fsteps_bind; [apply fsteps_try, Hn|]; intros s1 Es1; unfold fsteps, mbind, fmod, fget; cbn;
       rewrite Hvd; cbn; rewrite Hd; revert Hrun; unfold fsteps, mbind, fmod;
       destruct (ed_Key doc); [destruct (String.eqb _ _)|]; cbn; naive_solver). }
  unfold same_doc. rewrite Hdoc. destruct (ed_Key doc) as [key|].
  - destruct (String.eqb (DocKey (kv_Key kv)) key).
    + exists f1. split; [by apply Hrun|]. split; [done|]. split; [done|]. split; [done|]. cbn. by rewrite Bool.andb_true_r.
    + exists (set_reading f1 false). split; [by apply Hrun|]. split; [done|]. split; [done|]. split.
      * destruct Hst as [[? ? ? ? ?] ? ?]. split; [split; eauto|done|done].
      * cbn. by rewrite Bool.andb_false_r.
  - exists f1. split; [by apply Hrun|]. split; [done|]. split; [done|]. split; [done|]. cbn. by rewrite Bool.andb_true_r.
Qed.

(** Starting a span: its rows are there to be read. *)
Lemma startSpan_spec sp rows rowss rest s f :
  view s = V -> f.(f_schemaFields) = fields -> f.(f_reverse) = false -> -1 <= f.(f_curSpanIndex) ->
  rest_spans f = sp :: rest -> span_rows sp rows -> Forall2 span_rows rest rowss ->
  exists s1 f1, view s1 = V /\ fetching f1 rows rowss /\ rest_spans f1 = rest /\ keeps f f1 /\
    f1.(f_doc) = f.(f_doc) /\ f1.(f_isReading) = f.(f_isReading) /\
    forall next b f', fsteps next s1 f1 (Ok b) f' -> fsteps (startSpan sp next) s f (Ok true) f'.
Proof.
  intros Hs Hf Hr Hc Hrest (sp' & p & -> & Ep & Ee & Hp & He & Hb & Hm) Hrs.
  rewrite <- Hs in Hb. pose proof (law_Iterate p s Hp He Hb) as L. rewrite Hs in L.
  unfold steps in L. destruct (IteratePrefix false p (bytesPrefixEnd p) s) as [s1 q] eqn:E. cbn in L.
  destruct L as (-> & Hv & Hrest1).
  pose proof (rest_spans_next f _ _ Hc Hrest) as Hn.
  exists s1, (set_curSpan (set_results (set_kvIter f) (Some (Ok <$> entries_below V p))) (f_curSpanIndex f + 1)).
  repeat match goal with |- _ /\ _ => split end; try done.
  - split; [done..|cbn; lia|by eexists|]. unfold rest_spans. cbn. by rewrite Hn.
  - intros next b f'. unfold fsteps, startSpan, mbind, fmod, fget, mtry, on_store. cbn.
    rewrite Hr, Ep, Ee, E. cbn. destruct (next _) as [[s2 g] q2]. cbn.
    intros (-> & -> & Hv2 & Hr2). cbn. by rewrite Hv2, Hr2, Hv, Hs.
Qed.

Lemma nextKey_from_spec rest rowss : Forall2 span_rows rest rowss ->
  forall s f rows doc, view s = V -> fetching f rows rowss -> rest_spans f = rest -> f.(f_doc) = Some doc ->
  exists b f', fsteps (nextKey_from rest) s f (Ok b) f' /\ keeps f f' /\ f'.(f_doc) = Some doc /\
    reached doc rows rowss f b f'.
Proof.
  induction 1 as [|sp sprows rest rowss Hsp Hall IH]; intros s f rows doc Hs Hf Hrest Hd;
    (destruct rows as [|r rows];
     [|destruct (nextKey_row (rest_spans f) s f r rows _ doc Hf Hd) as (f' & H2 & H3 & H4 & H5 & H6);
       rewrite Hrest in H2; do 2 eexists; split; [exact H2|]; done]).
  all: pose proof Hf as [_ _ _ (es & He & Hm) _]; apply mapM_row_nil in Hm as ->; cbn [fmap list_fmap] in He.
  all: assert (nextKV (s, f) = ((s, f), Ok (true, None))) as Hn
    by (unfold nextKV, mbind, fget; cbn [fst snd]; by rewrite He).
  - exists true, (set_kvEnd (set_kv f None) true). split; [|done].
    unfold fsteps. cbn [nextKey_from]. unfold mbind, mtry, fmod. by rewrite Hn.
  - set (f0 := set_kvEnd (set_kv f None) true).
    destruct Hf as [Hf Hr Hc _ _].
    destruct (startSpan_spec sp sprows rowss rest s f0 Hs Hf Hr Hc Hrest Hsp Hall) as (s1 & f1 & Hs1 & Hf1 & Hr1 & Hk1 & Hd1 & Hi1 & Hrun).
    destruct (IH s1 f1 sprows doc Hs1 Hf1 Hr1) as (b & f' & Hrun' & Hk & Hd' & Hreach); [by rewrite Hd1|].
    exists true, f'. split; [|split; [apply (fetcher_keeps_trans f f1); [by destruct Hk1|done]|split; [done|]]].
    + assert (nextKey_from (sp :: rest) (s, f) =
        (let* _ := startSpan sp (nextKey_from rest) in mret true) (s, f0)) as E.
      { cbn [nextKey_from]. unfold mbind at 1, mtry. rewrite Hn. done. }
      unfold fsteps. rewrite E. eapply fsteps_bind; [by eapply Hrun|done].
    + revert Hreach. unfold reached. cbn [skip_empty].
      destruct sprows as [|r sprows]; cbn [skip_empty].
      * destruct (skip_empty rowss) as [|[|r' rows'] rowss']; [naive_solver..|]. rewrite Hi1. naive_solver.
      * rewrite Hi1. intros (? & ? & _). naive_solver.
Qed.

(** Processing the row read puts it into the document, which is a new one unless a
    document is being read. *)
Definition doc_base (f : fetcher) (doc : encodedDocument) (r : row) : encodedDocument :=
  if f.(f_isReading) then doc else mkEncoded (Some r.1) [].

Lemma processKV_spec s f kv r rows rowss doc :
  stands f r rows rowss -> f.(f_kv) = Some kv -> f.(f_doc) = Some doc ->
  let base := doc_base f doc r in
  fsteps (processKV kv) s f (Ok tt)
    (set_doc (set_reading f true) (mkEncoded base.(ed_Key) (add_prop base.(ed_Properties) r.2))).
Proof.
  intros [[Hf _ _ _ _] _ (kv' & Hkv & Hrow)] Hkv' Hd. rewrite Hkv' in Hkv. injection Hkv as <-. cbv zeta.
  unfold kv_row in Hrow. destruct (value_or_deleted kv); [|done]. unfold doc_base.
  destruct f as [col rev spans cur flds od okv it res ke rd]. cbn in Hf, Hkv', Hd. subst.
  assert (forall g doc', g.(f_kv) = Some kv -> g.(f_doc) = Some doc' -> g.(f_schemaFields) = fields ->
    fsteps (let* f := fget in
      match f.(f_kv), f.(f_doc) with
      | Some cur, Some doc =>
          if String.eqb cur.(kv_Value) (String ObjectMarker "") then mret tt else
          let* fieldID := mlift (FieldID kv.(kv_Key)) in
          match f.(f_schemaFields) !! fieldID with
          | None => mfail NewErrFieldIdNotFound
          | Some fieldDesc =>
              fmod (fun f => set_doc f (mkEncoded doc.(ed_Key)
                (put_prop doc.(ed_Properties) fieldDesc (mkEncProperty fieldDesc kv.(kv_Value)))))
          end
      | _, _ => mpanic
      end) s g (Ok tt) (set_doc g (mkEncoded doc'.(ed_Key) (add_prop doc'.(ed_Properties) r.2)))) as Hrest.
  { intros g doc' Hg1 Hg2 Hg3. apply fsteps_bind_get. rewrite Hg1, Hg2, Hg3.
    destruct (String.eqb (kv_Value kv) _).
    - injection Hrow as <-. destruct g, doc'. cbn in *. by subst.
    - destruct (FieldID (kv_Key kv)) as [id| |]; [|done..]. unfold fsteps, mbind, mlift. cbn [fst snd].
      destruct (fields !! id); [|done]. by injection Hrow as <-. }
  assert (r.1 = kv.(kv_Key).(DocKey)) as Er.
  { destruct (String.eqb (kv_Value kv) _); [by injection Hrow as <-|].
    destruct (FieldID (kv_Key kv)) as [id| |]; [|done..]. destruct (fields !! id); [|done]. by injection Hrow as <-. }
  unfold processKV. apply fsteps_bind_get. cbn [f_doc f_isReading]. destruct rd.
  - exact (Hrest (mkFetcher col rev spans cur fields (Some doc) (Some kv) it res ke true) doc eq_refl eq_refl eq_refl).
  - apply fsteps_bind_mod. cbn [set_doc set_reading]. rewrite Er.
    exact (Hrest (mkFetcher col rev spans cur fields (Some (mkEncoded (Some kv.(kv_Key).(DocKey)) [])) (Some kv) it res ke true)
      _ eq_refl eq_refl eq_refl).
Qed.

(** Between two documents: the documents that are left. *)
Definition ready (f : fetcher) (docs : list encodedDocument) : Prop :=
  (docs = [] /\ f.(f_kvEnd) = true) \/
  exists r rows rowss doc, stands f r rows rowss /\ f.(f_doc) = Some doc /\ f.(f_isReading) = false /\
    docs = docs_of (r :: rows) ++ concat (docs_of <$> rowss) /\ spans_apart ((r :: rows) :: rowss).

Lemma skip_empty_docs L : concat (docs_of <$> skip_empty L) = concat (docs_of <$> L).
Proof. by induction L as [|[|r rows] L IH]. Qed.

Lemma skip_empty_concat L : concat (skip_empty L) = concat L.
Proof. by induction L as [|[|r rows] L IH]. Qed.

Lemma skip_empty_apart L : spans_apart L -> spans_apart (skip_empty L).
Proof. induction L as [|[|r rows] L IH]; [done| |done]. cbn. intros [_ HL]. auto. Qed.

Lemma skip_empty_head L : match skip_empty L with [] :: _ => False | _ => True end.
Proof. by induction L as [|[|r rows] L IH]. Qed.

Lemma fetching_doc f g rows rowss :
  fetching f rows rowss -> g.(f_schemaFields) = f.(f_schemaFields) -> g.(f_reverse) = f.(f_reverse) ->
  g.(f_curSpanIndex) = f.(f_curSpanIndex) -> g.(f_results) = f.(f_results) -> g.(f_spans) = f.(f_spans) ->
  fetching g rows rowss.
Proof.
  intros [Hf Hr Hc Hes Hrs] E1 E2 E3 E4 E5. split; try congruence.
  - by rewrite E4.
  - unfold rest_spans in *. by rewrite E3, E5.
Qed.

Lemma nextKey_spec s f rows rowss doc :
  view s = V -> fetching f rows rowss -> f.(f_doc) = Some doc ->
  exists b f', fsteps nextKey s f (Ok b) f' /\ keeps f f' /\ f'.(f_doc) = Some doc /\ reached doc rows rowss f b f'.
Proof. intros Hs Hf Hd. apply (nextKey_from_spec (rest_spans f) rowss); [by destruct Hf|done..]. Qed.

Lemma FetchNext_loop_spec rows : forall fuel s f r rowss doc,
  (length rows < fuel)%nat -> view s = V -> stands f r rows rowss -> f.(f_doc) = Some doc ->
  (f.(f_isReading) = true -> doc.(ed_Key) = Some r.1) -> spans_apart ((r :: rows) :: rowss) ->
  exists D Ds f', docs_from r.1 (add_prop (doc_base f doc r).(ed_Properties) r.2) rows = D :: Ds /\
    fsteps (FetchNext_loop fuel) s f (Ok (Some D)) f' /\ keeps f f' /\ ready f' (Ds ++ concat (docs_of <$> rowss)).
Proof.
  induction rows as [|r1 rows IH]; intros [|fuel] s f r rowss doc Hfuel Hs Hst Hd Hread Hap; cbn in Hfuel; try lia.
  all: destruct (st_kv _ _ _ _ Hst) as (kv & Hkv & Hrow).
  all: pose proof (processKV_spec s f kv r _ rowss doc Hst Hkv Hd) as Hp; cbv zeta in Hp.
  all: assert ((doc_base f doc r).(ed_Key) = Some r.1) as Hkey by (unfold doc_base; destruct (f_isReading f); auto).
  all: rewrite Hkey in Hp; set (ps := add_prop (ed_Properties (doc_base f doc r)) r.2) in *.
  all: apply fsteps_then in Hp as (s1 & Es1 & Hp).
  all: set (f1 := set_doc (set_reading f true) (mkEncoded (Some r.1) ps)) in *.
  - destruct (nextKey_spec s1 f1 [] rowss (mkEncoded (Some r.1) ps)) as (b & f' & Hn & Hk & Hd' & Hreach);
      [congruence|by eapply fetching_doc; [apply Hst|..]|done|].
    apply fsteps_then in Hn as (s2 & Es2 & Hn).
    assert (b = true /\ ready f' (concat (docs_of <$> rowss))) as [-> Hready].
    { revert Hreach. unfold reached. cbn [skip_empty]. pose proof (skip_empty_head rowss) as Hh.
      destruct (skip_empty rowss) as [|[|r' rows'] rowss'] eqn:E; [|done|].
      - intros [He ->]. split; [done|]. left. split; [|done]. by rewrite <- skip_empty_docs, E.
      - intros (Hst' & Hrd & ->). split; [done|]. right. exists r', rows', rowss', (mkEncoded (Some r.1) ps).
        destruct Hap as [Hap Hap']. split; [done|]. split; [done|]. split; [|split].
        + rewrite Hrd. apply Bool.andb_false_iff. right. unfold same_doc. cbn. apply String.eqb_neq.
          intros Heq. apply (Hap r r'); [done| |done]. by rewrite <- skip_empty_concat, E.
        + by rewrite <- skip_empty_docs, E.
        + rewrite <- E. by apply skip_empty_apart. }
    exists (mkEncoded (Some r.1) ps), [], f'. split; [done|]. split; [|split; [by destruct Hk|done]].
    cbn [FetchNext_loop]. apply fsteps_bind_get. rewrite Hkv. apply Hp, Hn. cbv beta iota. apply fsteps_bind_get. by rewrite Hd'.
  - destruct (nextKey_spec s1 f1 (r1 :: rows) rowss (mkEncoded (Some r.1) ps)) as (b & f' & Hn & Hk & Hd' & Hreach);
      [congruence|by eapply fetching_doc; [apply Hst|..]|done|].
    apply fsteps_then in Hn as (s2 & Es2 & Hn).
    unfold reached in Hreach. cbn [skip_empty] in Hreach. destruct Hreach as (Hst' & Hrd & ->).
    unfold same_doc in Hrd, Hn. cbn in Hrd, Hn.
    assert (spans_apart ((r1 :: rows) :: rowss)) as Hap' by (destruct Hap as [Hap Hap']; split; [exact Hap|done]).
    destruct r1 as [d1 p1]. cbn [docs_from]. cbn in Hrd, Hn. destruct (String.eqb d1 r.1) eqn:Eq.
    + apply String.eqb_eq in Eq as ->.
      destruct (IH fuel s2 f' (r.1, p1) rowss (mkEncoded (Some r.1) ps)) as (D & Ds & f2 & HD & Hrun & Hk2 & Hready);
        [lia|congruence|done|done|done|done|].
      unfold doc_base in HD. rewrite Hrd in HD. cbn in HD. exists D, Ds, f2. split; [done|].
      split; [|split; [|done]].
      * cbn [FetchNext_loop]. apply fsteps_bind_get. rewrite Hkv. apply Hp, Hn. exact Hrun.
      * apply (fetcher_keeps_trans f f'); [by destruct Hk|done].
    + exists (mkEncoded (Some r.1) ps), (docs_from d1 (add_prop [] p1) rows), f'. split; [done|].
      split; [|split; [by destruct Hk|]].
      * cbn [FetchNext_loop]. apply fsteps_bind_get. rewrite Hkv. apply Hp, Hn. cbv beta iota. apply fsteps_bind_get. by rewrite Hd'.
      * right. exists (d1, p1), rows, rowss, (mkEncoded (Some r.1) ps). done.
Qed.

(** [FetchNext] returns the next document, or nothing when none is left. *)
Lemma FetchNext_spec s f docs :
  view s = V -> ready f docs ->
  match docs with
  | [] => fsteps FetchNext s f (Ok None) f
  | D :: docs => exists f', fsteps FetchNext s f (Ok (Some D)) f' /\ keeps f f' /\ ready f' docs
  end.
Proof.
  intros Hs [[-> He]|(r & rows & rowss & doc & Hst & Hd & Hrd & -> & Hap)].
  - unfold FetchNext. apply fsteps_bind_get. by rewrite He.
  - pose proof (st_kv _ _ _ _ Hst) as (kv & Hkv & Hrow).
    destruct (fe_results _ _ _ (st_fetching _ _ _ _ Hst)) as (es & Hes & Hm).
    destruct (FetchNext_loop_spec rows (Datatypes.S (length es)) s f r rowss doc) as (D & Ds & f' & HD & Hrun & Hk & Hready);
      [|done..|by rewrite Hrd|done|].
    { apply mapM_Some_1, Forall2_length in Hm. lia. }
    unfold doc_base in HD. rewrite Hrd in HD. destruct r as [d p]. cbn [fst snd ed_Properties] in HD. cbn [docs_of]. rewrite HD. cbn [app].
    exists f'. split; [|done]. unfold FetchNext. apply fsteps_bind_get. rewrite (st_end _ _ _ _ Hst), Hkv, Hes. cbn [default].
    unfold default. cbn. by rewrite length_fmap.
Qed.

(** A fetcher that was initialised and not started. *)
Record fresh (f : fetcher) : Prop := {
  fr_fields : f.(f_schemaFields) = fields;
  fr_reverse : f.(f_reverse) = false;
  fr_doc : f.(f_doc) = Some ed_zero;
  fr_reading : f.(f_isReading) = false;
}.

Lemma startNextSpan_spec s f sps rowss :
  view s = V -> fresh f -> Forall2 span_rows sps rowss -> spans_apart rowss -> sps <> [] ->
  exists b f', fsteps startNextSpan s (set_spans f sps) (Ok b) f' /\ f'.(f_reverse) = false /\
    ready f' (concat (docs_of <$> rowss)).
Proof.
  intros Hs [Hf Hr Hd Hi] Hall Hap Hne. set (f0 := set_spans f sps).
  destruct Hall as [|sp rows sps rowss Hsp Hall]; [done|].
  destruct (startSpan_spec sp rows rowss sps s f0 Hs Hf Hr ltac:(done) eq_refl Hsp Hall) as (s1 & f1 & Hs1 & Hf1 & Hr1 & Hk1 & Hd1 & Hi1 & Hrun).
  destruct (nextKey_from_spec sps rowss Hall s1 f1 rows ed_zero Hs1 Hf1 Hr1) as (b & f' & Hn & Hk & Hd' & Hreach);
    [rewrite Hd1; exact Hd|].
  exists true, f'. split; [exact (Hrun _ _ _ Hn)|]. split; [by rewrite (kp_reverse _ _ Hk), (kp_reverse _ _ Hk1)|].
  unfold reached in Hreach. pose proof (skip_empty_head (rows :: rowss)) as Hh.
  rewrite <- (skip_empty_docs (rows :: rowss)).
  destruct (skip_empty (rows :: rowss)) as [|[|r' rows'] rowss'] eqn:E; [|done|].
  - left. destruct Hreach as [He _]. by rewrite He.
  - right. destruct Hreach as (Hst & Hrd & _). exists r', rows', rowss', ed_zero. split; [done|]. split; [done|].
    split; [rewrite Hrd, Hi1; cbn; by rewrite Hi|]. split; [done|]. rewrite <- E. by apply skip_empty_apart.
Qed.

Lemma drain_spec docs : forall n s f, view s = V -> ready f docs -> (length docs < n)%nat ->
  exists f', fsteps (drain n) s f (Ok docs) f'.
Proof.
  induction docs as [|D docs IH]; intros [|n] s f Hs Hready Hn; cbn in Hn; try lia;
    pose proof (FetchNext_spec s f _ Hs Hready) as HF.
  - exists f. cbn [drain]. by eapply fsteps_bind; [exact HF|].
  - destruct HF as (f1 & HF & _ & Hready1). apply fsteps_then in HF as (s1 & Es1 & HF).
    destruct (IH n s1 f1) as [f' Hd]; [congruence|done|lia|]. exists f'. cbn [drain]. apply HF.
    by eapply fsteps_bind; [exact Hd|].
Qed.
End FetchSpec.

(** ** Documents of sorted rows *)

Definition row_le (r r' : row) : Prop := r.1 <=s r'.1.

Definition rows_at (d : string) (rows : list row) : list row := List.filter (fun r => String.eqb r.1 d) rows.

Definition doc_at (rows : list row) (d : string) : encodedDocument :=
  mkEncoded (Some d) (foldl add_prop [] (rows_at d rows).*2).

Lemma rows_at_cons d d' p rows :
  rows_at d ((d', p) :: rows) = if String.eqb d' d then (d', p) :: rows_at d rows else rows_at d rows.
Proof. done. Qed.

Lemma doc_at_cons d' p rows x : d' <> x -> doc_at ((d', p) :: rows) x = doc_at rows x.
Proof. intros Hne. unfold doc_at. rewrite rows_at_cons. destruct (String.eqb_spec d' x); [congruence|done]. Qed.

Lemma doc_at_tail d p rows ds : StronglySorted str_lt (d :: ds) -> doc_at ((d, p) :: rows) <$> ds = doc_at rows <$> ds.
Proof.
  intros Hss. apply list_fmap_ext. intros i x Hx%list_elem_of_lookup_2. apply doc_at_cons. intros ->.
  apply StronglySorted_inv in Hss as [_ Hlt]. rewrite Forall_forall in Hlt. by apply Hlt, str_lt_irrefl in Hx.
Qed.

Lemma rows_at_none d rows : d ∉ rows.*1 -> rows_at d rows = [].
Proof.
  induction rows as [|r rows IH]; [done|]. cbn. rewrite not_elem_of_cons. intros [Hd Hn].
  destruct (String.eqb_spec r.1 d); [congruence|]. by apply IH.
Qed.

Lemma docs_from_sorted rows : forall d ps, StronglySorted row_le rows -> (forall r, r ∈ rows -> d <=s r.1) ->
  exists ds, StronglySorted str_lt (d :: ds) /\ (forall x, x ∈ d :: ds <-> x = d \/ x ∈ rows.*1) /\
    docs_from d ps rows = mkEncoded (Some d) (foldl add_prop ps (rows_at d rows).*2) :: (doc_at rows <$> ds).
Proof.
  induction rows as [|[d' p] rows IH]; intros d ps Hs Hd.
  - exists []. split; [repeat constructor|]. split; [|done]. intros x. cbn. set_solver.
  - apply StronglySorted_inv in Hs as [Hs Hall]. rewrite Forall_forall in Hall. cbn [docs_from].
    destruct (String.eqb_spec d' d) as [->|Hne].
    + destruct (IH d (add_prop ps p) Hs) as (ds & Hss & Hin & E); [intros r Hr; by apply (Hall r)|].
      exists ds. split; [done|]. split; [intros x; rewrite Hin; cbn; set_solver|].
      rewrite E, doc_at_tail, rows_at_cons, String.eqb_refl by done. done.
    + assert (d <s d') as Hlt by (destruct (proj1 (str_le_eq _ _) (Hd (d', p) ltac:(left))); naive_solver).
      destruct (IH d' (add_prop [] p) Hs) as (ds & Hss & Hin & E); [intros r Hr; by apply (Hall r)|].
      exists (d' :: ds). split; [|split].
      * constructor; [done|]. constructor; [done|]. apply StronglySorted_inv in Hss as [_ Hlt'].
        eapply Forall_impl; [exact Hlt'|]. intros x. by apply str_lt_trans.
      * intros x. rewrite elem_of_cons, Hin. cbn. set_solver.
      * assert (rows_at d rows = []) as Hnone.
        { apply rows_at_none. intros Hx. apply list_elem_of_fmap in Hx as (r & -> & Hr).
          apply (str_lt_irrefl r.1). eapply str_lt_le_trans; [exact Hlt|]. by apply (Hall r). }
        rewrite E, rows_at_cons. destruct (String.eqb_spec d' d); [done|]. rewrite Hnone.
        cbn [fmap list_fmap]. rewrite doc_at_tail by done. unfold doc_at at 2. rewrite rows_at_cons, String.eqb_refl. done.
Qed.

(** Rows sorted by document give each document once, in order, with all its rows. *)
Lemma docs_of_sorted rows : StronglySorted row_le rows ->
  exists ds, StronglySorted str_lt ds /\ (forall d, d ∈ ds <-> d ∈ rows.*1) /\ docs_of rows = doc_at rows <$> ds.
Proof.
  destruct rows as [|[d p] rows]; intros Hs; [exists []; split; [constructor|done]|].
  apply StronglySorted_inv in Hs as [Hs Hall]. rewrite Forall_forall in Hall.
  destruct (docs_from_sorted rows d (add_prop [] p) Hs) as (ds & Hss & Hin & E); [intros r Hr; by apply (Hall r)|].
  exists (d :: ds). split; [done|]. split; [intros x; rewrite Hin; cbn; set_solver|].
  cbn [docs_of fmap list_fmap]. rewrite E, doc_at_tail by done. unfold doc_at at 2. rewrite rows_at_cons, String.eqb_refl. done.
Qed.

(** Rows of distinct fields are the properties of the document. *)
Lemma put_prop_fresh ps f p : f ∉ ps.*1 -> put_prop ps f p = ps ++ [(f, p)].
Proof.
  induction ps as [|[g q] ps IH]; [done|]. cbn. rewrite not_elem_of_cons. intros [Hg Hn].
  rewrite decide_False by done. by rewrite IH.
Qed.

Lemma foldl_add_prop l : forall ps, NoDup (ps.*1 ++ (omap id l).*1) -> foldl add_prop ps l = ps ++ omap id l.
Proof.
  induction l as [|[[f p]|] l IH]; intros ps Hnd; cbn; [by rewrite app_nil_r| |by apply IH].
  cbn in Hnd. rewrite put_prop_fresh.
  - rewrite IH; [by rewrite <- app_assoc|]. by rewrite fmap_app, <- app_assoc.
  - apply NoDup_app in Hnd as (_ & Hd & _). intros Hin. apply (Hd f Hin). left.
Qed.

(** ** Documents as they are stored *)

Lemma str_lt_app s t x y : s <s t -> ~ str_prefix s t -> s +:+ x <s t +:+ y.
Proof.
  revert t. induction s as [|a s IH]; intros [|b t] Hlt Hn; [by apply str_lt_irrefl in Hlt|..].
  - exfalso. apply Hn. by eexists.
  - by apply str_lt_nil_r in Hlt.
  - rewrite !str_app_cons. rewrite str_lt_cons in Hlt |- *. destruct Hlt as [?|[-> Hlt]]; [by left|]. right. split; [done|].
    apply IH; [done|]. intros [u ->]. apply Hn. exists u. done.
Qed.

Lemma below_path ws vs w : below (path_of ws) (path_of (ws ++ w :: vs)).
Proof. exists (w +:+ path_of vs). rewrite path_of_app. cbn [path_of]. by rewrite !str_app_assoc. Qed.

Lemma mapM_omap {A B} (f : A -> option B) l : (forall x, x ∈ l -> is_Some (f x)) -> mapM f l = Some (omap f l).
Proof.
  induction l as [|x l IH]; intros Hf; [done|]. destruct (Hf x ltac:(left)) as [y Hy]. cbn. rewrite Hy. cbn.
  rewrite IH; [done|]. intros z Hz. apply Hf. by right.
Qed.

Lemma Sprint_free z : free_of "/" (Sprint z) = true.
Proof. apply (Cid_String_free (CidOps := KeyInstances.CidOps_N)). Qed.

Lemma free_prefix_eq d d' x y : free_of "/" d = true -> free_of "/" d' = true ->
  d +:+ "/" +:+ x = d' +:+ "/" +:+ y -> d = d'.
Proof.
  intros Hd Hd' E. apply (f_equal (fun s => Split s "/")) in E. change ("/" +:+ x) with (String "/" x) in E.
  change ("/" +:+ y) with (String "/" y) in E. rewrite !Split_app in E by done. by injection E.
Qed.

(** A string without a slash that begins a path begins its first element. *)
Lemma free_app_prefix d d' t x : free_of "/" d = true -> free_of "/" d' = true ->
  d' +:+ "/" +:+ x = d +:+ t -> str_prefix d d'.
Proof.
  revert d'. induction d as [|c d IH]; intros d' Hd Hd' E; [by exists d'|]. cbn in Hd. apply Bool.andb_true_iff in Hd as [Hc Hd].
  destruct d' as [|c' d'].
  - rewrite !str_app_cons in E. injection E as <- _. done.
  - rewrite !str_app_cons in E. injection E as -> E. cbn in Hd'. apply Bool.andb_true_iff in Hd' as [_ Hd'].
    destruct (IH d' Hd Hd' E) as [u ->]. by exists u.
Qed.

Lemma omap_sorted {A B} (R : A -> A -> Prop) (R' : B -> B -> Prop) (f : A -> option B) l :
  StronglySorted R l ->
  (forall x y x' y', x ∈ l -> y ∈ l -> R x y -> f x = Some x' -> f y = Some y' -> R' x' y') ->
  StronglySorted R' (omap f l).
Proof.
  induction 1 as [|x l Hs IH Hall]; intros HR; [constructor|]. cbn.
  assert (StronglySorted R' (omap f l)) as HS by (apply IH; intros y z y' z' Hy Hz; apply HR; by right).
  destruct (f x) as [x'|] eqn:E; [|done]. constructor; [done|]. apply Forall_forall.
  intros y' (y & Hy & Ey)%list_elem_of_omap. rewrite Forall_forall in Hall. eapply HR; [left|right|..]; eauto.
Qed.

Lemma filter_omap {A B} (p : B -> bool) (q : A -> bool) (f : A -> option B) l :
  (forall x y, x ∈ l -> f x = Some y -> p y = q x) -> List.filter p (omap f l) = omap f (List.filter q l).
Proof.
  induction l as [|x l IH]; intros Hpq; [done|]. cbn.
  assert (List.filter p (omap f l) = omap f (List.filter q l)) as E by (apply IH; intros y z Hy; apply Hpq; by right).
  destruct (f x) as [y|] eqn:Ex.
  - cbn. rewrite (Hpq x y) by (done || left). destruct (q x); cbn; [rewrite Ex, E|]; done.
  - destruct (q x); cbn; [rewrite Ex|]; done.
Qed.

Definition marker : bytes := String ObjectMarker "".

Section Stored.
Variables (V : contents) (fields : gmap Z FieldDescription) (col inst : string).

(** The key of a field of a document. *)
Definition field_key (d : string) (fd : FieldDescription) : string := path_of [col; inst; d; Sprint fd.(fd_ID)].

Definition is_stored (k : string) (d : string) (fd : FieldDescription) : Prop :=
  elem_ok d = true /\ is_u32 fd.(fd_ID) /\ fields !! fd.(fd_ID) = Some fd /\ k = field_key d fd.

(** What lies below the instance type of a collection are the fields of documents, and
    no document key is the beginning of another one. *)
Record stored_wf : Prop := {
  sw_col : elem_ok col = true;
  sw_inst : inst = ValueKey \/ inst = DeletedKey;
  sw_keys : forall k v, V !! k = Some v -> below (path_of [col; inst]) k -> v <> marker /\ exists d fd, is_stored k d fd;
  sw_docs : forall d d' fd fd', elem_ok d = true -> elem_ok d' = true ->
    is_Some (V !! field_key d fd) -> is_Some (V !! field_key d' fd') -> str_prefix d d' -> d = d';
}.

Hypothesis Hwf : stored_wf.

Definition stored_props (d : string) : list prop :=
  omap (fun e => r ← row_of fields e; r.2) (entries_below V (path_of [col; inst; d])).

Lemma field_key_row d fd v k : is_stored k d fd -> v <> marker ->
  row_of fields (k, v) = Some (d, Some (fd, mkEncProperty fd v)).
Proof.
  intros (Hd & Hid & Hfd & ->) Hv. destruct Hwf as [Hc Hi _ _]. unfold row_of, field_key. cbn [fst snd].
  assert (free_of "/" inst = true) as Hif by (destruct Hi as [-> | ->]; done).
  rewrite NewDataStoreKey_path.
  2:{ repeat constructor; auto using elem_ok_free, Sprint_free. }
  unfold kv_row, value_or_deleted. cbn [kv_Key kv_Value InstanceType DocKey].
  assert (String.eqb inst ValueKey || String.eqb inst DeletedKey = true) as -> by (destruct Hi as [-> | ->]; done).
  destruct (String.eqb_spec v (String ObjectMarker "")); [done|].
  unfold FieldID. cbn [FieldId]. rewrite Atoi_Sprint, u32_small by done. by rewrite Hfd.
Qed.

Lemma entry_stored p k v : (k, v) ∈ entries_below V p -> (forall x, below p x -> below (path_of [col; inst]) x) ->
  V !! k = Some v /\ below p k /\ v <> marker /\ exists d fd, is_stored k d fd.
Proof.
  intros [Hm Hb]%elem_of_entries_below Hp. split; [done|]. split; [done|].
  by apply (sw_keys Hwf k v Hm), Hp.
Qed.

Lemma field_key_inj d d' fd fd' : elem_ok d = true -> elem_ok d' = true -> is_u32 fd.(fd_ID) -> is_u32 fd'.(fd_ID) ->
  field_key d fd = field_key d' fd' -> d = d' /\ fd.(fd_ID) = fd'.(fd_ID).
Proof.
  intros Hd Hd' Hid Hid' E. unfold field_key in E.
  assert (free_of "/" inst = true) as Hif by (destruct (sw_inst Hwf) as [-> | ->]; done).
  pose proof (sw_col Hwf) as Hc. apply path_of_inj in E; [|repeat constructor; auto using elem_ok_free, Sprint_free..].
  injection E as -> E. split; [done|]. pose proof (Atoi_Sprint _ Hid) as E1. rewrite E, Atoi_Sprint in E1 by done. congruence.
Qed.

Definition stored_rows (p : string) : list row := omap (row_of fields) (entries_below V p).

Lemma stored_rows_mapM p : (forall x, below p x -> below (path_of [col; inst]) x) ->
  mapM (row_of fields) (entries_below V p) = Some (stored_rows p).
Proof.
  intros Hp. apply mapM_omap. intros [k v] Hin. apply entry_stored in Hin as (_ & _ & Hv & d & fd & Hst); [|done].
  by rewrite (field_key_row d fd).
Qed.

Lemma field_key_app d fd : field_key d fd = path_of [col; inst] +:+ "/" +:+ d +:+ "/" +:+ Sprint fd.(fd_ID).
Proof. unfold field_key. cbn [path_of]. by autorewrite with go. Qed.

Lemma path_app d x : (path_of [col; inst; d] +:+ "/") +:+ x = path_of [col; inst] +:+ "/" +:+ d +:+ "/" +:+ x.
Proof. cbn [path_of]. by autorewrite with go. Qed.

Lemma below_doc d k : below (path_of [col; inst; d]) k -> below (path_of [col; inst]) k.
Proof. intros [x ->]. rewrite path_app. exists (d +:+ "/" +:+ x). by rewrite str_app_assoc. Qed.

Lemma stored_rows_sorted : StronglySorted row_le (stored_rows (path_of [col; inst])).
Proof.
  apply (omap_sorted key_le); [apply entries_below_sorted|].
  intros [k v] [k' v'] r r' Hk Hk' Hle Hr Hr'.
  apply entry_stored in Hk as (Hm & _ & Hv & d & fd & Hst), Hk' as (Hm' & _ & Hv' & d' & fd' & Hst'); [|done..].
  rewrite (field_key_row d fd) in Hr by done. rewrite (field_key_row d' fd') in Hr' by done.
  injection Hr as <-. injection Hr' as <-. unfold row_le. cbn [fst].
  apply str_le_lt. intros Hlt. assert (~ str_prefix d' d) as Hn.
  { intros Hpre. destruct Hst as (? & _ & _ & ->), Hst' as (? & _ & _ & ->).
    assert (d' = d) as -> by (apply (sw_docs Hwf d' d fd' fd); [done|done|by eexists|by eexists|done]). by apply str_lt_irrefl in Hlt. }
  destruct Hst as (_ & _ & _ & ->), Hst' as (_ & _ & _ & ->). unfold key_le in Hle. cbn [fst] in Hle.
  rewrite !field_key_app in Hle. apply str_le_lt in Hle. apply Hle. rewrite !str_app_lt_l. by apply str_lt_app.
Qed.

Lemma rows_at_stored d : elem_ok d = true -> rows_at d (stored_rows (path_of [col; inst])) = stored_rows (path_of [col; inst; d]).
Proof.
  intros Hd. unfold rows_at, stored_rows.
  rewrite (filter_omap _ (fun e => HasPrefix e.1 (path_of [col; inst; d] +:+ "/"))).
  - f_equal. apply entries_below_unique.
    + apply StronglySorted_filter, entries_below_sorted.
    + apply MapStore.NoDup_filter_fst, entries_below_NoDup.
    + intros k v. rewrite list_elem_of_In, filter_In, <- list_elem_of_In, elem_of_entries_below, HasPrefix_spec. cbn [fst].
      split; [tauto|]. intros [Hm Hb]. split; [split; [done|]|done]. by apply (below_doc d).
  - intros [k v] r Hin Hr. apply entry_stored in Hin as (Hm & _ & Hv & d' & fd & Hst); [|done].
    rewrite (field_key_row d' fd) in Hr by done. injection Hr as <-. cbn [fst].
    destruct Hst as (Hd' & _ & _ & ->). destruct (String.eqb_spec d' d) as [->|Hne]; symmetry.
    + apply HasPrefix_spec. exists (Sprint (fd_ID fd)). by rewrite path_app, field_key_app.
    + apply Bool.not_true_iff_false. rewrite HasPrefix_spec. intros [x E]. apply Hne.
      rewrite path_app, field_key_app in E. apply str_app_inj_l, str_app_inj_l in E.
      by eapply free_prefix_eq; [apply elem_ok_free..|exact E].
Qed.

(** The properties of a document are its stored fields. *)
Lemma elem_of_stored_props d fd e : elem_ok d = true ->
  (fd, e) ∈ stored_props d <->
  is_stored (field_key d fd) d fd /\ exists v, V !! field_key d fd = Some v /\ e = mkEncProperty fd v.
Proof.
  intros Hd. unfold stored_props. rewrite list_elem_of_omap. split.
  - intros ([k v] & Hin & Hr). apply entry_stored in Hin as (Hm & [x Hb] & Hv & d' & fd' & Hst); [|apply below_doc].
    rewrite (field_key_row d' fd') in Hr by done. cbn in Hr. injection Hr as <- <-.
    assert (d' = d) as ->.
    { destruct Hst as (Hd' & _ & _ & ->). rewrite path_app, field_key_app in Hb. apply str_app_inj_l, str_app_inj_l in Hb.
      by eapply free_prefix_eq; [apply elem_ok_free..|exact Hb]. }
    destruct Hst as (? & ? & ? & ->). split; [done|]. by exists v.
  - intros [Hst (v & Hm & ->)]. exists (field_key d fd, v).
    assert (below (path_of [col; inst; d]) (field_key d fd)) as Hb.
    { exists (Sprint (fd_ID fd)). by rewrite path_app, field_key_app. }
    split; [by apply elem_of_entries_below|].
    destruct (sw_keys Hwf _ _ Hm (below_doc d _ Hb)) as [Hv _]. by rewrite (field_key_row d fd).
Qed.

Lemma NoDup_omap_fst {A B C} (f : A -> option (B * C)) l :
  NoDup l -> (forall x y b c c', x ∈ l -> y ∈ l -> f x = Some (b, c) -> f y = Some (b, c') -> x = y) ->
  NoDup (omap f l).*1.
Proof.
  induction 1 as [|x l Hx Hnd IH]; intros Hinj; [constructor|]. cbn.
  assert (NoDup (omap f l).*1) as HN by (apply IH; intros ? ? ? ? ? ? ?; apply Hinj; by right).
  destruct (f x) as [[b c]|] eqn:E; [|done]. cbn. constructor; [|done].
  intros ([b' c'] & -> & (y & Hy & Ey)%list_elem_of_omap)%list_elem_of_fmap.
  apply Hx. rewrite (Hinj x y b' c c'); [done|left|by right|done|done].
Qed.

Lemma NoDup_stored_props d : elem_ok d = true -> NoDup (stored_props d).*1.
Proof.
  intros Hd. apply NoDup_omap_fst; [eapply NoDup_fmap_1, entries_below_NoDup|].
  intros [k v] [k' v'] fd c c' Hk Hk' Hr Hr'.
  pose proof (proj1 (elem_of_entries_below _ _ _ _) Hk) as [Hm [x Hx]].
  pose proof (proj1 (elem_of_entries_below _ _ _ _) Hk') as [Hm' [x' Hx']].
  apply entry_stored in Hk as (_ & _ & Hv & d1 & fd1 & Hst), Hk' as (_ & _ & Hv' & d2 & fd2 & Hst'); [|apply below_doc..].
  rewrite (field_key_row d1 fd1) in Hr by done. rewrite (field_key_row d2 fd2) in Hr' by done.
  cbn in Hr, Hr'. injection Hr as -> _. injection Hr' as -> _.
  destruct Hst as (Hd1 & _ & _ & ->), Hst' as (Hd2 & _ & _ & ->).
  rewrite path_app, field_key_app in Hx, Hx'. apply str_app_inj_l, str_app_inj_l in Hx, Hx'.
  assert (d1 = d) as -> by (by eapply free_prefix_eq; [apply elem_ok_free..|exact Hx]).
  assert (d2 = d) as -> by (by eapply free_prefix_eq; [apply elem_ok_free..|exact Hx']).
  congruence.
Qed.

Definition stored_doc (d : string) : encodedDocument := mkEncoded (Some d) (stored_props d).

Lemma omap_compose {A B C} (f : A -> option B) (g : B -> option C) (l : list A) : omap g (omap f l) = omap (fun x => y ← f x; g y) l.
Proof. induction l as [|x l IH]; [done|]. cbn. destruct (f x) as [y|]; cbn; [destruct (g y)|]; by rewrite ?IH. Qed.

Lemma omap_id_snd {A B} (l : list (A * option B)) : omap id l.*2 = omap snd l.
Proof. induction l as [|[a [b|]] l IH]; cbn; by rewrite ?IH. Qed.

Lemma doc_at_stored d : elem_ok d = true -> doc_at (stored_rows (path_of [col; inst])) d = stored_doc d.
Proof.
  intros Hd. unfold doc_at, stored_doc. rewrite rows_at_stored by done.
  assert (omap id (stored_rows (path_of [col; inst; d])).*2 = stored_props d) as E.
  { rewrite omap_id_snd. unfold stored_rows, stored_props. by rewrite omap_compose. }
  rewrite foldl_add_prop; rewrite E; [done|]. by apply NoDup_stored_props.
Qed.

(** There is something stored below the key of the document. *)
Definition has_doc (d : string) : Prop := elem_ok d = true /\ exists fd, fields !! fd.(fd_ID) = Some fd /\ is_Some (V !! field_key d fd).

Lemma elem_of_stored_rows d : d ∈ (stored_rows (path_of [col; inst])).*1 <-> has_doc d.
Proof.
  unfold has_doc. rewrite list_elem_of_fmap. split.
  - intros ([d' p] & -> & ([k v] & Hin & Hr)%list_elem_of_omap). apply entry_stored in Hin as (Hm & _ & Hv & d & fd & Hst); [|done].
    rewrite (field_key_row d fd) in Hr by done. injection Hr as <- _. destruct Hst as (Hd & _ & Hfd & ->).
    split; [done|]. exists fd. split; [done|]. by eexists.
  - intros (Hd & fd & Hfd & v & Hm). assert (below (path_of [col; inst]) (field_key d fd)) as Hb.
    { rewrite field_key_app. exists (d +:+ "/" +:+ Sprint (fd_ID fd)). by rewrite str_app_assoc. }
    destruct (sw_keys Hwf _ _ Hm Hb) as (Hv & d' & fd' & Hst).
    pose proof (field_key_row d' fd' v _ Hst Hv) as Hr. exists (d', Some (fd', mkEncProperty fd' v)). cbn [fst].
    assert (d = d') as <-.
    { destruct Hst as (Hd' & _ & _ & E). rewrite !field_key_app in E. apply str_app_inj_l, str_app_inj_l in E.
      by eapply free_prefix_eq; [apply elem_ok_free..|exact E]. }
    split; [done|]. apply list_elem_of_omap. exists (field_key d fd, v). split; [by apply elem_of_entries_below|done].
Qed.

(** The documents of a collection, each once, in the order of their keys. *)
Lemma stored_docs : exists ds, StronglySorted str_lt ds /\ (forall d, d ∈ ds <-> has_doc d) /\
  docs_of (stored_rows (path_of [col; inst])) = stored_doc <$> ds.
Proof.
  destruct (docs_of_sorted _ stored_rows_sorted) as (ds & Hss & Hin & E). exists ds. split; [done|].
  split; [intros d; by rewrite Hin, elem_of_stored_rows|]. rewrite E. apply list_fmap_ext.
  intros i d Hd%list_elem_of_lookup_2. apply Hin, elem_of_stored_rows in Hd as [Hd _]. by apply doc_at_stored.
Qed.

Lemma elem_of_rows_at r d rows : r ∈ rows_at d rows <-> r.1 = d /\ r ∈ rows.
Proof. unfold rows_at. rewrite list_elem_of_In, filter_In, <- list_elem_of_In, String.eqb_eq. tauto. Qed.

(** One document: its stored form, or nothing. *)
Lemma stored_rows_doc d : elem_ok d = true ->
  (has_doc d /\ docs_of (stored_rows (path_of [col; inst; d])) = [stored_doc d]) \/
  (~ has_doc d /\ docs_of (stored_rows (path_of [col; inst; d])) = []).
Proof.
  intros Hd. rewrite <- rows_at_stored by done. set (R := stored_rows (path_of [col; inst])).
  assert (StronglySorted row_le (rows_at d R)) as Hs.
  { assert (StronglySorted row_le R) as HR by apply stored_rows_sorted. clear -HR.
    induction HR as [|[d' p] R HR IH Hall]; [constructor|]. rewrite rows_at_cons. destruct (String.eqb d' d); [|done].
    constructor; [done|]. rewrite Forall_forall in Hall. apply Forall_forall. intros r [_ Hr]%elem_of_rows_at. by apply Hall. }
  assert (doc_at (rows_at d R) d = stored_doc d) as Edoc.
  { rewrite <- doc_at_stored by done. fold R. unfold doc_at. do 3 f_equal. unfold rows_at at 1.
    apply filter_all. intros r [-> _]%elem_of_rows_at. apply String.eqb_refl. }
  destruct (docs_of_sorted _ Hs) as (ds & Hss & Hin & E).
  assert (forall x, x ∈ ds <-> x = d /\ has_doc d) as Hx.
  { intros x. rewrite Hin, <- elem_of_stored_rows. fold R. rewrite !list_elem_of_fmap. split.
    - intros (r & -> & [Er Hr]%elem_of_rows_at). split; [done|]. by exists r.
    - intros [-> (r & Er & Hr)]. exists r. split; [done|]. by apply elem_of_rows_at. }
  destruct ds as [|x [|y ds]].
  - right. split; [|by rewrite E]. intros Hh. assert (d ∈ ([] : list string)) as Hn by (by apply Hx). by apply elem_of_nil in Hn.
  - left. destruct (proj1 (Hx x) ltac:(left)) as [-> Hh]. split; [done|]. rewrite E. cbn [fmap list_fmap]. by rewrite Edoc.
  - exfalso. apply StronglySorted_inv in Hss as [_ Hall]. apply Forall_cons in Hall as [Hlt _].
    destruct (proj1 (Hx x) ltac:(left)) as [-> _]. destruct (proj1 (Hx y) ltac:(right; left)) as [-> _]. by apply str_lt_irrefl in Hlt.
Qed.
End Stored.

(** ** Scans of a collection *)

Section Scan.
Context {S : Type} `{LawfulDatastore S} `{!Iterable S} `{!LawfulIterable S} `{DsKey}.

(** The end of a path as a prefix is the path to the end of its last element. *)
Lemma path_end ws w e : bump_str w = Some e -> bytesPrefixEnd (path_of (ws ++ [w])) = path_of (ws ++ [e]).
Proof.
  intros Hw. rewrite bytesPrefixEnd_bump, !path_of_snoc, <- !str_app_assoc. by rewrite (bump_str_app _ _ _ Hw).
Qed.

Definition instance (del : bool) : string := if del then DeletedKey else ValueKey.

Definition collection_span (col : CollectionDescription) (del : bool) : span :=
  let start := (if del then WithDeletedFlag else WithValueFlag) (MakeCollectionKey col) in
  NewSpan start (PrefixEnd start).

Lemma collection_span_rows V fields col del :
  elem_ok (IDString col) = true -> only_below V (path_of [IDString col; instance del]) ->
  stored_wf V fields (IDString col) (instance del) ->
  span_rows V fields (Some (collection_span col del)) (stored_rows V fields (path_of [IDString col; instance del])).
Proof.
  intros Hc Hb Hwf. set (c := IDString col) in *.
  assert (exists e, bump_str (instance del) = Some e /\ bytesPrefixEnd (instance del) = e /\ elem_ok e = true /\ elem_ok (instance del) = true)
    as (e & He & He' & Heo & Hio) by (destruct del; by eexists).
  assert (forall w, elem_ok w = true -> ToDS (mkDataStoreKey c w "" "") = path_of [c; w] /\ clean_key (path_of [c; w]) = true) as Hds.
  { intros w Hw. assert (clean_key (path_of [c; w]) = true) as Hcl by (apply clean_key_path_of; auto).
    split; [|done]. unfold ToDS, ToString, Key_DataStoreKey, DataStoreKey_ToString. cbn [CollectionID InstanceType DocKey FieldId].
    change "" with (path_of []) at 1. rewrite !add_part_path. cbn [parts List.filter String.eqb negb].
    rewrite (elem_ok_nonempty c Hc), (elem_ok_nonempty w Hw). cbn [negb app]. by apply NewKey_clean. }
  exists (collection_span col del), (path_of [c; instance del]). split; [done|].
  assert (Start (collection_span col del) = mkDataStoreKey c (instance del) "" "") as Es by by destruct del.
  assert (End (collection_span col del) = mkDataStoreKey c e "" "") as Ee.
  { unfold collection_span, PrefixEnd. destruct del; cbn in He |- *; injection He as <-; done. }
  rewrite Es, Ee. destruct (Hds e Heo) as [-> Hce]. destruct (Hds (instance del) Hio) as [-> Hci].
  pose proof (path_end [c] (instance del) e He) as Hpe. cbn [app] in Hpe. rewrite Hpe.
  repeat (split; [done|]). eapply stored_rows_mapM; [exact Hwf|]. done.
Qed.

(** Reading a whole collection: all documents of one kind, active or deleted, each once,
    in the order of their keys. *)
Lemma fetch_collection s f col del fields :
  fresh fields f -> f.(f_col) = Some col ->
  elem_ok (IDString col) = true -> only_below (view s) (path_of [IDString col; instance del]) ->
  stored_wf (view s) fields (IDString col) (instance del) ->
  exists ds f', StronglySorted str_lt ds /\ (forall d, d ∈ ds <-> has_doc (view s) fields (IDString col) (instance del) d) /\
    fsteps (fetcher_start None del) s f (Ok tt) f' /\ f'.(f_reverse) = false /\
    ready (view s) fields f' (stored_doc (view s) fields (IDString col) (instance del) <$> ds).
Proof.
  intros Hf Hcol Hc Hb Hwf. destruct (stored_docs _ _ _ _ Hwf) as (ds & Hss & Hin & E). exists ds.
  pose proof (collection_span_rows (view s) fields col del Hc Hb Hwf) as Hsp.
  destruct (startNextSpan_spec (view s) fields s f [Some (collection_span col del)]
    [stored_rows (view s) fields (path_of [IDString col; instance del])]) as (b & f' & Hrun & Hr & Hready);
    [done|done|by repeat constructor|split; [done|done]|done|].
  exists f'. split; [done|]. split; [done|]. split; [|split; [done|]].
  - unfold fetcher_start. apply fsteps_bind_get. rewrite Hcol, (fr_doc _ _ Hf).
    apply (fsteps_then (T := fetcher)) in Hrun as (s1 & Es1 & Hrun).
    unfold fsteps. destruct del; apply (Hrun unit (fun _ => mret tt)); done.
  - cbn [concat fmap list_fmap] in Hready. by rewrite app_nil_r, E in Hready.
Qed.

(** ** Reading one document *)

Lemma ToDS_doc c inst d : elem_ok c = true -> elem_ok inst = true -> elem_ok d = true ->
  ToDS (mkDataStoreKey c inst d "") = path_of [c; inst; d].
Proof.
  intros Hc Hi Hd. rewrite ToDS_DataStoreKey, DataStoreKey_ToString_elems; [done|..];
    unfold key_ok; cbn [CollectionID InstanceType DocKey FieldId]; by rewrite Hc, Hi, Hd.
Qed.

(** What the code reads as the document [d] is not mixed with others: no key of a document
    begins with [d], which has an end as a prefix. *)
Definition doc_alone (V : contents) (fields : gmap Z FieldDescription) (col inst d : string) : Prop :=
  elem_ok d = true /\ (exists e, bump_str d = Some e /\ elem_ok e = true) /\
  forall d', has_doc V fields col inst d' -> str_prefix d d' -> d' = d.

Lemma doc_only_below V fields col inst d :
  stored_wf V fields col inst -> doc_alone V fields col inst d -> only_below V (path_of [col; inst; d]).
Proof.
  intros Hwf (Hd & (e & He & Heo) & Hal) k v Hk Hge Hle.
  pose proof (sw_col _ _ _ _ Hwf) as Hc.
  assert (elem_ok inst = true) as Hi by (destruct (sw_inst _ _ _ _ Hwf) as [-> | ->]; done).
  assert (clean_key (path_of [col; inst; d]) = true) as Hcl by (apply clean_key_path_of; auto).
  pose proof (path_end [col; inst] d e He) as Hpe. cbn [app] in Hpe. rewrite Hpe in Hle.
  assert (below (path_of [col; inst]) k) as Hb.
  { apply str_le_eq in Hle as [Hlt| ->]; [|apply (below_path [col; inst] [] e)].
    rewrite <- Hpe in Hlt. destruct (proj1 (prefix_range _ k Hcl) (conj Hge Hlt)) as [t ->].
    exists (d +:+ t). cbn [path_of]. by autorewrite with go. }
  destruct (sw_keys _ _ _ _ Hwf k v Hk Hb) as (_ & d' & fd & Hst). destruct Hst as (Hd' & Hu & Hfd & ->).
  assert (d' = d) as ->; [|rewrite field_key_app; exists (Sprint (fd_ID fd)); by rewrite path_app].
  apply Hal; [split; [done|exists fd; split; [done|by eexists]]|].
  apply str_le_eq in Hle as [Hlt|E].
  - rewrite <- Hpe in Hlt. destruct (proj1 (prefix_range _ _ Hcl) (conj Hge Hlt)) as [t Ht].
    assert (d' +:+ "/" +:+ Sprint (fd_ID fd) = d +:+ t) as E.
    { apply (str_app_inj_l (path_of [col; inst] +:+ "/")). rewrite field_key_app in Ht. rewrite str_app_assoc, Ht.
      cbn [path_of]. by autorewrite with go. }
    apply (free_app_prefix d d' t (Sprint (fd_ID fd))); [by apply elem_ok_free..|done].
  - exfalso. unfold field_key in E. apply path_of_inj in E; [done|repeat constructor; auto using elem_ok_free, Sprint_free..].
Qed.

Definition document_span (col : CollectionDescription) (d : string) : span :=
  NewSpan (MakeDocKey col d) (PrefixEnd (MakeDocKey col d)).

Lemma fetch_document s f col del fields d :
  fresh fields f -> f.(f_col) = Some col -> stored_wf (view s) fields (IDString col) (instance del) ->
  doc_alone (view s) fields (IDString col) (instance del) d ->
  exists f' docs, fsteps (fetcher_start (Some [document_span col d]) del) s f (Ok tt) f' /\
    ready (view s) fields f' docs /\
    ((has_doc (view s) fields (IDString col) (instance del) d /\ docs = [stored_doc (view s) fields (IDString col) (instance del) d]) \/
     (~ has_doc (view s) fields (IDString col) (instance del) d /\ docs = [])).
Proof.
  intros Hf Hcol Hwf Hal. pose proof Hal as (Hd & (e & He & Heo) & Hal').
  set (c := IDString col) in *. set (inst := instance del) in *.
  pose proof (sw_col _ _ _ _ Hwf) as Hc.
  assert (elem_ok inst = true) as Hi by (destruct (sw_inst _ _ _ _ Hwf) as [-> | ->]; done).
  pose proof (path_end [c; inst] d e He) as Hpe. cbn [app] in Hpe.
  assert (bytesPrefixEnd d = e) as Hbe by by rewrite bytesPrefixEnd_bump, He.
  set (sp := NewSpan (mkDataStoreKey c inst d "") (mkDataStoreKey c inst e "")).
  set (rows := stored_rows (view s) fields (path_of [c; inst; d])).
  assert (span_rows (view s) fields (Some sp) rows) as Hsp.
  { exists sp, (path_of [c; inst; d]). split; [done|]. split; [by apply ToDS_doc|].
    split; [rewrite Hpe; by apply ToDS_doc|]. split; [apply clean_key_path_of; auto|].
    split; [rewrite Hpe; apply clean_key_path_of; auto|]. split; [by eapply doc_only_below|].
    eapply stored_rows_mapM; [exact Hwf|]. intros x. apply below_doc. }
  destruct (startNextSpan_spec (view s) fields s f [Some sp] [rows]) as (b & f' & Hrun & Hr & Hready);
    [done|done|by repeat constructor|split; [done|done]|done|].
  cbn [concat fmap list_fmap] in Hready. rewrite app_nil_r in Hready.
  exists f', (docs_of rows). split; [|split; [done|]].
  - apply (fsteps_then (T := fetcher)) in Hrun as (s1 & Es1 & Hrun).
    assert (forall flag : DataStoreKey -> DataStoreKey, (forall a b x y, flag (mkDataStoreKey a b x y) = mkDataStoreKey a inst x y) ->
      ((fun sp => NewSpan (flag sp.(Start)) (flag sp.(End))) <$> [document_span col d]) = [sp]) as Hflag.
    { intros flag Hfl. unfold document_span, MakeDocKey, PrefixEnd. cbn [FieldId DocKey String.eqb negb fmap list_fmap].
      rewrite (elem_ok_nonempty d Hd). cbn [negb Start End CollectionID InstanceType DocKey FieldId]. by rewrite !Hfl, Hbe. }
    unfold fetcher_start. apply fsteps_bind_get. rewrite Hcol, (fr_doc _ _ Hf), (fr_reverse _ _ Hf).
    destruct del; rewrite Hflag by done; unfold fsteps; apply (Hrun unit (fun _ => mret tt)); done.
  - by apply stored_rows_doc.
Qed.

(** ** Active and deleted documents together *)

Context `{CborAny}.
Variable mapping : DocumentMapping.

(** A document as the fetcher returns it. *)
Definition fetched (status : Z) (D : encodedDocument) (r : bytes * Doc) : Prop :=
  exists doc, DecodeToDoc D mapping = Ok doc /\ r = (default "" D.(ed_Key), mkDoc (Hidden doc) (Fields doc) status).

Definition doc_le (x y : bytes * Doc) : Prop := x.1 <=s y.1.

#[local] Instance doc_le_dec : RelDecision doc_le.
Proof. intros x y. unfold doc_le. apply _. Defined.

Lemma ready_head V fields f D docs :
  ready V fields f (D :: docs) -> f.(f_kvEnd) = false /\
    exists kv, f.(f_kv) = Some kv /\ D.(ed_Key) = Some kv.(kv_Key).(DocKey).
Proof.
  intros [[? _]|(r & rows & rowss & doc & Hst & _ & _ & E & _)]; [done|]. split; [by apply Hst|].
  destruct (st_kv _ _ _ _ _ _ Hst) as (kv & Hkv & Hrow). exists kv. split; [done|].
  apply kv_row_inv in Hrow as [_ Hd]. destruct r as [d p]. cbn [docs_of fst] in *. subst d.
  assert (forall d rows ps, exists D' Ds, docs_from d ps rows = D' :: Ds /\ ed_Key D' = Some d) as Hfrom.
  { intros d rows'. induction rows' as [|[d' p'] rows' IH]; intros ps; [by do 2 eexists|]. cbn.
    destruct (String.eqb d' d); [apply IH|by do 2 eexists]. }
  destruct (Hfrom (DocKey (kv_Key kv)) rows (add_prop [] p)) as (D' & Ds & E' & HD). rewrite E' in E. by injection E as -> ->.
Qed.

Lemma ready_nil V fields f : ready V fields f [] -> f.(f_kvEnd) = true.
Proof.
  intros [[_ ?]|(r & rows & rowss & doc & _ & _ & _ & E & _)]; [done|]. destruct r as [d p]. cbn in E.
  assert (forall d rows ps, docs_from d ps rows <> []) as Hne.
  { intros d' rows'. induction rows' as [|[d'' p''] rows' IH]; intros ps; [done|]. cbn. by destruct (String.eqb d'' d'). }
  symmetry in E. apply app_nil in E as [E _]. by apply Hne in E.
Qed.

Lemma on_active_steps {A} (m : M (S * fetcher) A) s df r f' :
  fsteps m s df.(df_active) r f' -> fsteps (on_active m) s df r (mkDocumentFetcher f' df.(df_deleted)).
Proof. unfold fsteps, on_active. cbn. destruct (m (s, df_active df)) as [[s1 g] q]. cbn. by intros (-> & -> & ? & ?). Qed.

Lemma on_deleted_steps {A} (m : M (S * fetcher) A) s df ddf r f' :
  fsteps m s ddf r f' -> fsteps (on_deleted ddf m) s df r (mkDocumentFetcher df.(df_active) (Some f')).
Proof. unfold fsteps, on_deleted. cbn. destruct (m (s, ddf)) as [[s1 g] q]. cbn. by intros (-> & -> & ? & ?). Qed.

(** The pair of fetchers, with the documents that are left of either kind. *)
Record both (V : contents) (fields : gmap Z FieldDescription) (df : DocumentFetcher) (ra rd : list (bytes * Doc)) : Prop := {
  bo_reverse : df.(df_active).(f_reverse) = false;
  bo_active : exists A, ready V fields df.(df_active) A /\ Forall2 (fetched Active) A ra;
  bo_deleted : exists ddf D, df.(df_deleted) = Some ddf /\ ready V fields ddf D /\ Forall2 (fetched Deleted) D rd;
}.

(** The result of decoding what one of the fetchers returned. *)
Lemma fetched_steps s (df : DocumentFetcher) D st r :
  fetched st D r ->
  fsteps (let* doc := mlift (DecodeToDoc D mapping) in
          mret (Some (default "" D.(ed_Key), mkDoc (Hidden doc) (Fields doc) st))) s df (Ok (Some r)) df.
Proof. intros (doc & E & ->). rewrite E. done. Qed.

Lemma fsteps_bind_dget {B} (k : DocumentFetcher -> M (S * DocumentFetcher) B) s df r df' :
  fsteps (k df) s df r df' -> fsteps (mbind dget k) s df r df'.
Proof. done. Qed.

(** The part of [FetchNextDoc] that looks at the deleted documents. *)
Definition next_deleted (df : DocumentFetcher) : M (S * DocumentFetcher) (option encodedDocument) :=
  match df.(df_deleted) with
  | None => mret None
  | Some ddf =>
      if ddf.(f_kvEnd) then mret None else
      let* first := mlift (deleted_first df.(df_active).(f_reverse) df.(df_active) ddf) in
      if (first : bool) then on_deleted ddf FetchNext else mret None
  end.

Lemma FetchNextDoc_active V fields s df a ra rd :
  view s = V -> both V fields df (a :: ra) rd ->
  match rd with [] => True | d :: _ => doc_le a d end ->
  exists df', fsteps (FetchNextDoc mapping) s df (Ok (Some a)) df' /\ both V fields df' ra rd.
Proof.
  intros Hs [Hr (As & HA & HFA) (ddf & Ds & Hdd & HD & HFD)] Hle.
  destruct As as [|A As]; [by inversion HFA|]. apply Forall2_cons in HFA as [Ha HFA].
  assert (fsteps (next_deleted df) s df (Ok None) df) as Hskip.
  { unfold next_deleted. rewrite Hdd. destruct Ds as [|D Ds]; [by rewrite (ready_nil _ _ _ HD)|].
    destruct (ready_head _ _ _ _ _ HD) as (-> & dkv & Hdkv & HDk). unfold deleted_first. rewrite Hr.
    destruct (ready_head _ _ _ _ _ HA) as (-> & kv & Hkv & HAk). rewrite Hdkv, Hkv.
    inversion HFD as [|? d ? rd' Hd HFD']; subst. destruct Ha as (doc & _ & ->), Hd as (doc' & _ & ->).
    unfold doc_le in Hle. cbn in Hle. rewrite HAk, HDk in Hle. cbn in Hle.
    destruct (String.ltb (DocKey (kv_Key dkv)) (DocKey (kv_Key kv))) eqn:El; [|done].
    apply str_le_lt in Hle. by destruct Hle. }
  apply fsteps_then in Hskip as (s1 & Es1 & Hskip).
  pose proof (FetchNext_spec V fields s1 _ _ (eq_trans Es1 Hs) HA) as (f' & Hrun & Hk & HA').
  apply on_active_steps in Hrun.
  exists (mkDocumentFetcher f' (Some ddf)). split.
  2:{ split; cbn; [by rewrite (kp_reverse _ _ Hk)|eauto|eauto]. }
  unfold FetchNextDoc. apply fsteps_bind_dget, Hskip. cbv beta iota.
  eapply fsteps_bind; [eapply fsteps_bind; [exact Hrun|intros; apply fsteps_ret]|]. intros s2 Es2. rewrite Hdd.
  by apply fetched_steps.
Qed.

Lemma FetchNextDoc_deleted V fields s df d ra rd :
  view s = V -> both V fields df ra (d :: rd) ->
  match ra with [] => True | a :: _ => ~ doc_le a d end ->
  exists df', fsteps (FetchNextDoc mapping) s df (Ok (Some d)) df' /\ both V fields df' ra rd.
Proof.
  intros Hs [Hr (As & HA & HFA) (ddf & Ds & Hdd & HD & HFD)] Hle.
  destruct Ds as [|D Ds]; [by inversion HFD|]. apply Forall2_cons in HFD as [Hd HFD].
  pose proof (FetchNext_spec V fields s _ _ Hs HD) as (f' & Hrun & Hk & HD').
  apply (on_deleted_steps _ _ df) in Hrun.
  exists (mkDocumentFetcher df.(df_active) (Some f')). split; [|split; eauto].
  assert (fsteps (next_deleted df) s df (Ok (Some D)) (mkDocumentFetcher (df_active df) (Some f'))) as Htake.
  { unfold next_deleted. rewrite Hdd. destruct (ready_head _ _ _ _ _ HD) as (-> & dkv & Hdkv & HDk).
    assert (deleted_first (f_reverse (df_active df)) (df_active df) ddf = Ok true) as ->; [|exact Hrun].
    unfold deleted_first. destruct As as [|A As]; [by rewrite (ready_nil _ _ _ HA)|]. rewrite Hr.
    destruct (ready_head _ _ _ _ _ HA) as (-> & kv & Hkv & HAk). rewrite Hdkv, Hkv. f_equal.
    inversion HFA as [|? a ? ra' Ha HFA']; subst. destruct Ha as (doc & _ & ->), Hd as (doc' & _ & ->).
    unfold doc_le in Hle. cbn in Hle. rewrite HAk, HDk in Hle. cbn in Hle. by apply str_lt_not_le in Hle. }
  unfold FetchNextDoc. apply fsteps_bind_dget. eapply fsteps_bind; [exact Htake|]. intros s1 Es1. cbv beta iota.
  eapply fsteps_bind; [apply fsteps_ret|]. intros s2 Es2. by apply fetched_steps.
Qed.

Lemma FetchNextDoc_end V fields s df :
  view s = V -> both V fields df [] [] -> fsteps (FetchNextDoc mapping) s df (Ok None) df.
Proof.
  intros Hs [Hr (As & HA & HFA) (ddf & Ds & Hdd & HD & HFD)]. inversion HFA; inversion HFD; subst.
  unfold FetchNextDoc. apply fsteps_bind_dget. rewrite Hdd, (ready_nil _ _ _ HD).
  eapply fsteps_bind; [apply fsteps_ret|]. intros s1 Es1. cbv beta iota.
  pose proof (FetchNext_spec _ fields s1 _ _ Es1 HA) as Hrun. cbn in Hrun.
  apply on_active_steps in Hrun. eapply fsteps_bind; [eapply fsteps_bind; [exact Hrun|intros; apply fsteps_ret]|].
  intros s2 Es2. by destruct df.
Qed.

Lemma drainDocs_spec V fields n : forall s df ra rd,
  view s = V -> both V fields df ra rd -> (length ra + length rd < n)%nat ->
  exists df', fsteps (drainDocs n mapping) s df (Ok (list_merge doc_le ra rd)) df'.
Proof.
  induction n as [|n IH]; intros s df ra rd Hs Hb Hn; [lia|].
  assert (forall x ra' rd', (exists df', fsteps (FetchNextDoc mapping) s df (Ok (Some x)) df' /\ both V fields df' ra' rd') ->
    (length ra' + length rd' < n)%nat ->
    exists df', fsteps (drainDocs (Datatypes.S n) mapping) s df (Ok (x :: list_merge doc_le ra' rd')) df') as Hstep.
  { intros x ra' rd' (df1 & Hrun & Hb1) Hl. apply fsteps_then in Hrun as (s1 & Es1 & Hrun).
    destruct (IH s1 df1 ra' rd') as [df' Hd]; [congruence|done|done|]. exists df'. cbn [drainDocs]. apply Hrun.
    by eapply fsteps_bind; [exact Hd|]. }
  destruct ra as [|a ra], rd as [|d rd]; cbn in Hn.
  - exists df. cbn [drainDocs]. by eapply fsteps_bind; [by eapply FetchNextDoc_end|].
  - destruct (Hstep d [] rd) as [df' Hd]; [by apply FetchNextDoc_deleted|cbn; lia|]. exists df'.
    by rewrite list_merge_nil_l in Hd |- *.
  - destruct (Hstep a ra []) as [df' Hd]; [by eapply FetchNextDoc_active|cbn; lia|]. exists df'.
    by rewrite list_merge_nil_r in Hd |- *.
  - rewrite list_merge_cons. destruct (decide (doc_le a d)) as [Hle|Hle].
    + apply (Hstep a ra (d :: rd)); [by eapply FetchNextDoc_active|cbn; lia].
    + apply (Hstep d (a :: ra) rd); [by eapply FetchNextDoc_deleted|cbn; lia].
Qed.

Lemma Sprint_elem_ok z : elem_ok (Sprint z) = true.
Proof. unfold elem_ok. rewrite Sprint_free. apply Bool.andb_true_iff. split; [apply KeyInstances.pretty_clean|done]. Qed.

(** A collection in the store: its active and its deleted documents. *)
Definition collection_wf (V : contents) (col : CollectionDescription) : Prop :=
  forall del, only_below V (path_of [IDString col; instance del]) /\
    stored_wf V (schemaFields col.(cd_Schema).(sd_Fields)) (IDString col) (instance del).

Definition col_doc (V : contents) (col : CollectionDescription) (del : bool) (d : string) : encodedDocument :=
  stored_doc V (schemaFields col.(cd_Schema).(sd_Fields)) (IDString col) (instance del) d.

Definition col_has (V : contents) (col : CollectionDescription) (del : bool) (d : string) : Prop :=
  has_doc V (schemaFields col.(cd_Schema).(sd_Fields)) (IDString col) (instance del) d.

Lemma fetch_results V col del st (ds : list string) :
  (forall d, d ∈ ds -> exists doc, DecodeToDoc (col_doc V col del d) mapping = Ok doc) ->
  exists rs, Forall2 (fetched st) (col_doc V col del <$> ds) rs /\ rs.*1 = ds.
Proof.
  induction ds as [|d ds IH]; intros Hdec; [by exists []|].
  destruct IH as (rs & HF & E); [intros d' Hd'; apply Hdec; by right|].
  destruct (Hdec d ltac:(left)) as [doc Hdoc]. exists ((d, mkDoc (Hidden doc) (Fields doc) st) :: rs). cbn. split; [|by rewrite E].
  constructor; [by exists doc|done].
Qed.

Lemma Sorted_keys rs ds : rs.*1 = ds -> StronglySorted str_lt ds -> Sorted doc_le rs.
Proof.
  intros <- Hs. apply StronglySorted_Sorted. induction rs as [|r rs IH]; [constructor|].
  change (StronglySorted str_lt (r.1 :: rs.*1)) in Hs.
  apply StronglySorted_inv in Hs as [Hs Hall]. constructor; [by apply IH|].
  rewrite Forall_fmap in Hall. eapply Forall_impl; [exact Hall|]. intros x Hx. by apply str_lt_le.
Qed.

#[local] Instance doc_le_total : Total doc_le.
Proof. intros x y. unfold doc_le. rewrite !str_le_eq. destruct (str_lt_total x.1 y.1) as [?|[->|?]]; auto. Qed.

(** A scan of a collection with its deleted documents. *)
Lemma fetch_all s col df0 df :
  fetcher_Init col false true df0 = Ok df -> collection_wf (view s) col ->
  (forall del d, col_has (view s) col del d -> exists doc, DecodeToDoc (col_doc (view s) col del d) mapping = Ok doc) ->
  exists act del ra rd l, StronglySorted str_lt act /\ (forall d, d ∈ act <-> col_has (view s) col false d) /\
    StronglySorted str_lt del /\ (forall d, d ∈ del <-> col_has (view s) col true d) /\
    Forall2 (fetched Active) (col_doc (view s) col false <$> act) ra /\
    Forall2 (fetched Deleted) (col_doc (view s) col true <$> del) rd /\
    Sorted doc_le l /\ l ≡ₚ ra ++ rd /\
    forall n, (length act + length del < n)%nat ->
      exists df', fsteps (let* _ := Fetcher_Start None in drainDocs n mapping) s df (Ok l) df'.
Proof.
  unfold fetcher_Init. intros Hinit Hwf Hdec. destruct (IsEmpty (cd_Schema col)); [done|]. injection Hinit as <-.
  set (fields := schemaFields col.(cd_Schema).(sd_Fields)). set (fa := fetcher_init col false (df_active df0)).
  set (fd := fetcher_init col false (default new_fetcher (df_deleted df0))).
  assert (forall g, fresh fields (fetcher_init col false g)) as Hfresh by by intros g.
  destruct (Hwf false) as [Hb0 Hw0], (Hwf true) as [Hb1 Hw1].
  destruct (fetch_collection s fa col false fields (Hfresh _) eq_refl (Sprint_elem_ok _) Hb0 Hw0) as (act & fa' & Hsa & Hina & Hra & Hrev & Hreadya).
  apply (on_active_steps _ _ (mkDocumentFetcher fa (Some fd))) in Hra. apply fsteps_then in Hra as (s1 & Es1 & Hra).
  rewrite <- Es1 in Hb1, Hw1.
  destruct (fetch_collection s1 fd col true fields (Hfresh _) eq_refl (Sprint_elem_ok _) Hb1 Hw1) as (del & fd' & Hsd & Hind & Hrd & Hrevd & Hreadyd).
  apply (on_deleted_steps _ _ (mkDocumentFetcher fa' (Some fd))) in Hrd. cbn [df_active] in Hrd.
  rewrite Es1 in Hind, Hreadyd.
  assert (fsteps (Fetcher_Start None) s (mkDocumentFetcher fa (Some fd)) (Ok tt) (mkDocumentFetcher fa' (Some fd'))) as Hstart.
  { unfold Fetcher_Start. apply Hra, fsteps_bind_dget. exact Hrd. }
  apply fsteps_then in Hstart as (s2 & Es2 & Hstart).
  destruct (fetch_results (view s) col false Active act) as (ra & HFa & Ea); [intros d Hd; by apply Hdec, Hina|].
  destruct (fetch_results (view s) col true Deleted del) as (rd & HFd & Ed); [intros d Hd; by apply Hdec, Hind|].
  exists act, del, ra, rd, (list_merge doc_le ra rd). repeat (split; [done|]).
  split; [apply Sorted_list_merge; [apply doc_le_total|by eapply Sorted_keys..]|].
  split; [apply merge_Permutation|]. intros n Hn.
  destruct (drainDocs_spec (view s) fields n s2 (mkDocumentFetcher fa' (Some fd')) ra rd Es2) as [df' Hdrain].
  { split; [done|by eexists|by do 2 eexists]. }
  { rewrite <- Ea, <- Ed, !length_fmap in Hn. done. }
  exists df'. by apply Hstart.
Qed.

(** ** Decoding *)

(** The cells of a decoded document: the key first, and every property at the index of
    its field. *)
Lemma decodeFields_spec ps : forall doc,
  (forall f p, (f, p) ∈ ps -> (Z.to_nat f.(fd_ID) < length (Fields doc))%nat /\ exists c v, prop_Decode p = Ok (c, v)) ->
  NoDup ((fun fp => Z.to_nat fp.1.(fd_ID)) <$> ps) ->
  exists doc', decodeFields ps doc = Ok doc' /\ length (Fields doc') = length (Fields doc) /\
    (forall f p c v, (f, p) ∈ ps -> prop_Decode p = Ok (c, v) -> get_field doc' (Z.to_nat f.(fd_ID)) = Ok v) /\
    (forall i, i ∉ ((fun fp => Z.to_nat fp.1.(fd_ID)) <$> ps) -> get_field doc' i = get_field doc i).
Proof.
  induction ps as [|[f p] ps IH]; intros doc Hps Hnd; [exists doc; split; [done|]; set_solver|].
  cbn in Hnd. apply NoDup_cons in Hnd as [Hf Hnd]. destruct (Hps f p ltac:(left)) as (Hlt & c & v & Hp).
  cbn [decodeFields]. rewrite Hp. cbn [rbind].
  destruct (set_field doc (Z.to_nat (fd_ID f)) v) as [doc1| |] eqn:Eset; unfold set_field in Eset; case_decide; try done.
  injection Eset as <-. set (doc1 := set_Fields doc _).
  assert (set_field doc (Z.to_nat (fd_ID f)) v = Ok doc1) as Eset by (unfold set_field; by rewrite decide_True).
  assert (length (Fields doc1) = length (Fields doc)) as Hlen by (destruct doc; cbn; by rewrite length_insert).
  destruct (IH doc1) as (doc' & Hrun & Hl & Hin & Hout); [|done|].
  { intros g q Hq. rewrite Hlen. apply Hps. by right. }
  exists doc'. split; [done|]. split; [congruence|]. split.
  - intros g q c' v' [[= -> ->]|Hq]%elem_of_cons Hq'.
    + rewrite Hp in Hq'. injection Hq' as <- <-. rewrite Hout by done. rewrite (get_set_field _ _ _ _ _ Eset). by rewrite decide_True.
    + by eapply Hin.
  - intros i [Hi Hn]%not_elem_of_cons. rewrite Hout by done. rewrite (get_set_field _ _ _ _ _ Eset). by rewrite decide_False.
Qed.

(** The values of a collection can be decoded into documents of the mapping. *)
Definition decodable (V : contents) (col : CollectionDescription) : Prop :=
  forall del d fd raw, elem_ok d = true -> schemaFields col.(cd_Schema).(sd_Fields) !! fd.(fd_ID) = Some fd ->
    V !! field_key (IDString col) (instance del) d fd = Some raw ->
    0 < fd.(fd_ID) < Z.of_nat mapping.(nextIndex) /\ exists c v, prop_Decode (mkEncProperty fd raw) = Ok (c, v).

(** A document of a scan holds its key, its status and its fields. *)
Definition holds_doc (V : contents) (col : CollectionDescription) (del : bool) (r : bytes * Doc) : Prop :=
  Status r.2 = (if del then Deleted else Active) /\ get_field r.2 0 = Ok (VString r.1) /\
  length (Fields r.2) = mapping.(nextIndex) /\
  (forall fd raw c v, schemaFields col.(cd_Schema).(sd_Fields) !! fd.(fd_ID) = Some fd ->
    V !! field_key (IDString col) (instance del) r.1 fd = Some raw -> prop_Decode (mkEncProperty fd raw) = Ok (c, v) ->
    get_field r.2 (Z.to_nat fd.(fd_ID)) = Ok v) /\
  (forall i, 0 < i < Z.of_nat mapping.(nextIndex) ->
    (forall fd, schemaFields col.(cd_Schema).(sd_Fields) !! i = Some fd ->
      V !! field_key (IDString col) (instance del) r.1 fd = None) -> get_field r.2 (Z.to_nat i) = Ok VNil).

Lemma DecodeToDoc_stored V col del d :
  collection_wf V col -> decodable V col -> col_has V col del d ->
  exists doc, DecodeToDoc (col_doc V col del d) mapping = Ok doc /\
    forall r, fetched (if del then Deleted else Active) (col_doc V col del d) r -> r.1 = d /\ holds_doc V col del r.
Proof.
  intros Hwf Hdec (Hd & fd0 & Hfd0 & raw0 & Hraw0). destruct (Hwf del) as [_ Hw].
  assert (0 < Z.of_nat (nextIndex mapping)) as Hpos by (destruct (Hdec del d fd0 raw0) as [? _]; [done..|]; lia).
  set (fields := schemaFields (sd_Fields (cd_Schema col))) in *.
  assert (length (Fields (NewDoc mapping)) = nextIndex mapping) as Hlen by (cbn; by rewrite length_replicate).
  assert (exists doc0, SetKey (NewDoc mapping) d = Ok doc0 /\ doc0 = set_Fields (NewDoc mapping) (<[DocKeyFieldIndex := VString d]> (Fields (NewDoc mapping))))
    as (doc0 & Eset & Edoc0).
  { unfold SetKey, set_field. rewrite decide_True by (unfold DocKeyFieldIndex; lia). eauto. }
  assert (length (Fields doc0) = nextIndex mapping) as Hlen0.
  { rewrite Edoc0. cbn [NewDoc set_Fields Fields]. by rewrite length_insert, length_replicate. }
  set (ps := stored_props V fields (IDString col) (instance del) d).
  assert (forall f p, (f, p) ∈ ps -> exists raw, fields !! fd_ID f = Some f /\
    V !! field_key (IDString col) (instance del) d f = Some raw /\ p = mkEncProperty f raw) as Hps.
  { intros f p Hin. apply (elem_of_stored_props _ _ _ _ Hw) in Hin as [(_ & _ & Hf & _) (raw & Hraw & ->)]; [|done]. eauto. }
  destruct (decodeFields_spec ps doc0) as (doc & Hrun & Hl & Hin & Hout).
  { intros f p Hfp. destruct (Hps f p Hfp) as (raw & Hf & Hraw & ->). destruct (Hdec del d f raw Hd Hf Hraw) as [Hb Hv].
    split; [rewrite Hlen0; lia|done]. }
  { replace ((fun fp : prop => Z.to_nat (fd_ID fp.1)) <$> ps) with ((fun f => Z.to_nat (fd_ID f)) <$> ps.*1)
      by (by rewrite <- list_fmap_compose).
    apply NoDup_fmap_2_strong; [|by apply NoDup_stored_props].
    intros f g ([f' p] & -> & Hf)%list_elem_of_fmap ([g' q] & -> & Hg)%list_elem_of_fmap E. cbn [fst] in *.
    destruct (Hps f' p Hf) as (raw & Hf1 & Hraw & _). destruct (Hdec del d f' raw Hd Hf1 Hraw) as [Hb _].
    destruct (Hps g' q Hg) as (raw' & Hg1 & Hraw' & _). destruct (Hdec del d g' raw' Hd Hg1 Hraw') as [Hb' _].
    assert (fd_ID f' = fd_ID g') as E' by lia. congruence. }
  assert (DecodeToDoc (col_doc V col del d) mapping = Ok doc) as HD.
  { unfold DecodeToDoc. cbn [col_doc stored_doc ed_Key ed_Properties]. change (default "" (Some d)) with d. rewrite Eset. exact Hrun. }
  exists doc. split; [done|]. intros r (doc' & HD' & ->). rewrite HD in HD'. injection HD' as <-. split; [done|].
  unfold holds_doc. cbn [fst snd Status Fields].
  assert (forall i, get_field (mkDoc (Hidden doc) (Fields doc) (if del then Deleted else Active)) i = get_field doc i) as Hgf by done.
  split; [done|]. split; [|split; [congruence|split]].
  - rewrite Hgf, Hout; [rewrite (get_set_field _ _ _ _ _ Eset); by rewrite decide_True|].
    intros ([f p] & E & Hf)%list_elem_of_fmap. cbn [fst] in E. destruct (Hps f p Hf) as (raw & Hf1 & Hraw & _).
    destruct (Hdec del d f raw Hd Hf1 Hraw) as [Hb _]. lia.
  - intros fd raw c v Hfd Hraw Hv. rewrite Hgf. apply (Hin fd (mkEncProperty fd raw) c v); [|done].
    apply (elem_of_stored_props _ _ _ _ Hw); [done|]. split; [|by eexists].
    assert (below (path_of [IDString col; instance del]) (field_key (IDString col) (instance del) d fd)) as Hb.
    { rewrite field_key_app. exists (d +:+ "/" +:+ Sprint (fd_ID fd)). by rewrite str_app_assoc. }
    destruct (sw_keys _ _ _ _ Hw _ _ Hraw Hb) as (_ & d' & fd' & Hst).
    destruct Hst as (Hd' & Hu & Hfd' & E). rewrite !field_key_app in E. apply str_app_inj_l, str_app_inj_l in E.
    assert (d = d') as <- by (by eapply free_prefix_eq; [apply elem_ok_free..|exact E]).
    apply str_app_inj_l, str_app_inj_l in E. unfold Sprint in E. apply (inj pretty) in E.
    destruct (Hdec del d fd raw Hd Hfd Hraw) as [Hb' _]. unfold is_u32 in Hu.
    assert (fd_ID fd = fd_ID fd') as E' by lia. split; [done|]. split; [by rewrite E'|done].
  - intros i Hi Hnone. rewrite Hgf, Hout.
    + rewrite (get_set_field _ _ _ _ _ Eset), decide_False by (unfold DocKeyFieldIndex; lia).
      unfold get_field. cbn [NewDoc Fields]. by rewrite lookup_replicate_2 by lia.
    + intros ([f p] & E & Hf)%list_elem_of_fmap. cbn [fst] in E. destruct (Hps f p Hf) as (raw & Hf1 & Hraw & _).
      destruct (Hdec del d f raw Hd Hf1 Hraw) as [Hb _]. assert (i = fd_ID f) as -> by lia. by rewrite Hnone in Hraw.
Qed.

Lemma sorted_lt_NoDup ds : StronglySorted str_lt ds -> NoDup ds.
Proof.
  induction 1 as [|d ds Hs IH Hall]; [constructor|]. constructor; [|done]. intros Hd.
  rewrite Forall_forall in Hall. by apply Hall, str_lt_irrefl in Hd.
Qed.

(** The kind and the key of a document that a scan returned. *)
Definition doc_id (r : bytes * Doc) : bool * string := (Status r.2 =? Deleted, r.1).

Lemma fetched_ids V col (del : bool) (ds : list string) (rs : list (bytes * Doc)) :
  (forall d, d ∈ ds -> forall r, fetched (if del then Deleted else Active) (col_doc V col del d) r -> r.1 = d /\ holds_doc V col del r) ->
  Forall2 (fetched (if del then Deleted else Active)) (col_doc V col del <$> ds) rs ->
  doc_id <$> rs = pair del <$> ds /\ forall r, r ∈ rs -> holds_doc V col del r /\ (doc_id r).1 = del.
Proof.
  revert rs. induction ds as [|d ds IH]; intros rs Hds HF; cbn in HF.
  - apply Forall2_nil_inv_l in HF as ->. split; [done|]. intros r Hr. by apply elem_of_nil in Hr.
  - apply Forall2_cons_inv_l in HF as (r & rs' & Hr & HF & ->).
    destruct (IH rs') as [IH1 IH2]; [intros d' Hd'; apply Hds; by right|done|].
    destruct (Hds d ltac:(left) r Hr) as [Er Hh].
    assert (doc_id r = (del, d)) as Eid by (unfold doc_id; destruct Hh as [-> _]; rewrite Er; by destruct del).
    split; [cbn [fmap list_fmap]; by rewrite Eid, IH1|]. intros r' [->|Hr']%elem_of_cons; [by rewrite Eid|by apply IH2].
Qed.

(** A scan with the deleted documents, in terms of what is stored. *)
Lemma scan_spec s col df0 df :
  fetcher_Init col false true df0 = Ok df -> collection_wf (view s) col -> decodable (view s) col ->
  exists l k, Sorted doc_le l /\ NoDup (doc_id <$> l) /\
    (forall del d, (del, d) ∈ doc_id <$> l <-> col_has (view s) col del d) /\
    (forall r, r ∈ l -> holds_doc (view s) col (doc_id r).1 r) /\
    forall n, (k < n)%nat -> exists df', fsteps (let* _ := Fetcher_Start None in drainDocs n mapping) s df (Ok l) df'.
Proof.
  intros Hinit Hwf Hdec.
  destruct (fetch_all s col df0 df Hinit Hwf) as (act & del & ra & rd & l & Hsa & Hina & Hsd & Hind & HFa & HFd & Hsort & Hperm & Hrun).
  { intros b d Hd. destruct (DecodeToDoc_stored (view s) col b d Hwf Hdec Hd) as (doc & Hdoc & _). eauto. }
  destruct (fetched_ids (view s) col false act ra) as [Ea Ha]; [|done|].
  { intros d Hd%Hina r. destruct (DecodeToDoc_stored (view s) col false d Hwf Hdec Hd) as (_ & _ & Hh). apply Hh. }
  destruct (fetched_ids (view s) col true del rd) as [Ed Hd]; [|done|].
  { intros d Hd%Hind r. destruct (DecodeToDoc_stored (view s) col true d Hwf Hdec Hd) as (_ & _ & Hh). apply Hh. }
  assert (doc_id <$> l ≡ₚ (pair false <$> act) ++ (pair true <$> del)) as Hids by (by rewrite Hperm, fmap_app, Ea, Ed).
  exists l, (length act + length del)%nat. split; [done|]. split; [|split; [|split]].
  - rewrite Hids. apply NoDup_app. split; [apply NoDup_fmap_2; [by intros x y [=]|by eapply sorted_lt_NoDup]|].
    split; [|apply NoDup_fmap_2; [by intros x y [=]|by eapply sorted_lt_NoDup]].
    intros x (? & -> & _)%list_elem_of_fmap (? & ? & _)%list_elem_of_fmap. done.
  - intros b d. rewrite Hids, elem_of_app, !list_elem_of_fmap. destruct b; [rewrite <- Hind|rewrite <- Hina]; naive_solver.
  - intros r Hr. rewrite Hperm in Hr. apply elem_of_app in Hr as [Hr|Hr]; [destruct (Ha r Hr) as [? ->]|destruct (Hd r Hr) as [? ->]]; done.
  - exact Hrun.
Qed.

(** C11: a scan of a collection with its deleted documents ends and returns every stored
    document of either kind exactly once, in the order of the document keys, with its
    key, its status and the decoded values of its stored fields in their cells, and
    changes nothing in the store. *)
Theorem scan_documents s col df0 df :
  fetcher_Init col false true df0 = Ok df -> collection_wf (view s) col -> decodable (view s) col ->
  exists l k, Sorted doc_le l /\ NoDup (doc_id <$> l) /\
    (forall del d, (del, d) ∈ doc_id <$> l <-> col_has (view s) col del d) /\
    (forall r, r ∈ l -> holds_doc (view s) col (doc_id r).1 r) /\
    forall n, (k < n)%nat -> exists df', fsteps (let* _ := Fetcher_Start None in drainDocs n mapping) s df (Ok l) df'.
Proof. apply scan_spec. Qed.
End Scan.

(** reading the documents of spans that lie apart: every call returns the next
    document, made of the consecutive entries of one document, and the calls end after
    the last one. *)
Theorem fetch_spans {S : Type} `{LawfulDatastore S} `{!Iterable S} `{!LawfulIterable S} `{DsKey}
    (s : S) (fields : gmap Z FieldDescription) f sps rowss n :
  fresh fields f -> Forall2 (span_rows (view s) fields) sps rowss -> spans_apart rowss -> sps <> [] ->
  (length (concat (docs_of <$> rowss)) < n)%nat ->
  exists f', fsteps (let* _ := fmod (fun f => set_spans f sps) in let* _ := startNextSpan in drain n) s f
    (Ok (concat (docs_of <$> rowss))) f'.
Proof.
  intros Hf Hall Hap Hne Hn.
  destruct (startNextSpan_spec (view s) fields s f sps rowss eq_refl Hf Hall Hap Hne) as (b & f1 & Hrun & _ & Hready).
  apply fsteps_then in Hrun as (s1 & Es1 & Hrun).
  destruct (drain_spec (view s) fields _ n s1 f1 Es1 Hready Hn) as [f' Hd]. exists f'. by apply fsteps_bind_mod, Hrun.
Qed.

(** ** Instances, witnesses and runs *)

Module FetchWitness.
Import IterateWitness SchemaWitness.

#[export] Instance CborAny_string : CborAny := {| cbor_Unmarshal_any b := Ok (VString b) |}.
#[local] Existing Instance Iterable_badger.
#[local] Existing Instance LawfulIterable_badger.

Definition enc (s : string) : bytes := String (byte_of 1) s.

Definition two_docs : contents := {[ "/1/d/b/1" := enc "Bob"; "/1/v/a/1" := enc "Ann" ]}.

Definition users_map : DocumentMapping := Add (Add NewDocumentMapping 0 "_key") 1 "name".

Lemma two_docs_inv k v : two_docs !! k = Some v ->
  (k = "/1/d/b/1" /\ v = enc "Bob") \/ (k = "/1/v/a/1" /\ v = enc "Ann").
Proof. unfold two_docs. rewrite lookup_insert_Some, lookup_singleton_Some. naive_solver. Qed.

Lemma two_docs_field del d fd : elem_ok d = true -> is_Some (two_docs !! field_key "1" (instance del) d fd) ->
  d = (if del then "b" else "a").
Proof.
  intros Hd%elem_ok_free [v Hv]. rewrite field_key_app in Hv. apply two_docs_inv in Hv as [[E _]|[E _]]; destruct del; try done.
  - change "/1/d/b/1" with (path_of ["1"; instance true] +:+ "/" +:+ "b" +:+ "/" +:+ "1") in E.
    apply str_app_inj_l, str_app_inj_l in E. by apply free_prefix_eq in E.
  - change "/1/v/a/1" with (path_of ["1"; instance false] +:+ "/" +:+ "a" +:+ "/" +:+ "1") in E.
    apply str_app_inj_l, str_app_inj_l in E. by apply free_prefix_eq in E.
Qed.

Lemma two_docs_wf : collection_wf two_docs users.
Proof.
  intros del. split.
  - intros k v [[-> _]|[-> _]]%two_docs_inv Hge Hle; destruct del; try (by vm_compute in Hge); try (by vm_compute in Hle);
      by apply HasPrefix_spec.
  - split; [done|by destruct del; auto| |].
    + intros k v [[-> ->]|[-> ->]]%two_docs_inv Hb; apply HasPrefix_spec in Hb; destruct del; try done;
        (split; [done|]); [exists "b"|exists "a"]; exists name_field; done.
    + intros d d' fd fd' Hd Hd' H1%two_docs_field H2%two_docs_field _; [congruence|done..].
Qed.

Lemma users_fields : schemaFields users.(cd_Schema).(sd_Fields) = {[ 0 := key_field; 1 := name_field ]}.
Proof. vm_compute. reflexivity. Qed.

Lemma two_docs_decodable : decodable users_map two_docs users.
Proof.
  intros del d fd raw Hd Hfd Hraw. rewrite users_fields in Hfd.
  pose proof (two_docs_field del d fd Hd (mk_is_Some _ _ Hraw)) as ->.
  assert (fd = key_field \/ fd = name_field) as Hf.
  { apply lookup_insert_Some in Hfd as [[_ <-]|[_ Hfd]]; [by left|]. apply lookup_singleton_Some in Hfd as [_ <-]. by right. }
  destruct Hf as [-> | ->], del; vm_compute in Hraw; try discriminate Hraw; injection Hraw as <-;
    (split; [split; vm_compute; reflexivity|by do 2 eexists]).
Qed.

Lemma scan_documents_witness :
  exists l k, Sorted doc_le l /\ NoDup (doc_id <$> l) /\
    (forall del d, (del, d) ∈ doc_id <$> l <-> col_has (view two_docs) users del d) /\
    (forall r, r ∈ l -> holds_doc users_map (view two_docs) users (doc_id r).1 r) /\
    forall n, (k < n)%nat -> exists df', fsteps (S := contents) (let* _ := Fetcher_Start None in drainDocs n users_map) two_docs
      (mkDocumentFetcher (fetcher_init users false new_fetcher) (Some (fetcher_init users false new_fetcher))) (Ok l) df'.
Proof.
  apply (scan_documents users_map two_docs users (mkDocumentFetcher new_fetcher None)
    (mkDocumentFetcher (fetcher_init users false new_fetcher) (Some (fetcher_init users false new_fetcher)))).
  - reflexivity.
  - exact two_docs_wf.
  - exact two_docs_decodable.
Defined.

Definition users_flds : gmap Z FieldDescription := schemaFields users.(cd_Schema).(sd_Fields).

Lemma fetch_spans_witness :
  exists f', fsteps (S := contents) (let* _ := fmod (fun f => set_spans f [Some (collection_span users false)]) in
      let* _ := startNextSpan in drain 5) two_docs (fetcher_init users false new_fetcher)
    (Ok (concat (docs_of <$> [stored_rows (view two_docs) users_flds "/1/v"]))) f'.
Proof.
  apply (fetch_spans two_docs users_flds (fetcher_init users false new_fetcher) [Some (collection_span users false)]
    [stored_rows (view two_docs) users_flds "/1/v"] 5).
  - split; reflexivity.
  - constructor; [|constructor]. destruct (two_docs_wf false) as [Hb Hw].
    exact (collection_span_rows (view two_docs) users_flds users false eq_refl Hb Hw).
  - split; [done|exact I].
  - discriminate.
  - vm_compute. lia.
Defined.

(** two runs of the fetcher that depart from what it means to do.  When it is
    started with a list of spans that is empty, the first call fails instead of finding no
    document.  And in descending order over badger it finds nothing in a collection that
    has a document. *)
Theorem fetch_departures :
  let start reverse := fetcher_init users reverse new_fetcher in
  ((let* _ := fetcher_start (Some []) false in drain 3) (two_docs, start false)).2 = Err NewErrUninitializeProperty /\
  ((let* _ := fetcher_start None false in drain 3) (two_docs, start false)).2 =
    Ok [mkEncoded (Some "a") [(name_field, mkEncProperty name_field (enc "Ann"))]] /\
  ((let* _ := fetcher_start None false in drain 3) (two_docs, start true)).2 = Ok [].
Proof. repeat split; vm_compute; reflexivity. Qed.
End FetchWitness.
