(* ===== verification/ClientDoc.v ===== *)
(** * Client documents (client/document.go, value.go, field.go, dockey.go)

    A document that a client creates or changes: its fields by name, and their values
    with the marks of unsaved changes.  The key of a document is derived from its
    contents.  Go maps are lists of entries in the order in which a loop visits them;
    the values of a document are reached through it only, so they are part of its state.
    Locks are left out. *)

From Stdlib Require Import Ascii.
From S2P Require Import Prelude GoStd Keys Store Crdt Values Desc Schema.

(** ** Document keys *)

(** [uuid] (gofrs), [multibase] and [pref.Sum] (go-cid), as far as keys use them: the
    printed forms are parsed back, a printed UUID has 36 characters, hexadecimal digits and
    dashes, so that neither it nor its successor in the order has a slash, and the Base32 form
    has no dash. *)
Class DocKeyOps `{CidOps} := {
  UUID : Type;
  UUID_eq_dec :: EqDecision UUID;
  uuid_FromString : string -> result UUID;
  uuid_String : UUID -> string;
  uuid_Bytes : UUID -> bytes;
  uuid_NewV5 : string -> UUID;
  uuid_Nil : UUID;
  mbase_Decode : string -> result bytes;
  mbase_Encode32 : bytes -> string;
  prefix_Sum_raw : bytes -> result Cid;
  uuid_roundtrip : forall u, uuid_FromString (uuid_String u) = Ok u;
  uuid_length : forall u, String.length (uuid_String u) = 36%nat;
  uuid_free : forall u, free_of "/" (uuid_String u) = true;
  uuid_next : forall u, exists e, bump_str (uuid_String u) = Some e /\ free_of "/" e = true;
  mbase_roundtrip : forall b, mbase_Decode (mbase_Encode32 b) = Ok b;
  mbase_dash : forall b, free_of "-" (mbase_Encode32 b) = true;
  mbase_free : forall b, free_of "/" (mbase_Encode32 b) = true;
  mbase_nonempty : forall b, mbase_Encode32 b <> "";
}.

Definition DocKeyV0 : Z := 1.

Definition ValidDocKeyVersions (v : Z) : bool := v =? DocKeyV0.

Definition u16 (z : Z) : Z := z mod 2 ^ 16.

Definition ErrMalformedDocKey : error := ErrNew "malformed DocKey, missing either version or cid".
Definition ErrInvalidDocKeyVersion : error := ErrNew "invalid DocKey version".
Definition ErrUvarint : error := ErrNew "binary.ReadUvarint".

(** [strings.SplitN(s, sep, 2)] *)
Definition SplitN2 (s : string) (sep : ascii) : list string :=
  match Split s sep with
  | x :: y :: l => [x; Join (y :: l) sep]
  | l => l
  end.

(** [binary.ReadUvarint] of a buffer. *)
Definition ReadUvarint (buf : bytes) : result Z :=
  let '(x, n) := Uvarint buf in
  if n <=? 0 then Err ErrUvarint else Ok x.

Section DocKeys.
Context `{DocKeyOps}.

Record DocKey := mkDocKey {
  dk_version : Z;
  dk_uuid : UUID;
  dk_cid : Cid;
}.

Definition NewDocKeyV0 (dataCID : Cid) : DocKey := mkDocKey DocKeyV0 (uuid_NewV5 (Cid_String dataCID)) dataCID.

Definition NewDocKeyFromString (key : string) : result DocKey :=
  match SplitN2 key "-" with
  | [versionStr; rest] =>
      let! data := mbase_Decode versionStr in
      let! version := ReadUvarint data in
      if negb (ValidDocKeyVersions (u16 version)) then Err ErrInvalidDocKeyVersion else
      let! uuid := uuid_FromString rest in
      Ok (mkDocKey (u16 version) uuid Cid_Undef)
  | _ => Err ErrMalformedDocKey
  end.

(** [DocKey.String].  The buffer for the version has one byte, so that a version that
    takes two panics. *)
Definition DocKey_String (key : DocKey) : result string :=
  let buf := PutUvarint key.(dk_version) in
  if (String.length buf <=? 1)%nat then Ok (mbase_Encode32 buf +:+ "-" +:+ uuid_String key.(dk_uuid)) else Panic.

(** [DocKey.Bytes], with the version in a buffer of [binary.MaxVarintLen16] bytes. *)
Definition DocKey_Bytes (key : DocKey) : bytes :=
  let buf := PutUvarint key.(dk_version) in
  str_take 3 (buf +:+ String "000" (String "000" (String "000" ""))) +:+ uuid_Bytes key.(dk_uuid).

(** The keys that the code makes. *)
Definition dockey_wf (key : DocKey) : Prop := key.(dk_version) = DocKeyV0.

Lemma NewDocKeyV0_wf c : dockey_wf (NewDocKeyV0 c).
Proof. done. Qed.

Lemma NewDocKeyFromString_wf s k : NewDocKeyFromString s = Ok k -> dockey_wf k.
Proof.
  unfold NewDocKeyFromString. destruct (SplitN2 s "-") as [|a [|b [|c l]]]; try done.
  destruct (mbase_Decode a) as [data| |]; try done. cbn [rbind]. destruct (ReadUvarint data) as [v| |]; try done. cbn [rbind].
  destruct (negb _) eqn:E; [done|]. destruct (uuid_FromString b) as [u| |]; try done. cbn [rbind]. intros [= <-].
  apply Bool.negb_false_iff, Z.eqb_eq in E. exact E.
Qed.

(** The string form of a key. *)
Definition dockey_string (key : DocKey) : string :=
  mbase_Encode32 (String (byte_of 1) "") +:+ "-" +:+ uuid_String key.(dk_uuid).

Lemma DocKey_String_wf k : dockey_wf k -> DocKey_String k = Ok (dockey_string k).
Proof. unfold DocKey_String. by intros ->. Qed.

Lemma SplitN2_app x y sep : free_of sep x = true -> SplitN2 (x +:+ String sep y) sep = [x; y].
Proof.
  intros Hx. unfold SplitN2. rewrite Split_app by done. destruct (Split y sep) as [|a l] eqn:E; [by apply Split_not_nil in E|].
  by rewrite <- E, Join_Split.
Qed.

Lemma NewDocKeyFromString_version v data u :
  ReadUvarint data = Ok v -> u16 v = DocKeyV0 ->
  NewDocKeyFromString (mbase_Encode32 data +:+ "-" +:+ uuid_String u) = Ok (mkDocKey DocKeyV0 u Cid_Undef).
Proof.
  intros Hr Hv. unfold NewDocKeyFromString. change ("-" +:+ uuid_String u) with (String "-" (uuid_String u)).
  rewrite SplitN2_app, mbase_roundtrip by apply mbase_dash. cbn [rbind]. rewrite Hr. cbn [rbind]. rewrite Hv. cbn [negb ValidDocKeyVersions].
  by rewrite uuid_roundtrip.
Qed.

(** Parsing the string form of a key gives the key back, up to the CID it was made from. *)
Lemma NewDocKeyFromString_String k : dockey_wf k ->
  NewDocKeyFromString (dockey_string k) = Ok (mkDocKey DocKeyV0 k.(dk_uuid) Cid_Undef).
Proof.
  intros _. by apply (NewDocKeyFromString_version 1).
Qed.
End DocKeys.

(** ** Fields and values *)

Record simpleField := mkSimpleField {
  sf_name : string;
  sf_crdtType : Z;
  sf_schemaType : string;
}.

#[global] Instance simpleField_eq_dec : EqDecision simpleField.
Proof. solve_decision. Defined.

(** A value is one of the dynamic values that CBOR encodes ([cborValue]), or a document
    of the type [D] ([simpleValue] with a [*Document]). *)
Record simpleValue (D : Type) := mkSimpleValue {
  sv_t : Z;
  sv_value : val + D;
  sv_isDirty : bool;
  sv_delete : bool;
}.
Arguments mkSimpleValue {_} _ _ _ _.
Arguments sv_t {_} _.
Arguments sv_value {_} _.
Arguments sv_isDirty {_} _.
Arguments sv_delete {_} _.

Definition newValue {D} (t : Z) (v : val + D) : simpleValue D := mkSimpleValue t v true false.

Definition IsDocument {D} (v : simpleValue D) : bool := match v.(sv_value) with inr _ => true | inl _ => false end.

Definition value_Clean {D} (v : simpleValue D) : simpleValue D := mkSimpleValue v.(sv_t) v.(sv_value) false false.

Definition value_Delete {D} (v : simpleValue D) : simpleValue D := mkSimpleValue v.(sv_t) v.(sv_value) true true.

(** Go maps as lists of entries. *)
Section Assoc.
Context {K V : Type} `{EqDecision K}.

Fixpoint assoc (k : K) (l : list (K * V)) : option V :=
  match l with
  | [] => None
  | (k', v) :: l => if decide (k' = k) then Some v else assoc k l
  end.

Fixpoint assoc_put (k : K) (v : V) (l : list (K * V)) : list (K * V) :=
  match l with
  | [] => [(k, v)]
  | (k', v') :: l => if decide (k' = k) then (k, v) :: l else (k', v') :: assoc_put k v l
  end.

Lemma assoc_put_eq k v l : assoc k (assoc_put k v l) = Some v.
Proof. induction l as [|[k' v'] l IH]; cbn; [by rewrite decide_True|]. case_decide; cbn; [by rewrite decide_True|]. by rewrite decide_False. Qed.

Lemma assoc_put_ne k k' v l : k <> k' -> assoc k (assoc_put k' v l) = assoc k l.
Proof.
  intros Hne. induction l as [|[k1 v1] l IH]; cbn; [by rewrite decide_False|].
  destruct (decide (k1 = k')) as [->|]; cbn; [by rewrite !decide_False by done|]. case_decide; [done|]. exact IH.
Qed.

Lemma assoc_put_keys k v l : (assoc_put k v l).*1 = if decide (k ∈ l.*1) then l.*1 else l.*1 ++ [k].
Proof.
  induction l as [|[k1 v1] l IH]; cbn; [done|].
  destruct (decide (k1 = k)) as [->|Hne]; cbn; [rewrite decide_True by left; done|].
  rewrite IH. destruct (decide (k ∈ l.*1)) as [Hin|Hin].
  - by rewrite decide_True by (by right).
  - rewrite decide_False; [done|]. intros [?|?]%elem_of_cons; congruence.
Qed.

Lemma assoc_Some_in k v l : assoc k l = Some v -> (k, v) ∈ l.
Proof. induction l as [|[k1 v1] l IH]; [done|]. cbn. case_decide; [intros [= <-]; subst; left|]. intros E. right. auto. Qed.

Lemma assoc_None k l : assoc k l = None <-> k ∉ l.*1.
Proof.
  induction l as [|[k1 v1] l IH]; cbn; [split; [intros _; apply not_elem_of_nil|done]|].
  rewrite not_elem_of_cons, <- IH. case_decide; naive_solver.
Qed.

Lemma assoc_NoDup k v l : NoDup l.*1 -> (k, v) ∈ l -> assoc k l = Some v.
Proof.
  induction l as [|[k1 v1] l IH]; cbn; [by intros _ ?%elem_of_nil|]. intros [Hk Hnd]%NoDup_cons [[= -> ->]|Hin]%elem_of_cons.
  - by rewrite decide_True.
  - rewrite decide_False; [by apply IH|]. intros ->. apply Hk. apply list_elem_of_fmap. by exists (k, v).
Qed.

Lemma NoDup_assoc_put k v l : NoDup l.*1 -> NoDup (assoc_put k v l).*1.
Proof.
  intros Hnd. rewrite assoc_put_keys. case_decide as Hin; [done|]. apply NoDup_app. split; [done|].
  split; [intros x Hx ->%list_elem_of_singleton; done|apply NoDup_singleton].
Qed.
End Assoc.

(** ** Documents *)

(** What a client passes for a field: the types that [setAndParseType] tells apart. *)
Inductive input :=
  | INil
  | IInt (z : Z)
  | IFloat (f : float64)
  | IScalar (v : val)
  | IMap (l : list (string * input))
  | IOther (v : val).

Section Documents.
Context `{DocKeyOps}.

Inductive Document :=
  | mkDocument (key : DocKey) (fields : list (string * simpleField)) (values : list (simpleField * simpleValue Document))
      (head : Cid) (isDirty : bool).

Definition d_key (d : Document) : DocKey := let 'mkDocument k _ _ _ _ := d in k.
Definition d_fields (d : Document) : list (string * simpleField) := let 'mkDocument _ f _ _ _ := d in f.
Definition d_values (d : Document) : list (simpleField * simpleValue Document) := let 'mkDocument _ _ v _ _ := d in v.
Definition d_head (d : Document) : Cid := let 'mkDocument _ _ _ h _ := d in h.
Definition d_isDirty (d : Document) : bool := let 'mkDocument _ _ _ _ b := d in b.

Abbreviation Value := (simpleValue Document).

(** [DocKey{}] *)
Definition zero_key : DocKey := mkDocKey 0 uuid_Nil Cid_Undef.

Definition newEmptyDoc : Document := mkDocument zero_key [] [] Cid_Undef false.

Definition NewDocWithKey (key : DocKey) : Document := mkDocument key [] [] Cid_Undef false.

Definition Head (d : Document) : Cid := d_head d.
Definition SetHead (h : Cid) (d : Document) : Document := let 'mkDocument k f v _ b := d in mkDocument k f v h b.
Definition doc_Key (d : Document) : DocKey := d_key d.

Definition set_values (d : Document) (vs : list (simpleField * Value)) : Document :=
  let 'mkDocument k f _ h b := d in mkDocument k f vs h b.

Definition NewErrFieldNotExist : error := ErrNew "The given field does not exist".
Definition ErrFieldNotObject : error := ErrNew "trying to access field on a non object type".

Definition GetValueWithField (d : Document) (f : simpleField) : result Value :=
  match assoc f (d_values d) with Some v => Ok v | None => Err NewErrFieldNotExist end.

(** [GetValue] with the elements of a path: [parseFieldPath] takes the first one off. *)
Fixpoint GetValue_path (path : string) (subPaths : list string) (d : Document) : result Value :=
  match assoc path (d_fields d) with
  | None => Err NewErrFieldNotExist
  | Some f =>
      let! v := GetValueWithField d f in
      match subPaths with
      | [] => Ok v
      | path :: subPaths =>
          match v.(sv_value) with
          | inl _ => Err ErrFieldNotObject
          | inr sub => GetValue_path path subPaths sub
          end
      end
  end.

Definition GetValue (d : Document) (field : string) : result Value :=
  match Split field "/" with
  | [] => Err NewErrFieldNotExist
  | path :: subPaths => GetValue_path path subPaths d
  end.

Definition doc_Get (d : Document) (field : string) : result (val + Document) :=
  let! v := GetValue d field in Ok v.(sv_value).

Definition newField (t : Z) (name : string) : simpleField := mkSimpleField name t "".

(** [Document.set] *)
Definition doc_set (t : Z) (field : string) (value : Value) (d : Document) : Document :=
  let 'mkDocument k fields values h _ := d in
  match assoc field fields with
  | Some f => mkDocument k fields (assoc_put f value values) h true
  | None =>
      let f := newField t field in
      mkDocument k (assoc_put field f fields) (assoc_put f value values) h true
  end.

Definition setCBOR (t : Z) (field : string) (v : val) : Document -> Document := doc_set t field (newValue t (inl v)).
Definition setObject (t : Z) (field : string) (sub : Document) : Document -> Document := doc_set t field (newValue t (inr sub)).
Definition SetAs (field : string) (v : val) (t : Z) : Document -> Document := setCBOR t field v.

Definition mset (u : Document -> Document) : M Document unit := fun d => (u d, Ok tt).

Definition OBJECT : Z := 2.

(** [float64(int64(val)) == val]: a float that is an integer is stored as one. *)
Definition float_value (f : float64) : val :=
  if f64_eqb (f64_of_Z (Z_of_f64 f)) f then VInt KInt64 (Z_of_f64 f) else VFloat64 f.

(** [setAndParseType], and [setAndParseObjectType] for a map. *)
Fixpoint setAndParseType (field : string) (value : input) : M Document unit :=
  match value with
  | INil => mret tt
  | IInt z => mset (setCBOR LWW_REGISTER field (VInt KInt64 z))
  | IFloat f => mset (setCBOR LWW_REGISTER field (float_value f))
  | IScalar v => mset (setCBOR LWW_REGISTER field v)
  | IMap l => fun d =>
      let '(subDoc, r) :=
        (fix setAll (l : list (string * input)) : M Document unit :=
           match l with
           | [] => mret tt
           | (k, v) :: l => let* _ := setAndParseType k v in setAll l
           end) l newEmptyDoc in
      match r with
      | Ok _ => (setObject OBJECT field subDoc d, Ok tt)
      | Err e => (d, Err e)
      | Panic => (d, Panic)
      end
  | IOther _ => mfail ErrUnexpectedType
  end.

Fixpoint setAndParseObjectType (value : list (string * input)) : M Document unit :=
  match value with
  | [] => mret tt
  | (k, v) :: value => let* _ := setAndParseType k v in setAndParseObjectType value
  end.

Definition doc_Set (field : string) (value : input) : M Document unit := setAndParseType field value.

(** [Document.Delete] *)
Fixpoint doc_Delete (fields : list string) : M Document unit :=
  match fields with
  | [] => mret tt
  | f :: fields => fun d =>
      match assoc f (d_fields d) with
      | None => (d, Err NewErrFieldNotExist)
      | Some field =>
          match assoc field (d_values d) with
          | None => (d, Panic)
          | Some v => doc_Delete fields (set_values d (assoc_put field (value_Delete v) (d_values d)))
          end
      end
  end.

(** [SetWithJSON], after the patch is parsed. *)
Fixpoint SetWithPatch (patch : list (string * input)) : M Document unit :=
  match patch with
  | [] => mret tt
  | (k, v) :: patch =>
      let* _ := match v with INil => doc_Delete [k] | _ => doc_Set k v end in
      SetWithPatch patch
  end.

(** One round of [Clean].  The value that is cleaned at the end is the one read at the
    start of the round; when it is deleted, [SetAs] has put a new value in its place. *)
Definition cleanField (f : simpleField) : M Document unit := fun d =>
  match assoc f (d_values d) with
  | None => (d, Panic)
  | Some v =>
      if v.(sv_isDirty) then
        let d := if v.(sv_delete) then SetAs f.(sf_name) VNil f.(sf_crdtType) d else d in
        let replaced := v.(sv_delete) && bool_decide (assoc f.(sf_name) (d_fields d) = Some f) in
        (if replaced then d else set_values d (assoc_put f (value_Clean v) (d_values d)), Ok tt)
      else (d, Ok tt)
  end.

Fixpoint cleanFields (fields : list (string * simpleField)) : M Document unit :=
  match fields with
  | [] => mret tt
  | (_, f) :: fields => let* _ := cleanField f in cleanFields fields
  end.

Definition doc_Clean : M Document unit := fun d => cleanFields (d_fields d) d.

(** [toMap].  The map of a sub-document is made, and with it its errors, but the entry is
    then overwritten by the value itself, which is the document. *)
Fixpoint toMap (d : Document) : result (list (string * (val + Document))) :=
  let 'mkDocument _ fields values _ _ := d in
  let subs :=
    (fix subs (vs : list (simpleField * Value)) : list (simpleField * result (val + Document)) :=
       match vs with
       | [] => []
       | (f, v) :: vs =>
           (f, match v.(sv_value) with
               | inr sub => let! _ := toMap sub in Ok (inr sub)
               | inl x => Ok (inl x)
               end) :: subs vs
       end) values in
  (fix collect (fs : list (string * simpleField)) : result (list (string * (val + Document))) :=
     match fs with
     | [] => Ok []
     | (k, f) :: fs =>
         let! x := match assoc f subs with Some r => r | None => Err NewErrFieldNotExist end in
         let! l := collect fs in
         Ok ((k, x) :: l)
     end) fields.

(** [ToMap]: the same with the string form of the key, also of the sub-documents. *)
Fixpoint toMapWithKey (d : Document) : result (list (string * (val + Document))) :=
  let 'mkDocument key fields values _ _ := d in
  let subs :=
    (fix subs (vs : list (simpleField * Value)) : list (simpleField * result (val + Document)) :=
       match vs with
       | [] => []
       | (f, v) :: vs =>
           (f, match v.(sv_value) with
               | inr sub => let! _ := toMapWithKey sub in Ok (inr sub)
               | inl x => Ok (inl x)
               end) :: subs vs
       end) values in
  let! l :=
    (fix collect (fs : list (string * simpleField)) : result (list (string * (val + Document))) :=
       match fs with
       | [] => Ok []
       | (k, f) :: fs =>
           let! x := match assoc f subs with Some r => r | None => Err NewErrFieldNotExist end in
           let! l := collect fs in
           Ok ((k, x) :: l)
       end) fields in
  let! s := DocKey_String key in
  Ok (assoc_put "_key" (inl (VString s)) l).

Definition ToMap (d : Document) : result (list (string * (val + Document))) := toMapWithKey d.
End Documents.

(** The codecs of documents: canonical CBOR, which does not depend on the order of a map
    and shows nothing of a document, whose struct has no exported fields ([None]); and
    JSON objects, which have each key once. *)
Class DocCodec := {
  cbor_canonical : list (string * option val) -> result bytes;
  json_object : bytes -> result (list (string * input));
  cbor_canonical_perm : forall l l', l ≡ₚ l' -> cbor_canonical l = cbor_canonical l';
  json_object_keys : forall b l, json_object b = Ok l -> NoDup l.*1;
  json_object_total : forall b, json_object b <> Panic;
}.

Section NewDocs.
Context `{DocKeyOps} `{DocCodec}.

Definition exported (x : val + Document) : option val := match x with inl v => Some v | inr _ => None end.

Definition doc_Bytes (d : Document) : result bytes :=
  let! docMap := toMap d in
  cbor_canonical (prod_map id exported <$> docMap).

Definition set_key (k : DocKey) (d : Document) : Document := let 'mkDocument _ f v h b := d in mkDocument k f v h b.

Definition assoc_delete {V} (k : string) (l : list (string * V)) : list (string * V) :=
  List.filter (fun e => negb (String.eqb e.1 k)) l.

(** [NewDocFromMap]: the map of the caller loses its key. *)
Definition NewDocFromMap : M (list (string * input)) Document := fun data =>
  match assoc "_key" data with
  | Some k =>
      let data := assoc_delete "_key" data in
      (data,
       let! kstr := match k with IScalar (VString s) => Ok s | _ => Err ErrUnexpectedType end in
       let! key := NewDocKeyFromString kstr in
       let '(doc, r) := setAndParseObjectType data (NewDocWithKey key) in
       let! _ := r in
       Ok doc)
  | None =>
      (data,
       let '(doc, r) := setAndParseObjectType data newEmptyDoc in
       let! _ := r in
       let! buf := doc_Bytes doc in
       let! c := prefix_Sum_raw buf in
       Ok (set_key (NewDocKeyV0 c) doc))
  end.

Definition NewDocFromJSON (obj : bytes) : result Document :=
  let! data := json_object obj in
  (NewDocFromMap data).2.

Definition SetWithJSON (patch : bytes) : M Document unit :=
  let* patchObj := mlift (json_object patch) in
  SetWithPatch patchObj.
End NewDocs.

(** ** Well-formed documents

    The two maps of a document agree: a field is filed under its name, and the values are
    those of the fields. *)

Section Wf.
Context `{DocKeyOps}.
Abbreviation Value := (simpleValue Document).

Record shape (fields : list (string * simpleField)) (values : list (simpleField * Value)) : Prop := {
  sh_fields : NoDup fields.*1;
  sh_names : forall n f, (n, f) ∈ fields -> f.(sf_name) = n;
  sh_values : NoDup values.*1;
  sh_agree : forall f, f ∈ values.*1 <-> (f.(sf_name), f) ∈ fields;
}.

Inductive doc_wf (d : Document) : Prop :=
  | doc_wf_intro : shape (d_fields d) (d_values d) ->
      (forall f v sub, (f, v) ∈ d_values d -> v.(sv_value) = inr sub -> doc_wf sub) -> doc_wf d.

Lemma doc_wf_shape d : doc_wf d -> shape (d_fields d) (d_values d).
Proof. by intros []. Qed.

Definition value_wf (v : Value) : Prop := forall sub, v.(sv_value) = inr sub -> doc_wf sub.

Lemma shape_value fields values n f :
  shape fields values -> assoc n fields = Some f -> f.(sf_name) = n /\ exists v, assoc f values = Some v.
Proof.
  intros Hs Hf%assoc_Some_in. pose proof (sh_names _ _ Hs _ _ Hf) as E. split; [done|].
  destruct (assoc f values) as [v|] eqn:Ev; [by eexists|]. apply assoc_None in Ev. exfalso. apply Ev.
  apply (sh_agree _ _ Hs). by rewrite E.
Qed.

Lemma shape_put fields values n f v :
  shape fields values -> assoc n fields = Some f -> shape fields (assoc_put f v values).
Proof.
  intros Hs Hf. destruct (shape_value _ _ _ _ Hs Hf) as [En [w Ew]]. split.
  - apply (sh_fields _ _ Hs).
  - apply (sh_names _ _ Hs).
  - apply NoDup_assoc_put, (sh_values _ _ Hs).
  - intros g. rewrite assoc_put_keys, decide_True; [apply (sh_agree _ _ Hs)|].
    apply list_elem_of_fmap. exists (f, w). split; [done|]. by apply assoc_Some_in.
Qed.

Lemma assoc_put_new {K V} `{EqDecision K} (k : K) (v : V) l : assoc k l = None -> assoc_put k v l = l ++ [(k, v)].
Proof. induction l as [|[k1 v1] l IH]; cbn; [done|]. case_decide; [done|]. intros E. by rewrite IH. Qed.

Lemma shape_new fields values n f v :
  shape fields values -> assoc n fields = None -> f.(sf_name) = n ->
  shape (assoc_put n f fields) (assoc_put f v values).
Proof.
  intros Hs Hn En. pose proof (proj1 (assoc_None _ _) Hn) as Hni.
  assert (assoc f values = None) as Hf.
  { apply assoc_None. intros Hin%(sh_agree _ _ Hs). apply Hni. apply list_elem_of_fmap. exists (n, f). by rewrite <- En. }
  split.
  - apply NoDup_assoc_put, (sh_fields _ _ Hs).
  - intros n' f'. rewrite assoc_put_new by done. intros [Hin|[= -> ->]%list_elem_of_singleton]%elem_of_app; [|done].
    by apply (sh_names _ _ Hs).
  - apply NoDup_assoc_put, (sh_values _ _ Hs).
  - intros g. rewrite !assoc_put_new by done. rewrite fmap_app, !elem_of_app, (sh_agree _ _ Hs).
    cbn [fmap list_fmap fst]. rewrite !list_elem_of_singleton. split; [|by intros [?|[= <- ->]]; auto].
    intros [Hl| ->]; [by left|right; by rewrite En].
Qed.

Lemma assoc_put_in {K V} `{EqDecision K} (k k' : K) (v v' : V) l :
  (k', v') ∈ assoc_put k v l -> (k' = k /\ v' = v) \/ (k', v') ∈ l.
Proof.
  induction l as [|[k1 v1] l IH]; cbn.
  - intros [= -> ->]%list_elem_of_singleton. by left.
  - case_decide; intros [[= -> ->]|Hin]%elem_of_cons.
    + by left.
    + right. by right.
    + right. left.
    + destruct (IH Hin) as [?|?]; [by left|right; by right].
Qed.

Lemma doc_wf_set t n v d : doc_wf d -> value_wf v -> doc_wf (doc_set t n v d).
Proof.
  intros [Hs Hsub] Hv. destruct d as [k fields values h b]. cbn [d_fields d_values] in *. unfold doc_set.
  destruct (assoc n fields) as [f|] eqn:E; split; cbn [d_fields d_values]; eauto using shape_put, shape_new;
    intros g w sub [[-> ->]|Hin]%assoc_put_in; eauto.
Qed.

Lemma doc_wf_put f v d n :
  doc_wf d -> assoc n (d_fields d) = Some f -> value_wf v -> doc_wf (set_values d (assoc_put f v (d_values d))).
Proof.
  intros [Hs Hsub] Hf Hv. destruct d as [k fields values h b]. cbn [set_values d_fields d_values] in *.
  split; cbn [d_fields d_values]; [by eapply shape_put|].
  intros g w sub [[-> ->]|Hin]%assoc_put_in; eauto.
Qed.

Lemma doc_wf_value d f v : doc_wf d -> assoc f (d_values d) = Some v -> value_wf v.
Proof. intros [_ Hsub] Hv%assoc_Some_in sub Hd. by eapply Hsub. Qed.

(** Operations that keep documents well-formed and do not panic. *)
Definition wf_op (m : M Document unit) : Prop :=
  forall d, doc_wf d -> doc_wf (m d).1 /\ (m d).2 <> Panic.

Lemma wf_op_ret : wf_op (mret tt).
Proof. done. Qed.

Lemma wf_op_bind m k : wf_op m -> wf_op k -> wf_op (mbind m (fun _ => k)).
Proof.
  intros Hm Hk d Hd. destruct (Hm d Hd) as [Hw Hp]. unfold mbind. destruct (m d) as [d' r]. cbn [fst snd] in *.
  destruct r; [by apply Hk|done|done].
Qed.

Lemma wf_op_cbor t n v : wf_op (mset (setCBOR t n v)).
Proof. intros d Hd. split; [|done]. apply doc_wf_set; [done|]. by intros sub [=]. Qed.

Lemma doc_wf_empty k h b : doc_wf (mkDocument k [] [] h b).
Proof.
  split; [|by intros ? ? ? ?%elem_of_nil]. split; [apply NoDup_nil_2|by intros ? ? ?%elem_of_nil|apply NoDup_nil_2|].
  intros f. split; intros Hin; by apply elem_of_nil in Hin.
Qed.

Lemma input_nested_ind (P : input -> Prop) :
  P INil -> (forall z, P (IInt z)) -> (forall f, P (IFloat f)) -> (forall v, P (IScalar v)) ->
  (forall l, Forall (fun e => P e.2) l -> P (IMap l)) -> (forall v, P (IOther v)) -> forall i, P i.
Proof.
  intros H1 H2 H3 H4 H5 H6. fix IH 1. intros [|z|f|v|l|v]; [done..| |done]. apply H5.
  induction l as [|[k i] l IHl]; constructor; [apply IH|exact IHl].
Qed.

Lemma setAndParseType_map n l d :
  setAndParseType n (IMap l) d =
    let '(subDoc, r) := setAndParseObjectType l newEmptyDoc in
    match r with
    | Ok _ => (setObject OBJECT n subDoc d, Ok tt)
    | Err e => (d, Err e)
    | Panic => (d, Panic)
    end.
Proof.
  cbn [setAndParseType]. generalize (newEmptyDoc). intros d0.
  enough (forall d0, (fix setAll (l : list (string * input)) : M Document unit :=
           match l with
           | [] => mret tt
           | (k, v) :: l => let* _ := setAndParseType k v in setAll l
           end) l d0 = setAndParseObjectType l d0) as -> by done.
  clear d0. induction l as [|[k v] l IH]; intros d0; [done|]. cbn [setAndParseObjectType]. unfold mbind.
  destruct (setAndParseType k v d0) as [d1 [ | | ]]; [apply IH|done|done].
Qed.

Lemma wf_op_all l : Forall (fun e => forall n, wf_op (setAndParseType n e.2)) l -> wf_op (setAndParseObjectType l).
Proof.
  induction 1 as [|[k v] l Hv _ IH]; [apply wf_op_ret|]. cbn [setAndParseObjectType]. by apply wf_op_bind.
Qed.

Lemma wf_op_Set v : forall n, wf_op (setAndParseType n v).
Proof.
  induction v as [|z|f|v|l IH|v] using input_nested_ind; intros n; [apply wf_op_ret|apply wf_op_cbor..| |done].
  intros d Hd. rewrite setAndParseType_map. destruct (wf_op_all l IH newEmptyDoc (doc_wf_empty _ _ _)) as [Hw Hp].
  destruct (setAndParseObjectType l newEmptyDoc) as [sub [ | | ]]; [|done|done]. split; [|done].
  apply doc_wf_set; [done|]. by intros sub' [= <-].
Qed.

Lemma wf_op_Set_all l : wf_op (setAndParseObjectType l).
Proof. apply wf_op_all. apply Forall_forall. intros e _ n. apply wf_op_Set. Qed.

Lemma wf_op_Delete fs : wf_op (doc_Delete fs).
Proof.
  induction fs as [|n fs IH]; [apply wf_op_ret|]. intros d Hd. cbn [doc_Delete].
  destruct (assoc n (d_fields d)) as [f|] eqn:E; [|done].
  destruct (shape_value _ _ _ _ (doc_wf_shape _ Hd) E) as [_ [v Ev]]. rewrite Ev. apply IH.
  eapply doc_wf_put; [done..|]. exact (doc_wf_value _ _ _ Hd Ev).
Qed.

Lemma wf_op_patch p : wf_op (SetWithPatch p).
Proof.
  induction p as [|[n v] p IH]; [apply wf_op_ret|]. cbn [SetWithPatch]. apply wf_op_bind; [|done].
  destruct v; apply wf_op_Delete || apply wf_op_Set.
Qed.

(** ** What [Clean] does *)

(** A value after [Clean]: a dirty one is cleaned, except that a deleted one is replaced by
    a new value, which is dirty. *)
Definition cleaned (f : simpleField) (v : Value) : Value :=
  if v.(sv_isDirty) then
    if v.(sv_delete) then newValue f.(sf_crdtType) (inl VNil) else value_Clean v
  else v.

Definition field_in (d : Document) (f : simpleField) : Prop := assoc f.(sf_name) (d_fields d) = Some f.

Lemma cleanField_wf d f v :
  doc_wf d -> field_in d f -> assoc f (d_values d) = Some v ->
  exists d', cleanField f d = (d', Ok tt) /\ d_fields d' = d_fields d /\ d_key d' = d_key d /\ doc_wf d' /\
    forall g, assoc g (d_values d') = if decide (g = f) then Some (cleaned f v) else assoc g (d_values d).
Proof.
  intros Hd Hf Hv. unfold cleanField. rewrite Hv. unfold cleaned. unfold field_in in Hf.
  assert (forall g w, assoc g (assoc_put f w (d_values d)) = if decide (g = f) then Some w else assoc g (d_values d)) as Hput.
  { intros g w. case_decide as E; [subst g; apply assoc_put_eq|by apply assoc_put_ne]. }
  destruct (sv_isDirty v).
  - destruct (sv_delete v); cbn [andb].
    + assert (SetAs (sf_name f) VNil (sf_crdtType f) d =
        let 'mkDocument k fs vs h b := d in mkDocument k fs (assoc_put f (newValue (sf_crdtType f) (inl VNil)) vs) h true) as E.
      { destruct d as [k fs vs h b]. cbn [d_fields] in Hf. unfold SetAs, setCBOR, doc_set. by rewrite Hf. }
      rewrite E. destruct d as [k fs vs h b]. cbn [d_fields d_values d_key] in *. rewrite bool_decide_true by done.
      eexists. split; [done|]. split; [done|]. split; [done|]. split; [|intros g; apply Hput].
      rewrite <- E. apply doc_wf_set; [done|]. by intros sub [=].
    + eexists. split; [done|]. destruct d as [k fs vs h b]. cbn [set_values d_fields d_values d_key] in *.
      split; [done|]. split; [done|]. split; [|intros g; apply Hput].
      apply (doc_wf_put f (value_Clean v) (mkDocument k fs vs h b) (sf_name f)); [done..|].
      exact (doc_wf_value _ _ _ Hd Hv).
  - exists d. split; [done|]. split; [done|]. split; [done|]. split; [done|]. intros g. by case_decide as E; [subst g|].
Qed.

Lemma cleanFields_wf fs d :
  doc_wf d -> NoDup fs.*1 -> (forall n f, (n, f) ∈ fs -> f.(sf_name) = n /\ field_in d f) ->
  exists d', cleanFields fs d = (d', Ok tt) /\ d_fields d' = d_fields d /\ d_key d' = d_key d /\ doc_wf d' /\
    forall g, assoc g (d_values d') = if decide (g ∈ fs.*2) then cleaned g <$> assoc g (d_values d) else assoc g (d_values d).
Proof.
  revert d. induction fs as [|[n f] fs IH]; intros d Hd Hnd Hin.
  { exists d. cbn. split; [done|]. split; [done|]. split; [done|]. by split. }
  destruct (Hin n f ltac:(left)) as [En Hf].
  destruct (shape_value _ _ _ _ (doc_wf_shape _ Hd) Hf) as [_ [v Hv]].
  destruct (cleanField_wf d f v Hd Hf Hv) as (d1 & E1 & Ef1 & Ek1 & Hw1 & Hv1).
  apply NoDup_cons in Hnd as [Hn Hnd].
  assert (f ∉ fs.*2) as Hfs.
  { intros ([n' f'] & -> & Hx)%list_elem_of_fmap. apply Hn. cbn [snd] in *.
    destruct (Hin n' f' ltac:(by right)) as [En' _]. apply list_elem_of_fmap. exists (n', f'). split; [|done]. cbn. congruence. }
  destruct (IH d1 Hw1 Hnd) as (d2 & E2 & Ef2 & Ek2 & Hw2 & Hv2).
  { intros n' f' Hx. destruct (Hin n' f' ltac:(by right)) as [? ?]. unfold field_in. by rewrite Ef1. }
  exists d2. split; [cbn [cleanFields]; unfold mbind; by rewrite E1|]. split; [congruence|]. split; [congruence|].
  split; [done|]. intros g. rewrite Hv2, Hv1. cbn [fmap list_fmap snd].
  destruct (decide (g = f)) as [->|Hne].
  - rewrite decide_False by done. rewrite decide_True by left. by rewrite Hv.
  - case_decide as Hg; [by rewrite decide_True by (by right)|]. rewrite decide_False; [done|].
    by intros [?|?]%elem_of_cons.
Qed.

Lemma doc_Clean_wf d : doc_wf d ->
  exists d', doc_Clean d = (d', Ok tt) /\ d_fields d' = d_fields d /\ d_key d' = d_key d /\ doc_wf d' /\
    forall g, assoc g (d_values d') = cleaned g <$> assoc g (d_values d).
Proof.
  intros Hd. pose proof (doc_wf_shape _ Hd) as Hs.
  destruct (cleanFields_wf (d_fields d) d Hd (sh_fields _ _ Hs)) as (d' & E & Ef & Ek & Hw & Hv).
  { intros n f Hin. pose proof (sh_names _ _ Hs _ _ Hin) as En. split; [done|]. unfold field_in. rewrite En.
    apply assoc_NoDup; [apply (sh_fields _ _ Hs)|done]. }
  exists d'. split; [done|]. split; [done|]. split; [done|]. split; [done|]. intros g. rewrite Hv. case_decide as Hg; [done|].
  replace (assoc g (d_values d)) with (@None Value); [done|]. symmetry. apply assoc_None.
  intros Hin%(sh_agree _ _ Hs). apply Hg. apply list_elem_of_fmap. by exists (sf_name g, g).
Qed.
End Wf.

(** ** The contents of a document *)

Section Contents.
Context `{DocKeyOps}.
Abbreviation Value := (simpleValue Document).

(** The fields with their values, in the order of the fields. *)
Definition doc_contents (d : Document) : list (string * (val + Document)) :=
  omap (fun e => (fun v : Value => (e.1, v.(sv_value))) <$> assoc e.2 (d_values d)) (d_fields d).

(** The common part of [toMap] and [toMapWithKey], which [rec] stands for. *)
Definition mapped (rec : Document -> result (list (string * (val + Document)))) (v : Value) : result (val + Document) :=
  match v.(sv_value) with
  | inr sub => let! _ := rec sub in Ok (inr sub)
  | inl x => Ok (inl x)
  end.

Definition collected (get : simpleField -> option (result (val + Document)))
    : list (string * simpleField) -> result (list (string * (val + Document))) :=
  fix collect fs :=
    match fs with
    | [] => Ok []
    | (k, f) :: fs =>
        let! x := match get f with Some r => r | None => Err NewErrFieldNotExist end in
        let! l := collect fs in
        Ok ((k, x) :: l)
    end.

Lemma assoc_mapped rec f (vs : list (simpleField * Value)) :
  assoc f ((fix subs (vs : list (simpleField * Value)) : list (simpleField * result (val + Document)) :=
       match vs with
       | [] => []
       | (f, v) :: vs =>
           (f, match v.(sv_value) with
               | inr sub => let! _ := rec sub in Ok (inr sub)
               | inl x => Ok (inl x)
               end) :: subs vs
       end) vs) = mapped rec <$> assoc f vs.
Proof. induction vs as [|[g v] vs IH]; [done|]. cbn [assoc]. case_decide; [done|exact IH]. Qed.

Lemma collected_ext g g' fs : (forall f, g f = g' f) -> collected g fs = collected g' fs.
Proof. intros E. induction fs as [|[k f] fs IH]; [done|]. cbn [collected]. by rewrite E, IH. Qed.

Lemma toMap_collected d :
  toMap d = collected (fun f => mapped toMap <$> assoc f (d_values d)) (d_fields d).
Proof.
  destruct d as [k fs vs h b]. cbn [d_values d_fields].
  rewrite <- (collected_ext _ _ fs (fun f => assoc_mapped toMap f vs)). reflexivity.
Qed.

Lemma toMapWithKey_collected d :
  toMapWithKey d =
    let! l := collected (fun f => mapped toMapWithKey <$> assoc f (d_values d)) (d_fields d) in
    let! s := DocKey_String (d_key d) in
    Ok (assoc_put "_key" (inl (VString s)) l).
Proof.
  destruct d as [k fs vs h b]. cbn [d_values d_fields d_key].
  rewrite <- (collected_ext _ _ fs (fun f => assoc_mapped toMapWithKey f vs)). reflexivity.
Qed.

Lemma collected_wf rec d :
  doc_wf d -> (forall sub f v, (f, v) ∈ d_values d -> v.(sv_value) = inr sub -> exists l, rec sub = Ok l) ->
  collected (fun f => mapped rec <$> assoc f (d_values d)) (d_fields d) = Ok (doc_contents d).
Proof.
  intros Hd Hrec. unfold doc_contents.
  assert (forall n f, (n, f) ∈ d_fields d -> exists v, assoc f (d_values d) = Some v) as Hv.
  { intros n f Hin. destruct (shape_value _ _ n f (doc_wf_shape _ Hd)) as [_ ?]; [|done].
    apply assoc_NoDup; [apply (sh_fields _ _ (doc_wf_shape _ Hd))|done]. }
  induction (d_fields d) as [|[n f] fs IH]; [done|]. destruct (Hv n f ltac:(left)) as [v Ev].
  cbn [collected omap list_omap]. cbn [fst snd]. rewrite Ev. cbn [fmap option_fmap option_map]. rewrite IH by (intros ? ? ?; eapply Hv; by right).
  unfold mapped. destruct (sv_value v) as [x|sub] eqn:E; [done|].
  destruct (Hrec sub f v (assoc_Some_in _ _ _ Ev) E) as [l ->]. done.
Qed.

Lemma toMap_wf d : doc_wf d -> toMap d = Ok (doc_contents d).
Proof.
  induction 1 as [d Hs Hsub IH]. rewrite toMap_collected. apply collected_wf; [by constructor|].
  intros sub f v Hin E. eexists. by eapply IH.
Qed.

Lemma doc_contents_set t n v d :
  doc_wf d -> assoc n (d_fields d) = None -> doc_contents (doc_set t n v d) = doc_contents d ++ [(n, v.(sv_value))].
Proof.
  intros Hd Hn. destruct d as [k fs vs h b]. cbn [d_fields] in Hn. unfold doc_contents, doc_set. rewrite Hn. cbn [d_values d_fields].
  rewrite (assoc_put_new n) by done. rewrite omap_app. f_equal.
  - pose proof (sh_names _ _ (doc_wf_shape _ Hd)) as Hnames. cbn [d_fields] in Hnames.
    assert (forall n' f, (n', f) ∈ fs -> f <> newField t n) as Hne.
    { intros n' f Hin ->. apply assoc_None in Hn. apply Hn. apply list_elem_of_fmap. exists (n', newField t n).
      split; [|done]. exact (Hnames _ _ Hin). }
    clear Hd Hnames Hn. induction fs as [|[n' f] fs IH]; [done|]. cbn [omap list_omap fst snd].
    rewrite IH by (intros ? ? ?; eapply Hne; by right). rewrite assoc_put_ne by (eapply Hne; left). done.
  - cbn [omap list_omap fst snd]. by rewrite assoc_put_eq.
Qed.

Lemma doc_contents_names d : doc_wf d -> (doc_contents d).*1 = (d_fields d).*1.
Proof.
  intros Hd. unfold doc_contents.
  assert (forall n f, (n, f) ∈ d_fields d -> is_Some (assoc f (d_values d))) as Hv.
  { intros n f Hin. destruct (shape_value _ _ n f (doc_wf_shape _ Hd)) as [_ [v Hv]]; [|by eexists].
    apply assoc_NoDup; [apply (sh_fields _ _ (doc_wf_shape _ Hd))|done]. }
  induction (d_fields d) as [|[n f] fs IH]; [done|]. destruct (Hv n f ltac:(left)) as [v Ev].
  cbn [omap list_omap fst snd]. rewrite Ev. cbn. f_equal. apply IH. intros m g Hin. eapply Hv. by right.
Qed.
End Contents.

(** ** Documents made from a map *)

Section MapKeys.
Context `{DocKeyOps} `{!DocCodec}.
Abbreviation Value := (simpleValue Document).

(** The values that can be stored. *)
Fixpoint input_ok (i : input) : bool :=
  match i with
  | IOther _ => false
  | IMap l => forallb (fun e => input_ok e.2) l
  | _ => true
  end.

Definition data_ok (l : list (string * input)) : bool := forallb (fun e => input_ok e.2) l.

Lemma Set_all_result l :
  Forall (fun e => forall n d, (setAndParseType n e.2 d).2 = if input_ok e.2 then Ok tt else Err ErrUnexpectedType) l ->
  forall d, (setAndParseObjectType l d).2 = if data_ok l then Ok tt else Err ErrUnexpectedType.
Proof.
  induction 1 as [|[k v] l Hv _ IH]; intros d; [done|]. cbn [setAndParseObjectType data_ok forallb]. unfold mbind.
  specialize (Hv k d). cbn [snd] in *. destruct (setAndParseType k v d) as [d1 r]. cbn [snd] in Hv. subst r.
  destruct (input_ok v); cbn [andb]; [apply IH|done].
Qed.

Lemma Set_result i : forall n d, (setAndParseType n i d).2 = if input_ok i then Ok tt else Err ErrUnexpectedType.
Proof.
  induction i as [|z|f|v|l IH|v] using input_nested_ind; intros n d; [done..| |done].
  rewrite setAndParseType_map. pose proof (Set_all_result l IH newEmptyDoc) as E. fold (data_ok l) in *.
  change (input_ok (IMap l)) with (data_ok l).
  destruct (setAndParseObjectType l newEmptyDoc) as [sub r]. cbn [snd] in E. subst r. by destruct (data_ok l).
Qed.

(** What the key of a document sees of a value: nothing of [nil], and of a sub-object only
    that it is one. *)
Definition seen (i : input) : option (option val) :=
  match i with
  | INil | IOther _ => None
  | IInt z => Some (Some (VInt KInt64 z))
  | IFloat f => Some (Some (float_value f))
  | IScalar v => Some (Some v)
  | IMap _ => Some None
  end.

Definition seen_fields (l : list (string * input)) : list (string * option val) :=
  omap (fun e => pair e.1 <$> seen e.2) l.

Definition exports (d : Document) : list (string * option val) := prod_map id exported <$> doc_contents d.

Lemma exports_set t n v d :
  doc_wf d -> assoc n (d_fields d) = None -> exports (doc_set t n v d) = exports d ++ [(n, exported v.(sv_value))].
Proof. intros Hd Hn. unfold exports. by rewrite doc_contents_set, fmap_app. Qed.

Lemma doc_set_fields t n v d m : m <> n -> assoc m (d_fields (doc_set t n v d)) = assoc m (d_fields d).
Proof.
  intros Hne. destruct d as [k fs vs h b]. unfold doc_set. destruct (assoc n fs) eqn:E; [done|].
  cbn [d_fields]. by apply assoc_put_ne.
Qed.

Lemma doc_set_key t n v d : d_key (doc_set t n v d) = d_key d.
Proof. destruct d as [k fs vs h b]. unfold doc_set. by destruct (assoc n fs). Qed.

Lemma Set_new n i d :
  input_ok i = true -> doc_wf d -> assoc n (d_fields d) = None ->
  exists d', setAndParseType n i d = (d', Ok tt) /\ d_key d' = d_key d /\
    exports d' = exports d ++ omap (fun e => pair e.1 <$> seen e.2) [(n, i)] /\
    forall m, m <> n -> assoc m (d_fields d') = assoc m (d_fields d).
Proof.
  intros Hok Hd Hn. pose proof (Set_result i n d) as Hr. rewrite Hok in Hr.
  assert (forall t v, seen i = Some (exported v.(sv_value)) -> exists d', (doc_set t n v d, Ok tt) = (d', Ok tt) /\ d_key d' = d_key d /\
    exports d' = exports d ++ omap (fun e => pair e.1 <$> seen e.2) [(n, i)] /\
    forall m, m <> n -> assoc m (d_fields d') = assoc m (d_fields d)) as Hset.
  { intros t v E. eexists. split; [done|]. split; [apply doc_set_key|]. split; [|intros; by apply doc_set_fields].
    rewrite exports_set by done. cbn [omap list_omap fst snd]. by rewrite E. }
  destruct i as [|z|f|v|l|v]; [|by apply Hset..| |done].
  - exists d. cbn [omap list_omap snd seen fmap option_fmap option_map]. by rewrite app_nil_r.
  - rewrite setAndParseType_map in *. destruct (setAndParseObjectType l newEmptyDoc) as [sub [u| | ]]; [|done|done].
    by apply Hset.
Qed.

Lemma Set_new_all l d :
  data_ok l = true -> doc_wf d -> NoDup l.*1 -> (forall n, n ∈ l.*1 -> assoc n (d_fields d) = None) ->
  exists d', setAndParseObjectType l d = (d', Ok tt) /\ d_key d' = d_key d /\ doc_wf d' /\
    exports d' = exports d ++ seen_fields l.
Proof.
  revert d. induction l as [|[n i] l IH]; intros d Hok Hd Hnd Hn.
  { exists d. cbn. by rewrite app_nil_r. }
  cbn [data_ok forallb snd] in Hok. apply andb_prop in Hok as [Hi Hok]. apply NoDup_cons in Hnd as [Hni Hnd].
  destruct (Set_new n i d Hi Hd) as (d1 & E1 & Ek1 & Ex1 & Hf1); [apply Hn; left|].
  pose proof (wf_op_Set i n d Hd) as [Hw1 _]. rewrite E1 in Hw1. cbn [fst] in Hw1.
  destruct (IH d1 Hok Hw1 Hnd) as (d2 & E2 & Ek2 & Hw2 & Ex2).
  { intros m Hm. rewrite Hf1; [apply Hn; by right|]. intros ->. done. }
  exists d2. split; [cbn [setAndParseObjectType]; unfold mbind; by rewrite E1|]. split; [congruence|]. split; [done|].
  rewrite Ex2, Ex1, <- app_assoc. f_equal. unfold seen_fields. by rewrite <- omap_app.
Qed.

Lemma Set_key i : forall n d, d_key (setAndParseType n i d).1 = d_key d.
Proof.
  destruct i as [|z|f|v|l|v]; intros n d; [done|apply doc_set_key..| |done].
  rewrite setAndParseType_map. destruct (setAndParseObjectType l newEmptyDoc) as [sub [ | | ]]; [apply doc_set_key|done|done].
Qed.

Lemma Set_all_key l d : d_key (setAndParseObjectType l d).1 = d_key d.
Proof.
  revert d. induction l as [|[n i] l IH]; intros d; [done|]. cbn [setAndParseObjectType]. unfold mbind.
  pose proof (Set_key i n d) as E. destruct (setAndParseType n i d) as [d1 [ | | ]]; cbn [fst] in *; [|done|done].
  by rewrite IH.
Qed.

(** The key that a map without a key of its own gives. *)
Definition derived_key (l : list (string * option val)) : result DocKey :=
  let! buf := cbor_canonical l in
  let! c := prefix_Sum_raw buf in
  Ok (NewDocKeyV0 c).

Definition rmap {A B} (f : A -> B) (r : result A) : result B := let! x := r in Ok (f x).

Lemma NewDocFromMap_derived data :
  NoDup data.*1 -> assoc "_key" data = None ->
  rmap d_key (NewDocFromMap data).2 =
    if data_ok data then derived_key (seen_fields data) else Err ErrUnexpectedType.
Proof.
  intros Hnd Hk. unfold NewDocFromMap. rewrite Hk. cbn [snd].
  destruct (data_ok data) eqn:Hok.
  - destruct (Set_new_all data newEmptyDoc Hok (doc_wf_empty _ _ _) Hnd) as (d & E & _ & Hw & Ex); [done|].
    rewrite E. cbn [rbind]. unfold doc_Bytes. rewrite toMap_wf by done. cbn [rbind]. fold (exports d). rewrite Ex.
    change (exports newEmptyDoc ++ seen_fields data) with (seen_fields data). unfold derived_key.
    destruct (cbor_canonical _) as [buf| |]; [|done|done]. cbn [rbind].
    destruct (prefix_Sum_raw buf) as [c| |]; [|done|done]. by destruct d.
  - pose proof (Set_all_result data) as Hr. specialize (Hr ltac:(apply Forall_forall; intros; apply Set_result) newEmptyDoc).
    rewrite Hok in Hr. destruct (setAndParseObjectType data newEmptyDoc) as [d r]. cbn [snd] in Hr. by subst r.
Qed.
End MapKeys.

(** ** Properties *)

Section Properties.
Context `{DocKeyOps} `{!DocCodec}.
Abbreviation Value := (simpleValue Document).

Lemma wf_op_JSON patch : wf_op (SetWithJSON patch).
Proof.
  intros d Hd. unfold SetWithJSON, mbind, mlift. pose proof (json_object_total patch).
  destruct (json_object patch) as [l| |]; [by apply wf_op_patch|done|done].
Qed.

Lemma wf_op_Clean : wf_op doc_Clean.
Proof. intros d Hd. by destruct (doc_Clean_wf d Hd) as (d' & -> & _ & _ & Hw & _). Qed.

Lemma doc_wf_set_key k d : doc_wf d -> doc_wf (set_key k d).
Proof. intros [Hs Hsub]. by destruct d; split. Qed.

Lemma parsed_wf data d0 d (r : Document * result unit) :
  doc_wf d0 -> r = setAndParseObjectType data d0 -> rbind r.2 (fun _ => Ok r.1) = Ok d ->
  doc_wf d /\ d_key d = d_key d0.
Proof.
  intros Hw -> E. pose proof (wf_op_Set_all data d0 Hw) as [Hw' _]. pose proof (Set_all_key data d0) as Hk.
  destruct (setAndParseObjectType data d0) as [doc [u| |]]; cbn in E; [|discriminate..]. injection E as <-. by split.
Qed.

Lemma NewDocFromMap_wf data d : (NewDocFromMap data).2 = Ok d -> doc_wf d /\ dockey_wf (d_key d).
Proof.
  unfold NewDocFromMap. destruct (assoc "_key" data) as [k|]; cbn [snd].
  - intros (kstr & _ & (key & Ek%NewDocKeyFromString_wf & E)%rbind_Ok)%rbind_Ok.
    destruct (parsed_wf (assoc_delete "_key" data) (NewDocWithKey key) d _ (doc_wf_empty _ _ _) eq_refl) as [Hw Hk].
    { destruct (setAndParseObjectType _ _). exact E. }
    split; [done|]. by rewrite Hk.
  - destruct (setAndParseObjectType data newEmptyDoc) as [doc r] eqn:E0.
    intros (u & Er & (buf & _ & (c & _ & [= <-])%rbind_Ok)%rbind_Ok)%rbind_Ok.
    destruct (parsed_wf data newEmptyDoc doc (doc, r) (doc_wf_empty _ _ _) (eq_sym E0)) as [Hw _].
    { cbn [fst snd]. by rewrite Er. }
    split; [by apply doc_wf_set_key|]. by destruct doc.
Qed.

(** C29: Documents stay well-formed.  Their two maps, of the fields by name and of the
    values by field, agree at every depth: every operation that changes a document keeps
    this, whether it succeeds or fails, and none panics; a document made from a map or from JSON
    is well-formed and has a key of the current version; and the map of a well-formed document
    has all its fields. *)
Theorem document_operations_sound :
  (forall field value, wf_op (doc_Set field value)) /\
  (forall field value t, wf_op (mset (SetAs field value t))) /\
  (forall fields, wf_op (doc_Delete fields)) /\
  (forall patch, wf_op (SetWithJSON patch)) /\
  wf_op doc_Clean /\
  (forall data d, (NewDocFromMap data).2 = Ok d -> doc_wf d /\ dockey_wf (d_key d)) /\
  (forall obj d, NewDocFromJSON obj = Ok d -> doc_wf d /\ dockey_wf (d_key d)) /\
  (forall d, doc_wf d -> toMap d = Ok (doc_contents d) /\ (doc_contents d).*1 = (d_fields d).*1).
Proof.
  split; [intros field value; apply wf_op_Set|]. split; [intros field value t; apply wf_op_cbor|].
  split; [apply wf_op_Delete|]. split; [apply wf_op_JSON|]. split; [apply wf_op_Clean|].
  split; [apply NewDocFromMap_wf|]. split.
  - intros obj d (data & _ & Hd)%rbind_Ok. exact (NewDocFromMap_wf data d Hd).
  - intros d Hd. split; [by apply toMap_wf|]. by apply doc_contents_names.
Qed.

(** The key of a new document depends on what the map holds and not on the order in which
    Go visits it: two maps without a key that show the same fields give the same key, or fail
    with the same error.  Of a sub-object only its presence is shown. *)
Theorem NewDocFromMap_key (data data' : list (string * input)) :
  NoDup data.*1 -> NoDup data'.*1 -> assoc "_key" data = None -> assoc "_key" data' = None ->
  data_ok data = data_ok data' -> seen_fields data ≡ₚ seen_fields data' ->
  rmap d_key (NewDocFromMap data).2 = rmap d_key (NewDocFromMap data').2.
Proof.
  intros Hn Hn' Hk Hk' Hok Hp. rewrite !NewDocFromMap_derived, Hok by done. unfold derived_key.
  by rewrite (cbor_canonical_perm _ _ Hp).
Qed.

Lemma GetValue_name d n f :
  free_of "/" n = true -> assoc n (d_fields d) = Some f -> GetValue d n = GetValueWithField d f.
Proof.
  intros Hn Hf. unfold GetValue. rewrite Split_free by done. cbn [GetValue_path]. rewrite Hf.
  unfold GetValueWithField. by destruct (assoc f (d_values d)).
Qed.

Lemma GetValue_absent d n : free_of "/" n = true -> assoc n (d_fields d) = None -> GetValue d n = Err NewErrFieldNotExist.
Proof. intros Hn Hf. unfold GetValue. rewrite Split_free by done. cbn [GetValue_path]. by rewrite Hf. Qed.

Lemma GetValue_Ok d n w :
  free_of "/" n = true -> GetValue d n = Ok w -> exists f, assoc n (d_fields d) = Some f /\ assoc f (d_values d) = Some w.
Proof.
  intros Hn E. destruct (assoc n (d_fields d)) as [f|] eqn:Ef; [|by rewrite GetValue_absent in E].
  exists f. split; [done|]. rewrite (GetValue_name _ _ _ Hn Ef) in E. unfold GetValueWithField in E.
  destruct (assoc f (d_values d)); congruence.
Qed.

Lemma GetValue_found d n f w :
  free_of "/" n = true -> assoc n (d_fields d) = Some f -> assoc f (d_values d) = Some w -> GetValue d n = Ok w.
Proof. intros Hn Hf Hw. rewrite (GetValue_name _ _ _ Hn Hf). unfold GetValueWithField. by rewrite Hw. Qed.

(** Fields of other names keep their values. *)
Lemma GetValue_put d d' n f (w : Value) m :
  doc_wf d -> free_of "/" m = true -> m <> n -> f.(sf_name) = n ->
  assoc m (d_fields d') = assoc m (d_fields d) -> d_values d' = assoc_put f w (d_values d) ->
  GetValue d' m = GetValue d m.
Proof.
  intros Hd Hm Hne Hf Hfs Hvs. destruct (assoc m (d_fields d)) as [g|] eqn:Eg; [|by rewrite !GetValue_absent].
  rewrite (GetValue_name d' m g), (GetValue_name d m g) by done. unfold GetValueWithField. rewrite Hvs, assoc_put_ne; [done|].
  intros ->. destruct (shape_value _ _ _ _ (doc_wf_shape _ Hd) Eg) as [E _]. congruence.
Qed.

Lemma GetValue_set t n (w : Value) d :
  doc_wf d -> free_of "/" n = true ->
  GetValue (doc_set t n w d) n = Ok w /\
  forall m, free_of "/" m = true -> m <> n -> GetValue (doc_set t n w d) m = GetValue d m.
Proof.
  intros Hd Hn. destruct d as [k fs vs h b] eqn:Ed.
  assert (exists f, assoc n (d_fields (doc_set t n w d)) = Some f /\ f.(sf_name) = n /\
    d_values (doc_set t n w d) = assoc_put f w (d_values d)) as (f & Ef & En & Ev); rewrite Ed in *.
  { unfold doc_set. destruct (assoc n fs) as [f|] eqn:E.
    - exists f. split; [done|]. split; [|done]. by destruct (shape_value _ _ _ _ (doc_wf_shape _ Hd) E).
    - exists (newField t n). split; [apply assoc_put_eq|done]. }
  split.
  - eapply GetValue_found; [done..|]. rewrite Ev. apply assoc_put_eq.
  - intros m Hm Hne. eapply GetValue_put; [done..| |done]. by apply doc_set_fields.
Qed.

Lemma Set_value n i d :
  input_ok i = true -> i <> INil ->
  exists t (w : Value), setAndParseType n i d = (doc_set t n w d, Ok tt) /\ seen i = Some (exported w.(sv_value)) /\
    w.(sv_isDirty) = true /\ w.(sv_delete) = false.
Proof.
  intros Hok Hni. pose proof (Set_result i n d) as Hr. rewrite Hok in Hr.
  destruct i as [|z|f|v|l|v]; [done|by eexists _, (newValue LWW_REGISTER (inl _))..| |done].
  rewrite setAndParseType_map in *. destruct (setAndParseObjectType l newEmptyDoc) as [sub [u| | ]]; [|done|done].
  by eexists _, (newValue OBJECT (inr sub)).
Qed.

(** What the operations do to a field: [Set] gives it the new value, marked as changed, and
    leaves the other fields alone; [Delete] marks it; and [Clean] takes the marks off, except
    that a deleted field then holds a [nil] that is itself marked as changed. *)
Theorem document_changes (d : Document) (n : string) :
  doc_wf d -> free_of "/" n = true ->
  (forall v, input_ok v = true -> v <> INil ->
    exists d' w, doc_Set n v d = (d', Ok tt) /\ GetValue d' n = Ok w /\ seen v = Some (exported w.(sv_value)) /\
      w.(sv_isDirty) = true /\ w.(sv_delete) = false /\
      forall m, free_of "/" m = true -> m <> n -> GetValue d' m = GetValue d m) /\
  (forall w, GetValue d n = Ok w ->
    exists d', doc_Delete [n] d = (d', Ok tt) /\ GetValue d' n = Ok (value_Delete w) /\
      forall m, free_of "/" m = true -> m <> n -> GetValue d' m = GetValue d m) /\
  (forall w, GetValue d n = Ok w ->
    exists d' w', doc_Clean d = (d', Ok tt) /\ GetValue d' n = Ok w' /\
      (w.(sv_isDirty) && w.(sv_delete) = true -> w'.(sv_value) = inl VNil /\ w'.(sv_isDirty) = true) /\
      (w.(sv_isDirty) && w.(sv_delete) = false -> w'.(sv_value) = w.(sv_value) /\ w'.(sv_isDirty) = false)).
Proof.
  intros Hd Hn. split; [|split].
  - intros v Hok Hv. destruct (Set_value n v d Hok Hv) as (t & w & E & Hs & Hdirty & Hdel).
    destruct (GetValue_set t n w d Hd Hn) as [Hg Ho]. exists (doc_set t n w d), w. by repeat split.
  - intros w (f & Hf & Hw)%GetValue_Ok; [|done]. eexists. split; [cbn [doc_Delete]; by rewrite Hf, Hw|].
    destruct (shape_value _ _ _ _ (doc_wf_shape _ Hd) Hf) as [En _].
    set (d' := set_values d _).
    assert (d_fields d' = d_fields d) as Efs by by destruct d.
    assert (d_values d' = assoc_put f (value_Delete w) (d_values d)) as Evs by by destruct d.
    split.
    + apply (GetValue_found d' n f); [done|by rewrite Efs|]. rewrite Evs. apply assoc_put_eq.
    + intros m Hm Hne. apply (GetValue_put d d' n f (value_Delete w)); [done..|by rewrite Efs|done].
  - intros w (f & Hf & Hw)%GetValue_Ok; [|done].
    destruct (doc_Clean_wf d Hd) as (d' & E & Efs & _ & _ & Hv). exists d', (cleaned f w).
    split; [done|]. split; [apply (GetValue_found d' n f); [done|by rewrite Efs|by rewrite Hv, Hw]|].
    unfold cleaned. destruct w as [t x [|] [|]]; by split.
Qed.
End Properties.

(** ** Instances and witnesses *)

Module DocWitnesses.
Import KeyInstances.

Definition letter (n : nat) : ascii := ascii_of_nat (97 + n).

Fixpoint hex (b : bytes) : string :=
  match b with
  | "" => ""
  | String c b => String (letter (nat_of_ascii c / 16)) (String (letter (nat_of_ascii c mod 16)) (hex b))
  end.

Fixpoint unhex (s : string) : bytes :=
  match s with
  | String a (String b s) => String (ascii_of_nat ((nat_of_ascii a - 97) * 16 + (nat_of_ascii b - 97))) (unhex s)
  | _ => ""
  end.

Lemma unhex_hex b : unhex (hex b) = b.
Proof. induction b as [|c b IH]; [done|]. cbn [hex unhex]. rewrite IH. f_equal. by destruct c as [[] [] [] [] [] [] [] []]. Qed.

Lemma hex_free sep b : (sep = "-" \/ sep = "/")%char -> free_of sep (hex b) = true.
Proof.
  intros Hs. induction b as [|c b IH]; [done|]. cbn [hex free_of]. rewrite IH.
  by destruct Hs as [-> | ->]; destruct c as [[] [] [] [] [] [] [] []].
Qed.

Definition is_uuid (s : string) : bool :=
  (String.length s =? 36)%nat && free_of "/" s && match bump_str s with Some e => free_of "/" e | None => false end.

Definition is_digit (c : ascii) : bool := (48 <=? nat_of_ascii c)%nat && (nat_of_ascii c <=? 57)%nat.

Fixpoint pad (n : nat) (s : string) : string :=
  match n, s with
  | O, _ => ""
  | S n, String c s => String (if is_digit c then c else "0")%char (pad n s)
  | S n, "" => String "0" (pad n "")
  end.

Lemma digit_next c : is_digit c = true ->
  Ascii.eqb c "/" = false /\ exists e, bump_str (String c "") = Some e /\ free_of "/" e = true.
Proof. destruct c as [[] [] [] [] [] [] [] []]; try done; intros _; (split; [done|]); eexists; split; done. Qed.

Lemma pad_digits n s :
  String.length (pad n s) = n /\ free_of "/" (pad n s) = true /\
  ((0 < n)%nat -> exists e, bump_str (pad n s) = Some e /\ free_of "/" e = true).
Proof.
  revert s. induction n as [|n IH]; intros s; [by repeat split; lia|].
  assert (exists c s', pad (S n) s = String c (pad n s') /\ is_digit c = true) as (c & s' & -> & Hc).
  { destruct s as [|c s]; cbn [pad]; [by exists "0"%char, ""|]. eexists _, s. split; [done|]. by destruct (is_digit c) eqn:E. }
  destruct (digit_next c Hc) as [Hs (e & He & Hf)]. destruct (IH s') as (Hl & Hfree & Hn). cbn [String.length free_of].
  split; [by rewrite Hl|]. split; [by rewrite Hs, Hfree|]. intros _. destruct n as [|n]; [by exists e|].
  destruct Hn as (e' & He' & Hf'); [lia|]. exists (String c e'). rewrite bump_str_cons, He'. cbn [free_of]. by rewrite Hs, Hf'.
Qed.

Lemma is_uuid_pad s : is_uuid (pad 36 s) = true.
Proof.
  unfold is_uuid. destruct (pad_digits 36 s) as (-> & -> & Hn). destruct Hn as (e & -> & ->); [lia|]. done.
Qed.

Definition uuid : Type := {s : string | is_uuid s = true}.

Definition uuid_parse (s : string) : result uuid :=
  match bool_dec (is_uuid s) true with left E => Ok (exist _ s E) | right _ => Err (ErrNew "uuid") end.

#[export] Program Instance DocKeyOps_hex : DocKeyOps := {|
  UUID := uuid;
  uuid_FromString := uuid_parse;
  uuid_String u := `u;
  uuid_Bytes u := `u;
  uuid_NewV5 s := exist _ (pad 36 s) (is_uuid_pad s);
  uuid_Nil := exist _ (pad 36 "") (is_uuid_pad "");
  mbase_Decode s := match s with String _ s => Ok (unhex s) | "" => Err (ErrNew "multibase") end;
  mbase_Encode32 b := String "b" (hex b);
  prefix_Sum_raw b := Ok (N.pos (encode b));
|}.
Next Obligation.
  intros [s Hs]. unfold uuid_parse. cbn. destruct (bool_dec (is_uuid s) true) as [E|E]; [|done].
  do 2 f_equal. apply (Eqdep_dec.UIP_dec Bool.bool_dec).
Qed.
Next Obligation. intros [s Hs]. cbn. unfold is_uuid in Hs. apply andb_prop in Hs as [[Hs _]%andb_prop _]. by apply Nat.eqb_eq. Qed.
Next Obligation. intros [s Hs]. cbn. unfold is_uuid in Hs. by apply andb_prop in Hs as [[_ Hs]%andb_prop _]. Qed.
Next Obligation.
  intros [s Hs]. change (exists e, bump_str s = Some e /\ free_of "/" e = true). unfold is_uuid in Hs. apply andb_prop in Hs as [_ Hs].
  destruct (bump_str s) as [e|]; [|done]. by exists e.
Qed.
Next Obligation. intros b. cbn. by rewrite unhex_hex. Qed.
Next Obligation. intros b. apply (hex_free "-"). by left. Qed.
Next Obligation. intros b. apply (hex_free "/"). by right. Qed.
Next Obligation. done. Qed.

(** An encoding that adds up the codes of the entries, and one JSON object. *)
Definition entry_code (e : string * option val) : N :=
  N.pos (encode (e.1 +:+ match e.2 with Some (VString s) => "=" +:+ s | Some _ => "=" | None => "{}" end)).

#[export] Program Instance DocCodec_sum : DocCodec := {|
  cbor_canonical l := Ok (PutUvarint (u64 (Z.of_N (foldr N.add 0%N (entry_code <$> l)))));
  json_object b := if String.eqb b "" then Err (ErrNew "json") else Ok [("name", IScalar (VString b))];
|}.
Next Obligation.
  intros l l' Hp. cbv beta.
  rewrite (foldr_permutation_proper (=) N.add 0%N ltac:(intros; lia) _ _ (fmap_Permutation entry_code _ _ Hp)). done.
Qed.
Next Obligation. intros b l E. cbn in E. destruct (String.eqb b ""); [discriminate|]. injection E as <-. apply NoDup_singleton. Qed.
Next Obligation. intros b. cbn. destruct (String.eqb b ""); discriminate. Qed.

Definition ann : Document := setCBOR LWW_REGISTER "name" (VString "Ann") newEmptyDoc.

Lemma ann_wf : doc_wf ann.
Proof. apply doc_wf_set; [apply doc_wf_empty|]. by intros sub [=]. Qed.

Definition with_sub (l : list (string * input)) : list (string * input) := [("name", IScalar (VString "Ann")); ("pet", IMap l)].

Lemma NewDocFromMap_key_witness :
  rmap d_key (NewDocFromMap (with_sub [])).2 = rmap d_key (NewDocFromMap (rev (with_sub []))).2.
Proof.
  apply NewDocFromMap_key; [by apply (bool_decide_unpack _); vm_compute|by apply (bool_decide_unpack _); vm_compute|reflexivity..|].
  cbn. apply Permutation_swap.
Defined.

Lemma document_changes_witness :
  exists d' w', doc_Clean ann = (d', Ok tt) /\ GetValue d' "name" = Ok w' /\ w'.(sv_isDirty) = false.
Proof.
  destruct (document_changes ann "name" ann_wf eq_refl) as (_ & _ & Hc).
  destruct (Hc (newValue LWW_REGISTER (inl (VString "Ann"))) eq_refl) as (d' & w' & E & Hg & _ & Hf).
  exists d', w'. split; [exact E|]. split; [exact Hg|]. apply Hf. reflexivity.
Defined.

(** Two documents that differ in a sub-object. *)
Definition rex (s : string) : list (string * input) := with_sub [("name", IScalar (VString s))].
Definition pet (s : string) : Document := setCBOR LWW_REGISTER "name" (VString s) newEmptyDoc.
Definition owner (key : DocKey) (s : string) : Document := set_key key (setObject OBJECT "pet" (pet s) ann).

Lemma owner_new : exists key, forall s, (NewDocFromMap (rex s)).2 = Ok (owner key s).
Proof.
  exists (@NewDocKeyV0 CidOps_N _ (N.pos (encode (PutUvarint (u64 (Z.of_N
    (foldr N.add 0%N (entry_code <$> [("name", Some (VString "Ann")); ("pet", None)])))))))).
  reflexivity.
Qed.

(** Three departures: the version of a key is cut to 16 bits before it is checked, so that a key
    of version 65537 counts as one of version 1; after [Delete] and [Clean] a field is still
    marked as changed; and sub-objects are no part of the map of a document, which holds the
    document in their place, so that documents that differ in them have one key. *)
Theorem document_departures :
  (forall u, NewDocKeyFromString (mbase_Encode32 (PutUvarint 65537) +:+ "-" +:+ uuid_String u) = Ok (mkDocKey DocKeyV0 u Cid_Undef)) /\
  (exists d d' w, doc_Delete ["name"] ann = (d, Ok tt) /\ doc_Clean d = (d', Ok tt) /\ GetValue d' "name" = Ok w /\
    w.(sv_value) = inl VNil /\ w.(sv_isDirty) = true) /\
  (exists d d' sub sub', (NewDocFromMap (rex "Rex")).2 = Ok d /\ (NewDocFromMap (rex "Tom")).2 = Ok d' /\
    toMap d = Ok [("name", inl (VString "Ann")); ("pet", inr sub)] /\
    toMap d' = Ok [("name", inl (VString "Ann")); ("pet", inr sub')] /\ sub <> sub' /\ d_key d = d_key d').
Proof.
  split; [intros u; by apply (NewDocKeyFromString_version 65537)|].
  split; [by eexists _, _, _; repeat split; vm_compute; reflexivity|].
  destruct owner_new as [k E].
  exists (owner k "Rex"), (owner k "Tom"), (pet "Rex"), (pet "Tom"). split; [apply E|]. split; [apply E|].
  by repeat split.
Qed.
End DocWitnesses.
