(* ===== verification/DocOps.v ===== *)
(** * Document operations of a collection (db/collection.go, collection_get.go,
    collection_update.go, collection_delete.go, db/fetcher/encoded_doc.go)

    Creating, reading, changing and deleting documents inside a transaction.  The state is
    that of the stores, as the transaction sees them, and the functions that it will call
    when it is committed.  A client document is an object of the caller, reached by a
    pointer: the operations read it, and the functions called at the commit change it. *)

From Stdlib Require Import Ascii SpecFloat.
From S2P Require Import Prelude GoStd Keys Spans Store MultiStore Crdt Clock Values DocMap Desc Schema Iterate Fetcher ClientDoc.

(** ** Errors *)

Definition NewErrDocVerification : error := ErrNew "the document verification failed".
Definition NewErrDocumentAlreadyExists : error := ErrNew "a document with the given dockey already exists".
Definition NewErrDocumentDeleted : error := ErrNew "a document with the given dockey has been deleted".
Definition ErrDocumentNotFound : error := ErrNew "no document for the given key exists".
Definition ErrValueTypeMismatch : error := ErrNew "value does not match indicated type".
Definition ErrUnknownCRDTArgument : error := ErrNew "invalid CRDT arguments".
Definition ErrUnknownCRDT : error := ErrNew "unknown crdt".
Definition ErrDocMissingKey : error := ErrNew "document is missing key".
Definition ErrInvalidMergeValueType : error := ErrNew "the type of value in the merge patch doesn't match the schema".
Definition ErrMergeSubTypeNotSupported : error := ErrNew "merge doesn't support sub types yet".
Definition ErrInvalidUpdater : error := ErrNew "the updater of a document is of invalid type".
Definition NewErrUnhandledType : error := ErrNew "unhandled type".

(** ** Values in CBOR *)

Definition int_image (z : Z) : val := VInt (if 0 <=? z then KUint64 else KInt64) z.

Definition opt_image {A} (f : A -> val) (o : option A) : val := match o with Some x => f x | None => VNil end.

(** What a value is decoded to: non-negative integers as [uint64], slices as [[]any] and
    absent values as [nil]. *)
Fixpoint cbor_image (v : val) : val :=
  match v with
  | VInt _ z => int_image z
  | VOptBool o => opt_image VBool o
  | VOptInt o => opt_image int_image o
  | VOptFloat o => opt_image VFloat64 o
  | VOptString o => opt_image VString o
  | VBools l => VList (VBool <$> l)
  | VOptBools l => VList (opt_image VBool <$> l)
  | VInts l => VList (int_image <$> l)
  | VOptInts l => VList (opt_image int_image <$> l)
  | VFloats l => VList (VFloat64 <$> l)
  | VOptFloats l => VList (opt_image VFloat64 <$> l)
  | VStrings l => VList (VString <$> l)
  | VOptStrings l => VList (opt_image VString <$> l)
  | VList l => VList (cbor_image <$> l)
  | _ => v
  end.

(** The values of documents that are sure to be decoded: integers of 64 bits, doubles and
    ASCII text (text that is not UTF-8 is not decoded). *)
Definition int_ok (z : Z) : bool := (- 2 ^ 63 <=? z) && (z <? 2 ^ 64).
Definition float_ok (f : float64) : bool := valid_binary 53 1024 f.
Fixpoint text_ok (s : string) : bool :=
  match s with EmptyString => true | String a s => (byte_val a <? 128) && text_ok s end.
Definition opt_ok {A} (p : A -> bool) (o : option A) : bool := match o with Some x => p x | None => true end.

Fixpoint cbor_plain (v : val) : bool :=
  match v with
  | VNil | VBool _ | VOptBool _ | VBools _ | VOptBools _ => true
  | VInt _ z => int_ok z
  | VFloat64 f => float_ok f
  | VString s => text_ok s
  | VOptInt o => opt_ok int_ok o
  | VOptFloat o => opt_ok float_ok o
  | VOptString o => opt_ok text_ok o
  | VInts l => forallb int_ok l
  | VOptInts l => forallb (opt_ok int_ok) l
  | VFloats l => forallb float_ok l
  | VOptFloats l => forallb (opt_ok float_ok) l
  | VStrings l => forallb text_ok l
  | VOptStrings l => forallb (opt_ok text_ok) l
  | VList l => forallb cbor_plain l
  | VFloat32 _ | VBytes _ | VTime _ | VDoc _ | VDocs _ | VFilter _ | VMap _ => false
  end.

(** [cbor.Marshal] of a value, and [fastjson.Parse].  Decoding reports what it cannot decode
    as an error, the empty input ([io.EOF]) for one. *)
Inductive json :=
  | JNull
  | JBool (b : bool)
  | JNumber (i : result Z) (f : result float64)
  | JString (s : string)
  | JArray (l : list json)
  | JObject (l : list (string * json)).

Class ValueCodec `{CborAny} := {
  cbor_Marshal : val -> result bytes;
  fastjson_Parse : string -> result json;
  cbor_Marshal_plain : forall v, cbor_plain v = true ->
    exists b, cbor_Marshal v = Ok b /\ cbor_Unmarshal_any b = Ok (cbor_image v);
  cbor_any_total : forall b, cbor_Unmarshal_any b <> Panic;
  cbor_any_empty : exists e, cbor_Unmarshal_any "" = Err e;
}.

(** ** Transactions *)

Record Update `{CidOps} := mkUpdate {
  u_DocKey : string;
  u_Cid : Cid;
  u_SchemaID : string;
  u_Block : Node;
  u_Priority : Z;
}.

(** The functions registered with [OnSuccess]; a document is named by its pointer. *)
Inductive callback `{CidOps} :=
  | CbClean (p : nat)
  | CbSetHead (p : nat) (c : Cid)
  | CbPublish (u : Update).

Definition OnSuccess {S} `{CidOps} (cb : callback) : M (S * list callback) unit := fun st => ((st.1, st.2 ++ [cb]), Ok tt).

(** Arguments of [saveValueToMerkleCRDT]. *)
Inductive crdt_arg `{CidOps} :=
  | ABytes (b : bytes)
  | ALinks (l : list DAGLink)
  | AStatus (st : Z).

Definition IsDeletedStatus (st : Z) : bool := st =? Deleted.

(** ** The collection *)

Section DocOps.
Context {S : Type} `{MultiStore S} `{!Iterable S} `{DsKey} `{CidOps} `{!BlockKeys} `{!DagOps} `{CborCodec}
  `{!DescCodec} `{!DocKeyOps} `{!DocCodec} `{CborAny} `{!ValueCodec}.

(** Whether the database publishes updates ([c.db.events.Updates.HasValue()]). *)
Variable updates : bool.

Local Abbreviation St := (S * list callback)%type.

Definition data_Get (k : string) : M S bytes := @ds_Get S (store_of NData) k.
Definition data_Put (k : string) (v : bytes) : M S unit := @ds_Put S (store_of NData) k v.

Definition getPrimaryKey (c : collection) (docKey : string) : PrimaryDataStoreKey :=
  mkPrimaryDataStoreKey (Sprint c.(col_colID)) docKey.

Definition getPrimaryKeyFromDocKey (c : collection) (docKey : ClientDoc.DocKey) : result PrimaryDataStoreKey :=
  let! s := DocKey_String docKey in
  Ok (mkPrimaryDataStoreKey (Sprint c.(col_colID)) s).

Definition getDSKeyFromDockey (c : collection) (docKey : ClientDoc.DocKey) : result DataStoreKey :=
  let! s := DocKey_String docKey in
  Ok (mkDataStoreKey (Sprint c.(col_colID)) ValueKey s "").

(** The first field of the name, unless it is a relation. *)
Definition tryGetSchemaFieldID (c : collection) (fieldName : string) : option Z :=
  match List.find (fun f => String.eqb f.(fd_Name) fieldName) c.(col_desc).(cd_Schema).(sd_Fields) with
  | Some f => if IsObject f || IsObjectArray f then None else Some (u32 f.(fd_ID))
  | None => None
  end.

Definition tryGetFieldKey (c : collection) (key : PrimaryDataStoreKey) (fieldName : string) : option DataStoreKey :=
  fieldId ← tryGetSchemaFieldID c fieldName;
  Some (mkDataStoreKey key.(P_CollectionId) "" key.(P_DocKey) (Sprint fieldId)).

Definition isSecondaryIDField (c : collection) (fieldDesc : FieldDescription) : option FieldDescription :=
  if negb (fieldDesc.(fd_RelationType) =? Relation_Type_INTERNAL_ID) then None
  else
    match GetField c.(col_desc) (TrimSuffix fieldDesc.(fd_Name) "_id") with
    | Some f => if IsPrimaryRelation f then None else Some f
    | None => None
    end.

(** [exists]: whether there is a document, and whether it is deleted. *)
Definition col_exists (key : PrimaryDataStoreKey) : M S (bool * bool) :=
  let* r := mtry (data_Get (ToDS key)) in
  match r with
  | inr err => if errors_Is err ErrNotFound then mret (false, false) else mfail err
  | inl val => if String.eqb val (String DeletedObjectMarker "") then mret (true, true) else mret (true, false)
  end.

Definition saveValueToMerkleCRDT (c : collection) (key : DataStoreKey) (ctype : Z) (args : list crdt_arg)
    : M S (Node * Z) :=
  let version := NewCollectionSchemaVersionKey c.(col_desc).(cd_Schema).(sd_VersionID) in
  if ctype =? LWW_REGISTER then
    let name := match GetFieldByID c.(col_desc) key.(FieldId) with Some f => f.(fd_Name) | None => "" end in
    let* merkleCRDT := mlift (factory_Instance version ctype key name) in
    match args with
    | [ABytes b] =>
        match merkleCRDT with MLWW lwwreg => MerkleLWW_Set lwwreg b | MComposite _ => mpanic end
    | _ => mfail ErrUnknownCRDTArgument
    end
  else if ctype =? COMPOSITE then
    let key := WithFieldId key COMPOSITE_NAMESPACE in
    let* merkleCRDT := mlift (factory_Instance version ctype key "") in
    match args with
    | ABytes b :: ALinks links :: args =>
        match merkleCRDT with
        | MComposite comp =>
            match args with
            | [] => MerkleComposite_Set comp b links
            | AStatus st :: _ =>
                if IsDeletedStatus st then MerkleComposite_Delete comp links else MerkleComposite_Set comp b links
            | _ => mfail ErrUnknownCRDTArgument
            end
        | MLWW _ => mpanic
        end
    | _ => mfail ErrUnknownCRDTArgument
    end
  else mfail ErrUnknownCRDT.

Definition saveDocValue (c : collection) (key : DataStoreKey) (v : simpleValue Document) : M S (Node * Z) :=
  if v.(sv_t) =? LWW_REGISTER then
    match v.(sv_value) with
    | inr _ => mfail ErrValueTypeMismatch
    | inl x =>
        let* b := if v.(sv_delete) then mret "" else mlift (cbor_Marshal x) in
        saveValueToMerkleCRDT c key LWW_REGISTER [ABytes b]
    end
  else mfail ErrUnknownCRDT.

(** ** Reading *)

(** The loop over the properties of an encoded document. *)
Fixpoint decodeProps (ps : list (FieldDescription * encProperty)) (doc : Document) : result Document :=
  match ps with
  | [] => Ok doc
  | (fieldDesc, prop) :: ps =>
      let! (ctype, v) := prop_Decode prop in
      decodeProps ps (SetAs fieldDesc.(fd_Name) v ctype doc)
  end.

(** [encodedDocument.Decode] *)
Definition ed_Decode (encdoc : encodedDocument) : result Document :=
  let! key := NewDocKeyFromString (default "" encdoc.(ed_Key)) in
  decodeProps encdoc.(ed_Properties) (NewDocWithKey key).

(** Only the fetcher of the active documents is asked. *)
Definition FetchNextDecoded : M (S * DocumentFetcher) (option Document) :=
  let* encdoc := on_active FetchNext in
  match encdoc with
  | None => mret None
  | Some encdoc => let* doc := mlift (ed_Decode encdoc) in mret (Some doc)
  end.

(** A computation with a fetcher of its own. *)
Definition with_fetcher {A} (df : DocumentFetcher) (m : M (S * DocumentFetcher) A) : M S A := fun s =>
  let '((s, _), r) := m (s, df) in (s, r).

(** [collection.get]; a nil document is [None]. *)
Definition col_get (c : collection) (key : PrimaryDataStoreKey) (showDeleted : bool) : M S (option Document) :=
  let* df := mlift (fetcher_Init c.(col_desc) false showDeleted (mkDocumentFetcher new_fetcher None)) in
  let targetKey := MakeDocKey c.(col_desc) key.(P_DocKey) in
  with_fetcher df
    (let* _ := Fetcher_Start (Some [NewSpan targetKey (PrefixEnd targetKey)]) in
     FetchNextDecoded).

(** [collection.Get] within a transaction. *)
Definition col_Get (c : collection) (key : ClientDoc.DocKey) (showDeleted : bool) : M S (option Document) :=
  let* dsKey := mlift (getPrimaryKeyFromDocKey c key) in
  let* (found, isDeleted) := col_exists dsKey in
  if negb found || (isDeleted && negb showDeleted) then mfail ErrDocumentNotFound
  else col_get c dsKey showDeleted.

(** ** Merging *)

Definition getString (v : json) : result string :=
  match v with JString s => Ok s | _ => Err ErrUnexpectedType end.
Definition getBool (v : json) : result bool :=
  match v with JBool b => Ok b | _ => Err ErrUnexpectedType end.
Definition getFloat64 (v : json) : result float64 :=
  match v with JNumber _ f => f | _ => Err ErrUnexpectedType end.
Definition getInt64 (v : json) : result Z :=
  match v with JNumber i _ => i | _ => Err ErrUnexpectedType end.

(** The loop of [getArray]: a null is the zero value. *)
Fixpoint getItems {A} (zero : A) (get : json -> result A) (l : list json) : result (list A) :=
  match l with
  | [] => Ok []
  | item :: l =>
      let! x := match item with JNull => Ok zero | _ => get item end in
      let! xs := getItems zero get l in
      Ok (x :: xs)
  end.

(** [getArray]; the nil slice, which is encoded as null, is [None]. *)
Definition getArray {A} (zero : A) (v : json) (get : json -> result A) : result (option (list A)) :=
  match v with
  | JNull => Ok None
  | JArray l => let! l := getItems zero get l in Ok (Some l)
  | _ => Err ErrUnexpectedType
  end.

Definition getNillableArray {A} (v : json) (get : json -> result A) : result (option (list (option A))) :=
  getArray None v (fun item => let! x := get item in Ok (Some x)).

Definition slice {A} (f : list A -> val) (r : result (option (list A))) : result val :=
  let! o := r in Ok (match o with Some l => f l | None => VNil end).

Definition validateFieldSchema (v : json) (field : FieldDescription) : result val :=
  let k := field.(fd_Kind) in
  if (k =? FieldKind_DocKey) || (k =? FieldKind_STRING) then let! s := getString v in Ok (VString s)
  else if k =? FieldKind_STRING_ARRAY then slice VStrings (getArray "" v getString)
  else if k =? FieldKind_NILLABLE_STRING_ARRAY then slice VOptStrings (getNillableArray v getString)
  else if k =? FieldKind_BOOL then let! b := getBool v in Ok (VBool b)
  else if k =? FieldKind_BOOL_ARRAY then slice VBools (getArray false v getBool)
  else if k =? FieldKind_NILLABLE_BOOL_ARRAY then slice VOptBools (getNillableArray v getBool)
  else if k =? FieldKind_FLOAT then let! f := getFloat64 v in Ok (VFloat64 f)
  else if k =? FieldKind_FLOAT_ARRAY then slice VFloats (getArray (f64_of_Z 0) v getFloat64)
  else if k =? FieldKind_NILLABLE_FLOAT_ARRAY then slice VOptFloats (getNillableArray v getFloat64)
  else if k =? FieldKind_DATETIME then let! s := getString v in Ok (VString s)
  else if k =? FieldKind_INT then let! z := getInt64 v in Ok (VInt KInt64 z)
  else if k =? FieldKind_INT_ARRAY then slice VInts (getArray 0 v getInt64)
  else if k =? FieldKind_NILLABLE_INT_ARRAY then slice VOptInts (getNillableArray v getInt64)
  else if (k =? FieldKind_FOREIGN_OBJECT) || (k =? FieldKind_FOREIGN_OBJECT_ARRAY) then Err ErrMergeSubTypeNotSupported
  else Err NewErrUnhandledType.

(** The composite block of a change, published when the transaction succeeds. *)
Definition publish (docKey : string) (c : collection) (nd : Node) (priority : Z) : M St unit :=
  if updates then OnSuccess (CbPublish (mkUpdate _ docKey (Node_Cid nd) c.(col_schemaID) nd priority)) else mret tt.

Definition link_to (k : string) (nd : Node) : DAGLink := mkDAGLink _ k (Node_Cid nd).

(** Whether the patch goes to the related document instead. *)
Definition patcher : Type := collection -> FieldDescription -> string -> string -> M St unit.

(** The loop over the merged fields. *)
Fixpoint mergeFields (patchPrimaryDoc : patcher) (c : collection) (key : PrimaryDataStoreKey) (mergeMap : list (string * json))
    (links : list DAGLink) (mergeCBOR : list (string * option val)) : M St (list DAGLink * list (string * option val)) :=
  match mergeMap with
  | [] => mret (links, mergeCBOR)
  | (mfield, mval) :: mergeMap =>
      let* _ := match mval with JObject _ => mfail ErrInvalidMergeValueType | _ => mret tt end in
      match GetField c.(col_desc) mfield with
      | None => mfail NewErrFieldNotExist
      | Some fd =>
          match isSecondaryIDField c fd with
          | Some rel =>
              let* primaryId := mlift (getString mval) in
              let* _ := patchPrimaryDoc c rel key.(P_DocKey) primaryId in
              mergeFields patchPrimaryDoc c key mergeMap links mergeCBOR
          | None =>
              let* cborVal := mlift (validateFieldSchema mval fd) in
              match tryGetFieldKey c key mfield with
              | None => mfail NewErrFieldNotExist
              | Some fieldKey =>
                  let* (nd, _) := on_store (saveDocValue c fieldKey (newValue fd.(fd_Typ) (inl cborVal))) in
                  mergeFields patchPrimaryDoc c key mergeMap (links ++ [link_to mfield nd])
                    (assoc_put mfield (Some cborVal) mergeCBOR)
              end
          end
      end
  end.

Definition applyMerge_by (patchPrimaryDoc : patcher) (c : collection) (doc : list (string * (val + Document)))
    (merge : list (string * json)) : M St unit :=
  match assoc "_key" doc with
  | Some (inl (VString keyStr)) =>
      let key := getPrimaryKey c keyStr in
      let mergeMap := foldl (fun m e => assoc_put e.1 e.2 m) [] merge in
      let* (links, mergeCBOR) := mergeFields patchPrimaryDoc c key mergeMap [] [] in
      let* buf := mlift (cbor_canonical mergeCBOR) in
      let* (headNode, priority) := on_store (saveValueToMerkleCRDT c (ToDataStoreKey key) COMPOSITE
        [ABytes buf; ALinks links; AStatus Active]) in
      publish keyStr c headNode priority
  | _ => mfail ErrDocMissingKey
  end.

(** [client.UpdateResult] and [client.DeleteResult]: the keys of the documents; the count is their number. *)
Record opResult := mkOpResult { res_Count : Z; res_DocKeys : list string }.

(** The type of an updater: a patch, which is an array and not applied, or a merge. *)
Definition parse_updater (updater : string) : result (option (list (string * json))) :=
  let! parsed := fastjson_Parse updater in
  match parsed with
  | JArray _ => Ok None
  | JObject l => Ok (Some l)
  | _ => Err ErrInvalidUpdater
  end.

(** The update of one document, with the merge given: [doc.ToMap] of a nil document panics.
    The document is read with [Get], in the transaction that was set on the collection. *)
Definition updateOne (merge : collection -> list (string * (val + Document)) -> list (string * json) -> M St unit)
    (c : collection) (updater : option (list (string * json))) (key : ClientDoc.DocKey) : M St string :=
  let* doc := on_store (col_Get c key false) in
  match doc with
  | None => mpanic
  | Some doc =>
      let* v := mlift (ToMap doc) in
      let* _ := match updater with None => mret tt | Some l => merge c v l end in
      mlift (DocKey_String key)
  end.

Definition quote : string := String (ascii_of_nat 34) "".
Definition quoted (s : string) : string := quote +:+ s +:+ quote.

Definition patchPrimaryDoc_by (merge : collection -> list (string * (val + Document)) -> list (string * json) -> M St unit)
    : patcher := fun c rel docKey fieldValue =>
  let* primaryDockey := mlift (NewDocKeyFromString fieldValue) in
  let* primaryCol := on_store (getCollectionByName rel.(fd_Schema)) in
  let name := match GetRelation primaryCol.(col_desc) rel.(fd_RelationName) with Some f => f.(fd_Name) | None => "" end in
  let updater := "{" +:+ quoted (name +:+ "_id") +:+ ": " +:+ quoted docKey +:+ "}" in
  let* parsed := mlift (parse_updater updater) in
  let* _ := updateOne merge primaryCol parsed primaryDockey in
  mret tt.

(** A merge can patch a related document, which is a merge of its own; [depth] bounds the nesting, which in
    the code is that of the calls. *)
Fixpoint applyMerge (depth : nat) : collection -> list (string * (val + Document)) -> list (string * json) -> M St unit :=
  applyMerge_by
    match depth with
    | O => fun _ _ _ _ => mpanic
    | Datatypes.S depth => patchPrimaryDoc_by (applyMerge depth)
    end.

Definition patchPrimaryDoc (depth : nat) : patcher := patchPrimaryDoc_by (applyMerge depth).

Definition updateWithKey (depth : nat) (c : collection) (key : ClientDoc.DocKey) (updater : string) : M St opResult :=
  let* parsed := mlift (parse_updater updater) in
  let* k := updateOne (applyMerge depth) c parsed key in
  mret (mkOpResult 1 [k]).

Fixpoint updateAll (depth : nat) (c : collection) (updater : option (list (string * json))) (keys : list ClientDoc.DocKey)
    : M St (list string) :=
  match keys with
  | [] => mret []
  | key :: keys =>
      let* k := updateOne (applyMerge depth) c updater key in
      let* ks := updateAll depth c updater keys in
      mret (k :: ks)
  end.

Definition updateWithKeys (depth : nat) (c : collection) (keys : list ClientDoc.DocKey) (updater : string) : M St opResult :=
  let* parsed := mlift (parse_updater updater) in
  let* ks := updateAll depth c parsed keys in
  mret (mkOpResult (Z.of_nat (length ks)) ks).

(** ** Saving a document *)

(** The loop over the fields of the document. *)
Fixpoint saveFields (depth : nat) (c : collection) (primaryKey : PrimaryDataStoreKey) (doc : Document)
    (fields : list (string * simpleField)) (links : list DAGLink) (props : list (string * option val))
    : M St (list DAGLink * list (string * option val)) :=
  match fields with
  | [] => mret (links, props)
  | (k, f) :: fields =>
      let* v := mlift (GetValueWithField doc f) in
      if negb v.(sv_isDirty) then saveFields depth c primaryKey doc fields links props
      else
        match tryGetFieldKey c primaryKey k, GetField c.(col_desc) k with
        | Some fieldKey, Some fd =>
            match isSecondaryIDField c fd with
            | Some rel =>
                let* primaryId := mlift (match v.(sv_value) with inl (VString s) => Ok s | _ => Panic end) in
                let* _ := patchPrimaryDoc depth c rel primaryKey.(P_DocKey) primaryId in
                saveFields depth c primaryKey doc fields links props
            | None =>
                let* (nd, _) := on_store (saveDocValue c fieldKey v) in
                saveFields depth c primaryKey doc fields (links ++ [link_to k nd])
                  (assoc_put k (if v.(sv_delete) then Some VNil else exported v.(sv_value)) props)
            end
        | _, _ => mfail NewErrFieldNotExist
        end
  end.

(** [save] of the document at [p].  When the properties cannot be encoded no error is returned. *)
Definition save (depth : nat) (c : collection) (p : nat) (doc : Document) : M St Cid :=
  let* _ := OnSuccess (CbClean p) in
  let* primaryKey := mlift (getPrimaryKeyFromDocKey c (doc_Key doc)) in
  let* (links, docProperties) := saveFields depth c primaryKey doc (d_fields doc) [] [] in
  match cbor_canonical docProperties with
  | Err _ => mret Cid_Undef
  | Panic => mpanic
  | Ok buf =>
      let* (headNode, priority) := on_store (saveValueToMerkleCRDT c (ToDataStoreKey primaryKey) COMPOSITE
        [ABytes buf; ALinks links; AStatus Active]) in
      let* _ := publish primaryKey.(P_DocKey) c headNode priority in
      let* _ := OnSuccess (CbSetHead p (Node_Cid headNode)) in
      mret (Node_Cid headNode)
  end.

Definition getKeysFromDoc (c : collection) (doc : Document) : result (ClientDoc.DocKey * PrimaryDataStoreKey) :=
  let! buf := doc_Bytes doc in
  let! doccid := prefix_Sum_raw buf in
  let dockey := NewDocKeyV0 doccid in
  let! primaryKey := getPrimaryKeyFromDocKey c dockey in
  let! s := DocKey_String (doc_Key doc) in
  if String.eqb primaryKey.(P_DocKey) s then Ok (dockey, primaryKey) else Err NewErrDocVerification.

Definition col_create (depth : nat) (c : collection) (p : nat) (doc : Document) : M St unit :=
  let* (dockey, primaryKey) := mlift (getKeysFromDoc c doc) in
  let* (found, isDeleted) := on_store (col_exists primaryKey) in
  if (found : bool) then mfail NewErrDocumentAlreadyExists
  else if (isDeleted : bool) then mfail NewErrDocumentDeleted
  else
    let* _ := (if (length (d_values doc) =? 0)%nat then
                 let* valueKey := mlift (getDSKeyFromDockey c dockey) in
                 on_store (data_Put (ToDS valueKey) (String ObjectMarker ""))
               else mret tt) in
    let* _ := save depth c p doc in
    mret tt.

Definition col_update (depth : nat) (c : collection) (p : nat) (doc : Document) : M St unit :=
  let* _ := save depth c p doc in
  mret tt.

(** ** Deleting *)

Definition applyDelete (c : collection) (key : PrimaryDataStoreKey) : M St unit :=
  let* (found, isDeleted) := on_store (col_exists key) in
  if negb found then mfail ErrDocumentNotFound
  else if (isDeleted : bool) then mfail NewErrDocumentDeleted
  else
    let dsKey := ToDataStoreKey key in
    let* (cids, _) := on_store (heads_List (ToHeadStoreKey (WithFieldId dsKey COMPOSITE_NAMESPACE))) in
    let* (headNode, priority) := on_store (saveValueToMerkleCRDT c dsKey COMPOSITE
      [ABytes ""; ALinks (head_link <$> cids); AStatus Deleted]) in
    publish key.(P_DocKey) c headNode priority.

Definition deleteWithKey (c : collection) (key : PrimaryDataStoreKey) : M St opResult :=
  let* _ := applyDelete c key in
  mret (mkOpResult 1 [key.(P_DocKey)]).

Fixpoint deleteAll (c : collection) (keys : list ClientDoc.DocKey) : M St (list string) :=
  match keys with
  | [] => mret []
  | key :: keys =>
      let* dsKey := mlift (getPrimaryKeyFromDocKey c key) in
      let* _ := applyDelete c dsKey in
      let* ks := deleteAll c keys in
      mret (dsKey.(P_DocKey) :: ks)
  end.

Definition deleteWithKeys (c : collection) (keys : list ClientDoc.DocKey) : M St opResult :=
  let* ks := deleteAll c keys in
  mret (mkOpResult (Z.of_nat (length ks)) ks).

(** ** The operations of a collection with a transaction *)

Fixpoint col_CreateMany (depth : nat) (c : collection) (docs : list (nat * Document)) : M St unit :=
  match docs with
  | [] => mret tt
  | (p, doc) :: docs =>
      let* _ := col_create depth c p doc in
      col_CreateMany depth c docs
  end.

Definition col_Update (depth : nat) (c : collection) (p : nat) (doc : Document) : M St unit :=
  let* primaryKey := mlift (getPrimaryKeyFromDocKey c (doc_Key doc)) in
  let* (found, isDeleted) := on_store (col_exists primaryKey) in
  if negb found then mfail ErrDocumentNotFound
  else if (isDeleted : bool) then mfail NewErrDocumentDeleted
  else col_update depth c p doc.

(** [Save] of a deleted document does nothing and reports no error. *)
Definition col_Save (depth : nat) (c : collection) (p : nat) (doc : Document) : M St unit :=
  let* primaryKey := mlift (getPrimaryKeyFromDocKey c (doc_Key doc)) in
  let* (found, isDeleted) := on_store (col_exists primaryKey) in
  if (isDeleted : bool) then mret tt
  else if (found : bool) then col_update depth c p doc
  else col_create depth c p doc.

Definition col_Delete (c : collection) (key : ClientDoc.DocKey) : M St bool :=
  let* primaryKey := mlift (getPrimaryKeyFromDocKey c key) in
  let* (found, isDeleted) := on_store (col_exists primaryKey) in
  if negb found || isDeleted then mfail ErrDocumentNotFound
  else
    let* _ := applyDelete c primaryKey in
    mret true.

Definition col_Exists (c : collection) (key : ClientDoc.DocKey) : M St bool :=
  let* primaryKey := mlift (getPrimaryKeyFromDocKey c key) in
  let* r := mtry (on_store (col_exists primaryKey)) in
  match r with
  | inl (found, isDeleted) => mret (found && negb isDeleted)
  | inr err => if errors_Is err ErrNotFound then mret false else mfail err
  end.

Definition DeleteWithKey (c : collection) (key : ClientDoc.DocKey) : M St opResult :=
  let* dsKey := mlift (getPrimaryKeyFromDocKey c key) in
  deleteWithKey c dsKey.
End DocOps.

(** ** Implicit transactions *)

(** A database that makes transactions.  A transaction that cannot be committed, or is
    discarded, leaves the database as it was. *)
Class TxnDB (D S : Type) := {
  NewTxn : bool -> D -> result S;
  commit_store : S -> D -> D * result unit;
  commit_store_fails : forall s d, (commit_store s d).2 <> Ok tt -> (commit_store s d).1 = d;
}.

Section Implicit.
Context {D S : Type} `{TxnDB D S} `{CidOps} `{!DocKeyOps}.

(** The objects of the caller, by their pointers, and the updates that were published. *)
Record world := mkWorld { w_docs : list Document; w_published : list Update }.

Definition run_callback (w : world) (cb : callback) : world :=
  match cb with
  | CbClean p => mkWorld (alter (fun d => (doc_Clean d).1) p w.(w_docs)) w.(w_published)
  | CbSetHead p c => mkWorld (alter (SetHead c) p w.(w_docs)) w.(w_published)
  | CbPublish u => mkWorld w.(w_docs) (w.(w_published) ++ [u])
  end.

Definition runSuccessFns (cbs : list callback) (w : world) : world := foldl run_callback w cbs.

(** [txn.Commit] *)
Definition txnCommit (s : S) (cbs : list callback) : M (D * world) unit := fun st =>
  let '(d, r) := commit_store s st.1 in
  match r with
  | Ok _ => ((d, runSuccessFns cbs st.2), Ok tt)
  | Err e => ((d, st.2), Err e)
  | Panic => ((d, st.2), Panic)
  end.

(** [getTxn], the operation, [commitImplicitTxn] when it succeeds, and [discardImplicitTxn]. *)
Definition implicitTxn {A} (readonly : bool) (op : M (S * list callback) A) : M (D * world) A := fun st =>
  match NewTxn readonly st.1 with
  | Err e => (st, Err e)
  | Panic => (st, Panic)
  | Ok s =>
      let '((s, cbs), r) := op (s, []) in
      match r with
      | Ok x => (let* _ := txnCommit s cbs in mret x) st
      | Err e => (st, Err e)
      | Panic => (st, Panic)
      end
  end.
End Implicit.
