(* ===== verification/DocSpec.v ===== *)
(** * What the document operations do

    The effect of saving, reading and deleting documents on the four stores of a
    transaction, from the effects of the Merkle CRDTs ([Clock]) and of the fetcher
    ([Fetcher]): a save writes the changed fields and one composite block; what was saved is
    read back; a deleted document is found no more. *)

From Stdlib Require Import Ascii.
From S2P Require Import Prelude GoStd Keys Spans Store MultiStore Crdt Clock Values DocMap Desc Schema Iterate Fetcher ClientDoc DocOps.

(** ** Runs inside a transaction *)

Section TxnSteps.
Context {S : Type} `{LawfulMultiStore S} {T : Type}.

(** [tsteps m s t V r t']: run on the store [s] with [t] registered, [m] returns [r] and
    leaves the contents [V] and [t']. *)
Definition tsteps {A} (m : M (S * T) A) (s : S) (t : T) (V : namespace -> contents) (r : result A) (t' : T) : Prop :=
  (m (s, t)).2 = r /\ (m (s, t)).1.2 = t' /\ forall n, views (m (s, t)).1.1 n = V n.

Lemma tsteps_ret {A} (x : A) s t V : (forall n, views s n = V n) -> tsteps (mret x) s t V (Ok x) t.
Proof. done. Qed.

Lemma tsteps_lift {A} (r : result A) s t V : (forall n, views s n = V n) -> tsteps (mlift r) s t V r t.
Proof. done. Qed.

Lemma tsteps_store {A} (m : M S A) s t V r : msteps m s V r -> tsteps (on_store m) s t V r t.
Proof. unfold msteps, tsteps, on_store. cbn. destruct (m s) as [s1 q]. cbn. by intros [-> Hv]. Qed.

Lemma tsteps_bind {A B} (m : M (S * T) A) (k : A -> M (S * T) B) s t V x t1 V' r t' :
  tsteps m s t V (Ok x) t1 ->
  (forall s1, (forall n, views s1 n = V n) -> tsteps (k x) s1 t1 V' r t') ->
  tsteps (mbind m k) s t V' r t'.
Proof.
  unfold tsteps, mbind. destruct (m (s, t)) as [[s1 g] q]. cbn. intros (-> & -> & Hv) Hk. by apply Hk.
Qed.

(** The state between two computations. *)
Lemma tsteps_then {A} (m : M (S * T) A) s t V x t1 :
  tsteps m s t V (Ok x) t1 ->
  exists s1, (forall n, views s1 n = V n) /\
    forall B (k : A -> M (S * T) B) V' r t', tsteps (k x) s1 t1 V' r t' -> tsteps (mbind m k) s t V' r t'.
Proof.
  unfold tsteps, mbind. destruct (m (s, t)) as [[s1 g] q]. cbn. intros (-> & -> & Hv). exists s1. by split.
Qed.

Lemma tsteps_bind_lift {A B} (x : A) (k : A -> M (S * T) B) s t V r t' :
  tsteps (k x) s t V r t' -> tsteps (mbind (mlift (Ok x)) k) s t V r t'.
Proof. done. Qed.

Lemma tsteps_bind_err {A B} (m : M (S * T) A) (k : A -> M (S * T) B) s t V e t' :
  tsteps m s t V (Err e) t' -> tsteps (mbind m k) s t V (Err e) t'.
Proof. unfold tsteps, mbind. destruct (m (s, t)) as [[s1 g] q]. cbn. by intros (-> & -> & Hv). Qed.
End TxnSteps.

(** ** The heads of different fields *)

Section Frames.
Context `{DsKey} `{CidOps}.
Variable doc : string.
Hypothesis Hdoc : elem_ok doc = true.

Lemma below_field_apart f g k :
  elem_ok f = true -> elem_ok g = true -> f <> g -> below (path_of [doc; f]) k -> ~ below (path_of [doc; g]) k.
Proof.
  intros Hf Hg Hne [x ->] [y E]. apply Hne. cbn [path_of] in E. autorewrite with go in E.
  injection E as E. apply str_app_inj_l in E. injection E as E.
  by eapply free_prefix_eq; [by apply elem_ok_free..|exact E].
Qed.

(** The head entries of the field are the same. *)
Definition same_heads (f : string) (m m' : contents) : Prop := forall k, below (path_of [doc; f]) k -> m' !! k = m !! k.

Lemma same_heads_trans f m m' m'' : same_heads f m m' -> same_heads f m' m'' -> same_heads f m m''.
Proof. intros H1 H2 k Hk. rewrite H2 by done. by apply H1. Qed.

Lemma is_head_same f m m' c : same_heads f m m' -> is_head doc f m' c = is_head doc f m c.
Proof. intros Hs. unfold is_head. rewrite (Hs _ (below_hkey doc f c)). done. Qed.

Lemma height_of_same f m m' c : same_heads f m m' -> height_of doc f m' c = height_of doc f m c.
Proof. intros Hs. unfold height_of. by rewrite (Hs _ (below_hkey doc f c)). Qed.

Lemma heads_wf_same f m m' : same_heads f m m' -> heads_wf doc f m -> heads_wf doc f m'.
Proof. intros Hs Hwf k v Hk Hb. rewrite Hs in Hk by done. by apply Hwf. Qed.

Lemma heads_of_same f m m' hs h : same_heads f m m' -> heads_of doc f m' hs h -> heads_of doc f m hs h.
Proof.
  intros Hs [He Hn Hu Hm]. split.
  - intros c. by rewrite He, (is_head_same f m m' c Hs).
  - done.
  - intros c Hc. rewrite <- (height_of_same f m m' c Hs). by apply Hu.
  - destruct Hm as [?|(c & Hc & E)]; [by left|right]. exists c. split; [done|]. by rewrite <- (height_of_same f m m' c Hs).
Qed.
End Frames.

(** ** Writing fields *)

(** A field that is written: its name, its id and the encoded value. *)
Record write := mkWrite { w_name : string; w_id : string; w_bytes : bytes }.

Section Writes.
Context {S : Type} `{LawfulMultiStore S} `{DsKey} `{CidOps} `{!BlockKeys} `{!DagOps} `{CborCodec}.
Variables col doc : string.
Hypothesis Hcol : elem_ok col = true.
Hypothesis Hdoc : elem_ok doc = true.

Local Abbreviation key f := (mkDataStoreKey col "" doc f).

(** The stored form of a value. *)
Definition register (b : bytes) : bytes := String (byte_of LWW_REGISTER) b.

(** The heads of a field are well-formed and have room for one more block. *)
Record head_ready (f : string) (m : contents) : Prop := {
  hr_wf : heads_wf doc f m;
  hr_room : forall c, is_head doc f m c = true -> height_of doc f m c < 2 ^ 64 - 1;
}.

Lemma head_ready_same f m m' : same_heads doc f m m' -> head_ready f m -> head_ready f m'.
Proof.
  intros Hs [Hwf Hr]. split; [by eapply heads_wf_same|]. intros c. rewrite (is_head_same doc f m m') by done.
  rewrite (height_of_same doc f m m') by done. apply Hr.
Qed.

(** The document can be changed in the given fields and as a whole. *)
Record doc_ready (fs : list string) (V : namespace -> contents) : Prop := {
  dr_inv : doc_inv col doc (V NData);
  dr_fields : forall f, f ∈ fs -> elem_ok f = true /\ head_ready f (V NHead) /\ clock_ahead col doc f V;
  dr_composite : head_ready COMPOSITE_NAMESPACE (V NHead);
}.

(** The clock of a field: its heads are well-formed, of height at most [n], and not behind
    the priority of its value. *)
Record clock_ok (n : Z) (f : string) (V : namespace -> contents) : Prop := {
  ck_wf : heads_wf doc f (V NHead);
  ck_le : forall k v, V NHead !! k = Some v -> below (path_of [doc; f]) k -> (Uvarint v).1 <= n;
  ck_ahead : clock_ahead col doc f V;
}.

Lemma clock_ok_head n f V c : clock_ok n f V -> is_head doc f (V NHead) c = true -> height_of doc f (V NHead) c <= n.
Proof.
  intros Hc Hh. apply bool_decide_eq_true in Hh as [v Hv]. unfold height_of. rewrite Hv.
  exact (ck_le _ _ _ Hc _ _ Hv (below_hkey doc f c)).
Qed.

Lemma clock_ok_ready n f V : clock_ok n f V -> n < 2 ^ 64 - 1 -> head_ready f (V NHead).
Proof.
  intros Hc Hn. split; [by apply (ck_wf _ _ _ Hc)|]. intros c Hh. pose proof (clock_ok_head _ _ _ c Hc Hh). lia.
Qed.

Lemma clock_ok_mono n n' f V : n <= n' -> clock_ok n f V -> clock_ok n' f V.
Proof. intros Hn [Hw Hl Ha]. split; [done| |done]. intros k v Hk Hb. pose proof (Hl k v Hk Hb). lia. Qed.

Lemma clock_ok_same n f (V V' : namespace -> contents) :
  same_heads doc f (V NHead) (V' NHead) -> reg_prio col doc f (V' NData) = reg_prio col doc f (V NData) ->
  clock_ok n f V -> clock_ok n f V'.
Proof.
  intros Hs Hp [Hw Hl Ha]. split.
  - by eapply heads_wf_same.
  - intros k v Hk Hb. rewrite Hs in Hk by done. by eapply Hl.
  - intros hs h Hho. rewrite Hp. apply (Ha hs h). by eapply heads_of_same.
Qed.

(** After a block is added the clock is one higher. *)
Lemma clock_ok_added n f (V V' : namespace -> contents) hs h delta nd :
  elem_ok f = true -> 0 <= n -> clock_ok n f V -> heads_of doc f (V NHead) hs h -> is_u64 (h + 1) ->
  added doc f V V' hs h delta nd -> reg_prio col doc f (V' NData) <= h + 1 -> clock_ok (n + 1) f V'.
Proof.
  intros Hf Hn Hc Hho Hu Ha Hp.
  assert (h <= n) as Hh.
  { destruct (ho_max _ _ _ _ _ Hho) as [[_ ->]|(c & Hin & <-)]; [done|]. apply clock_ok_head; [done|].
    by apply (ho_elem _ _ _ _ _ Hho). }
  split.
  - eapply heads_wf_added; [exact Ha|done|]. apply (ck_wf _ _ _ Hc).
  - intros k v Hk Hb. apply (added_entries _ _ _ _ _ _ _ _ Ha) in Hk as [[_ ->]|Hk].
    + rewrite Uvarint_PutUvarint by done. cbn. lia.
    + pose proof (ck_le _ _ _ Hc _ _ Hk Hb). lia.
  - intros hs' h' Hho'. by rewrite (heads_of_added doc f _ _ _ _ _ _ _ _ Ha Hu Hho').
Qed.

(** What writing the fields [ws], linked to by [links], makes of the stores. *)
Record wrote (ws : list write) (links : list DAGLink) (V V' : namespace -> contents) : Prop := {
  wr_inv : doc_inv col doc (V NData) -> doc_inv col doc (V' NData);
  wr_deleted : is_deleted_doc col doc (V' NData) = is_deleted_doc col doc (V NData);
  wr_value : forall w, w ∈ ws -> V' NData !! active_key col doc (w_id w) (V NData) = Some (register (w_bytes w));
  wr_data : forall k, (forall w, w ∈ ws -> k <> pkey col doc (w_id w) /\ k <> active_key col doc (w_id w) (V NData)) ->
    V' NData !! k = V NData !! k;
  wr_heads : forall k, (forall w, w ∈ ws -> ~ below (path_of [doc; w_id w]) k) -> V' NHead !! k = V NHead !! k;
  wr_links : Forall2 (fun w l => L_Name l = w_name w /\ Cid_Defined (L_Cid l) = true /\
    is_Some (V' NBlock !! block_key (L_Cid l))) ws links;
  wr_blocks : forall k, is_Some (V NBlock !! k) -> is_Some (V' NBlock !! k);
  wr_system : V' NSystem = V NSystem;
  wr_clock : forall w n, w ∈ ws -> 0 <= n -> clock_ok n (w_id w) V -> clock_ok (n + 1) (w_id w) V';
}.

Lemma wrote_nil V : wrote [] [] V V.
Proof. split; try done. all: by intros w; intros; exfalso; eapply not_elem_of_nil. Qed.

(** A field that is not written keeps its clock. *)
Lemma clock_ok_wrote ws links V V' n f :
  wrote ws links V V' -> elem_ok f = true -> (forall w, w ∈ ws -> elem_ok (w_id w) = true /\ f <> w_id w) ->
  clock_ok n f V -> clock_ok n f V'.
Proof.
  intros W Hf Hd. apply clock_ok_same.
  - intros k Hk. apply (wr_heads _ _ _ _ W). intros w Hw. destruct (Hd w Hw) as [Hwo Hne].
    by apply (below_field_apart doc f (w_id w)).
  - unfold reg_prio. rewrite (wr_data _ _ _ _ W); [done|]. intros w Hw. destruct (Hd w Hw) as [Hwo Hne].
    split; [key_ne|]. by apply pkey_active.
Qed.

Lemma active_key_same f (m m' : contents) :
  is_deleted_doc col doc m' = is_deleted_doc col doc m -> active_key col doc f m' = active_key col doc f m.
Proof. unfold active_key. by intros ->. Qed.

Lemma wrote_app ws1 l1 ws2 l2 V V1 V2 :
  (forall w, w ∈ ws1 ++ ws2 -> elem_ok (w_id w) = true) ->
  (forall w w', w ∈ ws1 -> w' ∈ ws2 -> elem_ok (w_id w) = true /\ elem_ok (w_id w') = true /\ w_id w <> w_id w') ->
  wrote ws1 l1 V V1 -> wrote ws2 l2 V1 V2 -> wrote (ws1 ++ ws2) (l1 ++ l2) V V2.
Proof.
  intros Hok Hd W1 W2. pose proof (wr_deleted _ _ _ _ W1) as E1.
  split.
  - intros Hi. by apply (wr_inv _ _ _ _ W2), (wr_inv _ _ _ _ W1).
  - by rewrite (wr_deleted _ _ _ _ W2).
  - intros w [Hw|Hw]%elem_of_app.
    + rewrite (wr_data _ _ _ _ W2); [by apply (wr_value _ _ _ _ W1)|]. intros w' Hw'.
      destruct (Hd w w' Hw Hw') as (Ho & Ho' & Hne). split; [by apply not_eq_sym, pkey_active|].
      by apply active_key_ne.
    + rewrite <- (active_key_same _ _ _ E1). by apply (wr_value _ _ _ _ W2).
  - intros k Hk. rewrite (wr_data _ _ _ _ W2); [apply (wr_data _ _ _ _ W1)|].
    + intros w Hw. apply Hk, elem_of_app. by left.
    + intros w Hw. rewrite (active_key_same _ _ _ E1). apply Hk, elem_of_app. by right.
  - intros k Hk. rewrite (wr_heads _ _ _ _ W2); [apply (wr_heads _ _ _ _ W1)|];
      intros w Hw; apply Hk, elem_of_app; auto.
  - apply Forall2_app; [|apply (wr_links _ _ _ _ W2)]. eapply Forall2_impl; [apply (wr_links _ _ _ _ W1)|].
    intros w l (En & Hc & Hb). split; [done|]. split; [done|]. by apply (wr_blocks _ _ _ _ W2).
  - intros k Hk. by apply (wr_blocks _ _ _ _ W2), (wr_blocks _ _ _ _ W1).
  - by rewrite (wr_system _ _ _ _ W2), (wr_system _ _ _ _ W1).
  - intros w n [Hw|Hw]%elem_of_app Hn Hc.
    + apply (clock_ok_wrote _ _ _ _ _ _ W2); [by apply Hok, elem_of_app; left| |by apply (wr_clock _ _ _ _ W1)].
      intros w2 Hw2. by destruct (Hd w w2 Hw Hw2) as (_ & ? & ?).
    + apply (wr_clock _ _ _ _ W2); [done..|]. apply (clock_ok_wrote _ _ _ _ _ _ W1); [by apply Hok, elem_of_app; right| |done].
      intros w1 Hw1. destruct (Hd w1 w Hw1 Hw) as (? & _ & ?). by split; [|apply not_eq_sym].
Qed.

Lemma put_block_mono m b k : is_Some (m !! k) -> is_Some (put_block m b !! k).
Proof.
  intros Hk. unfold put_block. destruct (m !! block_key (B_Cid b)) eqn:E; [done|].
  destruct (decide (k = block_key (B_Cid b))) as [->|]; [by rewrite lookup_insert_eq|by rewrite lookup_insert_ne].
Qed.

Lemma put_block_has m b : is_Some (put_block m b !! block_key (B_Cid b)).
Proof. unfold put_block. destruct (m !! block_key (B_Cid b)) eqn:E; [by rewrite E|by rewrite lookup_insert_eq]. Qed.

(** One field. *)
Lemma wrote_field f name b hs h (V V' : namespace -> contents) delta nd :
  elem_ok f = true -> is_u64 (h + 1) -> heads_of doc f (V NHead) hs h ->
  added doc f V V' hs h delta nd -> V' NData = reg_write col doc f (V NData) (h + 1, b) ->
  wrote [mkWrite name f b] [link_to name nd] V V'.
Proof.
  intros Hf Hh Hho Ha HD. split.
  - intros Hi. rewrite HD. by apply doc_inv_write.
  - rewrite HD. by apply is_deleted_doc_write.
  - intros w ->%list_elem_of_singleton. cbn [w_id w_bytes]. rewrite HD. unfold reg_write.
    by rewrite lookup_insert_ne, lookup_insert_eq by (by apply pkey_active).
  - intros k Hk. rewrite HD. destruct (Hk _ ltac:(left)). by apply lookup_reg_write_ne.
  - intros k Hk. apply (added_other _ _ _ _ _ _ _ _ Ha). by apply (Hk _ ltac:(left)).
  - constructor; [|constructor]. split; [done|]. split; [apply Node_Cid_Defined|].
    rewrite (added_block _ _ _ _ _ _ _ _ Ha). apply (put_block_has _ (node_block nd)).
  - intros k Hk. rewrite (added_block _ _ _ _ _ _ _ _ Ha). by apply put_block_mono.
  - apply (added_system _ _ _ _ _ _ _ _ Ha).
  - intros w n ->%list_elem_of_singleton Hn Hc. cbn [w_id] in *. eapply clock_ok_added; [done..|exact Ha|].
    rewrite HD. pose proof (reg_state_write col doc f Hcol Hdoc Hf (V NData) (h + 1, b) Hh) as E. injection E as -> _. lia.
Qed.

(** Fields that are not written stay ready. *)
Lemma doc_ready_wrote fs ws links V V' :
  wrote ws links V V' -> doc_ready fs V ->
  (forall f w, f ∈ COMPOSITE_NAMESPACE :: fs -> w ∈ ws -> elem_ok (w_id w) = true /\ f <> w_id w) ->
  doc_ready fs V'.
Proof.
  intros W [Hi Hfs Hc] Hd.
  assert (forall f, f ∈ COMPOSITE_NAMESPACE :: fs -> elem_ok f = true -> same_heads doc f (V NHead) (V' NHead)) as Hsame.
  { intros f Hf Hfo k Hk. apply (wr_heads _ _ _ _ W). intros w Hw. destruct (Hd f w Hf Hw) as [Hwo Hne].
    by apply (below_field_apart doc f (w_id w)). }
  split; [by apply (wr_inv _ _ _ _ W)| |].
  - intros f Hf. destruct (Hfs f Hf) as (Hfo & Hr & Ha). pose proof (Hsame f ltac:(by right) Hfo) as Hs.
    split; [done|]. split; [by eapply head_ready_same|]. intros hs h Hho.
    assert (reg_prio col doc f (V' NData) = reg_prio col doc f (V NData)) as ->.
    { unfold reg_prio. rewrite (wr_data _ _ _ _ W); [done|]. intros w Hw.
      destruct (Hd f w ltac:(by right) Hw) as [Hwo Hne]. split; [key_ne|]. by apply pkey_active. }
    apply (Ha hs h). by eapply heads_of_same.
  - eapply head_ready_same; [|done]. by apply Hsame; [left|].
Qed.

Lemma doc_ready_ext fs (V V' : namespace -> contents) : (forall n, V' n = V n) -> doc_ready fs V -> doc_ready fs V'.
Proof.
  intros E [Hi Hf Hc]. split; [by rewrite E| |by rewrite E]. intros f Hin. destruct (Hf f Hin) as (Ho & Hr & Ha).
  split; [done|]. split; [by rewrite E|]. unfold clock_ahead. by rewrite !E.
Qed.

Lemma wrote_ext ws links (V V1 V' : namespace -> contents) : (forall n, V1 n = V n) -> wrote ws links V1 V' -> wrote ws links V V'.
Proof.
  intros E [W1 W2 W3 W4 W5 W6 W7 W8 W9]. rewrite !E in *. split; try done. intros w n Hw Hn Hc. apply W9; [done..|].
  eapply clock_ok_same; [| |exact Hc]; [intros k _|unfold reg_prio]; by rewrite E.
Qed.

Lemma doc_ready_weaken fs fs' V : (forall f, f ∈ fs -> f ∈ fs') -> doc_ready fs' V -> doc_ready fs V.
Proof. intros Hs [Hi Hf Hc]. split; [done| |done]. intros f Hin. by apply Hf, Hs. Qed.
End Writes.

(** ** Saving *)

Section Saves.
Context {S : Type} `{LawfulMultiStore S} `{!Iterable S} `{DsKey} `{CidOps} `{!BlockKeys} `{!DagOps} `{CborCodec}
  `{!DescCodec} `{!DocKeyOps} `{!DocCodec} `{CborAny} `{!ValueCodec}.
Variables (updates : bool) (c : collection) (d : string).
Hypothesis Hd : elem_ok d = true.

Local Abbreviation col := (Sprint c.(col_colID)).
Local Abbreviation pkey_of := (mkPrimaryDataStoreKey col d).

Lemma Sprint_not_composite z : COMPOSITE_NAMESPACE <> Sprint z.
Proof. intros E. pose proof (KeyInstances.pretty_digits (Z.to_N z)) as Hp. unfold Sprint in E. by rewrite <- E in Hp. Qed.

(** The write of a changed field, when the value can be stored in the field of its name. *)
Definition field_write (k : string) (v : simpleValue Document) : option write :=
  match GetField c.(col_desc) k with
  | None => None
  | Some fd =>
      if IsObject fd || IsObjectArray fd then None
      else
        match isSecondaryIDField c fd, v.(sv_value), (v.(sv_t) =? LWW_REGISTER) with
        | None, inl x, true =>
            match (if v.(sv_delete) then Ok "" else cbor_Marshal x) with
            | Ok b => Some (mkWrite k (Sprint (u32 fd.(fd_ID))) b)
            | _ => None
            end
        | _, _, _ => None
        end
  end.

(** The writes of a document: those of its changed fields, in the order of the loop. *)
Fixpoint planned (doc : Document) (fields : list (string * simpleField)) : option (list write) :=
  match fields with
  | [] => Some []
  | (k, f) :: fields =>
      v ← assoc f (d_values doc);
      if negb v.(sv_isDirty) then planned doc fields
      else w ← field_write k v; ws ← planned doc fields; Some (w :: ws)
  end.

(** The properties for the composite block. *)
Fixpoint save_props (doc : Document) (fields : list (string * simpleField)) (props : list (string * option val))
    : list (string * option val) :=
  match fields with
  | [] => props
  | (k, f) :: fields =>
      match assoc f (d_values doc) with
      | Some v =>
          save_props doc fields
            (if v.(sv_isDirty) then assoc_put k (if v.(sv_delete) then Some VNil else exported v.(sv_value)) props else props)
      | None => props
      end
  end.

Lemma tryGetFieldKey_found k fd :
  GetField c.(col_desc) k = Some fd -> IsObject fd || IsObjectArray fd = false ->
  tryGetFieldKey c pkey_of k = Some (mkDataStoreKey col "" d (Sprint (u32 fd.(fd_ID)))).
Proof.
  unfold GetField, first_field, tryGetFieldKey, tryGetSchemaFieldID. destruct (negb _); [|done]. intros -> ->. done.
Qed.

Lemma msteps_saveDocValue k v w s :
  field_write k v = Some w -> doc_ready col d [w_id w] (views s) ->
  exists fd nd h V, GetField c.(col_desc) k = Some fd /\ isSecondaryIDField c fd = None /\
    tryGetFieldKey c pkey_of k = Some (mkDataStoreKey col "" d (w_id w)) /\
    msteps (saveDocValue c (mkDataStoreKey col "" d (w_id w)) v) s V (Ok (nd, h)) /\
    wrote col d [w] [link_to k nd] (views s) V.
Proof.
  unfold field_write. destruct (GetField c.(col_desc) k) as [fd|] eqn:Ef; [|done].
  destruct (IsObject fd || IsObjectArray fd) eqn:Eo; [done|]. destruct (isSecondaryIDField c fd) eqn:Es; [done|].
  destruct (sv_value v) as [x|] eqn:Ex; [|done]. destruct (sv_t v =? LWW_REGISTER) eqn:Et; [|done].
  destruct (if sv_delete v then Ok "" else cbor_Marshal x) as [b| |] eqn:Eb; [|done..]. intros [= <-] Hr.
  cbn [w_id]. set (f := Sprint (u32 (fd_ID fd))) in *.
  destruct (dr_fields _ _ _ _ Hr f ltac:(left)) as (Hf & [Hwf Hroom] & Ha).
  set (name := match GetFieldByID c.(col_desc) f with Some f => f.(fd_Name) | None => "" end).
  destruct (msteps_LWW_Set col d f (Sprint_elem_ok _) Hd Hf "" (NewCollectionSchemaVersionKey c.(col_desc).(cd_Schema).(sd_VersionID))
    name s b) as (hs & h & nd & V & Hho & Hs & Hadd & Hh & HD); [split; [apply Hr|done..]|done|].
  exists fd, nd, (h + 1), V. split; [done|]. split; [done|]. split; [by apply tryGetFieldKey_found|]. split.
  - unfold saveDocValue. rewrite Et, Ex.
    replace (if sv_delete v then mret "" else mlift (cbor_Marshal x)) with (@mlift S bytes (Ok b)).
    + exact Hs.
    + destruct (sv_delete v); [by injection Eb as <-|by rewrite Eb].
  - eapply (wrote_field col d); [apply Sprint_elem_ok|done|done|exact Hh|exact Hho|exact Hadd|exact HD].
Qed.

Lemma field_write_id k v w : field_write k v = Some w -> w_name w = k /\ exists z, w_id w = Sprint z.
Proof.
  unfold field_write. destruct (GetField _ _) as [fd|]; [|done]. destruct (_ || _); [done|].
  destruct (isSecondaryIDField c fd), (sv_value v) as [x|], (sv_t v =? LWW_REGISTER); try done.
  destruct (if sv_delete v then Ok "" else cbor_Marshal x); try done.
  intros [= <-]. split; [done|]. by eexists.
Qed.

Lemma planned_ids doc fields ws w : planned doc fields = Some ws -> w ∈ ws -> exists z, w_id w = Sprint z.
Proof.
  revert ws. induction fields as [|[k f] fields IH]; intros ws; cbn [planned].
  - intros [= <-] ?%elem_of_nil. done.
  - destruct (assoc f (d_values doc)) as [v|]; [|done]. cbn [base.mbind option_bind]. destruct (negb _); [apply IH|].
    destruct (field_write k v) as [w1|] eqn:Ew; [|done]. cbn [base.mbind option_bind].
    destruct (planned doc fields) as [ws1|]; [|done]. intros [= <-]. intros [->|Hin]%elem_of_cons; [|by eapply IH].
    by destruct (field_write_id _ _ _ Ew).
Qed.

Lemma wrote_cons w l ws ls V V1 V2 :
  NoDup (w_id <$> (w :: ws)) -> (forall w', w' ∈ w :: ws -> exists z, w_id w' = Sprint z) ->
  wrote col d [w] [l] V V1 -> wrote col d ws ls V1 V2 -> wrote col d (w :: ws) (l :: ls) V V2.
Proof.
  intros Hnd Hids W1 W2. change (w :: ws) with ([w] ++ ws). change (l :: ls) with ([l] ++ ls).
  apply (wrote_app col d (Sprint_elem_ok _) Hd _ _ _ _ _ V1); [| |done|done].
  { intros w1 Hw1. destruct (Hids w1 Hw1) as [z ->]. apply Sprint_elem_ok. }
  intros w1 w2 ->%list_elem_of_singleton Hw2. apply NoDup_cons in Hnd as [Hni _].
  destruct (Hids w ltac:(left)) as [z E1]. destruct (Hids w2 ltac:(by right)) as [z2 E2].
  split; [rewrite E1; apply Sprint_elem_ok|]. split; [rewrite E2; apply Sprint_elem_ok|]. intros E. apply Hni. rewrite E.
  apply list_elem_of_fmap. by exists w2.
Qed.

(** After one of the fields is written the others are still ready. *)
Lemma doc_ready_next w l ws V V1 :
  NoDup (w_id <$> (w :: ws)) -> (forall w', w' ∈ w :: ws -> exists z, w_id w' = Sprint z) ->
  wrote col d [w] [l] V V1 -> doc_ready col d (w_id <$> (w :: ws)) V -> doc_ready col d (w_id <$> ws) V1.
Proof.
  intros Hnd Hids W Hr. eapply (doc_ready_wrote col d); [apply Sprint_elem_ok|done|exact W| |].
  - eapply doc_ready_weaken; [|exact Hr]. intros f Hf. by right.
  - intros f w' Hf ->%list_elem_of_singleton. destruct (Hids w ltac:(left)) as [z Ez]. rewrite Ez.
    split; [apply Sprint_elem_ok|]. apply elem_of_cons in Hf as [->|Hf]; [apply Sprint_not_composite|].
    apply NoDup_cons in Hnd as [Hni _]. intros E. apply Hni. by rewrite Ez, <- E.
Qed.

Lemma saveFields_spec depth doc fields ws links props s (t : list callback) :
  planned doc fields = Some ws -> NoDup (w_id <$> ws) -> doc_ready col d (w_id <$> ws) (views s) ->
  exists V ls, tsteps (saveFields updates depth c pkey_of doc fields links props) s t V
      (Ok (links ++ ls, save_props doc fields props)) t /\
    wrote col d ws ls (views s) V.
Proof.
  revert ws links props s. induction fields as [|[k f] fields IH]; intros ws links props s Hp Hnd Hr.
  { injection Hp as <-. exists (views s), []. split; [by rewrite app_nil_r; apply tsteps_ret|]. apply wrote_nil. }
  pose proof (fun w => planned_ids _ _ _ w Hp) as Hids. cbn [planned] in Hp.
  cbn [saveFields save_props]. unfold GetValueWithField.
  destruct (assoc f (d_values doc)) as [v|]; [|done]. cbn [base.mbind option_bind] in Hp.
  destruct (sv_isDirty v) eqn:Edirty; cbn [negb] in Hp.
  2:{ destruct (IH ws links props s Hp Hnd Hr) as (V & ls & Hrun & W). exists V, ls. split; [|done].
      apply tsteps_bind_lift. by rewrite Edirty. }
  destruct (field_write k v) as [w|] eqn:Ew; [|done]. cbn [base.mbind option_bind] in Hp.
  destruct (planned doc fields) as [ws1|] eqn:Ep; [|done]. injection Hp as <-.
  destruct (msteps_saveDocValue k v w s Ew) as (fd & nd & h & V1 & Ef & Es & Ek & Hrun & W1).
  { eapply doc_ready_weaken; [|exact Hr]. intros g ->%list_elem_of_singleton. left. }
  set (props1 := assoc_put k (if sv_delete v then Some VNil else exported (sv_value v)) props).
  apply (tsteps_store _ _ t), tsteps_then in Hrun as (s1 & E1 & Hthen).
  destruct (IH ws1 (links ++ [link_to k nd]) props1 s1 eq_refl) as (V2 & ls & Hrun2 & W2).
  { by apply NoDup_cons in Hnd as [_ Hnd]. }
  { eapply doc_ready_ext; [exact E1|]. by eapply doc_ready_next. }
  exists V2, (link_to k nd :: ls). split.
  - apply tsteps_bind_lift. rewrite Edirty. cbn [negb]. rewrite Ek, Ef, Es. apply Hthen. by rewrite <- app_assoc in Hrun2.
  - eapply wrote_cons; [done|done|exact W1|]. by eapply wrote_ext; [exact E1|].
Qed.

(** What a save leaves: the fields are written, then one composite block that links to their
    blocks and to the heads of the document becomes its only head, and the document has its marker. *)
Definition saved (ws : list write) (V V' : namespace -> contents) (hs : list Cid) (h : Z) (nd : Node) : Prop :=
  exists V1 links patch,
    wrote col d ws links V V1 /\
    heads_of d COMPOSITE_NAMESPACE (V NHead) hs h /\ is_u64 (h + 1) /\
    added d COMPOSITE_NAMESPACE V1 V' hs h (Composite_Set (NewCompositeDAG (mkDataStoreKey col "" d COMPOSITE_NAMESPACE)
      (NewCollectionSchemaVersionKey c.(col_desc).(cd_Schema).(sd_VersionID)) "") patch links) nd /\
    V' NData = doc_activate col d (V1 NData).

Lemma msteps_composite patch links s :
  head_ready d COMPOSITE_NAMESPACE (views s NHead) -> defined (L_Cid <$> links) ->
  (forall l, l ∈ links -> L_Name l <> "_head") ->
  exists hs h nd V, heads_of d COMPOSITE_NAMESPACE (views s NHead) hs h /\
    msteps (saveValueToMerkleCRDT c (ToDataStoreKey pkey_of) COMPOSITE [ABytes patch; ALinks links; AStatus Active])
      s V (Ok (nd, h + 1)) /\
    added d COMPOSITE_NAMESPACE (views s) V hs h (Composite_Set (NewCompositeDAG (mkDataStoreKey col "" d COMPOSITE_NAMESPACE)
      (NewCollectionSchemaVersionKey c.(col_desc).(cd_Schema).(sd_VersionID)) "") patch links) nd /\ is_u64 (h + 1) /\
    V NData = doc_activate col d (views s NData).
Proof.
  intros [Hwf Hroom] Hdef Hn.
  destruct (msteps_Composite_Set col d (Sprint_elem_ok _) Hd "" (NewCollectionSchemaVersionKey c.(col_desc).(cd_Schema).(sd_VersionID)) ""
    COMPOSITE_NAMESPACE eq_refl s patch links Hwf Hroom Hdef (fun _ _ => Hn)) as (hs & h & nd & V & Hho & Hs & Ha).
  exists hs, h, nd, V. split; [done|]. split; [exact Hs|done].
Qed.

Lemma tsteps_OnSuccess {B} cb (k : unit -> M (S * list callback) B) s t V r t' :
  tsteps (k tt) s (t ++ [cb]) V r t' -> tsteps (mbind (OnSuccess cb) k) s t V r t'.
Proof. done. Qed.

Definition published (nd : Node) (prio : Z) : list callback :=
  if updates then [CbPublish (mkUpdate _ d (Node_Cid nd) c.(col_schemaID) nd prio)] else [].

Lemma tsteps_publish {B} nd prio (k : unit -> M (S * list callback) B) s t V r t' :
  tsteps (k tt) s (t ++ published nd prio) V r t' -> tsteps (mbind (publish updates d c nd prio) k) s t V r t'.
Proof. unfold publish, published. destruct updates; [done|]. by rewrite app_nil_r. Qed.

Lemma added_ext doc f (V V1 V' : namespace -> contents) hs h delta nd :
  (forall n, V1 n = V n) -> added doc f V1 V' hs h delta nd -> added doc f V V' hs h delta nd.
Proof. intros E [A1 A2 A3 A4 A5 A6 A7]. rewrite !E in *. by split. Qed.

Definition success_callbacks (p : nat) (nd : Node) (prio : Z) : list callback :=
  CbClean p :: published nd prio ++ [CbSetHead p (Node_Cid nd)].

Lemma wrote_links_defined ws links V V' : wrote col d ws links V V' -> defined (L_Cid <$> links).
Proof.
  intros W. pose proof (wr_links _ _ _ _ _ _ W) as Hl. apply Forall_forall. intros x (l & -> & Hin)%list_elem_of_fmap.
  apply list_elem_of_lookup in Hin as [i Hi]. destruct (Forall2_lookup_r _ _ _ _ _ Hl Hi) as (w & _ & _ & Hc & _). done.
Qed.

Lemma wrote_links_names ws links V V' l :
  wrote col d ws links V V' -> l ∈ links -> exists w, w ∈ ws /\ L_Name l = w_name w.
Proof.
  intros W [i Hi]%list_elem_of_lookup. destruct (Forall2_lookup_r _ _ _ _ _ (wr_links _ _ _ _ _ _ W) Hi) as (w & Hw & En & _).
  exists w. split; [by eapply list_elem_of_lookup_2|done].
Qed.

(** The composite heads are not touched by writing fields. *)
Lemma same_composite ws links V V' :
  (forall w, w ∈ ws -> exists z, w_id w = Sprint z) -> wrote col d ws links V V' ->
  same_heads d COMPOSITE_NAMESPACE (V NHead) (V' NHead).
Proof.
  intros Hids W k Hk. apply (wr_heads _ _ _ _ _ _ W). intros w Hw. destruct (Hids w Hw) as [z ->].
  apply (below_field_apart d COMPOSITE_NAMESPACE); [done|apply Sprint_elem_ok|apply Sprint_not_composite|done].
Qed.

Lemma save_spec depth p doc ws buf s (t : list callback) :
  DocKey_String (d_key doc) = Ok d -> planned doc (d_fields doc) = Some ws -> NoDup (w_id <$> ws) ->
  (forall w, w ∈ ws -> w_name w <> "_head") ->
  cbor_canonical (save_props doc (d_fields doc) []) = Ok buf -> doc_ready col d (w_id <$> ws) (views s) ->
  exists V hs h nd, tsteps (save updates depth c p doc) s t V (Ok (Node_Cid nd)) (t ++ success_callbacks p nd (h + 1)) /\
    saved ws (views s) V hs h nd.
Proof.
  intros Hk Hp Hnd Hnames Hbuf Hr.
  destruct (saveFields_spec depth doc (d_fields doc) ws [] [] s (t ++ [CbClean p]) Hp Hnd Hr) as (V1 & ls & Hrun1 & W1).
  apply tsteps_then in Hrun1 as (s1 & E1 & Hthen1).
  pose proof (same_composite _ _ _ _ (fun w => planned_ids _ _ _ w Hp) W1) as Hsame.
  destruct (msteps_composite buf ls s1) as (hs & h & nd & V2 & Hho & Hrun2 & Ha & Hh & HD).
  { rewrite E1. eapply head_ready_same; [exact Hsame|]. apply (dr_composite _ _ _ _ Hr). }
  { by eapply wrote_links_defined. }
  { intros l Hl. destruct (wrote_links_names _ _ _ _ l W1 Hl) as (w & Hw & ->). by apply Hnames. }
  exists V2, hs, h, nd. split.
  - unfold save. apply tsteps_OnSuccess. unfold getPrimaryKeyFromDocKey, doc_Key. rewrite Hk. apply tsteps_bind_lift.
    apply Hthen1. cbv beta iota. rewrite Hbuf. eapply tsteps_bind; [by apply tsteps_store|]. intros s2 E2. cbv beta iota.
    apply tsteps_publish, tsteps_OnSuccess. unfold success_callbacks. rewrite <- !app_assoc. by apply tsteps_ret.
  - exists V1, ls, buf. split; [done|]. rewrite E1 in Hho, HD. split; [by eapply heads_of_same|]. split; [done|].
    split; [|done]. by eapply added_ext.
Qed.
End Saves.
