(* ===== verification/DocState.v ===== *)
(** * A collection as a map of documents

    The contract of the document operations: the stores of a collection represent a finite
    map from document keys to documents, deleted or not, with the encoded values of their
    fields, and creating, changing, deleting, finding and reading documents are the
    operations of that map.  Every operation keeps the representation, so that the contract
    holds for any sequence of operations. *)

From Stdlib Require Import Ascii.
From S2P Require Import Prelude GoStd Keys Spans Store MultiStore Crdt Clock Values DocMap Desc Schema Iterate Fetcher ClientDoc DocOps DocSpec.

(** ** Keys of documents *)

Section DocKeyFacts.
Context `{DocKeyOps}.

Definition is_key (d : string) : Prop := exists k, dockey_wf k /\ d = dockey_string k.

Lemma free_of_app sep x y : free_of sep (x +:+ y) = free_of sep x && free_of sep y.
Proof. induction x as [|a x IH]; [done|]. rewrite str_app_cons. cbn [free_of]. by rewrite IH, andb_assoc. Qed.

Lemma str_length_app (x y : string) : String.length (x +:+ y) = (String.length x + String.length y)%nat.
Proof. induction x as [|a x IH]; [done|]. rewrite str_app_cons. cbn [String.length]. rewrite IH. lia. Qed.

Lemma long_elem_ok s : free_of "/" s = true -> (2 < String.length s)%nat -> elem_ok s = true.
Proof.
  intros Hf Hl. unfold elem_ok, clean_elem. rewrite Hf, andb_true_r.
  destruct s as [|a [|b [|c s]]]; cbn in Hl; try lia. destruct (String.eqb_spec (String a (String b (String c s))) "."); [done|].
  by destruct (String.eqb_spec (String a (String b (String c s))) "..").
Qed.

Lemma is_key_length d : is_key d -> String.length d = (String.length (mbase_Encode32 (String (byte_of 1) "")) + 37)%nat.
Proof. intros (k & _ & ->). unfold dockey_string. rewrite !str_length_app, uuid_length. cbn. lia. Qed.

Lemma is_key_elem d : is_key d -> elem_ok d = true.
Proof.
  intros Hk. apply long_elem_ok; [|rewrite is_key_length by done; lia]. destruct Hk as (k & _ & ->). unfold dockey_string.
  by rewrite !free_of_app, mbase_free, uuid_free.
Qed.

Lemma bump_str_length s e : bump_str s = Some e -> (0 < String.length e)%nat.
Proof. destruct s; cbn; [done|]. repeat case_match; intros [= <-]; cbn; lia. Qed.

Lemma is_key_next d : is_key d -> exists e, bump_str d = Some e /\ elem_ok e = true.
Proof.
  intros (k & _ & ->). destruct (uuid_next (dk_uuid k)) as (e & He & Hf). unfold dockey_string.
  set (m := mbase_Encode32 _). assert (m <> "") as Hm by apply mbase_nonempty.
  exists ((m +:+ "-") +:+ e). split.
  - rewrite str_app_assoc. by apply (bump_str_app m), (bump_str_app "-").
  - apply long_elem_ok; [by rewrite !free_of_app, Hf, andb_true_r; unfold m; rewrite mbase_free|].
    rewrite !str_length_app. apply bump_str_length in He. destruct m; [done|]. cbn. lia.
Qed.

Lemma is_key_prefix d d' : is_key d -> is_key d' -> str_prefix d d' -> d = d'.
Proof.
  intros Hd%is_key_length Hd'%is_key_length [t ->]. rewrite str_length_app in Hd'. destruct t; [by rewrite str_app_nil_r|cbn in Hd'; lia].
Qed.
End DocKeyFacts.

(** A path lies below another one when it goes on from it. *)
Lemma below_path_inv ws vs :
  Forall (fun w => free_of "/" w = true) ws -> Forall (fun w => free_of "/" w = true) vs ->
  below (path_of ws) (path_of vs) -> exists w us, vs = ws ++ w :: us.
Proof.
  intros Hws. revert vs. induction Hws as [|w ws Hw Hws IH]; intros vs Hvs [x E].
  - destruct vs as [|v vs]; [done|]. by exists v, vs.
  - destruct vs as [|v vs]; [done|]. apply Forall_cons in Hvs as [Hv Hvs]. cbn [path_of] in E. autorewrite with go in E.
    injection E as E.
    assert (exists y, path_of ws +:+ "/" +:+ x = "/" +:+ y) as [y Ey]; [destruct ws; by eexists|]. autorewrite with go in Ey.
    destruct vs as [|v' vs].
    { cbn [path_of] in E. rewrite str_app_nil_r in E. rewrite Ey in E. subst v. rewrite free_of_app in Hv. cbn in Hv.
      by rewrite andb_false_r in Hv. }
    assert (v = w) as ->.
    { eapply free_prefix_eq; [done..|]. rewrite Ey in E. exact E. }
    apply str_app_inj_l in E. destruct (IH (v' :: vs) Hvs) as (u & us & Eus); [|exists u, us; by rewrite Eus].
    exists x. rewrite E. by autorewrite with go.
Qed.

(** Facts on paths from the freeness of their elements. *)
Ltac path_eq H := apply path_of_inj in H; [unfold ValueKey, DeletedKey, PriorityKey in H; first [discriminate H|injection H; clear H; intros; subst]|path_free..].
Ltac path_below H :=
  let w := fresh "w" in let us := fresh "us" in let E := fresh "E" in
  apply below_path_inv in H as (w & us & E); [unfold ValueKey, DeletedKey, PriorityKey in E; first [discriminate E|injection E; clear E; intros; subst]|path_free..].

(** ** The keys of one document *)

Section Own.
Variable col : string.
Hypothesis Hcol : elem_ok col = true.

Definition own_key (d k : string) : Prop :=
  k = mkey col d \/ exists f, elem_ok f = true /\ (k = vkey col d f \/ k = dkey col d f \/ k = pkey col d f).

Lemma own_key_inj d d' k : elem_ok d = true -> elem_ok d' = true -> own_key d k -> own_key d' k -> d = d'.
Proof.
  intros Hd Hd' Hk Hk'. destruct Hk as [-> |(f & Hf & [-> |[-> | ->]])], Hk' as [E|(g & Hg & [E|[E|E]])];
    unfold mkey, vkey, dkey, pkey in E; by path_eq E.
Qed.

Lemma own_key_bare d d' k :
  elem_ok d = true -> elem_ok d' = true -> own_key d k -> k = bare col d' \/ below (bare col d') k -> k <> bare col d' /\ d = d'.
Proof.
  intros Hd Hd' Hk [E|E]; destruct Hk as [-> |(f & Hf & [-> |[-> | ->]])];
    unfold bare, mkey, vkey, dkey, pkey in *.
  all: try (by path_eq E).
  all: path_below E.
  split; [key_ne|done].
Qed.

(** What belongs to the document. *)
Definition doc_part (d k : string) : Prop := own_key d k \/ k = bare col d \/ below (bare col d) k.

Lemma doc_part_apart d d' k : elem_ok d = true -> elem_ok d' = true -> d <> d' -> doc_part d' k -> ~ own_key d k.
Proof.
  intros Hd Hd' Hne [Hk|Hk] Hown; apply Hne; [by eapply own_key_inj|by eapply own_key_bare].
Qed.

Definition same_part (d : string) (m m' : contents) : Prop := forall k, doc_part d k -> m' !! k = m !! k.

Lemma part_mkey d : doc_part d (mkey col d).
Proof. left. by left. Qed.

Lemma part_field d f : elem_ok f = true ->
  doc_part d (vkey col d f) /\ doc_part d (dkey col d f) /\ doc_part d (pkey col d f).
Proof. intros Hf. repeat split; left; right; exists f; auto. Qed.

Lemma is_deleted_same d m m' : same_part d m m' -> is_deleted_doc col d m' = is_deleted_doc col d m.
Proof. intros Hs. unfold is_deleted_doc. by rewrite (Hs _ (part_mkey d)). Qed.

Lemma lookup_active_same d f m m' : same_part d m m' -> elem_ok f = true ->
  m' !! active_key col d f m' = m !! active_key col d f m.
Proof.
  intros Hs Hf. destruct (part_field d f Hf) as (Hv & Hdk & _). unfold active_key. rewrite (is_deleted_same d m m' Hs).
  destruct (is_deleted_doc col d m); by apply Hs.
Qed.

Lemma doc_inv_same d m m' : same_part d m m' -> doc_inv col d m -> doc_inv col d m'.
Proof.
  intros Hs [I1 I2 I3 I4 I5 I6]. pose proof (is_deleted_same d m m' Hs) as Hdel.
  assert (forall f, elem_ok f = true -> m' !! vkey col d f = m !! vkey col d f /\ m' !! dkey col d f = m !! dkey col d f /\
    m' !! pkey col d f = m !! pkey col d f) as Hf.
  { intros f Hf. destruct (part_field d f Hf) as (? & ? & ?). by repeat split; apply Hs. }
  split.
  - rewrite Hs; [done|by right; left].
  - intros k Hk Hb. apply I2; [|done]. by rewrite <- Hs; [|right; right].
  - rewrite Hdel. intros Hd f Hfo. destruct (Hf f Hfo) as (-> & _ & _). by apply I3.
  - rewrite Hdel. intros Hd f Hfo. destruct (Hf f Hfo) as (_ & -> & _). by apply I4.
  - intros f Hfo. unfold reg_wf. destruct (Hf f Hfo) as (_ & _ & ->). by apply I5.
  - intros f Hfo. destruct (Hf f Hfo) as (_ & _ & ->). intros Hp. rewrite lookup_active_same with (m := m) by done. by apply I6.
Qed.
End Own.

(** ** The abstract state *)

(** A document: whether it is deleted, and the encoded values of its fields by id. *)
Abbreviation adoc := (bool * gmap string bytes)%type.
Abbreviation acol := (gmap string adoc).

Definition marker_of (o : option adoc) : option bytes :=
  match o with
  | None => None
  | Some (true, _) => Some (String DeletedObjectMarker "")
  | Some (false, _) => Some (String ObjectMarker "")
  end.

Definition values_of (o : option adoc) : gmap string bytes := match o with Some (_, fs) => fs | None => ∅ end.

Definition written (ws : list write) : gmap string bytes := list_to_map ((fun w => (w_id w, w_bytes w)) <$> ws).

Lemma lookup_written ws w : NoDup (w_id <$> ws) -> w ∈ ws -> written ws !! w_id w = Some (w_bytes w).
Proof.
  intros Hnd Hw. apply elem_of_list_to_map_1.
  - by rewrite <- list_fmap_compose.
  - apply list_elem_of_fmap. by exists w.
Qed.

Lemma lookup_written_None ws f : f ∉ w_id <$> ws -> written ws !! f = None.
Proof. intros Hf. apply not_elem_of_list_to_map_1. by rewrite <- list_fmap_compose. Qed.

(** ** The representation of one document *)

Section DocState.
Context {S : Type} `{LawfulMultiStore S} `{!Iterable S} `{DsKey} `{CidOps} `{!BlockKeys} `{!DagOps} `{CborCodec}
  `{!DescCodec} `{!DocKeyOps} `{!DocCodec} `{CborAny} `{!ValueCodec}.
Variable c : collection.

Local Abbreviation col := (Sprint c.(col_colID)).
Local Abbreviation Hcol := (Sprint_elem_ok c.(col_colID)).

(** The stores represent [o] as the document [d], with clocks up to [n]. *)
Record doc_state (n : Z) (V : namespace -> contents) (d : string) (o : option adoc) : Prop := {
  ds_inv : doc_inv col d (V NData);
  ds_marker : V NData !! mkey col d = marker_of o;
  ds_fields : forall f, elem_ok f = true ->
    V NData !! active_key col d f (V NData) = register <$> (values_of o !! f);
  ds_clocks : forall f, elem_ok f = true -> clock_ok col d n f V;
}.

(** Only the document [d] is changed. *)
Record changed_doc (d : string) (V V' : namespace -> contents) : Prop := {
  cd_data : forall k, ~ own_key col d k -> V' NData !! k = V NData !! k;
  cd_heads : forall k, ~ below (path_of [d]) k -> V' NHead !! k = V NHead !! k;
}.

Lemma below_doc_apart d d' f k :
  elem_ok d = true -> elem_ok d' = true -> d <> d' -> below (path_of [d'; f]) k -> ~ below (path_of [d]) k.
Proof.
  intros Hd Hd' Hne [x ->] [y E]. apply Hne. cbn [path_of] in E. autorewrite with go in E. injection E as E.
  symmetry. eapply free_prefix_eq; [by apply elem_ok_free..|exact E].
Qed.

Lemma below_field_doc d f k : below (path_of [d; f]) k -> below (path_of [d]) k.
Proof. intros [x ->]. exists (f +:+ "/" +:+ x). cbn [path_of]. by autorewrite with go. Qed.

Lemma doc_state_other n V V' d d' o :
  elem_ok d = true -> elem_ok d' = true -> d <> d' -> changed_doc d V V' -> doc_state n V d' o -> doc_state n V' d' o.
Proof.
  intros Hd Hd' Hne [Hdata Hheads] [I1 I2 I3 I4].
  assert (same_part col d' (V NData) (V' NData)) as Hs.
  { intros k Hk. apply Hdata. by eapply (doc_part_apart _ Hcol d d'). }
  split.
  - by eapply (doc_inv_same _ d').
  - rewrite (Hs _ (part_mkey _ d')). done.
  - intros f Hf. rewrite (lookup_active_same col d' f (V NData)) by done. by apply I3.
  - intros f Hf. eapply clock_ok_same; [..|by apply I4].
    + intros k Hk. apply Hheads. by apply (below_doc_apart d d' f).
    + unfold reg_prio. destruct (part_field col d' f Hf) as (_ & _ & Hp). by rewrite (Hs _ Hp).
Qed.

Lemma doc_state_mono n n' V d o : n <= n' -> doc_state n V d o -> doc_state n' V d o.
Proof. intros Hn [I1 I2 I3 I4]. split; [done..|]. intros f Hf. by eapply clock_ok_mono, I4. Qed.

Lemma doc_state_deleted n V d o : doc_state n V d o -> is_deleted_doc col d (V NData) = match o with Some (b, _) => b | None => false end.
Proof.
  intros [_ Hm _ _]. unfold is_deleted_doc. rewrite Hm. destruct o as [[[] fs]|]; done.
Qed.

(** *** Saving *)

Definition ids_ok (ws : list write) : Prop := forall w, w ∈ ws -> exists z, w_id w = Sprint z.

Lemma ids_elem ws w : ids_ok ws -> w ∈ ws -> elem_ok (w_id w) = true.
Proof. intros Hids Hw. destruct (Hids w Hw) as [z ->]. apply Sprint_elem_ok. Qed.

Lemma wrote_changed d ws links V V' : ids_ok ws -> wrote col d ws links V V' -> changed_doc d V V'.
Proof.
  intros Hids W. split; intros k Hk.
  - apply (wr_data _ _ _ _ _ _ W). intros w Hw. pose proof (ids_elem _ _ Hids Hw) as Hf.
    split; [|apply active_key_elim; intros _]; intros ->; apply Hk; right; exists (w_id w); auto.
  - apply (wr_heads _ _ _ _ _ _ W). intros w Hw Hb. by eapply Hk, below_field_doc.
Qed.

Lemma changed_doc_trans d V V1 V' : changed_doc d V V1 -> changed_doc d V1 V' -> changed_doc d V V'.
Proof. intros [A1 A2] [B1 B2]. split; intros k Hk; [rewrite B1|rewrite B2]; auto. Qed.

Lemma added_changed d f V V' hs h delta nd :
  (forall k, ~ own_key col d k -> V' NData !! k = V NData !! k) -> added d f V V' hs h delta nd -> changed_doc d V V'.
Proof.
  intros Hdata Ha. split; [done|]. intros k Hk. apply (added_other _ _ _ _ _ _ _ _ Ha). intros Hb. by eapply Hk, below_field_doc.
Qed.

Lemma saved_changed d ws V V' hs h nd : ids_ok ws -> saved c d ws V V' hs h nd -> changed_doc d V V'.
Proof.
  intros Hids (V1 & links & patch & W & _ & _ & Ha & HD). eapply changed_doc_trans; [by eapply wrote_changed|].
  eapply added_changed; [|exact Ha]. intros k Hk. rewrite HD. apply activate_lookup. intros ->. apply Hk. by left.
Qed.

Definition saved_doc (ws : list write) (o : option adoc) : adoc :=
  (match o with Some (b, _) => b | None => false end, written ws ∪ values_of o).

(** A clock after a block of its own or of another field was added. *)
Lemma clock_ok_composite n d f V V' hs h delta nd :
  elem_ok d = true -> 0 <= n -> elem_ok f = true ->
  reg_prio col d f (V' NData) = reg_prio col d f (V NData) -> clock_ok col d n f V ->
  (f = COMPOSITE_NAMESPACE -> heads_of d COMPOSITE_NAMESPACE (V NHead) hs h) -> is_u64 (h + 1) ->
  added d COMPOSITE_NAMESPACE V V' hs h delta nd -> clock_ok col d (n + 1) f V'.
Proof.
  intros Hd Hn Hf Hp Hc Hho Hu Ha. destruct (decide (f = COMPOSITE_NAMESPACE)) as [->|Hne].
  - specialize (Hho eq_refl). eapply (clock_ok_added col d); [done..|exact Hho|done|exact Ha|]. rewrite Hp.
    pose proof (ck_ahead _ _ _ _ _ Hc _ _ Hho). lia.
  - apply (clock_ok_mono _ _ n); [lia|]. eapply clock_ok_same; [|exact Hp|exact Hc]. intros k Hk.
    apply (added_other _ _ _ _ _ _ _ _ Ha). by apply (below_field_apart d f).
Qed.

Lemma saved_deleted d ws V V' hs h nd :
  elem_ok d = true -> saved c d ws V V' hs h nd -> is_deleted_doc col d (V' NData) = is_deleted_doc col d (V NData).
Proof.
  intros Hd (V1 & links & patch & W & _ & _ & _ & HD). rewrite HD, activate_deleted. apply (wr_deleted _ _ _ _ _ _ W).
Qed.

Lemma saved_marker n d o ws V V' hs h nd :
  elem_ok d = true -> ids_ok ws -> saved c d ws V V' hs h nd -> doc_state n V d o ->
  V' NData !! mkey col d = marker_of (Some (saved_doc ws o)).
Proof.
  intros Hd Hids (V1 & links & patch & W & _ & _ & _ & HD) [_ Hm _ _]. pose proof Hcol.
  assert (V1 NData !! mkey col d = marker_of o) as Hmk.
  { rewrite <- Hm. apply (wr_data _ _ _ _ _ _ W). intros w Hw. pose proof (ids_elem _ _ Hids Hw) as Hf.
    split; [by apply not_eq_sym, pkey_mkey|]. apply active_key_elim; intros _; [by apply mkey_dkey|by apply mkey_vkey]. }
  rewrite HD. unfold doc_activate. destruct o as [[[] fs]|]; cbn [marker_of saved_doc] in *; rewrite Hmk; [done..|].
  by rewrite lookup_insert_eq.
Qed.

Lemma saved_values n d o ws V V' hs h nd f :
  elem_ok d = true -> elem_ok f = true -> ids_ok ws -> NoDup (w_id <$> ws) -> saved c d ws V V' hs h nd -> doc_state n V d o ->
  V' NData !! active_key col d f (V' NData) = register <$> ((written ws ∪ values_of o) !! f).
Proof.
  intros Hd Hf Hids Hnd Hsv [_ _ I3 _]. pose proof Hcol.
  rewrite (active_key_same col d f _ _ (saved_deleted _ _ _ _ _ _ _ Hd Hsv)).
  destruct Hsv as (V1 & links & patch & W & _ & _ & _ & HD). rewrite HD, activate_lookup
    by (apply active_key_elim; intros _; apply not_eq_sym; [by apply mkey_dkey|by apply mkey_vkey]).
  destruct (decide (f ∈ w_id <$> ws)) as [Hin|Hni].
  - apply list_elem_of_fmap in Hin as (w & -> & Hw). rewrite (wr_value _ _ _ _ _ _ W) by done.
    by rewrite (lookup_union_Some_l _ _ _ _ (lookup_written _ _ Hnd Hw)).
  - rewrite lookup_union_r by by apply lookup_written_None. rewrite (wr_data _ _ _ _ _ _ W); [by apply I3|].
    intros w Hw. pose proof (ids_elem _ _ Hids Hw) as Hwo. split; [by apply not_eq_sym, pkey_active|].
    apply active_key_ne; [done..|]. intros ->. apply Hni, list_elem_of_fmap. by exists w.
Qed.

Lemma saved_clock n d o ws V V' hs h nd f :
  elem_ok d = true -> elem_ok f = true -> 0 <= n -> ids_ok ws -> saved c d ws V V' hs h nd -> doc_state n V d o ->
  clock_ok col d (n + 1) f V'.
Proof.
  intros Hd Hf Hn Hids (V1 & links & patch & W & Hho & Hu & Ha & HD) [_ _ _ I4]. pose proof Hcol.
  assert (reg_prio col d f (V' NData) = reg_prio col d f (V1 NData)) as Hp.
  { rewrite HD. unfold reg_prio. rewrite activate_lookup; [done|]. by apply pkey_mkey. }
  destruct (decide (f ∈ w_id <$> ws)) as [Hin|Hni].
  - apply list_elem_of_fmap in Hin as (w & -> & Hw).
    eapply clock_ok_same; [|exact Hp|by apply (wr_clock _ _ _ _ _ _ W), I4]. intros k Hk.
    apply (added_other _ _ _ _ _ _ _ _ Ha). apply (below_field_apart d (w_id w)); [done..| |done].
    destruct (Hids w Hw) as [z ->]. apply not_eq_sym, Sprint_not_composite.
  - eapply clock_ok_composite; [done|done|done|exact Hp| |intros ->|exact Hu|exact Ha].
    + eapply (clock_ok_wrote col d); [done|done|exact W|done| |by apply I4]. intros w Hw.
      split; [by eapply ids_elem|]. intros ->. apply Hni, list_elem_of_fmap. by exists w.
    + eapply heads_of_same; [|exact Hho]. intros k Hk. symmetry. by eapply same_composite.
Qed.

Lemma saved_state n d o ws V V' hs h nd :
  elem_ok d = true -> 0 <= n -> ids_ok ws -> NoDup (w_id <$> ws) -> saved c d ws V V' hs h nd ->
  doc_state n V d o -> doc_state (n + 1) V' d (Some (saved_doc ws o)).
Proof.
  intros Hd Hn Hids Hnd Hsv Hst. split.
  - destruct Hsv as (V1 & links & patch & W & _ & _ & _ & HD). rewrite HD. apply doc_inv_activate; [apply Hcol|done|].
    apply (wr_inv _ _ _ _ _ _ W), Hst.
  - by eapply saved_marker.
  - intros f Hf. by eapply saved_values.
  - intros f Hf. by eapply saved_clock.
Qed.

(** *** Finding *)

(** What [exists] reports: whether the document is there, and whether it is deleted. *)
Definition status_of (o : option adoc) : bool * bool := match o with Some (b, _) => (true, b) | None => (false, false) end.

Lemma col_exists_spec n s d o :
  elem_ok d = true -> doc_state n (views s) d o ->
  msteps (col_exists (mkPrimaryDataStoreKey col d)) s (views s) (Ok (status_of o)).
Proof.
  intros Hd [_ Hm _ _]. pose proof Hcol. unfold col_exists. rewrite ToDS_marker by done.
  eapply msteps_bind.
  - unfold data_Get. apply msteps_in, (@steps_tryGet S _ (lawful_of NData)). unfold mkey. auto with go.
  - intros s1 E1. change (@view S (@lawful_view S _ (lawful_of NData)) s) with (views s NData). rewrite Hm.
    destruct o as [[[] fs]|]; apply msteps_ret; intros n'; rewrite E1; apply upd_same.
Qed.

(** *** Deleting *)

Lemma deleted_state n d fs V V' hs h delta nd :
  elem_ok d = true -> 0 <= n -> doc_state n V d (Some (false, fs)) -> heads_of d COMPOSITE_NAMESPACE (V NHead) hs h ->
  is_u64 (h + 1) -> added d COMPOSITE_NAMESPACE V V' hs h delta nd -> V' NData = doc_delete col d (V NData) ->
  doc_state (n + 1) V' d (Some (true, fs)) /\ changed_doc d V V'.
Proof.
  intros Hd Hn Hst Hho Hu Ha HD. pose proof Hst as [I1 I2 I3 I4]. pose proof Hcol.
  pose proof (doc_state_deleted _ _ _ _ Hst) as Hdel. split; [split|].
  - rewrite HD. by apply doc_inv_delete.
  - rewrite HD. by apply doc_delete_mkey.
  - intros f Hf. rewrite HD, active_key_deleted, doc_delete_dkey by done. specialize (I3 f Hf). unfold active_key in I3.
    rewrite Hdel in I3. rewrite I3. cbn [values_of]. destruct (fs !! f); [done|]. by rewrite (inv_active _ _ _ I1).
  - intros f Hf. eapply clock_ok_composite; [done..| |by apply I4|by intros ->|exact Hu|exact Ha].
    unfold reg_prio. by rewrite HD, doc_delete_pkey.
  - eapply added_changed; [|exact Ha]. intros k Hk. rewrite HD. apply doc_delete_other; [done..| |].
    + intros ->. apply Hk. by left.
    + intros f Hf. split; intros ->; apply Hk; right; exists f; auto.
Qed.
End DocState.

(** ** The representation of a collection *)

(** A description as the database makes it: the fields have ids of their own, and none has the
    name of the links to heads. *)
Record col_wf (c : collection) : Prop := {
  cw_id : c.(col_desc).(cd_ID) = c.(col_colID);
  cw_schema : IsEmpty c.(col_desc).(cd_Schema) = false;
  cw_fields : forall fd, fd ∈ c.(col_desc).(cd_Schema).(sd_Fields) ->
    is_u32 fd.(fd_ID) /\ schemaFields c.(col_desc).(cd_Schema).(sd_Fields) !! fd.(fd_ID) = Some fd;
  cw_unique : NoDup (fd_Name <$> c.(col_desc).(cd_Schema).(sd_Fields));
  cw_names : forall fd, fd ∈ c.(col_desc).(cd_Schema).(sd_Fields) -> fd.(fd_Name) <> "_head";
}.

Section Collection.
Context {S : Type} `{LawfulMultiStore S} `{!Iterable S} `{DsKey} `{CidOps} `{!BlockKeys} `{!DagOps} `{CborCodec}
  `{!DescCodec} `{!DocKeyOps} `{!DocCodec} `{CborAny} `{!ValueCodec}.
Variables (updates : bool) (c : collection).
Hypothesis Hc : col_wf c.

Local Abbreviation col := (Sprint c.(col_colID)).
Local Abbreviation Hcol := (Sprint_elem_ok c.(col_colID)).
Local Abbreviation fds := (c.(col_desc).(cd_Schema).(sd_Fields)).
Local Abbreviation fields := (schemaFields fds).

(** Values are only stored for fields of the schema. *)
Definition known (fs : gmap string bytes) : Prop :=
  forall f, is_Some (fs !! f) -> exists fd, fd ∈ fds /\ f = Sprint fd.(fd_ID).

(** The stores represent the map [A] of documents, with clocks up to [n]. *)
Record represents (n : Z) (V : namespace -> contents) (A : acol) : Prop := {
  rp_docs : forall d, is_key d -> doc_state c n V d (A !! d);
  rp_dom : forall d o, A !! d = Some o -> is_key d /\ known o.2;
  rp_keys : forall inst k, inst = ValueKey \/ inst = DeletedKey -> is_Some (V NData !! k) -> below (path_of [col; inst]) k ->
    exists d f, is_key d /\ elem_ok f = true /\ k = path_of [col; inst; d; f];
}.

Lemma represents_ext n V V' A : (forall n, V' n = V n) -> represents n V A -> represents n V' A.
Proof.
  intros E [R1 R2 R3]. split; [|done|].
  - intros d Hd. destruct (R1 d Hd) as [I1 I2 I3 I4]. split; rewrite ?E; [done..|]. intros f Hf.
    eapply clock_ok_same; [..|by apply I4]; [intros k _|unfold reg_prio]; by rewrite E.
  - intros inst k. rewrite E. apply R3.
Qed.

(** A change of one document. *)
Lemma represents_change n V V' A d o :
  represents n V A -> is_key d -> changed_doc c d V V' -> doc_state c (n + 1) V' d (Some o) -> known o.2 ->
  represents (n + 1) V' (<[d := o]> A).
Proof.
  intros [R1 R2 R3] Hd Hch Hst Hkn. pose proof (is_key_elem d Hd) as Hde. pose proof Hcol. split.
  - intros d' Hd'. destruct (decide (d = d')) as [<-|Hne]; [by rewrite lookup_insert_eq|].
    rewrite lookup_insert_ne by done. apply (doc_state_mono _ n); [lia|]. eapply doc_state_other; [| |exact Hne|exact Hch|by apply R1];
      by apply is_key_elem.
  - intros d' o'. destruct (decide (d = d')) as [<-|Hne]; [rewrite lookup_insert_eq; by intros [= <-]|].
    rewrite lookup_insert_ne by done. apply R2.
  - intros inst k Hinst Hk Hb. destruct (key_cases col d k) as [(f & Hf & ->)|[(f & Hf & ->)|Hno]].
    + exists d, f. split; [done|]. split; [done|]. unfold vkey in *. destruct Hinst as [-> | ->]; by path_below Hb.
    + exists d, f. split; [done|]. split; [done|]. unfold dkey in *. destruct Hinst as [-> | ->]; by path_below Hb.
    + apply R3; [done| |done]. rewrite <- (cd_data _ _ _ _ Hch); [done|].
      intros [-> |(f & Hf & [E|[E| ->]])]; [|by destruct (Hno f Hf)..|]; unfold mkey, pkey in Hb; destruct Hinst as [-> | ->];
        by path_below Hb.
Qed.

(** *** The writes of a document *)

Lemma GetField_name n fd : GetField c.(col_desc) n = Some fd -> fd ∈ fds /\ fd.(fd_Name) = n.
Proof.
  unfold GetField, first_field. destruct (negb _); [|done]. intros [Hin%list_elem_of_In En]%find_some. by apply String.eqb_eq in En.
Qed.

Lemma field_write_known k v w :
  field_write c k v = Some w -> w_name w = k /\ exists fd, fd ∈ fds /\ fd.(fd_Name) = k /\ w_id w = Sprint fd.(fd_ID).
Proof.
  unfold field_write. destruct (GetField _ _) as [fd|] eqn:Ef; [|done]. destruct (_ || _); [done|].
  destruct (isSecondaryIDField c fd), (sv_value v) as [x|], (sv_t v =? LWW_REGISTER); try done.
  destruct (if sv_delete v then Ok "" else cbor_Marshal x); try done.
  intros [= <-]. split; [done|]. exists fd. apply GetField_name in Ef as [Hin En]. split; [done|]. split; [done|].
  cbn [w_id]. by rewrite u32_small by apply (cw_fields _ Hc fd Hin).
Qed.

Lemma planned_cons doc k f fields' ws :
  planned c doc ((k, f) :: fields') = Some ws ->
  planned c doc fields' = Some ws \/ exists v w ws', field_write c k v = Some w /\ planned c doc fields' = Some ws' /\ ws = w :: ws'.
Proof.
  cbn [planned]. destruct (assoc f (d_values doc)) as [v|]; [|done]. cbn [base.mbind option_bind].
  destruct (negb _); [by left|]. destruct (field_write c k v) as [w|] eqn:Ew; [|done]. cbn [base.mbind option_bind].
  destruct (planned c doc fields') as [ws'|]; [|done]. intros [= <-]. right. by exists v, w, ws'.
Qed.

Lemma planned_known doc fs ws w :
  planned c doc fs = Some ws -> w ∈ ws -> exists fd, fd ∈ fds /\ fd.(fd_Name) = w_name w /\ w_id w = Sprint fd.(fd_ID).
Proof.
  revert ws. induction fs as [|[k f] fs IH]; intros ws; [by intros [= <-] ?%elem_of_nil|].
  intros [Hp|(v & w' & ws' & Hw%field_write_known & Hp & ->)]%planned_cons; [by apply IH|].
  intros [->|Hin]%elem_of_cons; [|by eapply IH]. by destruct Hw as [-> Hw].
Qed.

Lemma planned_names doc fs ws : planned c doc fs = Some ws -> w_name <$> ws `sublist_of` fs.*1.
Proof.
  revert ws. induction fs as [|[k f] fs IH]; intros ws; [by intros [= <-]|].
  intros [Hp|(v & w' & ws' & [Hw _]%field_write_known & Hp & ->)]%planned_cons; cbn; [by apply sublist_cons, IH|].
  rewrite Hw. by apply sublist_skip, IH.
Qed.

Lemma fmap_NoDup_inj {A B} (f : A -> B) l x y : NoDup (f <$> l) -> x ∈ l -> y ∈ l -> f x = f y -> x = y.
Proof.
  intros Hnd [i Hi]%list_elem_of_lookup [j Hj]%list_elem_of_lookup E.
  assert (i = j) as ->; [|congruence]. apply (NoDup_lookup _ i j (f y) Hnd); rewrite list_lookup_fmap; [rewrite Hi|rewrite Hj]; cbn; congruence.
Qed.

Lemma Sprint_inj z z' : is_u32 z -> is_u32 z' -> Sprint z = Sprint z' -> z = z'.
Proof. intros Hz Hz' E. pose proof (Atoi_Sprint _ Hz) as E1. rewrite E, Atoi_Sprint in E1 by done. congruence. Qed.

Lemma planned_NoDup doc fs ws : NoDup fs.*1 -> planned c doc fs = Some ws -> NoDup (w_id <$> ws).
Proof.
  intros Hnd Hp. pose proof (sublist_NoDup _ _ Hnd (planned_names _ _ _ Hp)) as Hn.
  apply NoDup_fmap_2_strong; [|by apply NoDup_fmap_1 in Hn]. intros w w' Hw Hw' E. eapply fmap_NoDup_inj; [exact Hn|done..|].
  destruct (planned_known _ _ _ w Hp Hw) as (fd & Hfd & <- & Ew). destruct (planned_known _ _ _ w' Hp Hw') as (fd' & Hfd' & <- & Ew').
  destruct (cw_fields _ Hc fd Hfd) as [Hu Hl]. destruct (cw_fields _ Hc fd' Hfd') as [Hu' Hl'].
  rewrite Ew, Ew' in E. apply Sprint_inj in E; [|done..]. rewrite E in Hl. congruence.
Qed.

(** *** Running the operations *)

(** A document whose changes can be stored, as the writes [ws]. *)
Definition savable (doc : Document) (ws : list write) : Prop :=
  doc_wf doc /\ dockey_wf (d_key doc) /\ planned c doc (d_fields doc) = Some ws /\
  exists buf, cbor_canonical (save_props doc (d_fields doc) []) = Ok buf.

Lemma savable_key doc ws : savable doc ws -> is_key (dockey_string (d_key doc)).
Proof. intros (_ & Hk & _). by exists (d_key doc). Qed.

Lemma represents_ready n V A d ws :
  represents n V A -> is_key d -> n < 2 ^ 64 - 1 -> ids_ok ws -> doc_ready col d (w_id <$> ws) V.
Proof.
  intros R Hd Hn Hids. pose proof (rp_docs _ _ _ R d Hd) as Hst. split; [apply Hst| |].
  - intros f (w & -> & Hw)%list_elem_of_fmap. pose proof (ids_elem _ _ Hids Hw) as Hf. split; [done|].
    pose proof (ds_clocks _ _ _ _ _ Hst _ Hf) as Hck. split; [by eapply clock_ok_ready|apply Hck].
  - eapply clock_ok_ready; [by apply (ds_clocks _ _ _ _ _ Hst)|done].
Qed.

Lemma known_union fs fs' : known fs -> known fs' -> known (fs ∪ fs').
Proof. intros Hf Hf' f Hin. apply lookup_union_is_Some in Hin as [Hin|Hin]; auto. Qed.

Lemma known_written doc fs ws : planned c doc fs = Some ws -> known (written ws).
Proof.
  intros Hp f [b Hb]. apply elem_of_list_to_map_2 in Hb. apply list_elem_of_fmap in Hb as (w & [= -> ->] & Hw).
  destruct (planned_known _ _ _ _ Hp Hw) as (fd & Hfd & _ & E). by exists fd.
Qed.

Lemma known_values n V A d : represents n V A -> known (values_of (A !! d)).
Proof.
  intros R. destruct (A !! d) as [[b fs]|] eqn:E; [by apply (rp_dom _ _ _ R) in E as [_ ?]|].
  intros f. cbn. rewrite lookup_empty. by intros [].
Qed.

Lemma save_represents depth p doc ws s (t : list callback) n A (d := dockey_string (d_key doc)) :
  represents n (views s) A -> 0 <= n < 2 ^ 64 - 1 -> savable doc ws ->
  exists V nd prio, tsteps (save updates depth c p doc) s t V (Ok (Node_Cid nd)) (t ++ success_callbacks updates c d p nd prio) /\
    represents (n + 1) V (<[d := saved_doc ws (A !! d)]> A).
Proof.
  intros R Hn Hsv. pose proof (savable_key _ _ Hsv) as Hd. pose proof (is_key_elem _ Hd) as Hde.
  destruct Hsv as (Hwf & Hk & Hp & buf & Hbuf).
  assert (ids_ok ws) as Hids by (intros w Hw; by eapply planned_ids).
  assert (NoDup (w_id <$> ws)) as Hnd by (eapply planned_NoDup; [apply doc_wf_shape in Hwf; apply Hwf|exact Hp]).
  destruct (save_spec updates c d Hde depth p doc ws buf s t) as (V & hs & h & nd & Hrun & Hsaved); [by apply DocKey_String_wf|done|done| |done| |].
  { intros w Hw. destruct (planned_known _ _ _ _ Hp Hw) as (fd & Hfd & <- & _). by apply (cw_names _ Hc). }
  { eapply represents_ready; [exact R|done|lia|done]. }
  exists V, nd, (h + 1). split; [done|].
  eapply represents_change; [exact R|done|by eapply saved_changed| |].
  - eapply saved_state; [done|lia|done|done|exact Hsaved|by apply R].
  - apply known_union; [by eapply known_written|by eapply known_values].
Qed.

Lemma exists_represents s (t : list callback) n A d :
  represents n (views s) A -> is_key d ->
  tsteps (on_store (col_exists (mkPrimaryDataStoreKey col d))) s t (views s) (Ok (status_of (A !! d))) t.
Proof.
  intros R Hd. eapply tsteps_store, col_exists_spec; [by apply is_key_elem|by apply R].
Qed.

Lemma delete_represents s (t : list callback) n A d fs :
  represents n (views s) A -> 0 <= n < 2 ^ 64 - 1 -> is_key d -> A !! d = Some (false, fs) ->
  exists V cbs, tsteps (applyDelete updates c (mkPrimaryDataStoreKey col d)) s t V (Ok tt) (t ++ cbs) /\
    represents (n + 1) V (<[d := (true, fs)]> A).
Proof.
  intros R Hn Hd EA. pose proof (is_key_elem _ Hd) as Hde. pose proof (rp_docs _ _ _ R d Hd) as Hst. rewrite EA in Hst.
  pose proof Hcol as Hco.
  pose proof (exists_represents s t n A d R Hd) as He. rewrite EA in He. apply tsteps_then in He as (s1 & E1 & He).
  pose proof (ds_clocks _ _ _ _ _ Hst COMPOSITE_NAMESPACE eq_refl) as Hck.
  destruct (clock_ok_ready _ _ _ _ _ Hck ltac:(lia)) as [Hwf Hroom].
  assert (heads_wf d COMPOSITE_NAMESPACE (views s1 NHead)) as Hwf1 by by rewrite E1.
  destruct (msteps_List d COMPOSITE_NAMESPACE Hde eq_refl s1 Hwf1) as (cids & h1 & Hlist & Hho1).
  apply (tsteps_store _ _ t), tsteps_then in Hlist as (s2 & E2 & Hlist).
  rewrite E1 in Hho1. assert (forall n', views s2 n' = views s n') as E12 by (intros n'; by rewrite E2, E1).
  destruct (msteps_Composite_Delete col d Hco Hde "" (NewCollectionSchemaVersionKey c.(col_desc).(cd_Schema).(sd_VersionID)) ""
    COMPOSITE_NAMESPACE eq_refl s2 (head_link <$> cids)) as (hs & h & nd & V & Hho & Hrun & Ha & Hu & HD).
  { rewrite E12. apply Hst. }
  { by rewrite E12. }
  { intros x. rewrite E12. apply Hroom. }
  { rewrite <- list_fmap_compose. apply Forall_forall. intros x (y & -> & Hy)%list_elem_of_fmap.
    apply (ho_elem _ _ _ _ _ Hho1) in Hy as [Hy _]. done. }
  { intros h' Hnil l (y & -> & Hy)%list_elem_of_fmap. exfalso. apply (ho_elem _ _ _ _ _ Hho1) in Hy.
    rewrite E12 in Hnil. by apply (ho_elem _ _ _ _ _ Hnil), elem_of_nil in Hy. }
  rewrite E12 in Hho, HD. apply (added_ext d COMPOSITE_NAMESPACE (views s)) in Ha; [|done].
  exists V, (published updates c d nd (h + 1)). split.
  - unfold applyDelete. apply He. cbn [status_of negb]. apply Hlist. cbv beta iota.
    eapply tsteps_bind; [apply tsteps_store; exact Hrun|]. intros s3 E3. cbv beta iota.
    unfold publish, published. destruct updates; [done|]. rewrite app_nil_r. by apply tsteps_ret.
  - destruct (deleted_state c n d fs (views s) V hs h _ nd Hde ltac:(lia) Hst Hho Hu Ha HD) as [Hst' Hch].
    eapply represents_change; [exact R|done|exact Hch|exact Hst'|]. by apply (rp_dom _ _ _ R) in EA as [_ ?].
Qed.

(** *** Reading *)

Lemma stored_value n V A inst d f v :
  represents n V A -> inst = ValueKey \/ inst = DeletedKey -> is_key d -> elem_ok f = true ->
  V NData !! path_of [col; inst; d; f] = Some v ->
  exists b fd, v = register b /\ values_of (A !! d) !! f = Some b /\ fd ∈ fds /\ f = Sprint fd.(fd_ID).
Proof.
  intros R Hinst Hd Hf Hv. pose proof (rp_docs _ _ _ R d Hd) as [I1 _ I3 _]. specialize (I3 f Hf).
  assert (V NData !! active_key col d f (V NData) = Some v) as Ha.
  { unfold active_key. destruct (is_deleted_doc col d (V NData)) eqn:Edel, Hinst as [-> | ->]; [|done..|].
    - pose proof (inv_deleted _ _ _ I1 Edel f Hf). unfold vkey in *. congruence.
    - pose proof (inv_active _ _ _ I1 Edel f Hf). unfold dkey in *. congruence. }
  rewrite Ha in I3. destruct (values_of (A !! d) !! f) as [b|] eqn:Eb; [|done]. injection I3 as ->.
  destruct (known_values _ _ _ d R f) as (fd & Hfd & ->); [by eexists|]. by exists b, fd.
Qed.

Lemma stored_is_key n V A inst d fd :
  represents n V A -> inst = ValueKey \/ inst = DeletedKey -> elem_ok d = true ->
  is_Some (V NData !! field_key col inst d fd) -> is_key d.
Proof.
  intros R Hinst Hd Hs. destruct (rp_keys _ _ _ R inst _ Hinst Hs) as (y & f & Hy & Hf & E).
  - apply (below_path [col; inst] [Sprint (fd_ID fd)] d).
  - unfold field_key in E. pose proof (is_key_elem _ Hy). pose proof (Sprint_elem_ok (fd_ID fd)). pose proof Hcol.
    destruct Hinst as [-> | ->]; by path_eq E.
Qed.

Lemma represents_stored n V A inst :
  represents n V A -> inst = ValueKey \/ inst = DeletedKey -> stored_wf (V NData) fields col inst.
Proof.
  intros R Hinst. pose proof Hcol. split; [done|done| |].
  - intros k v Hk Hb. destruct (rp_keys _ _ _ R inst k Hinst ltac:(by eexists) Hb) as (d & f & Hd & Hf & ->).
    destruct (stored_value _ _ _ _ _ _ _ R Hinst Hd Hf Hk) as (b & fd & -> & _ & Hfd & ->). split; [done|].
    exists d, fd. destruct (cw_fields _ Hc fd Hfd) as [Hu Hl]. split; [by apply is_key_elem|]. by split; [|split].
  - intros d d' fd fd' Hd Hd' Hk Hk' Hp.
    apply is_key_prefix; [by eapply stored_is_key..|done].
Qed.

Lemma represents_alone n V A inst d :
  represents n V A -> inst = ValueKey \/ inst = DeletedKey -> is_key d -> doc_alone (V NData) fields col inst d.
Proof.
  intros R Hinst Hd. split; [by apply is_key_elem|]. split; [by apply is_key_next|].
  intros d' (Hd' & fd & _ & Hs) Hp. symmetry. apply is_key_prefix; [done|by eapply stored_is_key|done].
Qed.

(** The properties that are read are the values of the document. *)
Definition lists_props (ps : list (FieldDescription * encProperty)) (fs : gmap string bytes) : Prop :=
  NoDup ps.*1 /\
  forall fd e, (fd, e) ∈ ps <-> fd ∈ fds /\ exists b, fs !! Sprint fd.(fd_ID) = Some b /\ e = mkEncProperty fd (register b).

Lemma elem_of_schemaFields fd : is_u32 fd.(fd_ID) -> fields !! fd.(fd_ID) = Some fd -> fd ∈ fds.
Proof.
  intros Hu. unfold schemaFields.
  assert (forall l (m : gmap Z FieldDescription), foldl (fun m f => <[u32 (fd_ID f) := f]> m) m l !! fd_ID fd = Some fd -> m !! fd_ID fd = Some fd \/ fd ∈ l) as Hl.
  { induction l as [|g l IH]; intros m Hl; [by left|]. cbn in Hl. apply IH in Hl as [Hl|Hl]; [|right; by right].
    destruct (decide (u32 (fd_ID g) = fd_ID fd)) as [E|Hne].
    - rewrite E, lookup_insert_eq in Hl. injection Hl as ->. right. left.
    - rewrite lookup_insert_ne in Hl by done. by left. }
  intros [E|?]%Hl; [by rewrite lookup_empty in E|done].
Qed.

Lemma stored_props_values n V A d fs :
  represents n V A -> is_key d -> A !! d = Some (false, fs) -> lists_props (stored_props (V NData) fields col ValueKey d) fs.
Proof.
  intros R Hd EA. pose proof (represents_stored _ _ _ ValueKey R ltac:(by left)) as Hwf. pose proof (is_key_elem _ Hd) as Hde.
  split; [by apply NoDup_stored_props|]. intros fd e. rewrite elem_of_stored_props by done.
  pose proof (rp_docs _ _ _ R d Hd) as Hst. rewrite EA in Hst.
  assert (V NData !! field_key col ValueKey d fd = register <$> (fs !! Sprint (fd_ID fd))) as Hv.
  { pose proof (ds_fields _ _ _ _ _ Hst _ (Sprint_elem_ok (fd_ID fd))) as Hv. unfold active_key in Hv.
    by rewrite (doc_state_deleted _ _ _ _ _ Hst) in Hv. }
  rewrite Hv. split.
  - intros [(_ & Hu & Hl & _) (v & Ev & ->)]. split; [by apply elem_of_schemaFields|].
    apply fmap_Some in Ev as (b & Eb & ->). by exists b.
  - intros [Hfd (b & Eb & ->)]. destruct (cw_fields _ Hc fd Hfd) as [Hu Hl]. split; [done|]. exists (register b). by rewrite Eb.
Qed.

Context {HIter : @LawfulIterable S (store_of NData) (lawful_of NData) _}.

Lemma msteps_fetcher {A} (m : M (S * DocumentFetcher) A) s df r df' :
  @fsteps S _ (lawful_of NData) _ _ m s df r df' -> msteps (with_fetcher df m) s (views s) r.
Proof.
  intros (E1 & _ & E3 & E4). eapply msteps_ext; [apply (msteps_in NData)|intros n'; apply upd_same].
  unfold steps, with_fetcher. destruct (m (s, df)) as [[s1 df1] q]. by split.
Qed.

Lemma on_active_decoded s df docs :
  ready (views s NData) fields df.(df_active) docs ->
  exists df', @fsteps S _ (lawful_of NData) _ _ FetchNextDecoded s df
    (match docs with [] => Ok None | D :: _ => rmap Some (ed_Decode D) end) df'.
Proof.
  intros Hr. pose proof (FetchNext_spec (H0 := lawful_of NData) (views s NData) fields s _ docs eq_refl Hr) as HF.
  unfold FetchNextDecoded. destruct docs as [|D docs].
  - eexists. eapply fsteps_bind; [by apply on_active_steps|]. intros s1 E1. by apply fsteps_ret.
  - destruct HF as (f' & HF & _). exists (mkDocumentFetcher f' df.(df_deleted)). eapply fsteps_bind; [by apply on_active_steps|]. intros s1 E1. cbv beta iota.
    by destruct (ed_Decode D).
Qed.

Lemma has_doc_values n V A d fs :
  represents n V A -> is_key d -> A !! d = Some (false, fs) -> has_doc (V NData) fields col ValueKey d <-> fs <> ∅.
Proof.
  intros R Hd EA. pose proof (represents_stored _ _ _ ValueKey R ltac:(by left)) as Hwf.
  pose proof (stored_props_values _ _ _ _ _ R Hd EA) as Hps. split.
  - intros (_ & fd & Hl & [v Hv]) ->. destruct (stored_value _ _ _ ValueKey d (Sprint (fd_ID fd)) v R ltac:(by left) Hd
      (Sprint_elem_ok _) Hv) as (b & _ & _ & Eb & _). by rewrite EA in Eb.
  - intros (f & b & Hb)%map_choose. split; [by apply is_key_elem|].
    destruct (proj2 (rp_dom _ _ _ R _ _ EA) f ltac:(by eexists)) as (fd & Hfd & ->). exists fd.
    destruct (cw_fields _ Hc fd Hfd) as [Hu Hl]. split; [done|].
    assert ((fd, mkEncProperty fd (register b)) ∈ stored_props (V NData) fields col ValueKey d) as Hin
      by (apply Hps; split; [done|by exists b]).
    apply elem_of_stored_props in Hin as [_ (v & Hv & _)]; [by eexists|done|by apply is_key_elem].
Qed.

Lemma col_get_represents s n A d fs :
  represents n (views s) A -> is_key d -> A !! d = Some (false, fs) ->
  exists ps, lists_props ps fs /\
    msteps (col_get c (mkPrimaryDataStoreKey col d) false) s (views s)
      (if decide (fs = ∅) then Ok None else rmap Some (ed_Decode (mkEncoded (Some d) ps))).
Proof.
  intros R Hd EA. pose proof (represents_stored _ _ _ ValueKey R ltac:(by left)) as Hwf.
  pose proof (represents_alone _ _ _ ValueKey d R ltac:(by left) Hd) as Hal.
  pose proof (has_doc_values _ _ _ _ _ R Hd EA) as Hhas.
  exists (stored_props (views s NData) fields col ValueKey d). split; [by eapply stored_props_values|].
  assert (IDString c.(col_desc) = col) as Eid by (unfold IDString; by rewrite (cw_id _ Hc)).
  set (f0 := fetcher_init c.(col_desc) false new_fetcher).
  destruct (fetch_document (H0 := lawful_of NData) s f0 c.(col_desc) false fields d) as (f' & docs & Hstart & Hready & Hdocs);
    [done|done|by rewrite Eid|by rewrite Eid|]. rewrite Eid in Hdocs.
  apply (on_active_steps (H0 := lawful_of NData) _ _ (mkDocumentFetcher f0 None)), fsteps_then in Hstart as (s1 & E1 & Hthen).
  assert (@fsteps S _ (lawful_of NData) _ _ (Fetcher_Start (Some [document_span c.(col_desc) d])) s
    (mkDocumentFetcher f0 None) (Ok tt) (mkDocumentFetcher f' None)) as Hst.
  { unfold Fetcher_Start. apply Hthen, fsteps_bind_dget. by apply fsteps_ret. }
  apply fsteps_then in Hst as (s2 & E2 & Hst2).
  destruct (on_active_decoded s2 (mkDocumentFetcher f' None) docs) as [df' Hnext]; [unfold views; by rewrite E2|].
  assert (col_get c (mkPrimaryDataStoreKey col d) false s =
    with_fetcher (mkDocumentFetcher f0 None) (let* _ := Fetcher_Start (Some [document_span c.(col_desc) d]) in FetchNextDecoded) s) as Eget.
  { unfold col_get, fetcher_Init. by rewrite (cw_schema _ Hc). }
  unfold msteps. rewrite Eget. eapply msteps_fetcher, Hst2. destruct Hdocs as [[Hh ->]|[Hh ->]].
  - rewrite decide_False by by apply Hhas. exact Hnext.
  - rewrite decide_True; [exact Hnext|]. destruct (decide (fs = ∅)); [done|]. by exfalso; apply Hh, Hhas.
Qed.

(** ** Sequences of operations *)

(** The operations of a client on the collection, inside one transaction. *)
Inductive doc_cmd :=
  | CCreate (p : nat) (doc : Document)
  | CUpdate (p : nat) (doc : Document)
  | CSave (p : nat) (doc : Document)
  | CDelete (key : ClientDoc.DocKey)
  | CExists (key : ClientDoc.DocKey)
  | CGet (key : ClientDoc.DocKey).

Inductive reply :=
  | RUnit
  | RBool (b : bool)
  | RDoc (doc : option Document).

Local Abbreviation St := (S * list callback)%type.

Definition exec (depth : nat) (cmd : doc_cmd) : M St reply :=
  match cmd with
  | CCreate p doc => let* _ := col_create updates depth c p doc in mret RUnit
  | CUpdate p doc => let* _ := col_Update updates depth c p doc in mret RUnit
  | CSave p doc => let* _ := col_Save updates depth c p doc in mret RUnit
  | CDelete key => let* b := col_Delete updates c key in mret (RBool b)
  | CExists key => let* b := col_Exists c key in mret (RBool b)
  | CGet key => let* o := on_store (col_Get c key false) in mret (RDoc o)
  end.

(** The client goes on after an error. *)
Fixpoint exec_all (depth : nat) (cmds : list doc_cmd) : M St (list (reply + error)) :=
  match cmds with
  | [] => mret []
  | cmd :: cmds =>
      let* r := mtry (exec depth cmd) in
      let* rs := exec_all depth cmds in
      mret (r :: rs)
  end.

(** *** The contract *)

Local Abbreviation key_of doc := (dockey_string (d_key doc)).

Definition verified (doc : Document) : Prop := exists k, getKeysFromDoc c doc = Ok k.

(** Reading a document with the values [fs]; one without values is returned as nil. *)
Definition get_reply (d : string) (fs : gmap string bytes) (r : reply + error) : Prop :=
  (fs = ∅ /\ r = inl (RDoc None)) \/
  (fs <> ∅ /\ exists ps, lists_props ps fs /\
    match ed_Decode (mkEncoded (Some d) ps) with
    | Ok doc => r = inl (RDoc (Some doc))
    | Err e => r = inr e
    | Panic => False
    end).

Inductive spec_step (A : acol) : doc_cmd -> reply + error -> acol -> Prop :=
  | sp_create p doc ws :
      savable doc ws -> verified doc -> A !! key_of doc = None ->
      spec_step A (CCreate p doc) (inl RUnit) (<[key_of doc := (false, written ws)]> A)
  | sp_create_exists p doc o :
      verified doc -> A !! key_of doc = Some o -> spec_step A (CCreate p doc) (inr NewErrDocumentAlreadyExists) A
  | sp_create_key p doc e :
      getKeysFromDoc c doc = Err e -> spec_step A (CCreate p doc) (inr e) A
  | sp_update p doc ws fs :
      savable doc ws -> A !! key_of doc = Some (false, fs) ->
      spec_step A (CUpdate p doc) (inl RUnit) (<[key_of doc := (false, written ws ∪ fs)]> A)
  | sp_update_absent p doc :
      A !! key_of doc = None -> spec_step A (CUpdate p doc) (inr ErrDocumentNotFound) A
  | sp_update_deleted p doc fs :
      A !! key_of doc = Some (true, fs) -> spec_step A (CUpdate p doc) (inr NewErrDocumentDeleted) A
  | sp_save_create p doc r A' :
      A !! key_of doc = None -> spec_step A (CCreate p doc) r A' -> spec_step A (CSave p doc) r A'
  | sp_save_update p doc r A' fs :
      A !! key_of doc = Some (false, fs) -> spec_step A (CUpdate p doc) r A' -> spec_step A (CSave p doc) r A'
  | sp_save_deleted p doc fs :
      A !! key_of doc = Some (true, fs) -> spec_step A (CSave p doc) (inl RUnit) A
  | sp_delete key fs :
      A !! dockey_string key = Some (false, fs) ->
      spec_step A (CDelete key) (inl (RBool true)) (<[dockey_string key := (true, fs)]> A)
  | sp_delete_absent key :
      (forall fs, A !! dockey_string key <> Some (false, fs)) -> spec_step A (CDelete key) (inr ErrDocumentNotFound) A
  | sp_exists key b :
      (b = true <-> exists fs, A !! dockey_string key = Some (false, fs)) -> spec_step A (CExists key) (inl (RBool b)) A
  | sp_get key fs r :
      A !! dockey_string key = Some (false, fs) -> get_reply (dockey_string key) fs r -> spec_step A (CGet key) r A
  | sp_get_absent key :
      (forall fs, A !! dockey_string key <> Some (false, fs)) -> spec_step A (CGet key) (inr ErrDocumentNotFound) A.

Inductive spec_run : acol -> list doc_cmd -> list (reply + error) -> acol -> Prop :=
  | spec_run_nil A : spec_run A [] [] A
  | spec_run_cons A A1 A2 cmd cmds r rs :
      spec_step A cmd r A1 -> spec_run A1 cmds rs A2 -> spec_run A (cmd :: cmds) (r :: rs) A2.

(** The commands the contract is about: keys in their one valid version, and documents that
    can be stored, of which a new one has values. *)
Definition cmd_ok (cmd : doc_cmd) : Prop :=
  match cmd with
  | CCreate _ doc | CSave _ doc =>
      (exists ws, savable doc ws) /\ d_values doc <> [] /\ getKeysFromDoc c doc <> Panic
  | CUpdate _ doc => exists ws, savable doc ws
  | CDelete key | CExists key | CGet key => dockey_wf key
  end.

(** *** The implementation *)

Lemma represents_mono n n' V A : n <= n' -> represents n V A -> represents n' V A.
Proof. intros Hn [R1 R2 R3]. split; [|done|done]. intros d Hd. by eapply doc_state_mono, R1. Qed.

Definition outcome (r : reply + error) : result reply := match r with inl x => Ok x | inr e => Err e end.

(** The computation is a step of the contract. *)
Definition implements (n : Z) (A : acol) (s : S) (t : list callback) (m : M St reply) (cmd : doc_cmd) : Prop :=
  exists V r cbs A', tsteps m s t V (outcome r) (t ++ cbs) /\ spec_step A cmd r A' /\ represents (n + 1) V A'.

Lemma implements_ok n A s t m cmd V x cbs A' :
  tsteps m s t V (Ok x) (t ++ cbs) -> spec_step A cmd (inl x) A' -> represents (n + 1) V A' -> implements n A s t m cmd.
Proof. intros Hrun Hsp HR. by exists V, (inl x), cbs, A'. Qed.

(** An operation that changes nothing. *)
Lemma implements_same n A s (t : list callback) m cmd r :
  tsteps m s t (views s) (outcome r) t -> spec_step A cmd r A -> represents n (views s) A -> implements n A s t m cmd.
Proof.
  intros Hrun Hsp HR. exists (views s), r, [], A. rewrite app_nil_r. split; [done|]. split; [done|].
  by apply (represents_mono n); [lia|].
Qed.

Lemma tsteps_assoc {X Y Z'} (m : M St X) (k : X -> M St Y) (k' : Y -> M St Z') s t V r t' :
  tsteps (mbind m (fun x => mbind (k x) k')) s t V r t' -> tsteps (mbind (mbind m k) k') s t V r t'.
Proof. unfold tsteps, mbind. destruct (m (s, t)) as [[s1 t1] []]; done. Qed.

(** A reply is made of the result of a computation. *)
Lemma tsteps_reply {X} (m : M St X) (f : X -> reply) s t V x t' :
  tsteps m s t V (Ok x) t' -> tsteps (let* x := m in mret (f x)) s t V (Ok (f x)) t'.
Proof. intros Hm. eapply tsteps_bind; [exact Hm|]. intros s1 E1. by apply tsteps_ret. Qed.

Lemma getKeysFromDoc_key doc k : dockey_wf (d_key doc) -> getKeysFromDoc c doc = Ok k -> k.2 = mkPrimaryDataStoreKey col (key_of doc).
Proof.
  intros Hk. unfold getKeysFromDoc. intros (buf & _ & (cid & _ & E)%rbind_Ok)%rbind_Ok. revert E. unfold getPrimaryKeyFromDocKey, doc_Key.
  rewrite (DocKey_String_wf _ Hk), (DocKey_String_wf _ (NewDocKeyV0_wf cid)). cbn [rbind P_DocKey].
  destruct (String.eqb_spec (dockey_string (NewDocKeyV0 cid)) (key_of doc)) as [E|]; [|done]. intros [= <-]. cbn. by rewrite E.
Qed.

(** The step that every operation begins with. *)
Lemma found_then s (t : list callback) n A d :
  represents n (views s) A -> is_key d ->
  exists s1, represents n (views s1) A /\ (forall n', views s1 n' = views s n') /\
    forall B (k : bool * bool -> M St B) V r t', tsteps (k (status_of (A !! d))) s1 t V r t' ->
      tsteps (mbind (on_store (col_exists (mkPrimaryDataStoreKey col d))) k) s t V r t'.
Proof.
  intros R Hd. pose proof (exists_represents s t n A _ R Hd) as He. apply tsteps_then in He as (s1 & E1 & He).
  exists s1. split; [by eapply represents_ext|done].
Qed.

Lemma create_represents depth p doc ws s t n A :
  represents n (views s) A -> 0 <= n < 2 ^ 64 - 1 -> savable doc ws -> d_values doc <> [] -> verified doc -> A !! key_of doc = None ->
  exists V nd prio, tsteps (col_create updates depth c p doc) s t V (Ok tt) (t ++ success_callbacks updates c (key_of doc) p nd prio) /\
    represents (n + 1) V (<[key_of doc := (false, written ws)]> A).
Proof.
  intros R Hn Hsv Hne [[dk pk] Ek] EA. pose proof (savable_key _ _ Hsv) as Hd.
  pose proof (getKeysFromDoc_key _ _ (proj1 (proj2 Hsv)) Ek) as Epk. cbn in Epk. subst pk.
  destruct (found_then s t n A _ R Hd) as (s1 & R1 & E1 & He). rewrite EA in He.
  destruct (save_represents depth p doc ws s1 t n A R1 Hn Hsv) as (V & nd & prio & Hrun & HR). exists V, nd, prio. split.
  - unfold col_create. rewrite Ek. apply tsteps_bind_lift. cbv beta iota. apply He. cbn [status_of].
    destruct (d_values doc) as [|fv vs]; [done|]. cbn [length Nat.eqb]. apply (tsteps_bind_lift tt).
    eapply tsteps_bind; [exact Hrun|]. intros s2 E2. by apply tsteps_ret.
  - rewrite EA in HR. unfold saved_doc in HR. cbn [values_of] in HR. by rewrite map_union_empty in HR.
Qed.

(** A document is not created twice. *)
Lemma create_exists depth p doc ws s t n A o :
  represents n (views s) A -> savable doc ws -> verified doc -> A !! key_of doc = Some o ->
  tsteps (col_create updates depth c p doc) s t (views s) (Err NewErrDocumentAlreadyExists) t.
Proof.
  intros R Hsv [[dk pk] Ek] EA. pose proof (savable_key _ _ Hsv) as Hd.
  pose proof (getKeysFromDoc_key _ _ (proj1 (proj2 Hsv)) Ek) as Epk. cbn in Epk. subst pk.
  destruct (found_then s t n A _ R Hd) as (s1 & R1 & E1 & He). rewrite EA in He.
  unfold col_create. rewrite Ek. apply tsteps_bind_lift. cbv beta iota. apply He. destruct o as [b fs]. cbn [status_of].
  by apply tsteps_lift.
Qed.

Lemma create_implements depth p doc ws s t n A :
  represents n (views s) A -> 0 <= n < 2 ^ 64 - 1 -> savable doc ws -> d_values doc <> [] -> getKeysFromDoc c doc <> Panic ->
  implements n A s t (exec depth (CCreate p doc)) (CCreate p doc).
Proof.
  intros R Hn Hsv Hne Hpan. cbn [exec]. destruct (getKeysFromDoc c doc) as [k|e|] eqn:Ek; [| |done].
  2:{ apply (implements_same _ _ _ _ _ _ (inr e)); [|by apply sp_create_key|done].
      apply tsteps_bind_err. unfold col_create. rewrite Ek. by apply tsteps_bind_err, tsteps_lift. }
  assert (verified doc) as Hver by by exists k. destruct (A !! key_of doc) as [o|] eqn:EA.
  - apply (implements_same _ _ _ _ _ _ (inr NewErrDocumentAlreadyExists)); [|by eapply sp_create_exists|done].
    by eapply tsteps_bind_err, create_exists.
  - destruct (create_represents depth p doc ws s t n A R Hn Hsv Hne Hver EA) as (V & nd & prio & Hrun & HR).
    eapply implements_ok; [|by apply sp_create|exact HR]. by apply (tsteps_reply _ (fun _ => RUnit) _ _ _ tt).
Qed.

Lemma update_represents depth p doc ws s t n A fs :
  represents n (views s) A -> 0 <= n < 2 ^ 64 - 1 -> savable doc ws -> A !! key_of doc = Some (false, fs) ->
  exists V cbs, tsteps (col_update updates depth c p doc) s t V (Ok tt) (t ++ cbs) /\
    represents (n + 1) V (<[key_of doc := (false, written ws ∪ fs)]> A).
Proof.
  intros R Hn Hsv EA. destruct (save_represents depth p doc ws s t n A R Hn Hsv) as (V & nd & prio & Hrun & HR).
  eexists V, _. rewrite EA in HR. split; [|done]. unfold col_update. eapply tsteps_bind; [exact Hrun|]. intros s1 E1. by apply tsteps_ret.
Qed.

Lemma getPrimaryKey_wf key : dockey_wf key -> getPrimaryKeyFromDocKey c key = Ok (mkPrimaryDataStoreKey col (dockey_string key)).
Proof. intros Hk. unfold getPrimaryKeyFromDocKey. by rewrite (DocKey_String_wf _ Hk). Qed.

Lemma is_key_string key : dockey_wf key -> is_key (dockey_string key).
Proof. intros Hk. by exists key. Qed.

Lemma update_implements depth p doc ws s t n A :
  represents n (views s) A -> 0 <= n < 2 ^ 64 - 1 -> savable doc ws ->
  implements n A s t (exec depth (CUpdate p doc)) (CUpdate p doc).
Proof.
  intros R Hn Hsv. pose proof (savable_key _ _ Hsv) as Hd. pose proof (proj1 (proj2 Hsv)) as Hk. cbn [exec]. unfold col_Update, doc_Key.
  rewrite (getPrimaryKey_wf _ Hk). destruct (found_then s t n A _ R Hd) as (s1 & R1 & E1 & He).
  destruct (A !! key_of doc) as [[[] fs]|] eqn:EA; cbn [status_of] in He.
  - apply (implements_same _ _ _ _ _ _ (inr NewErrDocumentDeleted)); [|by eapply sp_update_deleted|done].
    apply tsteps_assoc, tsteps_bind_lift, tsteps_assoc, He. by apply tsteps_bind_err, tsteps_lift.
  - destruct (update_represents depth p doc ws s1 t n A fs R1 Hn Hsv EA) as (V & cbs & Hrun & HR).
    eapply implements_ok; [|by eapply sp_update|exact HR].
    apply tsteps_assoc, tsteps_bind_lift, tsteps_assoc, He. by apply (tsteps_reply _ (fun _ => RUnit) _ _ _ tt).
  - apply (implements_same _ _ _ _ _ _ (inr ErrDocumentNotFound)); [|by eapply sp_update_absent|done].
    apply tsteps_assoc, tsteps_bind_lift, tsteps_assoc, He. by apply tsteps_bind_err, tsteps_lift.
Qed.

Lemma save_implements depth p doc ws s t n A :
  represents n (views s) A -> 0 <= n < 2 ^ 64 - 1 -> savable doc ws -> d_values doc <> [] -> getKeysFromDoc c doc <> Panic ->
  implements n A s t (exec depth (CSave p doc)) (CSave p doc).
Proof.
  intros R Hn Hsv Hne Hpan. pose proof (savable_key _ _ Hsv) as Hd. pose proof (proj1 (proj2 Hsv)) as Hk. cbn [exec]. unfold col_Save, doc_Key.
  rewrite (getPrimaryKey_wf _ Hk). destruct (found_then s t n A _ R Hd) as (s1 & R1 & E1 & He).
  destruct (A !! key_of doc) as [[[] fs]|] eqn:EA; cbn [status_of] in He.
  - apply (implements_same _ _ _ _ _ _ (inl RUnit)); [|by eapply sp_save_deleted|done].
    apply tsteps_assoc, tsteps_bind_lift, tsteps_assoc, He. by apply (tsteps_reply _ (fun _ => RUnit) _ _ _ tt), tsteps_ret.
  - destruct (update_represents depth p doc ws s1 t n A fs R1 Hn Hsv EA) as (V & cbs & Hrun & HR).
    eapply implements_ok; [|by eapply sp_save_update, sp_update|exact HR].
    apply tsteps_assoc, tsteps_bind_lift, tsteps_assoc, He. by apply (tsteps_reply _ (fun _ => RUnit) _ _ _ tt).
  - destruct (create_implements depth p doc ws s1 t n A R1 Hn Hsv Hne Hpan) as (V & r & cbs & A' & Hrun & Hsp & HR).
    exists V, r, cbs, A'. split; [|by split; [eapply sp_save_create|]].
    by apply tsteps_assoc, tsteps_bind_lift, tsteps_assoc, He.
Qed.

Lemma delete_implements depth key s t n A :
  represents n (views s) A -> 0 <= n < 2 ^ 64 - 1 -> dockey_wf key ->
  implements n A s t (exec depth (CDelete key)) (CDelete key).
Proof.
  intros R Hn Hk. pose proof (is_key_string _ Hk) as Hd. cbn [exec]. unfold col_Delete. rewrite (getPrimaryKey_wf _ Hk).
  destruct (found_then s t n A _ R Hd) as (s1 & R1 & E1 & He).
  destruct (A !! dockey_string key) as [[[] fs]|] eqn:EA; cbn [status_of] in He.
  - apply (implements_same _ _ _ _ _ _ (inr ErrDocumentNotFound)); [|apply sp_delete_absent; congruence|done].
    apply tsteps_assoc, tsteps_bind_lift, tsteps_assoc, He. by apply tsteps_bind_err, tsteps_lift.
  - destruct (delete_represents s1 t n A _ fs R1 Hn Hd EA) as (V & cbs & Hrun & HR).
    eapply implements_ok; [|by apply sp_delete|exact HR].
    apply tsteps_assoc, tsteps_bind_lift, tsteps_assoc, He. apply (tsteps_reply _ RBool).
    eapply tsteps_bind; [exact Hrun|]. intros s2 E2. by apply tsteps_ret.
  - apply (implements_same _ _ _ _ _ _ (inr ErrDocumentNotFound)); [|apply sp_delete_absent; congruence|done].
    apply tsteps_assoc, tsteps_bind_lift, tsteps_assoc, He. by apply tsteps_bind_err, tsteps_lift.
Qed.

Lemma exists_implements depth key s t n A :
  represents n (views s) A -> dockey_wf key -> implements n A s t (exec depth (CExists key)) (CExists key).
Proof.
  intros R Hk. pose proof (is_key_string _ Hk) as Hd. cbn [exec]. unfold col_Exists. rewrite (getPrimaryKey_wf _ Hk).
  set (b := match A !! dockey_string key with Some (false, _) => true | _ => false end).
  apply (implements_same _ _ _ _ _ _ (inl (RBool b))); [| |done].
  - apply (tsteps_reply _ RBool), tsteps_bind_lift.
    pose proof (exists_represents s t n A _ R Hd) as He.
    assert (tsteps (mtry (on_store (col_exists (mkPrimaryDataStoreKey col (dockey_string key))))) s t (views s)
      (Ok (inl (status_of (A !! dockey_string key)))) t) as Ht.
    { revert He. unfold tsteps, mtry. destruct (on_store _ (s, t)) as [[s1 t1] q]. cbn. by intros (-> & -> & Hv). }
    eapply tsteps_bind; [exact Ht|]. intros s1 E1. unfold b.
    destruct (A !! dockey_string key) as [[[] fs]|]; by apply tsteps_ret.
  - apply sp_exists. unfold b. destruct (A !! dockey_string key) as [[[] fs]|]; split; intros Hb; try done.
    + by destruct Hb.
    + by exists fs.
    + by destruct Hb.
Qed.

(** Decoding reports an error or succeeds. *)
Lemma rbind_total {X Y} (r : result X) (k : X -> result Y) : r <> Panic -> (forall x, k x <> Panic) -> rbind r k <> Panic.
Proof. destruct r; cbn; auto; done. Qed.

Lemma convertArray_total {X} (conv : val -> result X) l : (forall v, conv v <> Panic) -> convertArray conv l <> Panic.
Proof. intros Hc'. induction l as [|v l IH]; [done|]. cbn. apply rbind_total; [done|]. intros x. by apply rbind_total. Qed.

Lemma decodeArray_total kind l : decodeArray kind l <> Panic.
Proof.
  unfold decodeArray, convertNillableArray, convertNillable.
  repeat case_match; try done; apply rbind_total; try done; apply convertArray_total; intros v;
    destruct v as [| | [] | | | | | | | | | | | | | | | | | | | | | |]; done.
Qed.

Lemma prop_Decode_total fd b : prop_Decode (mkEncProperty fd (register b)) <> Panic.
Proof.
  unfold prop_Decode. cbn [ep_Raw register]. apply rbind_total; [apply cbor_any_total|]. intros [| | | | | | | | | | | | | | | | | | | | | | | |]; try done.
  apply rbind_total; [apply decodeArray_total|done].
Qed.

Lemma decodeProps_total ps doc : (forall fd e, (fd, e) ∈ ps -> exists b, e = mkEncProperty fd (register b)) -> decodeProps ps doc <> Panic.
Proof.
  revert doc. induction ps as [|[fd e] ps IH]; intros doc Hps; [done|]. cbn [decodeProps]. destruct (Hps fd e ltac:(left)) as [b ->].
  apply rbind_total; [apply prop_Decode_total|]. intros [ct v]. apply IH. intros fd' e' Hin. apply Hps. by right.
Qed.

Lemma ed_Decode_key k ps : dockey_wf k ->
  ed_Decode (mkEncoded (Some (dockey_string k)) ps) = decodeProps ps (NewDocWithKey (mkDocKey DocKeyV0 k.(dk_uuid) Cid_Undef)).
Proof.
  intros Hk. change (ed_Decode _) with (let! key := NewDocKeyFromString (dockey_string k) in decodeProps ps (NewDocWithKey key)).
  by rewrite (NewDocKeyFromString_String _ Hk).
Qed.

Lemma ed_Decode_total d ps fs : is_key d -> lists_props ps fs -> ed_Decode (mkEncoded (Some d) ps) <> Panic.
Proof.
  intros (k & Hk & ->) [_ Hps]. rewrite ed_Decode_key by done. apply decodeProps_total.
  intros fd e [_ (b & _ & ->)]%Hps. by exists b.
Qed.

Lemma msteps_bind_lift {X Y} (x : X) (k : X -> M S Y) s V r : msteps (mbind (mlift (Ok x)) k) s V r = msteps (k x) s V r.
Proof. done. Qed.

(** What [Get] returns. *)
Lemma col_Get_represents key s n A :
  represents n (views s) A -> dockey_wf key ->
  exists r, match A !! dockey_string key with
    | Some (false, fs) => exists r', get_reply (dockey_string key) fs r' /\ outcome r' = rmap RDoc r
    | _ => r = Err ErrDocumentNotFound
    end /\ msteps (col_Get c key false) s (views s) r.
Proof.
  intros R Hk. pose proof (is_key_string _ Hk) as Hd. unfold col_Get. rewrite (getPrimaryKey_wf _ Hk).
  pose proof (col_exists_spec c n s _ _ (is_key_elem _ Hd) (rp_docs _ _ _ R _ Hd)) as He.
  destruct (A !! dockey_string key) as [[[] fs]|] eqn:EA.
  1,3: exists (Err ErrDocumentNotFound); split; [done|]; rewrite msteps_bind_lift; eapply msteps_bind; [exact He|]; by intros s2 E2.
  destruct He as [Er Ev]. destruct (col_exists (mkPrimaryDataStoreKey col (dockey_string key)) s) as [s1 q] eqn:Es. cbn in Er, Ev. subst q.
  assert (represents n (views s1) A) as R1 by by eapply represents_ext.
  destruct (col_get_represents s1 n A _ fs R1 Hd EA) as (ps & Hps & Hget).
  eexists. split; [|].
  2:{ rewrite msteps_bind_lift. unfold msteps, mbind. rewrite Es. cbn -[col_get views].
      destruct Hget as [Hr Hv]. split; [exact Hr|]. intros n'. by rewrite Hv, Ev. }
  case_decide as Hfs.
  - exists (inl (RDoc None)). split; [by left|done].
  - pose proof (ed_Decode_total _ _ _ Hd Hps) as Htot.
    destruct (ed_Decode (mkEncoded (Some (dockey_string key)) ps)) as [doc|e|] eqn:Ed; [| |done].
    + exists (inl (RDoc (Some doc))). split; [|done]. right. split; [done|]. exists ps. by rewrite Ed.
    + exists (inr e). split; [|done]. right. split; [done|]. exists ps. by rewrite Ed.
Qed.

Lemma get_implements depth key s t n A :
  represents n (views s) A -> dockey_wf key -> implements n A s t (exec depth (CGet key)) (CGet key).
Proof.
  intros R Hk. destruct (col_Get_represents key s n A R Hk) as (r & Hr & Hrun). cbn [exec].
  apply (tsteps_store _ _ t) in Hrun.
  assert (tsteps (let* o := on_store (col_Get c key false) in mret (RDoc o)) s t (views s) (rmap RDoc r) t) as Hrep.
  { revert Hrun. unfold tsteps, mbind, rmap. destruct (on_store _ (s, t)) as [[s1 t1] q]. cbn. intros (-> & -> & Hv).
    by destruct r. }
  destruct (A !! dockey_string key) as [[[] fs]|] eqn:EA.
  - apply (implements_same _ _ _ _ _ _ (inr ErrDocumentNotFound)); [by rewrite Hr in Hrep|apply sp_get_absent; congruence|done].
  - destruct Hr as (r' & Hg & Eo). apply (implements_same _ _ _ _ _ _ r'); [by rewrite Eo|by eapply sp_get|done].
  - apply (implements_same _ _ _ _ _ _ (inr ErrDocumentNotFound)); [by rewrite Hr in Hrep|apply sp_get_absent; congruence|done].
Qed.

Lemma exec_implements depth cmd s t n A :
  represents n (views s) A -> 0 <= n < 2 ^ 64 - 1 -> cmd_ok cmd -> implements n A s t (exec depth cmd) cmd.
Proof.
  intros R Hn Hok. destruct cmd as [p doc|p doc|p doc|key|key|key]; cbn [cmd_ok] in Hok.
  - destruct Hok as ([ws Hsv] & Hne & Hpan). by eapply create_implements.
  - destruct Hok as [ws Hsv]. by eapply update_implements.
  - destruct Hok as ([ws Hsv] & Hne & Hpan). by eapply save_implements.
  - by eapply delete_implements.
  - by eapply exists_implements.
  - by eapply get_implements.
Qed.

Lemma exec_all_runs depth cmds s (t : list callback) n A :
  represents n (views s) A -> 0 <= n -> n + Z.of_nat (length cmds) < 2 ^ 64 -> Forall cmd_ok cmds ->
  exists V rs cbs A', tsteps (exec_all depth cmds) s t V (Ok rs) (t ++ cbs) /\ spec_run A cmds rs A' /\
    represents (n + Z.of_nat (length cmds)) V A'.
Proof.
  intros R Hn Hlen Hok. revert s t n A R Hn Hlen. induction Hok as [|cmd cmds Hcmd Hok IH]; intros s t n A R Hn Hlen.
  - exists (views s), [], [], A. rewrite app_nil_r. split; [by apply tsteps_ret|]. split; [constructor|]. cbn. by rewrite Z.add_0_r.
  - cbn [length] in Hlen. destruct (exec_implements depth cmd s t n A R ltac:(lia) Hcmd) as (V & r & cbs & A1 & Hrun & Hsp & R1).
    assert (tsteps (mtry (exec depth cmd)) s t V (Ok r) (t ++ cbs)) as Htry.
    { revert Hrun. unfold tsteps, mtry. destruct (exec depth cmd (s, t)) as [[s1 t1] q]. cbn. intros (-> & -> & Hv). by destruct r. }
    apply tsteps_then in Htry as (s1 & E1 & Hthen).
    destruct (IH s1 (t ++ cbs) (n + 1) A1) as (V2 & rs & cbs2 & A2 & Hrun2 & Hsp2 & R2); [by eapply represents_ext|lia|lia|].
    exists V2, (r :: rs), (cbs ++ cbs2), A2. split; [|split; [by econstructor|]].
    + cbn [exec_all]. apply Hthen. rewrite app_assoc. eapply tsteps_bind; [exact Hrun2|]. intros s2 E2. by apply tsteps_ret.
    + by replace (n + Z.of_nat (length (cmd :: cmds))) with (n + 1 + Z.of_nat (length cmds)) by (cbn; lia).
Qed.

(** ** Reading back what was written *)

(** What a value of a field is decoded to. *)
Definition stored_as (kind : Z) (x : val) : result val :=
  match cbor_image x with VList l => decodeArray kind l | v => Ok (decodeScalar kind v) end.

Definition decoded (e : encProperty) : val := match prop_Decode e with Ok (_, v) => v | _ => VNil end.

Lemma prop_Decode_stored fd x b :
  cbor_plain x = true -> cbor_Marshal x = Ok b ->
  prop_Decode (mkEncProperty fd (register b)) = rmap (pair LWW_REGISTER) (stored_as fd.(fd_Kind) x).
Proof.
  intros Hx Hb. destruct (cbor_Marshal_plain x Hx) as (b' & Hb' & Hu). rewrite Hb in Hb'. injection Hb' as <-.
  unfold prop_Decode, stored_as. cbn [ep_Raw register ep_Desc]. rewrite Hu. cbn [rbind].
  change (byte_val (byte_of LWW_REGISTER)) with LWW_REGISTER. destruct (cbor_image x); try done.
Qed.

Lemma decodeProps_contents ps : forall doc0,
  doc_wf doc0 -> NoDup (fd_Name <$> ps.*1) -> (forall fd, fd ∈ ps.*1 -> fd.(fd_Name) ∉ (d_fields doc0).*1) ->
  (forall fd e, (fd, e) ∈ ps -> exists ct v, prop_Decode e = Ok (ct, v)) ->
  exists doc', decodeProps ps doc0 = Ok doc' /\ d_key doc' = d_key doc0 /\
    doc_contents doc' = doc_contents doc0 ++ ((fun p => (p.1.(fd_Name), inl (decoded p.2))) <$> ps).
Proof.
  induction ps as [|[fd e] ps IH]; intros doc0 Hwf Hnd Hnew Hdec.
  { exists doc0. cbn. by rewrite app_nil_r. }
  cbn in Hnd. apply NoDup_cons in Hnd as [Hni Hnd]. destruct (Hdec fd e ltac:(left)) as (ct & v & Ev).
  cbn [decodeProps]. rewrite Ev. cbn [rbind]. unfold SetAs, setCBOR. set (w := newValue ct (inl v)).
  assert (assoc (fd_Name fd) (d_fields doc0) = None) as Hno by (apply assoc_None, Hnew; left).
  destruct (IH (doc_set ct (fd_Name fd) w doc0)) as (doc' & Hrun & Hk & Hcon).
  - by apply doc_wf_set.
  - done.
  - intros fd' Hin Hin'. rewrite <- (doc_contents_names _ (doc_wf_set ct (fd_Name fd) w doc0 Hwf ltac:(done))) in Hin'.
    rewrite doc_contents_set, fmap_app, doc_contents_names in Hin' by done. apply elem_of_app in Hin' as [Hin'|Hin'].
    + eapply Hnew; [by right|done].
    + cbn in Hin'. apply list_elem_of_singleton in Hin'. apply Hni. rewrite <- Hin'. apply list_elem_of_fmap. by exists fd'.
  - intros fd' e' Hin. apply (Hdec fd'). by right.
  - exists doc'. split; [done|]. split; [by rewrite Hk, doc_set_key|]. rewrite Hcon, doc_contents_set by done.
    rewrite <- app_assoc. cbn. unfold decoded. by rewrite Ev.
Qed.

(** A document with new values only, which its fields can hold. *)
Definition fresh_value (n : string) (v : simpleValue Document) (x : val) (fd : FieldDescription) (v' : val) : Prop :=
  v.(sv_isDirty) = true /\ v.(sv_delete) = false /\ v.(sv_value) = inl x /\ cbor_plain x = true /\
  GetField c.(col_desc) n = Some fd /\ stored_as fd.(fd_Kind) x = Ok v'.

Definition fresh_doc (doc : Document) : Prop :=
  forall n f v, (n, f) ∈ d_fields doc -> assoc f (d_values doc) = Some v -> exists x fd v', fresh_value n v x fd v'.

Lemma planned_iff doc fs ws w :
  planned c doc fs = Some ws -> (forall n f v, (n, f) ∈ fs -> assoc f (d_values doc) = Some v -> v.(sv_isDirty) = true) ->
  w ∈ ws <-> exists n f v, (n, f) ∈ fs /\ assoc f (d_values doc) = Some v /\ field_write c n v = Some w.
Proof.
  revert ws. induction fs as [|[n f] fs IH]; intros ws Hp Hdirty.
  - injection Hp as <-. split; [by intros ?%elem_of_nil|]. by intros (n & f & v & ?%elem_of_nil & _).
  - cbn [planned] in Hp. destruct (assoc f (d_values doc)) as [v|] eqn:Ev; [|done]. cbn [base.mbind option_bind] in Hp.
    rewrite (Hdirty n f v ltac:(left) Ev) in Hp. cbn [negb] in Hp. destruct (field_write c n v) as [w1|] eqn:Ew; [|done].
    cbn [base.mbind option_bind] in Hp. destruct (planned c doc fs) as [ws1|] eqn:Ep; [|done]. injection Hp as <-.
    rewrite elem_of_cons, (IH ws1 eq_refl) by (intros; eapply Hdirty; [by right|done]). split.
    + intros [->|(n' & f' & v' & Hin & H')]; [by exists n, f, v; split; [left|]|]. exists n', f', v'. split; [by right|done].
    + intros (n' & f' & v' & [[= -> ->]|Hin]%elem_of_cons & E' & Ew'); [left; congruence|]. right. by exists n', f', v'.
Qed.

Lemma fresh_write n v w x fd v' :
  fresh_value n v x fd v' -> field_write c n v = Some w ->
  fd ∈ fds /\ fd.(fd_Name) = n /\ w_id w = Sprint fd.(fd_ID) /\ cbor_Marshal x = Ok (w_bytes w).
Proof.
  intros (_ & Hdel & Hx & _ & Hfd & _) Hw. pose proof (field_write_known _ _ _ Hw) as [_ (fd' & Hin' & En & Ei)].
  unfold field_write in Hw. rewrite Hfd, Hx, Hdel in Hw. destruct (_ || _); [done|].
  destruct (isSecondaryIDField c fd), (sv_t v =? LWW_REGISTER); try done. destruct (cbor_Marshal x) as [b| |]; try done.
  injection Hw as <-. cbn [w_id w_bytes] in *. apply GetField_name in Hfd as [Hin Hn]. by rewrite u32_small by apply (cw_fields _ Hc fd Hin).
Qed.

Lemma field_by_id fd fd' : fd ∈ fds -> fd' ∈ fds -> Sprint fd.(fd_ID) = Sprint fd'.(fd_ID) -> fd = fd'.
Proof.
  intros Hin Hin' E. destruct (cw_fields _ Hc fd Hin) as [Hu Hl]. destruct (cw_fields _ Hc fd' Hin') as [Hu' Hl'].
  apply Sprint_inj in E; [|done..]. rewrite E in Hl. congruence.
Qed.

(** The properties that the writes of a new document are listed as. *)
Lemma fresh_props doc ws ps fd e :
  savable doc ws -> fresh_doc doc -> lists_props ps (written ws) ->
  (fd, e) ∈ ps <-> exists n f v x v', (n, f) ∈ d_fields doc /\ assoc f (d_values doc) = Some v /\ fresh_value n v x fd v' /\
    fd.(fd_Name) = n /\ exists b, e = mkEncProperty fd (register b) /\ cbor_Marshal x = Ok b.
Proof.
  intros (Hwf & _ & Hp & _) Hfr [_ Hps]. pose proof (planned_NoDup _ _ _ (sh_fields _ _ (doc_wf_shape _ Hwf)) Hp) as Hnd.
  assert (forall w, w ∈ ws <-> exists n f v, (n, f) ∈ d_fields doc /\ assoc f (d_values doc) = Some v /\ field_write c n v = Some w) as Hws.
  { intros w. eapply planned_iff; [exact Hp|]. intros n f v Hin Ev. by destruct (Hfr n f v Hin Ev) as (x & fd' & v' & ? & _). }
  rewrite Hps. split.
  - intros [Hfd (b & Hb & ->)]. apply elem_of_list_to_map_2 in Hb. apply list_elem_of_fmap in Hb as (w & [= Ei ->] & Hw).
    apply Hws in Hw as (n & f & v & Hin & Ev & Ew). destruct (Hfr n f v Hin Ev) as (x & fd' & v' & Hv).
    destruct (fresh_write _ _ _ _ _ _ Hv Ew) as (Hfd' & En & Ei' & Hm). rewrite Ei' in Ei.
    rewrite (field_by_id fd fd' Hfd Hfd' Ei). exists n, f, v, x, v'. repeat (split; [done|]). by exists (w_bytes w).
  - intros (n & f & v & x & v' & Hin & Ev & Hv & En & b & -> & Hm).
    assert (exists w, field_write c n v = Some w) as [w Ew].
    { clear - Hp Hin Ev Hv. revert ws Hp. induction (d_fields doc) as [|[n' f'] fs IH]; intros ws Hp; [by apply elem_of_nil in Hin|].
      cbn [planned] in Hp. apply elem_of_cons in Hin as [[= <- <-]|Hin].
      - rewrite Ev in Hp. cbn [base.mbind option_bind] in Hp. rewrite (proj1 Hv) in Hp. cbn [negb] in Hp.
        destruct (field_write c n v) as [w|]; [by exists w|done].
      - apply planned_cons in Hp as [Hp|(v1 & w1 & ws1 & _ & Hp & _)]; by eapply IH. }
    destruct (fresh_write _ _ _ _ _ _ Hv Ew) as (Hfd & _ & Ei & Hm'). rewrite Hm in Hm'. injection Hm' as ->.
    split; [done|]. exists (w_bytes w). split; [|done]. rewrite <- Ei. apply lookup_written; [done|]. apply Hws. by exists n, f, v.
Qed.

(** The document that is read has the fields of the one that was stored, with the values they
    are decoded to. *)
Definition reads_back (doc doc' : Document) : Prop :=
  DocKey_String (d_key doc') = DocKey_String (d_key doc) /\
  forall n y, (n, y) ∈ doc_contents doc' <-> exists x fd v, (n, inl x) ∈ doc_contents doc /\
    GetField c.(col_desc) n = Some fd /\ stored_as fd.(fd_Kind) x = Ok v /\ y = inl v.

Lemma elem_of_contents (doc : Document) n y :
  (n, y) ∈ doc_contents doc <-> exists f v, (n, f) ∈ d_fields doc /\ assoc f (d_values doc) = Some v /\ v.(sv_value) = y.
Proof.
  unfold doc_contents. rewrite list_elem_of_omap. split.
  - intros ([n' f] & Hin & E). cbn in E. destruct (assoc f (d_values doc)) as [v|] eqn:Ev; [|done]. injection E as <- <-.
    by exists f, v.
  - intros (f & v & Hin & Ev & <-). exists (n, f). split; [done|]. cbn. by rewrite Ev.
Qed.

Lemma props_names ps fs : lists_props ps fs -> NoDup (fd_Name <$> ps.*1).
Proof.
  intros [Hnd Hps]. apply NoDup_fmap_2_strong; [|done]. intros fd fd' Hin Hin' E.
  assert (forall g, g ∈ ps.*1 -> g ∈ fds) as Hfds.
  { intros g ([g' e] & -> & Hg)%list_elem_of_fmap. by apply Hps in Hg as [? _]. }
  eapply fmap_NoDup_inj; [apply (cw_unique _ Hc)|by apply Hfds..|done].
Qed.

Lemma get_fresh doc ws r :
  savable doc ws -> fresh_doc doc -> ws <> [] -> get_reply (key_of doc) (written ws) r ->
  exists doc', r = inl (RDoc (Some doc')) /\ reads_back doc doc'.
Proof.
  intros Hsv Hfr Hne [[E _]|(_ & ps & Hps & Hr)].
  { exfalso. destruct ws as [|w ws]; [done|]. apply (f_equal (lookup (w_id w))) in E. unfold written in E.
    rewrite fmap_cons, list_to_map_cons, lookup_insert_eq, lookup_empty in E. done. }
  pose proof (fun fd e => fresh_props doc ws ps fd e Hsv Hfr Hps) as Hiff. destruct Hsv as (_ & Hk & _).
  destruct (decodeProps_contents ps (NewDocWithKey (mkDocKey DocKeyV0 (dk_uuid (d_key doc)) Cid_Undef))) as (doc' & Hrun & Hkey & Hcon).
  { apply doc_wf_empty. }
  { by eapply props_names. }
  { intros fd _. apply not_elem_of_nil. }
  { intros fd e (n & f & v & x & v' & _ & _ & Hv & _ & b & -> & Hb)%Hiff. destruct Hv as (_ & _ & _ & Hx & _ & Hst).
    rewrite (prop_Decode_stored _ _ _ Hx Hb), Hst. by do 2 eexists. }
  rewrite ed_Decode_key, Hrun in Hr by done. exists doc'. split; [done|]. split; [rewrite Hkey, !DocKey_String_wf; done|].
  intros n y. rewrite Hcon. change (doc_contents (NewDocWithKey _)) with (@nil (string * (val + Document))). cbn [app].
  rewrite list_elem_of_fmap. setoid_rewrite elem_of_contents. split.
  - intros ([fd e] & E & (n' & f & v & x & v' & Hin & Ev & Hv & En & b & -> & Hb)%Hiff). cbn in E. injection E as -> ->.
    pose proof Hv as (_ & _ & Hx & Hpl & Hfd & Hst). subst n'. exists x, fd, v'. split; [by exists f, v|]. split; [done|]. split; [done|].
    unfold decoded. by rewrite (prop_Decode_stored _ _ _ Hpl Hb), Hst.
  - intros (x & fd & v' & (f & v & Hin & Ev & Hx) & Hfd & Hst & ->). destruct (Hfr n f v Hin Ev) as (x1 & fd1 & v1 & Hv).
    pose proof Hv as (_ & _ & Hx1 & Hpl & Hfd1 & Hst1). rewrite Hx in Hx1. injection Hx1 as <-. rewrite Hfd in Hfd1. injection Hfd1 as <-.
    destruct (cbor_Marshal_plain x Hpl) as (b & Hb & _). exists (fd, mkEncProperty fd (register b)). split.
    + cbn. unfold decoded. rewrite (prop_Decode_stored _ _ _ Hpl Hb), Hst. by rewrite (proj2 (GetField_name _ _ Hfd)).
    + apply Hiff. exists n, f, v, x, v1. repeat (split; [done|]). split; [by apply GetField_name|by exists b].
Qed.

(** *** Steps of the contract *)

Lemma spec_create_new A p doc ws r A' :
  spec_step A (CCreate p doc) r A' -> savable doc ws -> verified doc -> A !! key_of doc = None ->
  r = inl RUnit /\ A' = <[key_of doc := (false, written ws)]> A.
Proof.
  intros Hs Hsv [k Hk] EA. inversion Hs as [? ? ws' Hsv'| | | | | | | | | | | | |]; subst; [|congruence..].
  destruct Hsv as (_ & _ & Hp & _), Hsv' as (_ & _ & Hp' & _). split; [done|]. congruence.
Qed.

Lemma spec_create_old A p doc o r A' :
  spec_step A (CCreate p doc) r A' -> verified doc -> A !! key_of doc = Some o -> r = inr NewErrDocumentAlreadyExists.
Proof. intros Hs [k Hk] EA. inversion Hs; subst; congruence. Qed.

Lemma spec_stored A key fs r A' :
  A !! dockey_string key = Some (false, fs) ->
  (spec_step A (CExists key) r A' -> r = inl (RBool true) /\ A' = A) /\
  (spec_step A (CGet key) r A' -> get_reply (dockey_string key) fs r /\ A' = A) /\
  (spec_step A (CDelete key) r A' -> r = inl (RBool true) /\ A' = <[dockey_string key := (true, fs)]> A).
Proof.
  intros EA. split; [|split]; intros Hs; inversion Hs as [| | | | | | | | |key' fs' E'|key' E'|key' b Hb|key' fs' r' E' Hg|key' E']; subst.
  - destruct Hb as [_ Hb]. by rewrite (Hb ltac:(by eexists)).
  - rewrite EA in E'. by injection E' as <-.
  - by destruct (E' fs).
  - rewrite EA in E'. by injection E' as <-.
  - by destruct (E' fs).
Qed.

Lemma spec_get_deleted A key fs r A' :
  spec_step A (CGet key) r A' -> A !! dockey_string key = Some (true, fs) -> r = inr ErrDocumentNotFound /\ A' = A.
Proof. intros Hs EA. inversion Hs; subst; [congruence|done]. Qed.

Lemma spec_run_cons_inv A cmd cmds rs A' :
  spec_run A (cmd :: cmds) rs A' -> exists r rs' A1, rs = r :: rs' /\ spec_step A cmd r A1 /\ spec_run A1 cmds rs' A'.
Proof. intros Hr. inversion Hr; subst. by do 3 eexists. Qed.



(** *** A deleted field *)

Lemma decodeProps_err ps doc fd e err :
  (forall fd e, (fd, e) ∈ ps -> exists b, e = mkEncProperty fd (register b)) -> (fd, e) ∈ ps -> prop_Decode e = Err err ->
  exists err', decodeProps ps doc = Err err'.
Proof.
  revert doc. induction ps as [|[fd1 e1] ps IH]; intros doc Hps Hin He; [by apply elem_of_nil in Hin|]. cbn [decodeProps].
  destruct (Hps fd1 e1 ltac:(left)) as [b ->]. pose proof (prop_Decode_total fd1 b) as Htot.
  destruct (prop_Decode (mkEncProperty fd1 (register b))) as [[ct v]|err1|] eqn:E1; [|by eexists|done]. cbn [rbind].
  apply elem_of_cons in Hin as [[= -> ->]|Hin]; [congruence|]. apply IH; [|done|done]. intros fd' e' Hin'. apply Hps. by right.
Qed.

Lemma get_empty_value d fs r f :
  is_key d -> known fs -> fs !! f = Some "" -> get_reply d fs r -> exists e, r = inr e.
Proof.
  intros (k & Hk & ->) Hkn Hf [[-> _]|(_ & ps & [Hnd Hps] & Hr)]; [by rewrite lookup_empty in Hf|].
  destruct (Hkn f ltac:(by eexists)) as (fd & Hfd & ->). destruct cbor_any_empty as [err Herr].
  destruct (decodeProps_err ps (NewDocWithKey (mkDocKey DocKeyV0 (dk_uuid k) Cid_Undef)) fd (mkEncProperty fd (register "")) err) as [err' E].
  - intros fd' e' [_ (b & _ & ->)]%Hps. by exists b.
  - apply Hps. split; [done|]. by exists "".
  - unfold prop_Decode. cbn [ep_Raw register]. by rewrite Herr.
  - rewrite ed_Decode_key, E in Hr by done. by exists err'.
Qed.

Lemma planned_deleted doc fs ws n f v :
  planned c doc fs = Some ws -> (n, f) ∈ fs -> assoc f (d_values doc) = Some v -> v.(sv_isDirty) = true -> v.(sv_delete) = true ->
  exists w, w ∈ ws /\ w_bytes w = "".
Proof.
  revert ws. induction fs as [|[n1 f1] fs IH]; intros ws Hp Hin Ev Hd Hdel; [by apply elem_of_nil in Hin|].
  apply elem_of_cons in Hin as [[= <- <-]|Hin].
  - cbn [planned] in Hp. rewrite Ev in Hp. cbn [base.mbind option_bind] in Hp. rewrite Hd in Hp. cbn [negb] in Hp.
    destruct (field_write c n v) as [w|] eqn:Ew; [|done]. cbn [base.mbind option_bind] in Hp.
    destruct (planned c doc fs) as [ws'|]; [|done]. injection Hp as <-. exists w. split; [left|].
    unfold field_write in Ew. destruct (GetField _ _) as [fd|]; [|done]. destruct (_ || _); [done|].
    destruct (isSecondaryIDField c fd), (sv_value v), (sv_t v =? LWW_REGISTER); try done. rewrite Hdel in Ew. by injection Ew as <-.
  - apply planned_cons in Hp as [Hp|(v1 & w1 & ws1 & _ & Hp & ->)]; [by eapply IH|].
    destruct (IH ws1 Hp Hin Ev Hd Hdel) as (w & Hw & E). exists w. split; [by right|done].
Qed.

(** a document with a field that was deleted cannot be read any more: the deletion stores a
    value without an encoding, which [Get] fails to decode. *)
Theorem deleted_field_unreadable depth p doc ws s (t : list callback) n A fs name f v :
  represents n (views s) A -> 0 <= n < 2 ^ 64 - 3 -> savable doc ws -> A !! dockey_string (d_key doc) = Some (false, fs) ->
  (name, f) ∈ d_fields doc -> assoc f (d_values doc) = Some v -> v.(sv_isDirty) = true -> v.(sv_delete) = true ->
  exists V cbs e, tsteps (exec_all depth [CUpdate p doc; CExists (d_key doc); CGet (d_key doc)]) s t V
    (Ok [inl RUnit; inl (RBool true); inr e]) (t ++ cbs).
Proof.
  intros R Hn Hsv EA Hin Ev Hd Hdel. pose proof Hsv as (Hwf & Hk & Hp & _).
  destruct (exec_all_runs depth [CUpdate p doc; CExists (d_key doc); CGet (d_key doc)] s t n A R ltac:(lia) ltac:(cbn; lia))
    as (V & rs & cbs & A' & Hrun & Hsp & _).
  { constructor; [by exists ws|]. by repeat constructor. }
  apply spec_run_cons_inv in Hsp as (r1 & rs1 & A1 & -> & S1 & Hsp).
  assert (r1 = inl RUnit /\ A1 = <[key_of doc := (false, written ws ∪ fs)]> A) as [-> ->].
  { inversion S1 as [| | |? ? ws' fs' Hsv' E'| | | | | | | | | |]; subst; [|congruence..].
    destruct Hsv' as (_ & _ & Hp' & _). split; [done|]. congruence. }
  pose proof (fun r A' => spec_stored (<[key_of doc := (false, written ws ∪ fs)]> A) (d_key doc) (written ws ∪ fs) r A' (lookup_insert_eq _ _ _)) as Hst.
  apply spec_run_cons_inv in Hsp as (r2 & rs2 & A2 & -> & [-> ->]%Hst & Hsp).
  apply spec_run_cons_inv in Hsp as (r3 & rs3 & A3 & -> & [Hg ->]%Hst & Hsp). inversion Hsp; subst.
  destruct (planned_deleted _ _ _ _ _ _ Hp Hin Ev Hd Hdel) as (w & Hw & Eb).
  destruct (get_empty_value (key_of doc) (written ws ∪ fs) r3 (w_id w)) as [e ->]; [by apply is_key_string| | |done|by exists V, cbs, e].
  - apply known_union; [by eapply known_written|]. by apply (rp_dom _ _ _ R) in EA as [_ ?].
  - rewrite <- Eb. apply lookup_union_Some_l, lookup_written; [|done].
    eapply planned_NoDup; [apply (sh_fields _ _ (doc_wf_shape _ Hwf))|exact Hp].
Qed.

(** ** Implicit transactions *)

Context {D : Type} `{TxnDB D S}.

(** The functions that run when a save is committed. *)
Lemma run_success d p nd prio (w : world) doc :
  doc_wf doc -> w_docs w !! p = Some doc ->
  exists doc', runSuccessFns (success_callbacks updates c d p nd prio) w =
      mkWorld (<[p := SetHead (Node_Cid nd) doc']> (w_docs w))
        (w_published w ++ if updates then [mkUpdate _ d (Node_Cid nd) c.(col_schemaID) nd prio] else []) /\
    d_key doc' = d_key doc /\ forall g, assoc g (d_values doc') = cleaned g <$> assoc g (d_values doc).
Proof.
  intros Hwf Hp. destruct (doc_Clean_wf doc Hwf) as (doc' & Hcl & _ & Hk & _ & Hv). exists doc'. split; [|done].
  unfold runSuccessFns, success_callbacks, published.
  assert (alter (SetHead (Node_Cid nd)) p (alter (fun d => (doc_Clean d).1) p (w_docs w)) =
    <[p := SetHead (Node_Cid nd) doc']> (w_docs w)) as E.
  { apply list_eq. intros i. destruct (decide (i = p)) as [->|Hne].
    - rewrite !list_lookup_alter_eq, Hp, list_lookup_insert_eq; [cbn; by rewrite Hcl|]. by eapply lookup_lt_Some.
    - by rewrite !list_lookup_alter_ne, list_lookup_insert_ne. }
  destruct updates; cbn [foldl app run_callback w_docs w_published]; rewrite E; [done|]. by rewrite app_nil_r.
Qed.

(** C14: creating a document is atomic.  Either the transaction is committed: the stores hold
    the document, the object of the caller is clean and has the new head, and the one update
    is published; or nothing is changed, neither the database nor the document nor the list of
    updates, which is the case for a document that exists. *)
Theorem implicit_create depth p doc ws (db : D) (w : world) s n A :
  NewTxn false db = Ok s -> represents n (views s) A -> 0 <= n < 2 ^ 64 - 1 ->
  savable doc ws -> fresh_doc doc -> d_values doc <> [] -> verified doc -> w_docs w !! p = Some doc ->
  let '(st, r) := implicitTxn false (col_create updates depth c p doc) (db, w) in
  (st = (db, w) /\ r <> Ok tt /\ (is_Some (A !! key_of doc) -> r = Err NewErrDocumentAlreadyExists)) \/
  (r = Ok tt /\ A !! key_of doc = None /\ exists s' nd prio doc', commit_store s' db = (st.1, Ok tt) /\
    represents (n + 1) (views s') (<[key_of doc := (false, written ws)]> A) /\
    st.2 = mkWorld (<[p := doc']> (w_docs w))
      (w_published w ++ if updates then [mkUpdate _ (key_of doc) (Node_Cid nd) c.(col_schemaID) nd prio] else []) /\
    d_key doc' = d_key doc /\ Head doc' = Node_Cid nd /\
    forall g v, assoc g (d_values doc') = Some v -> v.(sv_isDirty) = false).
Proof.
  intros Hnew R Hn Hsv Hfr Hne Hver Hp. unfold implicitTxn. cbn [fst]. rewrite Hnew.
  destruct (A !! key_of doc) as [o|] eqn:EA.
  - destruct (create_exists depth p doc ws s [] n A o R Hsv Hver EA) as (Hr & _).
    destruct (col_create updates depth c p doc (s, [])) as [[s1 t1] q]. cbn in Hr. subst q. by left.
  - destruct (create_represents depth p doc ws s [] n A R Hn Hsv Hne Hver EA) as (V & nd & prio & (Hr & Ht & Hv) & HR).
    destruct (col_create updates depth c p doc (s, [])) as [[s1 t1] q]. cbn in Hr, Ht, Hv. subst q t1.
    unfold mbind, txnCommit. cbn [fst]. destruct (commit_store s1 db) as [db' r] eqn:Ec.
    pose proof (commit_store_fails s1 db) as Hfail. rewrite Ec in Hfail. cbn in Hfail.
    destruct r as [[]|e|]; cbn.
    + right. split; [done|]. split; [done|]. destruct (run_success (key_of doc) p nd prio w doc (proj1 Hsv) Hp) as (doc' & Hrun & Hk & Hval).
      exists s1, nd, prio, (SetHead (Node_Cid nd) doc'). split; [done|]. split; [by eapply represents_ext|]. split; [exact Hrun|].
      destruct doc' as [k fs vs h b]. cbn in Hk, Hval |- *. split; [done|]. split; [done|]. intros g v Hg. rewrite Hval in Hg.
      destruct (assoc g (d_values doc)) as [v0|] eqn:Ev; [|done]. cbn in Hg. injection Hg as <-.
      destruct (Hfr (sf_name g) g v0) as (x & fd & v' & Hd & Hdel & _); [|done|by unfold cleaned; rewrite Hd, Hdel].
      apply (sh_agree _ _ (doc_wf_shape _ (proj1 Hsv))). apply assoc_Some_in in Ev. apply list_elem_of_fmap. by exists (g, v0).
    + left. rewrite (Hfail ltac:(done)). split; [done|]. split; [done|]. by intros [].
    + left. rewrite (Hfail ltac:(done)). split; [done|]. split; [done|]. by intros [].
Qed.
End Collection.
