(* ===== verification/DocExamples.v ===== *)
(** * Documents of a concrete collection

    Instances of the interfaces of the document operations, with a codec for values, and runs
    of the operations on a collection of users in memory. *)

From Stdlib Require Import Ascii SpecFloat.
From stdpp Require Import countable pretty.
From S2P Require Import Prelude GoStd Keys Spans Store MultiStore Crdt Clock Values DocMap Desc Schema Iterate Fetcher ClientDoc DocOps DocSpec DocState.

Module DocExamples.
Export MultiInstances CrdtWitness ClockWitness DocWitnesses.

(** ** A codec for values *)

(** Values as trees: the constants are leaves and the lists are nodes. *)
Definition float_code : Type := Z * bool * positive * Z.
Definition atom : Type := bool + (bool * Z) + float_code + string.

Definition of_float (f : spec_float) : float_code :=
  match f with
  | S754_zero s => (0, s, 1%positive, 0)
  | S754_infinity s => (1, s, 1%positive, 0)
  | S754_nan => (2, false, 1%positive, 0)
  | S754_finite s m e => (3, s, m, e)
  end.

Definition to_float (c : float_code) : spec_float :=
  let '(k, s, m, e) := c in
  if k =? 0 then S754_zero s else if k =? 1 then S754_infinity s else if k =? 2 then S754_nan else S754_finite s m e.

Lemma to_of_float f : to_float (of_float f) = f.
Proof. by destruct f. Qed.

Fixpoint to_tree (v : val) : gen_tree atom :=
  match v with
  | VBool b => GenLeaf (inl (inl (inl b)))
  | VInt k z => GenLeaf (inl (inl (inr (match k with KUint64 => true | _ => false end, z))))
  | VFloat64 f => GenLeaf (inl (inr (of_float f)))
  | VString s => GenLeaf (inr s)
  | VList l => GenNode 1 (to_tree <$> l)
  | _ => GenNode 0 []
  end.

Fixpoint of_tree (t : gen_tree atom) : val :=
  match t with
  | GenLeaf (inl (inl (inl b))) => VBool b
  | GenLeaf (inl (inl (inr (u, z)))) => VInt (if u : bool then KUint64 else KInt64) z
  | GenLeaf (inl (inr c)) => VFloat64 (to_float c)
  | GenLeaf (inr s) => VString s
  | GenNode 0 _ => VNil
  | GenNode _ l => VList (of_tree <$> l)
  end.

Lemma of_to_list {A} (f : A -> val) l : (forall x, x ∈ l -> of_tree (to_tree (f x)) = f x) -> of_tree (to_tree (VList (f <$> l))) = VList (f <$> l).
Proof.
  intros Hf. cbn. f_equal. induction l as [|x l IH]; [done|]. cbn. f_equal; [apply Hf; left|]. apply IH. intros y Hy. apply Hf. by right.
Qed.

Lemma of_to_int z : of_tree (to_tree (int_image z)) = int_image z.
Proof. unfold int_image. by destruct (0 <=? z). Qed.

Lemma of_to_opt {A} (f : A -> val) o : (forall x, of_tree (to_tree (f x)) = f x) -> of_tree (to_tree (opt_image f o)) = opt_image f o.
Proof. intros Hf. destruct o; [apply Hf|done]. Qed.

Lemma of_to_float x : of_tree (to_tree (VFloat64 x)) = VFloat64 x.
Proof. cbn. by rewrite to_of_float. Qed.

Lemma of_to_image : forall v, cbor_plain v = true -> of_tree (to_tree (cbor_image v)) = cbor_image v.
Proof.
  fix IH 1. intros [| | | | | | | | | | | | | | | | | | | | l | | | |]; intros Hp; cbn [cbor_image]; try done;
    auto using of_to_int, of_to_float, of_to_opt.
  all: try (apply of_to_list; intros; auto using of_to_int, of_to_float, of_to_opt; fail).
  apply of_to_list. cbn in Hp. induction l as [|x l IHl]; [by intros ? ?%elem_of_nil|]. cbn in Hp. apply andb_prop in Hp as [Hx Hl].
  intros y [->|Hy]%elem_of_cons; [by apply IH|by apply IHl].
Qed.

(** A positive number as text. *)
Fixpoint digits (p : positive) : string :=
  match p with xH => "e" | xO p => String "0" (digits p) | xI p => String "1" (digits p) end.

Fixpoint undigits (s : string) : option positive :=
  match s with
  | EmptyString => None
  | String a s => if Ascii.eqb a "e" then Some xH else if Ascii.eqb a "0" then xO <$> undigits s else xI <$> undigits s
  end.

Lemma undigits_digits p : undigits (digits p) = Some p.
Proof. induction p; cbn; [by rewrite IHp..|done]. Qed.

Definition val_decode (b : bytes) : option val :=
  match undigits b with Some p => of_tree <$> countable.decode p | None => None end.

#[export] Instance CborAny_tree : CborAny := {|
  cbor_Unmarshal_any b := match val_decode b with Some v => Ok v | None => Err (ErrNew "EOF") end;
|}.

#[export] Program Instance ValueCodec_tree : ValueCodec := {|
  cbor_Marshal v := Ok (digits (countable.encode (to_tree (cbor_image v))));
  fastjson_Parse s := Ok JNull;
|}.
Next Obligation.
  intros v Hv. eexists. split; [done|]. cbn. unfold val_decode. rewrite undigits_digits, decode_encode.
  cbn [fmap option_fmap option_map]. by rewrite of_to_image.
Qed.
Next Obligation. intros b. cbn. by destruct (val_decode b). Qed.
Next Obligation. by eexists. Qed.

(** ** The users in memory *)

Export IterateWitness SchemaWitness.
#[export] Existing Instance MultiStoreFrom.
#[export] Existing Instance LawfulMultiStoreFrom.

(** The iterator of the data namespace. *)
#[export] Instance Iterable_users : Iterable contents := @Iterable_wrapped contents Iterable_badger _ (namespaceKey NData).

#[export] Instance LawfulIterable_users : @LawfulIterable contents (store_of NData) (lawful_of NData) Iterable_users :=
  @LawfulIterable_wrapped contents _ _ Iterable_badger LawfulIterable_badger _ _ (namespaceKey NData) (namespaceKey_clean NData).

Definition user_col : collection := mkCollection 1 "6" users.

Lemma user_col_wf : col_wf user_col.
Proof.
  split; [done|done| | |].
  - intros fd [->|[->|[]%elem_of_nil]%elem_of_cons]%elem_of_cons; (split; [done|]); vm_compute; reflexivity.
  - vm_compute. repeat constructor; set_solver.
  - intros fd [->|[->|[]%elem_of_nil]%elem_of_cons]%elem_of_cons; done.
Qed.

(** A new user, with the key made from the values. *)
Definition ann_key : ClientDoc.DocKey :=
  match (let! b := doc_Bytes ann in prefix_Sum_raw b) with Ok c => NewDocKeyV0 c | _ => zero_key end.

Definition ann_doc : Document := set_key ann_key ann.
Definition ann_write : write := mkWrite "name" (Sprint (u32 1)) (digits (countable.encode (to_tree (VString "Ann")))).

Lemma ann_key_wf : dockey_wf ann_key.
Proof. reflexivity. Qed.

Lemma ann_savable : savable user_col ann_doc [ann_write].
Proof.
  split; [apply doc_wf_set_key, ann_wf|]. split; [exact ann_key_wf|]. split; [reflexivity|]. by eexists.
Qed.

Lemma ann_verified : verified user_col ann_doc.
Proof.
  unfold verified, getKeysFromDoc. change (doc_Bytes ann_doc) with (doc_Bytes ann).
  assert (exists b c, doc_Bytes ann = Ok b /\ prefix_Sum_raw b = Ok c /\ ann_key = NewDocKeyV0 c) as (b & c & E1 & E2 & E3).
  { eexists _, _. split; [reflexivity|]. split; reflexivity. }
  rewrite E1. cbn [rbind]. rewrite E2. cbn [rbind]. unfold getPrimaryKeyFromDocKey.
  rewrite (DocKey_String_wf _ (NewDocKeyV0_wf c)). cbn [rbind P_DocKey]. change (doc_Key ann_doc) with ann_key. rewrite E3.
  rewrite (DocKey_String_wf _ (NewDocKeyV0_wf c)). cbn [rbind]. rewrite String.eqb_refl. by eexists.
Qed.

Lemma ann_fresh : fresh_doc user_col ann_doc.
Proof.
  intros n f v [[= -> ->]|[]%elem_of_nil]%elem_of_cons Ev. injection Ev as <-.
  exists (VString "Ann"), name_field, (VString "Ann"). repeat split.
Qed.

(** Nothing is stored. *)
Lemma represents_empty (V : namespace -> contents) : (forall n, V n = ∅) -> represents user_col 0 V ∅.
Proof.
  intros HV. split.
  - intros d Hd. rewrite lookup_empty. split; rewrite ?HV.
    + apply doc_inv_empty.
    + by rewrite lookup_empty.
    + intros f Hf. by rewrite !lookup_empty.
    + intros f Hf. split; [rewrite HV; apply heads_wf_empty|intros k v; rewrite HV, lookup_empty; done|].
      intros hs h [_ _ _ Hmax]. unfold reg_prio. rewrite HV, lookup_empty. cbn.
      destruct Hmax as [[_ ->]|(x & _ & <-)]; [done|]. unfold height_of. by rewrite HV, lookup_empty.
  - intros d o. by rewrite lookup_empty.
  - intros inst k _ [v Hv]. by rewrite HV, lookup_empty in Hv.
Qed.

Definition life (p : nat) : list doc_cmd :=
  [CCreate p ann_doc; CExists ann_key; CGet ann_key; CDelete ann_key; CGet ann_key; CCreate p ann_doc].

Lemma life_ok p : Forall (cmd_ok user_col) (life p).
Proof.
  assert (cmd_ok user_col (CCreate p ann_doc)) as Hcreate.
  { split; [exists [ann_write]; apply ann_savable|]. split; [done|]. destruct ann_verified as [k Hk]. by rewrite Hk. }
  unfold life. repeat (apply Forall_cons; split; [first [exact Hcreate|exact ann_key_wf]|]). constructor.
Qed.



(** A database whose transactions work on a copy. *)
#[export] Program Instance TxnDB_copy : TxnDB contents contents := {|
  NewTxn _ d := Ok d;
  commit_store s d := (s, Ok tt);
|}.
Next Obligation. done. Qed.

Definition ann_world : world := mkWorld [ann_doc] [].

Lemma implicit_create_witness :
  let '(st, r) := implicitTxn (D := contents) false (col_create (S := contents) true 0 user_col 0 ann_doc) (∅, ann_world) in
  r = Ok tt -> exists doc', w_docs st.2 = [doc'] /\ length (w_published st.2) = 1%nat /\
    forall g v, assoc g (d_values doc') = Some v -> v.(sv_isDirty) = false.
Proof.
  pose proof (implicit_create (S := contents) (D := contents) true user_col user_col_wf 0 0 ann_doc [ann_write] ∅ ann_world ∅ 0 ∅
    eq_refl (represents_empty _ views_empty) ltac:(lia) ann_savable ann_fresh ltac:(done) ann_verified eq_refl) as Hc.
  destruct (implicitTxn _ _ _) as [st r]. intros ->. destruct Hc as [(_ & Hne & _)|(_ & _ & s' & nd & prio & doc' & _ & _ & -> & _ & _ & Hcl)].
  - by destruct Hne.
  - by exists doc'.
Defined.

(** The same document with its name deleted. *)
Definition nameless : Document := (doc_Delete ["name"] ann_doc).1.
Definition no_name : write := mkWrite "name" (Sprint (u32 1)) "".

Lemma nameless_savable : savable user_col nameless [no_name].
Proof.
  split; [apply (wf_op_Delete ["name"] ann_doc), doc_wf_set_key, ann_wf|]. split; [exact ann_key_wf|]. split; [reflexivity|]. by eexists.
Qed.

Lemma deleted_field_unreadable_witness :
  exists s V cbs e, tsteps (exec_all true user_col 0 [CUpdate 0 nameless; CExists ann_key; CGet ann_key]) (s : contents) [] V
    (Ok [inl RUnit; inl (RBool true); inr e]) cbs.
Proof.
  destruct (create_represents true user_col user_col_wf 0 0 ann_doc [ann_write] (∅ : contents) [] 0 ∅
    (represents_empty _ views_empty) ltac:(lia) ann_savable ltac:(done) ann_verified (lookup_empty _)) as (V & nd & prio & Hrun & HR).
  destruct Hrun as (_ & _ & Hv). set (s := (col_create true 0 user_col 0 ann_doc (∅, [])).1.1) in *. exists s.
  apply (deleted_field_unreadable true user_col user_col_wf 0 0 nameless [no_name] s [] 1 (<[dockey_string (d_key ann_doc) := (false, written [ann_write])]> ∅)
    (written [ann_write]) "name" (mkSimpleField "name" LWW_REGISTER "") (mkSimpleValue LWW_REGISTER (inl (VString "Ann")) true true)).
  - by eapply represents_ext.
  - lia.
  - apply nameless_savable.
  - apply lookup_insert_eq.
  - left.
  - reflexivity.
  - reflexivity.
  - reflexivity.
Defined.
End DocExamples.
