(* ===== verification/Events.v ===== *)
(** * Event channels (events/simple.go, events.go, publisher.go)

    The channel that distributes events to subscribers: the calls of clients, the goroutine
    that handles the commands, and the channels of the subscribers, as a step relation over
    their interleavings.

    A Go channel is a queue: the first entries, up to its capacity, are in its buffer, and
    the others are those of senders that are blocked.  A receiver takes the first entry, and
    a send has returned when its entry is within the capacity. *)

From Stdlib Require Import Wellfounded Relations.
From S2P Require Import Prelude Store.

Section Channel.
Context {T : Type}.

(** ** State *)

Inductive command :=
  | closeCommand
  | subscribeCommand (ch : nat)
  | unsubscribeCommand (ch : nat)
  | publishCommand (item : T).

(** Where the handler is: waiting for a command, sending an item to the subscribers that are
    left, blocked in a send to one of them, or returned. *)
Inductive hstate :=
  | HIdle
  | HSend (item : T) (rest : list nat)
  | HBlocked (item : T) (ch : nat) (rest : list nat)
  | HDone.

(** The channel of a subscriber, with what was received from it. *)
Record subscription := mkSubscription {
  sc_queue : list T;
  sc_closed : bool;
  sc_received : list T;
}.

(** The calls are those that have seen that the channel is open and have not sent their
    command; the commands that were handled are recorded. *)
Record simpleChannel := mkChannel {
  st_subscribers : list nat;
  st_queue : list command;
  st_cmdClosed : bool;
  st_isClosed : bool;
  st_hasClosed : bool;
  st_handler : hstate;
  st_chans : gmap nat subscription;
  st_calls : list command;
  st_handled : list command;
  st_panic : bool;
}.

Definition NewSimpleChannel : simpleChannel := mkChannel [] [] false false false HIdle ∅ [] [] false.

(** ** Calls of clients *)

Definition add_call (cmd : command) (c : simpleChannel) : simpleChannel :=
  mkChannel c.(st_subscribers) c.(st_queue) c.(st_cmdClosed) c.(st_isClosed) c.(st_hasClosed) c.(st_handler) c.(st_chans)
    (c.(st_calls) ++ [cmd]) c.(st_handled) c.(st_panic).

(** [Subscribe] up to its send; the new channel is [ch]. *)
Definition Subscribe (ch : nat) (c : simpleChannel) : option simpleChannel :=
  if c.(st_isClosed) then None
  else
    Some (mkChannel c.(st_subscribers) c.(st_queue) c.(st_cmdClosed) c.(st_isClosed) c.(st_hasClosed) c.(st_handler)
      (<[ch := mkSubscription [] false []]> c.(st_chans)) (c.(st_calls) ++ [subscribeCommand ch]) c.(st_handled) c.(st_panic)).

Definition Unsubscribe (ch : nat) (c : simpleChannel) : option simpleChannel :=
  if c.(st_isClosed) then None else Some (add_call (unsubscribeCommand ch) c).

Definition Publish (item : T) (c : simpleChannel) : option simpleChannel :=
  if c.(st_isClosed) then None else Some (add_call (publishCommand item) c).

Definition Close (c : simpleChannel) : option simpleChannel :=
  if c.(st_isClosed) then None
  else
    Some (mkChannel c.(st_subscribers) c.(st_queue) c.(st_cmdClosed) true c.(st_hasClosed) c.(st_handler) c.(st_chans)
      (c.(st_calls) ++ [closeCommand]) c.(st_handled) c.(st_panic)).

(** [c.commandChannel <- cmd] by the [i]-th of the calls; a send on a closed channel panics. *)
Definition send (i : nat) (c : simpleChannel) : option simpleChannel :=
  match c.(st_calls) !! i with
  | None => None
  | Some cmd =>
      let queue := if c.(st_cmdClosed) then c.(st_queue) else c.(st_queue) ++ [cmd] in
      Some (mkChannel c.(st_subscribers) queue c.(st_cmdClosed) c.(st_isClosed) c.(st_hasClosed) c.(st_handler) c.(st_chans)
        (delete i c.(st_calls)) c.(st_handled) (c.(st_panic) || c.(st_cmdClosed)))
  end.

(** A subscriber receives the next item. *)
Definition receive (ch : nat) (c : simpleChannel) : option simpleChannel :=
  match c.(st_chans) !! ch with
  | Some (mkSubscription (x :: queue) closed received) =>
      Some (mkChannel c.(st_subscribers) c.(st_queue) c.(st_cmdClosed) c.(st_isClosed) c.(st_hasClosed) c.(st_handler)
        (<[ch := mkSubscription queue closed (received ++ [x])]> c.(st_chans)) c.(st_calls) c.(st_handled) c.(st_panic))
  | _ => None
  end.

(** ** The handler *)

Definition close_sub (s : subscription) : subscription := mkSubscription s.(sc_queue) true s.(sc_received).
Definition is_open (m : gmap nat subscription) (ch : nat) : bool := match m !! ch with Some s => negb s.(sc_closed) | None => false end.

(** Whether every one is open when its turn to be closed comes; closing twice panics. *)
Fixpoint close_subs (chs : list nat) (m : gmap nat subscription) : gmap nat subscription * bool :=
  match chs with
  | [] => (m, true)
  | ch :: chs => let '(m', ok) := close_subs chs (alter close_sub ch m) in (m', is_open m ch && ok)
  end.

Fixpoint index_of (ch : nat) (l : list nat) : option nat :=
  match l with [] => None | x :: l => if decide (ch = x) then Some O else Datatypes.S <$> index_of ch l end.

(** The last subscriber takes the place of the one that is removed. *)
Definition swap_remove (i : nat) (l : list nat) : list nat := take (length l - 1) (<[i := default O (last l)]> l).

(** A command; [cap] is the size of the buffer of commands.  Senders that are blocked when the
    channel of commands is closed panic. *)
Definition handle (cap : nat) (cmd : command) (c : simpleChannel) : simpleChannel :=
  let handled := c.(st_handled) ++ [cmd] in
  match cmd with
  | closeCommand =>
      let '(chans, ok) := close_subs c.(st_subscribers) c.(st_chans) in
      mkChannel c.(st_subscribers) c.(st_queue) true c.(st_isClosed) true HDone chans c.(st_calls) handled
        (c.(st_panic) || negb ok || (cap <? length c.(st_queue))%nat)
  | subscribeCommand ch =>
      mkChannel (c.(st_subscribers) ++ [ch]) c.(st_queue) c.(st_cmdClosed) c.(st_isClosed) c.(st_hasClosed) HIdle c.(st_chans)
        c.(st_calls) handled c.(st_panic)
  | unsubscribeCommand ch =>
      match index_of ch c.(st_subscribers) with
      | None =>
          mkChannel c.(st_subscribers) c.(st_queue) c.(st_cmdClosed) c.(st_isClosed) c.(st_hasClosed) HIdle c.(st_chans)
            c.(st_calls) handled c.(st_panic)
      | Some i =>
          let '(chans, ok) := close_subs [ch] c.(st_chans) in
          mkChannel (swap_remove i c.(st_subscribers)) c.(st_queue) c.(st_cmdClosed) c.(st_isClosed) c.(st_hasClosed) HIdle chans
            c.(st_calls) handled (c.(st_panic) || negb ok)
      end
  | publishCommand item =>
      mkChannel c.(st_subscribers) c.(st_queue) c.(st_cmdClosed) c.(st_isClosed) c.(st_hasClosed) (HSend item c.(st_subscribers))
        c.(st_chans) c.(st_calls) handled c.(st_panic)
  end.

Definition set_handler (h : hstate) (c : simpleChannel) : simpleChannel :=
  mkChannel c.(st_subscribers) c.(st_queue) c.(st_cmdClosed) c.(st_isClosed) c.(st_hasClosed) h c.(st_chans) c.(st_calls)
    c.(st_handled) c.(st_panic).

Definition set_queue (queue : list command) (c : simpleChannel) : simpleChannel :=
  mkChannel c.(st_subscribers) queue c.(st_cmdClosed) c.(st_isClosed) c.(st_hasClosed) c.(st_handler) c.(st_chans) c.(st_calls)
    c.(st_handled) c.(st_panic).

Definition push_sub (x : T) (s : subscription) : subscription := mkSubscription (s.(sc_queue) ++ [x]) s.(sc_closed) s.(sc_received).

(** [subscriber <- command.item], up to where it blocks. *)
Definition push (item : T) (ch : nat) (rest : list nat) (c : simpleChannel) : simpleChannel :=
  mkChannel c.(st_subscribers) c.(st_queue) c.(st_cmdClosed) c.(st_isClosed) c.(st_hasClosed) (HBlocked item ch rest)
    (alter (push_sub item) ch c.(st_chans)) c.(st_calls) c.(st_handled) (c.(st_panic) || negb (is_open c.(st_chans) ch)).

(** One step of [handleChannel]; [ecap] is the size of the buffer of events. *)
Definition handleChannel (cap ecap : nat) (c : simpleChannel) : option simpleChannel :=
  match c.(st_handler) with
  | HIdle =>
      match c.(st_queue) with
      | [] => None
      | cmd :: queue => Some (handle cap cmd (set_queue queue c))
      end
  | HSend item [] => Some (set_handler HIdle c)
  | HSend item (ch :: rest) => Some (push item ch rest c)
  | HBlocked item ch rest =>
      match c.(st_chans) !! ch with
      | Some s => if (length s.(sc_queue) <=? ecap)%nat then Some (set_handler (HSend item rest) c) else None
      | None => None
      end
  | HDone => None
  end.

(** ** Runs *)

Variables cap ecap : nat.

Inductive step (c c' : simpleChannel) : Prop :=
  | step_Subscribe ch : c.(st_chans) !! ch = None -> Subscribe ch c = Some c' -> step c c'
  | step_Unsubscribe ch : Unsubscribe ch c = Some c' -> step c c'
  | step_Publish item : Publish item c = Some c' -> step c c'
  | step_Close : Close c = Some c' -> step c c'
  | step_send i : send i c = Some c' -> step c c'
  | step_receive ch : receive ch c = Some c' -> step c c'
  | step_handler : handleChannel cap ecap c = Some c' -> step c c'.

Inductive reachable : simpleChannel -> Prop :=
  | reachable_new : reachable NewSimpleChannel
  | reachable_step c c' : reachable c -> step c c' -> reachable c'.

(** ** What subscribers are to receive *)

(** Whether the channel is subscribed, and the items that were published while it was. *)
Definition expect (ch : nat) (s : bool * list T) (cmd : command) : bool * list T :=
  match cmd with
  | closeCommand => (false, s.2)
  | subscribeCommand ch' => if decide (ch' = ch) then (true, s.2) else s
  | unsubscribeCommand ch' => if decide (ch' = ch) then (false, s.2) else s
  | publishCommand x => if s.1 then (true, s.2 ++ [x]) else s
  end.

Definition expected (ch : nat) (cmds : list command) : bool * list T := foldl (expect ch) (false, []) cmds.

(** The item that the handler has still to send to the channel. *)
Definition in_flight (ch : nat) (h : hstate) : list T :=
  match h with
  | HSend item rest | HBlocked item _ rest => if decide (ch ∈ rest) then [item] else []
  | _ => []
  end.

Definition sub_ids (cmds : list command) : list nat :=
  omap (fun cmd => match cmd with subscribeCommand ch => Some ch | _ => None end) cmds.

(** The subscribers that are left in the handler. *)
Definition remaining (h : hstate) : list nat :=
  match h with HSend _ rest => rest | HBlocked _ ch rest => ch :: rest | _ => [] end.

Definition is_done (h : hstate) : bool := match h with HDone => true | _ => false end.

Record inv (c : simpleChannel) : Prop := {
  i_nodup : NoDup c.(st_subscribers);
  i_subs : is_done c.(st_handler) = false -> forall ch, ch ∈ c.(st_subscribers) <-> (expected ch c.(st_handled)).1 = true;
  i_open : is_done c.(st_handler) = false -> forall ch, ch ∈ c.(st_subscribers) -> is_open c.(st_chans) ch = true;
  i_ids : NoDup (sub_ids (c.(st_handled) ++ c.(st_queue) ++ c.(st_calls)));
  i_known : forall ch, ch ∈ sub_ids (c.(st_handled) ++ c.(st_queue) ++ c.(st_calls)) -> is_Some (c.(st_chans) !! ch);
  i_items : forall ch s, c.(st_chans) !! ch = Some s ->
    s.(sc_received) ++ s.(sc_queue) ++ in_flight ch c.(st_handler) = (expected ch c.(st_handled)).2;
  i_fresh : forall ch s, c.(st_chans) !! ch = Some s -> ch ∉ sub_ids c.(st_handled) -> s.(sc_closed) = false;
  i_rest : NoDup (remaining c.(st_handler)) /\ forall ch, ch ∈ remaining c.(st_handler) -> ch ∈ c.(st_subscribers);
  i_done : is_done c.(st_handler) = c.(st_cmdClosed) /\ (closeCommand ∈ c.(st_handled) <-> is_done c.(st_handler) = true);
}.

(** *** Removing a subscriber *)

Lemma index_of_Some ch l i : index_of ch l = Some i -> l !! i = Some ch.
Proof.
  revert i. induction l as [|x l IH]; intros i; cbn; [done|]. case_decide as E; [intros [= <-]; by rewrite E|].
  destruct (index_of ch l) as [j|]; [|done]. intros [= <-]. by apply IH.
Qed.

Lemma index_of_None ch l : index_of ch l = None -> ch ∉ l.
Proof.
  induction l as [|x l IH]; cbn; [intros _; apply not_elem_of_nil|]. case_decide as E; [done|].
  destruct (index_of ch l); [done|]. intros _. apply not_elem_of_cons. split; [done|by apply IH].
Qed.

Lemma swap_remove_perm i l ch : l !! i = Some ch -> ch :: swap_remove i l ≡ₚ l.
Proof.
  intros Hi. unfold swap_remove. destruct l as [|z l' _] using rev_ind; [done|].
  rewrite last_snoc, length_app. cbn [length default]. replace (length l' + 1 - 1)%nat with (length l') by lia.
  change (default O (Some z)) with z. destruct (decide (i = length l')) as [->|Hne].
  - rewrite list_lookup_middle in Hi by done. injection Hi as ->. rewrite insert_app_r_alt, Nat.sub_diag by done. cbn.
    rewrite take_app_length. apply Permutation_cons_append.
  - pose proof (lookup_lt_Some _ _ _ Hi) as Hlt. rewrite length_app in Hlt. cbn in Hlt. rewrite lookup_app_l in Hi by lia.
    rewrite insert_app_l, take_app_le, take_ge by (rewrite ?length_insert; lia).
    rewrite <- (take_drop_middle l' i ch Hi) at 2. rewrite insert_take_drop by lia.
    rewrite <- app_assoc. cbn. rewrite <- Permutation_cons_append. solve_Permutation.
Qed.

Lemma swap_remove_elem i l ch x : NoDup l -> l !! i = Some ch -> x ∈ swap_remove i l <-> x ∈ l /\ x <> ch.
Proof.
  intros Hnd Hi. pose proof (swap_remove_perm i l ch Hi) as Hp. rewrite <- Hp in Hnd. apply NoDup_cons in Hnd as [Hni _].
  assert (x ∈ l <-> x ∈ ch :: swap_remove i l) as -> by by rewrite Hp. rewrite elem_of_cons.
  split; [|naive_solver]. intros Hx. split; [by right|]. by intros ->.
Qed.

Lemma swap_remove_NoDup i l ch : NoDup l -> l !! i = Some ch -> NoDup (swap_remove i l).
Proof. intros Hnd Hi. rewrite <- (swap_remove_perm i l ch Hi) in Hnd. by apply NoDup_cons in Hnd as [_ ?]. Qed.

(** *** The invariant holds in every run *)

Ltac chan_cbn := cbn [st_subscribers st_queue st_cmdClosed st_isClosed st_hasClosed st_handler st_chans st_calls st_handled st_panic].

Lemma inv_new : inv NewSimpleChannel.
Proof.
  split; cbn; try done; try apply NoDup_nil_2.
  - intros _ ch. split; [by intros ?%elem_of_nil|done].
  - intros _ ch ?%elem_of_nil. done.
  - by intros ch ?%elem_of_nil.
  - split; [apply NoDup_nil_2|by intros ch ?%elem_of_nil].
  - split; [done|]. split; [by intros ?%elem_of_nil|done].
Qed.

(** A channel that no command names is not expected to have anything. *)
Lemma expected_unknown ch cmds : ch ∉ sub_ids cmds -> expected ch cmds = (false, []).
Proof.
  unfold expected. induction cmds as [|cmd cmds IH] using rev_ind; [done|]. intros Hni.
  unfold sub_ids in Hni. rewrite omap_app, not_elem_of_app in Hni. destruct Hni as [Hni Hcmd]. rewrite foldl_app, IH by done. cbn.
  destruct cmd as [|ch'|ch'|x]; cbn in *; try case_decide; try done. exfalso. subst. apply Hcmd. left.
Qed.

Lemma expected_snoc ch cmds cmd : expected ch (cmds ++ [cmd]) = expect ch (expected ch cmds) cmd.
Proof. unfold expected. by rewrite foldl_app. Qed.

Lemma sub_ids_app l l' : sub_ids (l ++ l') = sub_ids l ++ sub_ids l'.
Proof. apply omap_app. Qed.

(** Calls that do not subscribe. *)
Lemma inv_add_call cmd c b :
  sub_ids [cmd] = [] -> inv c ->
  inv (mkChannel c.(st_subscribers) c.(st_queue) c.(st_cmdClosed) b c.(st_hasClosed) c.(st_handler) c.(st_chans)
    (c.(st_calls) ++ [cmd]) c.(st_handled) c.(st_panic)).
Proof.
  intros Hcmd [I1 I2 I3 I4 I5 I6 IF I7 I8].
  split; chan_cbn; try done; rewrite !sub_ids_app in *; rewrite Hcmd, app_nil_r; done.
Qed.

Lemma inv_Subscribe ch c c' : c.(st_chans) !! ch = None -> Subscribe ch c = Some c' -> inv c -> inv c'.
Proof.
  unfold Subscribe. intros Hch. destruct (st_isClosed c); [done|]. intros [= <-] [I1 I2 I3 I4 I5 I6 IF I7 I8].
  assert (ch ∉ sub_ids (st_handled c ++ st_queue c ++ st_calls c)) as Hni.
  { intros Hin%I5. rewrite Hch in Hin. by destruct Hin. }
  assert (sub_ids (st_handled c ++ st_queue c ++ st_calls c ++ [subscribeCommand ch]) =
    sub_ids (st_handled c ++ st_queue c ++ st_calls c) ++ [ch]) as Eids.
  { by rewrite !sub_ids_app, !app_assoc. }
  split; chan_cbn; try done.
  - intros Hd x Hx. specialize (I3 Hd x Hx). unfold is_open in *. destruct (decide (ch = x)) as [->|Hne]; [by rewrite Hch in I3|].
    by rewrite lookup_insert_ne.
  - rewrite Eids. apply NoDup_app. split; [done|]. split; [by intros x Hx ->%list_elem_of_singleton|apply NoDup_singleton].
  - rewrite Eids. intros x [Hx| ->%list_elem_of_singleton]%elem_of_app.
    + apply I5 in Hx. destruct (decide (ch = x)) as [->|Hne]; [by rewrite lookup_insert_eq|by rewrite lookup_insert_ne].
    + by rewrite lookup_insert_eq.
  - intros x s. destruct (decide (ch = x)) as [->|Hne]; [|rewrite lookup_insert_ne by done; apply I6].
    rewrite lookup_insert_eq. intros [= <-]. cbn [sc_received sc_queue]. rewrite expected_unknown by (rewrite sub_ids_app in Hni; set_solver). cbn.
    destruct I7 as [_ Hsub].
    assert (x ∉ remaining (st_handler c)) as Hrem.
    { intros Hx. destruct (is_done (st_handler c)) eqn:Hd; [by destruct (st_handler c); cbn in *; set_solver|].
      apply Hsub, (I3 eq_refl) in Hx. unfold is_open in Hx. by rewrite Hch in Hx. }
    destruct (st_handler c); cbn in *; try done; rewrite decide_False by set_solver; done.
  - intros x s. destruct (decide (ch = x)) as [->|Hne]; [rewrite lookup_insert_eq; by intros [= <-]|].
    rewrite lookup_insert_ne by done. apply IF.
Qed.

Lemma inv_send i c c' : send i c = Some c' -> inv c -> inv c'.
Proof.
  unfold send. destruct (st_calls c !! i) as [cmd|] eqn:Ei; [|done]. intros [= <-] [I1 I2 I3 I4 I5 I6 IF I7 I8].
  pose proof (delete_Permutation _ _ _ Ei) as Hp.
  assert (sub_ids (st_handled c ++ st_queue c ++ st_calls c) ≡ₚ
    sub_ids (st_handled c ++ (st_queue c ++ [cmd]) ++ delete i (st_calls c))) as Hids.
  { apply omap_Permutation. rewrite <- app_assoc. cbn. by rewrite Hp at 1. }
  assert (sub_ids (st_handled c ++ st_queue c ++ delete i (st_calls c)) ⊆+ sub_ids (st_handled c ++ st_queue c ++ st_calls c)) as Hsub.
  { rewrite !sub_ids_app. do 2 apply submseteq_skips_l. unfold sub_ids.
    rewrite (omap_Permutation _ _ _ Hp). cbn. destruct cmd; try done. by apply submseteq_cons. }
  split; chan_cbn; try done; destruct (st_cmdClosed c).
  - apply submseteq_Permutation in Hsub as [k Hk]. rewrite Hk in I4. by apply NoDup_app in I4 as [? _].
  - by rewrite <- Hids.
  - intros ch Hch. apply I5. by eapply elem_of_submseteq.
  - intros ch. rewrite <- Hids. apply I5.
Qed.

Lemma inv_receive ch c c' : receive ch c = Some c' -> inv c -> inv c'.
Proof.
  unfold receive. destruct (st_chans c !! ch) as [[[|x queue] closed received]|] eqn:Ech; [done| |done].
  intros [= <-] [I1 I2 I3 I4 I5 I6 IF I7 I8]. split; chan_cbn; try done.
  - intros Hd y Hy. specialize (I3 Hd y Hy). unfold is_open in *. destruct (decide (ch = y)) as [->|Hne].
    + rewrite Ech in I3. by rewrite lookup_insert_eq.
    + by rewrite lookup_insert_ne.
  - intros y Hy. apply I5 in Hy. destruct (decide (ch = y)) as [->|Hne]; [by rewrite lookup_insert_eq|by rewrite lookup_insert_ne].
  - intros y s. destruct (decide (ch = y)) as [->|Hne]; [|rewrite lookup_insert_ne by done; apply I6].
    rewrite lookup_insert_eq. intros [= <-]. rewrite <- (I6 _ _ Ech). cbn [sc_received sc_queue]. by rewrite <- !app_assoc.
  - intros y s. destruct (decide (ch = y)) as [->|Hne]; [|rewrite lookup_insert_ne by done; apply IF].
    rewrite lookup_insert_eq. intros [= <-]. apply (IF _ _ Ech).
Qed.

(** Closing keeps what was sent. *)
Lemma lookup_close_subs chs m ch s :
  (close_subs chs m).1 !! ch = Some s ->
  exists s0, m !! ch = Some s0 /\ s.(sc_queue) = s0.(sc_queue) /\ s.(sc_received) = s0.(sc_received) /\
    (ch ∉ chs -> s.(sc_closed) = s0.(sc_closed)).
Proof.
  revert m. induction chs as [|x chs IH]; intros m; cbn; [intros Hs; by exists s|].
  destruct (close_subs chs (alter close_sub x m)) as [m' ok] eqn:E. cbn. intros Hs.
  destruct (IH (alter close_sub x m)) as (s0 & Hs0 & Hq & Hr & Hcl); [by rewrite E|].
  destruct (decide (x = ch)) as [->|Hne].
  - rewrite lookup_alter_eq in Hs0. destruct (m !! ch) as [s1|]; [|done]. injection Hs0 as <-. exists s1.
    split; [done|]. split; [done|]. split; [done|]. intros Hn. exfalso. apply Hn. left.
  - rewrite lookup_alter_ne in Hs0 by done. exists s0. split; [done|]. split; [done|]. split; [done|].
    intros Hn. apply Hcl. by apply not_elem_of_cons in Hn as [_ ?].
Qed.

Lemma lookup_close_subs_is_Some chs m ch : is_Some (m !! ch) -> is_Some ((close_subs chs m).1 !! ch).
Proof.
  revert m. induction chs as [|x chs IH]; intros m Hm; cbn; [done|].
  destruct (close_subs chs (alter close_sub x m)) as [m' ok] eqn:E. cbn. pose proof (IH (alter close_sub x m)) as Hs. rewrite E in Hs.
  apply Hs. by rewrite lookup_alter_is_Some.
Qed.

Lemma is_open_close_subs chs m ch : ch ∉ chs -> is_open m ch = true -> is_open (close_subs chs m).1 ch = true.
Proof.
  unfold is_open. intros Hn Ho. destruct (m !! ch) as [s0|] eqn:E0; [|done].
  destruct (lookup_close_subs_is_Some chs m ch) as [s Hs]; [by eexists|]. rewrite Hs.
  destruct (lookup_close_subs chs m ch s Hs) as (s1 & E1 & _ & _ & Hcl). rewrite E0 in E1. injection E1 as <-. by rewrite Hcl.
Qed.

(** The items of a channel after its flags were changed, with nothing in flight. *)
Lemma items_close chs (m : gmap nat subscription) (P : nat -> list T) :
  (forall ch s, m !! ch = Some s -> s.(sc_received) ++ s.(sc_queue) ++ [] = P ch) ->
  forall ch s, (close_subs chs m).1 !! ch = Some s -> s.(sc_received) ++ s.(sc_queue) ++ [] = P ch.
Proof. intros Hm ch s (s0 & Hs0 & -> & -> & _)%lookup_close_subs. by apply Hm. Qed.

Lemma expect_items_other ch s cmd : (match cmd with publishCommand _ => False | _ => True end) -> (expect ch s cmd).2 = s.2.
Proof. destruct cmd; cbn; try case_decide; done. Qed.

Section Handle.
Variables (c : simpleChannel) (q : list command).
Hypothesis Hinv : inv c.
Hypothesis Hidle : st_handler c = HIdle.

Lemma handle_ids cmd : st_queue c = cmd :: q -> sub_ids (st_handled c ++ st_queue c ++ st_calls c) = sub_ids ((st_handled c ++ [cmd]) ++ q ++ st_calls c).
Proof. intros ->. by rewrite <- app_assoc. Qed.

Lemma handle_items ch s : st_chans c !! ch = Some s -> sc_received s ++ sc_queue s ++ [] = (expected ch (st_handled c)).2.
Proof. intros Hs. rewrite <- (i_items _ Hinv ch s Hs), Hidle. done. Qed.

Lemma handle_fresh cmd ch s : st_chans c !! ch = Some s -> ch ∉ sub_ids (st_handled c ++ [cmd]) -> sc_closed s = false.
Proof.
  intros Hs Hn. apply (i_fresh _ Hinv ch s Hs). rewrite sub_ids_app in Hn. set_solver.
Qed.

Lemma handle_not_closed : (closeCommand ∉ st_handled c) /\ st_cmdClosed c = false.
Proof. destruct (i_done _ Hinv) as [E1 E2]. rewrite Hidle in *. cbn in *. split; [|done]. intros Hin%E2. done. Qed.

Lemma inv_handle_close : st_queue c = closeCommand :: q -> inv (handle cap closeCommand (set_queue q c)).
Proof.
  intros Hq. pose proof Hinv as [I1 I2 I3 I4 I5 I6 IF I7 I8]. unfold handle. chan_cbn. cbn [set_queue st_subscribers st_chans st_handled].
  pose proof handle_items as Hit. pose proof (handle_fresh closeCommand) as Hfr. pose proof (lookup_close_subs (st_subscribers c) (st_chans c)) as Hlk.
  pose proof (lookup_close_subs_is_Some (st_subscribers c) (st_chans c)) as Hsome.
  destruct (close_subs (st_subscribers c) (st_chans c)) as [chans ok] eqn:Ecl. cbn [fst] in *.
  pose proof (handle_ids _ Hq) as Eids. split; unfold set_queue; chan_cbn; try done.
  - by rewrite <- Eids.
  - intros ch. rewrite <- Eids. intros Hin%I5. by apply Hsome.
  - intros ch s (s0 & Hs0 & -> & -> & _)%Hlk. rewrite expected_snoc. cbn [expect snd in_flight]. by apply Hit.
  - intros ch s Hs Hn. destruct (Hlk ch s Hs) as (s0 & Hs0 & _ & _ & Hcl). rewrite Hcl; [by eapply Hfr|].
    intros Hin. rewrite Hidle in I2. apply (I2 eq_refl) in Hin. rewrite expected_unknown in Hin; [done|].
    rewrite sub_ids_app in Hn. set_solver.
  - split; [apply NoDup_nil_2|by intros ch ?%elem_of_nil].
  - split; [done|]. split; [done|]. intros _. apply elem_of_app. right. left.
Qed.

Lemma inv_handle_subscribe ch :
  st_queue c = subscribeCommand ch :: q -> inv (handle cap (subscribeCommand ch) (set_queue q c)).
Proof.
  intros Hq. pose proof Hinv as [I1 I2 I3 I4 I5 I6 IF I7 I8]. unfold handle, set_queue. chan_cbn. rewrite Hidle in *. cbn [is_done] in *.
  pose proof (handle_ids _ Hq) as Eids. pose proof handle_items as Hit. destruct handle_not_closed as [Hnc Hcc].
  assert (ch ∉ sub_ids (st_handled c)) as Hni.
  { rewrite Hq, sub_ids_app in I4. apply NoDup_app in I4 as (_ & Hd & _). intros Hin. apply (Hd _ Hin). left. }
  assert (ch ∉ st_subscribers c) as Hns.
  { intros Hin%(I2 eq_refl). by rewrite expected_unknown in Hin. }
  split; chan_cbn; cbn [is_done]; try done.
  - apply NoDup_app. split; [done|]. split; [by intros x Hx ->%list_elem_of_singleton|apply NoDup_singleton].
  - intros _ x. rewrite expected_snoc, elem_of_app, list_elem_of_singleton. cbn [expect]. case_decide as E; [cbn; naive_solver|].
    rewrite (I2 eq_refl). naive_solver.
  - intros _ x [Hx| ->%list_elem_of_singleton]%elem_of_app; [by apply I3|].
    destruct (I5 ch) as [s Hs]; [rewrite Hq, !sub_ids_app; cbn; set_solver|]. unfold is_open. rewrite Hs. by rewrite (IF ch s Hs Hni).
  - by rewrite <- Eids.
  - intros x. rewrite <- Eids. apply I5.
  - intros x s Hs. rewrite expected_snoc, expect_items_other by done. by apply Hit.
  - apply handle_fresh.
  - split; [apply NoDup_nil_2|by intros x ?%elem_of_nil].
  - split; [done|]. rewrite elem_of_app, list_elem_of_singleton. naive_solver.
Qed.

(** A command that leaves the subscribers as they are. *)
Lemma inv_handle_same cmd h :
  st_queue c = cmd :: q -> cmd <> closeCommand -> sub_ids [cmd] = [] ->
  (forall ch, (expected ch (st_handled c ++ [cmd])).1 = (expected ch (st_handled c)).1) ->
  (forall ch s, st_chans c !! ch = Some s ->
    sc_received s ++ sc_queue s ++ in_flight ch h = (expected ch (st_handled c ++ [cmd])).2) ->
  (NoDup (remaining h) /\ forall ch, ch ∈ remaining h -> ch ∈ st_subscribers c) -> is_done h = false ->
  inv (mkChannel (st_subscribers c) q (st_cmdClosed c) (st_isClosed c) (st_hasClosed c) h (st_chans c) (st_calls c)
    (st_handled c ++ [cmd]) (st_panic c)).
Proof.
  intros Hq Hncl Hids Hsubs Hitems Hrest Hd. pose proof Hinv as [I1 I2 I3 I4 I5 I6 IF I7 I8]. rewrite Hidle in *. cbn [is_done] in *.
  pose proof (handle_ids _ Hq) as Eids. destruct handle_not_closed as [Hnc Hcc].
  split; chan_cbn; rewrite ?Hd; try done.
  - intros _ ch. by rewrite Hsubs, (I2 eq_refl).
  - by rewrite <- Eids.
  - intros x. rewrite <- Eids. apply I5.
  - apply handle_fresh.
  - split; [done|]. rewrite elem_of_app, list_elem_of_singleton. naive_solver.
Qed.

Lemma inv_handle_unsubscribe ch :
  st_queue c = unsubscribeCommand ch :: q -> inv (handle cap (unsubscribeCommand ch) (set_queue q c)).
Proof.
  intros Hq. pose proof Hinv as [I1 I2 I3 I4 I5 I6 IF I7 I8]. rewrite Hidle in *. cbn [is_done] in *.
  pose proof (handle_ids _ Hq) as Eids. pose proof handle_items as Hit. destruct handle_not_closed as [Hnc Hcc].
  unfold handle, set_queue. chan_cbn. destruct (index_of ch (st_subscribers c)) as [i|] eqn:Ei.
  2:{ apply inv_handle_same; [done..| | | |done].
      - intros x. rewrite expected_snoc. cbn [expect]. case_decide as E; [subst x|done]. cbn. symmetry. apply Bool.not_true_iff_false.
        rewrite <- (I2 eq_refl). by apply index_of_None.
      - intros x s Hs. rewrite expected_snoc, expect_items_other by done. by apply Hit.
      - split; [apply NoDup_nil_2|by intros x ?%elem_of_nil]. }
  pose proof (index_of_Some _ _ _ Ei) as Hi. pose proof (fun x => swap_remove_elem i _ ch x I1 Hi) as Hsr.
  pose proof (lookup_close_subs [ch] (st_chans c)) as Hlk. pose proof (lookup_close_subs_is_Some [ch] (st_chans c)) as Hsome.
  pose proof (is_open_close_subs [ch] (st_chans c)) as Hopen.
  destruct (close_subs [ch] (st_chans c)) as [chans ok] eqn:Ecl. cbn [fst] in *.
  split; chan_cbn; cbn [is_done]; try done.
  - by eapply swap_remove_NoDup.
  - intros _ x. rewrite Hsr, expected_snoc. cbn [expect]. case_decide as E; [subst x; cbn; naive_solver|].
    rewrite (I2 eq_refl). naive_solver.
  - intros _ x [Hx Hne]%Hsr. apply Hopen; [by rewrite list_elem_of_singleton|by apply I3].
  - by rewrite <- Eids.
  - intros x. rewrite <- Eids. intros Hin%I5. by apply Hsome.
  - intros x s (s0 & Hs0 & -> & -> & _)%Hlk. rewrite expected_snoc, expect_items_other by done. by apply Hit.
  - intros x s Hs Hn. destruct (Hlk x s Hs) as (s0 & Hs0 & _ & _ & Hcl). rewrite Hcl; [by eapply handle_fresh|].
    intros ->%list_elem_of_singleton. rewrite sub_ids_app, app_nil_r in Hn.
    assert (ch ∈ st_subscribers c) as Hin by by eapply list_elem_of_lookup_2.
    apply (I2 eq_refl) in Hin. by rewrite expected_unknown in Hin.
  - split; [apply NoDup_nil_2|by intros x ?%elem_of_nil].
  - split; [done|]. rewrite elem_of_app, list_elem_of_singleton. naive_solver.
Qed.

Lemma inv_handle_publish item :
  st_queue c = publishCommand item :: q -> inv (handle cap (publishCommand item) (set_queue q c)).
Proof.
  intros Hq. pose proof Hinv as [I1 I2 I3 I4 I5 I6 IF I7 I8]. rewrite Hidle in *. cbn [is_done] in *.
  pose proof handle_items as Hit. unfold handle, set_queue. chan_cbn. apply inv_handle_same; [done..| | | |done].
  - intros x. rewrite expected_snoc. cbn [expect]. by destruct (expected x (st_handled c)) as [[] l].
  - intros x s Hs. rewrite expected_snoc. cbn [expect in_flight]. specialize (Hit x s Hs). rewrite app_nil_r in Hit.
    rewrite app_assoc, Hit. destruct (expected x (st_handled c)) as [b l] eqn:Ex. cbn [fst snd].
    case_decide as Hin; apply (fun H => proj1 (I2 eq_refl x) H) in Hin || rewrite (I2 eq_refl), Ex in Hin; rewrite ?Ex in Hin; cbn in Hin.
    + by rewrite Hin.
    + destruct b; [done|]. cbn. by rewrite app_nil_r.
  - cbn. by split.
Qed.
End Handle.

(** Sending the item to one subscriber. *)
Lemma inv_push item ch rest c : st_handler c = HSend item (ch :: rest) -> inv c -> inv (push item ch rest c).
Proof.
  intros Hh [I1 I2 I3 I4 I5 I6 IF [Hnd Hsub] I8]. rewrite Hh in *. cbn [is_done remaining] in *. apply NoDup_cons in Hnd as [Hni Hnd].
  assert (ch ∈ st_subscribers c) as Hch by (apply Hsub; left).
  unfold push. split; chan_cbn; cbn [is_done remaining]; try done.
  - intros _ x Hx. specialize (I3 eq_refl x Hx). unfold is_open in *. destruct (decide (ch = x)) as [->|Hne].
    + rewrite lookup_alter_eq. by destruct (st_chans c !! x).
    + by rewrite lookup_alter_ne.
  - intros x Hx. rewrite lookup_alter_is_Some. by apply I5.
  - intros x s. destruct (decide (ch = x)) as [->|Hne].
    + rewrite lookup_alter_eq. destruct (st_chans c !! x) as [s0|] eqn:E0; [|done]. intros [= <-].
      rewrite <- (I6 x s0 E0). cbn [in_flight push_sub sc_received sc_queue]. rewrite decide_False by done. rewrite decide_True by left.
      by rewrite app_nil_r.
    + rewrite lookup_alter_ne by done. intros Hs. rewrite <- (I6 x s Hs). cbn [in_flight]. do 2 f_equal.
      case_decide as Hd; case_decide as Hd'; set_solver.
  - intros x s. destruct (decide (ch = x)) as [->|Hne]; [|rewrite lookup_alter_ne by done; apply IF].
    rewrite lookup_alter_eq. destruct (st_chans c !! x) as [s0|] eqn:E0; [|done]. intros [= <-]. cbn. by apply IF.
  - split; [by apply NoDup_cons|done].
Qed.

(** The handler moves on without a change of the channels. *)
Lemma inv_set_handler h c :
  inv c -> is_done (st_handler c) = false -> is_done h = false -> (forall ch, in_flight ch h = in_flight ch (st_handler c)) ->
  NoDup (remaining h) -> (forall ch, ch ∈ remaining h -> ch ∈ remaining (st_handler c)) -> inv (set_handler h c).
Proof.
  intros [I1 I2 I3 I4 I5 I6 IF [Hnd Hsub] I8] Hd Hd' Hfl Hndh Hrem. unfold set_handler. split; chan_cbn; rewrite ?Hd'; try done.
  - intros _. by apply I2.
  - intros _. by apply I3.
  - intros ch s Hs. rewrite Hfl. by apply I6.
  - split; [done|]. intros ch Hch. by apply Hsub, Hrem.
  - by rewrite Hd in I8.
Qed.

Lemma inv_handler c c' : handleChannel cap ecap c = Some c' -> inv c -> inv c'.
Proof.
  unfold handleChannel. intros Hs Hinv. destruct (st_handler c) as [|item rest|item ch rest|] eqn:Hh; [| | |done].
  - destruct (st_queue c) as [|cmd q] eqn:Hq; [done|]. injection Hs as <-.
    destruct cmd; [apply inv_handle_close|apply inv_handle_subscribe|apply inv_handle_unsubscribe|apply inv_handle_publish]; done.
  - destruct rest as [|ch rest]; injection Hs as <-; [|by apply inv_push].
    apply inv_set_handler; rewrite ?Hh; try done. apply NoDup_nil_2.
  - destruct (st_chans c !! ch); [|done]. destruct (_ <=? _)%nat; [|done]. injection Hs as <-.
    pose proof (i_rest _ Hinv) as [Hnd _]. rewrite Hh in Hnd. apply NoDup_cons in Hnd as [_ Hnd].
    apply inv_set_handler; rewrite ?Hh; try done. intros x Hx. by right.
Qed.

Lemma channel_inv_step c c' : step c c' -> inv c -> inv c'.
Proof.
  intros [ch Hch Hs|ch Hs|item Hs|Hs|i Hs|ch Hs|Hs] Hinv.
  - by eapply inv_Subscribe.
  - unfold Unsubscribe in Hs. destruct (st_isClosed c); [done|]. injection Hs as <-. by apply inv_add_call.
  - unfold Publish in Hs. destruct (st_isClosed c); [done|]. injection Hs as <-. by apply inv_add_call.
  - unfold Close in Hs. destruct (st_isClosed c); [done|]. injection Hs as <-. by apply inv_add_call.
  - by eapply inv_send.
  - by eapply inv_receive.
  - by eapply inv_handler.
Qed.

Lemma inv_reachable c : reachable c -> inv c.
Proof. induction 1; [apply inv_new|by eapply channel_inv_step]. Qed.

(** ** Progress *)

(** All commands that were sent, in their order. *)
Definition history (c : simpleChannel) : list command := c.(st_handled) ++ c.(st_queue).

Definition received (ch : nat) (c : simpleChannel) : list T := match c.(st_chans) !! ch with Some s => s.(sc_received) | None => [] end.

(** The steps that the handler has still to make for its command, and what it waits for. *)
Definition hwork (h : hstate) : nat :=
  match h with HSend _ rest => 2 * length rest + 1 | HBlocked _ _ rest => 2 * length rest + 2 | _ => 0 end.

Definition blocked (c : simpleChannel) : nat :=
  match c.(st_handler) with
  | HBlocked _ ch _ => match c.(st_chans) !! ch with Some s => length s.(sc_queue) | None => 0 end
  | _ => 0
  end.

Definition work_lt (c c' : simpleChannel) : Prop :=
  (hwork c.(st_handler) < hwork c'.(st_handler))%nat \/
  (hwork c.(st_handler) = hwork c'.(st_handler) /\ (blocked c < blocked c')%nat).

(** Nothing that the handler depends on is changed. *)
Definition waits (c c' : simpleChannel) : Prop :=
  c'.(st_handled) = c.(st_handled) /\ c'.(st_handler) = c.(st_handler) /\ blocked c' = blocked c.

Definition advances (c c' : simpleChannel) : Prop :=
  (c'.(st_handled) = c.(st_handled) /\ work_lt c' c) \/
  (c.(st_handler) = HIdle /\ length c'.(st_handled) = Datatypes.S (length c.(st_handled))).

Lemma step_receive_waits ch c c' :
  receive ch c = Some c' -> waits c c' \/ advances c c'.
Proof.
  unfold receive. destruct (st_chans c !! ch) as [[[|x queue] closed rcv]|] eqn:Ech; [done| |done]. intros [= <-].
  unfold waits, advances, work_lt, blocked. chan_cbn. destruct (st_handler c) as [|item rest|item y rest|]; try (by left).
  destruct (decide (ch = y)) as [->|Hne].
  - right. left. split; [done|]. right. split; [done|]. rewrite lookup_insert_eq, Ech. cbn. lia.
  - left. by rewrite lookup_insert_ne.
Qed.

Lemma receive_blocked item ch rest c c' :
  st_handler c = HBlocked item ch rest -> receive ch c = Some c' -> advances c c'.
Proof.
  intros Hh. unfold receive. destruct (st_chans c !! ch) as [[[|x queue] closed rcv]|] eqn:Ech; [done| |done]. intros [= <-].
  left. split; [done|]. right. split; [done|]. unfold blocked. chan_cbn. rewrite Hh, lookup_insert_eq, Ech. cbn. lia.
Qed.

Lemma handler_advances c c' : handleChannel cap ecap c = Some c' -> advances c c'.
Proof.
  unfold handleChannel, advances. destruct (st_handler c) as [|item rest|item ch rest|] eqn:Hh; [| | |done].
  - destruct (st_queue c) as [|cmd q]; [done|]. intros [= <-]. right. split; [done|].
    assert (st_handled (handle cap cmd (set_queue q c)) = st_handled c ++ [cmd]) as ->; [|rewrite length_app; cbn; lia].
    unfold handle. destruct cmd as [|ch|ch|x]; chan_cbn; [by destruct (close_subs _ _)|done| |done].
    destruct (index_of _ _); [|done]. by destruct (close_subs _ _).
  - destruct rest as [|ch rest]; intros [= <-]; left; (split; [done|]); left; unfold push, set_handler; chan_cbn; rewrite Hh; cbn; lia.
  - destruct (st_chans c !! ch); [|done]. destruct (_ <=? _)%nat; [|done]. intros [= <-]. left. split; [done|]. left.
    unfold set_handler. chan_cbn. rewrite Hh. cbn. lia.
Qed.

Lemma step_waits c c' : inv c -> step c c' -> waits c c' \/ advances c c'.
Proof.
  intros Hinv [ch Hch Hs|ch Hs|item Hs|Hs|i Hs|ch Hs|Hs].
  - left. unfold Subscribe in Hs. destruct (st_isClosed c); [done|]. injection Hs as <-. split; [done|]. split; [done|].
    unfold blocked. chan_cbn. destruct (st_handler c) as [|item rest|item y rest|] eqn:Hh; try done.
    destruct (decide (ch = y)) as [->|Hne]; [|by rewrite lookup_insert_ne]. exfalso.
    destruct (i_rest _ Hinv) as [_ Hsub]. rewrite Hh in Hsub. specialize (Hsub y ltac:(left)).
    pose proof (i_open _ Hinv) as Ho. rewrite Hh in Ho. apply (Ho eq_refl) in Hsub. unfold is_open in Hsub. by rewrite Hch in Hsub.
  - left. unfold Unsubscribe in Hs. destruct (st_isClosed c); [done|]. by injection Hs as <-.
  - left. unfold Publish in Hs. destruct (st_isClosed c); [done|]. by injection Hs as <-.
  - left. unfold Close in Hs. destruct (st_isClosed c); [done|]. by injection Hs as <-.
  - left. unfold send in Hs. destruct (st_calls c !! i); [|done]. by injection Hs as <-.
  - by eapply step_receive_waits.
  - right. by apply handler_advances.
Qed.

Lemma work_wf : well_founded work_lt.
Proof.
  eapply wf_incl; [|apply (wf_inverse_image _ _ (slexprod nat nat lt lt) (fun c => (hwork (st_handler c), blocked c)));
    apply wf_slexprod; apply lt_wf].
  intros c c' [Hlt|[E Hlt]]; [by apply left_slex|]. rewrite E. by apply right_slex.
Qed.

(** What was sent, handled and received stays so. *)
Definition grows (c c' : simpleChannel) : Prop :=
  history c `prefix_of` history c' /\ st_handled c `prefix_of` st_handled c' /\ forall ch, received ch c `prefix_of` received ch c'.

Lemma grows_refl c : grows c c.
Proof. by split; [|split]. Qed.

Lemma grows_trans c1 c2 c3 : grows c1 c2 -> grows c2 c3 -> grows c1 c3.
Proof. intros (H1 & H2 & H3) (K1 & K2 & K3). split; [|split]; [by rewrite H1|by rewrite H2|]. intros ch. by rewrite H3. Qed.

Lemma received_close chs c : forall ch m, m = (close_subs chs (st_chans c)).1 ->
  received ch c `prefix_of` match m !! ch with Some s => sc_received s | None => [] end.
Proof.
  intros ch m ->. unfold received. destruct (st_chans c !! ch) as [s0|] eqn:E0; [|apply prefix_nil].
  destruct (lookup_close_subs_is_Some chs (st_chans c) ch) as [s Hs]; [by eexists|]. rewrite Hs.
  destruct (lookup_close_subs chs _ _ _ Hs) as (s1 & E1 & _ & -> & _). rewrite E0 in E1. by injection E1 as <-.
Qed.

Lemma grows_handle cmd q c : st_queue c = cmd :: q -> grows c (handle cap cmd (set_queue q c)).
Proof.
  intros Hq. unfold grows, history. rewrite Hq.
  pose proof (received_close (st_subscribers c) c) as Hall.
  assert (forall ch, received ch c `prefix_of` received ch c) as Hrefl by done.
  destruct cmd as [|ch|ch|x]; unfold handle, set_queue; chan_cbn.
  - destruct (close_subs _ _) as [m ok]. chan_cbn. rewrite <- app_assoc. split; [done|]. split; [by apply prefix_app_r|].
    intros ch. by apply Hall.
  - rewrite <- app_assoc. split; [done|]. split; [by apply prefix_app_r|done].
  - pose proof (received_close [ch] c) as Hone. destruct (index_of ch (st_subscribers c)) as [i|]; [destruct (close_subs [ch] _) as [m ok]|];
      chan_cbn; rewrite <- app_assoc; (split; [done|]); (split; [by apply prefix_app_r|]); [|done]. intros y. by apply Hone.
  - rewrite <- app_assoc. split; [done|]. split; [by apply prefix_app_r|done].
Qed.

Lemma grows_step c c' : step c c' -> grows c c'.
Proof.
  intros [ch Hch Hs|ch Hs|item Hs|Hs|i Hs|ch Hs|Hs].
  - unfold Subscribe in Hs. destruct (st_isClosed c); [done|]. injection Hs as <-. split; [done|]. split; [done|].
    intros y. unfold received. chan_cbn. destruct (decide (ch = y)) as [->|Hne]; [by rewrite Hch, lookup_insert_eq|by rewrite lookup_insert_ne].
  - unfold Unsubscribe in Hs. destruct (st_isClosed c); [done|]. by injection Hs as <-.
  - unfold Publish in Hs. destruct (st_isClosed c); [done|]. by injection Hs as <-.
  - unfold Close in Hs. destruct (st_isClosed c); [done|]. by injection Hs as <-.
  - unfold send in Hs. destruct (st_calls c !! i) as [cmd|]; [|done]. injection Hs as <-. split; [|done].
    unfold history. chan_cbn. destruct (st_cmdClosed c); [done|]. rewrite app_assoc. by apply prefix_app_r.
  - unfold receive in Hs. destruct (st_chans c !! ch) as [[[|x queue] closed rcv]|] eqn:Ech; [done| |done]. injection Hs as <-.
    split; [done|]. split; [done|]. intros y. unfold received. chan_cbn. destruct (decide (ch = y)) as [->|Hne]; [|by rewrite lookup_insert_ne].
    rewrite Ech, lookup_insert_eq. cbn. by apply prefix_app_r.
  - unfold handleChannel in Hs. destruct (st_handler c) as [|item rest|item ch rest|] eqn:Hh; [| | |done].
    + destruct (st_queue c) as [|cmd q] eqn:Hq; [done|]. injection Hs as <-. by apply grows_handle.
    + destruct rest as [|ch rest]; injection Hs as <-; [done|]. split; [done|]. split; [done|]. intros y. unfold received, push. chan_cbn.
      destruct (decide (ch = y)) as [->|Hne]; [|by rewrite lookup_alter_ne]. rewrite lookup_alter_eq. by destruct (st_chans c !! y).
    + destruct (st_chans c !! ch); [|done]. destruct (_ <=? _)%nat; [|done]. by injection Hs as <-.
Qed.

(** ** Fair runs *)

(** The handler takes a step when it can, and every subscriber receives when there is something
    for it; clients may do anything. *)
Record fair_run (tr : nat -> simpleChannel) : Prop := {
  fr_start : reachable (tr 0%nat);
  fr_step : forall i, tr (Datatypes.S i) = tr i \/ step (tr i) (tr (Datatypes.S i));
  fr_handler : forall i c', handleChannel cap ecap (tr i) = Some c' ->
    exists j, (i <= j)%nat /\ handleChannel cap ecap (tr j) = Some (tr (Datatypes.S j));
  fr_receive : forall i ch c', receive ch (tr i) = Some c' ->
    exists j, (i <= j)%nat /\ receive ch (tr j) = Some (tr (Datatypes.S j));
}.

Section Fair.
Variable tr : nat -> simpleChannel.
Hypothesis Hfair : fair_run tr.

Lemma run_inv i : inv (tr i).
Proof.
  induction i as [|i IH]; [apply inv_reachable, Hfair|]. destruct (fr_step _ Hfair i) as [->|Hs]; [done|]. by eapply channel_inv_step.
Qed.

Lemma run_grows i j : (i <= j)%nat -> grows (tr i) (tr j).
Proof.
  induction 1 as [|j Hij IH]; [apply grows_refl|]. eapply grows_trans; [exact IH|].
  destruct (fr_step _ Hfair j) as [->|Hs]; [apply grows_refl|by apply grows_step].
Qed.

(** Up to any later time the handler was waiting, or there was a first step ahead. *)
Lemma run_waits i j : (i <= j)%nat -> waits (tr i) (tr j) \/ exists k, (i <= k)%nat /\ advances (tr i) (tr k).
Proof.
  induction 1 as [|j Hij IH]; [by left|]. destruct IH as [Hw|Hk]; [|by right].
  destruct (fr_step _ Hfair j) as [->|Hs]; [by left|]. destruct Hw as (E1 & E2 & E3).
  destruct (step_waits _ _ (run_inv j) Hs) as [(F1 & F2 & F3)|Ha].
  - left. split; [congruence|]. split; congruence.
  - right. exists (Datatypes.S j). split; [lia|]. unfold advances, work_lt in *. by rewrite <- E1, <- E2, <- E3.
Qed.

Lemma handler_ready c :
  inv c -> st_handler c <> HDone -> (st_handler c = HIdle -> st_queue c <> []) ->
  (exists c', handleChannel cap ecap c = Some c') \/
  exists item ch rest c', st_handler c = HBlocked item ch rest /\ receive ch c = Some c'.
Proof.
  intros Hinv Hd Hq. unfold handleChannel. destruct (st_handler c) as [|item rest|item ch rest|] eqn:Hh; [| | |done].
  - left. destruct (st_queue c); [by destruct (Hq eq_refl)|by eexists].
  - left. destruct rest; by eexists.
  - destruct (i_rest _ Hinv) as [_ Hsub]. rewrite Hh in Hsub. specialize (Hsub ch ltac:(left)).
    pose proof (i_open _ Hinv) as Ho. rewrite Hh in Ho. apply (Ho eq_refl) in Hsub. unfold is_open in Hsub.
    destruct (st_chans c !! ch) as [s|] eqn:Es; [|done]. destruct (Nat.leb_spec (length (sc_queue s)) ecap) as [Hle|Hgt]; [left; by eexists|].
    right. exists item, ch, rest. unfold receive. rewrite Es. destruct s as [[|x queue] closed rcv]; cbn in Hgt; [lia|]. by eexists.
Qed.

Lemma waits_advances c1 c2 c3 : waits c1 c2 -> advances c2 c3 -> advances c1 c3.
Proof. intros (E1 & E2 & E3). unfold advances, work_lt. by rewrite E1, E2, E3. Qed.

Lemma run_progress i :
  st_handler (tr i) <> HDone -> (st_handler (tr i) = HIdle -> st_queue (tr i) <> []) ->
  exists j, (i <= j)%nat /\ advances (tr i) (tr j).
Proof.
  intros Hd Hq. destruct (handler_ready _ (run_inv i) Hd Hq) as [(c' & Hc)|(item & ch & rest & c' & Hh & Hc)].
  - destruct (fr_handler _ Hfair _ _ Hc) as (j & Hij & Hj). destruct (run_waits i j Hij) as [Hw|(k & ? & ?)]; [|by exists k].
    exists (Datatypes.S j). split; [lia|]. eapply waits_advances; [exact Hw|by apply handler_advances].
  - destruct (fr_receive _ Hfair _ _ _ Hc) as (j & Hij & Hj). destruct (run_waits i j Hij) as [Hw|(k & ? & ?)]; [|by exists k].
    exists (Datatypes.S j). split; [lia|]. eapply waits_advances; [exact Hw|]. eapply receive_blocked; [|exact Hj].
    destruct Hw as (_ & E & _). by rewrite E.
Qed.

(** Every command up to the first that closes the channel is handled. *)
Lemma run_handles N i :
  (N <= length (history (tr i)))%nat -> closeCommand ∉ take (N - 1) (history (tr i)) ->
  exists j, (i <= j)%nat /\ (N <= length (st_handled (tr j)))%nat.
Proof.
  remember (N - length (st_handled (tr i)))%nat as d eqn:Ed. revert i Ed. induction (lt_wf d) as [d _ IHd]. intros i.
  remember (tr i) as c eqn:Ec. revert i Ec. induction (work_wf c) as [c _ IHc]. intros i -> -> HN Hcl.
  destruct (decide (N <= length (st_handled (tr i)))%nat) as [|Hlt]; [by exists i|].
  assert (st_handler (tr i) <> HDone) as Hd.
  { intros Hd. apply Hcl. destruct (i_done _ (run_inv i)) as [_ Hdone]. rewrite Hd in Hdone.
    unfold history. rewrite take_app_ge by lia. apply elem_of_app. left. by apply Hdone. }
  destruct (run_progress i Hd) as (j & Hij & Ha).
  { intros _ Hq. unfold history in HN. rewrite Hq, app_nil_r in HN. lia. }
  destruct (run_grows i j Hij) as (Hh & _ & _).
  assert (take (N - 1) (history (tr j)) = take (N - 1) (history (tr i))) as Et.
  { destruct Hh as [l ->]. by rewrite take_app_le by lia. }
  apply prefix_length in Hh.
  assert (exists k, (j <= k)%nat /\ (N <= length (st_handled (tr k)))%nat) as (k & Hjk & Hk); [|exists k; split; [lia|done]].
  destruct Ha as [[Eh Hw]|[_ Hl]].
  - eapply (IHc (tr j) Hw j); [done|by rewrite Eh|lia|by rewrite Et].
  - eapply (IHd (N - length (st_handled (tr j)))%nat); [lia|done|lia|by rewrite Et].
Qed.

Lemma expected_mono ch l l' : l `prefix_of` l' -> (expected ch l).2 `prefix_of` (expected ch l').2.
Proof.
  intros [k ->]. unfold expected. rewrite foldl_app. generalize (foldl (expect ch) (false, []) l) as s. induction k as [|cmd k IH]; [done|].
  intros s. cbn. etrans; [|apply IH]. destruct cmd; cbn; try case_decide; try done. destruct (s.1); [by apply prefix_app_r|done].
Qed.

Lemma prefix_shorter {A} (l1 l2 l : list A) :
  l1 `prefix_of` l -> l2 `prefix_of` l -> (length l1 <= length l2)%nat -> l1 `prefix_of` l2.
Proof.
  intros H1 H2 Hle. destruct (prefix_weak_total _ _ _ H1 H2) as [|Hp]; [done|]. by rewrite (prefix_length_eq _ _ Hp Hle).
Qed.

Lemma received_prefix ch c : inv c -> received ch c `prefix_of` (expected ch (st_handled c)).2.
Proof.
  intros Hinv. unfold received. destruct (st_chans c !! ch) as [s|] eqn:Es; [|apply prefix_nil].
  rewrite <- (i_items _ Hinv _ _ Es). by apply prefix_app_r.
Qed.

(** What a channel lacks is in its queue or in the hands of the handler. *)
Lemma lacking ch c :
  inv c -> (length (received ch c) < length (expected ch (st_handled c)).2)%nat ->
  (exists c', receive ch c = Some c') \/ (st_handler c <> HDone /\ st_handler c <> HIdle).
Proof.
  intros Hinv Hlt. unfold received in Hlt. destruct (st_chans c !! ch) as [s|] eqn:Es.
  - rewrite <- (i_items _ Hinv _ _ Es), !length_app in Hlt. destruct s as [[|x queue] closed rcv].
    + right. cbn in Hlt. by destruct (st_handler c); cbn in Hlt; [lia| | |lia].
    + left. unfold receive. rewrite Es. by eexists.
  - rewrite expected_unknown in Hlt; [cbn in Hlt; lia|]. intros Hin. destruct (i_known _ Hinv ch) as [s Hs]; [|by rewrite Es in Hs].
    rewrite sub_ids_app. apply elem_of_app. by left.
Qed.

Lemma receive_more ch c c' : receive ch c = Some c' -> length (received ch c') = Datatypes.S (length (received ch c)).
Proof.
  unfold receive, received. destruct (st_chans c !! ch) as [[[|x queue] closed rcv]|] eqn:Es; [done| |done]. intros [= <-]. chan_cbn.
  rewrite lookup_insert_eq. cbn. rewrite length_app. cbn. lia.
Qed.

Lemma run_receives ch E i :
  E `prefix_of` (expected ch (st_handled (tr i))).2 -> exists j, (i <= j)%nat /\ E `prefix_of` received ch (tr j).
Proof.
  remember (length E - length (received ch (tr i)))%nat as d eqn:Ed. revert i Ed. induction (lt_wf d) as [d _ IHd]. intros i.
  remember (tr i) as c eqn:Ec. revert i Ec. induction (work_wf c) as [c _ IHc]. intros i -> -> HE.
  destruct (decide (length E <= length (received ch (tr i)))%nat) as [Hle|Hlt].
  { exists i. split; [done|]. eapply prefix_shorter; [exact HE|by apply received_prefix, run_inv|done]. }
  assert (forall j, (i <= j)%nat -> E `prefix_of` (expected ch (st_handled (tr j))).2) as HEj.
  { intros j Hij. etrans; [exact HE|]. apply expected_mono. by destruct (run_grows i j Hij) as (_ & ? & _). }
  assert (forall j, (i <= j)%nat -> (length (received ch (tr i)) <= length (received ch (tr j)))%nat) as Hrj.
  { intros j Hij. apply prefix_length. by destruct (run_grows i j Hij) as (_ & _ & ?). }
  cut (exists j k, (i <= j)%nat /\ (j <= k)%nat /\ E `prefix_of` received ch (tr k)).
  { intros (j & k & ? & ? & ?). exists k. split; [lia|done]. }
  destruct (lacking ch _ (run_inv i)) as [(c' & Hc)|[Hd Hi]].
  - pose proof (prefix_length _ _ HE). lia.
  - destruct (fr_receive _ Hfair _ _ _ Hc) as (j & Hij & Hj). apply receive_more in Hj. specialize (Hrj j Hij).
    exists (Datatypes.S j). destruct (IHd (length E - length (received ch (tr (Datatypes.S j))))%nat ltac:(lia) _ eq_refl) as (k & ? & ?);
      [apply HEj; lia|]. exists k. split; [lia|done].
  - destruct (run_progress i Hd) as (j & Hij & [[_ Hw]|[? _]]); [done| |done]. exists j. specialize (Hrj j Hij).
    destruct (decide (length (received ch (tr i)) = length (received ch (tr j)))) as [Er|Hne].
    + destruct (IHc (tr j) Hw j eq_refl) as (k & ? & ?); [by rewrite Er|by apply HEj|by exists k].
    + destruct (IHd (length E - length (received ch (tr j)))%nat ltac:(lia) j eq_refl) as (k & ? & ?); [by apply HEj|by exists k].
Qed.

Lemma run_delivers h1 x h2 ch i :
  history (tr i) = h1 ++ publishCommand x :: h2 -> closeCommand ∉ h1 -> (expected ch h1).1 = true ->
  exists j, (i <= j)%nat /\ (expected ch h1).2 ++ [x] `prefix_of` received ch (tr j).
Proof.
  intros Eh Hcl Hsub. destruct (run_handles (Datatypes.S (length h1)) i) as (j & Hij & Hj).
  - rewrite Eh, length_app. cbn. lia.
  - rewrite Eh. cbn. rewrite Nat.sub_0_r. by rewrite take_app_length.
  - destruct (run_receives ch ((expected ch h1).2 ++ [x]) j) as (k & Hjk & Hk); [|exists k; split; [lia|done]].
    replace ((expected ch h1).2 ++ [x]) with (expected ch (h1 ++ [publishCommand x])).2; [|by rewrite expected_snoc; cbn; rewrite Hsub].
    apply expected_mono. destruct (run_grows i j Hij) as (Hp & _ & _). rewrite Eh in Hp.
    eapply (prefix_shorter _ _ (history (tr j))).
    + etrans; [|exact Hp]. exists h2. by rewrite <- app_assoc.
    + unfold history. by apply prefix_app_r.
    + rewrite length_app. cbn. lia.
Qed.
End Fair.

(** ** Panics, and a subscriber that does not read *)

Lemma step_no_panic c c' :
  inv c -> step c c' -> st_panic c = false -> is_done (st_handler c') = false -> st_panic c' = false.
Proof.
  intros Hinv Hs Hp Hd. destruct Hs as [ch _ Hs|ch Hs|item Hs|Hs|i Hs|ch Hs|Hs].
  1-4: unfold Subscribe, Unsubscribe, Publish, Close in Hs; destruct (st_isClosed c); [done|]; by injection Hs as <-.
  - unfold send in Hs. destruct (st_calls c !! i); [|done]. injection Hs as <-. cbn in *. rewrite Hp. cbn.
    destruct (i_done _ Hinv) as [<- _]. done.
  - unfold receive in Hs. destruct (st_chans c !! ch) as [[[|x queue] closed rcv]|]; [done| |done]. by injection Hs as <-.
  - unfold handleChannel in Hs. pose proof (i_open _ Hinv) as Ho. pose proof (i_rest _ Hinv) as [_ Hsub].
    destruct (st_handler c) as [|item rest|item ch rest|]; [| | |done].
    + destruct (st_queue c) as [|cmd q]; [done|]. injection Hs as <-. unfold handle, set_queue in *. chan_cbn.
      destruct cmd as [|ch|ch|x]; [by destruct (close_subs _ _)|done| |done]. cbn [close_subs].
      destruct (index_of ch (st_subscribers c)) as [k|] eqn:Ek; [|done]. chan_cbn. rewrite Hp. cbn.
      by rewrite (Ho eq_refl ch) by (eapply list_elem_of_lookup_2, index_of_Some, Ek).
    + destruct rest as [|ch rest]; injection Hs as <-; [done|]. unfold push. chan_cbn. rewrite Hp, (Ho eq_refl); [done|]. apply Hsub. left.
    + destruct (st_chans c !! ch); [|done]. destruct (_ <=? _)%nat; [|done]. by injection Hs as <-.
Qed.

Lemma step_done c c' : step c c' -> is_done (st_handler c) = true -> is_done (st_handler c') = true.
Proof.
  intros [ch _ Hs|ch Hs|item Hs|Hs|i Hs|ch Hs|Hs] Hd.
  1-4: unfold Subscribe, Unsubscribe, Publish, Close in Hs; destruct (st_isClosed c); [done|]; by injection Hs as <-.
  - unfold send in Hs. destruct (st_calls c !! i); [|done]. by injection Hs as <-.
  - unfold receive in Hs. destruct (st_chans c !! ch) as [[[|x queue] closed rcv]|]; [done| |done]. by injection Hs as <-.
  - unfold handleChannel in Hs. by destruct (st_handler c).
Qed.

Lemma reachable_no_panic c : reachable c -> closeCommand ∉ st_handled c -> st_panic c = false.
Proof.
  intros Hr Hcl. assert (is_done (st_handler c) = false) as Hd.
  { destruct (i_done _ (inv_reachable _ Hr)) as [_ Hdone]. destruct (is_done _); [|done]. by destruct Hcl; apply Hdone. }
  clear Hcl. induction Hr as [|c c' Hr IH Hs]; [done|]. eapply step_no_panic; [by apply inv_reachable|done| |done].
  apply IH. destruct (is_done (st_handler c)) eqn:E; [|done]. by rewrite (step_done _ _ Hs E) in Hd.
Qed.

(** Steps other than the receives of one subscriber. *)
Inductive ignoring (ch : nat) : simpleChannel -> simpleChannel -> Prop :=
  | ignoring_refl c : ignoring ch c c
  | ignoring_step c c' c'' : ignoring ch c c' -> step c' c'' -> receive ch c' <> Some c'' -> ignoring ch c c''.

Lemma ignored_blocks item ch rest c c' :
  inv c -> st_handler c = HBlocked item ch rest -> (ecap < blocked c)%nat -> ignoring ch c c' -> inv c' /\ waits c c'.
Proof.
  intros Hinv Hh Hb. induction 1 as [c|c c' c'' _ IH Hs Hne]; [done|]. destruct (IH Hinv Hh Hb) as [Hinv' (E1 & E2 & E3)].
  split; [by eapply channel_inv_step|]. destruct (step_waits _ _ Hinv' Hs) as [(F1 & F2 & F3)|Ha]; [split; [|split]; congruence|].
  exfalso. destruct Hs as [y Hy Hs|y Hs|x Hs|Hs|i Hs|y Hs|Hs].
  1-5: assert (st_handler c'' = st_handler c' /\ st_handled c'' = st_handled c' /\ (blocked c' <= blocked c'')%nat) as (F1 & F2 & F3);
    [|destruct Ha as [[_ [Hw|[_ Hw]]]|[Hi _]]; rewrite ?F1 in *; [lia|lia|congruence]].
  - unfold Subscribe in Hs. destruct (st_isClosed c'); [done|]. injection Hs as <-. split; [done|]. split; [done|].
    unfold blocked. chan_cbn. rewrite E2, Hh. destruct (decide (y = ch)) as [->|Hyc]; [by rewrite Hy; lia|by rewrite lookup_insert_ne].
  - unfold Unsubscribe in Hs. destruct (st_isClosed c'); [done|]. by injection Hs as <-.
  - unfold Publish in Hs. destruct (st_isClosed c'); [done|]. by injection Hs as <-.
  - unfold Close in Hs. destruct (st_isClosed c'); [done|]. by injection Hs as <-.
  - unfold send in Hs. destruct (st_calls c' !! i); [|done]. by injection Hs as <-.
  - destruct (decide (y = ch)) as [->|Hyc]; [by apply Hne|]. unfold receive in Hs.
    destruct (st_chans c' !! y) as [[[|x queue] closed rcv]|] eqn:Ey; [done| |done]. injection Hs as <-.
    destruct Ha as [[_ [Hw|[_ Hw]]]|[Hi _]]; cbn in *; [lia| |congruence].
    unfold blocked in Hw. chan_cbn. cbn in Hw. rewrite E2, Hh, lookup_insert_ne in Hw by done. lia.
  - unfold handleChannel in Hs. unfold blocked in E3, Hb. rewrite E2, Hh in *. cbn in E3.
    destruct (st_chans c' !! ch) as [s|]; [|lia]. destruct (Nat.leb_spec (length (sc_queue s)) ecap); [lia|done].
Qed.

End Channel.

Arguments command : clear implicits.
Arguments hstate : clear implicits.
Arguments subscription : clear implicits.
Arguments simpleChannel : clear implicits.

(** ** Publishers (events/publisher.go, db/subscriptions.go) *)

Section Subscriptions.
Context {Event Doc : Type}.

(** What a client gets: [client.GQLResult]. *)
Inductive GQLResult :=
  | Data (docs : list Doc)
  | Errors (e : error).

(** The stream of a client and whether its subscription was given up. *)
Record Publisher := mkPublisher {
  p_event : nat;
  p_stream : list GQLResult;
  p_closed : bool;
  p_unsubscribed : bool;
}.

Definition ErrSubscribedToClosedChan : error := ErrNew "cannot subscribe to a closed channel".

Definition NewPublisher {T} (ch : nat) : M (simpleChannel T) Publisher := fun c =>
  match Subscribe ch c with
  | None => (c, Err ErrSubscribedToClosedChan)
  | Some c' => (c', Ok (mkPublisher ch [] false false))
  end.

(** [p.ch.Unsubscribe(p.event)] and [close(p.stream)]; a stream that is closed twice panics. *)
Definition Publisher_Unsubscribe : M Publisher unit := fun p =>
  if p.(p_closed) then (mkPublisher p.(p_event) p.(p_stream) true true, Panic)
  else (mkPublisher p.(p_event) p.(p_stream) true true, Ok tt).

(** The send to the stream is chosen when there is room before the timeout; to a closed stream
    it panics. *)
Definition Publisher_Publish (timeout : bool) (data : GQLResult) : M Publisher unit := fun p =>
  if p.(p_closed) then (p, Panic)
  else if timeout then Publisher_Unsubscribe p
  else (mkPublisher p.(p_event) (p.(p_stream) ++ [data]) p.(p_closed) p.(p_unsubscribed), Ok tt).

(** The transaction and the request of an event. *)
Variable NewTxn : Event -> result unit.
Variable RunSubscriptionRequest : Event -> result (list Doc).

(** What is published for an event, if anything. *)
Definition published (evt : Event) : option GQLResult :=
  match NewTxn evt with
  | Ok _ =>
      match RunSubscriptionRequest evt with
      | Ok [] => None
      | Ok docs => Some (Data docs)
      | Err e => Some (Errors e)
      | Panic => None
      end
  | _ => None
  end.

(** The loop over the events, each with whether the client would time out. *)
Fixpoint handleSubscription (evts : list (Event * bool)) : M Publisher unit :=
  match evts with
  | [] => mret tt
  | (evt, timeout) :: evts =>
      match NewTxn evt with
      | Panic => mpanic
      | Err _ => handleSubscription evts
      | Ok _ =>
          match RunSubscriptionRequest evt with
          | Panic => mpanic
          | Err e => let* _ := Publisher_Publish timeout (Errors e) in handleSubscription evts
          | Ok [] => handleSubscription evts
          | Ok docs => let* _ := Publisher_Publish timeout (Data docs) in handleSubscription evts
          end
      end
  end.

Hypothesis NewTxn_returns : forall evt, NewTxn evt <> Panic.
Hypothesis Run_returns : forall evt, RunSubscriptionRequest evt <> Panic.

Lemma handleSubscription_cons evt timeout evts p :
  handleSubscription ((evt, timeout) :: evts) p =
  match published evt with
  | None => handleSubscription evts p
  | Some data => (let* _ := Publisher_Publish timeout data in handleSubscription evts) p
  end.
Proof.
  cbn. unfold published. pose proof (NewTxn_returns evt). pose proof (Run_returns evt).
  destruct (NewTxn evt); [|done|done]. by destruct (RunSubscriptionRequest evt) as [[]| |].
Qed.

(** Events of which nothing is published pass by. *)
Lemma handleSubscription_silent evts p :
  omap (fun '(evt, _) => published evt) evts = [] -> handleSubscription evts p = (p, Ok tt).
Proof.
  induction evts as [|[evt timeout] evts IH]; [done|]. rewrite handleSubscription_cons. cbn. by destruct (published evt).
Qed.

Lemma handleSubscription_sends evts rest p :
  Forall (fun e => e.2 = false) evts -> p_closed p = false ->
  handleSubscription (evts ++ rest) p =
  handleSubscription rest (mkPublisher p.(p_event) (p.(p_stream) ++ omap (fun '(evt, _) => published evt) evts) false p.(p_unsubscribed)).
Proof.
  intros Hall. revert p. induction Hall as [|[evt timeout] evts Ht _ IH]; intros p Hp.
  - cbn. rewrite app_nil_r. by destruct p; cbn in *; subst.
  - cbn in Ht. subst timeout. cbn [app]. rewrite handleSubscription_cons. cbn. destruct (published evt) as [data|]; [|by rewrite IH].
    unfold mbind, Publisher_Publish. rewrite Hp, IH by done. cbn. by rewrite <- app_assoc.
Qed.

Lemma handleSubscription_closed evts p :
  p_closed p = true -> omap (fun '(evt, _) => published evt) evts <> [] -> handleSubscription evts p = (p, Panic).
Proof.
  intros Hp. induction evts as [|[evt timeout] evts IH]; [done|]. rewrite handleSubscription_cons. cbn.
  destruct (published evt) as [data|]; [|by apply IH]. intros _. unfold mbind, Publisher_Publish. by rewrite Hp.
Qed.
End Subscriptions.

(** ** A run *)

Module EventRun.

Inductive action := ASubscribe (ch : nat) | APublish (x : nat) | AClose | ASend (i : nat) | AReceive (ch : nat) | AHandle.

Definition act (cap ecap : nat) (a : action) (c : simpleChannel nat) : option (simpleChannel nat) :=
  match a with
  | ASubscribe ch => if decide (st_chans c !! ch = None) then Subscribe ch c else None
  | APublish x => Publish x c
  | AClose => Close c
  | ASend i => send i c
  | AReceive ch => receive ch c
  | AHandle => handleChannel cap ecap c
  end.

Fixpoint acts (cap ecap : nat) (l : list action) (c : simpleChannel nat) : option (simpleChannel nat) :=
  match l with [] => Some c | a :: l => match act cap ecap a c with Some c' => acts cap ecap l c' | None => None end end.

Lemma act_step cap ecap a c c' : act cap ecap a c = Some c' -> step cap ecap c c'.
Proof.
  destruct a; cbn; intros Hc.
  - case_decide; [|done]. by eapply step_Subscribe.
  - by eapply step_Publish.
  - by apply step_Close.
  - by eapply step_send.
  - by eapply step_receive.
  - by apply step_handler.
Qed.

Lemma acts_reachable cap ecap l c c' : reachable cap ecap c -> acts cap ecap l c = Some c' -> reachable cap ecap c'.
Proof.
  revert c. induction l as [|a l IH]; intros c Hr; cbn; [by intros [= <-]|]. destruct (act cap ecap a c) eqn:E; [|done].
  apply IH. eapply reachable_step; [exact Hr|by eapply act_step].
Qed.

(** A subscription and an item, with the buffers of the database: 0 commands and 100 events. *)
Definition script : list action :=
  [ASubscribe 0; ASend 0; AHandle; APublish 7; ASend 0; AHandle; AHandle; AHandle; AHandle; AReceive 0].

Definition trace (i : nat) : simpleChannel nat := default NewSimpleChannel (acts 0 100 (take i script) NewSimpleChannel).

Lemma trace_end i : trace (10 + i) = trace 10.
Proof. unfold trace. by rewrite !take_ge by (cbn; lia). Qed.

Lemma trace_case (P : nat -> Prop) : (forall i, (i < 10)%nat -> P i) -> (forall i, P (10 + i)%nat) -> forall i, P i.
Proof. intros H1 H2 i. destruct (decide (i < 10)%nat); [by apply H1|]. replace i with (10 + (i - 10))%nat by lia. apply H2. Qed.

Lemma trace_chans ch i : ch <> 0%nat -> st_chans (trace i) !! ch = None.
Proof.
  intros Hch. revert i.
  assert (st_chans (trace 10) !! ch = None) as H10.
  { change (st_chans (trace 10)) with ({[0%nat := mkSubscription [] false [7%nat]]} : gmap nat (subscription nat)). by rewrite lookup_singleton_ne. }
  apply trace_case; [|intros i; by rewrite trace_end].
  intros i Hi. destruct i as [|i]; [done|].
  assert (exists s, st_chans (trace (Datatypes.S i)) = {[0%nat := s]}) as [s ->]; [|by rewrite lookup_singleton_ne].
  do 9 (destruct i as [|i]; [vm_compute; by eexists|]). lia.
Qed.

Lemma trace_fair : fair_run 0 100 trace.
Proof.
  split.
  - constructor.
  - apply trace_case; [|intros i; left; by rewrite <- Nat.add_succ_r, !trace_end]. intros i Hi. right.
    assert (exists a, act 0 100 a (trace i) = Some (trace (Datatypes.S i))) as [a Ha]; [|by eapply act_step].
    exists (default AHandle (script !! i)). do 10 (destruct i as [|i]; [by vm_compute|]). lia.
  - apply (trace_case (fun i => forall c', _ -> exists j, (i <= j)%nat /\ _)).
    + intros i Hi c' Hc. destruct (decide (i <= 8)%nat) as [Hle|Hgt]; [exists 8%nat; split; [done|by vm_compute]|].
      replace i with 9%nat in Hc by lia. by vm_compute in Hc.
    + intros i c'. rewrite trace_end. replace (handleChannel 0 100 (trace 10)) with (@None (simpleChannel nat)) by by vm_compute. done.
  - intros i ch. destruct (decide (ch = 0%nat)) as [->|Hch]; [|unfold receive; by rewrite trace_chans]. revert i.
    apply (trace_case (fun i => forall c', _ -> exists j, (i <= j)%nat /\ _)).
    + intros i Hi c' Hc. exists 9%nat. split; [lia|by vm_compute].
    + intros i c'. rewrite trace_end. replace (receive 0 (trace 10)) with (@None (simpleChannel nat)) by by vm_compute. done.
Qed.

(** Without a buffer of events, the handler is blocked until the item is received. *)
Definition stuck_script : list action := [ASubscribe 0; ASend 0; AHandle; APublish 7; ASend 0; AHandle; AHandle].

End EventRun.

(** ** The channel of events *)

(** C15: In every interleaving of calls, of the handler and of subscribers, what a subscriber
    received, what waits for it and what the handler still has for it are, in this order, the
    items of the publish commands handled while it was subscribed, each once; while no [Close]
    was handled nothing panics, and after it every call that still has to send its command
    does. *)
Theorem events_exactly_once {T} cap ecap (c : simpleChannel T) :
  reachable cap ecap c ->
  (forall ch s, st_chans c !! ch = Some s ->
    s.(sc_received) ++ s.(sc_queue) ++ in_flight ch c.(st_handler) = (expected ch c.(st_handled)).2) /\
  (closeCommand ∉ st_handled c -> st_panic c = false) /\
  (closeCommand ∈ st_handled c -> forall i c', send i c = Some c' -> st_panic c' = true).
Proof.
  intros Hr. pose proof (inv_reachable cap ecap _ Hr) as Hinv. split; [by apply i_items|]. split; [by apply (reachable_no_panic cap ecap)|].
  intros Hcl i c'. destruct (i_done _ Hinv) as [Hd Hiff]. apply Hiff in Hcl. unfold send. rewrite <- Hd, Hcl.
  destruct (st_calls c !! i); [|done]. intros [= <-]. cbn. apply orb_true_r.
Qed.

Lemma events_exactly_once_witness :
  st_panic (EventRun.trace 10) = false /\
  [7%nat] ++ [] ++ in_flight 0 (st_handler (EventRun.trace 10)) = (expected 0 (st_handled (EventRun.trace 10))).2.
Proof.
  destruct (events_exactly_once 0 100 (EventRun.trace 10)) as (Hitems & Hpanic & _).
  - apply (EventRun.acts_reachable 0 100 EventRun.script NewSimpleChannel); [constructor|by vm_compute].
  - split; [apply Hpanic; vm_compute; set_solver|].
    apply (Hitems 0%nat (mkSubscription [] false [7%nat])). by vm_compute.
Defined.

(** C16: When the handler and the subscribers are given their turns, every item whose command was
    sent before a [Close] arrives at every subscriber of that time, after the items before it,
    whatever clients do meanwhile and however small the buffers are. *)
Theorem events_delivered {T} cap ecap (tr : nat -> simpleChannel T) h1 x h2 ch i :
  fair_run cap ecap tr ->
  history (tr i) = h1 ++ publishCommand x :: h2 -> closeCommand ∉ h1 -> (expected ch h1).1 = true ->
  exists j, (i <= j)%nat /\ (expected ch h1).2 ++ [x] `prefix_of` received ch (tr j).
Proof. intros Hfair. by apply (run_delivers cap ecap tr Hfair). Qed.

Lemma events_delivered_witness : exists j, (5 <= j)%nat /\ [7%nat] `prefix_of` received 0 (EventRun.trace j).
Proof.
  apply (events_delivered 0 100 EventRun.trace [subscribeCommand 0] 7%nat [] 0 5).
  - exact EventRun.trace_fair.
  - by vm_compute.
  - set_solver.
  - by vm_compute.
Defined.

(** A subscriber that stops reading stops the whole channel: once the handler is blocked in a
    send to it, no steps other than its own receives make the handler take another command,
    the command that unsubscribes it included; beyond the buffer of commands, calls do not
    return.  So [Publisher.Unsubscribe], called by the only reader of the subscription, waits
    for itself. *)
Theorem slow_subscriber_blocks {T} cap ecap (c c' : simpleChannel T) item ch rest :
  reachable cap ecap c -> st_handler c = HBlocked item ch rest -> (ecap < blocked c)%nat -> ignoring cap ecap ch c c' ->
  st_handled c' = st_handled c /\ st_handler c' = st_handler c /\ handleChannel cap ecap c' = None.
Proof.
  intros Hr Hh Hb Hi. apply inv_reachable in Hr. destruct (ignored_blocks cap ecap _ _ _ _ _ Hr Hh Hb Hi) as [_ (E1 & E2 & E3)].
  split; [done|]. split; [done|]. unfold handleChannel. unfold blocked in E3, Hb. rewrite E2, Hh in *.
  destruct (st_chans c' !! ch) as [s|]; [|done]. destruct (Nat.leb_spec (length (sc_queue s)) ecap); [lia|done].
Qed.

Lemma slow_subscriber_blocks_witness :
  let c := default NewSimpleChannel (EventRun.acts 0 0 EventRun.stuck_script NewSimpleChannel) in
  let c' := default c (send 0 (default c (Unsubscribe 0 c))) in
  st_queue c' = [unsubscribeCommand 0] /\ handleChannel 0 0 c' = None.
Proof.
  intros c c'. split; [by vm_compute|]. apply (slow_subscriber_blocks 0 0 c c' 7%nat 0 []).
  - apply (EventRun.acts_reachable 0 0 EventRun.stuck_script NewSimpleChannel); [constructor|by vm_compute].
  - by vm_compute.
  - vm_compute. lia.
  - eapply ignoring_step; [eapply ignoring_step; [constructor| |]| |].
    + apply (step_Unsubscribe 0 0 c (default c (Unsubscribe 0 c)) 0). by vm_compute.
    + by vm_compute.
    + apply (step_send 0 0 _ c' 0). by vm_compute.
    + by vm_compute.
Defined.

(** There are such calls: [Publish] tests [isClosed] before its send and not with it: whatever the buffers, a [Close]
    that is handled in between makes the send panic. *)
Lemma publish_race_panics {T} cap ecap (x : T) :
  exists c c' : simpleChannel T, reachable cap ecap c /\ st_calls c = [publishCommand x] /\ st_panic c = false /\ send 0 c = Some c' /\ st_panic c' = true.
Proof.
  do 2 eexists. split; [eapply reachable_step; [eapply reachable_step; [eapply reachable_step; [eapply reachable_step; [apply reachable_new|]|]|]|]|].
  - by apply (step_Publish cap ecap _ _ x).
  - by apply (step_Close cap ecap).
  - by apply (step_send cap ecap _ _ 1).
  - by apply (step_handler cap ecap).
  - by repeat split.
Qed.

(** As long as the client reads in time, a subscription streams the results of its events in
    their order: the documents unless there are none, or the error.  A timeout closes the
    stream and gives the subscription up, and then the next event that has a result makes the
    loop panic on the closed stream. *)
Theorem subscription_stream {Event Doc} (NewTxn : Event -> result unit) (Run : Event -> result (list Doc)) evts p :
  (forall evt, NewTxn evt <> Panic) -> (forall evt, Run evt <> Panic) ->
  Forall (fun e => e.2 = false) evts -> p_closed p = false ->
  let results := omap (fun '(evt, _) => published NewTxn Run evt) in
  handleSubscription NewTxn Run evts p =
    (mkPublisher p.(p_event) (p.(p_stream) ++ results evts) false p.(p_unsubscribed), Ok tt) /\
  forall evt data rest, published NewTxn Run evt = Some data ->
    handleSubscription NewTxn Run (evts ++ (evt, true) :: rest) p =
      (mkPublisher p.(p_event) (p.(p_stream) ++ results evts) true true, if results rest is [] then Ok tt else Panic).
Proof.
  intros HT HR Hall Hp results. split.
  - rewrite <- (app_nil_r evts) at 1. by rewrite handleSubscription_sends.
  - intros evt data rest Hd. rewrite handleSubscription_sends, handleSubscription_cons, Hd by done.
    unfold mbind, Publisher_Publish, Publisher_Unsubscribe. cbn. destruct (results rest) eqn:Er.
    + by rewrite handleSubscription_silent.
    + rewrite handleSubscription_closed; [done|done|done|done|]. fold results. by rewrite Er.
Qed.

Lemma subscription_stream_witness :
  handleSubscription (fun _ : nat => Ok tt) (fun n => Ok (repeat n n)) [(2, false); (0, false); (1, true); (1, false)]%nat
    (mkPublisher 0 [] false false) = (mkPublisher 0 [Data [2; 2]%nat] true true, Panic).
Proof.
  apply (subscription_stream (fun _ : nat => Ok tt) (fun n => Ok (repeat n n)) [(2, false); (0, false)]%nat (mkPublisher 0 [] false false))
    with (evt := 1%nat) (data := Data [1%nat]) (rest := [(1%nat, false)]); try done.
  by repeat constructor.
Defined.
