(* ===== verification/Topics.v ===== *)
(** * Topics of a peer (net/server.go)

    The topics of the pubsub network that a peer has joined, by name, with whether it is
    subscribed to them or only publishes.  The pubsub library is a parameter: joining and
    leaving a topic can fail. *)

From S2P Require Import Prelude Store.

(** [rpc.NewTopic] and [Topic.Close]. *)
Class PubSub := {
  NewTopic : string -> bool -> result unit;
  Topic_Close : string -> result unit;
  NewTopic_returns : forall t b, NewTopic t b <> Panic;
  Topic_Close_returns : forall t, Topic_Close t <> Panic;
}.

Section Topics.
Context `{PubSub}.

Local Abbreviation topics := (gmap string bool).

(** Whether the peer runs with a pubsub network ([s.peer.ps != nil]). *)
Variable ps : bool.

Definition get_topics : M topics topics := fun t => (t, Ok t).
Definition set_topics (t : topics) : M topics unit := fun _ => (t, Ok tt).

Definition addPubSubTopic (topic : string) (subscribe : bool) : M topics unit :=
  if negb ps then mret tt
  else
    let* topics := get_topics in
    let* joined :=
      match topics !! topic with
      | Some subscribed =>
          if negb subscribed && subscribe then let* _ := mlift (Topic_Close topic) in mret false else mret true
      | None => mret false
      end in
    if (joined : bool) then mret tt
    else
      let* _ := mlift (NewTopic topic subscribe) in
      set_topics (<[topic := subscribe]> topics).

Definition hasPubSubTopic (topic : string) : M topics bool :=
  let* topics := get_topics in mret (bool_decide (is_Some (topics !! topic))).

Definition removePubSubTopic (topic : string) : M topics unit :=
  if negb ps then mret tt
  else
    let* topics := get_topics in
    match topics !! topic with
    | Some _ => let* _ := set_topics (delete topic topics) in mlift (Topic_Close topic)
    | None => mret tt
    end.

(** The loop over the map, in some order of its entries. *)
Fixpoint removeTopics (order : list string) : M topics unit :=
  match order with
  | [] => mret tt
  | id :: order => let* topics := get_topics in let* _ := set_topics (delete id topics) in let* _ := mlift (Topic_Close id) in removeTopics order
  end.

Definition removeAllPubsubTopics (order : list string) : M topics unit := if negb ps then mret tt else removeTopics order.

(** ** Behaviour *)

(** After a success the topic is joined, and subscribed to if it was or is to be; no other topic
    is concerned.  After a failure nothing has changed. *)
Lemma addPubSubTopic_spec topic subscribe t t' r :
  ps = true -> addPubSubTopic topic subscribe t = (t', r) ->
  match r with
  | Ok _ => t' = <[topic := default false (t !! topic) || subscribe]> t
  | _ => t' = t
  end.
Proof.
  intros Hps. unfold addPubSubTopic. rewrite Hps. unfold get_topics, set_topics, mbind, mret, mlift. cbn.
  destruct (t !! topic) as [[]|] eqn:E; cbn.
  - intros [= <- <-]. by rewrite insert_id.
  - destruct subscribe; cbn.
    + destruct (Topic_Close topic) as [[]| |]; [|by intros [= <- <-]..]. destruct (NewTopic topic true) as [[]| |]; by intros [= <- <-].
    + intros [= <- <-]. by rewrite insert_id.
  - destruct (NewTopic topic subscribe) as [[]| |]; by intros [= <- <-].
Qed.

Lemma addPubSubTopic_returns topic subscribe t : (addPubSubTopic topic subscribe t).2 <> Panic.
Proof.
  unfold addPubSubTopic, get_topics, set_topics, mbind, mret, mlift. destruct ps; [|done]. cbn.
  pose proof (NewTopic_returns topic subscribe). pose proof (Topic_Close_returns topic).
  destruct (t !! topic) as [[]|]; [done| |by destruct (NewTopic topic subscribe)]. destruct subscribe; [|done]. cbn.
  destruct (Topic_Close topic); [|done|done]. by destruct (NewTopic topic true).
Qed.

Lemma removePubSubTopic_spec topic t t' r : ps = true -> removePubSubTopic topic t = (t', r) -> t' = delete topic t.
Proof.
  intros Hps. unfold removePubSubTopic. rewrite Hps. unfold get_topics, set_topics, mbind, mret, mlift. cbn.
  destruct (t !! topic) eqn:E; intros [= <- <-]; [done|]. by rewrite delete_id.
Qed.

Lemma removePubSubTopic_returns topic t : (removePubSubTopic topic t).2 <> Panic.
Proof.
  unfold removePubSubTopic, get_topics, set_topics, mbind, mret, mlift. destruct ps; [|done]. cbn.
  pose proof (Topic_Close_returns topic). by destruct (t !! topic).
Qed.
End Topics.
