(* ===== verification/Replicators.v ===== *)
(** * Replicators and subscribed collections in the system store (db/replicator.go,
    db/p2p_collection.go)

    A replicator is a peer with the schemas of the collections that are pushed to it.  The
    operations run in a transaction, but some of their reads go to the store outside of it:
    the state is the pair of the two. *)

From S2P Require Import Prelude GoStd Keys Store MultiStore Crdt Clock Desc Schema Fetcher.

(** [peer.AddrInfo] and [client.Replicator]. *)
Record AddrInfo := mkAddrInfo { ai_ID : string; ai_Addrs : list string }.
Record Replicator := mkReplicator { rep_Info : AddrInfo; rep_Schemas : list string }.

#[global] Instance AddrInfo_eq_dec : EqDecision AddrInfo.
Proof. solve_decision. Defined.
#[global] Instance Replicator_eq_dec : EqDecision Replicator.
Proof. solve_decision. Defined.

(** [json.Marshal] and [json.Unmarshal] of a replicator; [info_ok] are the addresses that are
    read back, and schema ids that are text without escapes are. *)
Class ReplicatorCodec := {
  rep_Marshal : Replicator -> result bytes;
  rep_Unmarshal : bytes -> result Replicator;
  info_ok : AddrInfo -> bool;
  schema_ok : string -> bool;
  rep_roundtrip : forall rep, info_ok rep.(rep_Info) = true -> forallb schema_ok rep.(rep_Schemas) = true ->
    exists b, rep_Marshal rep = Ok b /\ rep_Unmarshal b = Ok rep;
}.

Section Replicators.
Context {S : Type} `{MultiStore S} `{DsKey} `{DescCodec} `{!ReplicatorCodec}.

(** The store of the database is the first of the pair and that of the transaction the second. *)
Local Abbreviation T := (S * S)%type.

Definition in_txn {A} (m : M S A) : M T A := fun st => let '(t, r) := m st.2 in ((st.1, t), r).

Definition sys_Delete (k : string) : M S unit := @ds_Delete S (store_of NSystem) k.

Definition repKey (id : string) : string := ToDS (NewReplicatorKey id).

Definition getReplicator (info : AddrInfo) : M T Replicator :=
  let* value := on_store (sys_Get (repKey info.(ai_ID))) in
  mlift (rep_Unmarshal value).

Definition saveReplicator (rep : Replicator) : M T unit :=
  let* repBytes := mlift (rep_Marshal rep) in
  in_txn (sys_Put (repKey rep.(rep_Info).(ai_ID)) repBytes).

(** The schemas of the second list that are not in the first. *)
Definition newSchemas (existing schemas : list string) : list string := List.filter (fun s => bool_decide (s ∉ existing)) schemas.

Definition setReplicator (rep : Replicator) : M T unit :=
  let* r := mtry (getReplicator rep.(rep_Info)) in
  match r with
  | inr err => if errors_Is err ErrNotFound then saveReplicator rep else mfail err
  | inl existingRep =>
      saveReplicator (mkReplicator rep.(rep_Info) (existingRep.(rep_Schemas) ++ newSchemas existingRep.(rep_Schemas) rep.(rep_Schemas)))
  end.

Definition deleteReplicatorKey (pid : string) : M T unit := in_txn (sys_Delete (repKey pid)).

Definition deleteSchemasForReplicator (rep : Replicator) : M T unit :=
  let* existingRep := getReplicator rep.(rep_Info) in
  match newSchemas rep.(rep_Schemas) existingRep.(rep_Schemas) with
  | [] => deleteReplicatorKey rep.(rep_Info).(ai_ID)
  | updatedSchemaList => saveReplicator (mkReplicator existingRep.(rep_Info) updatedSchemaList)
  end.

Definition deleteReplicator (rep : Replicator) : M T unit :=
  match rep.(rep_Schemas) with [] => deleteReplicatorKey rep.(rep_Info).(ai_ID) | _ => deleteSchemasForReplicator rep end.

(** The loop over the results; an error of a result comes with an empty value. *)
Fixpoint collectReplicators (es : list entry) (reps : list Replicator) : result (list Replicator) :=
  match es with
  | [] => Ok reps
  | Panic :: _ => Panic
  | Err _ :: es => let! rep := rep_Unmarshal "" in collectReplicators es (reps ++ [rep])
  | Ok (_, value) :: es => let! rep := rep_Unmarshal value in collectReplicators es (reps ++ [rep])
  end.

Definition getAllReplicators : M T (list Replicator) :=
  let* results := in_txn (sys_Query (ReplicatorKey_ToString (NewReplicatorKey ""))) in
  mlift (collectReplicators results []).

(** ** Collections that the peer subscribes to *)

Definition p2p_marker : bytes := String (byte_of 255) "".

Definition addP2PCollection (collectionID : string) : M T unit :=
  let* _ := wrap_err "cannot add collection ID" (in_txn (getCollectionBySchemaID collectionID)) in
  in_txn (sys_Put (ToDS (NewP2PCollectionKey collectionID)) p2p_marker).

Definition removeP2PCollection (collectionID : string) : M T unit :=
  let* _ := wrap_err "cannot remove collection ID" (in_txn (getCollectionBySchemaID collectionID)) in
  in_txn (sys_Delete (ToDS (NewP2PCollectionKey collectionID))).

(** An error of a result comes with an empty key. *)
Fixpoint collectP2P (es : list entry) (ids : list string) : result (list string) :=
  match es with
  | [] => Ok ids
  | Panic :: _ => Panic
  | Err _ :: es => let! key := NewP2PCollectionKeyFromString "" in collectP2P es (ids ++ [key.(P2P_CollectionID)])
  | Ok (k, _) :: es => let! key := NewP2PCollectionKeyFromString k in collectP2P es (ids ++ [key.(P2P_CollectionID)])
  end.

Definition getAllP2PCollections : M T (list string) :=
  let* results := on_store (sys_Query (P2PCollectionKey_ToString (NewP2PCollectionKey ""))) in
  mlift (collectP2P results []).
End Replicators.

(** ** Replicators as a map *)

Section ReplicatorSpec.
Context {S : Type} `{LawfulMultiStore S} `{DsKey} `{DescCodec} `{!ReplicatorCodec}.

Local Abbreviation V := (namespace -> contents).

(** A run over the two stores. *)
Definition psteps {A} (m : M (S * S) A) (s t : S) (Vs Vt : V) (r : result A) : Prop :=
  (m (s, t)).2 = r /\ (forall n, views (m (s, t)).1.1 n = Vs n) /\ (forall n, views (m (s, t)).1.2 n = Vt n).

Lemma psteps_bind {A B} (m : M (S * S) A) (k : A -> M (S * S) B) s t Vs Vt x Vs' Vt' r :
  psteps m s t Vs Vt (Ok x) ->
  (forall s1 t1, (forall n, views s1 n = Vs n) -> (forall n, views t1 n = Vt n) -> psteps (k x) s1 t1 Vs' Vt' r) ->
  psteps (mbind m k) s t Vs' Vt' r.
Proof. unfold psteps, mbind. destruct (m (s, t)) as [[s1 t1] r1]. cbn. intros (-> & E1 & E2) Hk. by apply Hk. Qed.

Lemma psteps_bind_err {A B} (m : M (S * S) A) (k : A -> M (S * S) B) s t Vs Vt e :
  psteps m s t Vs Vt (Err e) -> psteps (mbind m k) s t Vs Vt (Err e).
Proof. unfold psteps, mbind. destruct (m (s, t)) as [[s1 t1] r1]. cbn. by intros (-> & E1 & E2). Qed.

Lemma psteps_try_ok {A} (m : M (S * S) A) s t Vs Vt x : psteps m s t Vs Vt (Ok x) -> psteps (mtry m) s t Vs Vt (Ok (inl x)).
Proof. unfold psteps, mtry. destruct (m (s, t)) as [[s1 t1] r1]. cbn. by intros (-> & E1 & E2). Qed.

Lemma psteps_try_err {A} (m : M (S * S) A) s t Vs Vt e : psteps m s t Vs Vt (Err e) -> psteps (mtry m) s t Vs Vt (Ok (inr e)).
Proof. unfold psteps, mtry. destruct (m (s, t)) as [[s1 t1] r1]. cbn. by intros (-> & E1 & E2). Qed.

Lemma psteps_root {A} (m : M S A) s t Vs r : msteps m s Vs r -> psteps (on_store m) s t Vs (views t) r.
Proof. unfold msteps, psteps, on_store. cbn. destruct (m s) as [s1 q]. cbn. by intros [-> Hv]. Qed.

Lemma psteps_txn {A} (m : M S A) s t Vt r : msteps m t Vt r -> psteps (in_txn m) s t (views s) Vt r.
Proof. unfold msteps, psteps, in_txn. cbn. destruct (m t) as [s1 q]. cbn. by intros [-> Hv]. Qed.

Lemma psteps_lift {A} (r : result A) s t : psteps (mlift r) s t (views s) (views t) r.
Proof. done. Qed.

Lemma psteps_ext {A} (m : M (S * S) A) s t Vs Vt Vs' Vt' r :
  psteps m s t Vs Vt r -> (forall n, Vs n = Vs' n) -> (forall n, Vt n = Vt' n) -> psteps m s t Vs' Vt' r.
Proof. intros (E1 & E2 & E3) Hs Ht. split; [done|]. split; intros n; [by rewrite E2|by rewrite E3]. Qed.

Definition rkey (id : string) : string := path_of ["replicator"; "id"; id].

Lemma repKey_rkey id : elem_ok id = true -> repKey id = rkey id.
Proof.
  intros Hid. apply ToDS_parts; [|by repeat constructor]. unfold ToString, Key_ReplicatorKey, ReplicatorKey_ToString. cbn.
  by apply add_part_elems.
Qed.

Lemma clean_rkey id : elem_ok id = true -> clean_key (rkey id) = true.
Proof. intros. by apply clean_catalog_key. Qed.

Lemma rkey_inj id id' : elem_ok id = true -> elem_ok id' = true -> rkey id = rkey id' -> id = id'.
Proof. intros H1' H2' E. by apply catalog_key_inj in E as (_ & _ & ?). Qed.

Definition rep_ok (rep : Replicator) : Prop :=
  elem_ok rep.(rep_Info).(ai_ID) = true /\ info_ok rep.(rep_Info) = true /\ forallb schema_ok rep.(rep_Schemas) = true.

(** The system store holds the replicators [R], by the ids of their peers, and no others. *)
Record reps_of (m : contents) (R : gmap string Replicator) : Prop := {
  rr_entry : forall id rep, R !! id = Some rep -> rep_ok rep /\ rep.(rep_Info).(ai_ID) = id /\
    exists b, m !! rkey id = Some b /\ rep_Unmarshal b = Ok rep;
  rr_only : forall k v, m !! k = Some v -> below REPLICATOR k -> exists id, elem_ok id = true /\ k = rkey id /\ is_Some (R !! id);
}.

Lemma below_rkey id : below REPLICATOR (rkey id).
Proof. apply (below_path ["replicator"; "id"] [] id). Qed.

Lemma rr_absent m R id : reps_of m R -> elem_ok id = true -> R !! id = None -> m !! rkey id = None.
Proof.
  intros Hr Hid Hn. destruct (m !! rkey id) as [v|] eqn:E; [|done]. destruct (rr_only _ _ Hr _ _ E (below_rkey id)) as (id' & Hid' & Ek & [rep Hrep]).
  apply rkey_inj in Ek; [|done..]. subst id'. by rewrite Hn in Hrep.
Qed.

Lemma msteps_sys_Get id s :
  elem_ok id = true -> msteps (sys_Get (rkey id)) s (views s) (match views s NSystem !! rkey id with Some v => Ok v | None => Err ErrNotFound end).
Proof.
  intros Hid. eapply msteps_ext; [apply msteps_in, (@law_Get S _ (lawful_of NSystem)); by apply clean_rkey|].
  intros n. apply upd_same.
Qed.

Lemma psteps_getReplicator info R s t :
  reps_of (views s NSystem) R -> elem_ok info.(ai_ID) = true ->
  psteps (getReplicator info) s t (views s) (views t) (match R !! info.(ai_ID) with Some rep => Ok rep | None => Err ErrNotFound end).
Proof.
  intros Hr Hid. unfold getReplicator. rewrite repKey_rkey by done. pose proof (msteps_sys_Get _ s Hid) as Hg.
  destruct (R !! ai_ID info) as [rep|] eqn:E.
  - destruct (rr_entry _ _ Hr _ _ E) as (_ & _ & b & Hb & Hu). rewrite Hb in Hg.
    eapply psteps_bind; [by apply psteps_root|]. intros s1 t1 E1 E2. rewrite Hu.
    eapply psteps_ext; [apply psteps_lift|done|done].
  - rewrite (rr_absent _ _ _ Hr Hid E) in Hg. by apply psteps_bind_err, psteps_root.
Qed.

(** The store after a replicator was saved. *)
Definition saved_rep (rep : Replicator) (m : contents) : contents :=
  match rep_Marshal rep with Ok b => <[rkey rep.(rep_Info).(ai_ID) := b]> m | _ => m end.

Lemma psteps_saveReplicator rep s t :
  rep_ok rep -> psteps (saveReplicator rep) s t (views s) (upd (views t) NSystem (saved_rep rep (views t NSystem))) (Ok tt).
Proof.
  intros (Hid & Hinfo & Hsc). destruct (rep_roundtrip rep Hinfo Hsc) as (b & Hb & _). unfold saveReplicator, saved_rep. rewrite Hb.
  eapply psteps_bind; [apply psteps_lift|]. intros s1 t1 E1 E2. rewrite repKey_rkey by done.
  eapply psteps_ext; [apply psteps_txn, msteps_in, (@law_Put S _ (lawful_of NSystem)); by apply clean_rkey|done|].
  intros n. unfold upd. rewrite E2. case_decide; [|done]. subst n. change (view t1) with (views t1 NSystem). by rewrite E2.
Qed.

Lemma reps_of_saved rep m R : reps_of m R -> rep_ok rep -> reps_of (saved_rep rep m) (<[rep.(rep_Info).(ai_ID) := rep]> R).
Proof.
  intros Hr Hok. pose proof Hok as (Hid & Hinfo & Hsc). destruct (rep_roundtrip rep Hinfo Hsc) as (b & Hb & Hu). unfold saved_rep. rewrite Hb.
  set (id := ai_ID (rep_Info rep)) in *. split.
  - intros id' rep' [[<- <-]|[Hne Hrep]]%lookup_insert_Some.
    + split; [done|]. split; [done|]. exists b. by rewrite lookup_insert_eq.
    + destruct (rr_entry _ _ Hr _ _ Hrep) as (Hok' & Eid & b' & Hb' & Hu'). split; [done|]. split; [done|]. exists b'.
      rewrite lookup_insert_ne; [done|]. intros E. apply rkey_inj in E; [done|done|]. rewrite <- Eid. apply Hok'.
  - intros k v [[<- _]|[Hne Hk]]%lookup_insert_Some Hb'; [exists id; split; [done|]; split; [done|]; by rewrite lookup_insert_eq|].
    destruct (rr_only _ _ Hr _ _ Hk Hb') as (id' & Hid' & -> & Hsome). exists id'. split; [done|]. split; [done|].
    destruct (decide (id = id')) as [->|]; [by rewrite lookup_insert_eq|by rewrite lookup_insert_ne].
Qed.

Lemma psteps_deleteReplicatorKey id s t :
  elem_ok id = true -> psteps (deleteReplicatorKey id) s t (views s) (upd (views t) NSystem (delete (rkey id) (views t NSystem))) (Ok tt).
Proof.
  intros Hid. unfold deleteReplicatorKey. rewrite repKey_rkey by done.
  apply psteps_txn, msteps_in, (@law_Delete S _ (lawful_of NSystem)). by apply clean_rkey.
Qed.

Lemma reps_of_deleted id m R : reps_of m R -> elem_ok id = true -> reps_of (delete (rkey id) m) (delete id R).
Proof.
  intros Hr Hid. split.
  - intros id' rep' [Hne Hrep]%lookup_delete_Some. destruct (rr_entry _ _ Hr _ _ Hrep) as (Hok' & Eid & b' & Hb' & Hu').
    split; [done|]. split; [done|]. exists b'. rewrite lookup_delete_ne; [done|]. intros E. apply rkey_inj in E; [done|done|].
    rewrite <- Eid. apply Hok'.
  - intros k v [Hne Hk]%lookup_delete_Some Hb. destruct (rr_only _ _ Hr _ _ Hk Hb) as (id' & Hid' & -> & Hsome).
    exists id'. split; [done|]. split; [done|]. rewrite lookup_delete_ne; [done|]. by intros ->.
Qed.

(** *** The operations on the map *)

Definition merge_rep (existing : option Replicator) (rep : Replicator) : Replicator :=
  match existing with
  | None => rep
  | Some ex => mkReplicator rep.(rep_Info) (ex.(rep_Schemas) ++ newSchemas ex.(rep_Schemas) rep.(rep_Schemas))
  end.

Definition set_rep (rep : Replicator) (R : gmap string Replicator) : gmap string Replicator :=
  <[rep.(rep_Info).(ai_ID) := merge_rep (R !! rep.(rep_Info).(ai_ID)) rep]> R.

Definition delete_rep (rep : Replicator) (R : gmap string Replicator) : result (gmap string Replicator) :=
  match rep.(rep_Schemas), R !! rep.(rep_Info).(ai_ID) with
  | [], _ => Ok (delete rep.(rep_Info).(ai_ID) R)
  | _, None => Err ErrNotFound
  | _, Some ex =>
      match newSchemas rep.(rep_Schemas) ex.(rep_Schemas) with
      | [] => Ok (delete rep.(rep_Info).(ai_ID) R)
      | l => Ok (<[rep.(rep_Info).(ai_ID) := mkReplicator ex.(rep_Info) l]> R)
      end
  end.

(** A transaction that has not changed anything sees the store. *)
Definition fresh_txn (s t : S) : Prop := forall n, views t n = views s n.

Lemma forallb_newSchemas p l l' : forallb p l' = true -> forallb p (newSchemas l l') = true.
Proof. rewrite !forallb_forall. intros Hp x [Hx _]%filter_In. by apply Hp. Qed.

(** After a computation that has changed nothing. *)
Lemma psteps_after {A} (m : M (S * S) A) s t s1 t1 f r :
  (forall n, views s1 n = views s n) -> (forall n, views t1 n = views t n) ->
  psteps m s1 t1 (views s1) (upd (views t1) NSystem (f (views t1 NSystem))) r ->
  psteps m s1 t1 (views s) (upd (views t) NSystem (f (views t NSystem))) r.
Proof. intros E1 E2 Hm. eapply psteps_ext; [exact Hm|done|]. intros n. unfold upd. by rewrite !E2. Qed.

Lemma psteps_setReplicator rep R s t :
  reps_of (views s NSystem) R -> fresh_txn s t -> rep_ok rep ->
  psteps (setReplicator rep) s t (views s) (upd (views t) NSystem (saved_rep (merge_rep (R !! rep.(rep_Info).(ai_ID)) rep) (views t NSystem))) (Ok tt) /\
  rep_ok (merge_rep (R !! rep.(rep_Info).(ai_ID)) rep).
Proof.
  intros Hr Hf Hok. pose proof Hok as (Hid & Hinfo & Hsc). pose proof (psteps_getReplicator (rep_Info rep) R s t Hr Hid) as Hg.
  unfold setReplicator. destruct (R !! ai_ID (rep_Info rep)) as [ex|] eqn:E; cbn [merge_rep].
  - destruct (rr_entry _ _ Hr _ _ E) as ((_ & _ & Hex) & _ & _). set (rep' := mkReplicator (rep_Info rep) _).
    assert (rep_ok rep') as Hok'.
    { split; [done|]. split; [done|]. cbn. by rewrite forallb_app, Hex, forallb_newSchemas. }
    split; [|done]. eapply psteps_bind; [by apply psteps_try_ok|]. intros s1 t1 E1 E2. cbv beta iota.
    apply (psteps_after _ _ _ _ _ (saved_rep rep')); [done|done|]. by apply psteps_saveReplicator.
  - split; [|done]. eapply psteps_bind; [by apply psteps_try_err|]. intros s1 t1 E1 E2. cbv beta iota. cbn [errors_Is].
    apply (psteps_after _ _ _ _ _ (saved_rep rep)); [done|done|]. by apply psteps_saveReplicator.
Qed.

Lemma psteps_deleteReplicator rep R s t :
  reps_of (views s NSystem) R -> fresh_txn s t -> elem_ok rep.(rep_Info).(ai_ID) = true ->
  match delete_rep rep R with
  | Ok R' => exists m', psteps (deleteReplicator rep) s t (views s) (upd (views t) NSystem m') (Ok tt) /\ reps_of m' R'
  | Err e => psteps (deleteReplicator rep) s t (views s) (views t) (Err e)
  | Panic => False
  end.
Proof.
  intros Hr Hf Hid. assert (reps_of (views t NSystem) R) as Hrt by by rewrite Hf.
  pose proof (psteps_getReplicator (rep_Info rep) R s t Hr Hid) as Hg. unfold deleteReplicator, delete_rep, deleteSchemasForReplicator.
  destruct (rep_Schemas rep) as [|sc scs] eqn:Esc.
  - eexists. split; [by apply psteps_deleteReplicatorKey|by apply reps_of_deleted].
  - destruct (R !! ai_ID (rep_Info rep)) as [ex|] eqn:E; [|by apply psteps_bind_err].
    destruct (rr_entry _ _ Hr _ _ E) as ((Hxid & Hxi & Hxs) & Eid & _). destruct (newSchemas (sc :: scs) (rep_Schemas ex)) as [|x l] eqn:El.
    + eexists. split; [|by apply reps_of_deleted]. eapply psteps_bind; [exact Hg|]. intros s1 t1 E1 E2. cbv beta. rewrite El.
      apply (psteps_after _ _ _ _ _ (delete (rkey (ai_ID (rep_Info rep))))); [done|done|]. by apply psteps_deleteReplicatorKey.
    + set (rep' := mkReplicator (rep_Info ex) (x :: l)).
      assert (rep_ok rep') as Hok'. { split; [done|]. split; [done|]. cbn [rep' rep_Schemas]. rewrite <- El. by apply forallb_newSchemas. }
      exists (saved_rep rep' (views t NSystem)). split.
      * eapply psteps_bind; [exact Hg|]. intros s1 t1 E1 E2. cbv beta. rewrite El.
        apply (psteps_after _ _ _ _ _ (saved_rep rep')); [done|done|]. by apply psteps_saveReplicator.
      * pose proof (reps_of_saved rep' _ _ Hrt Hok') as Hs. cbn [rep' rep_Info] in Hs. by rewrite Eid in Hs.
Qed.

Lemma collectReplicators_ok (l : list (string * bytes)) reps acc :
  Forall2 (fun e rep => rep_Unmarshal e.2 = Ok rep) l reps -> collectReplicators (Ok <$> l) acc = Ok (acc ++ reps).
Proof.
  intros Hall. revert acc. induction Hall as [|[k v] rep l reps Hu _ IH]; intros acc; cbn; [by rewrite app_nil_r|].
  cbn in Hu. rewrite Hu. cbn. rewrite IH. by rewrite <- app_assoc.
Qed.

(** The results of the query and the replicators of the map correspond. *)
Lemma query_replicators m R (l : list (string * bytes)) :
  reps_of m R -> NoDup l.*1 -> (forall k v, (k, v) ∈ l <-> m !! k = Some v /\ below REPLICATOR k) ->
  exists reps, Forall2 (fun e rep => rep_Unmarshal e.2 = Ok rep) l reps /\ reps ≡ₚ (map_to_list R).*2.
Proof.
  intros Hr Hnd Hl. set (unm := fun e : string * bytes => match rep_Unmarshal e.2 with Ok rep => rep | _ => mkReplicator (mkAddrInfo "" []) [] end).
  set (entry := fun e : string * Replicator => (rkey e.1, default "" (m !! rkey e.1))).
  assert (forall id rep, (id, rep) ∈ map_to_list R -> elem_ok id = true /\ exists b, entry (id, rep) = (rkey id, b) /\
    m !! rkey id = Some b /\ rep_Unmarshal b = Ok rep) as Hentry.
  { intros id rep Hin%elem_of_map_to_list. destruct (rr_entry _ _ Hr _ _ Hin) as ((Hid & _) & Eid & b & Hb & Hu).
    rewrite Eid in Hid. split; [done|]. exists b. unfold entry. cbn [fst]. by rewrite Hb. }
  assert (l ≡ₚ entry <$> map_to_list R) as Hperm.
  { apply NoDup_Permutation; [by eapply NoDup_fmap_1| |].
    - apply NoDup_fmap_2_strong; [|apply NoDup_map_to_list]. intros [id rep] [id' rep'] Hin Hin' E.
      destruct (Hentry _ _ Hin) as (Hid & _), (Hentry _ _ Hin') as (Hid' & _). apply (f_equal fst) in E. cbn [entry fst] in E. rename E into Ek.
      apply rkey_inj in Ek; [|done..]. subst id'. apply elem_of_map_to_list in Hin, Hin'. congruence.
    - intros [k v]. rewrite Hl, list_elem_of_fmap. split.
      + intros [Hk Hb]. destruct (rr_only _ _ Hr _ _ Hk Hb) as (id & Hid & -> & [rep Hrep]). exists (id, rep).
        split; [|by apply elem_of_map_to_list]. unfold entry. cbn [fst]. by rewrite Hk.
      + intros ([id rep] & E & Hin). destruct (Hentry _ _ Hin) as (_ & b & Ee & Hb & _). rewrite Ee in E. injection E as -> ->.
        split; [done|apply below_rkey]. }
  exists (unm <$> l). split.
  - apply Forall2_fmap_r, Forall_Forall2_diag, Forall_forall. intros e He. rewrite Hperm in He.
    apply list_elem_of_fmap in He as ([id rep] & -> & Hin). destruct (Hentry _ _ Hin) as (_ & b & -> & _ & Hu). unfold unm. cbn. by rewrite Hu.
  - rewrite Hperm, <- list_fmap_compose. apply Permutation_refl'. apply list_fmap_ext. intros i [id rep] Hi. cbn.
    apply list_elem_of_lookup_2 in Hi. destruct (Hentry _ _ Hi) as (_ & b & -> & _ & Hu). unfold unm. cbn. by rewrite Hu.
Qed.

Lemma psteps_getAllReplicators R s t :
  reps_of (views t NSystem) R -> exists reps, psteps getAllReplicators s t (views s) (views t) (Ok reps) /\ reps ≡ₚ (map_to_list R).*2.
Proof.
  intros Hr. destruct (@law_Query S _ (lawful_of NSystem) REPLICATOR t) as (l & Hq & Hnd & Hl); [done|].
  destruct (query_replicators _ R l Hr Hnd Hl) as (reps & Hu & Hp). exists reps. split; [|done].
  unfold getAllReplicators. eapply psteps_bind; [apply psteps_txn, msteps_in, Hq|]. intros s1 t1 E1 E2. cbv beta.
  rewrite (collectReplicators_ok l reps []) by done. eapply psteps_ext; [apply psteps_lift|done|]. intros n. rewrite E2. apply upd_same.
Qed.

(** C20: In a transaction of its own, the system store implements a map of replicators by peer:
    adding schemas to a replicator, taking some or all away, and listing them; taking schemas
    away from a peer that is none fails and changes nothing. *)
Theorem replicators_refine rep R s t :
  reps_of (views s NSystem) R -> fresh_txn s t -> rep_ok rep ->
  (exists m', psteps (setReplicator rep) s t (views s) (upd (views t) NSystem m') (Ok tt) /\ reps_of m' (set_rep rep R)) /\
  match delete_rep rep R with
  | Ok R' => exists m', psteps (deleteReplicator rep) s t (views s) (upd (views t) NSystem m') (Ok tt) /\ reps_of m' R'
  | Err e => psteps (deleteReplicator rep) s t (views s) (views t) (Err e)
  | Panic => False
  end /\
  exists reps, psteps getAllReplicators s t (views s) (views t) (Ok reps) /\ reps ≡ₚ (map_to_list R).*2.
Proof.
  intros Hr Hf Hok. assert (reps_of (views t NSystem) R) as Hrt by by rewrite Hf. split; [|split].
  - destruct (psteps_setReplicator rep R s t Hr Hf Hok) as [Hs Hok']. eexists. split; [exact Hs|]. unfold set_rep.
    pose proof (reps_of_saved _ _ _ Hrt Hok') as Hm. by destruct (R !! ai_ID (rep_Info rep)).
  - apply psteps_deleteReplicator; [done|done|apply Hok].
  - by apply psteps_getAllReplicators.
Qed.
End ReplicatorSpec.
