(* ===== verification/Sync.v ===== *)
(** * Synchronisation of documents (net/process.go, dag.go, server.go)

    A peer that is sent a block of a document processes it, fetches the blocks that it links
    to and that are not known, and processes them in turn, all in one transaction.  Blocks
    are processed by workers and their links are followed by goroutines of their own: a
    session is a step relation over the jobs and goroutines that are left.  A block is
    processed in one step.

    The node getter, which fetches blocks from other peers, is code outside the repository
    and a parameter. *)

From S2P Require Import Prelude GoStd Keys Store MultiStore Crdt Clock Desc Schema Fetcher DocOps Topics.

(** ** The set of blocks in process *)

Section CidSafeSet.
Context `{CidOps}.

(** [cidSafeSet]: a set of CIDs; each operation holds its mutex. *)
Definition Visit (c : Cid) (s : list Cid) : list Cid * bool := if decide (c ∈ s) then (s, false) else (c :: s, true).

Definition Remove (c : Cid) (s : list Cid) : list Cid := List.filter (fun x => bool_decide (x <> c)) s.

Lemma elem_of_Remove c s x : x ∈ Remove c s <-> x ∈ s /\ x <> c.
Proof. unfold Remove. rewrite !list_elem_of_In, filter_In, bool_decide_eq_true. done. Qed.
End CidSafeSet.

(** ** Processing a block *)

Section Process.
Context {S : Type} `{MultiStore S} `{DsKey} `{CidOps} `{!BlockKeys} `{!DagOps} `{CborCodec}.

Definition crdt_base (c : @MerkleCRDT S _) : @baseMerkleCRDT S _ :=
  match c with MLWW r => r.(lww_base) | MComposite m => m.(comp_base) end.

Definition initCRDTForType (col : collection) (docKey : DataStoreKey) (field : string) : result (@MerkleCRDT S _) :=
  let description := col.(col_desc) in
  let! (ctype, key) :=
    if String.eqb field "" then
      Ok (COMPOSITE, WithFieldId (WithInstanceInfo (MakeCollectionKey description) docKey) COMPOSITE_NAMESPACE)
    else
      match GetField description field with
      | None => Err (ErrNew "Couldn't find field")
      | Some fd =>
          Ok (fd.(fd_Typ), WithFieldId (WithInstanceInfo (MakeCollectionKey description) docKey) (FieldID_String fd.(fd_ID)))
      end in
  factory_Instance (NewCollectionSchemaVersionKey col.(col_desc).(cd_Schema).(sd_VersionID)) ctype key field.

(** The state is that of the transaction and the set of blocks in process. *)
Definition processLog (col : collection) (dockey : DataStoreKey) (c : Cid) (field : string) (nd : Node)
    (removeChildren : bool) : M (S * list Cid) (list Cid) :=
  let* crdt := mlift (initCRDTForType col dockey field) in
  let* delta := wrap_err "failed to decode delta object" (mlift (base_DeltaDecode (crdt_base crdt) nd)) in
  let* _ := on_store (@bs_Put S (store_of NBlock) _ _ (node_block nd)) in
  let* cids := on_store (ProcessNode (crdt_base crdt).(base_clock) c (GetPriority delta) delta nd) in
  fun st => ((st.1, if removeChildren then Remove c st.2 else st.2), Ok cids).

(** ** A session *)

Record dagJob := mkDagJob {
  j_fieldName : string;
  j_node : Node;
}.

(** The jobs that are not taken, and the goroutines that follow the links of a processed
    block, with the links that are left to them. *)
Record session := mkSession {
  ss_store : S;
  ss_queued : list Cid;
  ss_jobs : list dagJob;
  ss_handlers : list (dagJob * list Cid);
}.

Variable col : collection.
Variable dockey : DataStoreKey.

(** [getter.Get]: the block of a CID, from the block store or from other peers; the block
    service keeps what it fetches in the block store. *)
Variable getter : Cid -> M S Node.

(** The field of a child: the name of the last link to it that is not a head, and otherwise
    the field of its parent. *)
Definition childField (field : string) (nd : Node) (c : Cid) : string :=
  let fieldName := foldl (fun name l => if decide (c = L_Cid l) then if String.eqb (L_Name l) "_head" then name else L_Name l else name)
    "" (Node_Links nd) in
  if String.eqb fieldName "" && negb (String.eqb field "") then field else fieldName.

(** One job of [dagWorker]. *)
Definition dagWorker (i : nat) (st : session) : option session :=
  match st.(ss_jobs) !! i with
  | None => None
  | Some job =>
      let '((s, queued), r) :=
        processLog col dockey (Node_Cid job.(j_node)) job.(j_fieldName) job.(j_node) true (st.(ss_store), st.(ss_queued)) in
      let jobs := delete i st.(ss_jobs) in
      match r with
      | Panic => None
      | Err _ | Ok [] => Some (mkSession s queued jobs st.(ss_handlers))
      | Ok children => Some (mkSession s queued jobs (st.(ss_handlers) ++ [(job, children)]))
      end
  end.

(** One round of the loop of [handleChildBlocks]. *)
Definition handleChildBlocks (i : nat) (st : session) : option session :=
  match st.(ss_handlers) !! i with
  | None | Some (_, []) => None
  | Some (job, c :: children) =>
      let handlers := match children with [] => delete i st.(ss_handlers) | _ => <[i := (job, children)]> st.(ss_handlers) end in
      let '(queued, visit) := Visit c st.(ss_queued) in
      if (visit : bool) then
        let fieldName := childField job.(j_fieldName) job.(j_node) c in
        let '(s, r) := getter c st.(ss_store) in
        match r with
        | Panic => None
        | Err _ => Some (mkSession s queued st.(ss_jobs) handlers)
        | Ok cNode => Some (mkSession s queued (st.(ss_jobs) ++ [mkDagJob fieldName cNode]) handlers)
        end
      else Some (mkSession st.(ss_store) queued st.(ss_jobs) handlers)
  end.

Inductive sync_step (st st' : session) : Prop :=
  | sync_worker i : dagWorker i st = Some st' -> sync_step st st'
  | sync_handler i : handleChildBlocks i st = Some st' -> sync_step st st'.

(** All jobs are done: [session.Wait] returns. *)
Definition quiescent (st : session) : Prop := st.(ss_jobs) = [] /\ st.(ss_handlers) = [].

(** The transaction of [PushLog] up to its session: the block that was sent is processed and
    its links are followed.  An error is logged, and the transaction is committed all the
    same. *)
Definition startSession (c : Cid) (nd : Node) (s : S) (queued : list Cid) : option session :=
  let '((s, queued), r) := processLog col dockey c "" nd false (s, queued) in
  match r with
  | Panic => None
  | Err _ | Ok [] => Some (mkSession s queued [] [])
  | Ok cids => Some (mkSession s queued [] [(mkDagJob "" nd, cids)])
  end.

(** A session that takes the first job or else the first goroutine. *)
Fixpoint runSession (fuel : nat) (st : session) : session :=
  match fuel with
  | O => st
  | Datatypes.S fuel =>
      match dagWorker 0 st with
      | Some st' => runSession fuel st'
      | None => match handleChildBlocks 0 st with Some st' => runSession fuel st' | None => st end
      end
  end.
End Process.

(** ** The effect of processing a block *)

Section ProcessSpec.
Context {S : Type} `{LawfulMultiStore S} `{DsKey} `{CidOps} `{!BlockKeys} `{!DagOps} `{CborCodec}.
Variable col : collection.
Variable doc : string.

Local Abbreviation colid := (IDString col.(col_desc)).
Local Abbreviation dockey := (DataStoreKeyFromDocKey doc).

Hypothesis Hdoc : elem_ok doc = true.

(** The field of the stores that a field of the collection has, and the delta that a node of
    it holds. *)
Inductive holds : string -> Node -> string -> doc_delta -> Prop :=
  | holds_composite nd d : Composite_DeltaDecode nd = Ok (DComposite d) -> holds "" nd COMPOSITE_NAMESPACE (DocDelta d)
  | holds_field f nd fd d :
      f <> "" -> GetField col.(col_desc) f = Some fd -> fd.(fd_Typ) = LWW_REGISTER ->
      LWW_DeltaDecode nd = Ok (DLWW d) -> is_u64 d.(LD_Priority) -> holds f nd (FieldID_String fd.(fd_ID)) (FieldDelta (FieldID_String fd.(fd_ID)) d).

Lemma colid_ok : elem_ok colid = true.
Proof. apply Sprint_elem_ok. Qed.

Lemma holds_elem_ok f nd fid d : holds f nd fid d -> elem_ok fid = true.
Proof. intros []; [done|apply Sprint_elem_ok]. Qed.

Lemma holds_delta_ok f nd fid d : holds f nd fid d -> delta_ok d.
Proof. intros []; [done|]. split; [apply Sprint_elem_ok|done]. Qed.

(** The CRDT of a node merges its delta. *)
Lemma holds_init f nd fid d :
  holds f nd fid d ->
  exists crdt delta data, initCRDTForType (S := S) col dockey f = Ok crdt /\ base_DeltaDecode (crdt_base crdt) nd = Ok delta /\
    (crdt_base crdt).(base_clock) = NewMerkleClock (mkHeadStoreKey _ doc fid Cid_Undef) data /\
    forall id s, doc_inv colid doc (views s NData) ->
      msteps (RD_Merge data delta id) s (upd (views s) NData (doc_apply colid doc (views s NData) (op_of d))) (Ok tt).
Proof.
  intros [nd' c Hd|f' nd' fd l Hf Hfd Ht Hd Hu]; unfold initCRDTForType.
  - cbn. eexists _, _, _. split; [done|]. split; [exact Hd|]. split; [done|]. intros id s Hi. apply msteps_in. cbn [RD_Merge Composite_data].
    destruct (IsDeleted _) eqn:E.
    + by apply (@steps_composite_delete S _ (lawful_of NData) _ _ colid doc colid_ok Hdoc).
    + by apply (@steps_composite_active S _ (lawful_of NData) _ _ colid doc colid_ok Hdoc).
  - destruct (String.eqb_spec f' "") as [|_]; [done|]. rewrite Hfd. cbn [rbind]. rewrite Ht. cbn.
    eexists _, _, _. split; [done|]. split; [exact Hd|]. split; [done|]. intros id s Hi. apply msteps_in. cbn [RD_Merge LWW_data].
    apply (@steps_setValue S _ (lawful_of NData) _ colid doc _ colid_ok Hdoc (Sprint_elem_ok _)). apply (inv_reg _ _ _ Hi), Sprint_elem_ok.
Qed.

(** What processing a block does to the stores. *)
Record processed (V V' : namespace -> contents) (fid : string) (nd : Node) (d : doc_delta) : Prop := {
  pr_data : V' NData = doc_apply colid doc (V NData) (op_of d);
  pr_block : V' NBlock = put_block (V NBlock) (node_block nd);
  pr_head : forall k v, V' NHead !! k = Some v -> k = hkey doc fid (Node_Cid nd) \/ V NHead !! k = Some v;
}.

Lemma put_block_is_Some m b c : is_Some (put_block m b !! block_key c) <-> is_Some (m !! block_key c) \/ block_key c = block_key b.(B_Cid).
Proof.
  unfold put_block. destruct (m !! block_key (B_Cid b)) as [x|] eqn:E.
  - split; [by left|]. intros [?| ->]; [done|by eexists].
  - destruct (decide (block_key c = block_key (B_Cid b))) as [->|Hne]; [|by rewrite lookup_insert_ne by done; naive_solver].
    rewrite lookup_insert_eq. split; [by right|]. intros _. by eexists.
Qed.

Lemma processLog_spec f nd fid d remove s queued :
  holds f nd fid d -> doc_inv colid doc (views s NData) -> defined (L_Cid <$> Node_Links nd) ->
  (forall c, c ∈ L_Cid <$> Node_Links nd -> is_head doc fid (views s NHead) c = true -> known_in (views s) c = true) ->
  exists s',
    processLog col dockey (Node_Cid nd) f nd remove (s, queued) =
      ((s', if remove then Remove (Node_Cid nd) queued else queued),
       Ok (List.filter (fun c => negb (known_in (views s') c)) (L_Cid <$> Node_Links nd))) /\
    processed (views s) (views s') fid nd d.
Proof.
  intros Hh Hi Hdef Hheads. destruct (holds_init _ _ _ _ Hh) as (crdt & delta & data & Einit & Edec & Eclk & Hmerge).
  pose proof (holds_elem_ok _ _ _ _ Hh) as Hfid. unfold processLog.
  assert (msteps (@bs_Put S (store_of NBlock) _ _ (node_block nd)) s
    (upd (views s) NBlock (put_block (views s NBlock) (node_block nd))) (Ok tt)) as Hput.
  { apply msteps_in. apply (@steps_bs_Put S _ (lawful_of NBlock)). }
  destruct (@bs_Put S (store_of NBlock) _ _ (node_block nd) s) as [s1 r1] eqn:Ep. unfold msteps in Hput. rewrite Ep in Hput.
  destruct Hput as [Er1 E1]. cbn in Er1, E1. subst r1.
  assert (views s1 NData = views s NData) as ED by by rewrite E1.
  pose proof (msteps_ProcessNode doc fid Hdoc Hfid data (Node_Cid nd) (GetPriority delta) delta nd s1
    (doc_apply colid doc (views s NData) (op_of d))) as Hp.
  rewrite <- ED in Hp. specialize (Hp (Hmerge _ _ ltac:(by rewrite ED)) (Node_Cid_Defined nd) Hdef). cbv zeta in Hp.
  destruct (ProcessNode (NewMerkleClock (mkHeadStoreKey _ doc fid Cid_Undef) data) (Node_Cid nd) (GetPriority delta) delta nd s1)
    as [s2 r2] eqn:E2. destruct Hp as [Er2 Ev]. rewrite E2 in Er2, Ev. cbn in Er2, Ev.
  assert (forall c, known_in (views s2) c = known_in (views s1) c) as Hkn.
  { intros c. unfold known_in. by rewrite Ev. }
  exists s2. split.
  - unfold mlift, wrap_err, mtry, on_store, mbind, mret. rewrite Einit. cbn [fst snd]. rewrite Edec. cbn [fst snd]. rewrite Ep, Eclk. cbn [fst snd].
    rewrite E2, Er2. f_equal. f_equal. unfold links_end. rewrite links_children; try done; try apply Node_Cid_Defined.
    + cbn. apply List.filter_ext. intros c. by rewrite Hkn.
    + intros (l & El & Hl)%list_elem_of_fmap. by apply (Node_Cid_fresh nd l).
    + intros c Hc. rewrite links_start_is_head; try done; try apply Node_Cid_Defined; try (by eapply Forall_forall in Hdef).
      * rewrite E1. intros Hhd. specialize (Hheads c Hc Hhd). unfold known_in in *. rewrite bool_decide_eq_true in *.
        rewrite E1, upd_eq. apply put_block_is_Some. by left.
      * apply list_elem_of_fmap in Hc as (l & -> & Hl). by apply (Node_Cid_fresh nd l).
  - split.
    + rewrite Ev. unfold upd. cbn. by rewrite ED.
    + by rewrite Ev, !upd_ne, E1, upd_eq by done.
    + intros k v. rewrite Ev, upd_eq. intros [[-> _]|Hk]%links_end_entries; [by left|]. right. by rewrite E1 in Hk.
Qed.
End ProcessSpec.

(** ** Sessions over a DAG *)

Section SyncSpec.
Context {S : Type} `{LawfulMultiStore S} `{DsKey} `{CidOps} `{!BlockKeys} `{!DagOps} `{CborCodec}.
Variable col : collection.
Variable doc : string.
Hypothesis Hdoc : elem_ok doc = true.

Local Abbreviation colid := (IDString col.(col_desc)).
Local Abbreviation dockey := (DataStoreKeyFromDocKey doc).

(** The blocks of a document: the nodes, the fields they belong to and the deltas they hold. *)
Record dag := mkDag {
  dag_node : Cid -> option Node;
  dag_field : Cid -> string;
  dag_fid : Cid -> string;
  dag_delta : Cid -> doc_delta;
  dag_rank : Cid -> nat;
}.

Variable G : dag.

Definition links (nd : Node) : list Cid := L_Cid <$> Node_Links nd.

(** Every link leads to a block of a lower rank, of the field that its parent gives it, and
    every block holds a delta; blocks are told apart by their keys in the block store. *)
Record dag_wf : Prop := {
  dw_cid : forall c nd, G.(dag_node) c = Some nd -> Node_Cid nd = c;
  dw_links : forall c nd c', G.(dag_node) c = Some nd -> c' ∈ links nd ->
    Cid_Defined c' = true /\ is_Some (G.(dag_node) c') /\ (G.(dag_rank) c' < G.(dag_rank) c)%nat /\
    childField (G.(dag_field) c) nd c' = G.(dag_field) c';
  dw_holds : forall c nd, G.(dag_node) c = Some nd -> holds col (G.(dag_field) c) nd (G.(dag_fid) c) (G.(dag_delta) c);
  dw_key : forall c c', is_Some (G.(dag_node) c) -> is_Some (G.(dag_node) c') -> block_key c = block_key c' -> c = c';
}.
Hypothesis Hdag : dag_wf.

Variable getter : Cid -> M S Node.

(** The getter finds every block of the DAG and may keep it in the block store. *)
Record getter_ok : Prop := {
  go_found : forall c nd s, G.(dag_node) c = Some nd -> (getter c s).2 = Ok nd;
  go_views : forall c s n, n <> NBlock -> views (getter c s).1 n = views s n;
  go_block : forall c s c', is_Some (views (getter c s).1 NBlock !! block_key c') ->
    is_Some (views s NBlock !! block_key c') \/ block_key c' = block_key c;
  go_keeps : forall c s c', is_Some (views s NBlock !! block_key c') -> is_Some (views (getter c s).1 NBlock !! block_key c');
}.
Hypothesis Hgetter : getter_ok.

(** The blocks that lie below a block. *)
Inductive reach (c : Cid) : Cid -> Prop :=
  | reach_self : reach c c
  | reach_link c1 nd c2 : reach c c1 -> G.(dag_node) c1 = Some nd -> c2 ∈ links nd -> reach c c2.

Definition ops_of (l : list Cid) : list doc_op := (fun c => op_of (G.(dag_delta) c)) <$> l.

(** A replica that has merged the blocks [l] into the data [D0]: they are the blocks of the
    DAG that it knows, and their links are among them. *)
Record replica (D0 : contents) (l : list Cid) (V : namespace -> contents) : Prop := {
  re_data : V NData = foldl (doc_apply colid doc) D0 (ops_of l);
  re_dag : forall c, c ∈ l -> is_Some (G.(dag_node) c);
  re_known : forall c, is_Some (G.(dag_node) c) -> known_in V c = true <-> c ∈ l;
  re_closed : forall c nd c', c ∈ l -> G.(dag_node) c = Some nd -> c' ∈ links nd -> c' ∈ l;
  re_heads : forall f c, elem_ok f = true -> is_Some (G.(dag_node) c) -> is_head doc f (V NHead) c = true -> c ∈ l;
}.

Definition job_cids (st : @session S _) : list Cid := (fun j => Node_Cid j.(j_node)) <$> st.(ss_jobs).
Definition pending (st : @session S _) : list Cid := concat (snd <$> st.(ss_handlers)).

Definition job_ok (root : Cid) (j : dagJob) : Prop :=
  let c := Node_Cid j.(j_node) in G.(dag_node) c = Some j.(j_node) /\ j.(j_fieldName) = G.(dag_field) c /\ reach root c.

(** A session between its steps: [l] was merged, and what is known, linked to or in process
    but not merged is the business of a job or of a goroutine. *)
Record sync_inv (D0 : contents) (l0 : list Cid) (root : Cid) (l : list Cid) (st : @session S _) : Prop := {
  si_data : views st.(ss_store) NData = foldl (doc_apply colid doc) D0 (ops_of l);
  si_dag : forall c, c ∈ l -> is_Some (G.(dag_node) c) /\ (c ∈ l0 \/ reach root c);
  si_base : forall c, c ∈ l0 -> c ∈ l;
  si_root : root ∈ l;
  si_known : forall c, is_Some (G.(dag_node) c) -> known_in (views st.(ss_store)) c = true -> c ∈ l \/ c ∈ job_cids st;
  si_stored : forall c, c ∈ l -> known_in (views st.(ss_store)) c = true;
  si_jobs : forall j, j ∈ st.(ss_jobs) -> job_ok root j;
  si_handlers : forall j cs, (j, cs) ∈ st.(ss_handlers) -> cs <> [] /\ job_ok root j /\ forall c, c ∈ cs -> c ∈ links j.(j_node);
  si_closed : forall c nd c', c ∈ l -> G.(dag_node) c = Some nd -> c' ∈ links nd -> c' ∈ l \/ c' ∈ job_cids st \/ c' ∈ pending st;
  si_queued : forall c, is_Some (G.(dag_node) c) -> c ∈ st.(ss_queued) -> c ∈ l \/ c ∈ job_cids st;
  si_heads : forall f c, elem_ok f = true -> is_Some (G.(dag_node) c) -> is_head doc f (views st.(ss_store) NHead) c = true -> c ∈ l;
}.

(** A session that is done leaves a replica that has merged everything below the block. *)
Lemma quiescent_replica D0 l0 root l st :
  sync_inv D0 l0 root l st -> quiescent st ->
  replica D0 l (views st.(ss_store)) /\ forall c, c ∈ l <-> c ∈ l0 \/ reach root c.
Proof.
  intros Hi [Ej Eh]. destruct Hi. unfold job_cids, pending in *. rewrite Ej, Eh in *. cbn in *.
  assert (forall c nd c', c ∈ l -> dag_node G c = Some nd -> c' ∈ links nd -> c' ∈ l) as Hcl.
  { intros c nd c' K1 K2 K3. destruct (si_closed0 c nd c' K1 K2 K3) as [?|[?%elem_of_nil|?%elem_of_nil]]; done. }
  split; [split; try done|].
  - intros c Hc. by apply si_dag0.
  - intros c Hc. split; [|apply si_stored0]. intros Hk. by destruct (si_known0 c Hc Hk) as [?|?%elem_of_nil].
  - intros c. split; [by intros [_ ?]%si_dag0|]. intros [Hc|Hr]; [by apply si_base0|].
    induction Hr as [|c1 nd c2 Hr IH Hnd Hin]; [done|]. by eapply Hcl.
Qed.

Lemma dag_defined c : is_Some (G.(dag_node) c) -> Cid_Defined c = true.
Proof. intros [nd Hnd]. rewrite <- (dw_cid Hdag _ _ Hnd). apply Node_Cid_Defined. Qed.

Lemma hkey_same f f' c c' :
  elem_ok f = true -> elem_ok f' = true -> Cid_Defined c = true -> Cid_Defined c' = true -> hkey doc f c = hkey doc f' c' -> c = c'.
Proof.
  intros Hf Hf' Hc Hc' E. apply path_of_inj in E; [|auto using elem_ok_free, Cid_String_free..].
  injection E as _ E. pose proof (Cid_Decode_String c Hc) as D. rewrite E, Cid_Decode_String in D by done. congruence.
Qed.

(** Processing a block of the DAG. *)
Lemma process_block c nd remove s queued :
  G.(dag_node) c = Some nd -> doc_inv colid doc (views s NData) ->
  (forall f c', elem_ok f = true -> is_Some (G.(dag_node) c') -> is_head doc f (views s NHead) c' = true -> known_in (views s) c' = true) ->
  exists s' children,
    processLog col dockey c (G.(dag_field) c) nd remove (s, queued) = ((s', if remove then Remove c queued else queued), Ok children) /\
    views s' NData = doc_apply colid doc (views s NData) (op_of (G.(dag_delta) c)) /\
    (forall c', is_Some (G.(dag_node) c') -> known_in (views s') c' = true <-> known_in (views s) c' = true \/ c' = c) /\
    (forall f c', elem_ok f = true -> is_Some (G.(dag_node) c') -> is_head doc f (views s' NHead) c' = true ->
      is_head doc f (views s NHead) c' = true \/ c' = c) /\
    children = List.filter (fun c' => negb (known_in (views s') c')) (links nd).
Proof.
  intros Hnd Hi Hheads. pose proof (dw_cid Hdag _ _ Hnd) as Ec. pose proof (dw_holds Hdag _ _ Hnd) as Hh.
  pose proof (holds_elem_ok _ _ _ _ _ Hh) as Hfid.
  destruct (processLog_spec col doc Hdoc _ _ _ _ remove s queued Hh Hi) as (s' & Hrun & [Hd Hb Hhd]).
  - apply Forall_forall. intros c' Hc'. by apply (dw_links Hdag c nd).
  - intros c' Hc'. apply Hheads; [done|]. by apply (dw_links Hdag c nd).
  - rewrite Ec in Hrun, Hhd. exists s'. eexists. split; [exact Hrun|]. split; [done|]. split; [|split; [|done]].
    + intros c' Hc'. unfold known_in. rewrite Hb, !bool_decide_eq_true, put_block_is_Some. cbn. rewrite Ec.
      split; intros [?|E]; [by left|right; by apply (dw_key Hdag)|by left|subst; by right].
    + intros f c' Hf Hc'. unfold is_head. rewrite !bool_decide_eq_true. intros [v Hv]. destruct (Hhd _ _ Hv) as [E|E]; [|left; by eexists].
      right. eapply hkey_same; [..|exact E]; try done; apply dag_defined; [done|by eexists].
Qed.

Lemma delete_split {A} (l : list A) i x y : l !! i = Some x -> y ∈ l -> y ∈ delete i l \/ y = x.
Proof.
  intros Hi Hy. rewrite <- (take_drop_middle l i x Hi), elem_of_app, elem_of_cons in Hy. rewrite delete_take_drop, elem_of_app. tauto.
Qed.

Lemma delete_sub {A} (l : list A) i y : y ∈ delete i l -> y ∈ l.
Proof.
  rewrite !list_elem_of_lookup. intros [k Hk]. rewrite list_lookup_delete in Hk.
  case_decide; by eexists.
Qed.

(** The goroutine [i] has taken its first link. *)
Definition took_child (i : nat) (hs : list (dagJob * list Cid)) (job : dagJob) (cs : list Cid) : list (dagJob * list Cid) :=
  match cs with [] => delete i hs | _ => <[i := (job, cs)]> hs end.

Lemma took_child_pending hs i job c cs x :
  hs !! i = Some (job, c :: cs) -> x ∈ concat (snd <$> hs) -> x = c \/ x ∈ concat (snd <$> took_child i hs job cs).
Proof.
  intros Hi. pose proof (lookup_lt_Some _ _ _ Hi) as Hlt. rewrite <- (take_drop_middle hs i _ Hi) at 1. unfold took_child.
  rewrite fmap_app, concat_app, fmap_cons. cbn [concat snd]. rewrite !elem_of_app, elem_of_cons.
  destruct cs as [|c' cs].
  - rewrite delete_take_drop, fmap_app, concat_app, elem_of_app, elem_of_nil. tauto.
  - rewrite insert_take_drop, fmap_app, concat_app, fmap_cons by done. cbn [concat snd]. rewrite !elem_of_app. tauto.
Qed.

Lemma took_child_handlers hs i job c cs j' cs' :
  hs !! i = Some (job, c :: cs) -> (j', cs') ∈ took_child i hs job cs -> (j', cs') ∈ hs \/ (j' = job /\ cs' = cs /\ cs <> []).
Proof.
  intros Hi. unfold took_child. destruct cs as [|c' cs]; [intros Hx; left; by eapply delete_sub|].
  intros Hx. apply list_elem_of_lookup in Hx as [k Hk]. apply list_lookup_insert_Some in Hk as [(_ & [= <- <-] & _)|[_ Hk]]; [by right|].
  left. by eapply list_elem_of_lookup_2.
Qed.

Lemma ops_ok l : (forall c, c ∈ l -> is_Some (G.(dag_node) c)) -> Forall op_ok (ops_of l).
Proof.
  intros Hl. apply Forall_fmap, Forall_forall. intros c Hc. destruct (Hl c Hc) as [nd Hnd].
  eapply op_of_ok, holds_delta_ok, (dw_holds Hdag _ _ Hnd).
Qed.

Lemma data_inv D0 l : doc_inv colid doc D0 -> (forall c, c ∈ l -> is_Some (G.(dag_node) c)) ->
  doc_inv colid doc (foldl (doc_apply colid doc) D0 (ops_of l)).
Proof.
  intros Hi Hl. apply (foldl_inv _ (doc_inv colid doc) op_ok); [|by apply ops_ok|done].
  intros m o. apply doc_inv_apply; [apply colid_ok|done].
Qed.

Lemma ops_snoc D0 l c :
  foldl (doc_apply colid doc) D0 (ops_of (l ++ [c])) = doc_apply colid doc (foldl (doc_apply colid doc) D0 (ops_of l)) (op_of (G.(dag_delta) c)).
Proof. unfold ops_of. by rewrite fmap_app, foldl_app. Qed.

Lemma elem_of_children (s : S) nd c : c ∈ List.filter (fun c' => negb (known_in (views s) c')) (links nd) <-> c ∈ links nd /\ known_in (views s) c = false.
Proof. rewrite !list_elem_of_In, filter_In, Bool.negb_true_iff. done. Qed.

Lemma sync_start D0 l0 root nd s queued :
  doc_inv colid doc D0 -> replica D0 l0 (views s) -> G.(dag_node) root = Some nd -> G.(dag_field) root = "" ->
  (forall c, is_Some (G.(dag_node) c) -> c ∈ queued -> c ∈ l0 \/ c = root) ->
  exists st, startSession col dockey root nd s queued = Some st /\ sync_inv D0 l0 root (l0 ++ [root]) st.
Proof.
  intros Hi [Rd Rg Rk Rc Rh] Hnd Hf Hq.
  destruct (process_block root nd false s queued Hnd) as (s' & children & Hrun & Ed & Hk & Hh & Ech).
  { rewrite Rd. by apply data_inv. }
  { intros f c Hfo Hc Hhd. by apply Rk, Rh with f. }
  rewrite Hf in Hrun.
  assert (forall c, c ∈ l0 ++ [root] <-> c ∈ l0 \/ c = root) as Hl by (intros c; by rewrite elem_of_app, list_elem_of_singleton).
  assert (forall c, is_Some (dag_node G c) -> known_in (views s') c = true <-> c ∈ l0 ++ [root]) as Hkn.
  { intros c Hc. rewrite Hk, Hl by done. by rewrite Rk. }
  assert (exists hs, startSession col dockey root nd s queued = Some (mkSession s' queued [] hs) /\
    concat (snd <$> hs) = children /\ forall j cs, (j, cs) ∈ hs -> cs = children /\ cs <> [] /\ j = mkDagJob "" nd) as (hs & Es & Epend & Hhs).
  { unfold startSession. rewrite Hrun. destruct children as [|c children].
    - eexists. split; [done|]. split; [done|]. by intros j cs ?%elem_of_nil.
    - eexists. split; [done|]. split; [cbn; by rewrite app_nil_r|]. by intros j cs [= -> ->]%list_elem_of_singleton. }
  eexists. split; [exact Es|]. split; cbn [ss_store ss_queued ss_jobs ss_handlers]; unfold job_cids, pending; cbn [ss_jobs ss_handlers].
  - by rewrite ops_snoc, <- Rd.
  - intros c [Hc| ->]%Hl; [split; [by apply Rg|by left]|]. split; [by eexists|]. right. apply reach_self.
  - intros c Hc. apply Hl. by left.
  - apply Hl. by right.
  - intros c Hc ?%Hkn; [by left|done].
  - intros c Hc. apply Hkn; [|done]. apply Hl in Hc as [?| ->]; [by apply Rg|by eexists].
  - by intros j ?%elem_of_nil.
  - intros j cs [-> [Hne ->]]%Hhs. split; [done|]. split; [|intros c; rewrite Ech; by intros [? _]%elem_of_children].
    unfold job_ok. cbn. rewrite (dw_cid Hdag _ _ Hnd). split; [done|]. split; [done|apply reach_self].
  - intros c nd' c' [Hc| ->]%Hl Hnd' Hin; [left; apply Hl; left; by eapply Rc|]. rewrite Hnd in Hnd'. injection Hnd' as <-.
    destruct (known_in (views s') c') eqn:E; [left; apply Hkn; [|done]; by apply (dw_links Hdag root nd)|].
    right. right. rewrite Epend, Ech. by apply elem_of_children.
  - intros c Hc Hin. left. apply Hl. destruct (Hq c Hc Hin); by auto.
  - intros f c Hfo Hc Hhd. apply Hl. destruct (Hh f c Hfo Hc Hhd); [left; by apply Rh with f|by right].
Qed.

Lemma sync_inv_worker D0 l0 root l st i st' :
  doc_inv colid doc D0 -> sync_inv D0 l0 root l st -> dagWorker col dockey i st = Some st' -> exists l', sync_inv D0 l0 root l' st'.
Proof.
  intros Hi [Id Ig Ib Ir Ik Is Ij Ih Ic Iq Ihd] Hs. unfold dagWorker in Hs.
  destruct (ss_jobs st !! i) as [job|] eqn:Ei; [|done].
  destruct (Ij job) as (Hnd & Hf & Hreach); [by eapply list_elem_of_lookup_2|].
  set (c0 := Node_Cid (j_node job)) in *. rewrite Hf in Hs.
  destruct (process_block c0 (j_node job) true (ss_store st) (ss_queued st) Hnd) as (s' & children & Hrun & Ed & Hk & Hh & Ech).
  { rewrite Id. apply data_inv; [done|]. intros c Hc. by apply Ig. }
  { intros f c Hfo Hc Hhd. by apply Is, Ihd with f. }
  rewrite Hrun in Hs.
  assert (exists hs, st' = mkSession s' (Remove c0 (ss_queued st)) (delete i (ss_jobs st)) (ss_handlers st ++ hs) /\
    concat (snd <$> hs) = children /\ forall j cs, (j, cs) ∈ hs -> cs = children /\ cs <> [] /\ j = job) as (hs & -> & Epend & Hhs).
  { destruct children as [|c children]; injection Hs as <-.
    - exists []. split; [by rewrite app_nil_r|]. split; [done|]. by intros j cs ?%elem_of_nil.
    - exists [(job, c :: children)]. split; [done|]. split; [cbn; by rewrite app_nil_r|]. by intros j cs [= -> ->]%list_elem_of_singleton. }
  clear Hs. exists (l ++ [c0]).
  assert (forall c, c ∈ l ++ [c0] <-> c ∈ l \/ c = c0) as Hl by (intros c; by rewrite elem_of_app, list_elem_of_singleton).
  set (st' := mkSession _ _ _ _).
  assert (forall c, c ∈ job_cids st -> c ∈ l ++ [c0] \/ c ∈ job_cids st') as Hjobs.
  { intros c (j & -> & Hj)%list_elem_of_fmap. destruct (delete_split _ _ _ _ Ei Hj) as [Hj'| ->]; [|left; apply Hl; by right].
    right. apply list_elem_of_fmap. by exists j. }
  assert (forall c, c ∈ pending st' <-> c ∈ pending st \/ c ∈ children) as Hpend.
  { intros c. unfold pending. cbn [ss_handlers st']. rewrite fmap_app, concat_app, elem_of_app. by rewrite Epend. }
  split; cbn [ss_store ss_queued ss_jobs ss_handlers st'].
  - by rewrite ops_snoc, <- Id.
  - intros c [Hc| ->]%Hl; [by apply Ig|]. split; [by eexists|by right].
  - intros c Hc. apply Hl. left. by apply Ib.
  - apply Hl. by left.
  - intros c Hc [Hkc| ->]%Hk; [|left; apply Hl; by right|done]. destruct (Ik c Hc Hkc) as [?|?]; [left; apply Hl; by left|by apply Hjobs].
  - intros c [Hc| ->]%Hl; apply Hk; [by apply Ig|left; by apply Is|by eexists|by right].
  - intros j Hj. apply Ij. by eapply delete_sub.
  - intros j cs [Hj|[-> [Hne ->]]%Hhs]%elem_of_app; [by apply Ih|]. split; [done|]. split; [done|].
    intros c. rewrite Ech. by intros [? _]%elem_of_children.
  - intros c nd' c' [Hc| ->]%Hl Hnd' Hin.
    + destruct (Ic c nd' c' Hc Hnd' Hin) as [?|[Hj|?]]; [left; apply Hl; by left| |right; right; apply Hpend; by left].
      destruct (Hjobs c' Hj); [by left|right; by left].
    + rewrite Hnd in Hnd'. injection Hnd' as <-. destruct (dw_links Hdag _ _ _ Hnd Hin) as (_ & Hc' & _).
      destruct (known_in (views s') c') eqn:E; [|right; right; apply Hpend; right; rewrite Ech; by apply elem_of_children].
      apply Hk in E as [E| ->]; [|left; apply Hl; by right|done].
      destruct (Ik c' Hc' E) as [?|Hj]; [left; apply Hl; by left|]. destruct (Hjobs c' Hj); [by left|right; by left].
  - intros c Hc [Hq _]%elem_of_Remove. destruct (Iq c Hc Hq) as [?|?]; [left; apply Hl; by left|by apply Hjobs].
  - intros f c Hfo Hc Hhd. apply Hl. destruct (Hh f c Hfo Hc Hhd); [left; by apply Ihd with f|by right].
Qed.

Lemma handler_step i st job c cs :
  st.(ss_handlers) !! i = Some (job, c :: cs) -> is_Some (G.(dag_node) c) ->
  let hs := took_child i st.(ss_handlers) job cs in
  handleChildBlocks getter i st = Some
    (if decide (c ∈ st.(ss_queued)) then mkSession st.(ss_store) st.(ss_queued) st.(ss_jobs) hs
     else mkSession (getter c st.(ss_store)).1 (c :: st.(ss_queued))
            (st.(ss_jobs) ++ [mkDagJob (childField job.(j_fieldName) job.(j_node) c) (default OtherNode (G.(dag_node) c))]) hs).
Proof.
  intros Ei [nd Hnd] hs. unfold handleChildBlocks, Visit. rewrite Ei. case_decide; [done|]. cbn [fst snd].
  pose proof (go_found Hgetter c nd (ss_store st) Hnd) as Hg. destruct (getter c (ss_store st)) as [s' r]. cbn in Hg. subst r. by rewrite Hnd.
Qed.

Lemma sync_inv_handler D0 l0 root l st i st' :
  sync_inv D0 l0 root l st -> handleChildBlocks getter i st = Some st' -> sync_inv D0 l0 root l st'.
Proof.
  intros [Id Ig Ib Ir Ik Is Ij Ih Ic Iq Ihd] Hs.
  destruct (ss_handlers st !! i) as [[job [|c cs]]|] eqn:Ei; [by unfold handleChildBlocks in Hs; rewrite Ei in Hs| |by unfold handleChildBlocks in Hs; rewrite Ei in Hs].
  destruct (Ih job (c :: cs)) as (_ & (Hnd & Hf & Hreach) & Hcs); [by eapply list_elem_of_lookup_2|].
  destruct (dw_links Hdag _ _ c Hnd (Hcs c ltac:(left))) as (_ & Hc & _ & Hcf). destruct Hc as [nd Hc].
  rewrite (handler_step i st job c cs Ei) in Hs by by eexists. injection Hs as <-. rewrite Hc. cbn [default].
  assert (forall x, x ∈ pending st -> x = c \/ x ∈ concat (snd <$> took_child i (ss_handlers st) job cs)) as Hpend.
  { intros x. by apply took_child_pending. }
  assert (forall j cs', (j, cs') ∈ took_child i (ss_handlers st) job cs ->
    cs' <> [] /\ job_ok root j /\ forall c, c ∈ cs' -> c ∈ links j.(j_node)) as Hhs.
  { intros j cs' [Hj|(-> & -> & Hne)]%(took_child_handlers _ _ _ c); [by apply Ih| |done]. split; [done|]. split; [done|].
    intros x Hx. apply Hcs. by right. }
  case_decide as Hq.
  - split; cbn [ss_store ss_queued ss_jobs ss_handlers]; unfold job_cids, pending in *; cbn [ss_jobs ss_handlers]; try done.
    intros c1 nd1 c' Hc1 Hnd1 Hin. destruct (Ic c1 nd1 c' Hc1 Hnd1 Hin) as [?|[?|Hp]]; [by left|right; by left|].
    destruct (Hpend _ Hp) as [->|?]; [|right; by right]. destruct (Iq c ltac:(by eexists) Hq); [by left|right; by left].
  - rewrite Hf, Hcf. set (j := mkDagJob (dag_field G c) nd). set (st' := mkSession _ _ _ _).
    pose proof (dw_cid Hdag _ _ Hc) as Ec.
    assert (forall x, x ∈ job_cids st' <-> x ∈ job_cids st \/ x = c) as Hjobs.
    { intros x. unfold job_cids, st'. cbn [ss_jobs]. rewrite fmap_app, elem_of_app. cbn. by rewrite list_elem_of_singleton, Ec. }
    assert (forall n, n <> NBlock -> views (ss_store st') n = views (ss_store st) n) as Hv by (intros n; apply Hgetter).
    split; cbn [ss_queued ss_jobs ss_handlers st']; try done.
    + by rewrite Hv.
    + intros x Hx Hk. rewrite Hjobs. unfold known_in in Hk. apply bool_decide_eq_true in Hk.
      apply (go_block Hgetter) in Hk as [Hk|E]; [|right; right; apply (dw_key Hdag); [done|by eexists|done]].
      destruct (Ik x Hx) as [?|?]; [by apply bool_decide_eq_true|by left|right; by left].
    + intros x Hx. apply bool_decide_eq_true, (go_keeps Hgetter). by apply Is, bool_decide_eq_true in Hx.
    + intros j' [Hj'| ->%list_elem_of_singleton]%elem_of_app; [by apply Ij|]. unfold job_ok. cbn. rewrite Ec.
      split; [done|]. split; [done|]. eapply reach_link; [exact Hreach|exact Hnd|]. apply Hcs. left.
    + intros c1 nd1 c' Hc1 Hnd1 Hin. rewrite Hjobs. destruct (Ic c1 nd1 c' Hc1 Hnd1 Hin) as [?|[?|Hp]]; [by left|right; left; by left|].
      destruct (Hpend _ Hp) as [->|?]; [right; left; by right|right; by right].
    + intros x Hx [->|Hin]%elem_of_cons; rewrite Hjobs; [right; by right|]. destruct (Iq x Hx Hin); [by left|right; by left].
    + intros f x Hfo Hx. rewrite Hv by done. by apply Ihd.
Qed.

Lemma sync_inv_step D0 l0 root l st st' :
  doc_inv colid doc D0 -> sync_inv D0 l0 root l st -> sync_step col dockey getter st st' -> exists l', sync_inv D0 l0 root l' st'.
Proof.
  intros Hi Hs [i Hstep|i Hstep]; [by eapply sync_inv_worker|]. exists l. by eapply sync_inv_handler.
Qed.

(** *** Sessions end *)

Definition node_links (c : Cid) : list Cid := match G.(dag_node) c with Some nd => links nd | None => [] end.

Definition total (f : Cid -> nat) (l : list Cid) : nat := sum_list (f <$> l).

(** The steps that a block can cause: its own, and those of its links. *)
Fixpoint weight (fuel : nat) (c : Cid) : nat :=
  match fuel with O => 1 | Datatypes.S k => 1 + total (fun c' => Datatypes.S (weight k c')) (node_links c) end.

Definition block_weight (c : Cid) : nat := weight (Datatypes.S (G.(dag_rank) c)) c.

Definition measure (st : @session S _) : nat :=
  total block_weight (job_cids st) + total (fun c => Datatypes.S (block_weight c)) (pending st).

Lemma total_ext f g l : (forall c, c ∈ l -> f c = g c) -> total f l = total g l.
Proof.
  unfold total. induction l as [|c l IH]; intros Hfg; [done|]. cbn. rewrite (Hfg c) by left. f_equal. apply IH. intros x Hx. apply Hfg. by right.
Qed.

Lemma total_app f l l' : total f (l ++ l') = (total f l + total f l')%nat.
Proof. unfold total. rewrite fmap_app. induction (f <$> l); cbn; lia. Qed.

Lemma total_one f c : total f [c] = f c.
Proof. unfold total. cbn. lia. Qed.

Lemma total_filter f p l : (total f (List.filter p l) <= total f l)%nat.
Proof. unfold total. induction l as [|c l IH]; [done|]. cbn. destruct (p c); cbn; lia. Qed.

Lemma weight_fuel c k k' : (G.(dag_rank) c < k)%nat -> (G.(dag_rank) c < k')%nat -> weight k c = weight k' c.
Proof.
  revert c k'. induction k as [|k IH]; intros c [|k'] Hk Hk'; [lia..|]. cbn. f_equal. apply total_ext. intros c' Hc'. f_equal.
  unfold node_links in Hc'. destruct (dag_node G c) as [nd|] eqn:E; [|by apply elem_of_nil in Hc'].
  destruct (dw_links Hdag _ _ _ E Hc') as (_ & _ & Hlt & _). apply IH; lia.
Qed.

Lemma block_weight_links c nd :
  G.(dag_node) c = Some nd -> block_weight c = Datatypes.S (total (fun c' => Datatypes.S (block_weight c')) (links nd)).
Proof.
  intros Hnd. unfold block_weight at 1. cbn [weight]. unfold node_links. rewrite Hnd. rewrite Nat.add_1_l. f_equal. apply total_ext.
  intros c' Hc'. f_equal.
  destruct (dw_links Hdag _ _ _ Hnd Hc') as (_ & _ & Hlt & _). apply weight_fuel; lia.
Qed.

Lemma total_job_cids (jobs : list dagJob) i job :
  jobs !! i = Some job ->
  let cids := fmap (fun j => Node_Cid j.(j_node)) in
  total block_weight (cids jobs) = (block_weight (Node_Cid job.(j_node)) + total block_weight (cids (delete i jobs)))%nat.
Proof.
  intros Hi cids. unfold cids. rewrite <- (take_drop_middle jobs i job Hi) at 1. rewrite delete_take_drop, !fmap_app, !total_app. cbn.
  unfold total at 2. cbn. unfold total. lia.
Qed.

Lemma total_took_child f hs i job c cs :
  hs !! i = Some (job, c :: cs) -> total f (concat (snd <$> hs)) = (f c + total f (concat (snd <$> took_child i hs job cs)))%nat.
Proof.
  intros Hi. pose proof (lookup_lt_Some _ _ _ Hi) as Hlt. rewrite <- (take_drop_middle hs i _ Hi) at 1. unfold took_child.
  rewrite fmap_app, concat_app, fmap_cons, total_app. cbn [concat snd]. rewrite total_app.
  assert (total f (c :: cs) = f c + total f cs)%nat as -> by done. destruct cs as [|c' cs].
  - rewrite delete_take_drop, fmap_app, concat_app, total_app. cbn. lia.
  - rewrite insert_take_drop, fmap_app, concat_app, fmap_cons, total_app by done. cbn [concat snd]. rewrite total_app. lia.
Qed.

Lemma sync_step_measure D0 l0 root l st st' :
  doc_inv colid doc D0 -> sync_inv D0 l0 root l st -> sync_step col dockey getter st st' -> (measure st' < measure st)%nat.
Proof.
  intros Hi [Id Ig Ib Ir Ik Is Ij Ih Ic Iq Ihd] [i Hs|i Hs].
  - unfold dagWorker in Hs. destruct (ss_jobs st !! i) as [job|] eqn:Ei; [|done].
    destruct (Ij job) as (Hnd & Hf & Hreach); [by eapply list_elem_of_lookup_2|]. rewrite Hf in Hs.
    destruct (process_block _ (j_node job) true (ss_store st) (ss_queued st) Hnd) as (s' & children & Hrun & _ & _ & _ & Ech).
    { rewrite Id. apply data_inv; [done|]. intros c Hc. by apply Ig. }
    { intros f c Hfo Hc Hhd. by apply Is, Ihd with f. }
    rewrite Hrun in Hs. pose proof (total_job_cids _ _ _ Ei) as Ej. cbv zeta in Ej. rewrite (block_weight_links _ _ Hnd) in Ej.
    pose proof (total_filter (fun c => Datatypes.S (block_weight c)) (fun c' => negb (known_in (views s') c')) (links (j_node job))) as Hle.
    rewrite <- Ech in Hle. unfold measure, job_cids, pending. rewrite Ej.
    destruct children as [|c children]; injection Hs as <-; cbn [ss_jobs ss_handlers]; [lia|].
    rewrite fmap_app, concat_app, total_app. cbn [fmap list_fmap concat snd]. rewrite app_nil_r. lia.
  - destruct (ss_handlers st !! i) as [[job [|c cs]]|] eqn:Ei; [by unfold handleChildBlocks in Hs; rewrite Ei in Hs| |by unfold handleChildBlocks in Hs; rewrite Ei in Hs].
    destruct (Ih job (c :: cs)) as (_ & (Hnd & _) & Hcs); [by eapply list_elem_of_lookup_2|].
    destruct (dw_links Hdag _ _ c Hnd (Hcs c ltac:(left))) as (_ & [nd Hc] & _).
    rewrite (handler_step i st job c cs Ei) in Hs by by eexists. injection Hs as <-. rewrite Hc. cbn [default].
    unfold measure, job_cids, pending. rewrite (total_took_child _ _ _ _ _ _ Ei).
    case_decide; cbn [ss_jobs ss_handlers]; [lia|]. rewrite fmap_app, total_app. cbn [fmap list_fmap j_node id].
    rewrite (dw_cid Hdag _ _ Hc), total_one. lia.
Qed.

Lemma sync_progress D0 l0 root l st :
  doc_inv colid doc D0 -> sync_inv D0 l0 root l st -> quiescent st \/ exists st', sync_step col dockey getter st st'.
Proof.
  intros Hi [Id Ig Ib Ir Ik Is Ij Ih Ic Iq Ihd]. destruct (ss_jobs st) as [|job jobs] eqn:Ej.
  - destruct (ss_handlers st) as [|[job [|c cs]] hs] eqn:Eh; [by left|by destruct (Ih job [] ltac:(left))|]. right.
    destruct (Ih job (c :: cs) ltac:(left)) as (_ & (Hnd & _) & Hcs).
    destruct (dw_links Hdag _ _ c Hnd (Hcs c ltac:(left))) as (_ & Hc & _).
    eexists. eapply (sync_handler _ _ _ _ _ 0). apply (handler_step 0 st job c cs); [by rewrite Eh|done].
  - right. destruct (Ij job ltac:(left)) as (Hnd & Hf & _).
    destruct (process_block _ (j_node job) true (ss_store st) (ss_queued st) Hnd) as (s' & children & Hrun & _).
    { rewrite Id. apply data_inv; [done|]. intros c Hc. by apply Ig. }
    { intros f c Hfo Hc Hhd. by apply Is, Ihd with f. }
    assert (exists st', dagWorker col dockey 0 st = Some st') as [st' Hst]; [|exists st'; by eapply sync_worker].
    unfold dagWorker. rewrite Ej. cbn [lookup list_lookup]. rewrite Hf, Hrun. destruct children; by eexists.
Qed.

Lemma sync_inv_rtc D0 l0 root l st st' :
  doc_inv colid doc D0 -> sync_inv D0 l0 root l st -> rtc (sync_step col dockey getter) st st' -> exists l', sync_inv D0 l0 root l' st'.
Proof.
  intros Hi Hs Hr. revert l Hs. induction Hr as [st|st st1 st' Hstep _ IH]; intros l Hs; [by exists l|].
  destruct (sync_inv_step _ _ _ _ _ _ Hi Hs Hstep) as [l' Hs']. by eapply IH.
Qed.

Lemma sync_acc D0 l0 root l st :
  doc_inv colid doc D0 -> sync_inv D0 l0 root l st -> Acc (fun st' st => sync_step col dockey getter st st') st.
Proof.
  intros Hi. remember (measure st) as n eqn:En. revert st l En. induction (lt_wf n) as [n _ IH]. intros st l -> Hs. constructor.
  intros st' Hstep. destruct (sync_inv_step _ _ _ _ _ _ Hi Hs Hstep) as [l' Hs']. eapply IH; [|done|exact Hs'].
  by eapply sync_step_measure.
Qed.

Lemma session_result D0 l0 root nd s queued :
  doc_inv colid doc D0 -> replica D0 l0 (views s) -> G.(dag_node) root = Some nd -> G.(dag_field) root = "" ->
  (forall c, is_Some (G.(dag_node) c) -> c ∈ queued -> c ∈ l0 \/ c = root) ->
  exists st, startSession col dockey root nd s queued = Some st /\
    Acc (fun st' st => sync_step col dockey getter st st') st /\
    forall st', rtc (sync_step col dockey getter) st st' ->
      (exists st'', sync_step col dockey getter st' st'') \/
      (quiescent st' /\ exists l, replica D0 l (views st'.(ss_store)) /\ forall c, c ∈ l <-> c ∈ l0 \/ reach root c).
Proof.
  intros Hi Hrep Hnd Hf Hq. destruct (sync_start _ _ _ _ _ _ Hi Hrep Hnd Hf Hq) as (st & Est & Hs).
  exists st. split; [done|]. split; [by eapply sync_acc|]. intros st' Hr. destruct (sync_inv_rtc _ _ _ _ _ _ Hi Hs Hr) as [l' Hs'].
  destruct (sync_progress _ _ _ _ _ Hi Hs') as [Hqu|?]; [right|by left]. split; [done|]. exists l'. by apply quiescent_replica.
Qed.

Lemma quiescent_stops st st' : quiescent st -> ~ sync_step col dockey getter st st'.
Proof.
  intros [Ej Eh] [i Hi|i Hi]; [unfold dagWorker in Hi; by rewrite Ej in Hi|unfold handleChildBlocks in Hi; by rewrite Eh in Hi].
Qed.

Lemma runSession_rtc fuel st : rtc (sync_step col dockey getter) st (runSession col dockey getter fuel st).
Proof.
  revert st. induction fuel as [|fuel IH]; intros st; [done|]. cbn. destruct (dagWorker col dockey 0 st) as [st'|] eqn:E.
  - eapply rtc_l; [by eapply sync_worker|apply IH].
  - destruct (handleChildBlocks getter 0 st) as [st'|] eqn:E'; [|done]. eapply rtc_l; [by eapply sync_handler|apply IH].
Qed.

(** What a replica holds depends on the set of blocks that it has merged. *)
Lemma replica_same D0 l l' V V' :
  doc_inv colid doc D0 -> replica D0 l V -> replica D0 l' V' -> (forall c, c ∈ l <-> c ∈ l') -> V NData = V' NData.
Proof.
  intros Hi HV HV' Hl. rewrite (re_data _ _ _ HV), (re_data _ _ _ HV').
  apply (foldl_same_elements (doc_apply colid doc) (doc_inv colid doc) op_ok).
  - intros m o. apply doc_inv_apply; [apply colid_ok|done].
  - intros m o o'. apply doc_apply_comm; [apply colid_ok|done].
  - intros m o. apply doc_apply_idem; [apply colid_ok|done].
  - by apply ops_ok, HV.
  - by apply ops_ok, HV'.
  - done.
  - intros o. unfold ops_of. rewrite !list_elem_of_fmap. by setoid_rewrite Hl.
Qed.


End SyncSpec.

(** ** PushLog (net/server.go) *)

Section PushLog.
Context {D S : Type} `{TxnDB D S} `{MultiStore S} `{DsKey} `{CidOps} `{!BlockKeys} `{!DagOps} `{CborCodec} `{PubSub}.

Definition ErrMaxTxnRetries (e : error) : error := ErrWrap "reached maximum transaction reties" e.

(** The test for a conflict, the block store outside the transaction, the collection of a
    schema, and the decoding of the block. *)
Variable isConflict : error -> bool.
Variable Blockstore_Has : Cid -> D -> result bool.
Variable GetCollectionBySchemaID : string -> S -> result collection.
Variable decodeBlockBuffer : bytes -> Cid -> result Node.
Variable getter : Cid -> M S Node.
Variable ps : bool.

(** What other transactions do to the database. *)
Variable others : D -> D -> Prop.

Record PushLogRequest := mkPushLogRequest {
  rq_Cid : Cid;
  rq_DocKey : string;
  rq_SchemaID : string;
  rq_Block : bytes;
}.

(** The database, the blocks in process and the topics. *)
Record server := mkServer {
  sv_db : D;
  sv_queued : list Cid;
  sv_topics : gmap string bool;
}.

(** One round up to its commit: the session that was run, the database at the commit, and what
    the commit gives. *)
Inductive txnRound (req : PushLogRequest) (v : server) : collection -> @session S _ -> D -> D * result unit -> Prop :=
  | txn_round s col nd st st' d :
      NewTxn false v.(sv_db) = Ok s -> GetCollectionBySchemaID req.(rq_SchemaID) s = Ok col ->
      decodeBlockBuffer req.(rq_Block) req.(rq_Cid) = Ok nd ->
      startSession col (DataStoreKeyFromDocKey req.(rq_DocKey)) req.(rq_Cid) nd s v.(sv_queued) = Some st ->
      rtc (sync_step col (DataStoreKeyFromDocKey req.(rq_DocKey)) getter) st st' -> quiescent st' ->
      others v.(sv_db) d -> txnRound req v col st' d (commit_store st'.(ss_store) d).

(** The subscription after a commit. *)
Definition subscribeDoc (schemaID docKey : string) : M (gmap string bool) unit :=
  let* has := hasPubSubTopic schemaID in
  if (has : bool) then mret tt else addPubSubTopic ps docKey true.

(** The retry loop, with the rounds that are left and the error of the last commit. *)
Inductive retryLoop (req : PushLogRequest) : nat -> error -> server -> server -> result unit -> Prop :=
  | rl_exhausted e v : retryLoop req 0 e v v (Err (ErrMaxTxnRetries e))
  | rl_txn n e0 v e : NewTxn false v.(sv_db) = Err e -> retryLoop req (Datatypes.S n) e0 v v (Err e)
  | rl_collection n e0 v s e :
      NewTxn false v.(sv_db) = Ok s -> GetCollectionBySchemaID req.(rq_SchemaID) s = Err e ->
      retryLoop req (Datatypes.S n) e0 v v (Err (ErrWrap "Failed to get collection from schemaID" e))
  | rl_decode n e0 v s col e :
      NewTxn false v.(sv_db) = Ok s -> GetCollectionBySchemaID req.(rq_SchemaID) s = Ok col ->
      decodeBlockBuffer req.(rq_Block) req.(rq_Cid) = Err e ->
      retryLoop req (Datatypes.S n) e0 v v (Err (ErrWrap "failed to decode block to ipld.Node" e))
  | rl_done n e0 v col st d d' t r :
      txnRound req v col st d (d', Ok tt) -> subscribeDoc col.(col_schemaID) req.(rq_DocKey) v.(sv_topics) = (t, r) ->
      retryLoop req (Datatypes.S n) e0 v (mkServer d' st.(ss_queued) t) r
  | rl_commit_fails n e0 v col st d d' e :
      txnRound req v col st d (d', Err e) -> isConflict e = false ->
      retryLoop req (Datatypes.S n) e0 v (mkServer d' st.(ss_queued) v.(sv_topics)) (Err e)
  | rl_retry n e0 v col st d d' e v' r :
      txnRound req v col st d (d', Err e) -> isConflict e = true ->
      retryLoop req n e (mkServer d' st.(ss_queued) v.(sv_topics)) v' r ->
      retryLoop req (Datatypes.S n) e0 v v' r.

Definition set_queued (q : list Cid) (v : server) : server := mkServer v.(sv_db) q v.(sv_topics).

Inductive PushLog (retries : nat) (req : PushLogRequest) (v : server) : server -> result unit -> Prop :=
  | pl_visited : (Visit req.(rq_Cid) v.(sv_queued)).2 = false -> PushLog retries req v v (Ok tt)
  | pl_has_fails e :
      (Visit req.(rq_Cid) v.(sv_queued)).2 = true -> Blockstore_Has req.(rq_Cid) v.(sv_db) = Err e ->
      PushLog retries req v (set_queued (Remove req.(rq_Cid) (Visit req.(rq_Cid) v.(sv_queued)).1) v)
        (Err (ErrWrap "failed to check for existing block" e))
  | pl_known :
      (Visit req.(rq_Cid) v.(sv_queued)).2 = true -> Blockstore_Has req.(rq_Cid) v.(sv_db) = Ok true ->
      PushLog retries req v (set_queued (Remove req.(rq_Cid) (Visit req.(rq_Cid) v.(sv_queued)).1) v) (Ok tt)
  | pl_loop v' r :
      (Visit req.(rq_Cid) v.(sv_queued)).2 = true -> Blockstore_Has req.(rq_Cid) v.(sv_db) = Ok false ->
      retryLoop req retries (ErrNew "") (set_queued (Visit req.(rq_Cid) v.(sv_queued)).1 v) v' r ->
      PushLog retries req v (set_queued (Remove req.(rq_Cid) v'.(sv_queued)) v') r.

Lemma txnRound_fails req v col st d d' e : txnRound req v col st d (d', Err e) -> others v.(sv_db) d'.
Proof.
  intros Hr. remember (d', Err e) as o eqn:Eo. destruct Hr as [s col nd st st' d _ _ _ _ _ _ Hod].
  pose proof (commit_store_fails (ss_store st') d) as Hf. rewrite Eo in Hf. cbn in Hf. by rewrite Hf.
Qed.

(** The loop ends with the commit of a whole session, or the database has changed by what
    others did and nothing else. *)
Lemma retryLoop_outcome req n e v v' r :
  retryLoop req n e v v' r ->
  (exists v1 col st d, txnRound req v1 col st d (v'.(sv_db), Ok tt) /\ v'.(sv_queued) = st.(ss_queued)) \/
  (r <> Ok tt /\ v'.(sv_topics) = v.(sv_topics) /\ rtc others v.(sv_db) v'.(sv_db)).
Proof.
  intros Hl. induction Hl as [| | | |n e0 v col st d d' t r Hr Hs|n e0 v col st d d' e Hr Hc|n e0 v col st d d' e v' r Hr Hc _ IH].
  1-4: by right.
  - left. by exists v, col, st, d.
  - right. split; [done|]. split; [done|]. eapply rtc_once, txnRound_fails, Hr.
  - destruct IH as [?|(? & ? & IH)]; [by left|]. right. split; [done|]. split; [done|]. eapply rtc_l; [by eapply txnRound_fails|exact IH].
Qed.

(** A pushed block is not left in process, unless it was in process before. *)
Lemma PushLog_released retries req v v' r :
  PushLog retries req v v' r -> rq_Cid req ∈ sv_queued v -> v' = v /\ r = Ok tt.
Proof.
  intros [Hv|e Hv _|Hv _|v1 r1 Hv _ _] Hin; [done|exfalso..]; unfold Visit in Hv; by rewrite decide_True in Hv.
Qed.

End PushLog.
