(* ===== verification/SyncExamples.v ===== *)
(** * Synchronisation: examples

    A document of one field with three versions, synchronised by a replica that knows none
    or some of its blocks. *)

From S2P Require Import Prelude GoStd Keys Store MultiStore Crdt Clock Desc Schema Fetcher DocOps Topics Sync.

Module SyncExamples.
Import MultiInstances CrdtWitness.

(** A CID is a number above the links of the node and the length of its data. *)
#[export] Program Instance DagOps_len : DagOps := {|
  Node_Cid n := N.succ (foldr N.max 0%N (L_Cid <$> Node_Links n) + match n with ProtoNode d _ => N.of_nat (String.length d) | OtherNode => 0%N end);
  Node_RawData n := match n with ProtoNode d _ => d | OtherNode => "" end;
  Cid_Bytes := Cid_String;
  link_order l := l |}.
Next Obligation. done. Qed.
Next Obligation. intros n. apply Bool.negb_true_iff, N.eqb_neq. lia. Qed.
Next Obligation.
  intros n l Hin E.
  assert (forall x cs, x ∈ cs -> (x <= foldr N.max 0 cs)%N) as Hmax.
  { intros x cs. induction cs as [|y cs IH]; [by intros ?%elem_of_nil|]. cbn.
    intros [->|Hx]%elem_of_cons; [lia|]. specialize (IH Hx). lia. }
  assert (L_Cid l ∈ L_Cid <$> Node_Links n) as Hl by (apply list_elem_of_fmap; eauto).
  apply Hmax in Hl. cbn in *. lia.
Qed.

#[local] Existing Instance MultiStoreFrom.
#[local] Existing Instance LawfulMultiStoreFrom.

Definition name_field : FieldDescription := mkField "name" 1 FieldKind_STRING "" "" LWW_REGISTER 0.
Definition users : collection :=
  mkCollection 1 "users" (mkCollectionDescription "User" 1 (mkSchema "users" "sv" "User"
    [mkField "_key" 0 FieldKind_DocKey "" "" NONE_CRDT 0; name_field])).

Definition node_of (d : Delta) (heads : list Cid) : Node := match makeNode d heads with Ok n => n | _ => OtherNode end.
Definition link_node (name : string) (n : Node) : DAGLink := mkDAGLink _ name (Node_Cid n).

Definition comp (prio : Z) (links : list DAGLink) : CompositeDAGDelta := mkCompositeDAGDelta _ "sv" prio "" "doc" links 1 "".

(** The first version sets the field, the others are changes of the document alone. *)
Definition delta_f : LWWRegDelta := mkLWWRegDelta "sv" 1 "ann" "doc" "name".
Definition node_f : Node := node_of (DLWW delta_f) [].
Definition node1 : Node := node_of (DComposite (comp 1 [link_node "name" node_f])) [].
Definition node2 : Node := node_of (DComposite (comp 2 [])) [Node_Cid node1].
Definition node3 : Node := node_of (DComposite (comp 3 [])) [Node_Cid node2].

(** The blocks by their CIDs. *)
Definition table : list (N * Node) := (fun n => (Node_Cid n, n)) <$> [node_f; node1; node2; node3].

Definition find_node (c : N) : option Node := snd <$> List.find (fun e => N.eqb e.1 c) table.

Definition decode_delta (c : N) : doc_delta :=
  match find_node c with
  | Some n =>
      if N.eqb c (Node_Cid node_f) then match LWW_DeltaDecode n with Ok (DLWW d) => FieldDelta "1" d | _ => FieldDelta "" delta_f end
      else match Composite_DeltaDecode n with Ok (DComposite d) => DocDelta d | _ => FieldDelta "" delta_f end
  | None => FieldDelta "" delta_f
  end.

Definition example_dag : dag :=
  mkDag find_node (fun c => if N.eqb c (Node_Cid node_f) then "name" else "") (fun c => if N.eqb c (Node_Cid node_f) then "1" else "C")
    decode_delta N.to_nat.

(** A getter that fetches from the table, and one that a block cannot be had from. *)
Definition get_all (c : N) : M contents Node := fun s => (s, match find_node c with Some n => Ok n | None => Err (ErrNew "not found") end).
Definition get_but (missing : N) (c : N) : M contents Node := if N.eqb c missing then mfail (ErrNew "timeout") else get_all c.

Definition sync (getter : N -> M contents Node) (n : Node) (s : contents) (queued : list N) : session :=
  match startSession users (DataStoreKeyFromDocKey "doc") (Node_Cid n) n s queued with
  | Some st => runSession users (DataStoreKeyFromDocKey "doc") getter 20 st
  | None => mkSession s queued [] []
  end.

Definition heads (s : contents) : result (list N * Z) := (heads_List (mkHeadStoreKey _ "doc" "C" Cid_Undef) s).2.

(** ** The DAG is well-formed *)

Lemma find_node_table c n : find_node c = Some n -> (c, n) ∈ table.
Proof.
  unfold find_node. destruct (List.find _ table) as [[c' n']|] eqn:E; [|done]. intros [= <-].
  apply List.find_some in E as [Hin Hc]. apply N.eqb_eq in Hc. cbn in Hc. subst c'. by apply list_elem_of_In.
Qed.

(** A property of all blocks is checked block by block. *)
Lemma table_forall (p : N -> Node -> bool) : forallb (fun e => p e.1 e.2) table = true -> forall c n, find_node c = Some n -> p c n = true.
Proof. intros Hall c n Hn%find_node_table%list_elem_of_In. rewrite forallb_forall in Hall. apply (Hall _ Hn). Qed.

Definition check_link (c : N) (nd : Node) (c' : N) : bool :=
  Cid_Defined c' && bool_decide (is_Some (find_node c')) && (c' <? c)%N &&
  String.eqb (childField (dag_field example_dag c) nd c') (dag_field example_dag c').

Definition check_delta (c : N) (nd : Node) : bool :=
  if N.eqb c (Node_Cid node_f)
  then match LWW_DeltaDecode nd with Ok (DLWW d) => (0 <=? d.(LD_Priority)) && (d.(LD_Priority) <? 2 ^ 64) | _ => false end
  else match Composite_DeltaDecode nd with Ok (DComposite _) => true | _ => false end.

Lemma example_dag_wf : dag_wf users example_dag.
Proof.
  split; cbn [example_dag dag_node dag_fid dag_delta].
  - intros c nd Hnd. apply N.eqb_eq. revert c nd Hnd. apply (table_forall (fun c nd => N.eqb (Node_Cid nd) c)). by vm_compute.
  - intros c nd c' Hnd Hin. apply list_elem_of_In in Hin.
    assert (check_link c nd c' = true) as Hc.
    { revert c' Hin. apply forallb_forall. revert c nd Hnd. apply (table_forall (fun c nd => forallb (check_link c nd) (links nd))). by vm_compute. }
    unfold check_link in Hc. rewrite !Bool.andb_true_iff, bool_decide_eq_true, N.ltb_lt, String.eqb_eq in Hc.
    destruct Hc as [[[? ?] ?] ?]. split; [done|]. split; [done|]. split; [|done]. cbn. lia.
  - intros c nd Hnd. assert (check_delta c nd = true) as Hc.
    { revert c nd Hnd. apply (table_forall check_delta). by vm_compute. }
    unfold check_delta in Hc. cbn [dag_field example_dag]. unfold decode_delta. rewrite Hnd. destruct (N.eqb c (Node_Cid node_f)).
    + destruct (LWW_DeltaDecode nd) as [[d|]| |] eqn:E; try done. apply Bool.andb_true_iff in Hc as [H1 H2].
      apply (holds_field users "name" nd name_field d); try done. unfold is_u64. lia.
    + destruct (Composite_DeltaDecode nd) as [[|d]| |] eqn:E; try done. by apply holds_composite.
  - intros c c' _ _. apply num_key_inj.
Qed.

Lemma find_node3 : find_node (Node_Cid node3) = Some node3.
Proof.
  unfold find_node, table. cbn [fmap list_fmap List.find fst].
  replace (Node_Cid node_f =? Node_Cid node3)%N with false by by vm_compute.
  replace (Node_Cid node1 =? Node_Cid node3)%N with false by by vm_compute.
  replace (Node_Cid node2 =? Node_Cid node3)%N with false by by vm_compute. by rewrite N.eqb_refl.
Qed.

Lemma get_all_ok : getter_ok example_dag get_all.
Proof.
  split; try done.
  - intros c nd s Hnd. unfold get_all. cbn in *. by rewrite Hnd.
  - intros c s c' Hc. by left.
Qed.

(** A replica without blocks. *)
Lemma replica_empty : replica users "doc" example_dag ∅ [] (views (∅ : contents)).
Proof.
  split; rewrite ?ClockWitness.views_empty; try (by intros ? ?%elem_of_nil).
  - done.
  - intros c _. unfold known_in. rewrite ClockWitness.views_empty, bool_decide_eq_true, lookup_empty.
    split; [by intros []|by intros ?%elem_of_nil].
  - intros c nd c' ?%elem_of_nil. done.
  - intros f c _ _. by rewrite ClockWitness.is_head_empty.
Qed.

Lemma queued_root (root c : N) : c ∈ [root] -> c ∈ ([] : list N) \/ c = root.
Proof. intros ->%list_elem_of_singleton. by right. Qed.


Lemma find_node2 : find_node (Node_Cid node2) = Some node2.
Proof.
  unfold find_node, table. cbn [fmap list_fmap List.find fst].
  replace (Node_Cid node_f =? Node_Cid node2)%N with false by by vm_compute.
  replace (Node_Cid node1 =? Node_Cid node2)%N with false by by vm_compute. by rewrite N.eqb_refl.
Qed.

Lemma reach_2_3 c : reach example_dag (Node_Cid node2) c -> reach example_dag (Node_Cid node3) c.
Proof.
  induction 1 as [|c1 nd c2 Hr IH Hnd Hin]; [|by eapply reach_link].
  eapply reach_link; [apply reach_self|exact find_node3|]. apply list_elem_of_In. left. by vm_compute.
Qed.

(** The session that the executable run makes. *)
Lemma sync_started getter n s q st :
  startSession users (DataStoreKeyFromDocKey "doc") (Node_Cid n) n s q = Some st ->
  rtc (sync_step users (DataStoreKeyFromDocKey "doc") getter) st (sync getter n s q).
Proof. intros E. unfold sync. rewrite E. apply runSession_rtc. Qed.

Definition finished (st : @session contents _) : bool :=
  match st.(ss_jobs), st.(ss_handlers) with [], [] => true | _, _ => false end.

Lemma finished_quiescent st : finished st = true -> quiescent st.
Proof. unfold finished, quiescent. destruct (ss_jobs st), (ss_handlers st); done. Qed.

(** A replica that knows all but the last version. *)
Definition partial : contents := ss_store (sync get_all node2 ∅ [Node_Cid node2]).

Lemma replica_partial :
  exists l, replica users "doc" example_dag ∅ l (views partial) /\ forall c, c ∈ l <-> c ∈ ([] : list N) \/ reach example_dag (Node_Cid node2) c.
Proof.
  destruct (session_result users "doc" eq_refl example_dag example_dag_wf get_all get_all_ok ∅ [] (Node_Cid node2) node2 ∅ [Node_Cid node2])
    as (st & Est & _ & Hres); [by apply doc_inv_empty|exact replica_empty|exact find_node2|by vm_compute|intros c _; apply queued_root|].
  destruct (Hres _ (sync_started get_all _ _ _ _ Est)) as [[st' Hst]|[_ Hl]]; [exfalso|exact Hl].
  eapply quiescent_stops; [|exact Hst]. apply finished_quiescent. by vm_compute.
Qed.


(** ** A pushed block *)

(** Transactions that work on a copy of the database, and topics that can always be joined. *)
#[local] Program Instance TxnDB_simple : TxnDB contents contents := {| NewTxn _ d := Ok d; commit_store s _ := (s, Ok tt) |}.
Next Obligation. done. Qed.

#[local] Program Instance PubSub_all : PubSub := {| NewTopic _ _ := Ok tt; Topic_Close _ := Ok tt |}.
Next Obligation. done. Qed.
Next Obligation. done. Qed.

Definition has (s : contents) (c : N) : result bool := (@bs_Has contents (store_of NBlock) _ _ c s).2.

Definition push3 : PushLogRequest := mkPushLogRequest (Node_Cid node3) "doc" "users" (Node_RawData node3).


(** ** Departures *)

Definition node4 : Node := node_of (DComposite (comp 4 [])) [Node_Cid node3].

End SyncExamples.
