(* ===== verification/Peer.v ===== *)
(** * The peer (net/peer.go, net/server.go, net/client.go)

    What a peer does with its topics and replicators: the topics it joins when it starts, the
    publication of updates of documents, the subscription to whole collections, and the table
    of replicators.  The pubsub network and remote calls are parameters; what is sent is
    recorded. *)

From Stdlib Require Import Ascii.
From S2P Require Import Prelude GoStd Keys Store MultiStore Crdt Clock Desc Schema Fetcher ClientDoc DocOps Topics Replicators.

(** ** The keys of all documents (db/collection.go) *)

(** [client.DocKeysResult]; the zero key is [None]. *)
Record DocKeysResult `{DocKeyOps} := mkDocKeysResult { dkr_Key : option DocKey; dkr_Err : option error }.

Section DocKeys.
Context {S : Type} `{MultiStore S} `{DsKey} `{DocKeyOps}.

(** [ds.Key.BaseNamespace]: the last element of a key. *)
Definition BaseNamespace (k : string) : string := default "" (last (Split k "/"%char)).

(** What is sent to the channel.  A key that cannot be parsed ends it with the error of the
    query result, which is nil. *)
Fixpoint sendDocKeys (es : list entry) : list DocKeysResult :=
  match es with
  | [] => []
  | Ok (k, _) :: es =>
      match NewDocKeyFromString (BaseNamespace (NewKey k)) with
      | Ok key => mkDocKeysResult _ _ (Some key) None :: sendDocKeys es
      | _ => [mkDocKeysResult _ _ None None]
      end
  | Err e :: _ => [mkDocKeysResult _ _ None (Some e)]
  | Panic :: _ => []
  end.

Definition getAllDocKeysChan (c : collection) : M S (list DocKeysResult) :=
  let prefix := mkPrimaryDataStoreKey (Sprint c.(col_colID)) "" in
  let* q := @ds_Query S (store_of NData) (PrimaryDataStoreKey_ToString prefix) in
  mret (sendDocKeys q).

(** [key.Key.String()]; a zero key has the version 0 and the nil UUID. *)
Definition dkr_String (r : DocKeysResult) : result string :=
  DocKey_String (match r.(dkr_Key) with Some key => key | None => mkDocKey 0 uuid_Nil Cid_Undef end).
End DocKeys.

(** ** Publication of updates *)

Section Publication.
Context `{PubSub} `{DocKeyOps}.
Variable ps : bool.

(** The peers of a topic, and whether a message can be published. *)
Variable ListPeers : string -> list string.
Variable Topic_Publish : string -> Update -> result unit.

(** The topics, the replicators by schema, the messages that were published, by topic, and the
    logs that were pushed, by peer. *)
Record network := mkNetwork {
  n_topics : gmap string bool;
  n_replicators : gmap string (gset string);
  n_published : list (string * Update);
  n_pushed : list (string * Update);
}.

Definition on_topics {A} (m : M (gmap string bool) A) : M network A := fun n =>
  let '(t, r) := m n.(n_topics) in (mkNetwork t n.(n_replicators) n.(n_published) n.(n_pushed), r).

Definition publish_msg (topic : string) (u : Update) : M network unit := fun n =>
  match Topic_Publish topic u with
  | Ok _ => (mkNetwork n.(n_topics) n.(n_replicators) (n.(n_published) ++ [(topic, u)]) n.(n_pushed), Ok tt)
  | Err e => (n, Err e)
  | Panic => (n, Panic)
  end.

Definition publishLog (topic : string) (u : Update) : M network unit :=
  if negb ps then mret tt
  else
    let* ok := on_topics (hasPubSubTopic topic) in
    let* _ := if (ok : bool) then mret tt else wrap_err "failed to created single use topic" (on_topics (addPubSubTopic ps topic false)) in
    wrap_err "failed publishing to thread" (publish_msg topic u).

Definition RegisterNewDocument (dockey : string) (schemaID : string) (u : Update) : M network unit :=
  let* has := on_topics (hasPubSubTopic schemaID) in
  let* _ := on_topics (addPubSubTopic ps dockey (negb has)) in
  publishLog schemaID u.

(** The replicators of the schema that do not get the message by one of the topics. *)
Definition pushTargets (u : Update) (n : network) : list string :=
  let peers := ListPeers u.(u_DocKey) ++ ListPeers u.(u_SchemaID) in
  match n.(n_replicators) !! u.(u_SchemaID) with
  | Some reps => List.filter (fun pid => bool_decide (pid ∉ peers)) (elements reps)
  | None => []
  end.

Definition pushLogToReplicators (u : Update) : M network unit := fun n =>
  (mkNetwork n.(n_topics) n.(n_replicators) n.(n_published) (n.(n_pushed) ++ ((fun pid => (pid, u)) <$> pushTargets u n)), Ok tt).

Definition handleDocCreateLog (evt : Update) : M network unit :=
  let* dockey := wrap_err "failed to get DocKey from broadcast message" (mlift (NewDocKeyFromString evt.(u_DocKey))) in
  let* s := mlift (DocKey_String dockey) in
  let* _ := RegisterNewDocument s evt.(u_SchemaID) evt in
  pushLogToReplicators evt.

Definition handleDocUpdateLog (evt : Update) : M network unit :=
  let* _ := wrap_err "failed to get DocKey from broadcast message" (mlift (NewDocKeyFromString evt.(u_DocKey))) in
  let* _ := pushLogToReplicators evt in
  let* _ := wrap_err "can't publish log for dockey" (publishLog evt.(u_DocKey) evt) in
  wrap_err "can't publish log for schemaID" (publishLog evt.(u_SchemaID) evt).

(** The loop over the updates of the database; errors are logged. *)
Fixpoint handleBroadcastLoop (updates : list Update) : M network unit :=
  match updates with
  | [] => mret tt
  | update :: updates =>
      let* _ := mtry (if update.(u_Priority) =? 1 then handleDocCreateLog update
                      else if 1 <? update.(u_Priority) then handleDocUpdateLog update
                      else mret tt) in
      handleBroadcastLoop updates
  end.
End Publication.

(** ** Subscription to collections *)

Section Subscription.
Context {S : Type} `{MultiStore S} `{DsKey} `{DescCodec} `{!DocKeyOps} `{PubSub}.
Variable ps : bool.

Local Abbreviation topics := (gmap string bool).

(** The rollbacks end with the cause, or with the error of a step of their own. *)
Fixpoint rollbackAddPubSubTopics {A} (names : list string) (cause : error) : M topics A :=
  match names with
  | [] => mfail cause
  | topic :: names => let* _ := removePubSubTopic ps topic in rollbackAddPubSubTopics names cause
  end.

Fixpoint rollbackRemovePubSubTopics {A} (names : list string) (cause : error) : M topics A :=
  match names with
  | [] => mfail cause
  | topic :: names => let* _ := addPubSubTopic ps topic true in rollbackRemovePubSubTopics names cause
  end.

(** The loops over topics; a failure takes back what the loop has done. *)
Fixpoint addTopics (names added : list string) : M topics (list string) :=
  match names with
  | [] => mret added
  | col :: names =>
      let* r := mtry (addPubSubTopic ps col true) in
      match r with inl _ => addTopics names (added ++ [col]) | inr err => rollbackAddPubSubTopics added err end
  end.

Fixpoint dropTopics (names removed : list string) : M topics (list string) :=
  match names with
  | [] => mret removed
  | col :: names =>
      let* r := mtry (removePubSubTopic ps col) in
      match r with inl _ => dropTopics names (removed ++ [col]) | inr err => rollbackRemovePubSubTopics removed err end
  end.

(** The state: the store, the transaction, and the topics. *)
Local Abbreviation P := ((S * S) * topics)%type.

Definition on_names {A} (m : M topics A) : M P A := fun st => let '(t, r) := m st.2 in ((st.1, t), r).

(** The strings of the keys of a collection, as the loop reads them off the channel. *)
Definition docNames (c : collection) : M P (list string) :=
  let* keys := on_store (in_txn (getAllDocKeysChan c)) in
  mlift (foldr (fun k r => let! s := dkr_String k in let! l := r in Ok (s :: l)) (Ok []) keys).

(** The loops over the documents of the collections. *)
Fixpoint forDocs (step : list string -> list string -> M topics (list string)) (cols : list collection) (done : list string) : M P (list string) :=
  match cols with
  | [] => mret done
  | col :: cols =>
      let* names := docNames col in
      let* done := on_names (step names done) in
      forDocs step cols done
  end.

Fixpoint getCollections (ids : list string) : M P (list collection) :=
  match ids with
  | [] => mret []
  | id :: ids => let* c := on_store (in_txn (getCollectionBySchemaID id)) in let* cs := getCollections ids in mret (c :: cs)
  end.

Fixpoint forIDs (op : string -> M (S * S) unit) (ids : list string) : M P unit :=
  match ids with [] => mret tt | id :: ids => let* _ := on_store (op id) in forIDs op ids end.

(** [txn.Commit]. *)
Variable commit : M (S * S) unit.

Definition AddP2PCollections (collections : list string) : M P unit :=
  let* storeCollections := getCollections collections in
  let* _ := forIDs addP2PCollection collections in
  let* addedTopics := on_names (addTopics collections []) in
  let* removedTopics := forDocs dropTopics storeCollections [] in
  let* r := mtry (on_store commit) in
  match r with
  | inl _ => mret tt
  | inr err =>
      let* r := mtry (on_names (rollbackRemovePubSubTopics (A := unit) removedTopics err)) in
      match r with
      | inl _ => mret tt
      | inr err => on_names (rollbackAddPubSubTopics addedTopics err)
      end
  end.

Definition RemoveP2PCollections (collections : list string) : M P unit :=
  let* storeCollections := getCollections collections in
  let* _ := forIDs removeP2PCollection collections in
  let* removedTopics := on_names (dropTopics collections []) in
  let* addedTopics := forDocs addTopics storeCollections [] in
  let* r := mtry (on_store commit) in
  match r with
  | inl _ => mret tt
  | inr err =>
      let* r := mtry (on_names (rollbackAddPubSubTopics (A := unit) addedTopics err)) in
      match r with
      | inl _ => mret tt
      | inr err => on_names (rollbackRemovePubSubTopics removedTopics err)
      end
  end.

(** The topics that a server joins when it starts: those of the subscribed collections, and
    those of the documents of the others. *)
Fixpoint joinAll (names : list string) : M topics unit :=
  match names with [] => mret tt | t :: names => let* _ := addPubSubTopic ps t true in joinAll names end.

Definition loadP2PCollections : M P (list string) :=
  let* r := mtry (on_store getAllP2PCollections) in
  match r with
  | inr err => if errors_Is err ErrNotFound then mret [] else mfail err
  | inl collections => let* _ := on_names (joinAll collections) in mret collections
  end.

Fixpoint registerDocs (colMap : list string) (cols : list collection) : M P unit :=
  match cols with
  | [] => mret tt
  | col :: cols =>
      let* _ := if bool_decide (col.(col_schemaID) ∈ colMap) then mret tt
                else let* names := docNames col in on_names (joinAll names) in
      registerDocs colMap cols
  end.

Definition newServer : M P unit :=
  if negb ps then mret tt
  else
    let* colMap := loadP2PCollections in
    let* cols := on_store (in_txn getAllCollections) in
    registerDocs colMap cols.
End Subscription.

(** ** The table of replicators *)

Section Table.

Local Abbreviation table := (gmap string (gset string)).

Definition add_replicator (pid : string) (m : table) (schema : string) : table :=
  match m !! schema with
  | Some reps => if decide (pid ∈ reps) then m else <[schema := {[pid]} ∪ reps]> m
  | None => <[schema := {[pid]}]> m
  end.

Definition loadReplicators (reps : list Replicator) (m : table) : table :=
  foldl (fun m rep => foldl (add_replicator rep.(rep_Info).(ai_ID)) m rep.(rep_Schemas)) m reps.

Definition ErrReplicatorExists : error := ErrNew "Replicator already exists".
Definition ErrTargetSelf : error := ErrNew "can't target ourselves as a replicator".

(** The loop that adds a peer to the collections; those before the one it is in already stay
    changed. *)
Fixpoint registerReplicator (pid : string) (schemas : list string) : M table unit :=
  match schemas with
  | [] => mret tt
  | schema :: schemas => fun m =>
      match m !! schema with
      | Some reps =>
          if decide (pid ∈ reps) then (m, Err ErrReplicatorExists)
          else registerReplicator pid schemas (<[schema := {[pid]} ∪ reps]> m)
      | None => registerReplicator pid schemas (<[schema := {[pid]}]> m)
      end
  end.

(** The peer is taken out of the given schemas; the number of schemas that it is left in. *)
Definition unregisterReplicator (pid : string) (schemas : list string) (m : table) : table * nat :=
  (map_imap (fun schema reps => Some (if bool_decide (schema ∈ schemas) then reps ∖ {[pid]} else reps)) m,
   size (filter (fun e : string * gset string => pid ∈ e.2 /\ e.1 ∉ schemas) m)).

(** [setReplicator] and [deleteReplicator] of the peer: the schemas of the collections that were
    named, the address, the table, and the store, in a transaction of its own. *)
Section Ops.
Context {D : Type}.
Variable self : string.
Variable db_SetReplicator : Replicator -> M D unit.
Variable db_DeleteReplicator : Replicator -> M D unit.

Definition on_table {A} (m : M table A) : M (D * table) A := fun st => let '(t, r) := m st.2 in ((st.1, t), r).

Definition peer_setReplicator (info : result AddrInfo) (schemas : list string) : M (D * table) string :=
  let* info := mlift info in
  if decide (info.(ai_ID) = self) then mfail ErrTargetSelf
  else
    let* _ := on_table (registerReplicator info.(ai_ID) schemas) in
    let* _ := wrap_err "failed to persist replicator" (on_store (db_SetReplicator (mkReplicator info schemas))) in
    mret info.(ai_ID).

Definition peer_deleteReplicator (pid : string) (schemas : list string) : M (D * table) unit :=
  if decide (pid = self) then mfail ErrTargetSelf
  else
    let* _ := on_table (fun m => ((unregisterReplicator pid schemas m).1, Ok tt)) in
    on_store (db_DeleteReplicator (mkReplicator (mkAddrInfo pid []) schemas)).
End Ops.
End Table.

(** ** What the table holds *)

Section TableSpec.

Local Abbreviation table := (gmap string (gset string)).

Definition in_table (m : table) (schema pid : string) : Prop := exists reps, m !! schema = Some reps /\ pid ∈ reps.

(** The table and the persisted replicators say the same. *)
Definition agree (m : table) (R : gmap string Replicator) : Prop :=
  forall schema pid, in_table m schema pid <-> exists rep, R !! pid = Some rep /\ schema ∈ rep.(rep_Schemas).

Lemma in_table_insert m schema reps s p :
  in_table (<[schema := reps]> m) s p <-> (s = schema /\ p ∈ reps) \/ (s <> schema /\ in_table m s p).
Proof.
  unfold in_table. destruct (decide (s = schema)) as [->|Hne].
  - setoid_rewrite lookup_insert_eq. naive_solver.
  - setoid_rewrite lookup_insert_ne; [|done]. naive_solver.
Qed.

Lemma in_table_add pid m schema s p : in_table (add_replicator pid m schema) s p <-> in_table m s p \/ (s = schema /\ p = pid).
Proof.
  unfold add_replicator. destruct (m !! schema) as [reps|] eqn:E.
  - case_decide; [|rewrite in_table_insert, elem_of_union, elem_of_singleton].
    + split; [by left|]. intros [?|[-> ->]]; [done|]. by exists reps.
    + unfold in_table. destruct (decide (s = schema)) as [->|]; [rewrite E|]; naive_solver.
  - rewrite in_table_insert, elem_of_singleton. unfold in_table. destruct (decide (s = schema)) as [->|]; [rewrite E|]; naive_solver.
Qed.

Lemma in_table_add_all pid schemas m s p :
  in_table (foldl (add_replicator pid) m schemas) s p <-> in_table m s p \/ (s ∈ schemas /\ p = pid).
Proof.
  revert m. induction schemas as [|x schemas IH]; intros m; cbn; [rewrite elem_of_nil; tauto|].
  rewrite IH, in_table_add, elem_of_cons. tauto.
Qed.

Lemma in_table_load reps m s p :
  in_table (loadReplicators reps m) s p <-> in_table m s p \/ exists rep, rep ∈ reps /\ rep.(rep_Info).(ai_ID) = p /\ s ∈ rep.(rep_Schemas).
Proof.
  unfold loadReplicators. revert m. induction reps as [|rep reps IH]; intros m; cbn.
  - setoid_rewrite elem_of_nil. naive_solver.
  - rewrite IH, in_table_add_all. setoid_rewrite elem_of_cons. naive_solver.
Qed.

Lemma registerReplicator_ok pid schemas m m' r :
  registerReplicator pid schemas m = (m', r) ->
  (r = Ok tt -> forall s p, in_table m' s p <-> in_table m s p \/ (s ∈ schemas /\ p = pid)) /\
  (forall s p, in_table m s p -> in_table m' s p) /\ (r <> Ok tt -> r = Err ErrReplicatorExists).
Proof.
  revert m. induction schemas as [|x schemas IH]; intros m; cbn.
  { intros [= <- <-]. split; [|by split]. intros _ s p. rewrite elem_of_nil. tauto. }
  pose proof (fun s p => in_table_add pid m x s p) as Hadd. unfold add_replicator in Hadd. destruct (m !! x) as [reps|] eqn:E.
  - case_decide.
    + intros [= <- <-]. by split; [|split].
    + intros (H1 & H2 & H3)%IH. split; [|split; [|done]].
      * intros Hr s p. rewrite (H1 Hr), Hadd, elem_of_cons. tauto.
      * intros s p Hs. apply H2, Hadd. by left.
  - intros (H1 & H2 & H3)%IH. split; [|split; [|done]].
    + intros Hr s p. rewrite (H1 Hr), Hadd, elem_of_cons. tauto.
    + intros s p Hs. apply H2, Hadd. by left.
Qed.

Lemma in_table_unregister pid schemas m s p :
  in_table (unregisterReplicator pid schemas m).1 s p <-> in_table m s p /\ ~ (p = pid /\ s ∈ schemas).
Proof.
  unfold unregisterReplicator, in_table. cbn. setoid_rewrite map_lookup_imap. destruct (m !! s) as [reps|]; cbn; [|naive_solver].
  split.
  - intros (r & [= <-] & Hp). case_bool_decide; set_solver.
  - intros [(r & [= <-] & Hp) Hn]. eexists. split; [done|]. case_bool_decide; set_solver.
Qed.

Lemma elem_of_newSchemas l l' x : x ∈ newSchemas l l' <-> x ∈ l' /\ x ∉ l.
Proof. unfold newSchemas. rewrite !list_elem_of_In, filter_In, bool_decide_eq_true, list_elem_of_In. done. Qed.
End TableSpec.

(** ** The table and the store *)

(** What the peer relies on of the database: the replicators are kept as a map, and a call that
    fails does not change it. *)
Class ReplicatorDB (D : Type) := {
  db_SetReplicator : Replicator -> M D unit;
  db_DeleteReplicator : Replicator -> M D unit;
  db_GetAllReplicators : M D (list Replicator);
  db_holds : D -> gmap string Replicator -> Prop;
  db_rep_ok : Replicator -> Prop;
  db_pid_ok : string -> Prop;
  db_ids : forall d R id rep, db_holds d R -> R !! id = Some rep -> rep.(rep_Info).(ai_ID) = id;
  db_set_law : forall d R rep, db_holds d R -> db_rep_ok rep ->
    match db_SetReplicator rep d with (d', Ok _) => db_holds d' (set_rep rep R) | (d', _) => db_holds d' R end;
  db_delete_law : forall d R rep, db_holds d R -> db_pid_ok rep.(rep_Info).(ai_ID) ->
    match db_DeleteReplicator rep d with
    | (d', Ok _) => exists R', delete_rep rep R = Ok R' /\ db_holds d' R'
    | (d', _) => db_holds d' R
    end;
  db_all_law : forall d R, db_holds d R ->
    match db_GetAllReplicators d with (d', Ok reps) => db_holds d' R /\ reps ≡ₚ (map_to_list R).*2 | (d', _) => db_holds d' R end;
}.

Section Agreement.
Context {D : Type} `{ReplicatorDB D}.
Variable self : string.

Inductive replicator_cmd :=
  | SetReplicator (info : AddrInfo) (schemas : list string)
  | DeleteReplicator (pid : string) (schemas : list string).

Definition run_replicator_cmd (c : replicator_cmd) : M (D * gmap string (gset string)) unit :=
  match c with
  | SetReplicator info schemas => let* _ := peer_setReplicator self db_SetReplicator (Ok info) schemas in mret tt
  | DeleteReplicator pid schemas => peer_deleteReplicator self db_DeleteReplicator pid schemas
  end.

Fixpoint run_replicator_cmds (cs : list replicator_cmd) : M (D * gmap string (gset string)) unit :=
  match cs with [] => mret tt | c :: cs => let* _ := run_replicator_cmd c in run_replicator_cmds cs end.

Definition cmd_ok (c : replicator_cmd) : Prop :=
  match c with
  | SetReplicator info schemas => db_rep_ok (mkReplicator info schemas)
  | DeleteReplicator pid schemas => schemas <> [] /\ db_pid_ok pid
  end.

Lemma agree_load R reps :
  (forall id rep, R !! id = Some rep -> rep.(rep_Info).(ai_ID) = id) -> reps ≡ₚ (map_to_list R).*2 -> agree (loadReplicators reps ∅) R.
Proof.
  intros Hids Hp schema pid. rewrite in_table_load. split.
  - intros [(reps' & E & _)|(rep & Hin & Eid & Hs)]; [by rewrite lookup_empty in E|]. exists rep. split; [|done].
    rewrite Hp in Hin. apply list_elem_of_fmap in Hin as ([id rep'] & -> & Hin%elem_of_map_to_list). cbn in *. by rewrite <- Eid, (Hids _ _ Hin).
  - intros (rep & Hrep & Hs). right. exists rep. split; [|split; [by apply Hids|done]]. rewrite Hp.
    apply list_elem_of_fmap. exists (pid, rep). split; [done|]. by apply elem_of_map_to_list.
Qed.

Lemma agree_set m R info schemas m' :
  agree m R -> registerReplicator info.(ai_ID) schemas m = (m', Ok tt) -> agree m' (set_rep (mkReplicator info schemas) R).
Proof.
  intros Ha Hr. destruct (registerReplicator_ok _ _ _ _ _ Hr) as (Hm & _). specialize (Hm eq_refl). intros s p. rewrite Hm, (Ha s p).
  unfold set_rep. cbn [rep_Info]. destruct (decide (p = ai_ID info)) as [->|Hne].
  - rewrite lookup_insert_eq. unfold merge_rep. destruct (R !! ai_ID info) as [ex|].
    + split; [|intros (rep & [= <-] & Hs); cbn in Hs; apply elem_of_app in Hs as [Hs|[Hs _]%elem_of_newSchemas]; [left; by exists ex|by right]].
      intros Hor. eexists. split; [done|]. cbn [rep_Schemas]. apply elem_of_app. rewrite elem_of_newSchemas.
      destruct Hor as [(rep & [= <-] & Hs)|[Hs _]]; [by left|]. destruct (decide (s ∈ rep_Schemas ex)); [by left|by right].
    + split; [intros [(rep & ? & _)|[Hs _]]; [done|]; by eexists|]. intros (rep & [= <-] & Hs). by right.
  - rewrite lookup_insert_ne by done. naive_solver.
Qed.

Lemma agree_delete m R pid schemas R' :
  (forall id rep, R !! id = Some rep -> rep.(rep_Info).(ai_ID) = id) ->
  agree m R -> schemas <> [] -> delete_rep (mkReplicator (mkAddrInfo pid []) schemas) R = Ok R' -> agree (unregisterReplicator pid schemas m).1 R'.
Proof.
  intros Hids Ha Hne Hd s p. rewrite in_table_unregister, (Ha s p). unfold delete_rep in Hd. cbn in Hd. destruct schemas as [|x xs]; [done|].
  destruct (R !! pid) as [ex|] eqn:E; [|done]. pose proof (fun y => elem_of_newSchemas (x :: xs) (rep_Schemas ex) y) as Hnew.
  destruct (newSchemas (x :: xs) (rep_Schemas ex)) as [|y l] eqn:El; injection Hd as <-.
  - setoid_rewrite lookup_delete_Some. split.
    + intros [(rep & Hrep & Hs) Hn]. exists rep. split; [|done]. split; [|done]. intros ->. rewrite E in Hrep. injection Hrep as ->.
      apply (elem_of_nil s), Hnew. split; [done|]. by intros ?; apply Hn.
    + intros (rep & [Hne' Hrep] & Hs). split; [by exists rep|]. by intros [-> _].
  - destruct (decide (p = pid)) as [->|Hp].
    + rewrite lookup_insert_eq, E. split.
      * intros [(rep & [= <-] & Hs) Hn]. eexists. split; [done|]. apply Hnew. split; [done|]. by intros ?; apply Hn.
      * intros (rep & [= <-] & Hs). apply Hnew in Hs as [Hs1 Hs2]. split; [by exists ex|]. by intros [_ ?].
    + rewrite lookup_insert_ne by done. naive_solver.
Qed.

Lemma run_cmd_agrees c d m d' m' R :
  cmd_ok c -> db_holds d R -> agree m R -> run_replicator_cmd c (d, m) = ((d', m'), Ok tt) -> exists R', db_holds d' R' /\ agree m' R'.
Proof.
  intros Hok Hd Ha. destruct c as [info schemas|pid schemas]; cbn [run_replicator_cmd cmd_ok] in *.
  - unfold peer_setReplicator, mlift, mret. unfold mbind at 1 2. cbn [fst snd]. case_decide; [done|]. unfold on_table, wrap_err, mtry, on_store, mbind. cbn [fst snd].
    destruct (registerReplicator (ai_ID info) schemas m) as [m1 r1] eqn:Er. cbn [fst snd]. destruct r1 as [[]| |]; [|done|done].
    pose proof (db_set_law d R _ Hd Hok) as Hl. destruct (db_SetReplicator (mkReplicator info schemas) d) as [d1 r]. cbn [fst snd].
    destruct r as [[]| |]; try done. intros [= <- <-]. eexists. split; [exact Hl|]. by eapply agree_set.
  - destruct Hok as [Hne Hok]. unfold peer_deleteReplicator. case_decide; [done|]. unfold on_table, on_store, mbind. cbn [fst snd].
    pose proof (db_delete_law d R (mkReplicator (mkAddrInfo pid []) schemas) Hd Hok) as Hl. destruct (db_DeleteReplicator _ d) as [d1 r]. cbn [fst snd].
    intros [= <- <- ->]. destruct Hl as (R' & Hdel & Hh). exists R'. split; [done|]. eapply agree_delete; [|done|done|exact Hdel].
    intros id rep. by apply (db_ids d).
Qed.

(** C21: The table that a peer loads when it starts agrees with the replicators in the store, and
    it stays in agreement over any sequence of calls that set and delete replicators and
    succeed, so that a restart makes no difference to what is pushed to whom. *)
Theorem replicator_table_agrees d R d0 reps cs d' m' :
  db_holds d R -> db_GetAllReplicators d = (d0, Ok reps) -> Forall cmd_ok cs ->
  run_replicator_cmds cs (d0, loadReplicators reps ∅) = ((d', m'), Ok tt) ->
  exists R', db_holds d' R' /\ agree m' R' /\
    forall d1 reps', db_GetAllReplicators d' = (d1, Ok reps') -> agree (loadReplicators reps' ∅) R'.
Proof.
  intros Hd Hall Hcs Hrun. pose proof (db_all_law d R Hd) as Hl. rewrite Hall in Hl. destruct Hl as [Hd0 Hp].
  assert (agree (loadReplicators reps ∅) R) as Ha by (apply agree_load; [intros id rep; by apply (db_ids d)|done]).
  assert (exists R', db_holds d' R' /\ agree m' R') as (R' & Hd' & Ha').
  { clear Hd Hall Hp. revert d0 R Hd0 Ha Hrun. generalize (loadReplicators reps ∅) as m.
    induction Hcs as [|c cs Hc _ IH]; intros m d0 R Hd0 Ha; cbn; [intros [= <- <-]; by exists R|]. unfold mbind.
    destruct (run_replicator_cmd c (d0, m)) as [[d1 m1] r] eqn:E. destruct r as [[]| |]; [|done|done]. intros Hrun.
    destruct (run_cmd_agrees _ _ _ _ _ _ Hc Hd0 Ha E) as (R1 & Hd1 & Ha1). by eapply IH. }
  exists R'. split; [done|]. split; [done|]. intros d1 reps' Hall'. pose proof (db_all_law d' R' Hd') as Hl. rewrite Hall' in Hl.
  destruct Hl as [_ Hp']. apply agree_load; [intros id rep; by apply (db_ids d')|done].
Qed.
End Agreement.

(** The store implements this, with transactions on a copy of it. *)
Section StoreReplicators.
Context {S : Type} `{LawfulMultiStore S} `{DsKey} `{DescCodec} `{!ReplicatorCodec}.

Definition own_txn {A} (m : M (S * S) A) : M S A := fun s =>
  let '((_, t), r) := m (s, s) in match r with Ok _ => (t, r) | _ => (s, r) end.

Lemma own_txn_ok {A} (m : M (S * S) A) s Vs Vt x : psteps m s s Vs Vt (Ok x) -> exists t, own_txn m s = (t, Ok x) /\ forall n, views t n = Vt n.
Proof. unfold psteps, own_txn. destruct (m (s, s)) as [[s1 t1] r]. cbn. intros (-> & _ & Ht). by exists t1. Qed.

Lemma own_txn_err {A} (m : M (S * S) A) s Vs Vt e : psteps m s s Vs Vt (Err e) -> own_txn m s = (s, Err e).
Proof. unfold psteps, own_txn. destruct (m (s, s)) as [[s1 t1] r]. cbn. by intros (-> & _ & _). Qed.

#[export] Program Instance ReplicatorDB_store : ReplicatorDB S := {|
  db_SetReplicator rep := own_txn (setReplicator rep);
  db_DeleteReplicator rep := own_txn (deleteReplicator rep);
  db_GetAllReplicators := own_txn getAllReplicators;
  db_holds s R := reps_of (views s NSystem) R;
  db_rep_ok rep := rep_ok rep;
  db_pid_ok pid := elem_ok pid = true |}.
Next Obligation. intros s R id rep Hr Hrep. by apply (rr_entry _ _ Hr) in Hrep as (_ & ? & _). Qed.
Next Obligation.
  intros s R rep Hr Hok. destruct (psteps_setReplicator rep R s s Hr (fun _ => eq_refl) Hok) as [Hs Hok'].
  destruct (own_txn_ok _ _ _ _ _ Hs) as (t & -> & Ht). rewrite Ht, upd_eq.
  pose proof (reps_of_saved _ _ _ Hr Hok') as Hm. unfold set_rep. by destruct (R !! ai_ID (rep_Info rep)).
Qed.
Next Obligation.
  intros s R rep Hr Hid. pose proof (psteps_deleteReplicator rep R s s Hr (fun _ => eq_refl) Hid) as Hd.
  destruct (delete_rep rep R) as [R'|e|] eqn:E; [|by rewrite (own_txn_err _ _ _ _ _ Hd)|done].
  destruct Hd as (m' & Hs & Hm'). destruct (own_txn_ok _ _ _ _ _ Hs) as (t & -> & Ht). exists R'. split; [done|]. by rewrite Ht, upd_eq.
Qed.
Next Obligation.
  intros s R Hr. destruct (psteps_getAllReplicators R s s Hr) as (reps & Hs & Hp).
  destruct (own_txn_ok _ _ _ _ _ Hs) as (t & -> & Ht). by rewrite Ht.
Qed.
End StoreReplicators.

(** ** The topics after a subscription *)

Section SubscriptionSpec.
Context {S : Type} `{MultiStore S} `{DsKey} `{DescCodec} `{!DocKeyOps} `{PubSub}.

Local Abbreviation topics := (gmap string bool).

Definition join_all (names : list string) (t : topics) : topics := foldl (fun t n => <[n := true]> t) t names.
Definition leave_all (names : list string) (t : topics) : topics := foldl (fun t n => delete n t) t names.

Lemma lookup_join_all names t k : join_all names t !! k = if decide (k ∈ names) then Some true else t !! k.
Proof.
  unfold join_all. revert t. induction names as [|n names IH]; intros t; cbn; [by rewrite decide_False by apply not_elem_of_nil|].
  rewrite IH. destruct (decide (k = n)) as [->|Hne]; [|rewrite lookup_insert_ne by done].
  - rewrite lookup_insert_eq, (decide_True (P := n ∈ n :: names)) by left. by case_decide.
  - repeat case_decide; set_solver.
Qed.

Lemma lookup_leave_all names t k : leave_all names t !! k = if decide (k ∈ names) then None else t !! k.
Proof.
  unfold leave_all. revert t. induction names as [|n names IH]; intros t; cbn; [by rewrite decide_False by apply not_elem_of_nil|].
  rewrite IH. destruct (decide (k = n)) as [->|Hne]; [|rewrite lookup_delete_ne by done].
  - rewrite lookup_delete_eq, (decide_True (P := n ∈ n :: names)) by left. by case_decide.
  - repeat case_decide; set_solver.
Qed.

Lemma rollbackAdd_fails {A} names cause t : forall x, (rollbackAddPubSubTopics (A := A) true names cause t).2 <> Ok x.
Proof.
  revert t. induction names as [|n names IH]; intros t x; cbn [rollbackAddPubSubTopics]; [done|]. unfold mbind.
  destruct (removePubSubTopic true n t) as [t1 [[]| |]]; [apply IH|done..].
Qed.

Lemma rollbackRemove_fails {A} names cause t : forall x, (rollbackRemovePubSubTopics (A := A) true names cause t).2 <> Ok x.
Proof.
  revert t. induction names as [|n names IH]; intros t x; cbn [rollbackRemovePubSubTopics]; [done|]. unfold mbind.
  destruct (addPubSubTopic true n true t) as [t1 [[]| |]]; [apply IH|done..].
Qed.

Lemma addTopics_ok names added t t' out :
  addTopics true names added t = (t', Ok out) -> out = added ++ names /\ t' = join_all names t.
Proof.
  revert added t. induction names as [|n names IH]; intros added t; cbn [addTopics]; [intros [= <- <-]; by rewrite app_nil_r|].
  unfold mbind, mtry. destruct (addPubSubTopic true n true t) as [t1 r] eqn:E.
  pose proof (addPubSubTopic_spec true n true t t1 r eq_refl E) as Hs. destruct r as [[]|e|]; [| |done].
  - intros [-> ->]%IH. rewrite <- app_assoc. split; [done|]. rewrite Hs, Bool.orb_true_r. done.
  - intros Hr. exfalso. eapply (rollbackAdd_fails added e t1 out). by rewrite Hr.
Qed.

Lemma dropTopics_ok names removed t t' out :
  dropTopics true names removed t = (t', Ok out) -> out = removed ++ names /\ t' = leave_all names t.
Proof.
  revert removed t. induction names as [|n names IH]; intros removed t; cbn [dropTopics]; [intros [= <- <-]; by rewrite app_nil_r|].
  unfold mbind, mtry. destruct (removePubSubTopic true n t) as [t1 r] eqn:E.
  pose proof (removePubSubTopic_spec true n t t1 r eq_refl E) as Hs. destruct r as [[]|e|]; [| |done].
  - intros [-> ->]%IH. rewrite <- app_assoc. split; [done|]. by rewrite Hs.
  - intros Hr. exfalso. eapply (rollbackRemove_fails removed e t1 out). by rewrite Hr.
Qed.

Lemma join_all_app l l' t : join_all (l ++ l') t = join_all l' (join_all l t).
Proof. apply foldl_app. Qed.

Lemma leave_all_app l l' t : leave_all (l ++ l') t = leave_all l' (leave_all l t).
Proof. apply foldl_app. Qed.

(** On a network that does not fail. *)
Definition network_up : Prop := (forall n b, NewTopic n b = Ok tt) /\ (forall n, Topic_Close n = Ok tt).

Lemma removePubSubTopic_up n t : network_up -> removePubSubTopic true n t = (delete n t, Ok tt).
Proof.
  intros [_ Hc]. destruct (removePubSubTopic true n t) as [t1 r] eqn:E. pose proof (removePubSubTopic_spec _ _ _ _ _ eq_refl E) as ->.
  f_equal. revert E. unfold removePubSubTopic, get_topics, set_topics, mbind, mret, mlift. cbn. rewrite Hc. destruct (t !! n); congruence.
Qed.

Lemma addPubSubTopic_up n t : network_up -> addPubSubTopic true n true t = (<[n := true]> t, Ok tt).
Proof.
  intros [Hn Hc]. destruct (addPubSubTopic true n true t) as [t1 r] eqn:E. assert (r = Ok tt) as ->.
  { revert E. unfold addPubSubTopic, get_topics, set_topics, mbind, mret, mlift. cbn. rewrite Hc, Hn. destruct (t !! n) as [[]|]; cbn; congruence. }
  rewrite (addPubSubTopic_spec _ _ _ _ _ _ eq_refl E). by rewrite Bool.orb_true_r.
Qed.

Lemma rollbackAdd_up {A} names cause t : network_up -> rollbackAddPubSubTopics (A := A) true names cause t = (leave_all names t, Err cause).
Proof.
  intros Hu. revert t. induction names as [|n names IH]; intros t; cbn [rollbackAddPubSubTopics]; [done|].
  unfold mbind. by rewrite removePubSubTopic_up, IH.
Qed.

Lemma rollbackRemove_up {A} names cause t : network_up -> rollbackRemovePubSubTopics (A := A) true names cause t = (join_all names t, Err cause).
Proof.
  intros Hu. revert t. induction names as [|n names IH]; intros t; cbn [rollbackRemovePubSubTopics]; [done|].
  unfold mbind. by rewrite addPubSubTopic_up, IH.
Qed.

Lemma addTopics_up names added t : network_up -> addTopics true names added t = (join_all names t, Ok (added ++ names)).
Proof.
  intros Hu. revert added t. induction names as [|n names IH]; intros added t; cbn [addTopics]; [by rewrite app_nil_r|].
  unfold mbind, mtry. rewrite addPubSubTopic_up, IH by done. by rewrite <- app_assoc.
Qed.

Lemma dropTopics_up names removed t : network_up -> dropTopics true names removed t = (leave_all names t, Ok (removed ++ names)).
Proof.
  intros Hu. revert removed t. induction names as [|n names IH]; intros removed t; cbn [dropTopics]; [by rewrite app_nil_r|].
  unfold mbind, mtry. rewrite removePubSubTopic_up, IH by done. by rewrite <- app_assoc.
Qed.

(** The names of the documents of collections, read after [op] has changed the transaction. *)
Definition collect (names done : list string) : M topics (list string) := mret (done ++ names).
Definition doc_list (op : string -> M (S * S) unit) (ids : list string) : M ((S * S) * topics) (list string) :=
  let* cols := getCollections ids in
  let* _ := forIDs op ids in
  forDocs collect cols [].

(** Actions that neither read nor change the topics. *)
Definition ignores_topics {A} (m : M ((S * S) * topics) A) : Prop :=
  forall st t st' t' r, m (st, t) = ((st', t'), r) -> t' = t /\ forall u, m (st, u) = ((st', u), r).

Lemma ignores_on_store {A} (m : M (S * S) A) : ignores_topics (on_store m).
Proof. intros st t st' t' r. unfold on_store. cbn. destruct (m st). by intros [= <- <- <-]. Qed.

Lemma ignores_bind {A B} (m : M _ A) (f : A -> M _ B) : ignores_topics m -> (forall a, ignores_topics (f a)) -> ignores_topics (mbind m f).
Proof.
  intros Hm Hf st t st' t' r. unfold mbind. destruct (m (st, t)) as [[st1 t1] r1] eqn:E. destruct (Hm _ _ _ _ _ E) as [-> Hu].
  destruct r1 as [a|e|].
  - intros E2. destruct (Hf _ _ _ _ _ _ E2) as [-> Hu2]. split; [done|]. intros u. by rewrite Hu, Hu2.
  - intros [= <- <- <-]. split; [done|]. intros u. by rewrite Hu.
  - intros [= <- <- <-]. split; [done|]. intros u. by rewrite Hu.
Qed.

Lemma ignores_lift {A} (r : result A) : ignores_topics (mlift r).
Proof. intros st t st' t' r'. by intros [= <- <- <-]. Qed.

Lemma ignores_docNames c : ignores_topics (docNames c).
Proof. apply ignores_bind; [apply ignores_on_store|]. intros l. apply ignores_lift. Qed.

Lemma ignores_getCollections ids : ignores_topics (getCollections ids).
Proof.
  induction ids as [|id ids IH]; [apply (ignores_lift (Ok []))|]. apply ignores_bind; [apply ignores_on_store|]. intros c.
  apply ignores_bind; [apply IH|]. intros cs. apply (ignores_lift (Ok _)).
Qed.

Lemma ignores_forIDs op ids : ignores_topics (forIDs op ids).
Proof. induction ids as [|id ids IH]; [apply (ignores_lift (Ok tt))|]. apply ignores_bind; [apply ignores_on_store|]. done. Qed.

(** The two operations up to their commit: [outer] treats the topics of the collections, [inner]
    those of their documents. *)
Section Change.
Variable op : string -> M (S * S) unit.
Variables outer inner : list string -> list string -> M topics (list string).
Variables fo fi : list string -> topics -> topics.
Hypothesis outer_ok : forall names done t t' out, outer names done t = (t', Ok out) -> out = done ++ names /\ t' = fo names t.
Hypothesis inner_ok : forall names done t t' out, inner names done t = (t', Ok out) -> out = done ++ names /\ t' = fi names t.
Hypothesis fi_nil : forall t, fi [] t = t.
Hypothesis fi_app : forall l l' t, fi (l ++ l') t = fi l' (fi l t).

Definition change (ids : list string) : M ((S * S) * topics) (list string * list string) :=
  let* cols := getCollections ids in
  let* _ := forIDs op ids in
  let* o := on_names (outer ids []) in
  let* i := forDocs inner cols [] in
  mret (o, i).

Lemma forDocs_ok cols done st t st' t' out :
  forDocs inner cols done (st, t) = ((st', t'), Ok out) ->
  exists docs, (forall u d, forDocs collect cols d (st, u) = ((st', u), Ok (d ++ docs))) /\ out = done ++ docs /\ t' = fi docs t.
Proof.
  revert done st t. induction cols as [|c cols IH]; intros done st t; cbn.
  { intros [= <- <- <-]. exists []. rewrite fi_nil, app_nil_r. split; [|done]. intros u d. by rewrite app_nil_r. }
  unfold mbind at 1. destruct (docNames c (st, t)) as [[st1 t1] [names| |]] eqn:En; [|done|done].
  destruct (ignores_docNames _ _ _ _ _ _ En) as [-> Hu]. unfold mbind, on_names. cbn [fst snd].
  destruct (inner names done t) as [t2 [done2| |]] eqn:Es; [|done|done].
  destruct (inner_ok _ _ _ _ _ Es) as [-> ->]. intros (docs & Hd & -> & ->)%IH. exists (names ++ docs).
  split; [|by rewrite app_assoc, fi_app]. intros u d. rewrite Hu. cbn. by rewrite Hd, app_assoc.
Qed.

Lemma change_ok ids st t st' t' o i :
  change ids (st, t) = ((st', t'), Ok (o, i)) ->
  o = ids /\ t' = fi i (fo ids t) /\ forall u, doc_list op ids (st, u) = ((st', u), Ok i).
Proof.
  unfold change, doc_list. unfold mbind at 1. destruct (getCollections ids (st, t)) as [[st1 t1] [cols| |]] eqn:Eg; [|done|done].
  destruct (ignores_getCollections _ _ _ _ _ _ Eg) as [-> Hg].
  unfold mbind at 1. destruct (forIDs op ids (st1, t)) as [[st2 t2] [[]| |]] eqn:Ef; [|done|done].
  destruct (ignores_forIDs _ _ _ _ _ _ _ Ef) as [-> Hf]. unfold mbind at 1. unfold on_names at 1. cbn [fst snd].
  destruct (outer ids [] t) as [t3 [o'| |]] eqn:Eo; [|done|done]. destruct (outer_ok _ _ _ _ _ Eo) as [-> ->].
  unfold mbind at 1. destruct (forDocs inner cols [] _) as [[st4 t4] [i'| |]] eqn:Ed; [|done|done].
  destruct (forDocs_ok _ _ _ _ _ _ _ Ed) as (docs & Hd & -> & ->). intros [= <- <- <- <-]. split; [done|]. split; [done|].
  intros u. unfold mbind. rewrite Hg, Hf. apply (Hd u []).
Qed.

Hypothesis outer_up : forall names done t, outer names done t = (fo names t, Ok (done ++ names)).
Hypothesis inner_up : forall names done t, inner names done t = (fi names t, Ok (done ++ names)).

Lemma forDocs_up cols done d st t u st' u' l :
  forDocs collect cols d (st, u) = ((st', u'), Ok l) ->
  exists docs, l = d ++ docs /\ forDocs inner cols done (st, t) = ((st', fi docs t), Ok (done ++ docs)).
Proof.
  revert d done st t. induction cols as [|c cols IH]; intros d done st t; cbn.
  { intros [= <- _ <-]. exists []. by rewrite fi_nil, !app_nil_r. }
  unfold mbind at 1. destruct (docNames c (st, u)) as [[st1 t1] [names| |]] eqn:En; [|done|done].
  destruct (ignores_docNames _ _ _ _ _ _ En) as [-> Hu]. unfold mbind at 1. unfold on_names at 1. cbn [fst snd collect mret].
  intros (docs & -> & Hd)%(IH _ (done ++ names) _ (fi names t)). exists (names ++ docs). split; [by rewrite app_assoc|].
  unfold mbind at 1. rewrite Hu. unfold mbind, on_names. cbn [fst snd]. by rewrite inner_up, Hd, fi_app, app_assoc.
Qed.

Lemma change_up ids st t u st' u' docs :
  doc_list op ids (st, u) = ((st', u'), Ok docs) -> change ids (st, t) = ((st', fi docs (fo ids t)), Ok (ids, docs)).
Proof.
  unfold change, doc_list. unfold mbind at 1. destruct (getCollections ids (st, u)) as [[st1 t1] [cols| |]] eqn:Eg; [|done|done].
  destruct (ignores_getCollections _ _ _ _ _ _ Eg) as [-> Hg].
  unfold mbind at 1. destruct (forIDs op ids (st1, u)) as [[st2 t2] [[]| |]] eqn:Ef; [|done|done].
  destruct (ignores_forIDs _ _ _ _ _ _ _ Ef) as [-> Hf]. intros (docs' & -> & Hd)%(forDocs_up _ [] _ _ (fo ids t)).
  unfold mbind. rewrite Hg, Hf. unfold on_names. cbn [fst snd]. by rewrite outer_up, Hd.
Qed.
End Change.

(** The operations are this and their commit, with the rollbacks when it fails. *)
Definition finish (commit : M (S * S) unit) (undoI undoO : list string -> error -> M topics unit) (o i : list string) : M ((S * S) * topics) unit :=
  let* r := mtry (on_store commit) in
  match r with
  | inl _ => mret tt
  | inr err =>
      let* r := mtry (on_names (undoI i err)) in
      match r with inl _ => mret tt | inr err => on_names (undoO o err) end
  end.

Lemma AddP2PCollections_change commit ids st :
  AddP2PCollections true commit ids st =
  mbind (change addP2PCollection (addTopics true) (dropTopics true) ids)
    (fun p => finish commit (rollbackRemovePubSubTopics true) (rollbackAddPubSubTopics true) p.1 p.2) st.
Proof.
  unfold AddP2PCollections, change, mbind. destruct (getCollections ids st) as [st1 [cols| |]]; [|done|done].
  destruct (forIDs addP2PCollection ids st1) as [st2 [[]| |]]; [|done|done].
  destruct (on_names (addTopics true ids []) st2) as [st3 [o| |]]; [|done|done]. by destruct (forDocs (dropTopics true) cols [] st3) as [st4 [i| |]].
Qed.

Lemma RemoveP2PCollections_change commit ids st :
  RemoveP2PCollections true commit ids st =
  mbind (change removeP2PCollection (dropTopics true) (addTopics true) ids)
    (fun p => finish commit (rollbackAddPubSubTopics true) (rollbackRemovePubSubTopics true) p.1 p.2) st.
Proof.
  unfold RemoveP2PCollections, change, mbind. destruct (getCollections ids st) as [st1 [cols| |]]; [|done|done].
  destruct (forIDs removeP2PCollection ids st1) as [st2 [[]| |]]; [|done|done].
  destruct (on_names (dropTopics true ids []) st2) as [st3 [o| |]]; [|done|done]. by destruct (forDocs (addTopics true) cols [] st3) as [st4 [i| |]].
Qed.

Lemma finish_ok commit undoI undoO o i st t st' t' :
  (forall l e t x, (undoI l e t).2 <> Ok x) -> (forall l e t x, (undoO l e t).2 <> Ok x) ->
  finish commit undoI undoO o i (st, t) = ((st', t'), Ok tt) -> commit st = (st', Ok tt) /\ t' = t.
Proof.
  intros HI HO. unfold finish, mbind, mtry, on_store, on_names. cbn [fst snd].
  destruct (commit st) as [st1 [[]|e|]]; [by intros [= <- <-]| |done].
  cbn [fst snd]. specialize (HI i e t). destruct (undoI i e t) as [t1 [[]|e1|]]; [by destruct (HI tt)| |done].
  cbn [fst snd]. specialize (HO o e1 t1). destruct (undoO o e1 t1) as [t2 [[]|e2|]]; [by destruct (HO tt)|done|done].
Qed.

(** Subscribing to collections (peer.go, AddP2PCollections) succeeds only if the commit
    succeeds, and then the collections are subscribed to, the documents that they list are not,
    and every other topic is as it was.  Unsubscribing (RemoveP2PCollections) is the reverse:
    their documents are subscribed to and the collections are left. *)
Theorem P2PCollections_topics commit ids st t st' t' :
  (AddP2PCollections true commit ids (st, t) = ((st', t'), Ok tt) ->
   exists st1 docs, doc_list addP2PCollection ids (st, t) = ((st1, t), Ok docs) /\ commit st1 = (st', Ok tt) /\
     forall k, t' !! k = if decide (k ∈ docs) then None else if decide (k ∈ ids) then Some true else t !! k) /\
  (RemoveP2PCollections true commit ids (st, t) = ((st', t'), Ok tt) ->
   exists st1 docs, doc_list removeP2PCollection ids (st, t) = ((st1, t), Ok docs) /\ commit st1 = (st', Ok tt) /\
     forall k, t' !! k = if decide (k ∈ docs) then Some true else if decide (k ∈ ids) then None else t !! k).
Proof.
  split.
  - rewrite AddP2PCollections_change. unfold mbind. destruct (change _ _ _ ids (st, t)) as [[st1 t1] [[o i]| |]] eqn:Ec; [|done|done].
    destruct (change_ok _ _ _ join_all leave_all addTopics_ok dropTopics_ok (fun _ => eq_refl) leave_all_app _ _ _ _ _ _ _ Ec) as (-> & -> & Hd).
    intros [Hc ->]%finish_ok; [|apply rollbackRemove_fails|apply rollbackAdd_fails]. exists st1, i. split; [done|]. split; [done|].
    intros k. by rewrite lookup_leave_all, lookup_join_all.
  - rewrite RemoveP2PCollections_change. unfold mbind. destruct (change _ _ _ ids (st, t)) as [[st1 t1] [[o i]| |]] eqn:Ec; [|done|done].
    destruct (change_ok _ _ _ leave_all join_all dropTopics_ok addTopics_ok (fun _ => eq_refl) join_all_app _ _ _ _ _ _ _ Ec) as (-> & -> & Hd).
    intros [Hc ->]%finish_ok; [|apply rollbackAdd_fails|apply rollbackRemove_fails]. exists st1, i. split; [done|]. split; [done|].
    intros k. by rewrite lookup_join_all, lookup_leave_all.
Qed.

(** On a network that does not fail, the operations end as the commit does.  When it fails
    they end with its error and the topics are as they were: for a subscription when its
    collections had not been joined and their documents were subscribed to, for its reverse when
    the collections were subscribed to and their documents had not been joined. *)
Theorem P2PCollections_commit commit ids st t st1 docs st' r :
  network_up -> commit st1 = (st', r) ->
  (doc_list addP2PCollection ids (st, t) = ((st1, t), Ok docs) ->
   exists t', AddP2PCollections true commit ids (st, t) = ((st', t'), r) /\
     ((forall c, c ∈ ids -> t !! c = None) -> (forall d, d ∈ docs -> t !! d = Some true) -> forall e, r = Err e -> t' = t)) /\
  (doc_list removeP2PCollection ids (st, t) = ((st1, t), Ok docs) ->
   exists t', RemoveP2PCollections true commit ids (st, t) = ((st', t'), r) /\
     ((forall c, c ∈ ids -> t !! c = Some true) -> (forall d, d ∈ docs -> t !! d = None) -> forall e, r = Err e -> t' = t)).
Proof.
  intros Hu Hc. split; intros Hd.
  - rewrite AddP2PCollections_change. unfold mbind.
    rewrite (change_up _ (addTopics true) (dropTopics true) join_all leave_all (fun _ => eq_refl) leave_all_app (fun _ _ _ => addTopics_up _ _ _ Hu) (fun _ _ _ => dropTopics_up _ _ _ Hu) _ _ t _ _ _ _ Hd).
    unfold finish, mbind, mtry, on_store, on_names. cbn [fst snd]. rewrite Hc.
    destruct r as [[]|e|]; [by eexists| |by eexists]. cbn [fst snd]. rewrite rollbackRemove_up by done. cbn [fst snd].
    rewrite rollbackAdd_up by done. eexists. split; [done|]. intros Ha Hb _ _. apply map_eq. intros k.
    rewrite lookup_leave_all, lookup_join_all, lookup_leave_all, lookup_join_all.
    case_decide; [by rewrite Ha|]. case_decide; [by rewrite Hb|done].
  - rewrite RemoveP2PCollections_change. unfold mbind.
    rewrite (change_up _ (dropTopics true) (addTopics true) leave_all join_all (fun _ => eq_refl) join_all_app (fun _ _ _ => dropTopics_up _ _ _ Hu) (fun _ _ _ => addTopics_up _ _ _ Hu) _ _ t _ _ _ _ Hd).
    unfold finish, mbind, mtry, on_store, on_names. cbn [fst snd]. rewrite Hc.
    destruct r as [[]|e|]; [by eexists| |by eexists]. cbn [fst snd]. rewrite rollbackAdd_up by done. cbn [fst snd].
    rewrite rollbackRemove_up by done. eexists. split; [done|]. intros Ha Hb _ _. apply map_eq. intros k.
    rewrite lookup_join_all, lookup_leave_all, lookup_join_all, lookup_leave_all.
    case_decide; [by rewrite Ha|]. case_decide; [by rewrite Hb|done].
Qed.
End SubscriptionSpec.

(** ** What the broadcast of updates reaches *)

Section BroadcastSpec.
Context `{PubSub} `{DocKeyOps}.
Variable ListPeers : string -> list string.
Variable Topic_Publish : string -> Update -> result unit.
Hypothesis up : network_up.
Hypothesis publishes : forall topic u, Topic_Publish topic u = Ok tt.

(** The topics that the message of an update is published to, and the replicators it is pushed to. *)
Definition published_to (u : Update) : list string :=
  if u.(u_Priority) =? 1 then [u.(u_SchemaID)] else if 1 <? u.(u_Priority) then [u.(u_DocKey); u.(u_SchemaID)] else [].

Definition pushed_to (reps : gmap string (gset string)) (u : Update) : list string :=
  if u.(u_Priority) <? 1 then []
  else List.filter (fun pid => bool_decide (pid ∉ ListPeers u.(u_DocKey) ++ ListPeers u.(u_SchemaID))) (elements (default ∅ (reps !! u.(u_SchemaID)))).

(** [m] returns, and sends the update to these topics and these replicators only. *)
Definition sends (reps : gmap string (gset string)) (m : M network unit) (topics pids : list string) (u : Update) : Prop :=
  forall n, n.(n_replicators) = reps -> exists n', m n = (n', Ok tt) /\ n'.(n_replicators) = reps /\
    n'.(n_published) = n.(n_published) ++ ((fun t => (t, u)) <$> topics) /\ n'.(n_pushed) = n.(n_pushed) ++ ((fun p => (p, u)) <$> pids).

Lemma sends_ret reps u : sends reps (mret tt) [] [] u.
Proof. intros n Hn. exists n. by rewrite !app_nil_r. Qed.

Lemma sends_bind reps m k ts ts' ps ps' u : sends reps m ts ps u -> sends reps k ts' ps' u -> sends reps (mbind m (fun _ => k)) (ts ++ ts') (ps ++ ps') u.
Proof.
  intros Hm Hk n Hn. destruct (Hm n Hn) as (n1 & E1 & R1 & P1 & Q1). destruct (Hk n1 R1) as (n2 & E2 & R2 & P2 & Q2).
  exists n2. unfold mbind. rewrite E1, E2, P2, Q2, P1, Q1, !fmap_app, <- !app_assoc. done.
Qed.

Lemma sends_wrap reps msg m ts ps u : sends reps m ts ps u -> sends reps (wrap_err msg m) ts ps u.
Proof. intros Hm n Hn. destruct (Hm n Hn) as (n1 & E1 & Hr). exists n1. unfold wrap_err, mbind, mtry. by rewrite E1. Qed.

Lemma sends_join reps topic b u : sends reps (on_topics (addPubSubTopic true topic b)) [] [] u.
Proof.
  intros n Hn. destruct up as [Hu Hc]. destruct n as [t r pub pushed]. unfold on_topics. cbn [n_topics].
  destruct (addPubSubTopic true topic b t) as [t' x] eqn:E. assert (x = Ok tt) as ->; [|eexists; by rewrite !app_nil_r].
  revert E. unfold addPubSubTopic, get_topics, set_topics, mbind, mret, mlift. cbn. rewrite Hu, Hc. destruct (t !! topic) as [[]|]; destruct b; cbn; congruence.
Qed.

Lemma sends_publish reps topic u : sends reps (publish_msg Topic_Publish topic u) [topic] [] u.
Proof. intros n Hn. unfold publish_msg. rewrite publishes. eexists. by rewrite app_nil_r. Qed.

(** Reading the topics sends nothing. *)
Lemma sends_has reps topic (k : bool -> M network unit) ts ps u :
  (forall b, sends reps (k b) ts ps u) -> sends reps (mbind (on_topics (hasPubSubTopic topic)) k) ts ps u.
Proof. intros Hk n Hn. unfold mbind, on_topics, hasPubSubTopic, get_topics, mret. cbn. destruct n. by apply Hk. Qed.

Lemma sends_lift {A} reps (x : A) msg (k : A -> M network unit) ts ps u :
  sends reps (k x) ts ps u -> sends reps (mbind (wrap_err msg (mlift (Ok x))) k) ts ps u.
Proof. done. Qed.

Lemma sends_publishLog reps topic u : sends reps (publishLog true Topic_Publish topic u) [topic] [] u.
Proof.
  apply sends_has. intros b. apply (sends_bind _ _ _ [] [topic] [] []); [|by apply sends_wrap, sends_publish].
  destruct b; [apply sends_ret|by apply sends_wrap, sends_join].
Qed.

Lemma sends_push reps u : 1 <= u.(u_Priority) -> sends reps (pushLogToReplicators ListPeers u) [] (pushed_to reps u) u.
Proof.
  intros Hp n Hn. unfold pushLogToReplicators. eexists. split; [done|]. cbn. rewrite app_nil_r. split; [done|]. split; [done|].
  do 2 f_equal. unfold pushTargets, pushed_to. rewrite Hn, (proj2 (Z.ltb_ge _ _)) by done. by destruct (reps !! _).
Qed.

Definition handle_update (u : Update) : M network unit :=
  if u.(u_Priority) =? 1 then handleDocCreateLog true ListPeers Topic_Publish u
  else if 1 <? u.(u_Priority) then handleDocUpdateLog true ListPeers Topic_Publish u else mret tt.

Lemma sends_handle reps u k s :
  NewDocKeyFromString u.(u_DocKey) = Ok k -> DocKey_String k = Ok s -> sends reps (handle_update u) (published_to u) (pushed_to reps u) u.
Proof.
  intros Hk Hs. unfold handle_update, published_to. destruct (Z.eqb_spec (u_Priority u) 1) as [E|E].
  - unfold handleDocCreateLog. rewrite Hk. apply sends_lift. intros n Hn. unfold mbind at 1. rewrite Hs. cbn [mlift]. revert n Hn.
    apply (sends_bind _ _ _ [u_SchemaID u] [] [] (pushed_to reps u)); [|apply sends_push; lia].
    apply sends_has. intros b. apply (sends_bind _ _ _ [] [u_SchemaID u] [] []); [apply sends_join|apply sends_publishLog].
  - destruct (Z.ltb_spec 1 (u_Priority u)).
    + unfold handleDocUpdateLog. rewrite Hk. apply sends_lift. rewrite <- (app_nil_r (pushed_to reps u)).
      apply (sends_bind _ _ _ [] [u_DocKey u; u_SchemaID u]); [apply sends_push; lia|].
      apply (sends_bind _ _ _ [u_DocKey u] [u_SchemaID u] [] []); apply sends_wrap, sends_publishLog.
    + unfold pushed_to. rewrite (proj2 (Z.ltb_lt _ _)) by lia. apply sends_ret.
Qed.

Definition names_doc (u : Update) : Prop := exists k s, NewDocKeyFromString u.(u_DocKey) = Ok k /\ DocKey_String k = Ok s.

Lemma broadcast_sends updates n :
  Forall names_doc updates ->
  exists n', handleBroadcastLoop true ListPeers Topic_Publish updates n = (n', Ok tt) /\ n'.(n_replicators) = n.(n_replicators) /\
    n'.(n_published) = n.(n_published) ++ flat_map (fun u => (fun t => (t, u)) <$> published_to u) updates /\
    n'.(n_pushed) = n.(n_pushed) ++ flat_map (fun u => (fun p => (p, u)) <$> pushed_to n.(n_replicators) u) updates.
Proof.
  intros Hu. revert n. induction Hu as [|u updates (k & s & Hk & Hs) _ IH]; intros n; cbn [handleBroadcastLoop flat_map].
  { exists n. by rewrite !app_nil_r. }
  destruct (sends_handle (n_replicators n) u k s Hk Hs n eq_refl) as (n1 & E1 & R1 & P1 & Q1).
  destruct (IH n1) as (n2 & E2 & R2 & P2 & Q2). exists n2. unfold mbind at 1. unfold mtry. fold (handle_update u). rewrite E1.
  rewrite P2, Q2, R2, R1, P1, Q1, <- !app_assoc. done.
Qed.

Lemma reached u p reps :
  1 <= u.(u_Priority) -> p ∈ default ∅ (reps !! u.(u_SchemaID)) ->
  (u.(u_Priority) = 1 -> p ∈ ListPeers u.(u_DocKey) -> p ∈ ListPeers u.(u_SchemaID)) ->
  p ∈ pushed_to reps u \/ exists t, t ∈ published_to u /\ p ∈ ListPeers t.
Proof.
  intros Hp Hr Hc. unfold pushed_to, published_to. rewrite (proj2 (Z.ltb_ge _ _)) by done.
  destruct (decide (p ∈ ListPeers u.(u_DocKey) ++ ListPeers u.(u_SchemaID))) as [Hin|Hn].
  - right. destruct (Z.eqb_spec (u_Priority u) 1) as [E|E].
    + exists (u_SchemaID u). split; [by left|]. apply elem_of_app in Hin as [Hin|Hin]; auto.
    + rewrite (proj2 (Z.ltb_lt _ _)) by lia. apply elem_of_app in Hin as [Hin|Hin]; eexists; (split; [|done]); set_solver.
  - left. apply list_elem_of_In, filter_In. split; [by apply list_elem_of_In, elem_of_elements|by apply bool_decide_eq_true].
Qed.

End BroadcastSpec.
