(* ===== verification/PeerExamples.v ===== *)
(** * The peer: examples

    A node with one collection whose replicators, subscriptions and broadcasts are run. *)

From S2P Require Import Prelude GoStd Keys Store MultiStore Crdt Clock Desc Schema Fetcher ClientDoc DocOps Topics Replicators Peer.

Module PeerExamples.
Import KeyInstances MultiInstances CrdtWitness SchemaWitness DocWitnesses.

#[local] Existing Instance MultiStoreFrom.
#[local] Existing Instance LawfulMultiStoreFrom.

#[local] Instance AddrInfo_countable : Countable AddrInfo.
Proof. refine (inj_countable' (fun i => (ai_ID i, ai_Addrs i)) (fun '(a, b) => mkAddrInfo a b) _). by intros []. Defined.

#[local] Instance Replicator_countable : Countable Replicator.
Proof. refine (inj_countable' (fun r => (rep_Info r, rep_Schemas r)) (fun '(a, b) => mkReplicator a b) _). by intros []. Defined.

#[local] Program Instance ReplicatorCodec_pos : ReplicatorCodec := {|
  rep_Marshal rep := Ok (print_pos (encode rep));
  rep_Unmarshal b := match countable.decode (parse_pos b) with Some rep => Ok rep | None => Err ErrCidDecode end;
  info_ok _ := true;
  schema_ok _ := true |}.
Next Obligation. intros rep _ _. eexists. split; [done|]. by rewrite parse_print_pos, decode_encode. Qed.

#[local] Program Instance PubSub_all : PubSub := {| NewTopic _ _ := Ok tt; Topic_Close _ := Ok tt |}.
Next Obligation. done. Qed.
Next Obligation. done. Qed.

Definition ann : AddrInfo := mkAddrInfo "ann" [].
Definition ann_rep : Replicator := mkReplicator ann ["users"; "books"].

Lemma reps_of_empty : reps_of (views (S := contents) ∅ NSystem) ∅.
Proof.
  assert (views (S := contents) ∅ NSystem = ∅) as ->.
  { change (strip (namespaceKey NSystem) ∅ = ∅). apply map_eq. intros k. by rewrite lookup_strip, !lookup_empty. }
  split; intros *; by rewrite lookup_empty.
Qed.

Lemma rep_ok_ann : rep_ok ann_rep.
Proof. by vm_compute. Qed.

Lemma replicators_refine_witness :
  (exists m', psteps (setReplicator ann_rep) ∅ ∅ (views (∅ : contents)) (upd (views (∅ : contents)) NSystem m') (Ok tt) /\
     reps_of m' (set_rep ann_rep ∅)).
Proof. exact (proj1 (replicators_refine ann_rep ∅ ∅ ∅ reps_of_empty (fun _ => eq_refl) rep_ok_ann)). Defined.

(** A peer that adds a replicator, takes a schema away from it and adds another. *)
Definition cmds : list replicator_cmd := [SetReplicator ann ["users"; "books"]; DeleteReplicator "ann" ["users"]; SetReplicator ann ["pets"]].

Definition after_cmds := run_replicator_cmds (D := contents) "self" cmds (∅, loadReplicators [] ∅).

Lemma replicator_table_agrees_witness : exists R', db_holds after_cmds.1.1 R' /\ agree after_cmds.1.2 R'.
Proof.
  destruct (replicator_table_agrees "self" (∅ : contents) ∅ ∅ [] cmds after_cmds.1.1 after_cmds.1.2) as (R' & Hd & Ha & _).
  - apply reps_of_empty.
  - by vm_compute.
  - repeat constructor; by vm_compute.
  - fold after_cmds. assert (match after_cmds.2 with Ok _ => true | _ => false end = true) as Hok by by vm_compute.
    destruct after_cmds as [[d m] [[]| |]]; done.
  - by exists R'.
Defined.

(** ** Subscriptions *)

Definition key_of (c : N) : string := match DocKey_String (NewDocKeyV0 c) with Ok s => s | _ => "" end.

(** A database with a collection and one document of it. *)
Definition db : contents := (data_Put (PrimaryDataStoreKey_ToString (mkPrimaryDataStoreKey "1" (key_of 1))) "" users_db).1.

Definition topics0 : gmap string bool := {[key_of 1 := true]}.

Definition added := AddP2PCollections (S := contents) true (mret tt) ["6"] ((db, db), topics0).
Definition listing := doc_list (S := contents) addP2PCollection ["6"] ((db, db), topics0).

Lemma added_ok : added = (added.1.1, added.1.2, Ok tt).
Proof.
  assert (match added.2 with Ok _ => true | _ => false end = true) as Hok by by vm_compute.
  by destruct added as [[st t] [[]| |]].
Qed.

Lemma P2PCollections_topics_witness : added.1.2 !! "6" = Some true /\ added.1.2 !! key_of 1 = None.
Proof.
  destruct (proj1 (P2PCollections_topics (mret tt) ["6"] (db, db) topics0 added.1.1 added.1.2) added_ok) as (st1 & docs & Hl & _ & Hk).
  assert (docs = [key_of 1]) as ->.
  { assert (listing.2 = Ok [key_of 1]) as E by by vm_compute. unfold listing in E. rewrite Hl in E. by injection E. }
  rewrite !Hk. split; [|rewrite decide_True; [done|by left]].
  rewrite decide_False; [by rewrite decide_True; [|left]|]. intros E%list_elem_of_singleton. by vm_compute in E.
Defined.

Lemma network_up_all : network_up.
Proof. done. Qed.

Lemma listing_ok : listing = ((listing.1.1, topics0), Ok [key_of 1]).
Proof.
  assert (listing.2 = Ok [key_of 1]) as E by by vm_compute.
  assert (listing.1.2 = topics0) as Et by (apply (bool_decide_eq_true_1 _); by vm_compute). destruct listing as [[st t] r]. cbn in *. by subst.
Qed.

(** The commit fails, and the document is subscribed to again. *)
Lemma P2PCollections_commit_witness :
  AddP2PCollections (S := contents) true (mfail ErrNotFound) ["6"] ((db, db), topics0) = ((listing.1.1, topics0), Err ErrNotFound).
Proof.
  destruct (proj1 (P2PCollections_commit (mfail ErrNotFound) ["6"] (db, db) topics0 listing.1.1 [key_of 1] listing.1.1 (Err ErrNotFound)
    network_up_all eq_refl) listing_ok) as (t' & E & Ht).
  rewrite (Ht ltac:(intros c ->%list_elem_of_singleton; by vm_compute) ltac:(intros d ->%list_elem_of_singleton; apply lookup_singleton_eq) _ eq_refl) in E.
  exact E.
Defined.

(** ** Broadcasts *)

Definition created (c : N) : Update := mkUpdate _ (key_of c) c "6" OtherNode 1.
Definition updated (c : N) : Update := mkUpdate _ (key_of c) c "6" OtherNode 2.

Definition peers (topic : string) : list string := if String.eqb topic "6" then ["bob"] else [].
Definition net0 : network := mkNetwork ∅ {["6" := {["ann"; "bob"]}]} [] [].

Lemma names_doc_key c p n cid : names_doc (mkUpdate _ (key_of c) cid "6" n p).
Proof.
  unfold names_doc, key_of. cbn [u_DocKey]. set (k := NewDocKeyV0 _). rewrite (DocKey_String_wf k eq_refl).
  exists (mkDocKey DocKeyV0 (dk_uuid k) Cid_Undef), (dockey_string (mkDocKey DocKeyV0 (dk_uuid k) Cid_Undef)).
  split; [apply (NewDocKeyFromString_String k eq_refl)|by apply DocKey_String_wf].
Qed.


(** ** Departures *)

(** The topics after documents are created, in the order given. *)
Definition create_all (cs : list N) : gmap string bool :=
  (handleBroadcastLoop true peers (fun _ _ => Ok tt) (created <$> cs) net0).1.(n_topics).

Definition is_ok {A} (r : result A) : bool := match r with Ok _ => true | _ => false end.
Definition set_rep_cmds (cs : list replicator_cmd) := run_replicator_cmds (D := contents) "self" cs (∅, ∅).

(** Two changes of a replicator in one transaction, and what the transaction then lists. *)
Definition two_sets : result (list Replicator) :=
  (mbind (setReplicator ann_rep) (fun _ => mbind (setReplicator (mkReplicator ann ["pets"])) (fun _ => getAllReplicators)) ((∅ : contents), (∅ : contents))).2.

End PeerExamples.
