(* ===== verification/Request.v ===== *)
(** * Requests (client/request)

    What the parser makes of a GraphQL request and the mapper takes: selections of fields, of
    aggregates and of related objects, with their arguments.  A limit or an offset is a 64-bit
    number; the conditions of a filter are a map by name ([VMap] without its constructor). *)

From S2P Require Import Prelude GoStd Values Desc Schema DocMap.

(** ** Names (consts.go) *)

Definition AverageFieldName : string := "_avg".
Definition CountFieldName : string := "_count".
Definition GroupFieldName : string := "_group".
Definition DeletedFieldName : string := "_deleted".
Definition SumFieldName : string := "_sum".
Definition VersionFieldName : string := "_version".
Definition LinksFieldName : string := "links".
Definition CommitTypeName : string := "Commit".
Definition LatestCommitsName : string := "latestCommits".
Definition CommitsName : string := "commits".

Definition isAggregateName (name : string) : bool := bool_decide (name ∈ [CountFieldName; SumFieldName; AverageFieldName]).
Definition isCommitQuery (name : string) : bool := bool_decide (name ∈ [LatestCommitsName; CommitsName]).

Definition VersionFields : list string :=
  ["height"; "cid"; "dockey"; "collectionID"; "schemaVersionId"; "fieldName"; "fieldId"; "delta"].

Definition LinksFields : list string := ["name"; "cid"].

(** ** Selections *)

Inductive SelectionType := ObjectSelection | CommitSelection.

#[global] Instance SelectionType_eq_dec : EqDecision SelectionType.
Proof. solve_decision. Defined.

Record rField := mkRField { rf_Name : string; rf_Alias : option string }.

Record rOrderCondition := mkROrder { ro_Fields : list string; ro_Direction : string }.

Record rAggregateTarget := mkRTarget {
  rt_HostName : string;
  rt_ChildName : option string;
  rt_Limit : option Z;
  rt_Offset : option Z;
  rt_OrderBy : option (list rOrderCondition);
  rt_Filter : option (list (string * val));
}.

(** A target is nil when its argument was of no known kind. *)
Record rAggregate := mkRAggregate { ra_Field : rField; ra_Targets : list (option rAggregateTarget) }.

(** The arguments of a [Select]. *)
Record rHead := mkRHead {
  rh_Field : rField;
  rh_DocKeys : option (list string);
  rh_CID : option string;
  rh_Root : SelectionType;
  rh_Limit : option Z;
  rh_Offset : option Z;
  rh_OrderBy : option (list rOrderCondition);
  rh_GroupBy : option (list string);
  rh_Filter : option (list (string * val));
  rh_ShowDeleted : bool;
}.

(** [Selection] is [any]: nil stands for a selection that was not parsed, a fragment. *)
Inductive selection :=
  | SelField (f : rField)
  | SelSelect (h : rHead) (fields : list selection)
  | SelAggregate (a : rAggregate)
  | SelNil.

Record rSelect := mkRSelect { rs_head : rHead; rs_Fields : list selection }.

Definition rs_Name (s : rSelect) : string := s.(rs_head).(rh_Field).(rf_Name).

(** A select of a name alone. *)
Definition named_head (name : string) (root : SelectionType) : rHead :=
  mkRHead (mkRField name None) None None root None None None None None false.


Record rCommitSelect := mkRCommit {
  rc_Field : rField;
  rc_DocKey : option string;
  rc_FieldID : option string;
  rc_Cid : option string;
  rc_Depth : option Z;
  rc_Limit : option Z;
  rc_Offset : option Z;
  rc_OrderBy : option (list rOrderCondition);
  rc_GroupBy : option (list string);
  rc_Fields : list selection;
}.

Definition commit_ToSelect (c : rCommitSelect) : rSelect :=
  mkRSelect (mkRHead (mkRField c.(rc_Field).(rf_Name) c.(rc_Field).(rf_Alias)) None None CommitSelection
    c.(rc_Limit) c.(rc_Offset) c.(rc_OrderBy) c.(rc_GroupBy) None false) c.(rc_Fields).

Inductive MutationType := NoneMutationType | CreateObjects | UpdateObjects | DeleteObjects.

Record rMutation := mkRMutation {
  rm_Field : rField;
  rm_Type : MutationType;
  rm_Collection : string;
  rm_IDs : option (list string);
  rm_Filter : option (list (string * val));
  rm_Data : string;
  rm_Fields : list selection;
}.

Definition mutation_ToSelect (m : rMutation) : rSelect :=
  mkRSelect (mkRHead (mkRField m.(rm_Collection) m.(rm_Field).(rf_Alias)) m.(rm_IDs) None ObjectSelection
    None None None None m.(rm_Filter) false) m.(rm_Fields).

Record rSubscription := mkRSubscription {
  rsub_Field : rField;
  rsub_Collection : string;
  rsub_Filter : option (list (string * val));
  rsub_Fields : list selection;
}.

Definition subscription_ToSelect (m : rSubscription) (docKey cid : string) : rSelect :=
  mkRSelect (mkRHead (mkRField m.(rsub_Collection) m.(rsub_Field).(rf_Alias)) (Some [docKey]) (Some cid) ObjectSelection
    None None None None m.(rsub_Filter) false) m.(rsub_Fields).

(** ** Validation (select.go) *)

Definition NewErrSelectOfNonGroupField (name : string) : error := ErrWrap "cannot select a non-group-by field at group-level" (ErrNew name).

Definition validateGroupBy (s : rSelect) : list error :=
  match s.(rs_head).(rh_GroupBy) with
  | None => []
  | Some group =>
      flat_map (fun child =>
        match child with
        | SelField f =>
            if String.eqb f.(rf_Name) TypeNameFieldName then []
            else if existsb (String.eqb f.(rf_Name)) group then [] else [NewErrSelectOfNonGroupField f.(rf_Name)]
        | _ => []
        end) s.(rs_Fields)
  end.

Definition validateShallow (s : rSelect) : list error := validateGroupBy s.

(** The select itself and the selects that are its direct children. *)
Definition Validate (s : rSelect) : list error :=
  validateShallow s ++
  flat_map (fun child => match child with SelSelect h fields => validateShallow (mkRSelect h fields) | _ => [] end) s.(rs_Fields).

(** ** Induction *)

Section SelectionInd.
Variable P : selection -> Prop.
Hypothesis Hfield : forall f, P (SelField f).
Hypothesis Hselect : forall h fields, Forall P fields -> P (SelSelect h fields).
Hypothesis Haggregate : forall a, P (SelAggregate a).
Hypothesis Hnil : P SelNil.

Fixpoint selection_ind' (s : selection) : P s :=
  match s with
  | SelField f => Hfield f
  | SelSelect h fields => Hselect h fields ((fix go l := match l return Forall P l with
      | [] => Forall_nil_2 _ | s :: l => Forall_cons_2 _ _ _ (selection_ind' s) (go l) end) fields)
  | SelAggregate a => Haggregate a
  | SelNil => Hnil
  end.
End SelectionInd.

(** The depth of the selects below a list of fields. *)
Fixpoint depth (s : selection) : nat :=
  match s with SelSelect _ fields => S (list_max (depth <$> fields)) | _ => 0 end.
