(* ===== verification/Mapper.v ===== *)
(** * From requests to selects (planner/mapper)

    The mapper resolves the names of a request to the indexes of documents.  [toSelect] builds
    the mapping of a select, the list of what it yields (fields, aggregates and selects of
    related documents, asked for or needed by a filter, an order or an aggregate), and its
    arguments in terms of indexes.

    A mapping is changed through several pointers: a select of another select shares its
    mapping with the child of the parent's mapping at its index, and an aggregate has the
    mapping of its select.  The model keeps a shared mapping in one place, the child of the
    parent's mapping; a select has a mapping of its own ([Some]) only if it is shared with
    nothing: the top, and the selects inside a host that was made for an aggregate, whose
    parent's mapping was replaced by a copy.  The conditions of a filter are in the order in
    which the loops visit them. *)

From S2P Require Import Prelude GoStd Values Desc Schema DocMap Store Connor Request DocOps.

Record Field := mkMField { f_Index : nat; f_Name : string }.

Record Filter := mkFilter { fl_Conditions : list (FilterKey * val); fl_ExternalConditions : list (string * val) }.

Record Limit := mkMLimit { lm_Limit : Z; lm_Offset : Z }.

Record OrderCondition := mkMOrder { oc_FieldIndexes : list nat; oc_Direction : string }.

Record Targetable := mkTargetable {
  tg_Field : Field;
  tg_DocKeys : option (list string);
  tg_Filter : option Filter;
  tg_Limit : option Limit;
  tg_GroupBy : option (list Field);
  tg_OrderBy : option (list OrderCondition);
  tg_ShowDeleted : bool;
}.

Record AggregateTarget := mkMTarget { at_Targetable : Targetable; at_ChildTarget : option Field }.

(** The dependencies of an aggregate are given by their indexes. *)
Record Aggregate := mkMAggregate {
  ag_Field : Field;
  ag_AggregateTargets : list AggregateTarget;
  ag_Dependencies : list nat;
}.

(** A [Select] without its fields. *)
Record SelectInfo := mkInfo {
  si_Targetable : Targetable;
  si_DocumentMapping : option DocumentMapping;
  si_Cid : option string;
  si_CollectionName : string;
}.

Inductive Requestable :=
  | RField (f : Field)
  | RAggregate (a : Aggregate)
  | RSelect (i : SelectInfo) (fields : list Requestable).

Record Select := mkSelect { sl_info : SelectInfo; sl_Fields : list Requestable }.

Definition sl_DocumentMapping (s : Select) : option DocumentMapping := s.(sl_info).(si_DocumentMapping).

Definition GetField_of (r : Requestable) : Field :=
  match r with
  | RField f => f
  | RAggregate a => a.(ag_Field)
  | RSelect i _ => i.(si_Targetable).(tg_Field)
  end.

Definition GetIndex (r : Requestable) : nat := (GetField_of r).(f_Index).
Definition GetName (r : Requestable) : string := (GetField_of r).(f_Name).

Definition AsSelect (r : Requestable) : option Select := match r with RSelect i fs => Some (mkSelect i fs) | _ => None end.
Definition AsTargetable (r : Requestable) : option Targetable := match r with RSelect i _ => Some i.(si_Targetable) | _ => None end.

(** A select as a field of its parent, whose mapping has the mapping of the select for a child. *)
Definition shares (s : Select) : Requestable :=
  let i := s.(sl_info) in RSelect (mkInfo i.(si_Targetable) None i.(si_Cid) i.(si_CollectionName)) s.(sl_Fields).

Definition at_index (index : nat) (name : string) : Targetable := mkTargetable (mkMField index name) None None None None None false.

Definition fieldAt (fields : list Requestable) (index : nat) : option Requestable :=
  List.find (fun f => Nat.eqb (GetIndex f) index) fields.

Definition ErrUnableToIdAggregateChild : error := ErrNew "unable to identify aggregate child".
Definition ErrAggregateTargetMissing : error := ErrNew "aggregate must be provided with a property to aggregate".
Definition ErrFailedToFindHostField : error := ErrNew "failed to find host field".

(** [f] over a list, until one fails. *)
Definition rmap {A B} (f : A -> result B) : list A -> result (list B) :=
  fix go l :=
    match l with
    | [] => Ok []
    | x :: l => let! y := f x in let! ys := go l in Ok (y :: ys)
    end.

(** ** Filters, limits, groups and orders *)

(** A mapping may be nil; reading it then panics. *)
Definition ptr_FirstIndexOfName (m : option DocumentMapping) (name : string) : result nat :=
  match m with Some m => FirstIndexOfName m name | None => Panic end.

Definition ptr_child (m : option DocumentMapping) (i : nat) : result (option DocumentMapping) :=
  match m with
  | Some m => match m.(ChildMappings) !! i with Some c => Ok c | None => Panic end
  | None => Panic
  end.

(** An operator: a name with an underscore that is not the key. *)
Definition isOperator (key : string) : bool := HasPrefix key "_" && negb (String.eqb key KeyFieldName).

Definition is_map (v : val) : bool := match v with VMap _ => true | _ => false end.

Fixpoint toFilterMap (sourceKey : string) (sourceClause : val) (mapping : option DocumentMapping) {struct sourceClause} : result (FilterKey * val) :=
  if isOperator sourceKey then
    match sourceClause with
    | VList clauses =>
        let! returnClauses :=
          rmap (fun inner =>
            match inner with
            | VMap es => let! r := rmap (fun e => toFilterMap e.1 e.2 mapping) es in Ok (VFilter r)
            | inner => Ok inner
            end) clauses in
        Ok (Operator sourceKey, VList returnClauses)
    | clause => Ok (Operator sourceKey, clause)
    end
  else
    let! index := ptr_FirstIndexOfName mapping sourceKey in
    match sourceClause with
    | VMap es =>
        let! r := rmap (fun e =>
          let! innerMapping := if is_map e.2 then ptr_child mapping index else Ok mapping in
          toFilterMap e.1 e.2 innerMapping) es in
        Ok (PropertyIndex index, VFilter r)
    | clause => Ok (PropertyIndex index, clause)
    end.

Definition ToFilter (source : option (list (string * val))) (mapping : option DocumentMapping) : result (option Filter) :=
  match source with
  | None => Ok None
  | Some conditions =>
      let! r := rmap (fun e => toFilterMap e.1 e.2 mapping) conditions in
      Ok (Some (mkFilter r conditions))
  end.

Definition toLimit (limit offset : option Z) : option Limit :=
  match limit, offset with
  | None, None => None
  | _, _ => Some (mkMLimit (default 0 limit) (default 0 offset))
  end.

Definition toGroupBy (source : option (list string)) (mapping : DocumentMapping) : result (option (list Field)) :=
  match source with
  | None => Ok None
  | Some names =>
      let! fields := rmap (fun name => let! key := FirstIndexOfName mapping name in Ok (mkMField key name)) names in
      Ok (Some fields)
  end.

(** The indexes of a chain of names; the mapping of the last is not looked up. *)
Fixpoint orderIndexes (fields : list string) (mapping : option DocumentMapping) : result (list nat) :=
  match fields with
  | [] => Ok []
  | [field] => let! i := ptr_FirstIndexOfName mapping field in Ok [i]
  | field :: fields =>
      let! i := ptr_FirstIndexOfName mapping field in
      let! child := ptr_child mapping i in
      let! idxs := orderIndexes fields child in
      Ok (i :: idxs)
  end.

Definition toOrderBy (source : option (list rOrderCondition)) (mapping : option DocumentMapping) : result (option (list OrderCondition)) :=
  match source with
  | None => Ok None
  | Some conditions =>
      let! r := rmap (fun c => let! idxs := orderIndexes c.(ro_Fields) mapping in Ok (mkMOrder idxs c.(ro_Direction))) conditions in
      Ok (Some r)
  end.

Definition toTargetable (index : nat) (selectRequest : rSelect) (docMap : DocumentMapping) : result Targetable :=
  let h := selectRequest.(rs_head) in
  let! filter := ToFilter h.(rh_Filter) (Some docMap) in
  let! groupBy := toGroupBy h.(rh_GroupBy) docMap in
  let! orderBy := toOrderBy h.(rh_OrderBy) (Some docMap) in
  Ok (mkTargetable (mkMField index h.(rh_Field).(rf_Name)) h.(rh_DocKeys) filter (toLimit h.(rh_Limit) h.(rh_Offset)) groupBy orderBy h.(rh_ShowDeleted)).

(** ** Equality of targets *)

Definition Limit_equal (l other : option Limit) : bool :=
  match l, other with
  | None, None => true
  | Some l, Some other => (l.(lm_Limit) =? other.(lm_Limit)) && (l.(lm_Offset) =? other.(lm_Offset))
  | _, _ => false
  end.

Definition FilterKey_eqb (k k' : FilterKey) : bool :=
  match k, k' with
  | PropertyIndex i, PropertyIndex j => Nat.eqb i j
  | Operator o, Operator o' => String.eqb o o'
  | _, _ => false
  end.

(** Every entry of the first map has one in the second with an equal key and value. *)
Fixpoint deepEqualConditions (x : val) (y : list (FilterKey * val)) : bool :=
  match x with
  | VFilter x =>
      Nat.eqb (length x) (length y) &&
      forallb (fun ex => existsb (fun ey =>
        FilterKey_eqb ex.1 ey.1 &&
        match ex.2, ey.2 with
        | VFilter _, VFilter yv => deepEqualConditions ex.2 yv
        | VFilter _, _ | _, VFilter _ => false
        | xv, yv => DeepEqual xv yv
        end) y) x
  | _ => false
  end.

Definition Filter_equal (f other : option Filter) : bool :=
  match f, other with
  | None, None => true
  | Some f, Some other => deepEqualConditions (VFilter f.(fl_Conditions)) other.(fl_Conditions)
  | _, _ => false
  end.

Definition OrderBy_equal (o other : option (list OrderCondition)) : bool :=
  match o, other with
  | None, None => true
  | Some o, Some other =>
      list_eqb (fun a b => String.eqb a.(oc_Direction) b.(oc_Direction) && list_eqb Nat.eqb a.(oc_FieldIndexes) b.(oc_FieldIndexes)) o other
  | _, _ => false
  end.

Definition Targetable_equal (s other : Targetable) : bool :=
  if negb (Nat.eqb s.(tg_Field).(f_Index) other.(tg_Field).(f_Index)) && negb (String.eqb s.(tg_Field).(f_Name) other.(tg_Field).(f_Name)) then false
  else Filter_equal s.(tg_Filter) other.(tg_Filter) && Limit_equal s.(tg_Limit) other.(tg_Limit) && OrderBy_equal s.(tg_OrderBy) other.(tg_OrderBy).

Definition tryGetTarget (name : string) (filter : option Filter) (limit : option Limit) (order : option (list OrderCondition))
    (collection : list Requestable) : option Requestable :=
  let dummyTarget := mkTargetable (mkMField 0 name) None filter limit None order false in
  List.find (fun field => match AsTargetable field with Some t => Targetable_equal t dummyTarget | None => false end) collection.

(** ** Aggregates as requested *)

Record aggregateRequestTarget := mkReqTarget {
  hostExternalName : string;
  childExternalName : string;
  rq_filter : option (list (string * val));
  rq_limit : option Limit;
  rq_order : option (list rOrderCondition);
}.

Record aggregateRequest := mkAggRequest {
  ar_field : Field;
  ar_targets : list aggregateRequestTarget;
  ar_dependencyIndexes : list nat;
}.

Definition getAggregateSources (field : rAggregate) : result (list aggregateRequestTarget) :=
  rmap (fun target =>
    match target with
    | None => Panic
    | Some t => Ok (mkReqTarget t.(rt_HostName) (default "" t.(rt_ChildName)) t.(rt_Filter) (toLimit t.(rt_Limit) t.(rt_Offset)) t.(rt_OrderBy))
    end) field.(ra_Targets).

Definition getAggregateRequests (index : nat) (aggregate : rAggregate) : result aggregateRequest :=
  let! targets := getAggregateSources aggregate in
  match targets with
  | [] => Err ErrAggregateTargetMissing
  | _ => Ok (mkAggRequest (mkMField index aggregate.(ra_Field).(rf_Name)) targets [])
  end.

(** An entry of a map by name. *)
Definition map_get (key : string) (m : list (string * val)) : option val := snd <$> List.find (fun e => String.eqb e.1 key) m.

Definition map_set (key : string) (v : val) (m : list (string * val)) : list (string * val) :=
  if existsb (fun e => String.eqb e.1 key) m then (fun e => if String.eqb e.1 key then (key, v) else e) <$> m else m ++ [(key, v)].

(** The test for nil is added to the conditions of the child, which have to be a map. *)
Definition appendNotNilFilter (field : aggregateRequestTarget) (childField : string) : result aggregateRequestTarget :=
  let conditions := default [] field.(rq_filter) in
  let! conditions :=
    if String.eqb childField "" then Ok (map_set "_ne" VNil conditions)
    else
      match default (VMap []) (map_get childField conditions) with
      | VMap block => Ok (map_set childField (VMap (map_set "_ne" VNil block)) conditions)
      | _ => Panic
      end in
  Ok (mkReqTarget field.(hostExternalName) field.(childExternalName) (Some conditions) field.(rq_limit) field.(rq_order)).

Definition aggregateDependencies (name : string) : list string :=
  if String.eqb name AverageFieldName then [CountFieldName; SumFieldName] else [].

Definition target_matches (target potential : aggregateRequestTarget) : bool :=
  String.eqb target.(hostExternalName) potential.(hostExternalName) &&
  String.eqb target.(childExternalName) potential.(childExternalName) &&
  match target.(rq_filter), potential.(rq_filter) with
  | None, None => true
  | Some f, Some f' => DeepEqual (VMap f) (VMap f')
  | _, _ => false
  end.

Definition tryGetMatchingAggregate (name : string) (targets : list aggregateRequestTarget) (collection : list aggregateRequest)
    : option aggregateRequest :=
  List.find (fun aggregate => String.eqb aggregate.(ar_field).(f_Name) name && list_eqb target_matches targets aggregate.(ar_targets)) collection.

Definition appendIfNotExists (name : string) (targets : list aggregateRequestTarget) (aggregates : list aggregateRequest)
    (mapping : DocumentMapping) : DocumentMapping * list aggregateRequest * aggregateRequest :=
  match tryGetMatchingAggregate name targets aggregates with
  | Some field => (mapping, aggregates, field)
  | None =>
      let index := GetNextIndex mapping in
      let field := mkAggRequest (mkMField index name) targets [] in
      (Add mapping index name, aggregates ++ [field], field)
  end.

(** The dependencies of the aggregate at [i], which has the given targets. *)
Fixpoint appendDependencies (names : list string) (i : nat) (targets : list aggregateRequestTarget)
    (mapping : DocumentMapping) (aggregates : list aggregateRequest) : DocumentMapping * list aggregateRequest :=
  match names with
  | [] => (mapping, aggregates)
  | name :: names =>
      let '(mapping, aggregates, dependency) := appendIfNotExists name targets aggregates mapping in
      let aggregates := alter (fun a => mkAggRequest a.(ar_field) a.(ar_targets) (a.(ar_dependencyIndexes) ++ [dependency.(ar_field).(f_Index)])) i aggregates in
      appendDependencies names i targets mapping aggregates
  end.

(** The loop over the aggregates.  Those that are appended on the way have no dependencies, so
    that their own rounds change nothing; [n] counts the rounds of the others. *)
Fixpoint appendUnderlyingAggregates (n i : nat) (aggregates : list aggregateRequest) : M DocumentMapping (list aggregateRequest) :=
  match n with
  | O => mret aggregates
  | Datatypes.S n =>
      match aggregates !! i with
      | None => mret aggregates
      | Some aggregate =>
          match aggregateDependencies aggregate.(ar_field).(f_Name) with
          | [] => appendUnderlyingAggregates n (Datatypes.S i) aggregates
          | dependencies =>
              let* targets := mlift (rmap (fun target =>
                if isAggregateName target.(childExternalName) then Ok target
                else appendNotNilFilter target target.(childExternalName)) aggregate.(ar_targets)) in
              fun mapping =>
                let aggregates := <[i := mkAggRequest aggregate.(ar_field) targets aggregate.(ar_dependencyIndexes)]> aggregates in
                let '(mapping, aggregates) := appendDependencies dependencies i targets mapping aggregates in
                appendUnderlyingAggregates n (Datatypes.S i) aggregates mapping
          end
      end
  end.

(** ** Selects *)

Definition getRenderKey (field : rField) : string := default field.(rf_Name) field.(rf_Alias).

(** Changes of the mapping. *)
Definition modify (f : DocumentMapping -> DocumentMapping) : M DocumentMapping unit := fun m => (f m, Ok tt).
Definition read {A} (f : DocumentMapping -> A) : M DocumentMapping A := fun m => (m, Ok (f m)).

Definition add_render (index : nat) (key : string) (m : DocumentMapping) : DocumentMapping :=
  mkMapping m.(typeInfo) (m.(RenderKeys) ++ [mkRenderKey index key]) m.(IndexesByName) m.(nextIndex) m.(ChildMappings).

(** A child mapping is changed in place. *)
Definition set_child (index : nat) (child : DocumentMapping) (m : DocumentMapping) : DocumentMapping :=
  mkMapping m.(typeInfo) m.(RenderKeys) m.(IndexesByName) m.(nextIndex) (<[index := Some child]> m.(ChildMappings)).

Section Mapper.
(** [getCollectionDesc] of the repository of descriptions. *)
Variable getCollectionDesc : string -> result CollectionDescription.

Definition empty_desc : CollectionDescription := mkCollectionDescription "" 0 (mkSchema "" "" "" []).

Definition getCollectionName (name : string) (root : SelectionType) (parentCollectionName : string) : result string :=
  if isAggregateName name then Ok "_topLevel"
  else if String.eqb name GroupFieldName then Ok parentCollectionName
  else if decide (root = CommitSelection) then Ok parentCollectionName
  else if negb (String.eqb parentCollectionName "") then
    let! parentDescription := getCollectionDesc parentCollectionName in
    match GetField parentDescription name with
    | Some hostFieldDesc => if negb (hostFieldDesc.(fd_RelationType) =? 0) then Ok hostFieldDesc.(fd_Schema) else Ok name
    | None => Ok name
    end
  else Ok name.

(** Names that are given indexes from 0. *)
Definition addAll (names : list string) (m : DocumentMapping) : DocumentMapping :=
  foldl (fun m e => Add m e.1 e.2) m (imap (fun i name => (i, name)) names).

Definition getTopLevelInfo (name : string) (root : SelectionType) (collectionName : string) : result (DocumentMapping * CollectionDescription) :=
  let mapping := NewDocumentMapping in
  if isAggregateName name then Ok (mapping, empty_desc)
  else if decide (root = ObjectSelection) then
    let mapping := Add mapping DocKeyFieldIndex KeyFieldName in
    let! desc := getCollectionDesc collectionName in
    let mapping := foldl (fun m f => if IsObject f then m else Add m (Z.to_nat f.(fd_ID)) f.(fd_Name)) mapping desc.(cd_Schema).(sd_Fields) in
    let mapping := SetTypeName mapping collectionName in
    Ok (Add mapping (GetNextIndex mapping) DeletedFieldName, desc)
  else if String.eqb name LinksFieldName then Ok (SetTypeName (addAll LinksFields mapping) LinksFieldName, empty_desc)
  else Ok (SetTypeName (addAll VersionFields mapping) CommitTypeName, empty_desc).

(** ** Dependencies of filters *)

(** The select that an unknown name of a filter becomes. *)
Definition filterHost (parentCollectionName key : string) (m : DocumentMapping) : result (DocumentMapping * Requestable) :=
  let index := GetNextIndex m in
  let! childCollectionName := getCollectionName key ObjectSelection parentCollectionName in
  let! (childMapping, _) := getTopLevelInfo key ObjectSelection childCollectionName in
  let m := SetChildAt m index (Some (CloneWithoutRender childMapping)) in
  Ok (Add m index key, RSelect (mkInfo (at_index index key) None None childCollectionName) []).


(** The mapping, the new fields and the existing fields. *)
Local Abbreviation filterState := (DocumentMapping * list Requestable * list Requestable)%type.

(** The fields and the mapping of the host after [inner], which takes its fields and mapping. *)
Definition resolve_host (keyIndex : nat) (childMap : DocumentMapping) (inner : list Requestable -> DocumentMapping -> result filterState)
    (st : filterState) : result filterState :=
  let '(m, new, existing) := st in
  match list_find (fun r => GetIndex r = keyIndex) (new ++ existing) with
  | None => Err ErrFailedToFindHostField
  | Some (i, RSelect info fs) =>
      let! (childMap, childFields, fs) := inner fs childMap in
      let all := <[i := RSelect info (fs ++ childFields)]> (new ++ existing) in
      Ok (set_child keyIndex childMap m, take (length new) all, drop (length new) all)
  | Some _ => Err NewErrUnhandledType
  end.

(** One round of the loop over the conditions; [childFilter] tells whether the condition is a
    map, and [inner] resolves it. *)
Definition resolveFilterKey (parentCollectionName key : string) (childFilter : bool)
    (inner : string -> list Requestable -> DocumentMapping -> result filterState) (st : filterState) : result filterState :=
  if isOperator key then Ok st
  else
    let! (m, new, existing) :=
      let '(m, new, existing) := st in
      match indexes m key with
      | [] => let! (m, host) := filterHost parentCollectionName key m in Ok (m, new ++ [host], existing)
      | _ => Ok st
      end in
    let! keyIndex := FirstIndexOfName m key in
    match m.(ChildMappings) !! keyIndex with
    | Some (Some childMap) =>
        if childFilter then
          let! childCollectionName := getCollectionName key ObjectSelection parentCollectionName in
          resolve_host keyIndex childMap (inner childCollectionName) (m, new, existing)
        else Ok (m, new, existing)
    | _ => Ok (m, new, existing)
    end.

Fixpoint resolveInnerFilterDependencies (source : val) (parentCollectionName : string) (existing : list Requestable) (m : DocumentMapping)
    {struct source} : result filterState :=
  match source with
  | VMap conditions =>
      (fix go (l : list (string * val)) (st : filterState) : result filterState :=
         match l with
         | [] => Ok st
         | (key, v) :: l =>
             let! st := resolveFilterKey parentCollectionName key (is_map v) (resolveInnerFilterDependencies v) st in
             go l st
         end) conditions (m, [], existing)
  | _ => Ok (m, [], existing)
  end.

Definition resolveFilterDependencies (parentCollectionName : string) (source : option (list (string * val))) (existing : list Requestable)
    (m : DocumentMapping) : result filterState :=
  match source with
  | None => Ok (m, [], existing)
  | Some conditions => resolveInnerFilterDependencies (VMap conditions) parentCollectionName existing m
  end.

(** ** Fields, aggregates and selects as requested

    [toSel] is [toSelect]. *)

Section Resolve.
Variable toSel : nat -> rSelect -> string -> result Select.

Fixpoint getRequestables (descName : string) (fields : list selection) : M DocumentMapping (list Requestable * list aggregateRequest) :=
  match fields with
  | [] => mret ([], [])
  | SelField f :: rest =>
      let* index := (fun m => (m, FirstIndexOfName m f.(rf_Name))) in
      let* _ := modify (add_render index (getRenderKey f)) in
      let* (fs, ags) := getRequestables descName rest in
      mret (RField (mkMField index f.(rf_Name)) :: fs, ags)
  | SelSelect h inner :: rest =>
      let* index := read GetNextIndex in
      let* innerSelect := mlift (toSel index (mkRSelect h inner) descName) in
      let* _ := modify (fun m => SetChildAt m index (sl_DocumentMapping innerSelect)) in
      let* _ := modify (add_render index (getRenderKey h.(rh_Field))) in
      let* _ := modify (fun m => Add m index h.(rh_Field).(rf_Name)) in
      let* (fs, ags) := getRequestables descName rest in
      mret (shares innerSelect :: fs, ags)
  | SelAggregate a :: rest =>
      let* index := read GetNextIndex in
      let* aggregate := mlift (getAggregateRequests index a) in
      let* _ := modify (add_render index (getRenderKey a.(ra_Field))) in
      let* _ := modify (fun m => Add m index a.(ra_Field).(rf_Name)) in
      let* (fs, ags) := getRequestables descName rest in
      mret (fs, aggregate :: ags)
  | SelNil :: _ => mfail NewErrUnhandledType
  end.

(** Joins that only an order needs. *)
Fixpoint orderJoins (descName : string) (conditions : list rOrderCondition) (existing : list Requestable) : M DocumentMapping (list Requestable) :=
  match conditions with
  | [] => mret existing
  | c :: conditions =>
      match c.(ro_Fields) with
      | joinField :: _ :: _ =>
          let* mapped := read (fun m => indexes m joinField) in
          match mapped with
          | [] =>
              let* index := read GetNextIndex in
              let* _ := modify (fun m => Add m index joinField) in
              let* innerSelect := mlift (toSel index (mkRSelect (named_head joinField ObjectSelection) []) descName) in
              let* _ := modify (fun m => SetChildAt m index (sl_DocumentMapping innerSelect)) in
              orderJoins descName conditions (existing ++ [shares innerSelect])
          | _ => orderJoins descName conditions existing
          end
      | _ => orderJoins descName conditions existing
      end
  end.

Definition resolveOrderDependencies (descName : string) (source : option (list rOrderCondition)) (existing : list Requestable) : M DocumentMapping (list Requestable) :=
  match source with None => mret existing | Some conditions => orderJoins descName conditions existing end.

(** ** The targets of aggregates *)

(** Selects of the objects that the order and the filter of a target go through. *)
Definition mapAggregateNestedTargets (target : aggregateRequestTarget) (root : SelectionType) : list selection :=
  flat_map (fun cond => match cond.(ro_Fields) with name :: _ :: _ => [SelSelect (named_head name root) []] | _ => [] end) (default [] target.(rq_order)) ++
  flat_map (fun e =>
    match e.2 with
    | VMap cond => if existsb (fun inner => is_map inner.2) cond then [SelSelect (named_head e.1 root) []] else []
    | _ => []
    end) (default [] target.(rq_filter)).

(** The selects below a mapping that was copied keep the mappings of the original. *)
Definition detach (old : DocumentMapping) (r : Requestable) : Requestable :=
  match r with
  | RSelect (mkInfo t None cid col) fs => RSelect (mkInfo t (mjoin (old.(ChildMappings) !! t.(tg_Field).(f_Index))) cid col) fs
  | r => r
  end.

(** What is aggregated: an inline array, or one of the fields. *)
Inductive aggHost := HArray (t : Targetable) | HField (r : Requestable).

(** The host of a target among what has been requested, and the filter as it was converted. *)
Definition findHost (desc : CollectionDescription) (target : aggregateRequestTarget) (fields : list Requestable) (m : DocumentMapping)
    : result (option aggHost * option Filter) :=
  match indexes m target.(hostExternalName) with
  | [] => Ok (None, None)
  | _ =>
      match (match GetField desc target.(hostExternalName) with Some fd => if IsObject fd then None else Some fd | None => None end) with
      | Some fieldDesc =>
          let order := match target.(rq_order) with
                       | Some (c :: _) => Some [mkMOrder [] c.(ro_Direction)]
                       | _ => None
                       end in
          let! filter := ToFilter target.(rq_filter) (Some m) in
          Ok (Some (HArray (mkTargetable (mkMField (Z.to_nat fieldDesc.(fd_ID)) target.(hostExternalName)) None filter target.(rq_limit) None order false)), None)
      | None =>
          let! childObjectIndex := FirstIndexOfName m target.(hostExternalName) in
          let! childMapping := ptr_child (Some m) childObjectIndex in
          let! convertedFilter := ToFilter target.(rq_filter) childMapping in
          let! order := toOrderBy target.(rq_order) childMapping in
          Ok (HField <$> tryGetTarget target.(hostExternalName) convertedFilter target.(rq_limit) order fields, convertedFilter)
      end
  end.

(** A host that was not requested is made and added. *)
Definition makeHost (root : SelectionType) (desc : CollectionDescription) (target : aggregateRequestTarget) (converted : option Filter)
    : M DocumentMapping Requestable :=
  let name := target.(hostExternalName) in
  let* index := read GetNextIndex in
  let* childIsMapped := read (fun m => negb (Nat.eqb (length (indexes m name)) 0)) in
  let* childCollectionName := mlift (getCollectionName name root desc.(cd_Name)) in
  let nested := mapAggregateNestedTargets target root in
  let* (childMapping, childDesc) := mlift (getTopLevelInfo name root childCollectionName) in
  let* (childMapping, childFields) := (fun m =>
    match getRequestables childDesc.(cd_Name) nested childMapping with
    | (c, Ok (fs, _)) => (m, Ok (c, fs))
    | (_, Err e) => (m, Err e)
    | (_, Panic) => (m, Panic)
    end) in
  let childFields := detach childMapping <$> childFields in
  let childMapping := CloneWithoutRender childMapping in
  let* _ := modify (fun m => SetChildAt m index (Some childMapping)) in
  let* filter := if childIsMapped then mret converted else mlift (ToFilter target.(rq_filter) (Some childMapping)) in
  let* order := mlift (toOrderBy target.(rq_order) (Some childMapping)) in
  let* _ := modify (fun m => Add m index name) in
  mret (RSelect (mkInfo (mkTargetable (mkMField index name) None filter target.(rq_limit) None order false) None None childCollectionName) childFields).

(** The mapping of a select below one with mapping [m]. *)
Definition select_mapping (m : DocumentMapping) (i : SelectInfo) : option DocumentMapping :=
  match i.(si_DocumentMapping) with
  | Some own => Some own
  | None => mjoin (m.(ChildMappings) !! i.(si_Targetable).(tg_Field).(f_Index))
  end.

Definition host_target (host : aggHost) : Targetable :=
  match host with
  | HArray t => t
  | HField (RSelect i _) => i.(si_Targetable)
  | HField r => at_index (GetIndex r) (GetName r)
  end.

(** The child of a host that is aggregated. *)
Definition childTarget (target : aggregateRequestTarget) (host : aggHost) (m : DocumentMapping) : result (option Field) :=
  if String.eqb target.(childExternalName) "" then Ok None
  else
    match host with
    | HField (RSelect i _) =>
        match select_mapping m i with
        | None => Panic
        | Some hostMapping =>
            match indexes hostMapping target.(childExternalName) with
            | [] => Err ErrUnableToIdAggregateChild
            | index :: _ => Ok (Some (mkMField index target.(childExternalName)))
            end
        end
    | _ => Err NewErrUnhandledType
    end.

Fixpoint resolveTargets (root : SelectionType) (desc : CollectionDescription) (targets : list aggregateRequestTarget) (fields : list Requestable)
    : M DocumentMapping (list AggregateTarget * list Requestable) :=
  match targets with
  | [] => mret ([], fields)
  | target :: targets =>
      let* (found, converted) := (fun m => (m, findHost desc target fields m)) in
      let* (host, fields) :=
        match found with
        | Some host => mret (host, fields)
        | None => let* dummyJoin := makeHost root desc target converted in mret (HField dummyJoin, fields ++ [dummyJoin])
        end in
      let* child := (fun m => (m, childTarget target host m)) in
      let* (rest, fields) := resolveTargets root desc targets fields in
      mret (mkMTarget (host_target host) child :: rest, fields)
  end.

Fixpoint resolveEach (root : SelectionType) (desc : CollectionDescription) (aggregates : list aggregateRequest) (fields : list Requestable)
    : M DocumentMapping (list Requestable) :=
  match aggregates with
  | [] => mret fields
  | aggregate :: aggregates =>
      let* (targets, fields) := resolveTargets root desc aggregate.(ar_targets) fields in
      resolveEach root desc aggregates (fields ++ [RAggregate (mkMAggregate aggregate.(ar_field) targets [])])
  end.

(** [fieldAt], which has to be an aggregate. *)
Definition aggregateAt (fields : list Requestable) (index : nat) : result Aggregate :=
  match fieldAt fields index with Some (RAggregate a) => Ok a | _ => Panic end.

(** The dependencies of an aggregate are appended to it. *)
Definition pairUp (fields : list Requestable) (aggregate : aggregateRequest) : result (list Requestable) :=
  let id := aggregate.(ar_field).(f_Index) in
  let! a := aggregateAt fields id in
  let! _ := rmap (aggregateAt fields) aggregate.(ar_dependencyIndexes) in
  match list_find (fun r => GetIndex r = id) fields with
  | Some (i, _) => Ok (<[i := RAggregate (mkMAggregate a.(ag_Field) a.(ag_AggregateTargets) (a.(ag_Dependencies) ++ aggregate.(ar_dependencyIndexes)))]> fields)
  | None => Panic
  end.

Definition resolveAggregates (root : SelectionType) (aggregates : list aggregateRequest) (inputFields : list Requestable) (desc : CollectionDescription)
    : M DocumentMapping (list Requestable) :=
  let* fields := resolveEach root desc aggregates inputFields in
  mlift (foldl (fun fields aggregate => let! fields := fields in pairUp fields aggregate) (Ok fields) aggregates).
End Resolve.

(** ** Selects *)

(** The mapping that a group needs when no inner group has been requested. *)
Definition mapGroup (groupBy : option (list string)) (m : DocumentMapping) : DocumentMapping :=
  match groupBy with
  | Some _ => match m.(IndexesByName) !! GroupFieldName with Some _ => m | None => Add m (GetNextIndex m) GroupFieldName end
  | None => m
  end.

(** The body of [toSelect], for the function that makes the selects inside. *)
Definition toSelect_by (toSel : nat -> rSelect -> string -> result Select) (thisIndex : nat) (selectRequest : rSelect) (parentCollectionName : string)
    : result Select :=
  let h := selectRequest.(rs_head) in
  let name := h.(rh_Field).(rf_Name) in
  let! collectionName := getCollectionName name h.(rh_Root) parentCollectionName in
  let! (mapping, desc) := getTopLevelInfo name h.(rh_Root) collectionName in
  let '(mapping, r) := (
    let* (fields, aggregates) := getRequestables toSel desc.(cd_Name) selectRequest.(rs_Fields) in
    let* fields := (fun m => match resolveFilterDependencies collectionName h.(rh_Filter) fields m with
                             | Ok (m, new, fields) => (m, Ok (fields ++ new))
                             | Err e => (m, Err e)
                             | Panic => (m, Panic)
                             end) in
    let* fields := resolveOrderDependencies toSel collectionName h.(rh_OrderBy) fields in
    let* aggregates := appendUnderlyingAggregates (length aggregates) 0 aggregates in
    let* fields := resolveAggregates toSel h.(rh_Root) aggregates fields desc in
    let* _ := modify (mapGroup h.(rh_GroupBy)) in
    mret fields) mapping in
  let! fields := r in
  let! target := toTargetable thisIndex selectRequest mapping in
  Ok (mkSelect (mkInfo target (Some mapping) h.(rh_CID) collectionName) fields).

Definition ErrFuel : error := ErrNew "out of fuel".

Fixpoint toSelect (fuel : nat) (thisIndex : nat) (selectRequest : rSelect) (parentCollectionName : string) : result Select :=
  match fuel with
  | O => Err ErrFuel
  | Datatypes.S fuel => toSelect_by (toSelect fuel) thisIndex selectRequest parentCollectionName
  end.

(** The calls nest as deep as the selects of the request, and one deeper for the selects by name
    alone that an order or an aggregate needs. *)
Definition fuel_for (selectRequest : rSelect) : nat := 2 + list_max (depth <$> selectRequest.(rs_Fields)).

Definition ToSelect (selectRequest : rSelect) : result Select := toSelect (fuel_for selectRequest) 0 selectRequest "".

Record CommitSelect := mkCommitSelect {
  cs_Select : Select;
  cs_DocKey : option string;
  cs_FieldID : option string;
  cs_Depth : option Z;
  cs_Cid : option string;
}.

Definition ToCommitSelect (c : rCommitSelect) : result CommitSelect :=
  let! underlyingSelect := ToSelect (commit_ToSelect c) in
  Ok (mkCommitSelect underlyingSelect c.(rc_DocKey) c.(rc_FieldID) c.(rc_Depth) c.(rc_Cid)).

Record Mutation := mkMutation { mt_Select : Select; mt_Type : MutationType; mt_Data : string }.

Definition ToMutation (m : rMutation) : result Mutation :=
  let! underlyingSelect := ToSelect (mutation_ToSelect m) in
  Ok (mkMutation underlyingSelect m.(rm_Type) m.(rm_Data)).
End Mapper.
