(* ===== verification/MapperSpec.v ===== *)
(** * The mapper: properties

    That the mapper ends, that the mappings which it builds are sound, and that a document with
    the cells of a mapping renders as the request asks. *)

From S2P Require Import Prelude GoStd Values Desc Schema DocMap Store Connor Request DocOps Mapper.

Section Termination.
Variable getCollectionDesc : string -> result CollectionDescription.

(** The selects that [toSelect] calls itself for: those of the request, and selects by a name. *)
Definition plain (r : rSelect) : Prop := exists name root, r = mkRSelect (named_head name root) [].
Definition sub_select (r' r : rSelect) : Prop := SelSelect r'.(rs_head) r'.(rs_Fields) ∈ r.(rs_Fields).

Lemma mbind_ext {S A B} (m m' : M S A) (k k' : A -> M S B) s :
  m s = m' s -> (forall a s, k a s = k' a s) -> mbind m k s = mbind m' k' s.
Proof. intros E Hk. unfold mbind. rewrite E. destruct (m' s) as [s1 [a| |]]; [apply Hk|done|done]. Qed.

Section Ext.
Variables f g : nat -> rSelect -> string -> result Select.

Lemma getRequestables_ext descName fields m :
  (forall i r p, SelSelect r.(rs_head) r.(rs_Fields) ∈ fields -> f i r p = g i r p) ->
  getRequestables f descName fields m = getRequestables g descName fields m.
Proof.
  revert m. induction fields as [|s fields IH]; intros m Hfg; [done|].
  assert (forall m, getRequestables f descName fields m = getRequestables g descName fields m) as IH'.
  { intros m'. apply IH. intros i r p Hin. apply Hfg. by right. }
  destruct s as [fd|h inner|a|]; cbn [getRequestables].
  - apply mbind_ext; [done|]. intros i s. apply mbind_ext; [done|]. intros _ s'. apply mbind_ext; [apply IH'|done].
  - apply mbind_ext; [done|]. intros i s. rewrite (Hfg i (mkRSelect h inner) descName) by by left. apply mbind_ext; [done|].
    intros sel s'. do 3 (apply mbind_ext; [done|]; intros _ ?). apply mbind_ext; [apply IH'|done].
  - apply mbind_ext; [done|]. intros i s. apply mbind_ext; [done|].
    intros sel s'. do 2 (apply mbind_ext; [done|]; intros _ ?). apply mbind_ext; [apply IH'|done].
  - done.
Qed.

Hypothesis Hplain : forall i r p, plain r -> f i r p = g i r p.

Lemma orderJoins_ext descName conditions existing m : orderJoins f descName conditions existing m = orderJoins g descName conditions existing m.
Proof.
  revert existing m. induction conditions as [|c conditions IH]; intros existing m; [done|]. cbn [orderJoins].
  destruct (ro_Fields c) as [|j [|j' js]]; [apply IH..|]. apply mbind_ext; [done|]. intros [|i l] s; [|apply IH].
  apply mbind_ext; [done|]. intros i s'. apply mbind_ext; [done|]. intros _ s''. rewrite Hplain by by eexists _, _.
  apply mbind_ext; [done|]. intros sel s3. apply mbind_ext; [done|]. intros _ s4. apply IH.
Qed.

Lemma nested_plain target root r : SelSelect r.(rs_head) r.(rs_Fields) ∈ mapAggregateNestedTargets target root -> plain r.
Proof.
  destruct r as [h fs]. cbn. unfold mapAggregateNestedTargets.
  intros [Hin|Hin]%elem_of_app; apply list_elem_of_In, in_flat_map in Hin as (x & _ & Hx).
  - destruct (ro_Fields x) as [|n [|n' ns]]; [done..|]. destruct Hx as [[= <- <-]|[]]. by eexists _, _.
  - destruct x.2; try done. destruct (existsb _ l); [|done]. destruct Hx as [[= <- <-]|[]]. by eexists _, _.
Qed.

Lemma makeHost_ext root desc target converted m :
  makeHost getCollectionDesc f root desc target converted m = makeHost getCollectionDesc g root desc target converted m.
Proof.
  unfold makeHost. apply mbind_ext; [done|]. intros i s. apply mbind_ext; [done|]. intros b s1. apply mbind_ext; [done|]. intros n s2.
  apply mbind_ext; [done|]. intros [cm cd] s3. apply mbind_ext.
  - rewrite (getRequestables_ext (cd_Name cd) (mapAggregateNestedTargets target root) cm); [done|].
    intros j r p Hin. eapply Hplain, nested_plain, Hin.
  - done.
Qed.

Lemma resolveTargets_ext root desc targets fields m :
  resolveTargets getCollectionDesc f root desc targets fields m = resolveTargets getCollectionDesc g root desc targets fields m.
Proof.
  revert fields m. induction targets as [|t targets IH]; intros fields m; [done|]. cbn [resolveTargets].
  apply mbind_ext; [done|]. intros [found converted] s. apply mbind_ext.
  - destruct found; [done|]. apply mbind_ext; [apply makeHost_ext|done].
  - intros [host fs] s1. apply mbind_ext; [done|]. intros child s2. apply mbind_ext; [apply IH|done].
Qed.

Lemma resolveAggregates_ext root aggregates fields desc m :
  resolveAggregates getCollectionDesc f root aggregates fields desc m = resolveAggregates getCollectionDesc g root aggregates fields desc m.
Proof.
  unfold resolveAggregates. apply mbind_ext; [|done]. revert fields m.
  induction aggregates as [|a aggregates IH]; intros fields m; [done|]. cbn [resolveEach].
  apply mbind_ext; [apply resolveTargets_ext|]. intros [ts fs] s. apply IH.
Qed.

Lemma toSelect_by_ext i r p :
  (forall i r' p, sub_select r' r -> f i r' p = g i r' p) -> toSelect_by getCollectionDesc f i r p = toSelect_by getCollectionDesc g i r p.
Proof.
  intros Hsub. unfold toSelect_by. destruct (getCollectionName _ _ _ p) as [cn| |]; [|done|done]. cbn [rbind].
  destruct (getTopLevelInfo _ _ _ cn) as [[m desc]| |]; [|done|done]. cbn [rbind].
  match goal with |- (let '(_, _) := ?a m in _) = (let '(_, _) := ?b m in _) => assert (a m = b m) as -> end; [|done].
  apply mbind_ext; [by apply getRequestables_ext|]. intros [fs ags] s. apply mbind_ext; [done|]. intros fs' s1.
  apply mbind_ext; [destruct (rh_OrderBy (rs_head r)); [apply orderJoins_ext|done]|]. intros fs2 s2. apply mbind_ext; [done|]. intros ags' s3.
  apply mbind_ext; [apply resolveAggregates_ext|done].
Qed.
End Ext.

(** [n] calls deep, and then [base]. *)
Definition unfold_select (base : nat -> rSelect -> string -> result Select) (n : nat) : nat -> rSelect -> string -> result Select :=
  Nat.iter n (toSelect_by getCollectionDesc) base.

Lemma toSelect_unfold n : toSelect getCollectionDesc n = unfold_select (fun _ _ _ => Err ErrFuel) n.
Proof. induction n as [|n IH]; [done|]. cbn. by rewrite IH. Qed.

Lemma unfold_plain base base' n n' i r p : plain r -> unfold_select base (S n) i r p = unfold_select base' (S n') i r p.
Proof. intros (name & root & ->). done. Qed.

Lemma unfold_enough base base' n n' i r p :
  (fuel_for r <= n)%nat -> (fuel_for r <= n')%nat -> unfold_select base n i r p = unfold_select base' n' i r p.
Proof.
  revert n' i r p. induction n as [|n IH]; intros n' i r p Hn Hn'; unfold fuel_for in *; [lia|]. destruct n' as [|n']; [lia|].
  cbn. apply toSelect_by_ext.
  - intros j r' q Hp. destruct n as [|n]; [lia|]. destruct n' as [|n']; [lia|]. by apply unfold_plain.
  - intros j r' q Hsub. assert (S (list_max (depth <$> rs_Fields r')) <= list_max (depth <$> rs_Fields r))%nat as Hd.
    { pose proof (proj1 (list_max_le (depth <$> rs_Fields r) _) (le_n _)) as Hall. rewrite List.Forall_forall in Hall. apply Hall.
      apply list_elem_of_In, list_elem_of_fmap. exists (SelSelect (rs_head r') (rs_Fields r')). split; [done|exact Hsub]. }
    apply IH; lia.
Qed.

(** C28: The mapper ends for every request: below the calls that its selects nest to, and one
    more, nothing is called again, whatever is put there. *)
Theorem ToSelect_terminates base n r :
  (fuel_for r <= n)%nat -> unfold_select base n 0 r "" = ToSelect getCollectionDesc r.
Proof. intros Hn. unfold ToSelect. rewrite toSelect_unfold. by apply unfold_enough. Qed.
End Termination.

(** ** Soundness of mappings *)

Definition child (m : DocumentMapping) (i : nat) : option DocumentMapping := mjoin (m.(ChildMappings) !! i).

(** The mapping at a path of indexes. *)
Fixpoint mapping_at (m : DocumentMapping) (p : list nat) : option DocumentMapping :=
  match p with
  | [] => Some m
  | i :: p => match child m i with Some c => mapping_at c p | None => None end
  end.

(** A mapping is sound: an index belongs to one name and is below the next one, as are the
    places of children and the indexes to render. *)
Record mwf (m : DocumentMapping) : Prop := {
  mwf_below : forall name i, i ∈ indexes m name -> (i < nextIndex m)%nat;
  mwf_children : (length m.(ChildMappings) <= nextIndex m)%nat;
  mwf_one_name : forall name name' i, i ∈ indexes m name -> i ∈ indexes m name' -> name = name';
  mwf_render : Forall (fun rk => RK_Index rk < nextIndex m)%nat m.(RenderKeys);
}.

Definition all_wf (m : DocumentMapping) : Prop := forall p c, mapping_at m p = Some c -> mwf c.

(** A mapping has grown: its names have the indexes that they had and maybe more, here and in
    the children, whose keys to render have not changed. *)
Definition extends (m m' : DocumentMapping) : Prop :=
  forall p c, mapping_at m p = Some c -> exists c', mapping_at m' p = Some c' /\
    (forall name, indexes c name `prefix_of` indexes c' name) /\ (p <> [] -> RenderKeys c' = RenderKeys c) /\ (nextIndex c <= nextIndex c')%nat.

Definition grows (m m' : DocumentMapping) : Prop := extends m m' /\ RenderKeys m' = RenderKeys m.

Lemma extends_refl m : extends m m.
Proof. intros p c Hc. by exists c. Qed.

Lemma extends_trans m1 m2 m3 : extends m1 m2 -> extends m2 m3 -> extends m1 m3.
Proof.
  intros H1 H2 p c Hc. destruct (H1 p c Hc) as (c2 & Hc2 & Hi2 & Hr2 & Hn2). destruct (H2 p c2 Hc2) as (c3 & Hc3 & Hi3 & Hr3 & Hn3).
  exists c3. split; [done|]. split; [|split; [intros Hp; rewrite Hr3; auto|lia]].
  intros name. by transitivity (indexes c2 name).
Qed.

#[export] Instance grows_preorder : PreOrder grows.
Proof.
  split; [intros m; split; [apply extends_refl|done]|]. intros m1 m2 m3 [H1 R1] [H2 R2]. split; [by eapply extends_trans|congruence].
Qed.

Lemma extends_indexes m m' name i : extends m m' -> i ∈ indexes m name -> i ∈ indexes m' name.
Proof.
  intros He Hi. destruct (He [] m eq_refl) as (c' & [= <-] & Hpre & _ & _). destruct (Hpre name) as [l ->]. apply elem_of_app. by left.
Qed.

Lemma extends_next m m' : extends m m' -> (nextIndex m <= nextIndex m')%nat.
Proof. intros He. by destruct (He [] m eq_refl) as (c' & [= <-] & _ & _ & Hn). Qed.

Lemma extends_child m m' i c :
  extends m m' -> child m i = Some c -> exists c', child m' i = Some c' /\ extends c c' /\ RenderKeys c' = RenderKeys c.
Proof.
  intros He Hc. destruct (He [i] c) as (c' & Hc' & _ & Hr & _); [cbn; by rewrite Hc|]. cbn in Hc'.
  destruct (child m' i) as [d|] eqn:E; [|done]. injection Hc' as ->. exists c'. split; [done|]. split; [|by apply Hr].
  intros p d Hd. destruct (He (i :: p) d) as (d' & Hd' & Hi & Hr' & Hn'); [cbn; by rewrite Hc|]. cbn in Hd'. rewrite E in Hd'.
  exists d'. split; [done|]. split; [done|]. split; [|done]. intros _. by apply Hr'.
Qed.

Lemma all_wf_here m : all_wf m -> mwf m.
Proof. intros Hw. by apply (Hw []). Qed.

Lemma all_wf_child m i c : all_wf m -> child m i = Some c -> all_wf c.
Proof. intros Hw Hc p d Hd. apply (Hw (i :: p)). cbn. by rewrite Hc. Qed.

Lemma all_wf_intro m : mwf m -> (forall i c, child m i = Some c -> all_wf c) -> all_wf m.
Proof.
  intros Hm Hc [|i p] d; cbn; [by intros [= <-]|]. destruct (child m i) as [c|] eqn:E; [|done]. intros Hd. by apply (Hc i c E p).
Qed.

(** ** The operations on mappings *)

Lemma indexes_Add m i n name : indexes (Add m i n) name = if decide (name = n) then indexes m n ++ [i] else indexes m name.
Proof.
  unfold indexes at 1. cbn. case_decide as E.
  - subst. by rewrite lookup_insert_eq.
  - by rewrite lookup_insert_ne.
Qed.

Lemma extends_same_children m m' :
  (forall name, indexes m name `prefix_of` indexes m' name) -> (forall i, child m' i = child m i) -> (nextIndex m <= nextIndex m')%nat -> extends m m'.
Proof.
  intros Hi Hc Hn [|i p] c; cbn; [intros [= <-]; by exists m'|]. rewrite Hc. destruct (child m i) as [d|]; [|done].
  intros Hd. by exists c.
Qed.

Lemma grows_Add m i n : grows m (Add m i n).
Proof.
  split; [|done]. apply extends_same_children; [|done|cbn; destruct (Nat.leb_spec (nextIndex m) i); lia]. intros name. rewrite indexes_Add. case_decide; [subst; by eexists|done].
Qed.

Lemma extends_render m i k : extends m (add_render i k m).
Proof. by apply extends_same_children. Qed.

Lemma mwf_Add m n : mwf m -> mwf (Add m (nextIndex m) n).
Proof.
  intros [Hb Hc Ho Hk]. assert (nextIndex (Add m (nextIndex m) n) = S (nextIndex m)) as Hn by (cbn; by rewrite Nat.leb_refl).
  assert (forall name i, i ∈ indexes (Add m (nextIndex m) n) name -> (i = nextIndex m /\ name = n) \/ i ∈ indexes m name) as Hin.
  { intros name i. rewrite indexes_Add. case_decide; [|by right]. subst. intros [?| ->%list_elem_of_singleton]%elem_of_app; auto. }
  split; rewrite ?Hn.
  - intros name i [[-> _]|Hi]%Hin; [lia|]. apply Hb in Hi. lia.
  - cbn. lia.
  - intros name name' i [[-> ->]|Hi]%Hin [[E ->]|Hi']%Hin; [done|apply Hb in Hi'; lia|apply Hb in Hi; lia|by eapply Ho].
  - eapply Forall_impl; [exact Hk|]. cbn. lia.
Qed.

Lemma all_wf_same_children m m' : all_wf m -> mwf m' -> (forall i, child m' i = child m i) -> all_wf m'.
Proof. intros Hw Hm Hc. apply all_wf_intro; [done|]. intros i c. rewrite Hc. by apply all_wf_child. Qed.

Lemma all_wf_Add m n : all_wf m -> all_wf (Add m (nextIndex m) n).
Proof. intros Hw. apply (all_wf_same_children m); [done|by apply mwf_Add, all_wf_here|done]. Qed.

Lemma all_wf_render m i k name : all_wf m -> i ∈ indexes m name -> all_wf (add_render i k m).
Proof.
  intros Hw Hi. apply (all_wf_same_children m); [done| |done]. destruct (all_wf_here m Hw) as [Hb Hc Ho Hk]. split; [done..|].
  apply Forall_app. split; [done|]. constructor; [by eapply Hb|done].
Qed.

(** A child at the next index, which is then given a name. *)
Definition join_at (m : DocumentMapping) (i : nat) (name : string) (c : option DocumentMapping) : DocumentMapping := Add (SetChildAt m i c) i name.

Lemma ChildMappings_join m i name c : (length m.(ChildMappings) <= i)%nat ->
  ChildMappings (join_at m i name c) = m.(ChildMappings) ++ replicate (i - length m.(ChildMappings)) None ++ [c].
Proof.
  intros Hl. unfold join_at, SetChildAt. cbn. rewrite (proj2 (Z.leb_le _ _)) by lia. rewrite take_ge by lia.
  replace (i + 1 - length (ChildMappings m))%nat with (i - length (ChildMappings m) + 1)%nat by lia. rewrite replicate_add. cbn.
  rewrite app_assoc. rewrite insert_app_r_alt by (rewrite length_app, length_replicate; lia).
  replace (i - length (_ ++ _))%nat with 0%nat by (rewrite length_app, length_replicate; lia). cbn. by rewrite <- app_assoc.
Qed.

Lemma child_join m i name c j : (length m.(ChildMappings) <= i)%nat -> child (join_at m i name c) j = if decide (j = i) then c else child m j.
Proof.
  intros Hl. unfold child. rewrite ChildMappings_join by done. case_decide as E.
  - subst. rewrite lookup_app_r by lia. rewrite lookup_app_r by (rewrite length_replicate; lia). rewrite length_replicate, Nat.sub_diag. done.
  - destruct (decide (j < length (ChildMappings m))%nat) as [Hj|Hj]; [by rewrite lookup_app_l|].
    rewrite (lookup_ge_None_2 (ChildMappings m) j) by lia. rewrite lookup_app_r by lia.
    destruct (decide (j < i)%nat) as [Hji|Hji].
    + rewrite lookup_app_l by (rewrite length_replicate; lia). by rewrite lookup_replicate_2 by lia.
    + rewrite lookup_ge_None_2; [done|]. rewrite length_app, length_replicate. cbn. lia.
Qed.

Lemma grows_join m name c : mwf m -> grows m (join_at m (nextIndex m) name c).
Proof.
  intros Hm. split; [|done]. intros [|j p] d.
  - intros [= <-]. eexists. split; [done|]. split; [|split; [done|cbn; rewrite Nat.leb_refl; lia]]. intros n. change (indexes m n `prefix_of` indexes (Add m (nextIndex m) name) n).
    rewrite indexes_Add. case_decide; [subst; by eexists|done].
  - cbn. rewrite child_join by apply (mwf_children m Hm). case_decide as E; [|intros Hd; by exists d].
    subst. unfold child. by rewrite (lookup_ge_None_2 (ChildMappings m)) by apply (mwf_children m Hm).
Qed.

Lemma all_wf_join m name c : all_wf m -> (forall d, c = Some d -> all_wf d) -> all_wf (join_at m (nextIndex m) name c).
Proof.
  intros Hw Hc. pose proof (all_wf_here m Hw) as Hm. apply all_wf_intro.
  - destruct (mwf_Add m name Hm) as [Hb _ Ho Hk]. split; [exact Hb| |exact Ho|exact Hk].
    rewrite ChildMappings_join by apply (mwf_children m Hm). rewrite !length_app, length_replicate.
    pose proof (mwf_children m Hm). unfold join_at. cbn. rewrite Nat.leb_refl. lia.
  - intros j d. rewrite child_join by apply (mwf_children m Hm). case_decide; [apply Hc|by apply all_wf_child].
Qed.

Lemma child_set_child m i c j : is_Some (child m i) -> child (set_child i c m) j = if decide (j = i) then Some c else child m j.
Proof.
  intros [d Hd]. unfold child in *. cbn. case_decide as E.
  - subst. rewrite list_lookup_insert_eq; [done|]. apply lookup_lt_is_Some. destruct (ChildMappings m !! i); [by eexists|done].
  - by rewrite list_lookup_insert_ne by done.
Qed.

Lemma grows_set_child m i c c' : child m i = Some c -> grows c c' -> grows m (set_child i c' m).
Proof.
  intros Hc [He Hr]. split; [|done]. intros [|j p] d; [intros [= <-]; by exists (set_child i c' m)|]. cbn.
  rewrite child_set_child by by eexists. case_decide as E; [|intros Hd; by exists d]. subst j. rewrite Hc. intros Hd.
  destruct (He p d Hd) as (d' & Hd' & Hi & Hrr & Hn). exists d'. split; [done|]. split; [done|]. split; [|done]. intros _.
  destruct p as [|k p]; [|by apply Hrr]. cbn in Hd, Hd'. congruence.
Qed.

Lemma all_wf_set_child m i c c' : all_wf m -> child m i = Some c -> all_wf c' -> all_wf (set_child i c' m).
Proof.
  intros Hw Hc Hc'. apply all_wf_intro.
  - destruct (all_wf_here m Hw) as [Hb Hl Ho Hk]. split; [exact Hb| |exact Ho|exact Hk]. cbn. by rewrite length_insert.
  - intros j d. rewrite child_set_child by by eexists. case_decide; [by intros [= <-]|by apply all_wf_child].
Qed.

(** ** Copies without keys to render *)

Lemma child_Clone m i : child (CloneWithoutRender m) i = CloneWithoutRender <$> child m i.
Proof.
  destruct m as [ti rk ibn next cs]. unfold child. cbn [CloneWithoutRender ChildMappings]. rewrite list_lookup_fmap.
  by destruct (cs !! i) as [[c|]|].
Qed.

Lemma mapping_at_Clone m p : mapping_at (CloneWithoutRender m) p = CloneWithoutRender <$> mapping_at m p.
Proof. revert m. induction p as [|i p IH]; intros m; [done|]. cbn. rewrite child_Clone. destruct (child m i); [apply IH|done]. Qed.

Lemma indexes_Clone m name : indexes (CloneWithoutRender m) name = indexes m name.
Proof. by destruct m. Qed.

Lemma mwf_Clone m : mwf m -> mwf (CloneWithoutRender m).
Proof.
  intros [Hb Hc Ho _]. assert (nextIndex (CloneWithoutRender m) = nextIndex m) as Hn by by destruct m. split; rewrite ?Hn.
  - intros name i. rewrite indexes_Clone. apply Hb.
  - destruct m as [ti rk ibn next cs]. cbn. by rewrite length_map.
  - intros name name' i. rewrite !indexes_Clone. apply Ho.
  - destruct m. constructor.
Qed.

Lemma all_wf_Clone m : all_wf m -> all_wf (CloneWithoutRender m).
Proof.
  intros Hw p c. rewrite mapping_at_Clone. destruct (mapping_at m p) as [d|] eqn:E; [|done]. intros [= <-]. by eapply mwf_Clone, Hw.
Qed.

(** ** The mapping that a select starts with *)

(** Fields that are fetched have numbers of their own; 0 is that of the key. *)
Record desc_ok (d : CollectionDescription) : Prop := {
  do_ids : forall f, f ∈ d.(cd_Schema).(sd_Fields) -> 0 <= f.(fd_ID);
  do_key : forall f, f ∈ d.(cd_Schema).(sd_Fields) -> IsObject f = false -> f.(fd_ID) = 0 -> f.(fd_Name) = KeyFieldName;
  do_one : forall f f', f ∈ d.(cd_Schema).(sd_Fields) -> f' ∈ d.(cd_Schema).(sd_Fields) -> IsObject f = false -> IsObject f' = false ->
    f.(fd_ID) = f'.(fd_ID) -> f.(fd_Name) = f'.(fd_Name);
}.

(** Mappings without children that are made by giving names to indexes, each index one name. *)
Definition added (l : list (nat * string)) : DocumentMapping := foldl (fun m e => Add m e.1 e.2) NewDocumentMapping l.

Lemma added_app l e : added (l ++ [e]) = Add (added l) e.1 e.2.
Proof. unfold added. by rewrite foldl_app. Qed.

Lemma added_facts l : ChildMappings (added l) = [] /\ RenderKeys (added l) = [] /\
  (forall name i, i ∈ indexes (added l) name <-> (i, name) ∈ l) /\ (forall e, e ∈ l -> (e.1 < nextIndex (added l))%nat).
Proof.
  induction l as [|[i n] l IH] using rev_ind.
  { split; [done|]. split; [done|]. split; [|by intros e ?%elem_of_nil]. intros name i. unfold indexes. cbn. rewrite lookup_empty. cbn. by rewrite !elem_of_nil. }
  destruct IH as (Hc & Hr & Hi & Hn). rewrite added_app. cbn [fst snd]. split; [done|]. split; [done|]. split.
  - intros name j. rewrite indexes_Add, elem_of_app, list_elem_of_singleton. case_decide as E.
    + subst. rewrite elem_of_app, Hi, list_elem_of_singleton. naive_solver.
    + rewrite Hi. split; [auto|]. intros [?|[= -> ->]]; done.
  - intros e. rewrite elem_of_app, list_elem_of_singleton. cbn. destruct (Nat.leb_spec (nextIndex (added l)) i); intros [He| ->]; cbn; [specialize (Hn e He); lia|lia|by apply Hn|done].
Qed.

Lemma mwf_added l : (forall i n n', (i, n) ∈ l -> (i, n') ∈ l -> n = n') -> mwf (added l).
Proof.
  intros Hone. destruct (added_facts l) as (Hc & Hr & Hi & Hn). split.
  - intros name i Hin%Hi. by apply (Hn (i, name)).
  - rewrite Hc. cbn. lia.
  - intros name name' i Hin%Hi Hin'%Hi. by eapply Hone.
  - rewrite Hr. constructor.
Qed.

Lemma all_wf_SetTypeName m t : all_wf m -> all_wf (SetTypeName m t).
Proof.
  intros Hw. pose proof (all_wf_Add m TypeNameFieldName Hw) as Ha. apply (all_wf_same_children (Add m (nextIndex m) TypeNameFieldName)); [done| |done].
  destruct (all_wf_here _ Ha). by split.
Qed.

Lemma all_wf_leaf m : mwf m -> ChildMappings m = [] -> all_wf m.
Proof. intros Hm Hc. apply all_wf_intro; [done|]. intros i c. unfold child. by rewrite Hc. Qed.

(** ** What is rendered *)

Definition sel_field (s : selection) : rField :=
  match s with
  | SelField f => f
  | SelSelect h _ => h.(rh_Field)
  | SelAggregate a => a.(ra_Field)
  | SelNil => mkRField "" None
  end.

(** The alias of a selection, or its name. *)
Definition sel_key (s : selection) : string := match (sel_field s).(rf_Alias) with Some alias => alias | None => (sel_field s).(rf_Name) end.

Definition list_rel {A B} (R : A -> B -> Prop) : list A -> list B -> Prop :=
  fix go l k := match l, k with [], [] => True | x :: l, y :: k => R x y /\ go l k | _, _ => False end.

Lemma list_rel_Forall2 {A B} (R : A -> B -> Prop) l k : list_rel R l k <-> Forall2 R l k.
Proof.
  revert k. induction l as [|x l IH]; intros [|y k]; cbn; [by split|by split; [|inversion 1]|by split; [|inversion 1]|].
  rewrite IH. split; [intros []; by constructor|by inversion 1].
Qed.

(** The key to render of a selection: its name or alias, an index of its name, and for a select
    a child whose keys are those of the select. *)
Fixpoint sel_renders (s : selection) (m : DocumentMapping) (rk : RenderKey) {struct s} : Prop :=
  rk.(RK_Key) = sel_key s /\ rk.(RK_Index) ∈ indexes m (sel_field s).(rf_Name) /\
  match s with
  | SelSelect _ inner => exists c, child m rk.(RK_Index) = Some c /\ list_rel (fun s rk => sel_renders s c rk) inner c.(RenderKeys)
  | _ => True
  end.

Definition renders (fields : list selection) (m : DocumentMapping) : Prop := Forall2 (fun s rk => sel_renders s m rk) fields m.(RenderKeys).

Lemma sel_renders_extends s m m' rk : extends m m' -> sel_renders s m rk -> sel_renders s m' rk.
Proof.
  revert m m' rk. induction s as [f|h inner IH|a|] using selection_ind'; intros m m' rk He; cbn [sel_renders]; intros (Hk & Hi & Hc);
    (split; [done|]; split; [by eapply extends_indexes|]); [done| |done|done].
  destruct Hc as (c & Hc & Hr). destruct (extends_child m m' _ c He Hc) as (c' & Hc' & He' & Hk'). exists c'. split; [done|].
  rewrite Hk'. rewrite list_rel_Forall2 in *. clear -IH Hr He'. induction Hr as [|s rk inner rks Hs _ IHr]; [constructor|].
  apply Forall_cons in IH as [IHs IH]. constructor; [by eapply IHs|by apply IHr].
Qed.

Lemma Forall2_renders_extends fields m m' rks :
  extends m m' -> Forall2 (fun s rk => sel_renders s m rk) fields rks -> Forall2 (fun s rk => sel_renders s m' rk) fields rks.
Proof. intros He Hf. eapply Forall2_impl; [exact Hf|]. intros s rk. by apply sel_renders_extends. Qed.

Lemma renders_grows fields m m' : grows m m' -> renders fields m -> renders fields m'.
Proof. intros [He Hr]. unfold renders. rewrite Hr. by apply Forall2_renders_extends. Qed.

(** A document has the cells of a mapping: one for every index, and documents only in cells that
    have a child mapping, which they have the cells of. *)
Definition is_value (v : val) : bool := match v with VDoc _ | VDocs _ => false | _ => true end.

Inductive fits : DocumentMapping -> Doc -> Prop :=
  | fits_doc m h fs st : length fs = nextIndex m -> (forall i v, fs !! i = Some v -> cell_fits m i v) -> fits m (mkDoc h fs st)
with cell_fits : DocumentMapping -> nat -> val -> Prop :=
  | cf_value m i v : is_value v = true -> cell_fits m i v
  | cf_doc m i c d : child m i = Some c -> fits c d -> cell_fits m i (VDoc d)
  | cf_docs m i c l : child m i = Some c -> (forall d, d ∈ l -> fits c d) -> cell_fits m i (VDocs l).

(** A result is one that the fields ask for: its keys are theirs, and what a select gives is
    nothing, a result of the select, or a list of them. *)
Inductive answers : list selection -> gmap string rendered -> Prop :=
  | answers_all fields out :
      (forall k, is_Some (out !! k) <-> k ∈ sel_key <$> fields) ->
      (forall k v, out !! k = Some v -> exists s, s ∈ fields /\ sel_key s = k /\ answers_sel s v) -> answers fields out
with answers_sel : selection -> rendered -> Prop :=
  | as_leaf s v : match s with SelSelect _ _ => False | _ => True end -> answers_sel s v
  | as_value h inner v : answers_sel (SelSelect h inner) (RValue v)
  | as_one h inner out : answers inner out -> answers_sel (SelSelect h inner) (RMap out)
  | as_many h inner l : (forall out, out ∈ l -> answers inner out) -> answers_sel (SelSelect h inner) (RMaps l).

Definition doc_renders (d : Doc) : Prop :=
  forall m, all_wf m -> fits m d -> exists out, ToMap d m = Ok out /\ forall fields, renders fields m -> answers fields out.

(** The cell of a key to render, and the selection that it is of, if there is one. *)
Definition cell_renders (v : val) : Prop :=
  forall m i, all_wf m -> cell_fits m i v -> exists x, render_value v m i = Ok x /\
    forall s k, sel_renders s m (mkRenderKey i k) -> answers_sel s x.

Lemma render_docs_ok m i c l :
  Forall doc_renders l -> all_wf m -> child m i = Some c -> (forall d, d ∈ l -> fits c d) ->
  exists outs, render_docs ToMap (Some c) l = Ok outs /\ forall out fields, out ∈ outs -> renders fields c -> answers fields out.
Proof.
  intros Hl Hw Hc Hfit. induction Hl as [|d l Hd _ IH]; cbn [render_docs].
  { exists []. split; [done|]. by intros out fields ?%elem_of_nil. }
  destruct IH as (outs & Hr & Ho); [intros d' Hd'; apply Hfit; by right|]. destruct (Hidden d); [by exists outs|].
  destruct (Hd c) as (out & Hm & Ha); [by eapply all_wf_child|apply Hfit; by left|]. rewrite Hm, Hr. cbn [rbind].
  exists (out :: outs). split; [done|]. intros o fields [->|Hin]%elem_of_cons Hrf; [by apply Ha|by eapply Ho].
Qed.

Lemma keys_render m fs fields rks out0 :
  Forall cell_renders fs -> all_wf m -> length fs = nextIndex m -> (forall i v, fs !! i = Some v -> cell_fits m i v) ->
  Forall (fun rk => RK_Index rk < nextIndex m)%nat rks ->
  exists out, foldl (render_keys (map render_value fs) m) (Ok out0) rks = Ok out /\
    (Forall2 (fun s rk => sel_renders s m rk) fields rks ->
     (forall k, is_Some (out !! k) <-> is_Some (out0 !! k) \/ k ∈ sel_key <$> fields) /\
     (forall k v, out !! k = Some v -> out0 !! k = Some v \/ exists s, s ∈ fields /\ sel_key s = k /\ answers_sel s v)).
Proof.
  intros Hcells Hw Hlen Hfit Hk. revert out0 fields. induction Hk as [|[i key] rks Hi _ IH]; intros out0 fields.
  { exists out0. split; [done|]. inversion 1; subst. split; [|auto]. intros k. cbn. rewrite elem_of_nil. tauto. }
  cbn [foldl]. unfold render_keys at 2. cbn [rbind RK_Index RK_Key] in *.
  destruct (lookup_lt_is_Some_2 fs i) as [v Hv]; [lia|]. rewrite list_lookup_fmap, Hv. cbn [fmap option_fmap option_map].
  pose proof (Forall_lookup_1 _ _ _ _ Hcells Hv) as Hcell. destruct (Hcell m i Hw (Hfit i v Hv)) as (x & Hx & Hsx). rewrite Hx. cbn [rbind].
  destruct fields as [|s fields].
  { destruct (IH (<[key := x]> out0) []) as (out & Hout & _). exists out. split; [done|]. inversion 1. }
  destruct (IH (<[key := x]> out0) fields) as (out & Hout & Hspec). exists out. split; [done|]. inversion 1 as [|? ? ? ? Hs Hrest]; subst.
  destruct (Hspec Hrest) as [Hdom Hval]. assert (key = sel_key s) as Ekey by by destruct s, Hs. split.
  - intros k. rewrite Hdom. cbn. rewrite elem_of_cons, lookup_insert_is_Some. rewrite <- Ekey. destruct (decide (key = k)) as [->|Hne]; [tauto|].
    split; [tauto|]. intros [?|[E|?]]; [tauto|by destruct Hne|tauto].
  - intros k w Hkw. destruct (Hval k w Hkw) as [E|(s' & Hin & Hsk & Ha)].
    + apply lookup_insert_Some in E as [[<- <-]|[_ E]]; [|by left]. right. exists s. split; [by left|]. split; [done|]. by eapply Hsx.
    + right. exists s'. split; [by right|done].
Qed.

Lemma value_renders v : is_value v = true -> cell_renders v.
Proof.
  intros Hv m i Hw _. assert (exists w, render_value v m i = Ok (RValue w)) as [w ->].
  { destruct v; try done; cbn [render_value]; (destruct (typeInfo m) as [ti|]; [destruct (Nat.eqb i (TI_Index ti))|]; by eexists). }
  exists (RValue w). split; [done|]. intros s k _. destruct s; by constructor.
Qed.

Lemma doc_renders_all d : doc_renders d.
Proof.
  apply (Doc_ind' cell_renders doc_renders).
  - intros v. destruct v; try done; by apply value_renders.
  - intros l _. by apply value_renders.
  - intros d' IH m i Hw Hf. inversion Hf as [|? ? c ? Hc Hfd|]; subst; [done|].
    assert (child_at m i = Ok c) as Hca. { unfold child, child_at in *. by destruct (ChildMappings m !! i) as [[]|]; cbn in Hc; simplify_eq. }
    destruct (IH c (all_wf_child _ _ _ Hw Hc) Hfd) as (out & Hm & Ha). exists (RMap out). split.
    { change (render_value (VDoc d') m i) with (let! inner := child_at m i in let! x := ToMap d' inner in Ok (RMap x)). rewrite Hca. cbn [rbind]. by rewrite Hm. }
    intros s k Hs. destruct s as [f|h inner|a|]; try by constructor. destruct Hs as (_ & _ & c' & Hc' & Hr). cbn in Hc'.
    apply as_one, Ha. rewrite Hc in Hc'. injection Hc' as ->. by apply list_rel_Forall2.
  - intros l IH m i Hw Hf. inversion Hf as [| |? ? c ? Hc Hfd]; subst; [done|].
    destruct (render_docs_ok m i c l IH Hw Hc Hfd) as (outs & Hm & Ha). exists (RMaps outs). split.
    { change (render_value (VDocs l) m i) with (match ChildMappings m !! i with
        | None => Panic | Some inner => let! innerArray := render_docs ToMap inner l in Ok (RMaps innerArray) end).
      unfold child in Hc. destruct (ChildMappings m !! i) as [[]|]; cbn in Hc; simplify_eq. by rewrite Hm. }
    intros s k Hs. destruct s as [f|h inner|a|]; try by constructor. destruct Hs as (_ & _ & c' & Hc' & Hr). cbn in Hc'.
    apply as_many. intros out Hin. apply (Ha out inner Hin). rewrite Hc in Hc'. injection Hc' as ->. by apply list_rel_Forall2.
  - intros l _. by apply value_renders.
  - intros l _. by apply value_renders.
  - intros h fs st IH m Hw Hf. inversion Hf as [? ? ? ? Hlen Hcells]; subst.
    assert (forall fields, exists out, ToMap (mkDoc h fs st) m = Ok out /\ (renders fields m -> answers fields out)) as Hany.
    { intros fields. destruct (keys_render m fs fields (RenderKeys m) ∅ IH Hw Hlen Hcells (mwf_render m (all_wf_here m Hw))) as (out & Hout & Hspec).
      exists out. split; [done|]. intros Hr. destruct (Hspec Hr) as [Hdom Hval]. constructor.
      - intros k. rewrite Hdom, lookup_empty. split; [intros [[? ?]|?]; done|by right].
      - intros k v Hkv. destruct (Hval k v Hkv) as [E|?]; [by rewrite lookup_empty in E|done]. }
    destruct (Hany []) as (out & Hout & _). exists out. split; [done|]. intros fields Hr.
    destruct (Hany fields) as (out' & Hout' & Ha). rewrite Hout in Hout'. injection Hout' as <-. by apply Ha.
Qed.

Section Soundness.
Variable getCollectionDesc : string -> result CollectionDescription.
Hypothesis repo_ok : forall name d, getCollectionDesc name = Ok d -> desc_ok d.

(** A mapping as it is at the start of a select. *)
Definition fresh_mapping (m : DocumentMapping) : Prop := all_wf m /\ RenderKeys m = [] /\ ChildMappings m = [].

Lemma fresh_named l t : (forall i n n', (i, n) ∈ l -> (i, n') ∈ l -> n = n') -> fresh_mapping (SetTypeName (added l) t).
Proof.
  intros Hl. destruct (added_facts l) as (Hc & Hr & _). split; [|by split]. apply all_wf_SetTypeName, all_wf_leaf; [by apply mwf_added|done].
Qed.

Definition fetched (fields : list FieldDescription) : list (nat * string) :=
  flat_map (fun f => if IsObject f then [] else [(Z.to_nat f.(fd_ID), f.(fd_Name))]) fields.

Lemma foldl_fetched l fields :
  foldl (fun m f => if IsObject f then m else Add m (Z.to_nat f.(fd_ID)) f.(fd_Name)) (added l) fields = added (l ++ fetched fields).
Proof.
  revert l. induction fields as [|f fields IH]; intros l; cbn; [by rewrite app_nil_r|]. destruct (IsObject f); [apply IH|].
  change (Add (added l) (Z.to_nat (fd_ID f)) (fd_Name f)) with (Add (added l) (Z.to_nat (fd_ID f), fd_Name f).1 (Z.to_nat (fd_ID f), fd_Name f).2).
  rewrite <- added_app, IH, <- app_assoc. done.
Qed.

Lemma fetched_one d i n n' :
  desc_ok d -> (i, n) ∈ (0%nat, KeyFieldName) :: fetched d.(cd_Schema).(sd_Fields) -> (i, n') ∈ (0%nat, KeyFieldName) :: fetched d.(cd_Schema).(sd_Fields) -> n = n'.
Proof.
  intros [Hid Hk Ho]. set (fs := sd_Fields (cd_Schema d)) in *.
  assert (forall i n, (i, n) ∈ fetched fs -> exists f, f ∈ fs /\ IsObject f = false /\ i = Z.to_nat (fd_ID f) /\ n = fd_Name f) as Hf.
  { intros j m Hin. apply list_elem_of_In, in_flat_map in Hin as (f & Hf & Hin). destruct (IsObject f) eqn:E; [done|].
    destruct Hin as [[= <- <-]|[]]. exists f. by rewrite list_elem_of_In. }
  rewrite !elem_of_cons. intros [[= -> ->]|Hin] [E|Hin'].
  - congruence.
  - apply Hf in Hin' as (f & Hin' & Ho' & E0 & ->). symmetry. apply Hk; [done..|]. specialize (Hid f Hin'). lia.
  - injection E as -> ->. apply Hf in Hin as (f & Hin & Ho' & E0 & ->). apply Hk; [done..|]. specialize (Hid f Hin). lia.
  - apply Hf in Hin as (f & Hin & Hof & -> & ->). apply Hf in Hin' as (f' & Hin' & Hof' & E & ->).
    apply Ho; [done..|]. pose proof (Hid f Hin). pose proof (Hid f' Hin'). lia.
Qed.

Lemma imap_one (names : list string) i n n' :
  (i, n) ∈ imap (fun i name => (i, name)) names -> (i, n') ∈ imap (fun i name => (i, name)) names -> n = n'.
Proof.
  intros [j Hj]%list_elem_of_lookup_1 [j' Hj']%list_elem_of_lookup_1. rewrite list_lookup_imap in Hj, Hj'.
  destruct (names !! j) as [a|] eqn:E; [|done]. destruct (names !! j') as [a'|] eqn:E'; [|done]. cbn in *. congruence.
Qed.

Lemma getTopLevelInfo_fresh name root cn m d : getTopLevelInfo getCollectionDesc name root cn = Ok (m, d) -> fresh_mapping m.
Proof.
  unfold getTopLevelInfo. destruct (isAggregateName name).
  { intros [= <- _]. split; [|by split]. apply (all_wf_leaf NewDocumentMapping); [|done]. apply (mwf_added []). by intros i n n' ?%elem_of_nil. }
  case_decide.
  - destruct (getCollectionDesc cn) as [desc| |] eqn:E; [|done|done]. cbn [rbind]. intros [= <- _].
    change (Add NewDocumentMapping DocKeyFieldIndex KeyFieldName) with (added [(0%nat, KeyFieldName)]). rewrite foldl_fetched.
    destruct (fresh_named ([(0%nat, KeyFieldName)] ++ fetched (sd_Fields (cd_Schema desc))) cn) as (Hw & Hr & Hc).
    { intros i n n'. by apply fetched_one, (repo_ok cn). }
    split; [by apply all_wf_Add|by split].
  - destruct (String.eqb name LinksFieldName); intros [= <- _]; apply fresh_named, imap_one.
Qed.

(** ** Every step keeps what the mapping has *)

Definition grown (m m' : DocumentMapping) : Prop := grows m m' /\ all_wf m'.

Lemma grown_trans m1 m2 m3 : grown m1 m2 -> grown m2 m3 -> grown m1 m3.
Proof. intros [H1 _] [H2 W]. split; [by etrans|done]. Qed.

Lemma grown_refl m : all_wf m -> grown m m.
Proof. done. Qed.

Lemma grown_join m name c : all_wf m -> (forall d, c = Some d -> all_wf d) -> grown m (join_at m (nextIndex m) name c).
Proof. intros Hw Hc. split; [by apply grows_join, all_wf_here|by apply all_wf_join]. Qed.

Lemma grown_Add m name : all_wf m -> grown m (Add m (nextIndex m) name).
Proof. intros Hw. split; [apply grows_Add|by apply all_wf_Add]. Qed.

Lemma filterHost_grows parent key m m' host : all_wf m -> filterHost getCollectionDesc parent key m = Ok (m', host) -> grown m m'.
Proof.
  intros Hw. unfold filterHost. destruct (getCollectionName _ key _ parent) as [cn| |]; [|done|done]. cbn [rbind].
  destruct (getTopLevelInfo _ key _ cn) as [[c d]| |] eqn:E; [|done|done]. cbn [rbind]. intros [= <- _].
  apply (grown_join m key (Some (CloneWithoutRender c))); [done|]. intros ? [= <-]. apply all_wf_Clone. by apply getTopLevelInfo_fresh in E as [? _].
Qed.

Definition inner_grows (inner : list Requestable -> DocumentMapping -> result (DocumentMapping * list Requestable * list Requestable)) : Prop :=
  forall fs c c' new fs', all_wf c -> inner fs c = Ok (c', new, fs') -> grown c c'.

Lemma resolve_host_grows i c inner m new ex m' new' ex' :
  inner_grows inner -> all_wf m -> child m i = Some c -> resolve_host i c inner (m, new, ex) = Ok (m', new', ex') -> grown m m'.
Proof.
  intros Hin Hw Hc. unfold resolve_host. destruct (list_find _ (new ++ ex)) as [[j [f|a|info fs]]|]; [done|done| |done].
  destruct (inner fs c) as [[[c' cf] fs']| |] eqn:Ei; [|done|done]. cbn [rbind]. intros [= <- _ _].
  destruct (Hin fs c c' cf fs' (all_wf_child m i c Hw Hc) Ei) as [Hg Hw']. split; [by eapply grows_set_child|by eapply all_wf_set_child].
Qed.

Lemma resolveFilterKey_grows parent key b inner m new ex m' new' ex' :
  (forall cn, inner_grows (inner cn)) -> all_wf m ->
  resolveFilterKey getCollectionDesc parent key b inner (m, new, ex) = Ok (m', new', ex') -> grown m m'.
Proof.
  intros Hin Hw. unfold resolveFilterKey. destruct (isOperator key); [by intros [= <- _ _]|].
  assert (forall m1 new1 ex1,
    (let! keyIndex := FirstIndexOfName m1 key in
    match ChildMappings m1 !! keyIndex with
    | Some (Some childMap) =>
        if b then let! cn := getCollectionName getCollectionDesc key ObjectSelection parent in resolve_host keyIndex childMap (inner cn) (m1, new1, ex1)
        else Ok (m1, new1, ex1)
    | _ => Ok (m1, new1, ex1)
    end) = Ok (m', new', ex') -> all_wf m1 -> grown m1 m') as Htail.
  { intros m1 new1 ex1. destruct (FirstIndexOfName m1 key) as [i| |]; [|done|done]. cbn [rbind].
    destruct (ChildMappings m1 !! i) as [[c|]|] eqn:Ec; [|by intros [= <- _ _]..]. destruct b; [|by intros [= <- _ _]].
    destruct (getCollectionName _ key _ parent) as [cn| |]; [|done|done]. cbn [rbind]. intros E Hw1.
    eapply resolve_host_grows; [apply Hin|done| |exact E]. unfold child. by rewrite Ec. }
  destruct (indexes m key) as [|k l]; cbn [rbind]; [|by intros Ht; eapply Htail].
  destruct (filterHost getCollectionDesc parent key m) as [[m1 host]| |] eqn:Eh; [|done|done]. cbn [rbind]. intros Ht.
  pose proof (filterHost_grows _ _ _ _ _ Hw Eh) as Hg. eapply grown_trans; [exact Hg|]. by eapply Htail, Hg.
Qed.

Lemma resolveInner_grows v parent : inner_grows (resolveInnerFilterDependencies getCollectionDesc v parent).
Proof.
  revert parent. apply (val_ind' (fun v => forall parent, inner_grows (resolveInnerFilterDependencies getCollectionDesc v parent)) (fun _ => True)); try done.
  - intros []; try done; intros parent fs c c' new fs' Hw; by intros [= <- _ _].
  - intros l _ parent fs c c' new fs' Hw. by intros [= <- _ _].
  - intros d _ parent fs c c' new fs' Hw. by intros [= <- _ _].
  - intros l _ parent fs c c' new fs' Hw. by intros [= <- _ _].
  - intros l _ parent fs c c' new fs' Hw. by intros [= <- _ _].
  - intros l Hl parent fs c c' new fs' Hw. cbn [resolveInnerFilterDependencies]. generalize (@nil Requestable) as new0. revert fs c Hw.
    induction Hl as [|[key v'] l Hv _ IH]; intros fs c Hw new0; [by intros [= <- _ _]|].
    destruct (resolveFilterKey _ parent key _ _ (c, new0, fs)) as [[[c1 new1] fs1]| |] eqn:Ek; [|done|done]. cbn [rbind]. intros Hr.
    pose proof (resolveFilterKey_grows _ _ _ _ _ _ _ _ _ _ Hv Hw Ek) as Hg. eapply grown_trans; [exact Hg|]. by eapply IH, Hr; apply Hg.
Qed.

(** What [toSelect] promises of a select. *)
Definition select_ok (fields : list selection) (s : Select) : Prop :=
  exists m, sl_DocumentMapping s = Some m /\ all_wf m /\ renders fields m.

Section Steps.
Variable toSel : nat -> rSelect -> string -> result Select.
Hypothesis toSel_ok : forall i r p s, toSel i r p = Ok s -> select_ok r.(rs_Fields) s.

Lemma FirstIndex_in m name i : FirstIndexOfName m name = Ok i -> i ∈ indexes m name.
Proof. unfold FirstIndexOfName. destruct (indexes m name); [done|]. intros [= <-]. by left. Qed.

Lemma in_Add_here m i name : i ∈ indexes (Add m i name) name.
Proof. rewrite indexes_Add, decide_True by done. apply elem_of_app. right. by apply list_elem_of_singleton. Qed.

Lemma getRequestables_renders descName fields m m' x :
  all_wf m -> getRequestables toSel descName fields m = (m', Ok x) ->
  extends m m' /\ all_wf m' /\ exists rks, RenderKeys m' = RenderKeys m ++ rks /\ Forall2 (fun s rk => sel_renders s m' rk) fields rks.
Proof.
  revert m x. induction fields as [|s fields IH]; intros m x Hw.
  { intros [= <- _]. split; [apply extends_refl|]. split; [done|]. exists []. by rewrite app_nil_r. }
  assert (forall m1 rk x, all_wf m1 -> extends m m1 -> RenderKeys m1 = RenderKeys m ++ [rk] -> sel_renders s m1 rk ->
    getRequestables toSel descName fields m1 = (m', Ok x) ->
    extends m m' /\ all_wf m' /\ exists rks, RenderKeys m' = RenderKeys m ++ rks /\ Forall2 (fun s rk => sel_renders s m' rk) (s :: fields) rks) as Hrest.
  { intros m1 rk y Hw1 He1 Hr1 Hs1 E. destruct (IH m1 y Hw1 E) as (He & Hw' & rks & Hrk & Hf).
    split; [by eapply extends_trans|]. split; [done|]. exists (rk :: rks). split; [by rewrite Hrk, Hr1, <- app_assoc|].
    constructor; [by eapply sel_renders_extends|done]. }
  destruct s as [f|h inner|a|]; cbn [getRequestables]; unfold mbind, modify, read, mlift, mret; cbn beta iota.
  - destruct (FirstIndexOfName m (rf_Name f)) as [i| |] eqn:Ei; [|done|done].
    destruct (getRequestables toSel descName fields _) as [m1 [[fs ags]| |]] eqn:E; [|done|done]. intros [= -> _].
    refine (Hrest _ (mkRenderKey i (getRenderKey f)) _ _ _ _ _ E); [eapply all_wf_render; [done|by apply FirstIndex_in]|apply extends_render|done|].
    split; [done|]. split; [by apply FirstIndex_in|done].
  - destruct (toSel (GetNextIndex m) (mkRSelect h inner) descName) as [sel| |] eqn:Es; [|done|done].
    destruct (toSel_ok _ _ _ _ Es) as (c & Hc & Hwc & Hrc). rewrite Hc. cbn in Hrc.
    destruct (getRequestables toSel descName fields _) as [m1 [[fs ags]| |]] eqn:E; [|done|done]. intros [= -> _].
    set (i := GetNextIndex m) in *. set (k := getRenderKey (rh_Field h)) in *. set (n := rf_Name (rh_Field h)) in *.
    change (Add (add_render i k (SetChildAt m i (Some c))) i n) with (add_render i k (join_at m i n (Some c))) in E.
    assert (all_wf (join_at m i n (Some c))) as Hwj by (apply all_wf_join; [done|by intros ? [= <-]]).
    refine (Hrest _ (mkRenderKey i k) _ _ _ _ _ E).
    + eapply all_wf_render; [done|]. apply (in_Add_here (SetChildAt m i (Some c)) i n).
    + eapply extends_trans; [apply (grows_join m n (Some c)), all_wf_here, Hw|apply extends_render].
    + done.
    + split; [done|]. split; [apply (in_Add_here (SetChildAt m i (Some c)) i n)|]. exists c. split; [|by apply list_rel_Forall2].
      change (child (join_at m i n (Some c)) i = Some c). rewrite child_join by apply (mwf_children m), all_wf_here, Hw. by rewrite decide_True.
  - destruct (getAggregateRequests (GetNextIndex m) a) as [ar| |]; [|done|done].
    destruct (getRequestables toSel descName fields _) as [m1 [[fs ags]| |]] eqn:E; [|done|done]. intros [= -> _].
    set (i := GetNextIndex m) in *. set (k := getRenderKey (ra_Field a)) in *. set (n := rf_Name (ra_Field a)) in *.
    change (Add (add_render i k m) i n) with (add_render i k (Add m i n)) in E.
    refine (Hrest _ (mkRenderKey i k) _ _ _ _ _ E).
    + eapply all_wf_render; [by apply all_wf_Add|]. apply (in_Add_here m i n).
    + eapply extends_trans; [apply grows_Add|apply extends_render].
    + done.
    + split; [done|]. split; [apply (in_Add_here m i n)|done].
  - done.
Qed.

Lemma orderJoins_grows descName conditions existing m m' x :
  all_wf m -> orderJoins toSel descName conditions existing m = (m', Ok x) -> grown m m'.
Proof.
  revert existing m. induction conditions as [|c conditions IH]; intros existing m Hw; [by intros [= <- _]|]. cbn [orderJoins].
  destruct (ro_Fields c) as [|j [|j' js]]; [by apply IH..|]. unfold mbind, modify, read, mlift; cbn beta iota.
  destruct (indexes m j); [|by apply IH]. destruct (toSel _ _ descName) as [sel| |] eqn:Es; [|done|done].
  destruct (toSel_ok _ _ _ _ Es) as (d & Hd & Hwd & _). rewrite Hd. intros E.
  assert (grown m (join_at m (nextIndex m) j (Some d))) as Hg by (apply grown_join; [done|by intros ? [= <-]]).
  eapply grown_trans; [exact Hg|]. eapply IH; [apply Hg|exact E].
Qed.

Lemma appendDependencies_grows names i targets m ags : all_wf m -> grown m (appendDependencies names i targets m ags).1.
Proof.
  revert m ags. induction names as [|n names IH]; intros m ags Hw; cbn [appendDependencies]; [done|]. unfold appendIfNotExists.
  destruct (tryGetMatchingAggregate n targets ags); [by apply IH|].
  eapply grown_trans; [by apply (grown_Add m n)|]. apply IH. by apply all_wf_Add.
Qed.

Lemma underlying_grows n i ags m m' x : all_wf m -> appendUnderlyingAggregates n i ags m = (m', Ok x) -> grown m m'.
Proof.
  revert i ags m. induction n as [|n IH]; intros i ags m Hw; cbn [appendUnderlyingAggregates]; [by intros [= <- _]|].
  destruct (ags !! i) as [a|]; [|by intros [= <- _]]. destruct (aggregateDependencies _) as [|d ds] eqn:Ed; [by apply IH|].
  unfold mbind, mlift. destruct (rmap _ (ar_targets a)) as [ts| |]; [|done|done].
  destruct (appendDependencies (d :: ds) i ts m _) as [m1 ags1] eqn:E. intros Hr.
  assert (grown m m1) as Hg.
  { pose proof (appendDependencies_grows (d :: ds) i ts m (<[i:=mkAggRequest (ar_field a) ts (ar_dependencyIndexes a)]> ags) Hw) as Hg. by rewrite E in Hg. }
  eapply grown_trans; [exact Hg|]. eapply IH; [apply Hg|exact Hr].
Qed.

Lemma makeHost_grows root desc target converted m m' x :
  all_wf m -> makeHost getCollectionDesc toSel root desc target converted m = (m', Ok x) -> grown m m'.
Proof.
  intros Hw. unfold makeHost, mbind, read, modify, mlift; cbn beta iota.
  destruct (getCollectionName _ _ root _) as [cn| |]; [|done|done]. destruct (getTopLevelInfo _ _ root cn) as [[c d]| |] eqn:Et; [|done|done].
  apply getTopLevelInfo_fresh in Et as (Hwc & _).
  destruct (getRequestables toSel (cd_Name d) _ c) as [c1 [[fs ags]| |]] eqn:Er; [|done|done].
  destruct (getRequestables_renders _ _ _ _ _ Hwc Er) as (_ & Hwc1 & _).
  assert (forall y, (match (toOrderBy (rq_order target) (Some (CloneWithoutRender c1))) with
    | Ok o => (Add (SetChildAt m (GetNextIndex m) (Some (CloneWithoutRender c1))) (GetNextIndex m) (hostExternalName target), Ok (y o))
    | Err e => (SetChildAt m (GetNextIndex m) (Some (CloneWithoutRender c1)), Err e)
    | Panic => (SetChildAt m (GetNextIndex m) (Some (CloneWithoutRender c1)), Panic) end) = (m', Ok x) -> grown m m') as Hend.
  { intros y. destruct (toOrderBy _ _); [|done|done]. intros [= <- _].
    apply (grown_join m (hostExternalName target) (Some (CloneWithoutRender c1))); [done|]. intros ? [= <-]. by apply all_wf_Clone. }
  destruct (negb _).
  - intros E. eapply (Hend (fun o => _)). revert E. unfold mret. destruct (toOrderBy _ _); [intros [= <- <-]; reflexivity|done|done].
  - destruct (ToFilter _ _) as [fl| |]; [|done|done]. intros E. eapply (Hend (fun o => _)). revert E. unfold mret.
    destruct (toOrderBy _ _); [intros [= <- <-]; reflexivity|done|done].
Qed.

Lemma resolveTargets_grows root desc targets fields m m' x :
  all_wf m -> resolveTargets getCollectionDesc toSel root desc targets fields m = (m', Ok x) -> grown m m'.
Proof.
  revert fields m x. induction targets as [|t targets IH]; intros fields m x Hw; cbn [resolveTargets]; [by intros [= <- _]|].
  unfold mbind at 1. destruct (findHost desc t fields m) as [[found converted]| |]; [|done|done]. unfold mbind at 1.
  assert (forall host fs m1, all_wf m1 ->
    mbind (fun m => (m, childTarget t host m)) (fun child => mbind (resolveTargets getCollectionDesc toSel root desc targets fs)
      (fun '(rest, fs) => mret (mkMTarget (host_target host) child :: rest, fs))) m1 = (m', Ok x) -> grown m1 m') as Htail.
  { intros host fs m1 Hw1. unfold mbind. destruct (childTarget t host m1); [|done|done].
    destruct (resolveTargets _ _ _ _ _ fs m1) as [m2 [[rest fs2]| |]] eqn:E; [|done|done]. intros [= -> _]. by eapply IH. }
  destruct found as [host|]; [by apply Htail|]. unfold mbind at 1. destruct (makeHost _ _ _ _ _ _ m) as [m1 [dj| |]] eqn:Eh; [|done|done].
  apply makeHost_grows in Eh; [|done]. intros Hr. eapply grown_trans; [exact Eh|]. eapply Htail; [apply Eh|exact Hr].
Qed.

Lemma resolveEach_grows root desc ags fields m m' x :
  all_wf m -> resolveEach getCollectionDesc toSel root desc ags fields m = (m', Ok x) -> grown m m'.
Proof.
  revert fields m. induction ags as [|a ags IH]; intros fields m Hw; cbn [resolveEach]; [by intros [= <- _]|].
  unfold mbind. destruct (resolveTargets _ _ _ _ _ fields m) as [m1 [[ts fs]| |]] eqn:E; [|done|done].
  apply resolveTargets_grows in E; [|done]. intros Hr. eapply grown_trans; [exact E|]. eapply IH; [apply E|exact Hr].
Qed.

Lemma mapGroup_grows g m : all_wf m -> grown m (mapGroup g m).
Proof. intros Hw. unfold mapGroup. destruct g; [|done]. destruct (IndexesByName m !! GroupFieldName); [done|]. by apply grown_Add. Qed.

Lemma toSelect_by_ok i r p s : toSelect_by getCollectionDesc toSel i r p = Ok s -> select_ok r.(rs_Fields) s.
Proof.
  unfold toSelect_by. destruct (getCollectionName _ _ _ p) as [cn| |]; [|done|done]. cbn [rbind].
  destruct (getTopLevelInfo _ _ _ cn) as [[m d]| |] eqn:Et; [|done|done]. cbn [rbind]. apply getTopLevelInfo_fresh in Et as (Hw & Hrk & _).
  unfold mbind. destruct (getRequestables toSel _ _ m) as [m1 [[fs ags]| |]] eqn:E1; [|done|done].
  destruct (getRequestables_renders _ _ _ _ _ Hw E1) as (_ & Hw1 & rks & Hk & Hf).
  assert (renders (rs_Fields r) m1) as Hr1 by (unfold renders; by rewrite Hk, Hrk).
  destruct (resolveFilterDependencies _ cn _ fs m1) as [[[m2 new] fs2]| |] eqn:E2; [|done|done].
  assert (grown m1 m2) as G2.
  { revert E2. unfold resolveFilterDependencies. destruct (rh_Filter _); [apply resolveInner_grows, Hw1|by intros [= <- _ _]]. }
  destruct (resolveOrderDependencies toSel cn _ _ m2) as [m3 [fs3| |]] eqn:E3; [|done|done].
  assert (grown m2 m3) as G3.
  { revert E3. unfold resolveOrderDependencies. destruct (rh_OrderBy _); [apply orderJoins_grows, G2|intros [= <- _]; by apply grown_refl, G2]. }
  destruct (appendUnderlyingAggregates _ 0 ags m3) as [m4 [ags4| |]] eqn:E4; [|done|done]. apply underlying_grows in E4; [|apply G3].
  unfold resolveAggregates, mbind. destruct (resolveEach _ _ _ _ ags4 fs3 m4) as [m5 [fs5| |]] eqn:E5; [|done|done]. apply resolveEach_grows in E5; [|apply E4].
  unfold mlift. destruct (foldl _ _ ags4) as [fs6| |]; [|done|done]. cbn [modify mret].
  pose proof (mapGroup_grows (rh_GroupBy (rs_head r)) m5 (proj2 E5)) as G6.
  destruct (toTargetable _ _ _) as [t| |]; [|done|done]. cbn [rbind]. intros [= <-]. eexists. split; [done|].
  assert (grown m1 (mapGroup (rh_GroupBy (rs_head r)) m5)) as [G W] by (do 4 (eapply grown_trans; [eassumption|]); done).
  split; [done|]. by eapply renders_grows.
Qed.
End Steps.

Lemma toSelect_ok fuel i r p s : toSelect getCollectionDesc fuel i r p = Ok s -> select_ok r.(rs_Fields) s.
Proof. revert i r p s. induction fuel as [|fuel IH]; intros i r p s; [done|]. apply toSelect_by_ok. exact IH. Qed.

(** C25: A request that the mapper accepts gets what it asks for: a document with the cells of
    the mapping, whatever it has been filled with, is rendered without a panic, with exactly the
    names and aliases of the request as its keys, and the same holds of the documents inside. *)
Theorem ToSelect_renders r s d m :
  ToSelect getCollectionDesc r = Ok s -> sl_DocumentMapping s = Some m -> fits m d ->
  exists out, ToMap d m = Ok out /\ answers r.(rs_Fields) out.
Proof.
  intros Hs Hm Hf. destruct (toSelect_ok _ _ _ _ _ Hs) as (m' & Hm' & Hw & Hr). rewrite Hm in Hm'. injection Hm' as <-.
  destruct (doc_renders_all d m Hw Hf) as (out & Hout & Ha). exists out. split; [done|by apply Ha].
Qed.
End Soundness.
