(* ===== verification/MapperFields.v ===== *)
(** * The mapper: what a select yields

    The fields, aggregates and selects of a select are at indexes of their names, no two
    aggregates or selects share one, and the targets of aggregates are indexes of what they
    name. *)

From S2P Require Import Prelude GoStd Values Desc Schema DocMap Store Connor Request DocOps Mapper MapperSpec.

Definition is_join (r : Requestable) : bool := match r with RField _ => false | _ => true end.

(** The indexes of selects and aggregates. *)
Definition join_idx (fs : list Requestable) : list nat := GetIndex <$> List.filter is_join fs.

Definition target_ok (m : DocumentMapping) (t : AggregateTarget) : Prop :=
  let f := t.(at_Targetable).(tg_Field) in
  f.(f_Index) ∈ indexes m f.(f_Name) /\
  match t.(at_ChildTarget) with
  | None => True
  | Some ch => exists c, child m f.(f_Index) = Some c /\ ch.(f_Index) ∈ indexes c ch.(f_Name)
  end.

Definition list_all {A} (P : A -> Prop) : list A -> Prop := fix go l := match l with [] => True | x :: l => P x /\ go l end.

Lemma list_all_Forall {A} (P : A -> Prop) l : list_all P l <-> Forall P l.
Proof. induction l as [|x l IH]; cbn; [by split|]. by rewrite IH, Forall_cons. Qed.

(** The fields of a select that shares its mapping are sound for that mapping. *)
Fixpoint field_ok (m : DocumentMapping) (r : Requestable) : Prop :=
  GetIndex r ∈ indexes m (GetName r) /\
  match r with
  | RField _ => True
  | RAggregate a => Forall (target_ok m) a.(ag_AggregateTargets)
  | RSelect i fs =>
      i.(si_DocumentMapping) = None ->
      exists c, child m (GetIndex r) = Some c /\ list_all (field_ok c) fs /\ NoDup (join_idx fs)
  end.

(** A select that shares its mapping with its parent. *)
Definition top_ok (r : Requestable) : Prop := match r with RSelect i _ => i.(si_DocumentMapping) = None | _ => True end.

(** A select that has been added, which shares its mapping too. *)
Definition joined (r : Requestable) : Prop := match r with RSelect i _ => i.(si_DocumentMapping) = None | _ => False end.

Lemma joined_top r : joined r -> top_ok r.
Proof. by destruct r. Qed.

(** What stays of a field when fields are added to it. *)
Definition shape (r : Requestable) : Requestable := match r with RSelect i _ => RSelect i [] | r => r end.

Lemma join_idx_app fs fs' : join_idx (fs ++ fs') = join_idx fs ++ join_idx fs'.
Proof. unfold join_idx. by rewrite List.filter_app, fmap_app. Qed.

Lemma join_idx_shape fs fs' : shape <$> fs = shape <$> fs' -> join_idx fs = join_idx fs'.
Proof.
  revert fs'. induction fs as [|f fs IH]; intros [|f' fs']; cbn; [done..|]. intros [= E Es]. unfold join_idx in *. specialize (IH fs' Es).
  destruct f, f'; cbn in *; simplify_eq; [done|by rewrite IH|by rewrite IH].
Qed.

Lemma top_ok_shape r r' : shape r = shape r' -> top_ok r -> top_ok r'.
Proof. destruct r, r'; cbn; intros; by simplify_eq. Qed.

Lemma Forall_top_shape fs fs' : shape <$> fs = shape <$> fs' -> Forall top_ok fs -> Forall top_ok fs'.
Proof.
  revert fs'. induction fs as [|f fs IH]; intros [|f' fs']; cbn; [done..|]. intros [= E Es] [Hf Hfs]%Forall_cons.
  constructor; [by eapply top_ok_shape|by apply IH].
Qed.

Lemma Forall_joined_shape fs fs' : shape <$> fs = shape <$> fs' -> Forall joined fs -> Forall joined fs'.
Proof.
  revert fs'. induction fs as [|f fs IH]; intros [|f' fs']; cbn; [done..|]. intros [= E Es] [Hf Hfs]%Forall_cons.
  constructor; [|by apply IH]. by destruct f, f'; cbn in *; simplify_eq.
Qed.

Lemma target_ok_extends m m' t : extends m m' -> target_ok m t -> target_ok m' t.
Proof.
  intros He [Hi Hc]. split; [by eapply extends_indexes|]. destruct (at_ChildTarget t); [|done]. destruct Hc as (c & Hc & Hin).
  destruct (extends_child _ _ _ _ He Hc) as (c' & Hc' & He' & _). exists c'. split; [done|by eapply extends_indexes].
Qed.

Section RequestableInd.
Variable P : Requestable -> Prop.
Hypothesis Hf : forall f, P (RField f).
Hypothesis Ha : forall a, P (RAggregate a).
Hypothesis Hs : forall i fs, Forall P fs -> P (RSelect i fs).

Fixpoint Requestable_ind' (r : Requestable) : P r :=
  match r with
  | RField f => Hf f
  | RAggregate a => Ha a
  | RSelect i fs => Hs i fs ((fix go l := match l return Forall P l with
      | [] => Forall_nil_2 _ | r :: l => Forall_cons_2 _ _ _ (Requestable_ind' r) (go l) end) fs)
  end.
End RequestableInd.

Lemma field_ok_extends m m' r : extends m m' -> field_ok m r -> field_ok m' r.
Proof.
  revert m m'. induction r as [f|a|i fs IH] using Requestable_ind'; intros m m' He [Hi Hr]; (split; [by eapply extends_indexes|]).
  - done.
  - eapply Forall_impl; [exact Hr|]. intros t. by apply target_ok_extends.
  - intros Hn. destruct (Hr Hn) as (c & Hc & Hfs & Hnd). destruct (extends_child _ _ _ _ He Hc) as (c' & Hc' & He' & _).
    exists c'. split; [done|]. split; [|done]. rewrite list_all_Forall in *. clear -IH Hfs He'.
    induction Hfs as [|f fs Hf _ IHf]; [constructor|]. apply Forall_cons in IH as [IH1 IH2]. constructor; [by eapply IH1|by apply IHf].
Qed.

Lemma fields_ok_extends m m' fs : extends m m' -> Forall (field_ok m) fs -> Forall (field_ok m') fs.
Proof. intros He Hf. eapply Forall_impl; [exact Hf|]. intros r. by apply field_ok_extends. Qed.

Lemma field_ok_index m r : field_ok m r -> GetIndex r ∈ indexes m (GetName r).
Proof. by destruct r; intros [H _]. Qed.

Lemma join_idx_below m fs i : mwf m -> Forall (field_ok m) fs -> i ∈ join_idx fs -> (i < nextIndex m)%nat.
Proof.
  intros Hm Hf Hi. unfold join_idx in Hi. apply list_elem_of_fmap in Hi as (r & -> & Hr). apply list_elem_of_In, filter_In in Hr as [Hr _].
  rewrite Forall_forall in Hf. eapply mwf_below; [done|]. by apply field_ok_index, Hf, list_elem_of_In.
Qed.

(** New indexes are beyond the old ones. *)
Lemma NoDup_beyond (l l' : list nat) n : (forall i, i ∈ l -> (i < n)%nat) -> (forall i, i ∈ l' -> (n <= i)%nat) -> NoDup l -> NoDup l' -> NoDup (l ++ l').
Proof. intros Hl Hl' Hn Hn'. apply NoDup_app. split; [done|]. split; [|done]. intros i H1%Hl H2%Hl'. lia. Qed.

Definition ag_ok (m : DocumentMapping) (a : aggregateRequest) : Prop := a.(ar_field).(f_Index) ∈ indexes m a.(ar_field).(f_Name).
Definition ag_idx (ags : list aggregateRequest) : list nat := (fun a => a.(ar_field).(f_Index)) <$> ags.

(** Fields and aggregates still to be made, at indexes of their names, none twice. *)
Record sound (m : DocumentMapping) (fs : list Requestable) (ags : list aggregateRequest) : Prop := {
  so_fields : Forall (field_ok m) fs;
  so_top : Forall top_ok fs;
  so_ags : Forall (ag_ok m) ags;
  so_nodup : NoDup (join_idx fs ++ ag_idx ags);
}.

Lemma ags_ok_extends m m' ags : extends m m' -> Forall (ag_ok m) ags -> Forall (ag_ok m') ags.
Proof. intros He Ha. eapply Forall_impl; [exact Ha|]. intros a. by apply extends_indexes. Qed.

Lemma sound_grown m m' fs ags : grown m m' -> sound m fs ags -> sound m' fs ags.
Proof. intros [[He _] _] [Hf Ht Ha Hn]. split; [by eapply fields_ok_extends|done|by eapply ags_ok_extends|done]. Qed.

Lemma sound_below m fs ags i : all_wf m -> sound m fs ags -> i ∈ join_idx fs ++ ag_idx ags -> (i < nextIndex m)%nat.
Proof.
  intros Hw%all_wf_here [Hf Ht Ha Hn] [Hi|Hi]%elem_of_app; [by eapply join_idx_below|].
  apply list_elem_of_fmap in Hi as (a & -> & Hin). rewrite Forall_forall in Ha. by eapply mwf_below, Ha.
Qed.

(** New fields whose indexes are beyond those of a mapping are added to the fields. *)
Lemma sound_new m m' fs ags new :
  all_wf m -> grown m m' -> sound m fs ags -> Forall (field_ok m') new -> Forall top_ok new -> NoDup (join_idx new) ->
  (forall i, i ∈ join_idx new -> (nextIndex m <= i)%nat) -> sound m' (fs ++ new) ags.
Proof.
  intros Hw Hg Hs Hnew Htop Hnd Hb. pose proof (fun i => sound_below m fs ags i Hw Hs) as Hbelow.
  destruct (sound_grown _ _ _ _ Hg Hs) as [Hf Ht Ha Hn]. split; [by apply Forall_app..|done|].
  rewrite join_idx_app, <- app_assoc, (Permutation_app_comm (join_idx new)), app_assoc. by eapply NoDup_beyond.
Qed.

Lemma child_set_ok m i m' c name : mwf m -> i = nextIndex m -> m' = join_at m i name c -> child m' i = c.
Proof. intros Hm -> ->. rewrite child_join by apply (mwf_children m Hm). by rewrite decide_True. Qed.

Lemma getAggregateRequests_field i a ar : getAggregateRequests i a = Ok ar -> ar.(ar_field) = mkMField i a.(ra_Field).(rf_Name).
Proof.
  unfold getAggregateRequests. destruct (getAggregateSources a) as [[|t ts]| |]; cbn; [done|by intros [= <-]|done|done].
Qed.

Lemma foldl_err {A B} (f : B -> A -> result B) l e : foldl (fun x a => let! x := x in f x a) (Err e) l = Err e.
Proof. by induction l. Qed.

Lemma foldl_panic {A B} (f : B -> A -> result B) l : foldl (fun x a => let! x := x in f x a) Panic l = Panic.
Proof. by induction l. Qed.

(** The aggregate of a request is the first at its index. *)
Lemma pairUp_inv fs a fs' : pairUp fs a = Ok fs' -> exists i g, fs !! i = Some (RAggregate g) /\ g.(ag_Field).(f_Index) = a.(ar_field).(f_Index) /\
  fs' = <[i := RAggregate (mkMAggregate g.(ag_Field) g.(ag_AggregateTargets) (g.(ag_Dependencies) ++ a.(ar_dependencyIndexes)))]> fs.
Proof.
  unfold pairUp, aggregateAt. destruct (fieldAt fs _) as [[f|ag|]|] eqn:E; [done| |done|done]. cbn [rbind].
  destruct (rmap _ _) as [ds| |]; [|done|done]. cbn [rbind]. destruct (list_find _ fs) as [[i r]|] eqn:El; [|done]. intros [= <-].
  exists i, ag. assert (r = RAggregate ag) as ->.
  { clear -E El. unfold fieldAt in E. revert i El E. induction fs as [|x fs IH]; intros i; [done|]. cbn. unfold decide.
    destruct (Nat.eqb_spec (GetIndex x) (f_Index (ar_field a))) as [Hx|Hx]; destruct (_ : Decision _) as [Hd|Hd]; [by intros [= <- <-] [= <-]|done|done|].
    destruct (list_find _ fs) as [[k y]|]; [|done]. cbn. intros [= <- <-] Ef. by eapply IH. }
  by apply list_find_Some in El as (Hi & Hg & _).
Qed.

Lemma join_idx_insert fs i r g : fs !! i = Some r -> GetIndex g = GetIndex r -> is_join r = true -> is_join g = true -> join_idx (<[i := g]> fs) = join_idx fs.
Proof.
  intros Hi Hg1 Hr Hg2. revert i Hi. induction fs as [|x fs IH]; intros [|i]; cbn; [done..| |].
  - intros [= ->]. unfold join_idx. cbn. rewrite Hg2, Hr. cbn. by rewrite Hg1.
  - intros Hi. unfold join_idx in *. cbn. destruct (is_join x); cbn; by rewrite IH.
Qed.

Section FieldSoundness.
Variable getCollectionDesc : string -> result CollectionDescription.
Hypothesis repo_ok : forall name d, getCollectionDesc name = Ok d -> desc_ok d.

(** ** What a filter adds *)

(** A step over fields is sound: the fields stay sound and in place, and the new ones are sound
    and at new indexes. *)
Definition inner_sound (inner : list Requestable -> DocumentMapping -> result (DocumentMapping * list Requestable * list Requestable)) : Prop :=
  forall fs c c' new fs', all_wf c -> Forall (field_ok c) fs -> inner fs c = Ok (c', new, fs') ->
    Forall (field_ok c') fs' /\ shape <$> fs' = shape <$> fs /\ Forall (field_ok c') new /\ Forall joined new /\ NoDup (join_idx new) /\
    (forall i, i ∈ join_idx new -> (nextIndex c <= i)%nat).

Lemma shape_insert (i : nat) r r' (fs : list Requestable) : fs !! i = Some r -> shape r' = shape r -> shape <$> (<[i := r']> fs) = shape <$> fs.
Proof.
  intros Hi E. rewrite list_fmap_insert, E. apply list_insert_id. by rewrite list_lookup_fmap, Hi.
Qed.

Lemma resolve_host_sound i c inner m new ex m' new' ex' :
  inner_sound inner -> inner_grows inner -> all_wf m -> child m i = Some c -> Forall (field_ok m) (new ++ ex) ->
  resolve_host i c inner (m, new, ex) = Ok (m', new', ex') ->
  Forall (field_ok m') (new' ++ ex') /\ shape <$> new' = shape <$> new /\ shape <$> ex' = shape <$> ex.
Proof.
  intros Hin Hgr Hw Hc Hf. unfold resolve_host.
  destruct (list_find _ (new ++ ex)) as [[j r]|] eqn:El; [|done]. apply list_find_Some in El as (Hj & Hidx & _).
  destruct r as [f|a|info fs]; [done|done|].
  destruct (inner fs c) as [[[c' cf] fs']| |] eqn:Ei; [|done|done]. cbn [rbind]. intros [= <- <- <-]. rewrite take_drop.
  pose proof (all_wf_child m i c Hw Hc) as Hwc. destruct (Hgr _ _ _ _ _ Hwc Ei) as [Hg' Hw'].
  assert (extends m (set_child i c' m)) as He by (eapply grows_set_child; eassumption).
  assert (shape <$> <[j:=RSelect info (fs' ++ cf)]> (new ++ ex) = shape <$> (new ++ ex)) as Hshape by by eapply shape_insert.
  split.
  - apply Forall_insert; [by eapply fields_ok_extends|]. pose proof (Forall_lookup_1 _ _ _ _ Hf Hj) as [Hix Hr].
    split; [by eapply extends_indexes|]. intros Hnone. destruct (Hr Hnone) as (c0 & Hc0 & Hfs & Hnd).
    cbn [GetIndex] in *. change (GetIndex (RSelect info (fs' ++ cf))) with (GetIndex (RSelect info fs)). rewrite Hidx in *.
    rewrite Hc in Hc0. injection Hc0 as <-. apply list_all_Forall in Hfs.
    destruct (Hin _ _ _ _ _ Hwc Hfs Ei) as (Hfs' & Hsh & Hcf & Htop & Hndc & Hb). exists c'. split.
    { rewrite child_set_child by by eexists. by rewrite decide_True. }
    split; [by apply list_all_Forall, Forall_app|]. rewrite join_idx_app. eapply NoDup_beyond; [|exact Hb| |done].
    + intros k. rewrite (join_idx_shape _ _ Hsh). intros Hk. by eapply join_idx_below; [apply all_wf_here| |].
    + by rewrite (join_idx_shape _ _ Hsh).
  - rewrite fmap_app in Hshape. rewrite fmap_take, fmap_drop, Hshape. replace (length new) with (length (shape <$> new)) by apply length_fmap.
    by rewrite take_app_length, drop_app_length.
Qed.

Lemma filterHost_sound parent key m m' host :
  all_wf m -> filterHost getCollectionDesc parent key m = Ok (m', host) -> field_ok m' host /\ joined host /\ GetIndex host = nextIndex m /\ is_join host = true.
Proof.
  intros Hw. unfold filterHost. destruct (getCollectionName _ key _ parent) as [cn| |]; [|done|done]. cbn [rbind].
  destruct (getTopLevelInfo _ key _ cn) as [[c d]| |] eqn:E; [|done|done]. cbn [rbind]. intros [= <- <-].
  split; [|done]. split; [apply in_Add_here|]. intros _. exists (CloneWithoutRender c). split; [|by split; [|constructor]].
  by eapply (child_set_ok m); [apply all_wf_here|reflexivity|reflexivity].
Qed.

(** The loop over conditions, whose mapping had [n] indexes at the start. *)
Definition filter_inv (n : nat) (m : DocumentMapping) (new ex : list Requestable) : Prop :=
  all_wf m /\ Forall (field_ok m) (new ++ ex) /\ Forall joined new /\ NoDup (join_idx new) /\ (n <= nextIndex m)%nat /\
  (forall i, i ∈ join_idx new -> (n <= i)%nat).

Lemma filter_inv_host n parent key m new ex m' host :
  filter_inv n m new ex -> filterHost getCollectionDesc parent key m = Ok (m', host) -> filter_inv n m' (new ++ [host]) ex.
Proof.
  intros (Hw & Hf & Ht & Hn & Hm & Hb) E. destruct (filterHost_grows _ repo_ok _ _ _ _ _ Hw E) as [[He _] Hw'].
  destruct (filterHost_sound _ _ _ _ _ Hw E) as (Hok & Htop & Hi & Hj).
  apply (fields_ok_extends _ _ _ He) in Hf as Hf'. apply Forall_app in Hf' as [Hf1 Hf2].
  assert (join_idx [host] = [nextIndex m]) as Ej by (unfold join_idx; cbn; by rewrite Hj; cbn; rewrite Hi).
  split; [done|]. split; [rewrite !Forall_app, Forall_singleton; done|]. split; [by rewrite Forall_app, Forall_singleton|].
  rewrite join_idx_app, Ej. split; [|split; [apply extends_next in He; lia|]].
  - eapply NoDup_beyond; [|intros i ->%list_elem_of_singleton; exact (le_n _)|done|apply NoDup_singleton].
    intros i Hin. apply Forall_app in Hf as [Hf _]. by eapply join_idx_below; [apply all_wf_here| |].
  - intros i [Hin| ->%list_elem_of_singleton]%elem_of_app; [by apply Hb|done].
Qed.

Lemma resolveFilterKey_sound n parent key b inner m new ex m' new' ex' :
  (forall cn, inner_sound (inner cn)) -> (forall cn, inner_grows (inner cn)) -> filter_inv n m new ex ->
  resolveFilterKey getCollectionDesc parent key b inner (m, new, ex) = Ok (m', new', ex') -> filter_inv n m' new' ex' /\ shape <$> ex' = shape <$> ex.
Proof.
  intros Hin Hgr Hinv. unfold resolveFilterKey. destruct (isOperator key); [by intros [= <- <- <-]|].
  assert (forall m1 new1, filter_inv n m1 new1 ex ->
    (let! keyIndex := FirstIndexOfName m1 key in
    match ChildMappings m1 !! keyIndex with
    | Some (Some childMap) =>
        if b then let! cn := getCollectionName getCollectionDesc key ObjectSelection parent in resolve_host keyIndex childMap (inner cn) (m1, new1, ex)
        else Ok (m1, new1, ex)
    | _ => Ok (m1, new1, ex)
    end) = Ok (m', new', ex') -> filter_inv n m' new' ex' /\ shape <$> ex' = shape <$> ex) as Htail.
  { intros m1 new1 Hi1. destruct (FirstIndexOfName m1 key) as [i| |]; [|done|done]. cbn [rbind].
    destruct (ChildMappings m1 !! i) as [[c|]|] eqn:Ec; [|by intros [= <- <- <-]..]. destruct b; [|by intros [= <- <- <-]].
    destruct (getCollectionName _ key _ parent) as [cn| |]; [|done|done]. cbn [rbind]. intros E.
    assert (child m1 i = Some c) as Hc by (unfold child; by rewrite Ec). destruct Hi1 as (Hw & Hf & Ht & Hn & Hm & Hb).
    destruct (resolve_host_sound _ _ _ _ _ _ _ _ _ (Hin cn) (Hgr cn) Hw Hc Hf E) as (Hf' & Hs1 & Hs2). split; [|done].
    assert (grown m1 m') as [[He _] Hw'] by by eapply resolve_host_grows.
    split; [done|]. split; [done|]. split; [by eapply Forall_joined_shape|]. rewrite (join_idx_shape _ _ Hs1). apply extends_next in He.
    split; [done|]. split; [lia|done]. }
  destruct (indexes m key) as [|k l]; cbn [rbind]; [|by apply Htail].
  destruct (filterHost getCollectionDesc parent key m) as [[m1 host]| |] eqn:Eh; [|done|done]. cbn [rbind].
  apply Htail. by eapply filter_inv_host.
Qed.

Lemma resolveInner_sound v parent : inner_sound (resolveInnerFilterDependencies getCollectionDesc v parent).
Proof.
  assert (forall fs c c' new fs', Forall (field_ok c) fs -> Ok (c, @nil Requestable, fs) = Ok (c', new, fs') ->
    Forall (field_ok c') fs' /\ shape <$> fs' = shape <$> fs /\ Forall (field_ok c') new /\ Forall joined new /\ NoDup (join_idx new) /\
    (forall i, i ∈ join_idx new -> (nextIndex c <= i)%nat)) as Hnone.
  { intros fs c c' new fs' Hf [= <- <- <-]. repeat split; try done; [constructor|]. by intros i ?%elem_of_nil. }
  revert parent. apply (val_ind' (fun v => forall parent, inner_sound (resolveInnerFilterDependencies getCollectionDesc v parent)) (fun _ => True)); try done;
    try (intros; intros fs c c' new fs' _; by apply Hnone).
  - intros []; try done; intros parent fs c c' new fs' _; by apply Hnone.
  - intros l Hl parent fs c c' new fs' Hw Hf. cbn [resolveInnerFilterDependencies].
    assert (filter_inv (nextIndex c) c [] fs) as Hinv by (do 2 (split; [done|]); split; [done|]; split; [constructor|]; split; [done|by intros i ?%elem_of_nil]).
    clear Hf Hw. revert Hinv. generalize (nextIndex c) as n. generalize (@nil Requestable) as new0. revert fs c.
    induction Hl as [|[key v'] l Hv _ IH]; intros fs c new0 n Hinv.
    { intros [= <- <- <-]. destruct Hinv as (_ & Hf & Ht & Hn & _ & Hb). apply Forall_app in Hf as [? ?]. done. }
    destruct (resolveFilterKey _ parent key _ _ (c, new0, fs)) as [[[c1 new1] fs1]| |] eqn:Ek; [|done|done]. cbn [rbind]. intros Hr.
    destruct (resolveFilterKey_sound n _ _ _ _ _ _ _ _ _ _ Hv (fun cn => resolveInner_grows _ repo_ok v' cn) Hinv Ek) as [Hinv1 Hs1].
    destruct (IH _ _ _ _ Hinv1 Hr) as (H1 & H2 & H3). split; [done|]. split; [congruence|done].
Qed.

Lemma filterDependencies_sound cn conditions fs m ags m' new fs' :
  all_wf m -> sound m fs ags -> resolveFilterDependencies getCollectionDesc cn conditions fs m = Ok (m', new, fs') ->
  grown m m' /\ sound m' (fs' ++ new) ags /\ shape <$> fs' = shape <$> fs /\ Forall joined new.
Proof.
  intros Hw Hs. unfold resolveFilterDependencies. destruct conditions as [conditions|].
  - intros E. pose proof (resolveInner_grows _ repo_ok _ _ _ _ _ _ _ Hw E) as G. split; [done|].
    destruct (resolveInner_sound _ _ _ _ _ _ _ Hw (so_fields _ _ _ Hs) E) as (Hf & Hsh & Hn & Ht & Hnd & Hb).
    split; [|done]. pose proof (fun i => sound_below m fs ags i Hw Hs) as Hbelow. destruct Hs as [_ Htop Ha Hnodup].
    split; [by apply Forall_app| |eapply ags_ok_extends; [apply G|done]|].
    + apply Forall_app; split; [by eapply Forall_top_shape|eapply Forall_impl; [exact Ht|apply joined_top]].
    + rewrite join_idx_app, (join_idx_shape _ _ Hsh), <- app_assoc, (Permutation_app_comm (join_idx new)), app_assoc.
      by eapply NoDup_beyond.
  - intros [= <- <- <-]. rewrite app_nil_r. by split; [apply grown_refl|].
Qed.

Lemma toTargetable_field i r m t : toTargetable i r m = Ok t -> t.(tg_Field) = mkMField i r.(rs_head).(rh_Field).(rf_Name).
Proof.
  unfold toTargetable. destruct (ToFilter _ _); [|done|done]. cbn [rbind]. destruct (toGroupBy _ _); [|done|done]. cbn [rbind].
  destruct (toOrderBy _ _); [|done|done]. cbn [rbind]. by intros [= <-].
Qed.

(** ** What a request, an order and aggregates add *)

(** What [toSelect] promises of the fields of a select. *)
Definition select_sound (i : nat) (r : rSelect) (s : Select) : Prop :=
  s.(sl_info).(si_Targetable).(tg_Field) = mkMField i r.(rs_head).(rh_Field).(rf_Name) /\
  exists m, sl_DocumentMapping s = Some m /\ all_wf m /\ Forall (field_ok m) s.(sl_Fields) /\ NoDup (join_idx s.(sl_Fields)).

Section FieldSteps.
Variable toSel : nat -> rSelect -> string -> result Select.
Hypothesis toSel_ok : forall i r p s, toSel i r p = Ok s -> select_ok r.(rs_Fields) s.
Hypothesis toSel_sound : forall i r p s, toSel i r p = Ok s -> select_sound i r s.

Lemma shares_sound m m' i r s c :
  all_wf m -> i = nextIndex m -> select_sound i r s -> sl_DocumentMapping s = Some c -> m' = join_at m i r.(rs_head).(rh_Field).(rf_Name) (Some c) ->
  field_ok m' (shares s) /\ top_ok (shares s) /\ GetIndex (shares s) = i /\ is_join (shares s) = true.
Proof.
  intros Hw Hi (Ht & c0 & Hc0 & Hwc & Hf & Hn) Hc Hm. rewrite Hc in Hc0. injection Hc0 as <-.
  destruct s as [[t own cid cn] fs]. cbn [sl_info si_Targetable sl_Fields] in *.
  assert (GetIndex (shares (mkSelect (mkInfo t own cid cn) fs)) = i) as Eg by (unfold GetIndex; cbn; by rewrite Ht).
  split; [|done]. cbn [field_ok shares]. unfold GetName. cbn [sl_info si_Targetable si_Cid si_CollectionName sl_Fields] in *.
  change (GetIndex (RSelect (mkInfo t None cid cn) fs) = i) in Eg. rewrite Eg. cbn [GetField_of si_Targetable]. rewrite Ht. cbn [f_Name].
  split; [subst m'; apply in_Add_here|]. intros _. exists c. split; [by eapply (child_set_ok m); [apply all_wf_here| |]|].
  by rewrite list_all_Forall.
Qed.

Lemma getRequestables_sound descName fields m m' fs ags :
  all_wf m -> getRequestables toSel descName fields m = (m', Ok (fs, ags)) ->
  sound m' fs ags /\ forall i, i ∈ join_idx fs ++ ag_idx ags -> (nextIndex m <= i)%nat.
Proof.
  revert m fs ags. induction fields as [|s fields IH]; intros m fs ags Hw.
  { intros [= <- <- <-]. split; [by split; try constructor|]. by intros i ?%elem_of_nil. }
  destruct s as [f|h inner|a|]; cbn [getRequestables]; unfold mbind, modify, read, mlift, mret; cbn beta iota.
  - destruct (FirstIndexOfName m (rf_Name f)) as [i| |] eqn:Ei; [|done|done]. apply FirstIndex_in in Ei.
    set (m1 := add_render i (getRenderKey f) m). assert (all_wf m1) as Hw1 by by eapply all_wf_render.
    destruct (getRequestables toSel descName fields m1) as [m2 [[fs1 ags1]| |]] eqn:E; [|done|done]. intros [= -> <- <-].
    destruct (getRequestables_renders toSel toSel_ok _ _ _ _ _ Hw1 E) as (He & _). destruct (IH _ _ _ Hw1 E) as [[Hf Ht Ha Hn] Hb].
    split; [|exact Hb]. split; [constructor; [|done]|by constructor|done|done]. split; [|done]. by eapply extends_indexes.
  - destruct (toSel (GetNextIndex m) (mkRSelect h inner) descName) as [sel| |] eqn:Es; [|done|done].
    destruct (toSel_ok _ _ _ _ Es) as (c & Hc & Hwc & _). rewrite Hc.
    set (i := GetNextIndex m) in *. set (n := rf_Name (rh_Field h)) in *. set (k := getRenderKey (rh_Field h)).
    set (m1 := join_at m i n (Some c)). change (Add (add_render i k (SetChildAt m i (Some c))) i n) with (add_render i k m1).
    assert (all_wf m1) as Hw0 by (apply all_wf_join; [done|by intros ? [= <-]]).
    destruct (shares_sound m m1 i _ sel c Hw eq_refl (toSel_sound _ _ _ _ Es) Hc eq_refl) as (Hok & Htop & Hgi & Hj).
    assert (all_wf (add_render i k m1)) as Hw1 by (eapply all_wf_render; [done|apply (in_Add_here (SetChildAt m i (Some c)) i n)]).
    destruct (getRequestables toSel descName fields _) as [m2 [[fs1 ags1]| |]] eqn:E; [|done|done]. intros [= -> <- <-].
    destruct (getRequestables_renders toSel toSel_ok _ _ _ _ _ Hw1 E) as (He & _). destruct (IH _ _ _ Hw1 E) as [[Hf Ht Ha Hn] Hb].
    assert (join_idx (shares sel :: fs1) = i :: join_idx fs1) as Ej by (unfold join_idx; cbn; by rewrite Hgi).
    assert (nextIndex (add_render i k m1) = S i) as Hnext by (cbn; by rewrite Nat.leb_refl). rewrite Hnext in Hb. split.
    + split; [constructor; [|done]|by constructor|done|].
      * eapply field_ok_extends; [|exact Hok]. eapply extends_trans; [apply extends_render|exact He].
      * rewrite Ej. cbn. constructor; [|done]. intros Hin%Hb. lia.
    + intros j. rewrite Ej. cbn. intros [->|Hj'%Hb]%elem_of_cons; [done|]. unfold i, GetNextIndex in *. lia.
  - destruct (getAggregateRequests (GetNextIndex m) a) as [ar| |] eqn:Ea; [|done|done].
    set (i := GetNextIndex m) in *. set (n := rf_Name (ra_Field a)) in *. set (k := getRenderKey (ra_Field a)).
    change (Add (add_render i k m) i n) with (add_render i k (Add m i n)).
    assert (ar_field ar = mkMField i n) as Har by by eapply getAggregateRequests_field.
    assert (all_wf (add_render i k (Add m i n))) as Hw1 by (eapply all_wf_render; [by apply all_wf_Add|apply in_Add_here]).
    destruct (getRequestables toSel descName fields _) as [m2 [[fs1 ags1]| |]] eqn:E; [|done|done]. intros [= -> <- <-].
    destruct (getRequestables_renders toSel toSel_ok _ _ _ _ _ Hw1 E) as (He & _). destruct (IH _ _ _ Hw1 E) as [[Hf Ht Ha Hn] Hb].
    assert (ag_idx (ar :: ags1) = i :: ag_idx ags1) as Ej by (unfold ag_idx; cbn; by rewrite Har).
    assert (nextIndex (add_render i k (Add m i n)) = S i) as Hnext by (cbn; by rewrite Nat.leb_refl). rewrite Hnext in Hb. split.
    + split; [done|done|constructor; [|done]|].
      * unfold ag_ok. rewrite Har. cbn. eapply extends_indexes; [exact He|]. apply in_Add_here.
      * rewrite Ej, <- Permutation_middle. constructor; [|done]. intros Hin%Hb. lia.
    + intros j. rewrite Ej, <- Permutation_middle. intros [->|Hj'%Hb]%elem_of_cons; [done|]. unfold i, GetNextIndex in *. lia.
  - done.
Qed.

Lemma orderJoins_sound descName conditions existing m m' fs ags :
  all_wf m -> sound m existing ags -> orderJoins toSel descName conditions existing m = (m', Ok fs) -> sound m' fs ags.
Proof.
  revert existing m. induction conditions as [|c conditions IH]; intros existing m Hw Hs; [by intros [= <- <-]|]. cbn [orderJoins].
  destruct (ro_Fields c) as [|j [|j' js]]; [by apply IH..|]. unfold mbind, modify, read, mlift; cbn beta iota.
  destruct (indexes m j); [|by apply IH]. destruct (toSel _ _ descName) as [sel| |] eqn:Es; [|done|done].
  destruct (toSel_ok _ _ _ _ Es) as (d & Hd & Hwd & _). rewrite Hd.
  assert (grown m (join_at m (nextIndex m) j (Some d))) as Hg by (apply grown_join; [done|by intros ? [= <-]]).
  destruct (shares_sound m _ _ _ sel d Hw eq_refl (toSel_sound _ _ _ _ Es) Hd eq_refl) as (Hok & Htop & Hgi & Hj).
  apply IH; [apply Hg|]. assert (join_idx [shares sel] = [GetNextIndex m]) as Ej by (unfold join_idx; cbn; by rewrite Hgi).
  eapply sound_new; [exact Hw|exact Hg|exact Hs|by constructor|by constructor|rewrite Ej; apply NoDup_singleton|].
  rewrite Ej. by intros i ->%list_elem_of_singleton.
Qed.

(** Requests of aggregates of which only the dependencies change. *)
Lemma sound_same_ags m fs ags ags' : ar_field <$> ags' = ar_field <$> ags -> sound m fs ags -> sound m fs ags'.
Proof.
  intros E [Hf Ht Ha Hn]. assert (forall l, ag_idx l = f_Index <$> (ar_field <$> l)) as Ei by (intros l; unfold ag_idx; by rewrite <- list_fmap_compose).
  split; [done|done| |by rewrite Ei, E, <- Ei]. assert (forall l, Forall (ag_ok m) l <-> Forall (fun f => f_Index f ∈ indexes m (f_Name f)) (ar_field <$> l)) as Hiff.
  { intros l. by rewrite Forall_fmap. }
  apply Hiff. rewrite E. by apply Hiff.
Qed.

Lemma sound_new_ag m fs ags name targets deps :
  all_wf m -> sound m fs ags -> sound (Add m (nextIndex m) name) fs (ags ++ [mkAggRequest (mkMField (nextIndex m) name) targets deps]).
Proof.
  intros Hw Hs. pose proof (fun i => sound_below m fs ags i Hw Hs) as Hb.
  destruct (sound_grown _ _ _ _ (grown_Add m name Hw) Hs) as [Hf Ht Ha Hn]. split; [done|done| |].
  - apply Forall_app. split; [done|]. constructor; [|done]. apply in_Add_here.
  - unfold ag_idx. rewrite fmap_app, app_assoc. eapply NoDup_beyond; [exact Hb| |done|apply NoDup_singleton].
    by intros i ->%list_elem_of_singleton.
Qed.

Lemma appendDependencies_sound names i targets m fs ags :
  all_wf m -> sound m fs ags -> let '(m', ags') := appendDependencies names i targets m ags in sound m' fs ags'.
Proof.
  revert m ags. induction names as [|n names IH]; intros m ags Hw Hs; [done|]. cbn [appendDependencies]. unfold appendIfNotExists.
  assert (forall (ags : list aggregateRequest) g, ar_field <$> alter (fun a => mkAggRequest (ar_field a) (ar_targets a) (g a)) i ags = ar_field <$> ags) as Hal.
  { intros l g. clear. revert i. induction l as [|a l IH]; intros [|i]; cbn; [done..|]. f_equal. apply IH. }
  destruct (tryGetMatchingAggregate n targets ags).
  - apply IH; [done|]. eapply sound_same_ags; [apply Hal|done].
  - apply IH; [by apply all_wf_Add|]. eapply sound_same_ags; [apply Hal|]. by apply sound_new_ag.
Qed.

Lemma underlying_sound n i ags m fs m' ags' :
  all_wf m -> sound m fs ags -> appendUnderlyingAggregates n i ags m = (m', Ok ags') -> sound m' fs ags'.
Proof.
  revert i ags m. induction n as [|n IH]; intros i ags m Hw Hs; cbn [appendUnderlyingAggregates]; [by intros [= <- <-]|].
  destruct (ags !! i) as [a|] eqn:Ea; [|by intros [= <- <-]]. destruct (aggregateDependencies _) as [|d ds] eqn:Ed; [by apply IH|].
  unfold mbind, mlift. destruct (rmap _ (ar_targets a)) as [ts| |]; [|done|done].
  set (ags0 := <[i:=mkAggRequest (ar_field a) ts (ar_dependencyIndexes a)]> ags).
  assert (sound m fs ags0) as Hs0.
  { eapply sound_same_ags; [|exact Hs]. unfold ags0. rewrite list_fmap_insert. apply list_insert_id. by rewrite list_lookup_fmap, Ea. }
  pose proof (appendDependencies_grows (d :: ds) i ts m ags0 Hw) as [_ Hw1]. pose proof (appendDependencies_sound (d :: ds) i ts m fs ags0 Hw Hs0) as Hs1.
  destruct (appendDependencies (d :: ds) i ts m ags0) as [m1 ags1]. by apply IH.
Qed.

(** ** The hosts of aggregates *)

(** The fields of a description that are fetched have their numbers for indexes. *)
Definition covers (d : CollectionDescription) (m : DocumentMapping) : Prop :=
  forall name fd, GetField d name = Some fd -> IsObject fd = false -> Z.to_nat fd.(fd_ID) ∈ indexes m name.

Lemma covers_extends d m m' : extends m m' -> covers d m -> covers d m'.
Proof. intros He Hc name fd Hg Ho. by eapply extends_indexes, Hc. Qed.

Lemma getTopLevelInfo_covers name root cn m d : getTopLevelInfo getCollectionDesc name root cn = Ok (m, d) -> covers d m.
Proof.
  unfold getTopLevelInfo. destruct (isAggregateName name); [by intros [= _ <-]|].
  case_decide; [|destruct (String.eqb name LinksFieldName); by intros [= _ <-]].
  destruct (getCollectionDesc cn) as [desc| |] eqn:E; [|done|done]. cbn [rbind]. intros [= <- <-].
  change (Add NewDocumentMapping DocKeyFieldIndex KeyFieldName) with (added [(0%nat, KeyFieldName)]). rewrite foldl_fetched.
  intros n fd Hg Ho. unfold GetField, first_field in Hg. destruct (negb _); [|done]. apply List.find_some in Hg as [Hin Hn%String.eqb_eq]. subst n.
  set (l := [(0%nat, KeyFieldName)] ++ fetched (sd_Fields (cd_Schema desc))).
  assert ((Z.to_nat (fd_ID fd), fd_Name fd) ∈ l) as Hl.
  { apply elem_of_app. right. apply list_elem_of_In, in_flat_map. exists fd. split; [done|]. rewrite Ho. by left. }
  destruct (added_facts l) as (_ & _ & Hi & _). eapply extends_indexes; [apply grows_Add|].
  change (Z.to_nat (fd_ID fd) ∈ indexes (Add (added l) (nextIndex (added l)) TypeNameFieldName) (fd_Name fd)).
  eapply extends_indexes; [apply grows_Add|]. by apply Hi.
Qed.

Lemma detach_ok c r : field_ok c r -> field_ok (CloneWithoutRender c) (detach c r) /\ GetIndex (detach c r) = GetIndex r /\ is_join (detach c r) = is_join r.
Proof.
  destruct r as [f|a|[t [own|] cid col] fs]; intros [Hi Hr]; (split; [|done]); (split; [rewrite indexes_Clone; exact Hi|]).
  - done.
  - eapply Forall_impl; [exact Hr|]. intros t [Ht Hc]. split; [by rewrite indexes_Clone|]. destruct (at_ChildTarget t); [|done].
    destruct Hc as (d & Hd & Hin). exists (CloneWithoutRender d). by rewrite child_Clone, Hd, indexes_Clone.
  - done.
  - destruct (Hr eq_refl) as (d & Hd & _). unfold child, GetIndex in Hd. cbn in Hd. cbn. intros Hn. by rewrite Hd in Hn.
Qed.

Lemma makeHost_sound root desc target converted m m' x :
  all_wf m -> makeHost getCollectionDesc toSel root desc target converted m = (m', Ok x) ->
  field_ok m' x /\ top_ok x /\ GetIndex x = nextIndex m /\ is_join x = true.
Proof.
  intros Hw. unfold makeHost, mbind, read, modify, mlift; cbn beta iota.
  destruct (getCollectionName _ _ root _) as [cn| |]; [|done|done]. destruct (getTopLevelInfo _ _ root cn) as [[c d]| |] eqn:Et; [|done|done].
  apply getTopLevelInfo_fresh in Et as (Hwc & _); [|done].
  destruct (getRequestables toSel (cd_Name d) _ c) as [c1 [[fs ags]| |]] eqn:Er; [|done|done].
  destruct (getRequestables_sound _ _ _ _ _ _ Hwc Er) as [[Hf _ _ Hn] _].
  set (fs' := detach c1 <$> fs).
  assert (Forall (field_ok (CloneWithoutRender c1)) fs') as Hf'.
  { apply Forall_fmap. eapply Forall_impl; [exact Hf|]. intros r Hr. by apply detach_ok. }
  assert (join_idx fs' = join_idx fs) as Ej.
  { unfold fs'. clear -Hf. induction Hf as [|r fs Hr _ IH]; [done|]. destruct (detach_ok c1 r Hr) as (_ & Hi & Hj). unfold join_idx in *. cbn.
    rewrite Hj. destruct (is_join r); cbn; [by rewrite IH, Hi|done]. }
  assert (forall y : option (list OrderCondition) -> Requestable, (forall o, exists t,
      y o = RSelect (mkInfo t None None cn) fs' /\ tg_Field t = mkMField (nextIndex m) (hostExternalName target)) ->
    (match (toOrderBy (rq_order target) (Some (CloneWithoutRender c1))) with
    | Ok o => (Add (SetChildAt m (GetNextIndex m) (Some (CloneWithoutRender c1))) (GetNextIndex m) (hostExternalName target), Ok (y o))
    | Err e => (SetChildAt m (GetNextIndex m) (Some (CloneWithoutRender c1)), Err e)
    | Panic => (SetChildAt m (GetNextIndex m) (Some (CloneWithoutRender c1)), Panic) end) = (m', Ok x) ->
    field_ok m' x /\ top_ok x /\ GetIndex x = nextIndex m /\ is_join x = true) as Hend.
  { intros y Hy. destruct (toOrderBy _ _) as [o| |]; [|done|done]. intros [= <- <-]. destruct (Hy o) as (t & -> & Ht).
    cbn [field_ok top_ok is_join]. unfold GetIndex, GetName. cbn [GetField_of si_Targetable]. rewrite Ht. cbn [f_Index f_Name]. split; [|done].
    split; [apply in_Add_here|]. intros _. exists (CloneWithoutRender c1). split; [|by rewrite list_all_Forall, Ej; split; [|apply NoDup_app in Hn as [? _]]].
    by eapply (child_set_ok m); [apply all_wf_here|reflexivity|reflexivity]. }
  destruct (negb _).
  - intros E. eapply (Hend (fun o => RSelect (mkInfo (mkTargetable _ None converted _ None o false) None None cn) fs')).
    { intros o. by eexists. }
    revert E. unfold mret. destruct (toOrderBy _ _); [intros [= <- <-]; reflexivity|done|done].
  - destruct (ToFilter _ _) as [fl| |]; [|done|done]. intros E.
    eapply (Hend (fun o => RSelect (mkInfo (mkTargetable _ None fl _ None o false) None None cn) fs')); [intros o; by eexists|].
    revert E. unfold mret. destruct (toOrderBy _ _); [intros [= <- <-]; reflexivity|done|done].
Qed.

(** A host is one that the targets of an aggregate may name. *)
Definition host_ok (m : DocumentMapping) (host : aggHost) : Prop :=
  match host with
  | HArray t => t.(tg_Field).(f_Index) ∈ indexes m t.(tg_Field).(f_Name)
  | HField r => field_ok m r /\ top_ok r
  end.

Lemma findHost_ok desc target fields m found converted :
  covers desc m -> Forall (field_ok m) fields -> Forall top_ok fields -> findHost desc target fields m = Ok (Some found, converted) -> host_ok m found.
Proof.
  intros Hc Hf Ht. unfold findHost. destruct (indexes m _) as [|k l] eqn:Ei; [done|].
  destruct (GetField desc (hostExternalName target)) as [fd|] eqn:Eg; [destruct (IsObject fd) eqn:Eo|].
  2: { destruct (ToFilter _ _); [|done|done]. cbn [rbind]. intros [= <- _]. cbn. by apply Hc. }
  all: destruct (FirstIndexOfName m _) as [i| |]; [|done|done]; cbn [rbind]; destruct (ptr_child _ i) as [c| |]; [|done|done]; cbn [rbind];
    destruct (ToFilter _ c) as [fl| |]; [|done|done]; cbn [rbind]; destruct (toOrderBy _ c) as [o| |]; [|done|done]; cbn [rbind];
    destruct (tryGetTarget _ _ _ _ _) as [r|] eqn:Er; [|done]; intros [= <- _]; unfold tryGetTarget in Er;
    apply List.find_some in Er as [Hin%list_elem_of_In _]; rewrite Forall_forall in Hf, Ht; (split; [by apply Hf|by apply Ht]).
Qed.

Lemma childTarget_ok target host m ch :
  host_ok m host -> childTarget target host m = Ok ch -> target_ok m (mkMTarget (host_target host) ch).
Proof.
  intros Hh Hc. split; cbn [at_Targetable at_ChildTarget].
  - destruct host as [t|r]; [done|]. destruct Hh as [Hh%field_ok_index _]. by destruct r.
  - unfold childTarget in Hc. destruct (String.eqb _ ""); [by injection Hc as <-|]. destruct host as [t|[f|a|info fs]]; [done..|].
    destruct Hh as [_ Htop]. cbn in Htop. unfold select_mapping in Hc. rewrite Htop in Hc. cbn [host_target].
    destruct (mjoin _) as [c|] eqn:Em; [|done]. destruct (indexes c (childExternalName target)) as [|k l] eqn:Ei; [done|]. injection Hc as <-.
    exists c. split; [done|]. cbn. rewrite Ei. by left.
Qed.

Lemma resolveTargets_sound root desc targets fields m m' ts fs ags :
  all_wf m -> covers desc m -> sound m fields ags ->
  resolveTargets getCollectionDesc toSel root desc targets fields m = (m', Ok (ts, fs)) -> sound m' fs ags /\ Forall (target_ok m') ts.
Proof.
  revert fields m ts fs. induction targets as [|t targets IH]; intros fields m ts fs Hw Hcov Hs; cbn [resolveTargets]; [by intros [= <- <- <-]|].
  unfold mbind at 1. destruct (findHost desc t fields m) as [[found converted]| |] eqn:Ef; [|done|done]. unfold mbind at 1.
  assert (forall host fs1 m1, all_wf m1 -> covers desc m1 -> sound m1 fs1 ags -> host_ok m1 host ->
    mbind (fun m => (m, childTarget t host m)) (fun child => mbind (resolveTargets getCollectionDesc toSel root desc targets fs1)
      (fun '(rest, fs) => mret (mkMTarget (host_target host) child :: rest, fs))) m1 = (m', Ok (ts, fs)) -> sound m' fs ags /\ Forall (target_ok m') ts) as Htail.
  { intros host fs1 m1 Hw1 Hc1 Hs1 Hh1. unfold mbind. destruct (childTarget t host m1) as [ch| |] eqn:Ech; [|done|done].
    apply childTarget_ok in Ech; [|done].
    destruct (resolveTargets _ _ _ _ _ fs1 m1) as [m2 [[rest fs2]| |]] eqn:E; [|done|done]. intros [= -> <- <-].
    destruct (resolveTargets_grows _ repo_ok _ toSel_ok _ _ _ _ _ _ _ Hw1 E) as [[He _] _]. destruct (IH _ _ _ _ Hw1 Hc1 Hs1 E) as [Hs2 Ht2].
    split; [done|]. constructor; [by eapply target_ok_extends|done]. }
  destruct found as [host|].
  { apply Htail; [done..|]. destruct Hs. by eapply findHost_ok. }
  unfold mbind at 1. destruct (makeHost _ _ _ _ _ _ m) as [m1 [dj| |]] eqn:Eh; [|done|done].
  pose proof (makeHost_grows _ repo_ok _ toSel_ok _ _ _ _ _ _ _ Hw Eh) as Hg. apply makeHost_sound in Eh as (Hok & Htop & Hi & Hj); [|done].
  assert (join_idx [dj] = [nextIndex m]) as Ej by (unfold join_idx; cbn; rewrite Hj; cbn; by rewrite Hi).
  apply Htail; [apply Hg|eapply covers_extends; [apply Hg|done]| |done].
  eapply sound_new; [exact Hw|exact Hg|exact Hs|by constructor|by constructor|rewrite Ej; apply NoDup_singleton|].
  rewrite Ej. by intros i ->%list_elem_of_singleton.
Qed.

Lemma resolveEach_sound root desc ags fields m m' fs :
  all_wf m -> covers desc m -> sound m fields ags -> resolveEach getCollectionDesc toSel root desc ags fields m = (m', Ok fs) -> sound m' fs [].
Proof.
  revert fields m. induction ags as [|a ags IH]; intros fields m Hw Hcov Hs; cbn [resolveEach]; [by intros [= <- <-]|].
  unfold mbind. destruct (resolveTargets _ _ _ _ _ fields m) as [m1 [[ts fs1]| |]] eqn:E; [|done|done].
  pose proof (resolveTargets_grows _ repo_ok _ toSel_ok _ _ _ _ _ _ _ Hw E) as [[He _] Hw1]. apply (resolveTargets_sound _ _ _ _ _ _ _ _ (a :: ags)) in E as [Hs1 Ht1]; [|done..].
  apply IH; [done|by eapply covers_extends|]. destruct Hs1 as [Hf Ht [Ha Has]%Forall_cons Hn]. split.
  - apply Forall_app. split; [done|]. constructor; [|done]. done.
  - apply Forall_app. split; [done|]. by constructor.
  - done.
  - rewrite join_idx_app, <- app_assoc. exact Hn.
Qed.

(** Pairing up changes only the dependencies of aggregates. *)
Lemma pairUp_sound m fs a fs' : sound m fs [] -> pairUp fs a = Ok fs' -> sound m fs' [].
Proof.
  intros [Hf Ht _ Hn] (i & g & Hi & Hg & ->)%pairUp_inv. pose proof (Forall_lookup_1 _ _ _ _ Hf Hi) as Hag.
  split; [apply Forall_insert; [done|exact Hag]|by apply Forall_insert|constructor|]. by rewrite (join_idx_insert _ _ _ _ Hi).
Qed.

Lemma pairAll_sound m ags fs fs' :
  sound m fs [] -> foldl (fun fields aggregate => let! fields := fields in pairUp fields aggregate) (Ok fs) ags = Ok fs' -> sound m fs' [].
Proof.
  revert fs. induction ags as [|a ags IH]; intros fs Hs; cbn [foldl]; [by intros [= <-]|]. cbn [rbind].
  destruct (pairUp fs a) as [fs1| |] eqn:E.
  - intros Hr. eapply IH; [|exact Hr]. by eapply pairUp_sound.
  - rewrite (foldl_err _ ags); done.
  - rewrite (foldl_panic _ ags); done.
Qed.

(** The stages of [toSelect]: what the request, its filter and its order give, then the
    aggregates with those that are missing, and then all of them. *)
Lemma toSelect_by_stages i r p s :
  toSelect_by getCollectionDesc toSel i r p = Ok s ->
  exists d m m1 fs ags m2 new fs2 m3 fs3 m4 ags4 m5 fs5,
    getRequestables toSel d.(cd_Name) r.(rs_Fields) m = (m1, Ok (fs, ags)) /\
    (shape <$> fs2 = shape <$> fs /\ Forall joined new) /\
    resolveOrderDependencies toSel s.(sl_info).(si_CollectionName) r.(rs_head).(rh_OrderBy) (fs2 ++ new) m2 = (m3, Ok fs3) /\
    (appendUnderlyingAggregates (length ags) 0 ags m3 = (m4, Ok ags4) /\ sound m4 fs3 ags4) /\
    (resolveEach getCollectionDesc toSel r.(rs_head).(rh_Root) d ags4 fs3 m4 = (m5, Ok fs5) /\ sound m5 fs5 []) /\
    foldl (fun fields aggregate => let! fields := fields in pairUp fields aggregate) (Ok fs5) ags4 = Ok s.(sl_Fields) /\
    grown m5 (mapGroup r.(rs_head).(rh_GroupBy) m5) /\ sl_DocumentMapping s = Some (mapGroup r.(rs_head).(rh_GroupBy) m5) /\
    s.(sl_info).(si_Targetable).(tg_Field) = mkMField i r.(rs_head).(rh_Field).(rf_Name).
Proof.
  unfold toSelect_by. destruct (getCollectionName _ _ _ p) as [cn| |]; [|done|done]. cbn [rbind].
  destruct (getTopLevelInfo _ _ _ cn) as [[m d]| |] eqn:Et; [|done|done]. cbn [rbind]. pose proof (getTopLevelInfo_covers _ _ _ _ _ Et) as Hcov.
  apply getTopLevelInfo_fresh in Et as (Hw & Hrk & _); [|done].
  unfold mbind. destruct (getRequestables toSel _ _ m) as [m1 [[fs ags]| |]] eqn:E1; [|done|done].
  destruct (getRequestables_renders _ toSel_ok _ _ _ _ _ Hw E1) as (He1 & Hw1 & _). destruct (getRequestables_sound _ _ _ _ _ _ Hw E1) as [S1 _].
  destruct (resolveFilterDependencies _ cn _ fs m1) as [[[m2 new] fs2]| |] eqn:E2; [|done|done].
  apply (filterDependencies_sound _ _ _ _ ags) in E2 as (G2 & S2 & Hsh & Hjn); [|done..].
  destruct (resolveOrderDependencies toSel cn _ _ m2) as [m3 [fs3| |]] eqn:E3; [|done|done].
  assert (grown m2 m3 /\ sound m3 fs3 ags) as [G3 S3].
  { revert E3. unfold resolveOrderDependencies. destruct (rh_OrderBy _).
    - intros E3. split; [by eapply orderJoins_grows; [|apply G2|]|by eapply orderJoins_sound; [apply G2| |]].
    - intros [= <- <-]. by split; [apply grown_refl, G2|]. }
  destruct (appendUnderlyingAggregates _ 0 ags m3) as [m4 [ags4| |]] eqn:E4; [|done|done].
  assert (sound m4 fs3 ags4) as S4 by (eapply underlying_sound; [apply G3|exact S3|exact E4]). apply underlying_grows in E4 as G4; [|apply G3].
  unfold resolveAggregates, mbind. destruct (resolveEach _ _ _ _ ags4 fs3 m4) as [m5 [fs5| |]] eqn:E5; [|done|done].
  apply resolveEach_grows in E5 as G5; [|done|done|apply G4].
  assert (grown m1 m4) as Hg by (do 2 (eapply grown_trans; [eassumption|]); done).
  apply resolveEach_sound in E5 as S5; [|apply G4|eapply covers_extends; [|exact Hcov]; eapply extends_trans; [exact He1|apply Hg]|exact S4].
  unfold mlift. destruct (foldl _ _ ags4) as [fs6| |] eqn:E6; [|done|done]. cbn [modify mret].
  pose proof (mapGroup_grows (rh_GroupBy (rs_head r)) m5 (proj2 G5)) as G6.
  destruct (toTargetable _ _ _) as [t| |] eqn:Etg; [|done|done]. cbn [rbind]. intros [= <-].
  exists d, m, m1, fs, ags, m2, new, fs2, m3, fs3, m4, ags4, m5, fs5. do 8 (split; [done|]). cbn. by eapply toTargetable_field.
Qed.

Lemma toSelect_by_sound i r p s : toSelect_by getCollectionDesc toSel i r p = Ok s -> select_sound i r s.
Proof.
  intros (d & m & m1 & fs & ags & m2 & new & fs2 & m3 & fs3 & m4 & ags4 & m5 & fs5 & _ & _ & _ & _ & [_ S5] & E6 & G6 & Hm & Ht)%toSelect_by_stages.
  split; [done|]. exists (mapGroup (rh_GroupBy (rs_head r)) m5). split; [done|]. split; [apply G6|].
  apply (pairAll_sound m5) in E6; [|done]. apply (sound_grown _ _ _ _ G6) in E6 as [Hf _ _ Hn]. cbn in Hn. by rewrite app_nil_r in Hn.
Qed.
End FieldSteps.

Lemma toSelect_sound fuel i r p s : toSelect getCollectionDesc fuel i r p = Ok s -> select_sound i r s.
Proof.
  revert i r p s. induction fuel as [|fuel IH]; intros i r p s; [done|]. apply toSelect_by_sound; [|exact IH].
  intros j r' p' s'. by apply toSelect_ok.
Qed.

(** C26: Everything that a mapped select yields is at an index of its name, no two selects or
    aggregates share an index, the targets of an aggregate and what it takes of them are
    indexes of the names that they have, and the same holds of the selects inside. *)
Theorem ToSelect_fields r s :
  ToSelect getCollectionDesc r = Ok s ->
  exists m, sl_DocumentMapping s = Some m /\ Forall (field_ok m) s.(sl_Fields) /\ NoDup (join_idx s.(sl_Fields)).
Proof. intros Hs. destruct (toSelect_sound _ _ _ _ _ Hs) as (_ & m & Hm & _ & Hf & Hn). by exists m. Qed.
End FieldSoundness.
