(* ===== verification/MapperAverage.v ===== *)
(** * The mapper: what averages depend on

    An average is computed from a count and a sum.  The mapper adds the ones that are missing;
    every average that is mapped has exactly one of each, which take what it takes. *)

From S2P Require Import Prelude GoStd Values Desc Schema DocMap Store Connor Request DocOps Mapper MapperSpec MapperFields.

(** ** The requests of aggregates *)

Definition same_target (t t' : aggregateRequestTarget) : Prop :=
  t.(hostExternalName) = t'.(hostExternalName) /\ t.(childExternalName) = t'.(childExternalName).

(** There is an aggregate with this name at this index, of these targets. *)
Definition has_aggregate (ags : list aggregateRequest) (name : string) (targets : list aggregateRequestTarget) (index : nat) : Prop :=
  exists b, b ∈ ags /\ b.(ar_field) = mkMField index name /\ Forall2 same_target targets b.(ar_targets).

Definition paired (ags : list aggregateRequest) (a : aggregateRequest) : Prop :=
  if String.eqb a.(ar_field).(f_Name) AverageFieldName
  then exists c s, a.(ar_dependencyIndexes) = [c; s] /\ has_aggregate ags CountFieldName a.(ar_targets) c /\ has_aggregate ags SumFieldName a.(ar_targets) s
  else a.(ar_dependencyIndexes) = [].

Lemma same_refl ts : Forall2 same_target ts ts.
Proof. by induction ts; constructor. Qed.

Lemma list_eqb_Forall2 {A} (f : A -> A -> bool) (R : A -> A -> Prop) l k :
  (forall x y, f x y = true -> R x y) -> list_eqb f l k = true -> Forall2 R l k.
Proof.
  intros Hf. revert k. induction l as [|x l IH]; intros [|y k]; cbn; try done. rewrite andb_true_iff. intros [Hx Hl]. constructor; auto.
Qed.

Lemma target_matches_same t t' : target_matches t t' = true -> same_target t t'.
Proof. unfold target_matches. rewrite !andb_true_iff, !String.eqb_eq. by intros [[? ?] _]. Qed.

(** Aggregates that are not averages stay as they are. *)
Definition keeps (ags ags' : list aggregateRequest) : Prop :=
  forall b, b ∈ ags -> b.(ar_field).(f_Name) <> AverageFieldName -> b ∈ ags'.

Lemma has_keeps ags ags' name ts i : name <> AverageFieldName -> keeps ags ags' -> has_aggregate ags name ts i -> has_aggregate ags' name ts i.
Proof. intros Hn Hk (b & Hb & Hf & Hts). exists b. split; [|done]. apply Hk; [done|]. by rewrite Hf. Qed.

Lemma paired_keeps ags ags' a : keeps ags ags' -> paired ags a -> paired ags' a.
Proof.
  intros Hk. unfold paired. destruct (String.eqb _ _); [|done]. intros (c & s & Hd & Hc & Hs). exists c, s. split; [done|].
  by split; eapply has_keeps.
Qed.

Lemma keeps_alter i a f ags : ags !! i = Some a -> a.(ar_field).(f_Name) = AverageFieldName -> keeps ags (alter f i ags).
Proof.
  intros Hi Ha b [j Hj]%list_elem_of_lookup_1 Hb. apply list_elem_of_lookup. exists j.
  destruct (decide (j = i)) as [->|Hne]; [congruence|]. by rewrite list_lookup_alter_ne.
Qed.

Definition depends (d : list nat) (a : aggregateRequest) : aggregateRequest := mkAggRequest a.(ar_field) a.(ar_targets) (a.(ar_dependencyIndexes) ++ d).

(** One dependency: the aggregate at [i] gets it, all else is kept, and maybe one is added. *)
Lemma appendIfNotExists_spec name ts ags m m' ags' d :
  appendIfNotExists name ts ags m = (m', ags', d) -> ags `prefix_of` ags' /\ has_aggregate ags' name ts d.(ar_field).(f_Index) /\
  (forall j b, ags' !! j = Some b -> ags !! j = Some b \/ (length ags <= j)%nat /\ b.(ar_field).(f_Name) = name /\ b.(ar_dependencyIndexes) = []).
Proof.
  unfold appendIfNotExists, tryGetMatchingAggregate. destruct (List.find _ ags) as [f|] eqn:E; intros [= <- <- <-].
  - split; [done|]. split; [|auto]. apply List.find_some in E as [Hin Hm]. apply andb_true_iff in Hm as [Hn%String.eqb_eq Ht].
    exists f. split; [by apply list_elem_of_In|]. split; [by destruct (ar_field f); cbn in *; subst|].
    by eapply list_eqb_Forall2, Ht; apply target_matches_same.
  - split; [by eexists|]. split.
    + eexists. split; [apply elem_of_app; right; by apply list_elem_of_singleton|]. split; [done|apply same_refl].
    + intros j b [?|[? Hj]]%lookup_app_Some; [auto|]. right. split; [done|]. by apply list_lookup_singleton_Some in Hj as [_ <-].
Qed.

Lemma keeps_prefix ags ags' : ags `prefix_of` ags' -> keeps ags ags'.
Proof. intros [k ->] b Hb _. apply elem_of_app. by left. Qed.

Lemma ags_keeps_trans ags1 ags2 ags3 : keeps ags1 ags2 -> keeps ags2 ags3 -> keeps ags1 ags3.
Proof. intros H1 H2 b Hb Hn. auto. Qed.

(** What holds of the requests when those before [i] have been given their dependencies. *)
Definition paired_below (n i : nat) (ags : list aggregateRequest) : Prop :=
  (n <= length ags)%nat /\ forall j b, ags !! j = Some b -> ((j < i)%nat -> paired ags b) /\ ((i <= j)%nat -> b.(ar_dependencyIndexes) = []) /\
    ((n <= j)%nat -> b.(ar_field).(f_Name) <> AverageFieldName).

Lemma paired_below_one i a ts d m ags ags' name m' :
  name <> AverageFieldName -> ags !! i = Some a -> a.(ar_field).(f_Name) = AverageFieldName ->
  appendIfNotExists name ts ags m = (m', ags', d) ->
  let ags1 := alter (depends [d.(ar_field).(f_Index)]) i ags' in
  keeps ags ags1 /\ (length ags <= length ags1)%nat /\ ags1 !! i = Some (depends [d.(ar_field).(f_Index)] a) /\ has_aggregate ags1 name ts d.(ar_field).(f_Index) /\
  (forall j b, j <> i -> ags1 !! j = Some b -> ags !! j = Some b \/ (length ags <= j)%nat /\ b.(ar_field).(f_Name) = name /\ b.(ar_dependencyIndexes) = []).
Proof.
  intros Hn Hi Ha (Hpre & Hhas & Hnew)%appendIfNotExists_spec ags1. assert (ags' !! i = Some a) as Hi' by by eapply prefix_lookup_Some.
  assert (keeps ags' ags1) as Hk by by eapply keeps_alter.
  split; [by eapply ags_keeps_trans; [apply keeps_prefix|]|]. split; [unfold ags1; rewrite length_alter; by apply prefix_length|].
  split; [unfold ags1; rewrite list_lookup_alter_eq, Hi'; done|]. split; [by eapply has_keeps|].
  intros j b Hj. unfold ags1. rewrite list_lookup_alter_ne by done. apply Hnew.
Qed.

Lemma paired_below_step n i a ts m ags :
  (i < n)%nat -> ags !! i = Some a -> a.(ar_field).(f_Name) = AverageFieldName -> paired_below n i ags ->
  paired_below n (S i) (appendDependencies [CountFieldName; SumFieldName] i ts m (<[i := mkAggRequest a.(ar_field) ts a.(ar_dependencyIndexes)]> ags)).2.
Proof.
  intros Hin Hi Ha [Hlen Hp]. set (a0 := mkAggRequest (ar_field a) ts (ar_dependencyIndexes a)). set (ags0 := <[i := a0]> ags).
  assert (ags0 !! i = Some a0) as Hi0 by (apply list_lookup_insert_eq; by eapply lookup_lt_Some).
  assert (keeps ags ags0) as Hk0. { intros b [j Hj]%list_elem_of_lookup_1 Hb. apply list_elem_of_lookup. exists j. unfold ags0.
    destruct (decide (j = i)) as [->|Hne]; [congruence|]. by rewrite list_lookup_insert_ne. }
  assert (length ags0 = length ags) as Hl0 by apply length_insert.
  cbn [appendDependencies]. destruct (appendIfNotExists CountFieldName ts ags0 m) as [[m1 g1] d1] eqn:E1.
  destruct (paired_below_one i a0 ts d1 m ags0 g1 CountFieldName m1 ltac:(done) Hi0 Ha E1) as (Hk1 & Hl1 & Hi1 & Hh1 & Hn1).
  change (alter _ i g1) with (alter (depends [f_Index (ar_field d1)]) i g1). set (ags1 := alter (depends [f_Index (ar_field d1)]) i g1) in *.
  destruct (appendIfNotExists SumFieldName ts ags1 m1) as [[m2 g2] d2] eqn:E2.
  destruct (paired_below_one i _ ts d2 m1 ags1 g2 SumFieldName m2 ltac:(done) Hi1 Ha E2) as (Hk2 & Hl2 & Hi2 & Hh2 & Hn2).
  change (alter _ i g2) with (alter (depends [f_Index (ar_field d2)]) i g2). set (ags2 := alter (depends [f_Index (ar_field d2)]) i g2) in *.
  cbn [snd]. split; [lia|]. assert (keeps ags ags2) as Hk by (eapply ags_keeps_trans; [exact Hk0|]; by eapply ags_keeps_trans).
  destruct (Hp i a Hi) as (_ & Hd & _). specialize (Hd (le_n _)).
  intros j b Hj. destruct (decide (j = i)) as [->|Hne].
  - rewrite Hi2 in Hj. injection Hj as <-. split; [|split; lia]. intros _. unfold paired. cbn [depends ar_field a0 ar_targets ar_dependencyIndexes].
    rewrite Ha, String.eqb_refl, Hd. eexists _, _. split; [reflexivity|]. split; [apply (has_keeps ags1); [done|exact Hk2|exact Hh1]|exact Hh2].
  - assert (ags !! j = Some b \/ (length ags <= j)%nat /\ f_Name (ar_field b) <> AverageFieldName /\ ar_dependencyIndexes b = []) as [Hb|(Hlj & Hnb & Hdb)].
    { destruct (Hn2 j b Hne Hj) as [Hj1|(? & -> & ?)]; [|right; split; [lia|by split]].
      destruct (Hn1 j b Hne Hj1) as [Hj0|(? & -> & ?)]; [|right; split; [lia|by split]]. left. unfold ags0 in Hj0. by rewrite list_lookup_insert_ne in Hj0. }
    + destruct (Hp j b Hb) as (H1 & H2 & H3). split; [intros Hji; eapply paired_keeps; [exact Hk|]; apply H1; lia|]. split; [intros; apply H2; lia|done].
    + split; [intros; lia|]. by split.
Qed.

Lemma underlying_paired n i ags m m' ags' :
  paired_below (i + n) i ags -> appendUnderlyingAggregates n i ags m = (m', Ok ags') -> Forall (paired ags') ags'.
Proof.
  revert i ags m. induction n as [|n IH]; intros i ags m Hp; cbn [appendUnderlyingAggregates].
  - intros [= _ <-]. apply Forall_lookup. intros j b Hj. destruct Hp as [_ Hp]. destruct (Hp j b Hj) as (H1 & H2 & H3).
    destruct (decide (j < i)%nat); [by apply H1|]. unfold paired. destruct (String.eqb_spec (f_Name (ar_field b)) AverageFieldName) as [E|_].
    + destruct H3; [lia|done].
    + apply H2. lia.
  - destruct (ags !! i) as [a|] eqn:Ea; [|apply lookup_ge_None in Ea; destruct Hp; lia].
    unfold aggregateDependencies. destruct (String.eqb_spec (f_Name (ar_field a)) AverageFieldName) as [Ha|Ha].
    + unfold mbind, mlift. destruct (rmap _ (ar_targets a)) as [ts| |]; [|done|done].
      pose proof (paired_below_step (i + S n) i a ts m ags ltac:(lia) Ea Ha Hp) as Hs.
      destruct (appendDependencies _ i ts m _) as [m1 ags1]. apply IH. by replace (S i + n)%nat with (i + S n)%nat by lia.
    + apply IH. destruct Hp as [Hl Hp]. split; [lia|]. intros j b Hj. destruct (Hp j b Hj) as (H1 & H2 & H3). split; [|split; [intros; apply H2; lia|intros; apply H3; lia]].
      intros Hji. destruct (decide (j = i)) as [->|]; [|apply H1; lia]. rewrite Ea in Hj. injection Hj as ->. unfold paired.
      rewrite (proj2 (String.eqb_neq _ _) Ha). by apply H2.
Qed.

(** ** The aggregates that are mapped *)

Definition not_agg (r : Requestable) : Prop := match r with RAggregate _ => False | _ => True end.

Definition child_name (t : AggregateTarget) : string := default "" (f_Name <$> t.(at_ChildTarget)).

(** An aggregate is the one of a request, with these dependencies. *)
Definition made_from (a : aggregateRequest) (deps : list nat) (g : Aggregate) : Prop :=
  g.(ag_Field) = a.(ar_field) /\ child_name <$> g.(ag_AggregateTargets) = childExternalName <$> a.(ar_targets) /\ g.(ag_Dependencies) = deps.

(** The fields without the dependencies. *)
Definition unpaired (r : Requestable) : Requestable :=
  match r with RAggregate a => RAggregate (mkMAggregate a.(ag_Field) a.(ag_AggregateTargets) []) | r => r end.

Lemma same_names ts ts' : Forall2 same_target ts ts' -> childExternalName <$> ts = childExternalName <$> ts'.
Proof. induction 1 as [|t t' ts ts' [_ Ht] _ IH]; [done|]. cbn. by rewrite Ht, IH. Qed.

Section Averages.
Variable getCollectionDesc : string -> result CollectionDescription.

Section AverageSteps.
Variable toSel : nat -> rSelect -> string -> result Select.

Lemma getRequestables_plain descName fields m m' fs ags :
  getRequestables toSel descName fields m = (m', Ok (fs, ags)) -> Forall not_agg fs /\ Forall (fun a => ar_dependencyIndexes a = []) ags.
Proof.
  revert m fs ags. induction fields as [|s fields IH]; intros m fs ags; [by intros [= _ <- <-]|].
  destruct s as [f|h inner|a|]; cbn [getRequestables]; unfold mbind, modify, read, mlift, mret; cbn beta iota.
  - destruct (FirstIndexOfName m (rf_Name f)); [|done|done]. destruct (getRequestables _ _ _ _) as [m2 [[fs1 ags1]| |]] eqn:E; [|done|done].
    intros [= -> <- <-]. apply IH in E as [? ?]. split; [by constructor|done].
  - destruct (toSel _ _ descName); [|done|done]. destruct (getRequestables _ _ _ _) as [m2 [[fs1 ags1]| |]] eqn:E; [|done|done].
    intros [= -> <- <-]. apply IH in E as [? ?]. split; [by constructor|done].
  - destruct (getAggregateRequests _ a) as [ar| |] eqn:Ea; [|done|done]. destruct (getRequestables _ _ _ _) as [m2 [[fs1 ags1]| |]] eqn:E; [|done|done].
    intros [= -> <- <-]. apply IH in E as [? ?]. split; [done|]. constructor; [|done]. revert Ea. unfold getAggregateRequests.
    destruct (getAggregateSources a) as [[|t ts]| |]; cbn; [done|by intros [= <-]|done|done].
  - done.
Qed.

Lemma orderJoins_plain descName conditions existing m m' fs :
  Forall not_agg existing -> orderJoins toSel descName conditions existing m = (m', Ok fs) -> Forall not_agg fs.
Proof.
  revert existing m. induction conditions as [|c conditions IH]; intros existing m Hs; [by intros [= _ <-]|]. cbn [orderJoins].
  destruct (ro_Fields c) as [|j [|j' js]]; [by apply IH..|]. unfold mbind, modify, read, mlift; cbn beta iota.
  destruct (indexes m j); [|by apply IH]. destruct (toSel _ _ descName); [|done|done]. apply IH. apply Forall_app. split; [done|by constructor].
Qed.

Lemma childTarget_name target host m ch : childTarget target host m = Ok ch -> default "" (f_Name <$> ch) = target.(childExternalName).
Proof.
  unfold childTarget. destruct (String.eqb_spec (childExternalName target) "") as [->|_]; [by intros [= <-]|].
  destruct host as [|[| |i fs]]; [done..|]. destruct (select_mapping m i) as [c|]; [|done]. destruct (indexes c _); [done|]. by intros [= <-].
Qed.

Lemma resolveTargets_names root desc targets fields m m' ts fs :
  resolveTargets getCollectionDesc toSel root desc targets fields m = (m', Ok (ts, fs)) ->
  child_name <$> ts = childExternalName <$> targets /\ exists new, fs = fields ++ new /\ Forall not_agg new.
Proof.
  revert fields m ts fs. induction targets as [|t targets IH]; intros fields m ts fs; cbn [resolveTargets].
  { intros [= _ <- <-]. split; [done|]. exists []. by rewrite app_nil_r. }
  unfold mbind at 1. destruct (findHost desc t fields m) as [[found converted]| |]; [|done|done]. unfold mbind at 1.
  assert (forall host fs1 m1,
    mbind (fun m => (m, childTarget t host m)) (fun child => mbind (resolveTargets getCollectionDesc toSel root desc targets fs1)
      (fun '(rest, fs) => mret (mkMTarget (host_target host) child :: rest, fs))) m1 = (m', Ok (ts, fs)) ->
    child_name <$> ts = childExternalName <$> t :: targets /\ exists new, fs = fs1 ++ new /\ Forall not_agg new) as Htail.
  { intros host fs1 m1. unfold mbind. destruct (childTarget t host m1) as [ch| |] eqn:Ech; [|done|done].
    destruct (resolveTargets _ _ _ _ _ fs1 m1) as [m2 [[rest fs2]| |]] eqn:E; [|done|done]. intros [= -> <- <-].
    apply IH in E as [En Hnew]. split; [|done]. rewrite !fmap_cons, En. f_equal. by apply childTarget_name in Ech. }
  destruct found as [host|]; [by apply Htail|].
  unfold mbind at 1. destruct (makeHost _ _ _ _ _ _ m) as [m1 [dj| |]] eqn:Eh; [|done|done]. intros E.
  apply Htail in E as (En & new & -> & Hnew). split; [done|]. exists (dj :: new). rewrite <- app_assoc. split; [done|]. constructor; [|done].
  revert Eh. unfold makeHost, mbind, read, modify, mlift, mret; cbn beta iota.
  repeat (case_match; simplify_eq; try done); by intros [= _ <-].
Qed.

(** Every request gives one aggregate, and there are no others. *)
Lemma resolveEach_made root desc ags fields m m' fs :
  resolveEach getCollectionDesc toSel root desc ags fields m = (m', Ok fs) ->
  (forall a, a ∈ ags -> exists g, RAggregate g ∈ fs /\ made_from a [] g) /\
  (forall g, RAggregate g ∈ fs -> RAggregate g ∈ fields \/ exists a, a ∈ ags /\ made_from a [] g) /\ (forall r, r ∈ fields -> r ∈ fs).
Proof.
  revert fields m. induction ags as [|a ags IH]; intros fields m; cbn [resolveEach].
  { intros [= _ <-]. split; [by intros a ?%elem_of_nil|]. auto. }
  unfold mbind. destruct (resolveTargets _ _ _ _ _ fields m) as [m1 [[ts fs1]| |]] eqn:E; [|done|done].
  apply resolveTargets_names in E as (En & new & -> & Hnew). intros (H1 & H2 & H3)%IH.
  set (g0 := mkMAggregate (ar_field a) ts []) in *. assert (made_from a [] g0) as Hg0 by done. split; [|split].
  - intros b [->|Hb]%elem_of_cons; [|by apply H1]. exists g0. split; [|done]. apply H3, elem_of_app. right. by apply list_elem_of_singleton.
  - intros g Hg. destruct (H2 g Hg) as [Hin|(b & Hb & Hm)]; [|right; exists b; split; [by right|done]].
    rewrite !elem_of_app in Hin. destruct Hin as [[Hin|Hin]|Hin]; [by left| |].
    + rewrite Forall_forall in Hnew. by destruct (Hnew _ Hin).
    + apply list_elem_of_singleton in Hin. injection Hin as ->. right. exists a. split; [by left|done].
  - intros r Hr. apply H3. rewrite !elem_of_app. auto.
Qed.
End AverageSteps.

(** Two joins at one index are one. *)
Lemma join_idx_inj fs i j r r' :
  NoDup (join_idx fs) -> fs !! i = Some r -> fs !! j = Some r' -> is_join r = true -> is_join r' = true -> GetIndex r = GetIndex r' -> i = j.
Proof.
  revert i j. induction fs as [|x fs IH]; intros i j Hn Hi Hj Hr Hr' E; [done|].
  assert (forall k y, fs !! k = Some y -> is_join y = true -> GetIndex y ∈ join_idx fs) as Hin.
  { intros k y Hk Hy. apply list_elem_of_fmap. exists y. split; [done|]. apply list_elem_of_In, filter_In. split; [|done]. by apply list_elem_of_In, list_elem_of_lookup; exists k. }
  unfold join_idx in Hn. cbn in Hn.
  destruct i as [|i], j as [|j]; cbn in Hi, Hj; [done| | |].
  - injection Hi as ->. rewrite Hr in Hn. apply NoDup_cons in Hn as [Hn _]. destruct Hn. rewrite E. by eapply Hin.
  - injection Hj as ->. rewrite Hr' in Hn. apply NoDup_cons in Hn as [Hn _]. destruct Hn. rewrite <- E. by eapply Hin.
  - f_equal. apply IH; [|done..]. destruct (is_join x); [by apply NoDup_cons in Hn as [_ ?]|done].
Qed.

(** The aggregates have the dependencies of their requests, those of [todo] not yet. *)
Definition pairing (made todo : list aggregateRequest) (fs : list Requestable) : Prop :=
  NoDup (join_idx fs) /\ forall g, RAggregate g ∈ fs ->
    (exists a, a ∈ made /\ made_from a a.(ar_dependencyIndexes) g) \/ (exists a, a ∈ todo /\ made_from a [] g).

Lemma pairUp_pairing made a todo fs fs' :
  NoDup (ag_idx (made ++ a :: todo)) -> pairing made (a :: todo) fs -> pairUp fs a = Ok fs' -> pairing (made ++ [a]) todo fs' /\ unpaired <$> fs' = unpaired <$> fs.
Proof.
  intros Hnd [Hn Hp] (i & g & Hi & Hg & ->)%pairUp_inv. split.
  2: { rewrite list_fmap_insert. apply list_insert_id. by rewrite list_lookup_fmap, Hi. }
  split; [by rewrite (join_idx_insert _ _ _ _ Hi)|]. intros h [j Hj]%list_elem_of_lookup_1. destruct (decide (j = i)) as [->|Hne].
  - rewrite list_lookup_insert_eq in Hj by by eapply lookup_lt_Some. injection Hj as <-. left. exists a. split; [apply elem_of_app; right; by left|].
    unfold ag_idx in Hnd. rewrite fmap_app, fmap_cons in Hnd. apply NoDup_app in Hnd as (_ & Hd1 & [Hd2 _]%NoDup_cons).
    assert (forall b l, b ∈ l -> f_Index (ar_field b) ∈ (fun a => f_Index (ar_field a)) <$> l) as Hidx by (intros b l Hb; apply list_elem_of_fmap; by exists b).
    destruct (Hp g) as [(b & Hb & Hm)|(b & Hb & Hm)]; [by apply list_elem_of_lookup; exists i| |].
    + destruct Hm as (Hf & _). destruct (Hd1 _ (Hidx b made Hb)). rewrite <- Hf, Hg. by left.
    + apply elem_of_cons in Hb as [->|Hb]; [|destruct Hm as (Hf & _); destruct Hd2; rewrite <- Hg, Hf; by apply Hidx].
      destruct Hm as (Hf & Hc & Hdeps). by rewrite Hdeps.
  - rewrite list_lookup_insert_ne in Hj by done. destruct (Hp h) as [(b & Hb & Hm)|(b & Hb & Hm)]; [by apply list_elem_of_lookup; exists j| |].
    + left. exists b. split; [apply elem_of_app; by left|done].
    + apply elem_of_cons in Hb as [->|Hb]; [|right; by exists b]. destruct Hne.
      apply (join_idx_inj fs j i (RAggregate h) (RAggregate g)); [done..|]. destruct Hm as (Hf & _). unfold GetIndex. cbn. by rewrite Hf, Hg.
Qed.

Lemma pairAll_pairing made todo fs fs' :
  NoDup (ag_idx (made ++ todo)) -> pairing made todo fs ->
  foldl (fun fields aggregate => let! fields := fields in pairUp fields aggregate) (Ok fs) todo = Ok fs' ->
  pairing (made ++ todo) [] fs' /\ unpaired <$> fs' = unpaired <$> fs.
Proof.
  revert made fs. induction todo as [|a todo IH]; intros made fs Hnd Hp; cbn [foldl]; [intros [= <-]; by rewrite app_nil_r|]. cbn [rbind].
  destruct (pairUp fs a) as [fs1| |] eqn:E; [|by rewrite (foldl_err _ todo)|by rewrite (foldl_panic _ todo)]. intros Hr.
  destruct (pairUp_pairing _ _ _ _ _ Hnd Hp E) as [Hp1 Hs1]. replace (made ++ a :: todo) with ((made ++ [a]) ++ todo) in * by (by rewrite <- app_assoc).
  destruct (IH _ _ Hnd Hp1 Hr) as [Hp2 Hs2]. split; [done|congruence].
Qed.

Lemma not_agg_shape fs fs' : shape <$> fs' = shape <$> fs -> Forall not_agg fs -> Forall not_agg fs'.
Proof.
  revert fs'. induction fs as [|f fs IH]; intros [|f' fs']; cbn; [done..|]. intros [= E Es] [Hf Hfs]%Forall_cons. constructor; [by destruct f, f'|auto].
Qed.

Lemma made_in_paired (fs fs' : list Requestable) a g deps :
  unpaired <$> fs' = unpaired <$> fs -> RAggregate g ∈ fs -> made_from a deps g -> exists g', RAggregate g' ∈ fs' /\ made_from a g'.(ag_Dependencies) g'.
Proof.
  intros E Hg (Hf & Hc & _). assert (unpaired (RAggregate g) ∈ unpaired <$> fs') as Hin by (rewrite E; apply list_elem_of_fmap; by eexists).
  apply list_elem_of_fmap in Hin as (r & Er & Hr). destruct r as [|g'|]; [done| |done]. exists g'. split; [done|]. injection Er as Ef Ets.
  split; [congruence|]. split; [|done]. by rewrite <- Ets.
Qed.

Hypothesis repo_ok : forall name d, getCollectionDesc name = Ok d -> desc_ok d.

End Averages.
