(* ===== verification/MapperFilter.v ===== *)
(** * Filters by name and by index

    A filter of a request names the fields; the mapper converts it to one by indexes, and
    [ToMap] prints that with names again.  Also the copies of what a select yields, and the
    descriptions that the mapper reads. *)

From S2P Require Import Prelude GoStd Keys Values Store MultiStore Crdt Clock Desc Schema DocMap Connor Request DocOps Mapper MapperSpec.

Definition isLogic (operation : string) : bool := String.eqb operation "_and" || String.eqb operation "_or".

(** [outmap[k] = v] for the entries in turn. *)
Definition collect (entries : list (string * val)) : list (string * val) := foldl (fun out e => map_set e.1 e.2 out) [] entries.

(** The mapping of a child if there is a place for one, which may be nil. *)
Definition tryGetChildMapping (mapping : DocumentMapping) (index : nat) : option (option DocumentMapping) := mapping.(ChildMappings) !! index.

(** One round of the loop over the conditions: the name and the value that are set. *)
Fixpoint toMapEntry (mapping : option DocumentMapping) (k : FilterKey) (v : val) {struct v} : result (string * val) :=
  match k with
  | PropertyIndex index =>
      match v, mapping with
      | VFilter subObj, Some m =>
          let inner := match tryGetChildMapping m index with Some childMapping => childMapping | None => mapping end in
          let! entries := rmap (fun e => toMapEntry inner e.1 e.2) subObj in
          Ok (default "" (TryToFindNameFromIndex m index), VMap (collect entries))
      | _, _ => Panic
      end
  | Operator operation =>
      if isLogic operation then
        match v with
        | VList items =>
            let! logicMapEntries := rmap (fun item =>
              match item with
              | VFilter itemMap => let! entries := rmap (fun e => toMapEntry mapping e.1 e.2) itemMap in Ok (VMap (collect entries))
              | _ => Panic
              end) items in
            Ok (operation, VList logicMapEntries)
        | _ => Panic
        end
      else Ok (operation, v)
  end.

Definition filterObjectToMap (mapping : option DocumentMapping) (obj : list (FilterKey * val)) : result (list (string * val)) :=
  let! entries := rmap (fun e => toMapEntry mapping e.1 e.2) obj in
  Ok (collect entries).

Definition Filter_ToMap (f : Filter) (mapping : DocumentMapping) : result (list (string * val)) := filterObjectToMap (Some mapping) f.(fl_Conditions).

(** ** Copies at another index *)

Definition Field_cloneTo (f : Field) (index : nat) : Field := mkMField index f.(f_Name).

Definition Targetable_cloneTo (t : Targetable) (index : nat) : Targetable :=
  mkTargetable (Field_cloneTo t.(tg_Field) index) t.(tg_DocKeys) t.(tg_Filter) t.(tg_Limit) t.(tg_GroupBy) t.(tg_OrderBy) t.(tg_ShowDeleted).

(** The copy of an aggregate has no dependencies. *)
Definition CloneTo (r : Requestable) (index : nat) : Requestable :=
  match r with
  | RField f => RField (Field_cloneTo f index)
  | RAggregate a => RAggregate (mkMAggregate (Field_cloneTo a.(ag_Field) index) a.(ag_AggregateTargets) [])
  | RSelect i fs => RSelect (mkInfo (Targetable_cloneTo i.(si_Targetable) index) i.(si_DocumentMapping) i.(si_Cid) i.(si_CollectionName)) fs
  end.

(** ** Filters that keep their names *)

(** A value that no conversion changes: not a list with maps in it. *)
Definition plain_clause (v : val) : bool := match v with VList l => forallb (fun x => negb (is_map x)) l | _ => true end.

(** Conditions on mapped names: a field has operators below it, or, if it is a relation, names of
    the related documents; [_and] and [_or] have lists of conditions and are not inside a
    relation. *)
Fixpoint shaped (k : string) (v : val) (m : DocumentMapping) {struct v} : bool :=
  if isOperator k then
    if isLogic k then
      match v with
      | VList items => forallb (fun item => match item with
          | VMap es => bool_decide (NoDup (fst <$> es)) && forallb (fun e => shaped e.1 e.2 m) es
          | _ => false
          end) items
      | _ => false
      end
    else plain_clause v
  else
    match indexes m k, v with
    | i :: _, VMap es =>
        bool_decide (NoDup (fst <$> es)) &&
        forallb (fun e =>
          if isOperator e.1 then negb (isLogic e.1) && negb (is_map e.2) && plain_clause e.2
          else match m.(ChildMappings) !! i with Some (Some c) => is_map e.2 && shaped e.1 e.2 c | _ => false end) es
    | _, _ => false
    end.

Lemma map_set_new key v l : key ∉ fst <$> l -> map_set key v l = l ++ [(key, v)].
Proof.
  intros Hn. unfold map_set. destruct (existsb _ l) eqn:E; [|done]. apply existsb_exists in E as (e & He & Hk%String.eqb_eq).
  destruct Hn. apply list_elem_of_fmap. exists e. by rewrite list_elem_of_In.
Qed.

Lemma collect_nodup es : NoDup (fst <$> es) -> collect es = es.
Proof.
  unfold collect. assert (forall es acc, NoDup (fst <$> (acc ++ es)) -> foldl (fun (out : list (string * val)) e => map_set e.1 e.2 out) acc es = acc ++ es) as H.
  { clear es. induction es as [|[k v] es IH]; intros acc Hn; cbn; [by rewrite app_nil_r|]. rewrite map_set_new.
    - rewrite IH; rewrite <- app_assoc; done.
    - rewrite fmap_app in Hn. apply NoDup_app in Hn as (_ & Hd & _). intros Hin. apply (Hd k Hin). by left. }
  intros Hn. by apply (H es []).
Qed.

Lemma rmap_Forall2 {A B} (f : A -> result B) l ys : Forall2 (fun x y => f x = Ok y) l ys -> rmap f l = Ok ys.
Proof. induction 1 as [|x y l ys Hx _ IH]; [done|]. cbn. rewrite Hx. cbn [rbind]. fold (rmap f). by rewrite IH. Qed.

Lemma rmap_there_and_back {A B} (f : A -> result B) (g : B -> result A) l :
  Forall (fun x => exists y, f x = Ok y /\ g y = Ok x) l -> exists ys, rmap f l = Ok ys /\ rmap g ys = Ok l.
Proof.
  induction 1 as [|x l (y & Hf & Hg) _ (ys & IHf & IHg)]; [by exists []|]. exists (y :: ys). cbn. rewrite Hf, Hg. cbn [rbind].
  fold (rmap f) (rmap g). by rewrite IHf, IHg.
Qed.

Lemma find_index_some i name l : (forall e, e ∈ l -> i ∈ e.2 -> e.1 = name) -> (exists idxs, (name, idxs) ∈ l /\ i ∈ idxs) -> find_index i l = Some name.
Proof.
  induction l as [|[n idxs] l IH]; intros Ho (ix & Hin & Hi); [by apply elem_of_nil in Hin|]. cbn. destruct (existsb (Nat.eqb i) idxs) eqn:E.
  - apply existsb_exists in E as (j & Hj & <-%Nat.eqb_eq). f_equal. apply (Ho (n, idxs)); [by left|by apply list_elem_of_In].
  - apply IH; [intros e He; apply Ho; by right|]. exists ix. split; [|done]. apply elem_of_cons in Hin as [[= -> ->]|?]; [|done].
    assert (existsb (Nat.eqb i) idxs = true) as E'; [|congruence]. apply existsb_exists. exists i. split; [by apply list_elem_of_In|apply Nat.eqb_refl].
Qed.

(** In a sound mapping the name of an index is the one that it was given. *)
Lemma name_of_index m name i : mwf m -> i ∈ indexes m name -> TryToFindNameFromIndex m i = Some name.
Proof.
  intros Hm Hi. destruct m as [ti rk ibn next cs]. cbn [TryToFindNameFromIndex]. rewrite (find_index_some i name); [done| |].
  - intros [n idxs] He Hin. apply elem_of_map_to_list in He. apply (mwf_one_name _ Hm n name i); [|done]. unfold indexes. cbn in *. by rewrite He.
  - unfold indexes in Hi. cbn in Hi. destruct (ibn !! name) as [idxs|] eqn:E; cbn in Hi; [|by apply elem_of_nil in Hi].
    exists idxs. split; [by apply elem_of_map_to_list|done].
Qed.

Definition there_and_back (k : string) (v : val) (m m' : option DocumentMapping) : Prop :=
  exists e, toFilterMap k v m = Ok e /\ toMapEntry m' e.1 e.2 = Ok (k, v).

(** An operator on a plain value is kept by both, whatever their mappings. *)
Lemma operator_back k v m m' : isOperator k = true -> isLogic k = false -> plain_clause v = true -> there_and_back k v m m'.
Proof.
  intros Ho Hl Hp. exists (Operator k, v). split; [|by cbn [fst snd]; destruct v; cbn [toMapEntry]; rewrite Hl].
  destruct v; cbn [toFilterMap]; rewrite Ho; try done. rewrite (rmap_Forall2 _ l l); [done|]. cbn in Hp. rewrite forallb_forall in Hp.
  apply Forall_Forall2_diag, Forall_forall. intros x Hx%list_elem_of_In%Hp. by destruct x.
Qed.

Definition all_back (v : val) : Prop := forall k m, all_wf m -> shaped k v m = true -> there_and_back k v (Some m) (Some m).

Lemma logic_back k items m :
  isOperator k = true -> isLogic k = true -> all_wf m ->
  Forall (fun item => match item with VMap es => Forall (fun e => all_back e.2) es | _ => True end) items -> shaped k (VList items) m = true ->
  there_and_back k (VList items) (Some m) (Some m).
Proof.
  intros Ho Hl Hw Hall Hs. cbn [shaped] in Hs. rewrite Ho, Hl in Hs. rewrite forallb_forall in Hs. unfold there_and_back. cbn [toFilterMap]. rewrite Ho.
  set (f := fun inner : val => _) at 1.
  set (g := fun item => match item with VFilter itemMap => let! entries := rmap (fun e => toMapEntry (Some m) e.1 e.2) itemMap in Ok (VMap (collect entries)) | _ => Panic end).
  destruct (rmap_there_and_back f g items) as (ys & Hf & Hg).
  - apply Forall_forall. intros item Hin. rewrite Forall_forall in Hall. specialize (Hall item Hin). apply list_elem_of_In, Hs in Hin.
    destruct item; try done. apply andb_true_iff in Hin as [Hnd%bool_decide_eq_true Hes]. rewrite forallb_forall in Hes.
    destruct (rmap_there_and_back (fun e => toFilterMap e.1 e.2 (Some m)) (fun e => toMapEntry (Some m) e.1 e.2) l) as (zs & Hz & Hzb).
    + apply Forall_forall. intros [k' v'] He. rewrite Forall_forall in Hall. destruct (Hall _ He k' m Hw) as (e & He1 & He2); [|by exists e].
      by apply list_elem_of_In, Hes in He.
    + exists (VFilter zs). split; [unfold f; by rewrite Hz|]. unfold g. rewrite Hzb. cbn [rbind]. by rewrite collect_nodup.
  - rewrite Hf. cbn [rbind]. eexists. split; [done|]. cbn [fst snd toMapEntry]. rewrite Hl. fold g. by rewrite Hg.
Qed.

Lemma property_back k es m :
  isOperator k = false -> all_wf m -> Forall (fun e => all_back e.2) es -> shaped k (VMap es) m = true -> there_and_back k (VMap es) (Some m) (Some m).
Proof.
  intros Ho Hw Hall Hs. cbn [shaped] in Hs. rewrite Ho in Hs. destruct (indexes m k) as [|i l] eqn:Ei; [done|].
  apply andb_true_iff in Hs as [Hnd%bool_decide_eq_true Hes]. rewrite forallb_forall in Hes. unfold there_and_back. cbn [toFilterMap]. rewrite Ho.
  unfold ptr_FirstIndexOfName, FirstIndexOfName. rewrite Ei. cbn [rbind].
  set (inner := match tryGetChildMapping m i with Some c => c | None => Some m end).
  set (f := fun e : string * val => _) at 1. set (g := fun e : FilterKey * val => toMapEntry inner e.1 e.2).
  destruct (rmap_there_and_back f g es) as (ys & Hf & Hg).
  - apply Forall_forall. intros [k' v'] He. rewrite Forall_forall in Hall. specialize (Hall _ He). apply list_elem_of_In, Hes in He. cbn [fst snd] in *.
    destruct (isOperator k') eqn:Ho'.
    + apply andb_true_iff in He as [[Hl%negb_true_iff Hm%negb_true_iff]%andb_true_iff Hp]. unfold f. cbn [fst snd]. rewrite Hm. cbn [rbind].
      by apply operator_back.
    + unfold g, f, inner, tryGetChildMapping, ptr_child. cbn [fst snd]. destruct (ChildMappings m !! i) as [[c|]|] eqn:Ec; [|done|done].
      apply andb_true_iff in He as [-> Hsh]. cbn [rbind]. apply Hall; [|done]. eapply all_wf_child; [done|]. unfold child. by rewrite Ec.
  - rewrite Hf. cbn [rbind]. eexists. split; [done|]. cbn [fst snd toMapEntry]. fold inner. fold g. rewrite Hg. cbn [rbind].
    rewrite (name_of_index m k i); [|by apply all_wf_here|rewrite Ei; by left]. by rewrite collect_nodup.
Qed.

Lemma scalar_back v : match v with VList _ | VMap _ => False | _ => True end -> all_back v.
Proof.
  intros Hv key m Hw Hs. destruct (isOperator key) eqn:Ho.
  - destruct (isLogic key) eqn:Hl; [by destruct v; cbn [shaped] in Hs; rewrite Ho, Hl in Hs|]. apply operator_back; [done..|]. by destruct v.
  - by destruct v; cbn [shaped] in Hs; rewrite Ho in Hs; destruct (indexes m key).
Qed.

Lemma all_back_ok v : all_back v.
Proof.
  apply (val_ind' (fun v => all_back v /\ match v with VMap es => Forall (fun e => all_back e.2) es | _ => True end) (fun _ => True)); try done;
    try (by intros; split; [apply scalar_back|]).
  - intros u. destruct u; try done; (split; [by apply scalar_back|done]).
  - intros items Hall. split; [|done]. intros k m Hw Hs. destruct (isOperator k) eqn:Ho.
    + destruct (isLogic k) eqn:Hl.
      * apply logic_back; [done..| |done]. eapply Forall_impl; [exact Hall|]. by intros x [_ Hx].
      * apply operator_back; [done..|]. cbn [shaped] in Hs. by rewrite Ho, Hl in Hs.
    + cbn [shaped] in Hs. rewrite Ho in Hs. by destruct (indexes m k).
  - intros es Hall. assert (Forall (fun e => all_back e.2) es) as Hes by (eapply Forall_impl; [exact Hall|]; by intros e [He _]).
    split; [|done]. intros k m Hw Hs. destruct (isOperator k) eqn:Ho; [|by apply property_back].
    destruct (isLogic k) eqn:Hl; cbn [shaped] in Hs; rewrite Ho, Hl in Hs; [done|]. by apply operator_back.
Qed.

(** A filter on mapped names that has its list operators at the top is converted to
    indexes, and printed with the names again it is the filter that was requested. *)
Theorem filter_round_trip es m :
  all_wf m -> NoDup (fst <$> es) -> forallb (fun e => shaped e.1 e.2 m) es = true ->
  exists f, ToFilter (Some es) (Some m) = Ok (Some f) /\ f.(fl_ExternalConditions) = es /\ Filter_ToMap f m = Ok es.
Proof.
  intros Hw Hnd Hs. rewrite forallb_forall in Hs.
  destruct (rmap_there_and_back (fun e => toFilterMap e.1 e.2 (Some m)) (fun e => toMapEntry (Some m) e.1 e.2) es) as (ys & Hf & Hg).
  { apply Forall_forall. intros [k v] He%list_elem_of_In%Hs. by destruct (all_back_ok v k m Hw He) as (e & ? & ?); exists e. }
  exists (mkFilter ys es). unfold ToFilter, Filter_ToMap, filterObjectToMap. cbn [fl_Conditions]. rewrite Hf, Hg. cbn [rbind]. by rewrite collect_nodup.
Qed.

(** ** The descriptions that the mapper reads *)

Section Descriptions.
Context {S : Type} `{LawfulMultiStore S} `{DsKey} `{DescCodec}.

Definition getCollectionDesc (name : string) : M S CollectionDescription :=
  let* schemaVersionId := wrap_err "failed to get collection description" (sys_Get (ToDS (NewCollectionKey name))) in
  let* buf := sys_Get (ToDS (NewCollectionSchemaVersionKey schemaVersionId)) in
  mlift (json_Unmarshal_desc buf).

Lemma fields_wf_desc_ok d : fields_wf d.(cd_Schema).(sd_Fields) -> desc_ok d.
Proof.
  intros [Hk Hi Hn]. assert (forall f, f ∈ sd_Fields (cd_Schema d) -> exists i, sd_Fields (cd_Schema d) !! i = Some f /\ fd_ID f = Z.of_nat i) as Hf.
  { intros f [i Hl]%list_elem_of_lookup_1. exists i. split; [done|]. by apply Hi. }
  split.
  - intros f (i & _ & ->)%Hf. lia.
  - intros f (i & Hl & Hid)%Hf _ E. destruct Hk as (f0 & fs & Hfs & Hname & _). assert (i = 0%nat) as -> by lia. rewrite Hfs in Hl. by injection Hl as <-.
  - intros f f' (i & Hl & ->)%Hf (j & Hl' & ->)%Hf _ _ E. assert (i = j) as -> by lia. congruence.
Qed.

#[local] Instance systemStore : Datastore S := store_of NSystem.
#[local] Instance systemLawful : LawfulDatastore S := lawful_of NSystem.

(** Over a store that holds a catalog the mapper gets its descriptions, which are numbered as the
    theorems on the mapper assume. *)
Lemma getCollectionDesc_catalog s c n name :
  Schema.holds (view s) c -> catalog_wf c n -> elem_ok name = true ->
  steps (getCollectionDesc name) s (view s)
    (match c !! name with Some d => Ok d | None => Err (ErrWrap "failed to get collection description" ErrNotFound) end) /\
  forall d, c !! name = Some d -> desc_ok d.
Proof.
  intros Hm Hc Hn. split; [|intros d Hd; by apply fields_wf_desc_ok, (dw_fields n name d (cw_desc c n Hc name d Hd))].
  pose proof (holds_lookup _ _ _ _ Hm Hc Hn) as Hl. unfold getCollectionDesc, wrap_err. rewrite ToDS_name by done.
  destruct (c !! name) as [d|] eqn:E; cbn in Hl.
  - destruct (h_entry _ _ Hm _ _ E) as (_ & _ & b & Hb & Hj). pose proof (dw_version _ _ _ (cw_desc _ _ Hc _ _ E)) as Hv.
    eapply steps_bind.
    { eapply steps_bind; [apply steps_try_ok, steps_Get_Some; [by apply clean_catalog_key|exact Hl]|]. intros s1 E1. by apply steps_ret_eq. }
    intros s1 E1. rewrite ToDS_version by done. eapply steps_bind; [apply steps_Get_Some; [by apply clean_catalog_key|by rewrite E1]|].
    intros s2 E2. rewrite Hj. replace (view s) with (view s2) by congruence. apply steps_lift.
  - eapply steps_bind_err. eapply steps_bind; [apply steps_try_err, steps_Get_None; [by apply clean_catalog_key|done]|].
    intros s1 E1. rewrite <- E1. apply (steps_lift (Err _)).
Qed.
End Descriptions.
