(* ===== verification/RequestParser.v ===== *)
(** * From syntax trees to requests (request/graphql/parser)

    A GraphQL document, as the graphql-go library parses and validates it, becomes a request.
    The schema of the library is a parameter: what the parser asks it for is the definition of a
    field of an object, the types of its arguments, and the value of a literal of an input
    type. *)

From Stdlib Require Import Ascii.
From S2P Require Import Prelude GoStd Values Desc Schema Store Request DocOps Mapper.

(** ** Syntax trees (graphql-go/graphql/language/ast) *)

Inductive astValue :=
  | AInt (s : string)
  | AFloat (s : string)
  | AString (s : string)
  | ABool (b : bool)
  | AEnum (s : string)
  | ANull
  | AVariable (name : string)
  | AList (l : list astValue)
  | AObject (fields : list (string * astValue)).

(** Fields, and fragments, which the parser leaves out. *)
Inductive astNode :=
  | AField (name : string) (alias : option string) (args : list (string * astValue)) (selections : option (list astNode))
  | AFragment.

(** The string that [GetValue] returns, if it returns one. *)
Definition GetValue_string (v : astValue) : option string :=
  match v with AInt s | AFloat s | AString s | AEnum s => Some s | _ => None end.

(** Type assertions panic on another type. *)
Definition asString (v : astValue) : result string := match v with AString s => Ok s | _ => Panic end.
Definition asInt (v : astValue) : result string := match v with AInt s => Ok s | _ => Panic end.
Definition asBool (v : astValue) : result bool := match v with ABool b => Ok b | _ => Panic end.
Definition asList (v : astValue) : result (list astValue) := match v with AList l => Ok l | _ => Panic end.
Definition asObject (v : astValue) : result (list (string * astValue)) := match v with AObject fs => Ok fs | _ => Panic end.

(** ** [strconv] *)

Definition ErrSyntax : error := ErrNew "invalid syntax".
Definition ErrRange : error := ErrNew "value out of range".

Definition ParseUint (s : string) : result Z :=
  match s with
  | EmptyString => Err ErrSyntax
  | _ => match digits_val 0 s with
         | None => Err ErrSyntax
         | Some n => if n <? 2 ^ 64 then Ok n else Err ErrRange
         end
  end.

Definition ParseInt (s : string) : result Z :=
  let '(neg, ds) := split_sign s in
  match ds with
  | EmptyString => Err ErrSyntax
  | _ => match digits_val 0 ds with
         | None => Err ErrSyntax
         | Some n => let v := if (neg : bool) then - n else n in if (- 2 ^ 63 <=? v) && (v <? 2 ^ 63) then Ok v else Err ErrRange
         end
  end.

(** The digits at the front of a string: their value and number, and the rest. *)
Fixpoint scanDigits (acc : Z) (n : nat) (s : string) : Z * nat * string :=
  match s with
  | EmptyString => (acc, n, s)
  | String c r => match digit c with Some d => scanDigits (acc * 10 + d) (S n) r | None => (acc, n, s) end
  end.

(** Whether [ParseFloat] fails: a decimal number [m * 10 ^ e] is out of range if it rounds to
    [2 ^ 1024] or more.  Only the outcome is used. *)
Definition ParseFloat_fails (s : string) : option error :=
  let '(_, s) := split_sign s in
  let '(m, n, s) := scanDigits 0 0 s in
  let '(m, n, f, s) := match s with
                       | String c r => if Ascii.eqb c "." then let '(m, n', r) := scanDigits m 0 r in (m, (n + n')%nat, n', r) else (m, n, 0%nat, s)
                       | EmptyString => (m, n, 0%nat, s)
                       end in
  let exponent := match s with
                  | EmptyString => Some 0
                  | String c r =>
                      if Ascii.eqb c "e" || Ascii.eqb c "E" then
                        let '(neg, ds) := split_sign r in
                        let '(e, k, rest) := scanDigits 0 0 ds in
                        match k, rest with S _, EmptyString => Some (if (neg : bool) then - e else e) | _, _ => None end
                      else None
                  end in
  match n, exponent with
  | S _, Some e =>
      let e := e - Z.of_nat f in
      let bound := 2 ^ 1024 - 2 ^ 970 in
      if (if 0 <=? e then m * 10 ^ e <? bound else m <? bound * 10 ^ (- e)) then None else Some ErrRange
  | _, _ => Some ErrSyntax
  end.

(** ** Orders (filter.go) *)

Definition ErrFilterMissingArgumentType : error := ErrNew "couldn't find filter argument type".
Definition ErrInvalidOrderDirection : error := ErrNew "invalid order direction string".
Definition ErrFailedToParseConditionsFromAST : error := ErrNew "couldn't parse conditions value from AST".
Definition ErrFailedToParseConditionValue : error := ErrNew "failed to parse condition value from query filter statement".
Definition ErrEmptyDataPayload : error := ErrNew "given data payload is empty".
Definition ErrUnknownMutationName : error := ErrNew "unknown mutation name".
Definition ErrInvalidExplainTypeArg : error := ErrNew "invalid explain request type argument".
Definition ErrInvalidNumberOfExplainArgs : error := ErrNew "invalid number of arguments to an explain request".
Definition ErrUnknownExplainType : error := ErrNew "invalid / unknown explain type".
Definition ErrUnknownGQLOperation : error := ErrNew "unknown GraphQL operation type".

Definition isOrderDirection (s : string) : bool := String.eqb s "ASC" || String.eqb s "DESC".

(** What [parseVal] returns, as far as an order tells values apart. *)
Inductive orderVal := OVString (s : string) | OVConditions (l : list rOrderCondition) | OVOther.

(** The conditions of a field of an order. *)
Definition orderField (name : string) (v : orderVal) : result (list rOrderCondition) :=
  match v with
  | OVString s => if isOrderDirection s then Ok [mkROrder [name] s] else Err ErrInvalidOrderDirection
  | OVConditions l => Ok ((fun c => mkROrder (name :: c.(ro_Fields)) c.(ro_Direction)) <$> l)
  | OVOther => Err NewErrUnhandledType
  end.

(** [parseVal] with [parseConditionsInOrder] for objects. *)
Fixpoint parseVal (v : astValue) : result orderVal :=
  match v with
  | AInt s => let! _ := ParseInt s in Ok OVOther
  | AFloat s => match ParseFloat_fails s with Some e => Err e | None => Ok OVOther end
  | AString s | AEnum s => Ok (OVString s)
  | ABool _ | ANull => Ok OVOther
  | AVariable _ => Err ErrFailedToParseConditionValue
  | AList l => let! _ := rmap parseVal l in Ok OVOther
  | AObject fields =>
      let! conditions := rmap (fun e => let! v := parseVal e.2 in orderField e.1 v) fields in
      Ok (OVConditions (concat conditions))
  end.

Definition ParseConditionsInOrder (fields : list (string * astValue)) : result (list rOrderCondition) :=
  let! v := parseVal (AObject fields) in
  match v with OVConditions l => Ok l | _ => Err ErrUnexpectedType end.

(** ** The schema *)

Inductive outType (O : Type) := OutObject (o : O) | OutList (t : outType O) | OutOther.
Arguments OutObject {O}. Arguments OutList {O}. Arguments OutOther {O}.

Record FieldDefinition (O I : Type) := mkFieldDef { fdef_Args : list (string * I); fdef_Type : outType O }.
Arguments mkFieldDef {O I}. Arguments fdef_Args {O I}. Arguments fdef_Type {O I}.

Class GqlSchema := {
  GqlObject : Type;
  GqlInput : Type;
  QueryType : GqlObject;
  MutationObject : GqlObject;
  GetFieldDef : GqlObject -> string -> option (FieldDefinition GqlObject GqlInput);
  InputFields : GqlInput -> option (list (string * GqlInput));
  ValueFromAST : astValue -> GqlInput -> val;
}.

Section RequestParser.
Context `{GqlSchema}.

Definition fieldDef : Type := FieldDefinition GqlObject GqlInput.

(** A definition that was not found is nil. *)
Definition getArgumentType (field : option fieldDef) (name : string) : result (option GqlInput) :=
  match field with
  | None => Panic
  | Some field => Ok (snd <$> List.find (fun arg => String.eqb arg.1 name) field.(fdef_Args))
  end.

Definition getArgumentTypeFromInput (fields : list (string * GqlInput)) (name : string) : option GqlInput :=
  snd <$> List.find (fun field => String.eqb field.1 name) fields.

Definition typeFromFieldDef (field : option fieldDef) : result GqlObject :=
  match field with
  | None => Panic
  | Some field =>
      match field.(fdef_Type) with
      | OutObject o => Ok o
      | OutList (OutObject o) => Ok o
      | OutList _ => Panic
      | OutOther => Err NewErrUnhandledType
      end
  end.

Definition tryGet (fields : list (string * astValue)) (name : string) : option astValue :=
  snd <$> List.find (fun field => String.eqb field.1 name) fields.

(** ** Filters *)

Definition ParseConditions (stmt : astValue) (inputType : GqlInput) : result (list (string * val)) :=
  match ValueFromAST stmt inputType with
  | VNil => Err ErrFailedToParseConditionsFromAST
  | VMap conditions => Ok conditions
  | _ => Err ErrUnexpectedType
  end.

Definition NewFilter (fields : list (string * astValue)) (inputType : GqlInput) : result (list (string * val)) := ParseConditions (AObject fields) inputType.

(** The filter argument of a field. *)
Definition parseFilterArg (field : option fieldDef) (v : astValue) : result (list (string * val)) :=
  let! obj := asObject v in
  let! filterType := getArgumentType field "filter" in
  match filterType with
  | None => Err ErrFilterMissingArgumentType
  | Some filterType => NewFilter obj filterType
  end.

(** ** Selects (query.go) *)

Definition parseGroupBy (v : astValue) : result (list string) :=
  let! l := asList v in
  rmap (fun v => match GetValue_string v with Some s => Ok s | None => Panic end) l.

Definition parseUintArg (v : astValue) : result Z := let! s := asInt v in ParseUint s.

Definition parseOrderArg (v : astValue) : result (list rOrderCondition) := let! obj := asObject v in ParseConditionsInOrder obj.

(** One argument of a select. *)
Definition parseSelectArg (field : option fieldDef) (slct : rHead) (arg : string * astValue) : result rHead :=
  let '(mkRHead f keys cid root limit offset order group filter deleted) := slct in
  let '(prop, v) := arg in
  if String.eqb prop "filter" then let! x := parseFilterArg field v in Ok (mkRHead f keys cid root limit offset order group (Some x) deleted)
  else if String.eqb prop "dockey" then let! x := asString v in Ok (mkRHead f (Some [x]) cid root limit offset order group filter deleted)
  else if String.eqb prop "dockeys" then
    let! l := asList v in
    let! x := rmap asString l in
    Ok (mkRHead f (Some x) cid root limit offset order group filter deleted)
  else if String.eqb prop "cid" then let! x := asString v in Ok (mkRHead f keys (Some x) root limit offset order group filter deleted)
  else if String.eqb prop "limit" then let! x := parseUintArg v in Ok (mkRHead f keys cid root (Some x) offset order group filter deleted)
  else if String.eqb prop "offset" then let! x := parseUintArg v in Ok (mkRHead f keys cid root limit (Some x) order group filter deleted)
  else if String.eqb prop "order" then let! x := parseOrderArg v in Ok (mkRHead f keys cid root limit offset (Some x) group filter deleted)
  else if String.eqb prop "groupBy" then let! x := parseGroupBy v in Ok (mkRHead f keys cid root limit offset order (Some x) filter deleted)
  else if String.eqb prop "showDeleted" then let! x := asBool v in Ok (mkRHead f keys cid root limit offset order group filter x)
  else Ok slct.

(** The arguments in turn. *)
Definition parseArgs {A} (parse : A -> string * astValue -> result A) : list (string * astValue) -> A -> result A :=
  fix go args a :=
    match args with
    | [] => Ok a
    | arg :: args => let! a := parse a arg in go args a
    end.

(** [parseSelect], for the function that parses the fields inside. *)
Definition parseSelect_by (parseFields : SelectionType -> GqlObject -> list astNode -> result (list selection)) (rootType : SelectionType) (parent : GqlObject)
    (name : string) (alias : option string) (args : list (string * astValue)) (selections : option (list astNode)) : result rSelect :=
  let field := GetFieldDef parent name in
  let! slct := parseArgs (parseSelectArg field) args (mkRHead (mkRField name alias) None None rootType None None None None None false) in
  match selections with
  | None => Ok (mkRSelect slct [])
  | Some inner =>
      let! fieldObject := typeFromFieldDef field in
      let! fields := parseFields rootType fieldObject inner in
      Ok (mkRSelect slct fields)
  end.

(** ** Aggregates *)

Definition parseAggregateFilter (parent : GqlObject) (name hostName : string) (v : astValue) : result (list (string * val)) :=
  let! argType := getArgumentType (GetFieldDef parent name) hostName in
  match argType with
  | None => Err ErrFilterMissingArgumentType
  | Some argType =>
      match InputFields argType with
      | None => Err ErrUnexpectedType
      | Some inputFields =>
          match getArgumentTypeFromInput inputFields "filter" with
          | None => Err ErrFilterMissingArgumentType
          | Some filterType => match v with AObject obj => NewFilter obj filterType | _ => Err ErrUnexpectedType end
          end
      end
  end.

(** An order of an inline array is a direction; a value of another kind is left out. *)
Definition parseAggregateOrder (v : astValue) : result (option (list rOrderCondition)) :=
  match v with
  | AEnum s => Ok (Some [mkROrder [] s])
  | AObject obj => let! conditions := ParseConditionsInOrder obj in Ok (Some conditions)
  | _ => Ok None
  end.

Definition optional {A} (f : astValue -> result A) (v : option astValue) : result (option A) :=
  match v with None => Ok None | Some v => let! x := f v in Ok (Some x) end.

Definition parseTarget (parent : GqlObject) (name : string) (arg : string * astValue) : result (option rAggregateTarget) :=
  match arg.2 with
  | AObject fields =>
      let childName := match tryGet fields "field" with Some v => default "" (GetValue_string v) | None => "" end in
      let! filter := optional (parseAggregateFilter parent name arg.1) (tryGet fields "filter") in
      let! limit := optional parseUintArg (tryGet fields "limit") in
      let! offset := optional parseUintArg (tryGet fields "offset") in
      let! order := match tryGet fields "order" with Some v => parseAggregateOrder v | None => Ok None end in
      Ok (Some (mkRTarget arg.1 (Some childName) limit offset order filter))
  | v => Ok ((fun host => mkRTarget host None None None None None) <$> GetValue_string v)
  end.

Definition parseAggregate (parent : GqlObject) (name : string) (alias : option string) (args : list (string * astValue)) : result rAggregate :=
  let! targets := rmap (parseTarget parent name) args in
  Ok (mkRAggregate (mkRField name alias) targets).

(** ** Fields (request.go) *)

Definition to_selection (s : rSelect) : selection := SelSelect s.(rs_head) s.(rs_Fields).

(** One selection of [parseSelectFields]. *)
Fixpoint parseSelection (root : SelectionType) (parent : GqlObject) (node : astNode) {struct node} : result selection :=
  match node with
  | AFragment => Ok SelNil
  | AField name alias args selections =>
      if isAggregateName name then let! a := parseAggregate parent name alias args in Ok (SelAggregate a)
      else
        match selections with
        | None => Ok (SelField (mkRField name alias))
        | Some _ =>
            let subroot := if String.eqb name VersionFieldName then CommitSelection else root in
            let! s := parseSelect_by (fun root parent fields => rmap (parseSelection root parent) fields) subroot parent name alias args selections in
            Ok (to_selection s)
        end
  end.

Definition parseSelectFields (root : SelectionType) (parent : GqlObject) (fields : list astNode) : result (list selection) := rmap (parseSelection root parent) fields.

Definition parseSelect (rootType : SelectionType) (parent : GqlObject) (name : string) (alias : option string) (args : list (string * astValue))
    (selections : option (list astNode)) : result rSelect :=
  parseSelect_by parseSelectFields rootType parent name alias args selections.

(** ** Mutations (mutation.go) *)

Definition mutationNameToType (name : string) : option MutationType :=
  if String.eqb name "create" then Some CreateObjects
  else if String.eqb name "update" then Some UpdateObjects
  else if String.eqb name "delete" then Some DeleteObjects
  else None.

Definition parseMutationArg (field : option fieldDef) (mut : rMutation) (arg : string * astValue) : result rMutation :=
  let '(mkRMutation f type collection ids filter data fields) := mut in
  let '(prop, v) := arg in
  if String.eqb prop "data" then
    let! raw := asString v in
    if String.eqb raw "" then Err ErrEmptyDataPayload else Ok (mkRMutation f type collection ids filter raw fields)
  else if String.eqb prop "filter" then let! x := parseFilterArg field v in Ok (mkRMutation f type collection ids (Some x) data fields)
  else if String.eqb prop "id" then let! x := asString v in Ok (mkRMutation f type collection (Some [x]) filter data fields)
  else if String.eqb prop "ids" then
    let! l := asList v in
    let! x := rmap (fun v => match v with AString s => Ok s | _ => Err ErrUnexpectedType end) l in
    Ok (mkRMutation f type collection (Some x) filter data fields)
  else Ok mut.

Definition set_Fields_mutation (mut : rMutation) (fields : list selection) : rMutation :=
  mkRMutation mut.(rm_Field) mut.(rm_Type) mut.(rm_Collection) mut.(rm_IDs) mut.(rm_Filter) mut.(rm_Data) fields.

Definition parseMutation (parent : GqlObject) (name : string) (alias : option string) (args : list (string * astValue)) (selections : option (list astNode))
    : result rMutation :=
  let field := GetFieldDef parent name in
  match Split name "_" with
  | [] => Panic
  | typeStr :: rest =>
      match mutationNameToType typeStr with
      | None => Err ErrUnknownMutationName
      | Some type =>
          let! mut := parseArgs (parseMutationArg field) args (mkRMutation (mkRField name alias) type (Join rest "_") None None "" []) in
          match selections with
          | None => Ok mut
          | Some inner =>
              let! fieldObject := typeFromFieldDef field in
              let! fields := parseSelectFields ObjectSelection fieldObject inner in
              Ok (set_Fields_mutation mut fields)
          end
      end
  end.

(** ** Commits (commit.go) *)

Definition parseCommitArg (commit : rCommitSelect) (arg : string * astValue) : result rCommitSelect :=
  let '(mkRCommit f key fieldID cid depth limit offset order group fields) := commit in
  let '(prop, v) := arg in
  if String.eqb prop "dockey" then let! x := asString v in Ok (mkRCommit f (Some x) fieldID cid depth limit offset order group fields)
  else if String.eqb prop "cid" then let! x := asString v in Ok (mkRCommit f key fieldID (Some x) depth limit offset order group fields)
  else if String.eqb prop "fieldId" then let! x := asString v in Ok (mkRCommit f key (Some x) cid depth limit offset order group fields)
  else if String.eqb prop "order" then let! x := parseOrderArg v in Ok (mkRCommit f key fieldID cid depth limit offset (Some x) group fields)
  else if String.eqb prop "limit" then let! x := parseUintArg v in Ok (mkRCommit f key fieldID cid depth (Some x) offset order group fields)
  else if String.eqb prop "offset" then let! x := parseUintArg v in Ok (mkRCommit f key fieldID cid depth limit (Some x) order group fields)
  else if String.eqb prop "depth" then let! x := parseUintArg v in Ok (mkRCommit f key fieldID cid (Some x) limit offset order group fields)
  else if String.eqb prop "groupBy" then let! x := parseGroupBy v in Ok (mkRCommit f key fieldID cid depth limit offset order (Some x) fields)
  else Ok commit.

(** The latest commits are the commits of depth 1, of the composites if no field is given. *)
Definition latestCommits (commit : rCommitSelect) : rCommitSelect :=
  let '(mkRCommit f key fieldID cid depth limit offset order group fields) := commit in
  if String.eqb f.(rf_Name) LatestCommitsName then
    mkRCommit f key (match fieldID with Some _ => fieldID | None => Some COMPOSITE_NAMESPACE end) cid (Some 1) limit offset order group fields
  else commit.

Definition parseCommitSelect (parent : GqlObject) (name : string) (alias : option string) (args : list (string * astValue)) (selections : option (list astNode))
    : result rCommitSelect :=
  let! commit := parseArgs parseCommitArg args (mkRCommit (mkRField name alias) None None None None None None None None []) in
  let commit := latestCommits commit in
  match selections with
  | None => Ok commit
  | Some inner =>
      let! fieldObject := typeFromFieldDef (GetFieldDef parent name) in
      let! fields := parseSelectFields CommitSelection fieldObject inner in
      let '(mkRCommit f key fieldID cid depth limit offset order group _) := commit in
      Ok (mkRCommit f key fieldID cid depth limit offset order group fields)
  end.

(** ** Subscriptions (subscription.go) *)

Definition parseSubscriptionArg (field : option fieldDef) (filter : option (list (string * val))) (arg : string * astValue) : result (option (list (string * val))) :=
  if String.eqb arg.1 "filter" then
    let! filterType := getArgumentType field "filter" in
    match filterType with
    | None => Err ErrFilterMissingArgumentType
    | Some filterType => let! obj := asObject arg.2 in let! x := NewFilter obj filterType in Ok (Some x)
    end
  else Ok filter.

(** The selections are not tested for nil. *)
Definition parseSubscription (name : string) (alias : option string) (args : list (string * astValue)) (selections : option (list astNode)) : result rSubscription :=
  let field := GetFieldDef QueryType name in
  let! filter := parseArgs (parseSubscriptionArg field) args None in
  let! fieldObject := typeFromFieldDef field in
  match selections with
  | None => Panic
  | Some inner =>
      let! fields := parseSelectFields ObjectSelection fieldObject inner in
      Ok (mkRSubscription (mkRField name alias) name filter fields)
  end.

(** ** Operations and requests *)

Inductive opSelection :=
  | OpSelect (s : rSelect)
  | OpCommit (c : rCommitSelect)
  | OpMutation (m : rMutation)
  | OpSubscription (s : rSubscription)
  | OpNil.

Inductive ExplainType := SimpleExplain | ExecuteExplain | DebugExplain.

Record OperationDefinition := mkOperation { od_Selections : list opSelection; od_Explain : option ExplainType }.

Record rRequest := mkRequest { rq_Queries : list OperationDefinition; rq_Mutations : list OperationDefinition; rq_Subscription : list OperationDefinition }.

(** A directive may be nil. *)
Record astDirective := mkDirective { dir_Name : string; dir_Args : list (string * astValue) }.

Inductive astOperation := OperationTypeQuery | OperationTypeMutation | OperationTypeSubscription | OperationTypeOther.

(** An operation, or a definition of another kind. *)
Inductive astDefinition :=
  | ADOperation (operation : astOperation) (directives : list (option astDirective)) (selections : list astNode)
  | ADOther.

(** Several errors, or a value. *)
Definition results (A : Type) : Type := result (A + list error).

Definition rbinds {A B} (m : results A) (k : A -> results B) : results B :=
  let! r := m in match r with inl x => k x | inr errs => Ok (inr errs) end.

(** [[]error{err}] *)
Definition one_error {A} (m : result A) : results A :=
  match m with Ok x => Ok (inl x) | Err e => Ok (inr [e]) | Panic => Panic end.

Definition parseQuerySelection (node : astNode) : results opSelection :=
  match node with
  | AFragment => Ok (inl OpNil)
  | AField name alias args selections =>
      if isCommitQuery name then one_error (let! c := parseCommitSelect QueryType name alias args selections in Ok (OpCommit c))
      else if isAggregateName name then
        one_error (let! a := parseAggregate QueryType name alias args in
                   Ok (OpSelect (mkRSelect (mkRHead a.(ra_Field) None None ObjectSelection None None None None None false) [SelAggregate a])))
      else
        rbinds (one_error (parseSelect ObjectSelection QueryType name alias args selections)) (fun s =>
          match Validate s with [] => Ok (inl (OpSelect s)) | errs => Ok (inr errs) end)
  end.

(** [f] over a list, until one fails. *)
Definition rmaps {A B} (f : A -> results B) : list A -> results (list B) :=
  fix go l :=
    match l with
    | [] => Ok (inl [])
    | x :: l => rbinds (f x) (fun y => rbinds (go l) (fun ys => Ok (inl (y :: ys))))
    end.

Definition parseQueryOperationDefinition (selections : list astNode) : results (list opSelection) := rmaps parseQuerySelection selections.

Definition parseMutationOperationDefinition (selections : list astNode) : result (list opSelection) :=
  rmap (fun node =>
    match node with
    | AFragment => Ok OpNil
    | AField name alias args inner => let! m := parseMutation MutationObject name alias args inner in Ok (OpMutation m)
    end) selections.

Definition parseSubscriptionOperationDefinition (selections : list astNode) : result (list opSelection) :=
  rmap (fun node =>
    match node with
    | AFragment => Ok OpNil
    | AField name alias args inner => let! s := parseSubscription name alias args inner in Ok (OpSubscription s)
    end) selections.

Definition parseExplainDirective (d : astDirective) : result ExplainType :=
  match d.(dir_Args) with
  | [] => Ok SimpleExplain
  | [(name, v)] =>
      if negb (String.eqb name "type") then Err ErrInvalidExplainTypeArg
      else
        match GetValue_string v with
        | Some s =>
            if String.eqb s "simple" then Ok SimpleExplain
            else if String.eqb s "execute" then Ok ExecuteExplain
            else if String.eqb s "debug" then Ok DebugExplain
            else Err ErrUnknownExplainType
        | None => Err ErrUnknownExplainType
        end
  | _ => Err ErrInvalidNumberOfExplainArgs
  end.

(** The last explain directive counts. *)
Fixpoint parseDirectives (ds : list (option astDirective)) (explain : option ExplainType) : result (option ExplainType) :=
  match ds with
  | [] => Ok explain
  | None :: _ => Err (ErrNew "found a nil directive in the AST")
  | Some d :: ds => if String.eqb d.(dir_Name) "explain" then let! e := parseExplainDirective d in parseDirectives ds (Some e) else parseDirectives ds explain
  end.

(** The error of the directives of a query is dropped, as the errors of its selections are tested
    in its place. *)
Definition query_directives (ds : list (option astDirective)) : result (option ExplainType) :=
  match parseDirectives ds None with Err _ => Ok None | r => r end.

Definition parseDefinition (r : rRequest) (def : astDefinition) : results rRequest :=
  match def with
  | ADOther => Ok (inl r)
  | ADOperation OperationTypeQuery directives selections =>
      rbinds (parseQueryOperationDefinition selections) (fun sels =>
        rbinds (one_error (query_directives directives)) (fun explain =>
          Ok (inl (mkRequest (r.(rq_Queries) ++ [mkOperation sels explain]) r.(rq_Mutations) r.(rq_Subscription)))))
  | ADOperation OperationTypeMutation directives selections =>
      one_error (let! sels := parseMutationOperationDefinition selections in
                 let! explain := parseDirectives directives None in
                 Ok (mkRequest r.(rq_Queries) (r.(rq_Mutations) ++ [mkOperation sels explain]) r.(rq_Subscription)))
  | ADOperation OperationTypeSubscription directives selections =>
      one_error (let! sels := parseSubscriptionOperationDefinition selections in
                 let! explain := parseDirectives directives None in
                 Ok (mkRequest r.(rq_Queries) r.(rq_Mutations) (r.(rq_Subscription) ++ [mkOperation sels explain])))
  | ADOperation OperationTypeOther _ _ => Ok (inr [ErrUnknownGQLOperation])
  end.

(** A nil document is [None]. *)
Definition ParseRequest (doc : option (list astDefinition)) : results rRequest :=
  match doc with
  | None => Ok (inr [NewErrUninitializeProperty])
  | Some defs => foldl (fun r def => rbinds r (fun r => parseDefinition r def)) (Ok (inl (mkRequest [] [] []))) defs
  end.

(** ** Introspection (introspection.go) *)

(** [Some] if the loop over the selections returns. *)
Fixpoint introspects (selections : list astNode) : option bool :=
  match selections with
  | [] => None
  | AField name _ _ _ :: rest => if String.eqb name "__schema" || String.eqb name "__type" then Some true else introspects rest
  | AFragment :: _ => Some false
  end.

Fixpoint IsIntrospectionQuery (defs : list astDefinition) : bool :=
  match defs with
  | [] => false
  | ADOperation OperationTypeQuery _ selections :: rest => match introspects selections with Some b => b | None => IsIntrospectionQuery rest end
  | _ :: rest => IsIntrospectionQuery rest
  end.

(** ** Filters from strings (filter.go)

    [parseObject] is the object parser of the library. *)
Definition NewFilterFromString (parseObject : string -> result (list (string * astValue))) (collectionType body : string) : result (list (string * val)) :=
  let body := if HasPrefix body "{" then body else "{" +:+ body +:+ "}" in
  let! obj := parseObject body in
  let! filterType := getArgumentType (GetFieldDef QueryType collectionType) "filter" in
  match filterType with
  | None => Err ErrFilterMissingArgumentType
  | Some filterType => NewFilter obj filterType
  end.

(** ** The parser of the database (request/graphql/parser.go)

    [validate] is [gql.ValidateDocument], which returns the errors that it finds. *)
Definition Parse (validate : list astDefinition -> list error) (doc : list astDefinition) : results rRequest :=
  match validate doc with
  | [] => ParseRequest (Some doc)
  | errs => Ok (inr errs)
  end.
End RequestParser.
