(* ===== verification/RequestPrint.v ===== *)
(** * Requests as syntax trees

    Every request that conforms to the schema can be written as a document, and parsing the
    document gives the request back: the parser reads all arguments, at all depths, and mixes
    none of them up. *)

From Stdlib Require Import Ascii.
From stdpp Require Import pretty.
From S2P Require Import Prelude GoStd Values Desc Schema Store Request DocOps Mapper RequestParser.

(** ** Numbers *)

Lemma ParseUint_Sprint z : is_u64 z -> ParseUint (Sprint z) = Ok z.
Proof.
  unfold is_u64. intros Hz. unfold Sprint, pretty, pretty_N.
  case_decide as Hn; [replace z with 0 by lia; done|].
  destruct (pretty_N_go_head (Z.to_N z) "" ltac:(lia)) as (d & r & Hd & Hp).
  pose proof (pretty_N_go_digits (Z.to_N z) "") as Hv. cbn [digits_val] in Hv. rewrite Hp in *. unfold ParseUint.
  rewrite Hv, Z2N.id by lia. by replace (z <? 2 ^ 64) with true by lia.
Qed.

Definition AUint (z : Z) : astValue := AInt (Sprint z).

Lemma parseUintArg_AUint z : is_u64 z -> parseUintArg (AUint z) = Ok z.
Proof. intros Hz. unfold parseUintArg. cbn [asInt AUint rbind]. by apply ParseUint_Sprint. Qed.

(** ** Orders *)

Definition order_ok (c : rOrderCondition) : Prop := c.(ro_Fields) <> [] /\ isOrderDirection c.(ro_Direction) = true.

Fixpoint path_value (fields : list string) (direction : string) : astValue :=
  match fields with [] => AEnum direction | f :: fields => AObject [(f, path_value fields direction)] end.

Definition print_cond (c : rOrderCondition) : string * astValue :=
  match c.(ro_Fields) with f :: fields => (f, path_value fields c.(ro_Direction)) | [] => (EmptyString, ANull) end.

Definition print_order (l : list rOrderCondition) : list (string * astValue) := print_cond <$> l.

Lemma parse_path fields f d :
  isOrderDirection d = true -> (let! v := parseVal (path_value fields d) in orderField f v) = Ok [mkROrder (f :: fields) d].
Proof.
  intros Hd. revert f. induction fields as [|f' fields IH]; intros f; [cbn; by rewrite Hd|].
  cbn [path_value parseVal rmap fst snd]. rewrite IH. done.
Qed.

Lemma parse_order l : Forall order_ok l -> ParseConditionsInOrder (print_order l) = Ok l.
Proof.
  intros Hl. unfold ParseConditionsInOrder. cbn [parseVal].
  assert (rmap (fun e => let! v := parseVal e.2 in orderField e.1 v) (print_order l) = Ok ((fun c => [c]) <$> l)) as ->.
  - induction Hl as [|[[|f fields] d] l [Hf Hd] _ IH]; [done|done|]. cbn [print_order fmap list_fmap print_cond ro_Fields ro_Direction rmap fst snd].
    cbn [ro_Direction] in Hd. rewrite parse_path by done. cbn [rbind]. fold (print_order l). fold (rmap (fun e => let! v := parseVal e.2 in orderField e.1 v)).
    by rewrite IH.
  - cbn [rbind]. f_equal. clear. induction l as [|c l IH]; [done|]. cbn. by rewrite IH.
Qed.

Lemma rmap_print {A B} (f : B -> result A) (g : A -> B) l : Forall (fun x => f (g x) = Ok x) l -> rmap f (g <$> l) = Ok l.
Proof. induction 1 as [|x l Hx _ IH]; [done|]. cbn. rewrite Hx. cbn [rbind]. fold (rmap f). by rewrite IH. Qed.

Lemma parse_strings l : rmap asString (AString <$> l) = Ok l.
Proof. apply rmap_print. by induction l; constructor. Qed.

Lemma parse_group l : parseGroupBy (AList (AEnum <$> l)) = Ok l.
Proof. unfold parseGroupBy. cbn [asList rbind]. apply rmap_print. by induction l; constructor. Qed.

(** An argument that is written if it has a value. *)
Definition opt_arg {A} (name : string) (f : A -> astValue) (o : option A) : list (string * astValue) :=
  match o with Some x => [(name, f x)] | None => [] end.

Lemma parseArgs_app {A} (parse : A -> string * astValue -> result A) l l' a :
  parseArgs parse (l ++ l') a = (let! a := parseArgs parse l a in parseArgs parse l' a).
Proof. revert a. induction l as [|x l IH]; intros a; cbn; [done|]. destruct (parse a x); [apply IH|done|done]. Qed.

Definition opt_ok {A} (P : A -> Prop) (o : option A) : Prop := match o with Some x => P x | None => True end.

Lemma parse_orderArg l : Forall order_ok l -> parseOrderArg (AObject (print_order l)) = Ok l.
Proof. apply parse_order. Qed.

(** The optional argument [o] is parsed, after which [v] has been read. *)
Ltac parse_arg o v tac :=
  rewrite parseArgs_app;
  match goal with |- context [parseArgs ?p (opt_arg ?n ?g o) ?a] =>
    replace (parseArgs p (opt_arg n g o) a) with (@Ok _ v) by
      (destruct o; [cbn -[parseFilterArg rmap fmap parseUintArg parseOrderArg parseGroupBy]; tac|done])
  end; cbn [rbind].

Section Print.
Context `{GqlSchema}.

(** A literal for the conditions of a filter. *)
Variable lit : list (string * val) -> list (string * astValue).

(** The schema reads the literal of a filter as the filter. *)
Definition filter_ok (ty : result (option GqlInput)) (f : list (string * val)) : Prop :=
  exists t, ty = Ok (Some t) /\ ValueFromAST (AObject (lit f)) t = VMap f.

Definition print_filter (f : list (string * val)) : astValue := AObject (lit f).

Lemma parse_filter field f : filter_ok (getArgumentType field "filter") f -> parseFilterArg field (print_filter f) = Ok f.
Proof. intros (t & Ht & Hv). unfold parseFilterArg, NewFilter, ParseConditions. cbn [asObject print_filter rbind]. rewrite Ht. cbn [rbind]. by rewrite Hv. Qed.

(** ** Selects *)

Record head_ok (field : option fieldDef) (root : SelectionType) (h : rHead) : Prop := {
  hk_root : h.(rh_Root) = root;
  hk_limit : opt_ok is_u64 h.(rh_Limit);
  hk_offset : opt_ok is_u64 h.(rh_Offset);
  hk_order : opt_ok (Forall order_ok) h.(rh_OrderBy);
  hk_filter : opt_ok (filter_ok (getArgumentType field "filter")) h.(rh_Filter);
}.

Definition print_head (h : rHead) : list (string * astValue) :=
  opt_arg "filter" print_filter h.(rh_Filter) ++ opt_arg "dockeys" (fun l => AList (AString <$> l)) h.(rh_DocKeys) ++ opt_arg "cid" AString h.(rh_CID) ++
  opt_arg "limit" AUint h.(rh_Limit) ++ opt_arg "offset" AUint h.(rh_Offset) ++ opt_arg "order" (fun l => AObject (print_order l)) h.(rh_OrderBy) ++
  opt_arg "groupBy" (fun l => AList (AEnum <$> l)) h.(rh_GroupBy) ++ opt_arg "showDeleted" ABool (Some h.(rh_ShowDeleted)).

Lemma parse_head field root h :
  head_ok field root h -> parseArgs (parseSelectArg field) (print_head h) (mkRHead h.(rh_Field) None None root None None None None None false) = Ok h.
Proof.
  destruct h as [f keys cid root' limit offset order group filter deleted]. intros [Hr Hl Ho Hor Hf]. cbn in *. subst root'. unfold print_head. cbn [rh_Filter rh_DocKeys rh_CID rh_Limit rh_Offset rh_OrderBy rh_GroupBy rh_ShowDeleted].
  parse_arg filter (mkRHead f None None root None None None None filter false) ltac:(by rewrite parse_filter).
  parse_arg keys (mkRHead f keys None root None None None None filter false) ltac:(by rewrite parse_strings).
  parse_arg cid (mkRHead f keys cid root None None None None filter false) ltac:(done).
  parse_arg limit (mkRHead f keys cid root limit None None None filter false) ltac:(by rewrite parseUintArg_AUint).
  parse_arg offset (mkRHead f keys cid root limit offset None None filter false) ltac:(by rewrite parseUintArg_AUint).
  parse_arg order (mkRHead f keys cid root limit offset order None filter false) ltac:(by rewrite parse_orderArg).
  parse_arg group (mkRHead f keys cid root limit offset order group filter false) ltac:(by rewrite parse_group).
  done.
Qed.

(** ** Aggregates *)

(** A direction alone, or conditions. *)
Definition print_agg_order (l : list rOrderCondition) : astValue :=
  match l with [mkROrder [] d] => AEnum d | _ => AObject (print_order l) end.

Definition agg_order_ok (l : list rOrderCondition) : Prop := (exists d, l = [mkROrder [] d]) \/ Forall order_ok l.

(** The type of the filter of a target. *)
Definition target_filter_type (parent : GqlObject) (name host : string) : result (option GqlInput) :=
  let! argType := getArgumentType (GetFieldDef parent name) host in
  Ok (match argType with
      | Some t => match InputFields t with Some fields => getArgumentTypeFromInput fields "filter" | None => None end
      | None => None
      end).

(** A target is a host by name, or an object with the name of a child. *)
Definition target_prints (parent : GqlObject) (name : string) (t : rAggregateTarget) : Prop :=
  match t.(rt_ChildName) with
  | None => t = mkRTarget t.(rt_HostName) None None None None None
  | Some _ =>
      opt_ok is_u64 t.(rt_Limit) /\ opt_ok is_u64 t.(rt_Offset) /\ opt_ok agg_order_ok t.(rt_OrderBy) /\
      opt_ok (filter_ok (target_filter_type parent name t.(rt_HostName))) t.(rt_Filter)
  end.

Definition print_target (t : option rAggregateTarget) : string * astValue :=
  match t with
  | None => ("target", ANull)
  | Some t =>
      match t.(rt_ChildName) with
      | None => ("target", AString t.(rt_HostName))
      | Some c =>
          (t.(rt_HostName), AObject (("field", AString c) :: opt_arg "filter" print_filter t.(rt_Filter) ++ opt_arg "limit" AUint t.(rt_Limit) ++
             opt_arg "offset" AUint t.(rt_Offset) ++ opt_arg "order" print_agg_order t.(rt_OrderBy)))
      end
  end.

Lemma parse_agg_order l : agg_order_ok l -> parseAggregateOrder (print_agg_order l) = Ok (Some l).
Proof.
  intros [[d ->]|Hl]; [done|]. unfold print_agg_order.
  assert (parseAggregateOrder (AObject (print_order l)) = Ok (Some l)) as E by (unfold parseAggregateOrder; by rewrite parse_order).
  by destruct l as [|[[|f fs] d] [|c l]].
Qed.

Lemma parse_agg_filter parent name host f :
  filter_ok (target_filter_type parent name host) f -> parseAggregateFilter parent name host (print_filter f) = Ok f.
Proof.
  intros (t & Ht & Hv). unfold target_filter_type in Ht. unfold parseAggregateFilter. destruct (getArgumentType _ host) as [a| |]; [|done|done].
  cbn [rbind] in *. destruct a as [a|]; [|done]. cbn in Ht. destruct (InputFields a) as [fs|]; [|done]. cbn in Ht. injection Ht as ->.
  unfold NewFilter, ParseConditions. cbn [print_filter]. by rewrite Hv.
Qed.

Lemma parse_target parent name t : opt_ok (target_prints parent name) t -> parseTarget parent name (print_target t) = Ok t.
Proof.
  destruct t as [[host child limit offset order filter]|]; [|done]. cbn [opt_ok]. unfold target_prints, print_target. cbn [rt_ChildName rt_HostName rt_Limit rt_Offset rt_OrderBy rt_Filter].
  destruct child as [c|]; [|intros [= -> -> -> ->]; done]. intros (Hl & Ho & Hor & Hf). unfold parseTarget. cbn [fst snd].
  set (fields := _ :: _).
  assert (tryGet fields "field" = Some (AString c)) as -> by done.
  assert (tryGet fields "filter" = print_filter <$> filter) as -> by (destruct filter, limit, offset, order; reflexivity).
  assert (tryGet fields "limit" = AUint <$> limit) as -> by (destruct filter, limit, offset, order; reflexivity).
  assert (tryGet fields "offset" = AUint <$> offset) as -> by (destruct filter, limit, offset, order; reflexivity).
  assert (tryGet fields "order" = print_agg_order <$> order) as -> by (destruct filter, limit, offset, order; reflexivity).
  assert (optional (parseAggregateFilter parent name host) (print_filter <$> filter) = Ok filter) as ->.
  { destruct filter; [|done]. cbn [optional fmap option_fmap option_map]. by rewrite parse_agg_filter. }
  assert (forall o, opt_ok is_u64 o -> optional parseUintArg (AUint <$> o) = Ok o) as Hu.
  { intros [x|] Hx; [|done]. cbn [optional fmap option_fmap option_map]. by rewrite parseUintArg_AUint. }
  rewrite !Hu by done. cbn [rbind]. destruct order as [l|]; [|done]. cbn [fmap option_fmap option_map]. by rewrite parse_agg_order.
Qed.

(** ** Selections *)

(** A selection that conforms to the schema, at an object and below a root. *)
Fixpoint sel_ok (root : SelectionType) (parent : GqlObject) (s : selection) {struct s} : Prop :=
  match s with
  | SelNil => True
  | SelField f => isAggregateName f.(rf_Name) = false
  | SelAggregate a => isAggregateName a.(ra_Field).(rf_Name) = true /\ Forall (opt_ok (target_prints parent a.(ra_Field).(rf_Name))) a.(ra_Targets)
  | SelSelect h fields =>
      let name := h.(rh_Field).(rf_Name) in
      let subroot := if String.eqb name VersionFieldName then CommitSelection else root in
      isAggregateName name = false /\ head_ok (GetFieldDef parent name) subroot h /\
      exists o, typeFromFieldDef (GetFieldDef parent name) = Ok o /\
        (fix all l := match l with [] => True | s :: l => sel_ok subroot o s /\ all l end) fields
  end.

Fixpoint print_sel (s : selection) : astNode :=
  match s with
  | SelNil => AFragment
  | SelField f => AField f.(rf_Name) f.(rf_Alias) [] None
  | SelAggregate a => AField a.(ra_Field).(rf_Name) a.(ra_Field).(rf_Alias) (print_target <$> a.(ra_Targets)) None
  | SelSelect h fields => AField h.(rh_Field).(rf_Name) h.(rh_Field).(rf_Alias) (print_head h) (Some (print_sel <$> fields))
  end.

Definition parses (s : selection) : Prop := forall root parent, sel_ok root parent s -> parseSelection root parent (print_sel s) = Ok s.

Lemma parse_fields root parent fields :
  Forall parses fields -> (fix all l := match l with [] => True | s :: l => sel_ok root parent s /\ all l end) fields ->
  parseSelectFields root parent (print_sel <$> fields) = Ok fields.
Proof.
  intros Hp Hall. apply rmap_print. induction Hp as [|s fields Hs _ IH]; [constructor|]. destruct Hall as [H1 H2]. constructor; [by apply Hs|by apply IH].
Qed.

Lemma parse_aggregate parent a :
  Forall (opt_ok (target_prints parent a.(ra_Field).(rf_Name))) a.(ra_Targets) ->
  parseAggregate parent a.(ra_Field).(rf_Name) a.(ra_Field).(rf_Alias) (print_target <$> a.(ra_Targets)) = Ok a.
Proof.
  intros Ht. unfold parseAggregate. rewrite rmap_print; [by destruct a as [[] ?]|]. eapply Forall_impl; [exact Ht|]. intros t. apply parse_target.
Qed.

Lemma parse_select parent root h fields o :
  Forall parses fields -> head_ok (GetFieldDef parent h.(rh_Field).(rf_Name)) root h -> typeFromFieldDef (GetFieldDef parent h.(rh_Field).(rf_Name)) = Ok o ->
  (fix all l := match l with [] => True | s :: l => sel_ok root o s /\ all l end) fields ->
  parseSelect root parent h.(rh_Field).(rf_Name) h.(rh_Field).(rf_Alias) (print_head h) (Some (print_sel <$> fields)) = Ok (mkRSelect h fields).
Proof.
  intros Hp Hh Ho Hall. unfold parseSelect, parseSelect_by.
  replace (mkRField (rf_Name (rh_Field h)) (rf_Alias (rh_Field h))) with (rh_Field h) by by destruct (rh_Field h).
  rewrite (parse_head _ _ _ Hh). cbn [rbind]. rewrite Ho. cbn [rbind]. by rewrite parse_fields.
Qed.

Lemma parse_selection s : parses s.
Proof.
  induction s as [f|h fields IH|a|] using selection_ind'; intros root parent.
  - cbn. intros ->. by destruct f.
  - cbn [sel_ok print_sel parseSelection]. intros (Ha & Hh & o & Ho & Hall). rewrite Ha.
    pose proof (parse_select _ _ _ _ _ IH Hh Ho Hall) as E. unfold parseSelect in E. unfold parseSelectFields in E. by rewrite E.
  - cbn [sel_ok print_sel parseSelection]. intros [-> Ht]. by rewrite parse_aggregate.
  - done.
Qed.

Definition fields_ok (root : SelectionType) (o : GqlObject) : list selection -> Prop :=
  fix all l := match l with [] => True | s :: l => sel_ok root o s /\ all l end.

Lemma parse_all_fields root o fields : fields_ok root o fields -> parseSelectFields root o (print_sel <$> fields) = Ok fields.
Proof. apply parse_fields. apply Forall_forall. intros s _. apply parse_selection. Qed.

(** ** Commits *)

Record commit_ok (c : rCommitSelect) : Prop := {
  ck_name : isCommitQuery c.(rc_Field).(rf_Name) = true;
  ck_latest : c.(rc_Field).(rf_Name) = LatestCommitsName -> c.(rc_Depth) = Some 1 /\ c.(rc_FieldID) <> None;
  ck_depth : opt_ok is_u64 c.(rc_Depth);
  ck_limit : opt_ok is_u64 c.(rc_Limit);
  ck_offset : opt_ok is_u64 c.(rc_Offset);
  ck_order : opt_ok (Forall order_ok) c.(rc_OrderBy);
  ck_fields : exists o, typeFromFieldDef (GetFieldDef QueryType c.(rc_Field).(rf_Name)) = Ok o /\ fields_ok CommitSelection o c.(rc_Fields);
}.

Definition print_commit (c : rCommitSelect) : astNode :=
  AField c.(rc_Field).(rf_Name) c.(rc_Field).(rf_Alias)
    (opt_arg "dockey" AString c.(rc_DocKey) ++ opt_arg "fieldId" AString c.(rc_FieldID) ++ opt_arg "cid" AString c.(rc_Cid) ++ opt_arg "depth" AUint c.(rc_Depth) ++
     opt_arg "limit" AUint c.(rc_Limit) ++ opt_arg "offset" AUint c.(rc_Offset) ++ opt_arg "order" (fun l => AObject (print_order l)) c.(rc_OrderBy) ++
     opt_arg "groupBy" (fun l => AList (AEnum <$> l)) c.(rc_GroupBy) ++ []) (Some (print_sel <$> c.(rc_Fields))).

Lemma parse_commit c : commit_ok c -> parseQuerySelection (print_commit c) = Ok (inl (OpCommit c)).
Proof.
  intros [Hn Hlat Hd Hl Ho Hor (o & Hty & Hf)]. unfold parseQuerySelection, print_commit. rewrite Hn. unfold parseCommitSelect. rewrite Hty.
  destruct c as [f key fieldID cid depth limit offset order group fields]. cbn [rc_Field rc_DocKey rc_FieldID rc_Cid rc_Depth rc_Limit rc_Offset rc_OrderBy rc_GroupBy rc_Fields] in *.
  replace (mkRField (rf_Name f) (rf_Alias f)) with f by by destruct f.
  parse_arg key (mkRCommit f key None None None None None None None []) ltac:(done).
  parse_arg fieldID (mkRCommit f key fieldID None None None None None None []) ltac:(done).
  parse_arg cid (mkRCommit f key fieldID cid None None None None None []) ltac:(done).
  parse_arg depth (mkRCommit f key fieldID cid depth None None None None []) ltac:(by rewrite parseUintArg_AUint).
  parse_arg limit (mkRCommit f key fieldID cid depth limit None None None []) ltac:(by rewrite parseUintArg_AUint).
  parse_arg offset (mkRCommit f key fieldID cid depth limit offset None None []) ltac:(by rewrite parseUintArg_AUint).
  parse_arg order (mkRCommit f key fieldID cid depth limit offset order None []) ltac:(by rewrite parse_orderArg).
  parse_arg group (mkRCommit f key fieldID cid depth limit offset order group []) ltac:(by rewrite parse_group).
  cbn [parseArgs rbind]. rewrite (parse_all_fields _ _ _ Hf). cbn [rbind].
  assert (latestCommits (mkRCommit f key fieldID cid depth limit offset order group []) = mkRCommit f key fieldID cid depth limit offset order group []) as ->; [|done].
  unfold latestCommits. destruct (String.eqb_spec (rf_Name f) LatestCommitsName) as [E|_]; [|done]. destruct (Hlat E) as [-> Hid]. by destruct fieldID.
Qed.

(** ** Queries *)

(** The select around an aggregate at the top. *)
Definition aggregate_select (a : rAggregate) : rSelect :=
  mkRSelect (mkRHead a.(ra_Field) None None ObjectSelection None None None None None false) [SelAggregate a].

Inductive query_ok : opSelection -> Prop :=
  | qk_nil : query_ok OpNil
  | qk_commit c : commit_ok c -> query_ok (OpCommit c)
  | qk_aggregate a : isAggregateName a.(ra_Field).(rf_Name) = true -> Forall (opt_ok (target_prints QueryType a.(ra_Field).(rf_Name))) a.(ra_Targets) ->
      query_ok (OpSelect (aggregate_select a))
  | qk_select h fields : isCommitQuery h.(rh_Field).(rf_Name) = false -> h.(rh_Field).(rf_Name) <> VersionFieldName ->
      sel_ok ObjectSelection QueryType (SelSelect h fields) -> Validate (mkRSelect h fields) = [] -> query_ok (OpSelect (mkRSelect h fields)).

Definition print_query (s : opSelection) : astNode :=
  match s with
  | OpCommit c => print_commit c
  | OpSelect s => if isAggregateName (rs_Name s) then print_sel (default SelNil (head s.(rs_Fields))) else print_sel (to_selection s)
  | _ => AFragment
  end.

Lemma aggregate_not_commit name : isAggregateName name = true -> isCommitQuery name = false.
Proof. unfold isAggregateName. rewrite bool_decide_eq_true, !elem_of_cons, elem_of_nil. by intros [->|[->|[->|?]]]. Qed.

Lemma parse_query s : query_ok s -> parseQuerySelection (print_query s) = Ok (inl s).
Proof.
  intros [|c Hc|a Hn Ht|h fields Hc Hv Hs Hval].
  - done.
  - by apply parse_commit.
  - unfold print_query, rs_Name. cbn [aggregate_select rs_head rh_Field rs_Fields head hd_error default id]. rewrite Hn. cbn [print_sel parseQuerySelection id].
    rewrite aggregate_not_commit, Hn by done. by rewrite parse_aggregate.
  - cbn [sel_ok] in Hs. destruct Hs as (Ha & Hh & o & Ho & Hall). apply String.eqb_neq in Hv. rewrite Hv in *.
    unfold print_query, rs_Name. cbn [rs_head rh_Field]. rewrite Ha. cbn [to_selection rs_head rs_Fields print_sel parseQuerySelection]. rewrite Hc, Ha.
    rewrite (parse_select _ ObjectSelection h fields o); [|apply Forall_forall; intros x _; apply parse_selection|done..].
    cbn [one_error rbinds rbind]. by rewrite Hval.
Qed.

(** ** Mutations *)

Definition mutation_verb (t : MutationType) : string :=
  match t with NoneMutationType => "" | CreateObjects => "create" | UpdateObjects => "update" | DeleteObjects => "delete" end.

Record mutation_ok (m : rMutation) : Prop := {
  mk_type : m.(rm_Type) <> NoneMutationType;
  mk_name : m.(rm_Field).(rf_Name) = mutation_verb m.(rm_Type) +:+ String "_" m.(rm_Collection);
  mk_filter : opt_ok (filter_ok (getArgumentType (GetFieldDef MutationObject m.(rm_Field).(rf_Name)) "filter")) m.(rm_Filter);
  mk_fields : exists o, typeFromFieldDef (GetFieldDef MutationObject m.(rm_Field).(rf_Name)) = Ok o /\ fields_ok ObjectSelection o m.(rm_Fields);
}.

Definition print_mutation (m : rMutation) : astNode :=
  AField m.(rm_Field).(rf_Name) m.(rm_Field).(rf_Alias)
    (opt_arg "ids" (fun l => AList (AString <$> l)) m.(rm_IDs) ++ opt_arg "filter" print_filter m.(rm_Filter) ++
     (if String.eqb m.(rm_Data) "" then [] else [("data", AString m.(rm_Data))])) (Some (print_sel <$> m.(rm_Fields))).

Lemma parse_ids l : rmap (fun v => match v with AString s => Ok s | _ => Err ErrUnexpectedType end) (AString <$> l) = Ok l.
Proof. apply rmap_print. by induction l; constructor. Qed.

Lemma parse_mutation m :
  mutation_ok m -> parseMutation MutationObject m.(rm_Field).(rf_Name) m.(rm_Field).(rf_Alias)
    (opt_arg "ids" (fun l => AList (AString <$> l)) m.(rm_IDs) ++ opt_arg "filter" print_filter m.(rm_Filter) ++
     (if String.eqb m.(rm_Data) "" then [] else [("data", AString m.(rm_Data))])) (Some (print_sel <$> m.(rm_Fields))) = Ok m.
Proof.
  intros [Ht Hn Hf (o & Hty & Hfs)]. unfold parseMutation. rewrite Hty.
  assert (Split (rf_Name (rm_Field m)) "_" = mutation_verb (rm_Type m) :: Split (rm_Collection m) "_") as ->.
  { rewrite Hn, Split_concat. by destruct (rm_Type m). }
  assert (mutationNameToType (mutation_verb (rm_Type m)) = Some (rm_Type m)) as -> by by destruct (rm_Type m).
  rewrite Join_Split. destruct m as [f type collection ids filter data fields].
  cbn [rm_Field rm_Type rm_Collection rm_IDs rm_Filter rm_Data rm_Fields] in *. replace (mkRField (rf_Name f) (rf_Alias f)) with f by by destruct f.
  parse_arg ids (mkRMutation f type collection ids None "" []) ltac:(by rewrite parse_ids).
  parse_arg filter (mkRMutation f type collection ids filter "" []) ltac:(by rewrite parse_filter).
  assert (parseArgs (parseMutationArg (GetFieldDef MutationObject (rf_Name f))) (if String.eqb data "" then [] else [("data", AString data)])
    (mkRMutation f type collection ids filter "" []) = Ok (mkRMutation f type collection ids filter data [])) as ->.
  { destruct (String.eqb_spec data "") as [->|E%String.eqb_neq]; [done|]. cbn. by rewrite E. }
  cbn [rbind]. by rewrite (parse_all_fields _ _ _ Hfs).
Qed.

(** ** Subscriptions *)

Record subscription_ok (s : rSubscription) : Prop := {
  sk_collection : s.(rsub_Collection) = s.(rsub_Field).(rf_Name);
  sk_filter : opt_ok (filter_ok (getArgumentType (GetFieldDef QueryType s.(rsub_Field).(rf_Name)) "filter")) s.(rsub_Filter);
  sk_fields : exists o, typeFromFieldDef (GetFieldDef QueryType s.(rsub_Field).(rf_Name)) = Ok o /\ fields_ok ObjectSelection o s.(rsub_Fields);
}.

Definition print_subscription (s : rSubscription) : astNode :=
  AField s.(rsub_Field).(rf_Name) s.(rsub_Field).(rf_Alias) (opt_arg "filter" print_filter s.(rsub_Filter)) (Some (print_sel <$> s.(rsub_Fields))).

Lemma parse_subscription s :
  subscription_ok s -> parseSubscription s.(rsub_Field).(rf_Name) s.(rsub_Field).(rf_Alias) (opt_arg "filter" print_filter s.(rsub_Filter)) (Some (print_sel <$> s.(rsub_Fields))) = Ok s.
Proof.
  intros [Hc Hf (o & Hty & Hfs)]. unfold parseSubscription. rewrite Hty. destruct s as [f collection filter fields]. cbn [rsub_Field rsub_Collection rsub_Filter rsub_Fields] in *.
  assert (parseArgs (parseSubscriptionArg (GetFieldDef QueryType (rf_Name f))) (opt_arg "filter" print_filter filter) None = Ok filter) as ->.
  { destruct filter as [x|]; [|done]. destruct Hf as (t & Ht & Hv). cbn [opt_arg parseArgs]. unfold parseSubscriptionArg. cbn [fst snd]. rewrite String.eqb_refl, Ht.
    cbn [rbind print_filter asObject]. unfold NewFilter, ParseConditions. by rewrite Hv. }
  cbn [rbind]. rewrite (parse_all_fields _ _ _ Hfs). cbn [rbind]. rewrite Hc. by destruct f.
Qed.

(** ** Requests *)

Definition explain_name (e : ExplainType) : string := match e with SimpleExplain => "simple" | ExecuteExplain => "execute" | DebugExplain => "debug" end.

Definition print_explain (e : option ExplainType) : list (option astDirective) :=
  match e with Some e => [Some (mkDirective "explain" [("type", AEnum (explain_name e))])] | None => [] end.

Lemma parse_explain e : parseDirectives (print_explain e) None = Ok e.
Proof. by destruct e as [[]|]. Qed.

Definition mutation_sel_ok (s : opSelection) : Prop := match s with OpMutation m => mutation_ok m | OpNil => True | _ => False end.
Definition subscription_sel_ok (s : opSelection) : Prop := match s with OpSubscription s => subscription_ok s | OpNil => True | _ => False end.

Definition print_op (s : opSelection) : astNode :=
  match s with OpMutation m => print_mutation m | OpSubscription s => print_subscription s | s => print_query s end.

Record request_ok (r : rRequest) : Prop := {
  rk_queries : Forall (fun op => Forall query_ok op.(od_Selections)) r.(rq_Queries);
  rk_mutations : Forall (fun op => Forall mutation_sel_ok op.(od_Selections)) r.(rq_Mutations);
  rk_subscriptions : Forall (fun op => Forall subscription_sel_ok op.(od_Selections)) r.(rq_Subscription);
}.

Definition print_operation (type : astOperation) (op : OperationDefinition) : astDefinition :=
  ADOperation type (print_explain op.(od_Explain)) (print_op <$> op.(od_Selections)).

Definition print_request (r : rRequest) : list astDefinition :=
  (print_operation OperationTypeQuery <$> r.(rq_Queries)) ++ (print_operation OperationTypeMutation <$> r.(rq_Mutations)) ++
  (print_operation OperationTypeSubscription <$> r.(rq_Subscription)).

Lemma rmaps_print {A B} (f : B -> results A) (g : A -> B) l : Forall (fun x => f (g x) = Ok (inl x)) l -> rmaps f (g <$> l) = Ok (inl l).
Proof. induction 1 as [|x l Hx _ IH]; [done|]. cbn. rewrite Hx. cbn. fold (rmaps f). by rewrite IH. Qed.

(** Definitions that are read one after the other. *)
Lemma parse_definitions {A} (p : A -> astDefinition) (add : rRequest -> A -> rRequest) (ok : A -> Prop) l r rest :
  (forall x r, ok x -> parseDefinition r (p x) = Ok (inl (add r x))) -> Forall ok l ->
  foldl (fun r def => rbinds r (fun r => parseDefinition r def)) (Ok (inl r)) ((p <$> l) ++ rest) =
  foldl (fun r def => rbinds r (fun r => parseDefinition r def)) (Ok (inl (foldl add r l))) rest.
Proof. intros Hp Hl. revert r. induction Hl as [|x l Hx _ IH]; intros r; [done|]. cbn. rewrite Hp by done. apply IH. Qed.

Lemma foldl_snoc {A} (get : rRequest -> list A) (add : rRequest -> A -> rRequest) l r :
  (forall r x, get (add r x) = get r ++ [x]) -> get (foldl add r l) = get r ++ l.
Proof. intros Ha. revert r. induction l as [|x l IH]; intros r; cbn; [by rewrite app_nil_r|]. by rewrite IH, Ha, <- app_assoc. Qed.

Lemma foldl_other {A B} (get : rRequest -> B) (add : rRequest -> A -> rRequest) l r : (forall r x, get (add r x) = get r) -> get (foldl add r l) = get r.
Proof. intros Ha. revert r. induction l as [|x l IH]; intros r; cbn; [done|]. by rewrite IH, Ha. Qed.

Definition add_query (r : rRequest) (op : OperationDefinition) : rRequest := mkRequest (r.(rq_Queries) ++ [op]) r.(rq_Mutations) r.(rq_Subscription).
Definition add_mutation (r : rRequest) (op : OperationDefinition) : rRequest := mkRequest r.(rq_Queries) (r.(rq_Mutations) ++ [op]) r.(rq_Subscription).
Definition add_subscription (r : rRequest) (op : OperationDefinition) : rRequest := mkRequest r.(rq_Queries) r.(rq_Mutations) (r.(rq_Subscription) ++ [op]).

Lemma parse_query_op r op :
  Forall query_ok op.(od_Selections) -> parseDefinition r (print_operation OperationTypeQuery op) = Ok (inl (add_query r op)).
Proof.
  intros Hq. cbn [print_operation parseDefinition]. unfold parseQueryOperationDefinition. rewrite rmaps_print.
  - cbn [rbinds rbind]. unfold query_directives. rewrite parse_explain. by destruct op.
  - eapply Forall_impl; [exact Hq|]. intros s Hs. rewrite <- (parse_query s Hs). destruct Hs; done.
Qed.

Lemma parse_mutation_op r op :
  Forall mutation_sel_ok op.(od_Selections) -> parseDefinition r (print_operation OperationTypeMutation op) = Ok (inl (add_mutation r op)).
Proof.
  intros Hm. cbn [print_operation parseDefinition]. unfold parseMutationOperationDefinition. rewrite rmap_print.
  - cbn [rbind]. rewrite parse_explain. by destruct op.
  - eapply Forall_impl; [exact Hm|]. intros [| |m| |] Hs; try done. cbn [print_op print_mutation]. by rewrite parse_mutation.
Qed.

Lemma parse_subscription_op r op :
  Forall subscription_sel_ok op.(od_Selections) -> parseDefinition r (print_operation OperationTypeSubscription op) = Ok (inl (add_subscription r op)).
Proof.
  intros Hm. cbn [print_operation parseDefinition]. unfold parseSubscriptionOperationDefinition. rewrite rmap_print.
  - cbn [rbind]. rewrite parse_explain. by destruct op.
  - eapply Forall_impl; [exact Hm|]. intros [| | |s|] Hs; try done. cbn [print_op print_subscription]. by rewrite parse_subscription.
Qed.

(** C30: Every request that conforms to the schema, with queries, commits, aggregates, mutations
    and subscriptions, all their arguments and nested selections, can be written as a document,
    and parsing that document gives exactly the request. *)
Theorem ParseRequest_print r : request_ok r -> ParseRequest (Some (print_request r)) = Ok (inl r).
Proof.
  intros [Hq Hm Hs]. unfold ParseRequest, print_request.
  rewrite (parse_definitions _ add_query _ _ _ _ (fun op r => parse_query_op r op) Hq).
  rewrite (parse_definitions _ add_mutation _ _ _ _ (fun op r => parse_mutation_op r op) Hm).
  rewrite <- (app_nil_r (print_operation OperationTypeSubscription <$> _)).
  rewrite (parse_definitions _ add_subscription _ _ _ _ (fun op r => parse_subscription_op r op) Hs). cbn [foldl]. do 2 f_equal.
  set (r1 := foldl add_query _ _). set (r2 := foldl add_mutation _ _). set (r3 := foldl add_subscription _ _).
  assert (rq_Queries r3 = rq_Queries r /\ rq_Mutations r3 = rq_Mutations r /\ rq_Subscription r3 = rq_Subscription r) as (E1 & E2 & E3).
  { unfold r3, r2, r1. rewrite (foldl_snoc rq_Subscription add_subscription), !(foldl_other rq_Queries add_subscription), !(foldl_other rq_Mutations add_subscription) by done.
    rewrite (foldl_snoc rq_Mutations add_mutation), !(foldl_other rq_Queries add_mutation), !(foldl_other rq_Subscription add_mutation) by done.
    by rewrite (foldl_snoc rq_Queries add_query), !(foldl_other rq_Mutations add_query), !(foldl_other rq_Subscription add_query) by done. }
  destruct r3, r. cbn in *. by subst.
Qed.
End Print.
