(* ===== verification/MapperExamples.v ===== *)
(** * The mapper: examples

    Requests for authors and their books: instances of the theorems on the mapper, and requests
    which it does not map as they are meant. *)

From S2P Require Import Prelude GoStd Values Desc Schema DocMap Store Connor Request DocOps Mapper MapperSpec MapperFields MapperAverage MapperFilter.

Module MapperExamples.

Definition author : CollectionDescription := mkCollectionDescription "Author" 1 (mkSchema "a" "a" "Author"
  [mkField "_key" 0 FieldKind_DocKey "" "" 0 0; mkField "age" 1 FieldKind_INT "" "" 1 0; mkField "name" 2 FieldKind_STRING "" "" 1 0;
   mkField "published" 3 FieldKind_FOREIGN_OBJECT_ARRAY "Book" "author_book" 0 10; mkField "scores" 4 FieldKind_INT_ARRAY "" "" 1 0]).

Definition book : CollectionDescription := mkCollectionDescription "Book" 2 (mkSchema "b" "b" "Book"
  [mkField "_key" 0 FieldKind_DocKey "" "" 0 0; mkField "author" 1 FieldKind_FOREIGN_OBJECT "Author" "author_book" 0 137;
   mkField "author_id" 2 FieldKind_DocKey "" "" 1 64; mkField "rating" 3 FieldKind_FLOAT "" "" 1 0; mkField "name" 4 FieldKind_STRING "" "" 1 0]).

Definition repo (name : string) : result CollectionDescription :=
  if String.eqb name "Author" then Ok author else if String.eqb name "Book" then Ok book else Err ErrNotFound.

(** The descriptions number their fields as the mapper needs it. *)
Definition desc_okb (d : CollectionDescription) : bool :=
  let fs := d.(cd_Schema).(sd_Fields) in
  forallb (fun f => (0 <=? f.(fd_ID)) && (IsObject f || negb (f.(fd_ID) =? 0) || String.eqb f.(fd_Name) KeyFieldName) &&
    forallb (fun f' => IsObject f || IsObject f' || negb (f.(fd_ID) =? f'.(fd_ID)) || String.eqb f.(fd_Name) f'.(fd_Name)) fs) fs.

Lemma desc_okb_ok d : desc_okb d = true -> desc_ok d.
Proof.
  unfold desc_okb. rewrite forallb_forall. intros H.
  assert (forall f, f ∈ d.(cd_Schema).(sd_Fields) -> 0 <= fd_ID f /\ (IsObject f || negb (fd_ID f =? 0) || String.eqb (fd_Name f) KeyFieldName) = true /\
    forall f', f' ∈ d.(cd_Schema).(sd_Fields) -> (IsObject f || IsObject f' || negb (fd_ID f =? fd_ID f') || String.eqb (fd_Name f) (fd_Name f')) = true) as Hf.
  { intros f Hin%list_elem_of_In%H. rewrite !andb_true_iff, forallb_forall in Hin. destruct Hin as [[H1%Z.leb_le H2] H3].
    split; [done|]. split; [done|]. intros f' Hin'%list_elem_of_In. by apply H3. }
  split.
  - intros f Hin. by apply Hf.
  - intros f Hin Ho E. destruct (Hf f Hin) as (_ & H2 & _). rewrite Ho, E in H2. by apply String.eqb_eq.
  - intros f f' Hin Hin' Ho Ho' E. destruct (Hf f Hin) as (_ & _ & H3). specialize (H3 f' Hin'). rewrite Ho, Ho', E, Z.eqb_refl in H3. by apply String.eqb_eq.
Qed.

Lemma repo_desc_ok name d : repo name = Ok d -> desc_ok d.
Proof.
  unfold repo. destruct (String.eqb name "Author"); [intros [= <-]; by apply desc_okb_ok|].
  destruct (String.eqb name "Book"); [intros [= <-]; by apply desc_okb_ok|done].
Qed.

Definition fld (name : string) : selection := SelField (mkRField name None).
Definition hd (name : string) (filter : option (list (string * val))) (order : option (list rOrderCondition)) : rHead :=
  mkRHead (mkRField name None) None None ObjectSelection None None order None filter false.
Definition avg (alias : string) (target : string) (child : string) (limit : option Z) (filter : option (list (string * val))) : selection :=
  SelAggregate (mkRAggregate (mkRField "_avg" (Some alias)) [Some (mkRTarget target (Some child) limit None None filter)]).

(** Authors with a book that is rated above 3, their books, and the average of the ratings. *)
Definition authors : rSelect :=
  mkRSelect (hd "Author" (Some [("published", VMap [("rating", VMap [("_gt", VInt KInt64 3)])])]) None)
    [fld "name"; SelSelect (hd "published" None None) [fld "rating"]; avg "average" "published" "rating" None None].

Definition is_ok {A} (r : result A) : bool := match r with Ok _ => true | _ => false end.
Definition is_panic {A} (r : result A) : bool := match r with Panic => true | _ => false end.

Definition ok_or {A} (x : A) (r : result A) : A := match r with Ok y => y | _ => x end.

Lemma ok_or_ok {A} (x : A) r : is_ok r = true -> r = Ok (ok_or x r).
Proof. by destruct r. Qed.

Definition no_select : Select := mkSelect (mkInfo (at_index 0 "") None None "") [].
Definition mapped : Select := ok_or no_select (ToSelect repo authors).

Lemma mapped_ok : ToSelect repo authors = Ok mapped.
Proof. apply ok_or_ok. by vm_compute. Qed.

Lemma ToSelect_terminates_witness : (fuel_for authors <= 7)%nat /\ unfold_select repo (fun _ _ _ => Panic) 7 0 authors "" = ToSelect repo authors.
Proof. split; [apply (bool_decide_eq_true_1 _); by vm_compute|]. apply (ToSelect_terminates repo). apply (bool_decide_eq_true_1 _). by vm_compute. Defined.

Lemma ToSelect_fields_witness :
  ToSelect repo authors = Ok mapped /\ exists m, sl_DocumentMapping mapped = Some m /\ Forall (field_ok m) mapped.(sl_Fields) /\ NoDup (join_idx mapped.(sl_Fields)).
Proof. split; [exact mapped_ok|]. exact (ToSelect_fields repo repo_desc_ok authors mapped mapped_ok). Defined.

(** A document of the mapped select: cells without documents, but for one book. *)
Definition mapping : DocumentMapping := default NewDocumentMapping (sl_DocumentMapping mapped).
Definition published_at : nat := List.hd 0%nat (indexes mapping "published").
Definition books : DocumentMapping := default NewDocumentMapping (child mapping published_at).
Definition a_book : Doc := mkDoc false (replicate (nextIndex books) (VInt KInt64 5)) 0.
Definition an_author : Doc := mkDoc false (<[published_at := VDocs [a_book]]> (replicate (nextIndex mapping) (VString "x"))) 0.

Lemma a_book_fits : fits books a_book.
Proof. constructor; [apply length_replicate|]. intros i v Hv. apply lookup_replicate in Hv as [-> _]. by constructor. Qed.

(** Cells without documents, but for one that has a child mapping. *)
Lemma one_join_fits m c i v l :
  child m i = Some c -> (forall d, d ∈ l -> fits c d) -> is_value v = true -> fits m (mkDoc false (<[i := VDocs l]> (replicate (nextIndex m) v)) 0).
Proof.
  intros Hc Hl Hv. constructor; [by rewrite length_insert, length_replicate|]. intros j w Hw. apply list_lookup_insert_Some in Hw as [(-> & <- & _)|[_ Hw]].
  - by eapply cf_docs.
  - apply lookup_replicate in Hw as [-> _]. by constructor.
Qed.

Lemma default_child m i : bool_decide (is_Some (child m i)) = true -> child m i = Some (default NewDocumentMapping (child m i)).
Proof. intros [c Hc]%bool_decide_eq_true. by rewrite Hc. Qed.

Lemma default_mapping s : bool_decide (is_Some (sl_DocumentMapping s)) = true -> sl_DocumentMapping s = Some (default NewDocumentMapping (sl_DocumentMapping s)).
Proof. intros [c Hc]%bool_decide_eq_true. by rewrite Hc. Qed.

Lemma an_author_fits : fits mapping an_author.
Proof.
  apply (one_join_fits mapping books published_at); [apply default_child; by vm_compute| |done].
  intros d ->%list_elem_of_singleton. apply a_book_fits.
Qed.

Lemma mapping_ok : sl_DocumentMapping mapped = Some mapping.
Proof. apply default_mapping. by vm_compute. Qed.

Lemma ToSelect_renders_witness : exists out, ToMap an_author mapping = Ok out /\ answers authors.(rs_Fields) out.
Proof. exact (ToSelect_renders repo repo_desc_ok authors mapped an_author mapping mapped_ok mapping_ok an_author_fits). Defined.

Definition aggregates_of (s : Select) : list Aggregate := omap (fun r => match r with RAggregate a => Some a | _ => None end) s.(sl_Fields).
Definition first_aggregate (s : Select) : Aggregate := List.hd (mkMAggregate (mkMField 0 "") [] []) (aggregates_of s).

Lemma first_aggregate_in s : negb (Nat.eqb (length (aggregates_of s)) 0) = true -> RAggregate (first_aggregate s) ∈ s.(sl_Fields).
Proof.
  intros Hl. unfold first_aggregate. destruct (aggregates_of s) as [|a l] eqn:E; [done|].
  assert (a ∈ aggregates_of s) as Hin by (rewrite E; by left). apply list_elem_of_omap in Hin as ([|b|] & Hb & E'); [done| |done]. by injection E' as <-.
Qed.

Definition average : Aggregate := first_aggregate mapped.

Lemma average_in : RAggregate average ∈ mapped.(sl_Fields).
Proof. apply first_aggregate_in. by vm_compute. Qed.

Lemma average_name : average.(ag_Field).(f_Name) = AverageFieldName.
Proof. by vm_compute. Qed.

Lemma ToSelect_toSelect g r : toSelect g (fuel_for r) 0 r "" = ToSelect g r.
Proof. done. Qed.

Lemma mapped_toSelect : toSelect repo (fuel_for authors) 0 authors "" = Ok mapped.
Proof. rewrite ToSelect_toSelect. exact mapped_ok. Qed.

#[local] Opaque mapped average.


(** A filter on the fields and on the books of authors. *)
Definition rated : list (string * val) :=
  [("published", VMap [("rating", VMap [("_gt", VInt KInt64 3)]); ("name", VMap [("_in", VList [VString "x"; VString "y"])])]);
   ("_or", VList [VMap [("name", VMap [("_eq", VString "x")])]; VMap [("age", VMap [("_lt", VInt KInt64 30); ("_ne", VNil)])]])].

Lemma select_ok_wf fields s m : select_ok fields s -> sl_DocumentMapping s = Some m -> all_wf m.
Proof. intros (m' & Hm & Hw & _) E. rewrite Hm in E. by injection E as <-. Qed.

Lemma mapping_wf : all_wf mapping.
Proof. exact (select_ok_wf _ mapped mapping (toSelect_ok repo repo_desc_ok _ _ _ _ mapped mapped_toSelect) mapping_ok). Qed.

Lemma rated_shaped : NoDup (fst <$> rated) /\ forallb (fun e => shaped e.1 e.2 mapping) rated = true.
Proof. split; [apply (bool_decide_eq_true_1 _); by vm_compute|by vm_compute]. Qed.

Lemma filter_round_trip_witness :
  exists f, ToFilter (Some rated) (Some mapping) = Ok (Some f) /\ f.(fl_ExternalConditions) = rated /\ Filter_ToMap f mapping = Ok rated.
Proof. exact (filter_round_trip rated mapping mapping_wf (proj1 rated_shaped) (proj2 rated_shaped)). Defined.

(** ** Requests that are not mapped as they are meant *)

Definition by_rating_of_author : rSelect := mkRSelect (hd "Book" None (Some [mkROrder ["author"; "published"; "rating"] "ASC"])) [fld "rating"].

Definition author_in_and : rSelect :=
  mkRSelect (hd "Book" (Some [("_and", VList [VMap [("author", VMap [("name", VMap [("_eq", VString "x")])])]])]) None) [fld "rating"].

Definition and_in_author : rSelect :=
  mkRSelect (hd "Book" (Some [("author", VMap [("_and", VList [VMap [("name", VMap [("_eq", VString "x")])]])])]) None) [fld "rating"].

Definition null_rating : rSelect := mkRSelect (hd "Author" None None) [avg "a" "published" "rating" None (Some [("rating", VNil)])].

Definition two_averages : rSelect := mkRSelect (hd "Author" None None) [avg "first" "published" "rating" (Some 1) None; avg "all" "published" "rating" None None].

Definition grouped_books : rHead := mkRHead (mkRField "published" None) None None ObjectSelection None None None (Some ["rating"]) None false.
Definition count_grouped : rSelect :=
  mkRSelect (hd "Author" None None) [SelSelect grouped_books [fld "rating"]; SelAggregate (mkRAggregate (mkRField "_count" None) [Some (mkRTarget "published" None None None None None)])].

Definition filter_of (r : result Select) : list (FilterKey * val) :=
  match r with Ok s => match s.(sl_info).(si_Targetable).(tg_Filter) with Some f => f.(fl_Conditions) | None => [] end | _ => [] end.

Definition deps_of (r : result Select) : list (list nat) := match r with Ok s => ag_Dependencies <$> List.filter (fun a => String.eqb a.(ag_Field).(f_Name) AverageFieldName) (aggregates_of s) | _ => [] end.
Definition limits_of (r : result Select) : list (option Z) :=
  match r with
  | Ok s => flat_map (fun a => if String.eqb a.(ag_Field).(f_Name) AverageFieldName then (fun t => lm_Limit <$> t.(at_Targetable).(tg_Limit)) <$> a.(ag_AggregateTargets) else []) (aggregates_of s)
  | _ => []
  end.
Definition grouped_targets (r : result Select) : list bool :=
  match r with Ok s => flat_map (fun a => (fun t => bool_decide (is_Some t.(at_Targetable).(tg_GroupBy))) <$> a.(ag_AggregateTargets)) (aggregates_of s) | _ => [] end.

End MapperExamples.
