(* ===== verification/RequestExamples.v ===== *)
(** * Requests: examples

    A schema with users and their books, a request that is parsed back, and documents which the
    parser does not treat as they are meant. *)

From S2P Require Import Prelude GoStd Values Desc Schema DocMap Store Connor Request DocOps Mapper MapperExamples RequestParser RequestPrint.

Module RequestExamples.

(** Literals are read by their kinds. *)
Fixpoint read_literal (v : astValue) : val :=
  match v with
  | AInt s => match ParseInt s with Ok z => VInt KInt64 z | _ => VNil end
  | AFloat _ | ANull | AVariable _ => VNil
  | AString s | AEnum s => VString s
  | ABool b => VBool b
  | AList l => VList (read_literal <$> l)
  | AObject fields => VMap ((fun e => (e.1, read_literal e.2)) <$> fields)
  end.

Fixpoint write_literal (v : val) : astValue :=
  match v with
  | VBool b => ABool b
  | VInt _ z => AInt (Sprint z)
  | VString s => AString s
  | VList l => AList (write_literal <$> l)
  | VMap l => AObject ((fun e => (e.1, write_literal e.2)) <$> l)
  | _ => ANull
  end.

Definition lit (f : list (string * val)) : list (string * astValue) := (fun e => (e.1, write_literal e.2)) <$> f.

(** Objects and inputs by their names. *)
Definition input_fields (i : string) : option (list (string * string)) := if String.eqb i "CountArg" then Some [("filter", "AuthorFilter"); ("limit", "Int")] else None.

Definition field_def (o name : string) : option (FieldDefinition string string) :=
  if String.eqb o "Query" then
    if String.eqb name "Author" then Some (mkFieldDef [("filter", "AuthorFilter"); ("limit", "Int")] (OutList (OutObject "Author")))
    else if String.eqb name "commits" then Some (mkFieldDef [] (OutList (OutObject "Commit")))
    else if String.eqb name "latestCommits" then Some (mkFieldDef [] (OutList (OutObject "Commit")))
    else if String.eqb name "_count" then Some (mkFieldDef [("Author", "CountArg")] OutOther)
    else None
  else if String.eqb o "Mutation" then Some (mkFieldDef [("filter", "AuthorFilter")] (OutObject "Author"))
  else if String.eqb name "published" then Some (mkFieldDef [("filter", "BookFilter")] (OutList (OutObject "Book")))
  else if String.eqb name "_version" then Some (mkFieldDef [] (OutList (OutObject "Commit")))
  else if String.eqb name "links" then Some (mkFieldDef [] (OutList (OutObject "Link")))
  else None.

#[export] Instance schema : GqlSchema := {|
  GqlObject := string; GqlInput := string; QueryType := "Query"; MutationObject := "Mutation";
  GetFieldDef := field_def; InputFields := input_fields; ValueFromAST v _ := read_literal v |}.

(** A request of every kind. *)
Definition rating_filter : list (string * val) := [("rating", VMap [("_gt", VInt KInt64 3)])].

Definition versions : selection :=
  SelSelect (mkRHead (mkRField "_version" None) None None CommitSelection None None None None None false)
    [SelField (mkRField "cid" None); SelSelect (mkRHead (mkRField "links" None) None None CommitSelection None None None None None false) [SelField (mkRField "name" None)]].

Definition authors_head : rHead :=
  mkRHead (mkRField "Author" (Some "writers")) (Some ["bae-1"; "bae-2"]) (Some "cid") ObjectSelection (Some 10) (Some 5) (Some [mkROrder ["published"; "rating"] "DESC"; mkROrder ["name"] "ASC"])
    (Some ["name"]) (Some [("published", VMap rating_filter)]) true.

Definition authors_fields : list selection :=
  [SelField (mkRField "name" (Some "n")); SelSelect (mkRHead (mkRField "published" None) None None ObjectSelection (Some 3) None None None (Some rating_filter) false) [SelField (mkRField "rating" None)];
   SelAggregate (mkRAggregate (mkRField "_avg" None) [Some (mkRTarget "published" (Some "rating") (Some 2) None (Some [mkROrder ["rating"] "ASC"]) None)]);
   SelAggregate (mkRAggregate (mkRField "_sum" (Some "s")) [Some (mkRTarget "scores" None None None None None)]); versions].

Definition everything : rRequest :=
  mkRequest
    [mkOperation [OpSelect (mkRSelect authors_head authors_fields);
                  OpSelect (aggregate_select (mkRAggregate (mkRField "_count" None) [Some (mkRTarget "Author" (Some "") (Some 1) None None (Some [("name", VMap [("_eq", VString "x")])]))]))] (Some ExecuteExplain);
     mkOperation [OpCommit (mkRCommit (mkRField "latestCommits" None) (Some "bae-1") (Some "C") None (Some 1) (Some 2) None None (Some ["cid"]) [SelField (mkRField "cid" None)]); OpNil] None]
    [mkOperation [OpMutation (mkRMutation (mkRField "update_Author" None) UpdateObjects "Author" (Some ["bae-1"]) (Some [("name", VMap [("_eq", VString "x")])]) "{}" [SelField (mkRField "_key" None)])] (Some DebugExplain)]
    [mkOperation [OpSubscription (mkRSubscription (mkRField "Author" None) "Author" (Some [("name", VMap [("_eq", VString "x")])]) [SelField (mkRField "name" None)])] None].

Lemma u64_of (z : Z) : (0 <=? z) && (z <? 2 ^ 64) = true -> is_u64 z.
Proof. rewrite andb_true_iff. intros [?%Z.leb_le ?%Z.ltb_lt]. done. Qed.

Ltac conforms :=
  repeat match goal with
  | |- _ /\ _ => split
  | |- Forall _ _ => constructor
  | |- is_u64 _ => apply u64_of; reflexivity
  | |- order_ok _ => split; [discriminate|reflexivity]
  | |- filter_ok _ _ _ => eexists; split; reflexivity
  | |- head_ok _ _ _ _ => constructor; cbn [opt_ok rh_Root rh_Limit rh_Offset rh_OrderBy rh_Filter authors_head]
  | |- agg_order_ok _ => right
  | |- opt_ok _ _ => progress cbn [opt_ok]
  | |- target_prints _ _ _ _ => cbv [target_prints rt_ChildName rt_Limit rt_Offset rt_OrderBy rt_Filter rt_HostName]
  | |- exists o, typeFromFieldDef _ = Ok o /\ _ => eexists; split; [reflexivity|]
  | |- _ => reflexivity
  | |- True => exact I
  end.

Lemma authors_ok : sel_ok lit ObjectSelection QueryType (SelSelect authors_head authors_fields).
Proof. cbn [sel_ok]. split; [reflexivity|]. split; [conforms|]. eexists. split; [reflexivity|]. cbn [authors_fields sel_ok versions]. conforms. Qed.

Lemma queries_ok : Forall (fun op => Forall (query_ok lit) op.(od_Selections)) everything.(rq_Queries).
Proof.
  cbn [everything rq_Queries]. repeat (apply Forall_cons; split); try apply Forall_nil_2; cbn [od_Selections]; repeat (apply Forall_cons; split); try apply Forall_nil_2.
  - apply qk_select; [reflexivity|discriminate|apply authors_ok|reflexivity].
  - apply qk_aggregate; [reflexivity|]. cbn [ra_Targets]. conforms.
  - apply qk_commit. constructor; cbn [rc_Field rc_Depth rc_FieldID rc_Limit rc_Offset rc_OrderBy rc_Fields opt_ok]; conforms; try done.
  - constructor.
Qed.

Lemma everything_ok : request_ok lit everything.
Proof.
  constructor; [apply queries_ok| |]; cbn [everything rq_Mutations rq_Subscription]; repeat (apply Forall_cons; split); try apply Forall_nil_2; cbn [od_Selections];
    repeat (apply Forall_cons; split); try apply Forall_nil_2; cbn [mutation_sel_ok subscription_sel_ok]; constructor;
    cbn [rm_Type rm_Field rm_Collection rm_Filter rm_Fields rsub_Field rsub_Collection rsub_Filter rsub_Fields opt_ok]; conforms; done.
Qed.

Lemma ParseRequest_print_witness : ParseRequest (Some (print_request lit everything)) = Ok (inl everything).
Proof. exact (ParseRequest_print lit everything everything_ok). Defined.

(** ** Documents that are not treated as they are meant *)

Definition one_query (directives : list (option astDirective)) (nodes : list astNode) : list astDefinition := [ADOperation OperationTypeQuery directives nodes].
Definition one_mutation (directives : list (option astDirective)) (nodes : list astNode) : list astDefinition := [ADOperation OperationTypeMutation directives nodes].

Definition bad_explain : list (option astDirective) := [Some (mkDirective "explain" [("type", AEnum "everything")])].
Definition name_only : option (list astNode) := Some [AField "name" None [] None].

Definition explained (r : results rRequest) : option (list (option ExplainType)) :=
  match r with Ok (inl r) => Some (od_Explain <$> (r.(rq_Queries) ++ r.(rq_Mutations))) | _ => None end.
Definition errors_of (r : results rRequest) : list error := match r with Ok (inr es) => es | _ => [] end.

(** Books grouped by rating inside books, with a name that is not grouped by. *)
Definition nested_group : list astNode :=
  [AField "Author" None [] (Some [AField "published" None [] (Some [AField "published" None [("groupBy", AList [AEnum "rating"])] name_only])])].

(** What the mapper makes of the first query of a document. *)
Definition mapped_query (r : results rRequest) : result Select :=
  match r with
  | Ok (inl r) => match r.(rq_Queries) with
                  | op :: _ => match op.(od_Selections) with OpSelect s :: _ => ToSelect MapperExamples.repo s | _ => Panic end
                  | [] => Panic
                  end
  | _ => Panic
  end.

Definition error_of {A} (r : result A) : option error := match r with Err e => Some e | _ => None end.

End RequestExamples.
