(* ===== verification/PlanNodes.v ===== *)
(** * Plan nodes (planner): scans, selects, joins and parallel nodes

    A plan is made of nodes over nodes.  What a node promises to the one above is the class
    [LawfulPlan]: it has a configuration, the spans to read and the filter of its scan, which
    determines the documents that it delivers after [Init].  Joins change the configuration of
    the plan of the related documents for every document of their root; every node is lawful if
    the nodes below are, so that the laws of a plan follow from those of its scans. *)

From S2P Require Import Prelude GoStd Keys Spans Store Crdt Values DocMap Connor Plan Desc.

Abbreviation conditions := (list (FilterKey * val)).

(** ** The interface *)

(** [Spans], and [appendFilterToScanNode], which goes down the sources to the scan. *)
Class SubPlan (T : Type) := {
  sp_node :: PlanNode T;
  sp_Spans : list span -> T -> T;
  sp_AppendFilter : conditions -> T -> T;
}.

(** What the nodes above can change of a plan: the spans and the filter of its scan. *)
Record config := mkConfig { c_spans : list span; c_filter : option conditions }.

(** *** Conditions on fields (type_join.go) *)

(** The first condition on the field is taken out. *)
Fixpoint removeConditionIndex (index : nat) (cs : conditions) : option val * conditions :=
  match cs with
  | [] => (None, [])
  | (PropertyIndex i, clause) :: rest =>
      if Nat.eqb index i then (Some clause, rest)
      else let '(r, rest) := removeConditionIndex index rest in (r, (PropertyIndex i, clause) :: rest)
  | e :: rest => let '(r, rest) := removeConditionIndex index rest in (r, e :: rest)
  end.

(** The conditions on fields of [src] replace those of [dest]. *)
Definition mergeFilterConditions (dest src : conditions) : conditions :=
  foldl (fun (dest : conditions) e => match e.1 with PropertyIndex i => (removeConditionIndex i dest).2 ++ [e] | _ => dest end) dest src.

Definition splitFilterByType (filter : option conditions) (subType : nat) : option conditions * option conditions :=
  match filter with
  | None => (None, None)
  | Some cs =>
      match removeConditionIndex subType cs with
      | (None, _) => (filter, None)
      | (Some sub, []) => (None, Some [(PropertyIndex subType, sub)])
      | (Some sub, rest) => (Some rest, Some [(PropertyIndex subType, sub)])
      end
  end.

(** [appendFilterToScanNode] at the scan; it is called with one condition. *)
Definition appendFilter (filter : option conditions) (cs : conditions) : option conditions := Some (mergeFilterConditions (default [] filter) cs).

Definition conf_spans (s : list span) (c : config) : config := mkConfig s c.(c_filter).
Definition conf_append (cs : conditions) (c : config) : config := mkConfig c.(c_spans) (appendFilter c.(c_filter) cs).

(** What a plan promises to the plan above.  [plan_inv] states can be initialised, [plan_fresh]
    states have been and were not read from, [plan_open] states have the given documents left;
    [conf_ok] are the configurations with which the plan runs without an error. *)
Class LawfulPlan (T : Type) `{SubPlan T} := {
  conf : T -> config;
  content : config -> list Doc;
  conf_ok : config -> Prop;
  plan_inv : T -> Prop;
  plan_fresh : T -> Prop;
  plan_open : T -> list Doc -> Prop;
  law_open_inv : forall t docs, plan_open t docs -> plan_inv t;
  law_fresh_inv : forall t, plan_fresh t -> plan_inv t;
  law_Init : forall t, plan_inv t -> conf_ok (conf t) -> exists t', pn_Init t = (t', Ok tt) /\ plan_fresh t' /\ conf t' = conf t;
  law_open : forall t, plan_fresh t -> conf_ok (conf t) -> plan_open t (content (conf t));
  law_Next_doc : forall t d docs, plan_open t (d :: docs) ->
    exists t', pn_Next t = (t', Ok true) /\ pn_Value t' = d /\ plan_open t' docs /\ conf t' = conf t;
  law_Next_end : forall t, plan_open t [] -> exists t', pn_Next t = (t', Ok false) /\ plan_inv t' /\ conf t' = conf t;
  law_Spans : forall t s, plan_inv t -> plan_inv (sp_Spans s t) /\ conf (sp_Spans s t) = conf_spans s (conf t);
  law_Append : forall t cs, plan_inv t -> plan_inv (sp_AppendFilter cs t) /\ conf (sp_AppendFilter cs t) = conf_append cs (conf t);
  law_Append_fresh : forall t cs, plan_fresh t -> plan_fresh (sp_AppendFilter cs t);
}.

(** What a lawful plan delivers. *)
Lemma plan_open_yields {T} `{LawfulPlan T} docs : forall t, plan_open t docs -> yields t docs (Ok false).
Proof.
  induction docs as [|d docs IH]; intros t Ho.
  - destruct (law_Next_end t Ho) as (t' & E & _). apply yields_end; [by rewrite E|done].
  - destruct (law_Next_doc t d docs Ho) as (t' & E & <- & Ho' & _). eapply yields_doc; [done|by apply IH].
Qed.

Lemma plan_yields {T} `{LawfulPlan T} t : plan_inv t -> conf_ok (conf t) ->
  exists t', pn_Init t = (t', Ok tt) /\ yields t' (content (conf t)) (Ok false).
Proof.
  intros Hi Hok. destruct (law_Init t Hi Hok) as (t' & E & Hf & Hc). exists t'. split; [done|].
  apply plan_open_yields. rewrite <- Hc in *. by apply law_open.
Qed.

(** ** Scans (scan.go) *)

(** The fetcher of a scan, with the description, the fields and the flags of the scan; at the
    end it returns a document without fields. *)
Class DocFetcher (F : Type) := {
  ft_Init : M F unit;
  ft_Start : list span -> M F unit;
  ft_FetchNextDoc : M F Doc;
}.

Section Scan.
Context {F : Type} `{DocFetcher F}.
Variables (desc : CollectionDescription) (mapping : DocumentMapping).

Record scanNode := mkScan { s_fetcher : F; s_spans : option (list span); s_filter : option conditions; s_value : Doc }.

Definition collectionSpans : list span := let start := MakeCollectionKey desc in [NewSpan start (PrefixEnd start)].

Definition scan_initScan : M scanNode unit := fun n =>
  let spans := default collectionSpans n.(s_spans) in
  let '(f, r) := ft_Start spans n.(s_fetcher) in
  (mkScan f (Some spans) n.(s_filter) n.(s_value), r).

Definition scan_Init : M scanNode unit := fun n =>
  let '(f, r) := ft_Init n.(s_fetcher) in
  let n := mkScan f n.(s_spans) n.(s_filter) n.(s_value) in
  match r with Ok _ => scan_initScan n | r => (n, r) end.

(** The document is marked with its status. *)
Definition markDeleted (d : Doc) : result Doc := SetFirstOfName mapping d "_deleted" (VBool (IsDeleted (Status d))).

(** The loop until a document passes the filter takes one round for every document that is
    fetched; the fuel is given by the caller. *)
Fixpoint scan_loop (fuel : nat) (n : scanNode) : scanNode * result bool :=
  match fuel with
  | O => (n, Panic)
  | Datatypes.S fuel =>
      let '(f, r) := ft_FetchNextDoc n.(s_fetcher) in
      let set v := mkScan f n.(s_spans) n.(s_filter) v in
      match r with
      | Ok d =>
          match Fields d with
          | [] => (set d, Ok false)
          | _ =>
              match markDeleted d with
              | Ok d =>
                  match RunFilter (VDoc d) n.(s_filter) with
                  | Ok true => (set d, Ok true)
                  | Ok false => scan_loop fuel (set d)
                  | Err e => (set d, Err e)
                  | Panic => (set d, Panic)
                  end
              | _ => (set d, Panic)
              end
          end
      | Err e => (set zeroDoc, Err e)
      | Panic => (set zeroDoc, Panic)
      end
  end.

Definition scan_Next (fuel : nat) : M scanNode bool := fun n =>
  match n.(s_spans) with Some [] => (n, Ok false) | _ => scan_loop fuel n end.

Definition scan_plan (fuel : nat) : SubPlan scanNode := {|
  sp_node := {| pn_Init := scan_Init; pn_Next := scan_Next fuel; pn_Value := s_value |};
  sp_Spans s n := mkScan n.(s_fetcher) (Some s) n.(s_filter) n.(s_value);
  sp_AppendFilter cs n := mkScan n.(s_fetcher) n.(s_spans) (appendFilter n.(s_filter) cs) n.(s_value) |}.
End Scan.
Arguments scanNode : clear implicits.

(** *** What a scan delivers *)

(** The documents that the fetcher returns before the one without fields. *)
Inductive fetches {F} `{DocFetcher F} : F -> list Doc -> Prop :=
  | fetches_end f f' d : ft_FetchNextDoc f = (f', Ok d) -> Fields d = [] -> fetches f []
  | fetches_doc f f' d docs : ft_FetchNextDoc f = (f', Ok d) -> Fields d <> [] -> fetches f' docs -> fetches f (d :: docs).

(** What a fetcher promises to its scan: started on spans that it can read, it returns their
    documents. *)
Class LawfulFetcher (F : Type) `{DocFetcher F} := {
  ft_inv : F -> Prop;
  ft_ok : list span -> Prop;
  ft_docs : list span -> list Doc;
  law_fetch : forall f s, ft_inv f -> ft_ok s ->
    exists f1 f2, ft_Init f = (f1, Ok tt) /\ ft_Start s f1 = (f2, Ok tt) /\ ft_inv f2 /\ fetches f2 (ft_docs s);
  law_fetch_next : forall f, ft_inv f -> ft_inv (ft_FetchNextDoc f).1;
}.

Definition passes (filter : option conditions) (d : Doc) : bool :=
  match RunFilter (VDoc d) filter with Ok b => b | _ => false end.

Definition evaluable (filter : option conditions) (d : Doc) : Prop := is_ok (RunFilter (VDoc d) filter) = true.

Lemma evaluable_passes filter d : evaluable filter d -> RunFilter (VDoc d) filter = Ok (passes filter d).
Proof. unfold evaluable, passes. by destruct (RunFilter _ _). Qed.

Section ScanSpec.
Context {F : Type} `{LawfulFetcher F}.
Variables (desc : CollectionDescription) (mapping : DocumentMapping) (fuel : nat).

(** The document as the scan marks it. *)
Definition marked (d : Doc) : Doc := match markDeleted mapping d with Ok d => d | _ => d end.

Lemma marked_ok d : is_ok (markDeleted mapping d) = true -> markDeleted mapping d = Ok (marked d).
Proof. unfold marked. by destruct (markDeleted mapping d). Qed.

Definition scan_ok (filter : option conditions) (d : Doc) : Prop :=
  is_ok (markDeleted mapping d) = true /\ evaluable filter (marked d).

Definition scanned (filter : option conditions) (docs : list Doc) : list Doc := List.filter (passes filter) (marked <$> docs).

#[local] Instance scan_subplan : SubPlan (scanNode F) := scan_plan desc mapping fuel.

Lemma scan_loop_keeps k : forall n, ft_inv n.(s_fetcher) ->
  let n' := (scan_loop mapping k n).1 in ft_inv n'.(s_fetcher) /\ n'.(s_spans) = n.(s_spans) /\ n'.(s_filter) = n.(s_filter).
Proof.
  induction k as [|k IH]; intros n Hn; [done|]. cbn [scan_loop].
  pose proof (law_fetch_next _ Hn) as Hf. destruct (ft_FetchNextDoc _) as [f [d|e|]]; [|done..].
  destruct (Fields d); [done|]. destruct (markDeleted mapping d) as [m| |]; [|done..]. cbn [s_filter].
  destruct (RunFilter _ _) as [[]| |]; [done| |done..]. exact (IH (mkScan f _ _ m) Hf).
Qed.

(** The fetcher has the documents left. *)
Definition scan_left (filter : option conditions) (f : F) (docs : list Doc) : Prop :=
  fetches f docs /\ (length docs < fuel)%nat /\ Forall (scan_ok filter) docs.

(** A round of [Next] over the documents that are left. *)
Lemma scan_loop_spec filter spans docs : forall k f v, (length docs < k)%nat -> scan_left filter f docs ->
  match scanned filter docs with
  | [] => exists n, scan_loop mapping k (mkScan f spans filter v) = (n, Ok false)
  | d :: rest => exists n docs', scan_loop mapping k (mkScan f spans filter v) = (n, Ok true) /\ n.(s_value) = d /\
      scan_left filter n.(s_fetcher) docs' /\ rest = scanned filter docs'
  end.
Proof.
  induction docs as [|d docs IH]; intros k f v Hk (Hf & Hl & Hok); (destruct k as [|k]; [cbn in Hk; lia|]);
    inversion Hf as [f0 f' d' Hd E|f0 f' d' docs0 Hd E Hrest]; subst; cbn [scan_loop s_fetcher].
  - rewrite Hd, E. by eexists.
  - apply Forall_cons in Hok as [[Hm He] Hok]. rewrite Hd. apply marked_ok in Hm. rewrite Hm. cbn in Hk, Hl.
    unfold scanned in *. cbn [fmap list_fmap List.filter s_filter s_spans]. set (m := marked d) in *.
    destruct (Fields d) as [|x xs] eqn:Ef; [done|]. rewrite (evaluable_passes _ _ He).
    assert (scan_left filter f' docs) as Hleft by (split_and!; [done|lia|done]).
    destruct (passes filter m) eqn:Ep; [by eexists _, docs|]. exact (IH k f' m ltac:(lia) Hleft).
Qed.

Definition scan_conf (n : scanNode F) : config := mkConfig (default (collectionSpans desc) n.(s_spans)) n.(s_filter).

Definition scan_content (c : config) : list Doc := match c.(c_spans) with [] => [] | s => scanned c.(c_filter) (ft_docs s) end.

Definition scan_conf_ok (c : config) : Prop :=
  ft_ok c.(c_spans) /\ (length (ft_docs c.(c_spans)) < fuel)%nat /\ Forall (scan_ok c.(c_filter)) (ft_docs c.(c_spans)).

Definition scan_fresh (n : scanNode F) : Prop :=
  ft_inv n.(s_fetcher) /\ exists s, n.(s_spans) = Some s /\ fetches n.(s_fetcher) (ft_docs s).

Definition scan_open (n : scanNode F) (docs : list Doc) : Prop :=
  ft_inv n.(s_fetcher) /\
  match n.(s_spans) with
  | None => False
  | Some [] => docs = []
  | Some _ => exists left, scan_left n.(s_filter) n.(s_fetcher) left /\ docs = scanned n.(s_filter) left
  end.

Lemma scan_Next_spec n docs : scan_open n docs ->
  match docs with
  | [] => exists n', scan_Next mapping fuel n = (n', Ok false) /\ ft_inv n'.(s_fetcher) /\ scan_conf n' = scan_conf n
  | d :: rest => exists n', scan_Next mapping fuel n = (n', Ok true) /\ n'.(s_value) = d /\ scan_open n' rest /\ scan_conf n' = scan_conf n
  end.
Proof.
  destruct n as [f sp filter v]. intros [Hi Ho]. cbn in Hi, Ho. destruct sp as [[|s0 s]|]; [by subst; eexists| |done].
  destruct Ho as (ds & Hleft & ->). unfold scan_Next, scan_conf. cbn [s_spans].
  pose proof (scan_loop_spec filter (Some (s0 :: s)) ds fuel f v ltac:(apply Hleft) Hleft) as Hs.
  destruct (scan_loop_keeps fuel (mkScan f (Some (s0 :: s)) filter v) Hi) as (K1 & K2 & K3).
  destruct (scanned filter ds) as [|d rest].
  - destruct Hs as [n' E]. rewrite E in *. cbn in *. exists n'. by rewrite K2, K3.
  - destruct Hs as (n' & docs' & E & Hv & Hl' & ->). rewrite E in *. cbn in *. exists n'. unfold scan_open. rewrite K2, K3. eauto 10.
Qed.

(** A scan is a lawful plan: it delivers the documents of its spans that pass its filter. *)
#[refine] Instance scan_lawful : LawfulPlan (scanNode F) := {|
  conf := scan_conf;
  content := scan_content;
  conf_ok := scan_conf_ok;
  plan_inv n := ft_inv n.(s_fetcher);
  plan_fresh := scan_fresh;
  plan_open := scan_open |}.
Proof.
  - by intros n docs [].
  - by intros n [].
  - intros [f sp fl v] Hi (Hok & _). cbn in Hi, Hok.
    destruct (law_fetch f (default (collectionSpans desc) sp) Hi Hok) as (f1 & f2 & E1 & E2 & Hi2 & Hf).
    exists (mkScan f2 (Some (default (collectionSpans desc) sp)) fl v). cbn. unfold scan_Init, scan_initScan. cbn. rewrite E1. cbn. rewrite E2.
    split; [done|]. split; [|done]. split; [done|]. by eexists.
  - intros [f sp fl v] [Hi (s & Es & Hf)] (Hok & Hl & Hd). cbn in Es, Hf. subst sp. cbn in Hok, Hl, Hd. split; [done|]. cbn.
    destruct s as [|s0 s]; [done|]. by eexists.
  - intros n d docs Ho. exact (scan_Next_spec n _ Ho).
  - intros n Ho. exact (scan_Next_spec n _ Ho).
  - done.
  - done.
  - done.
Defined.
End ScanSpec.

(** ** Selects (select.go)

    The filter and the keys of a select do not change while the plan runs.  The loop takes one
    round for every document of the source. *)

Section Select.
Context {T : Type} `{SubPlan T}.
Variables (filter : option conditions) (keys : option (list string)) (fuel : nat).

Record selectNode := mkSelectNode { sel_source : T; sel_value : Doc }.

Definition selected_key (d : Doc) : result bool :=
  match keys with
  | None => Ok true
  | Some keys => let! docKey := GetKey d in Ok (existsb (String.eqb docKey) keys)
  end.

Fixpoint select_loop (k : nat) (n : selectNode) : selectNode * result bool :=
  match k with
  | O => (n, Panic)
  | Datatypes.S k =>
      let '(source, r) := pn_Next n.(sel_source) in
      match r with
      | Ok true =>
          let n := mkSelectNode source (pn_Value source) in
          match (let! pass := RunFilter (VDoc n.(sel_value)) filter in if (pass : bool) then selected_key n.(sel_value) else Ok false) with
          | Ok true => (n, Ok true)
          | Ok false => select_loop k n
          | r => (n, r)
          end
      | r => (mkSelectNode source n.(sel_value), r)
      end
  end.

Definition select_plan : SubPlan selectNode := {|
  sp_node := {|
    pn_Init n := let '(source, r) := pn_Init n.(sel_source) in (mkSelectNode source n.(sel_value), r);
    pn_Next := select_loop fuel;
    pn_Value := sel_value |};
  sp_Spans s n := mkSelectNode (sp_Spans s n.(sel_source)) n.(sel_value);
  sp_AppendFilter cs n := mkSelectNode (sp_AppendFilter cs n.(sel_source)) n.(sel_value) |}.
End Select.
Arguments selectNode : clear implicits.

Section SelectSpec.
Context {T : Type} `{LawfulPlan T}.
Variables (filter : option conditions) (keys : option (list string)) (fuel : nat).

Definition sel_passes (d : Doc) : bool := passes filter d && match selected_key keys d with Ok b => b | _ => false end.

Definition sel_ok (d : Doc) : Prop := evaluable filter d /\ is_ok (selected_key keys d) = true.

#[local] Instance select_subplan : SubPlan (selectNode T) := select_plan filter keys fuel.

Lemma sel_test d : sel_ok d -> (let! pass := RunFilter (VDoc d) filter in if (pass : bool) then selected_key keys d else Ok false) = Ok (sel_passes d).
Proof.
  intros [He Hk]. rewrite (evaluable_passes _ _ He). unfold sel_passes. cbn [rbind].
  destruct (passes filter d); [|done]. by destruct (selected_key keys d).
Qed.

Definition select_open (n : selectNode T) (docs : list Doc) : Prop :=
  exists left, plan_open n.(sel_source) left /\ docs = List.filter sel_passes left /\ (length left < fuel)%nat /\ Forall sel_ok left.

Lemma select_loop_spec left : forall k t v, plan_open t left -> (length left < k <= fuel)%nat -> Forall sel_ok left ->
  match List.filter sel_passes left with
  | [] => exists n, select_loop filter keys k (mkSelectNode t v) = (n, Ok false) /\ plan_inv n.(sel_source) /\ conf n.(sel_source) = conf t
  | d :: rest => exists n, select_loop filter keys k (mkSelectNode t v) = (n, Ok true) /\ n.(sel_value) = d /\
      select_open n rest /\ conf n.(sel_source) = conf t
  end.
Proof.
  induction left as [|d left IH]; intros k t v Ho Hk Hok; (destruct k as [|k]; [cbn in Hk; lia|]); cbn [select_loop sel_source].
  - destruct (law_Next_end t Ho) as (t1 & E & Hi & Hc). rewrite E. by eexists.
  - destruct (law_Next_doc t d left Ho) as (t1 & E & <- & Ho' & Hc). rewrite E.
    apply Forall_cons in Hok as [Hs Hok]. cbn [sel_value length] in *. rewrite (sel_test _ Hs). cbn [List.filter].
    destruct (sel_passes (pn_Value t1)).
    + eexists. split; [done|]. split; [done|]. split; [|done]. exists left. split_and!; [done|done|lia|done].
    + rewrite <- Hc. exact (IH k t1 (pn_Value t1) Ho' ltac:(lia) Hok).
Qed.

(** A select over a lawful plan is lawful: it delivers the documents that pass its filter and
    are among its keys. *)
#[refine] Instance select_lawful : LawfulPlan (selectNode T) := {|
  conf n := conf n.(sel_source);
  content c := List.filter sel_passes (content c);
  conf_ok c := conf_ok c /\ (length (content c) < fuel)%nat /\ Forall sel_ok (content c);
  plan_inv n := plan_inv n.(sel_source);
  plan_fresh n := plan_fresh n.(sel_source);
  plan_open := select_open |}.
Proof.
  - intros n docs (left & Ho & _). by eapply law_open_inv.
  - intros n. apply law_fresh_inv.
  - intros [t v] Hi (Hok & _). cbn in *. destruct (law_Init t Hi Hok) as (t' & E & Hf & Hc).
    exists (mkSelectNode t' v). by rewrite E.
  - intros [t v] Hf (Hok & Hl & Hs). exists (content (conf t)). split; [by apply law_open|done].
  - intros [t v] d docs (left & Ho & E & Hl & Hs). pose proof (select_loop_spec left fuel t v Ho ltac:(lia) Hs) as Hn. by rewrite <- E in Hn.
  - intros [t v] (left & Ho & E & Hl & Hs). pose proof (select_loop_spec left fuel t v Ho ltac:(lia) Hs) as Hn. by rewrite <- E in Hn.
  - intros [t v] s Hi. exact (law_Spans t s Hi).
  - intros [t v] cs Hi. exact (law_Append t cs Hi).
  - intros [t v] cs Hf. exact (law_Append_fresh t cs Hf).
Defined.
End SelectSpec.
