(* ===== verification/Joins.v ===== *)
(** * Joins (planner/type_join.go)

    A join goes through the documents of its root and puts the related documents, which the plan
    of the sub type delivers, into a cell of each.  The cell belongs to the slice of fields that
    the root holds too: the root's current document changes with it.  The one side of a relation
    looks the related document up by the key that the root document holds, the other sides scan
    for the documents that hold the key of the root document. *)

From S2P Require Import Prelude GoStd Keys Spans Store Crdt Values DocMap Connor Plan Desc PlanNodes.

(** A root whose current document is shared with the nodes above. *)
Class SharedRoot (R : Type) `{SubPlan R} := {
  sr_Write : Doc -> R -> R;
}.

Inductive joinKind := JoinPrimary | JoinSecondary | JoinMany.

(** What a join is made with: the mapping of the root, the name of the relation there, the mapping
    and the collection of the sub type, the name of the relation there, and the cell. *)
Record joinInfo := mkJoin {
  ji_kind : joinKind;
  ji_rootMap : DocumentMapping;
  ji_subTypeName : string;
  ji_subMap : DocumentMapping;
  ji_subDesc : CollectionDescription;
  ji_rootName : string;
  ji_index : nat;
}.

Section Join.
Context {R : Type} `{SharedRoot R} {T : Type} `{SubPlan T}.
Variables (ji : joinInfo) (fuel : nat).

Record joinNode := mkJoinNode { j_root : R; j_sub : T; j_value : Doc }.

Definition on_root {A} (m : M R A) : M (R * T) A := fun st => let '(r, x) := m st.1 in ((r, st.2), x).
Definition on_sub {A} (m : M T A) : M (R * T) A := fun st => let '(t, x) := m st.2 in ((st.1, t), x).

(** [doc.Fields[n.subSelect.Index] = v], with the slice of the root's document. *)
Definition setCell (v : val) : M (R * T) Doc := fun st =>
  match set_field (pn_Value st.1) ji.(ji_index) v with
  | Ok d => ((sr_Write d st.1, st.2), Ok d)
  | _ => (st, Panic)
  end.

(** The condition that the foreign key of the sub documents is the key of the document. *)
Definition fkFilter (doc : Doc) : result conditions :=
  let! fkIndex := FirstIndexOfName ji.(ji_subMap) (ji.(ji_rootName) +:+ "_id") in
  let! key := GetKey doc in
  Ok [(PropertyIndex fkIndex, VString key)].

Definition keySpans (key : string) : list span :=
  let k := MakeDocKey ji.(ji_subDesc) key in [NewSpan k (PrefixEnd k)].

(** The first document of the sub plan, if there is one; errors are only logged. *)
Definition firstSub (doc : Doc) : M (R * T) Doc :=
  let* next := mtry (on_sub pn_Next) in
  match next with
  | inl true => fun st => setCell (VDoc (pn_Value st.2)) st
  | _ => mret doc
  end.

Definition valuesSecondary (doc : Doc) : M (R * T) Doc :=
  let* filter := mlift (fkFilter doc) in
  let* r := mtry (on_sub pn_Init) in
  match r with
  | inr _ => mret doc
  | inl _ =>
      let* _ := on_sub (fun t => (sp_AppendFilter filter t, Ok tt)) in
      firstSub doc
  end.

Definition valuesPrimary (doc : Doc) : M (R * T) Doc :=
  let* subDocKey := mlift (FirstOfName ji.(ji_rootMap) doc (ji.(ji_subTypeName) +:+ "_id")) in
  match subDocKey with
  | VString subDocKeyStr =>
      let* _ := on_sub (fun t => (sp_Spans (keySpans subDocKeyStr) t, Ok tt)) in
      let* r := mtry (on_sub pn_Init) in
      match r with
      | inr _ => mret doc
      | inl _ => firstSub doc
      end
  | _ => mret doc
  end.

(** The loop of [typeJoinMany], one round for every document of the sub plan. *)
Fixpoint subDocs (k : nat) (docs : list Doc) : M (R * T) (list Doc) :=
  match k with
  | O => mpanic
  | Datatypes.S k =>
      let* next := on_sub pn_Next in
      if (next : bool) then fun st => subDocs k (docs ++ [pn_Value st.2]) st else mret docs
  end.

Definition valuesMany (doc : Doc) : M (R * T) Doc :=
  let* filter := mlift (fkFilter doc) in
  let* _ := on_sub (fun t => (sp_AppendFilter filter t, Ok tt)) in
  let* _ := on_sub pn_Init in
  let* docs := subDocs fuel [] in
  setCell (VDocs docs).

Definition join_values (doc : Doc) : M (R * T) Doc :=
  match ji.(ji_kind) with
  | JoinPrimary => valuesPrimary doc
  | JoinSecondary => valuesSecondary doc
  | JoinMany => valuesMany doc
  end.

Definition join_Init : M joinNode unit := fun n =>
  let '((root, sub), r) := (let* _ := on_sub pn_Init in on_root pn_Init) (n.(j_root), n.(j_sub)) in
  (mkJoinNode root sub n.(j_value), r).

(** [Next] without the current document of the join, which it returns. *)
Definition join_advance : M (R * T) (option Doc) :=
  let* hasNext := on_root pn_Next in
  if (hasNext : bool) then fun st => (let* d := join_values (pn_Value st.1) in mret (Some d)) st else mret None.

(** [n.currentValue] is set to the document, before the loop of [typeJoinMany] and after the
    values of [typeJoinOne]; after an error it is not looked at. *)
Definition join_Next : M joinNode bool := fun n =>
  let '((root, sub), r) := join_advance (n.(j_root), n.(j_sub)) in
  match r with
  | Ok (Some d) => (mkJoinNode root sub d, Ok true)
  | Ok None => (mkJoinNode root sub n.(j_value), Ok false)
  | Err e => (mkJoinNode root sub n.(j_value), Err e)
  | Panic => (mkJoinNode root sub n.(j_value), Panic)
  end.

Definition join_plan : SubPlan joinNode := {|
  sp_node := {| pn_Init := join_Init; pn_Next := join_Next; pn_Value := j_value |};
  sp_Spans s n := mkJoinNode (sp_Spans s n.(j_root)) n.(j_sub) n.(j_value);
  sp_AppendFilter cs n := mkJoinNode (sp_AppendFilter cs n.(j_root)) n.(j_sub) n.(j_value) |}.
End Join.
Arguments joinNode : clear implicits.

(** ** What a join delivers *)

(** The conditions on a field. *)
Definition is_on (i : nat) (e : FilterKey * val) : bool := match e.1 with PropertyIndex j => Nat.eqb i j | _ => false end.

Definition at_most_one (i : nat) (cs : conditions) : Prop := (length (List.filter (is_on i) cs) <= 1)%nat.

Lemma removeConditionIndex_cons i e cs :
  removeConditionIndex i (e :: cs) = if is_on i e then (Some e.2, cs) else let '(r, rest) := removeConditionIndex i cs in (r, e :: rest).
Proof. by destruct e as [[] v]. Qed.

Lemma removeConditionIndex_rest i cs : at_most_one i cs -> (removeConditionIndex i cs).2 = List.filter (fun e => negb (is_on i e)) cs.
Proof.
  unfold at_most_one. induction cs as [|e cs IH]; intros Hc; [done|]. rewrite removeConditionIndex_cons. cbn [List.filter] in *.
  destruct (is_on i e); cbn [negb].
  - cbn in Hc |- *. rewrite lfilter_none; [done|]. destruct (List.filter _ cs); [done|cbn in Hc; lia].
  - rewrite <- (IH Hc). by destruct (removeConditionIndex i cs).
Qed.

Lemma removeConditionIndex_found i cs :
  (removeConditionIndex i cs).1 = snd <$> head (List.filter (is_on i) cs).
Proof.
  induction cs as [|e cs IH]; [done|]. rewrite removeConditionIndex_cons. cbn [List.filter].
  destruct (is_on i e); [done|]. rewrite <- IH. by destruct (removeConditionIndex i cs).
Qed.

Definition on_key (i : nat) (v : val) (filter : option conditions) : option conditions :=
  Some (List.filter (fun e => negb (is_on i e)) (default [] filter) ++ [(PropertyIndex i, v)]).

Lemma appendFilter_key i v filter : at_most_one i (default [] filter) -> appendFilter filter [(PropertyIndex i, v)] = on_key i v filter.
Proof. intros Hc. unfold appendFilter, mergeFilterConditions, on_key. cbn. by rewrite removeConditionIndex_rest. Qed.

Lemma on_key_filter i v filter : at_most_one i (default [] (on_key i v filter)) /\
  forall w, on_key i w (on_key i v filter) = on_key i w filter.
Proof.
  unfold at_most_one, on_key. cbn [default from_option id]. split.
  - rewrite List.filter_app. assert (forall l : conditions, List.filter (is_on i) (List.filter (fun e => negb (is_on i e)) l) = []) as ->.
    { induction l as [|e l IH]; [done|]. cbn. destruct (is_on i e) eqn:E; cbn; [done|]. by rewrite E. }
    cbn. by rewrite Nat.eqb_refl.
  - intros w. do 2 f_equal. rewrite List.filter_app. cbn. rewrite Nat.eqb_refl. cbn. rewrite app_nil_r.
    apply filter_all. intros e He%list_elem_of_In%List.filter_In. by destruct He.
Qed.

(** What a root promises to the joins over it. *)
Class LawfulRoot (R : Type) `{LawfulPlan R} `{!SharedRoot R} := {
  law_write_value : forall r d, pn_Value (sr_Write d r) = d;
  law_write_conf : forall r d, conf (sr_Write d r) = conf r;
  law_write_open : forall r d docs, plan_open r docs -> plan_open (sr_Write d r) docs;
}.

Section JoinSpec.
Context {R : Type} `{LawfulRoot R} {T : Type} `{LawfulPlan T}.
Variables (ji : joinInfo) (fuel : nat).

(** The configuration of the sub plan before the first document, the index of the foreign key in
    the sub documents, and the keys with which the sub plan runs. *)
Variables (c0 : config) (fk : nat) (key_ok : string -> Prop).

#[local] Instance join_subplan : SubPlan (joinNode R T) := join_plan ji fuel.

(** The configuration in which the sub plan delivers the documents for a key. *)
Definition keyed (key : string) (c : config) : config :=
  match ji.(ji_kind) with
  | JoinPrimary => conf_spans (keySpans ji key) c
  | _ => mkConfig c.(c_spans) (on_key fk (VString key) c.(c_filter))
  end.

Definition related (key : string) : list Doc := content (T:=T) (keyed key c0).

Definition doc_key (d : Doc) : result (option string) :=
  match ji.(ji_kind) with
  | JoinPrimary =>
      let! v := FirstOfName ji.(ji_rootMap) d (ji.(ji_subTypeName) +:+ "_id") in
      Ok (match v with VString s => Some s | _ => None end)
  | _ => let! key := GetKey d in Ok (Some key)
  end.

Definition with_cell (d : Doc) (v : val) : Doc := set_Fields d (<[ji.(ji_index) := v]> (Fields d)).

(** The document with its related documents: all of them on the many side, the first otherwise. *)
Definition join_doc (d : Doc) : Doc :=
  match doc_key d with
  | Ok (Some key) =>
      match ji.(ji_kind), related key with
      | JoinMany, docs => with_cell d (VDocs docs)
      | _, x :: _ => with_cell d (VDoc x)
      | _, [] => d
      end
  | _ => d
  end.

Record join_ok : Prop := {
  jo_fk : ji.(ji_kind) <> JoinPrimary -> FirstIndexOfName ji.(ji_subMap) (ji.(ji_rootName) +:+ "_id") = Ok fk /\ at_most_one fk (default [] c0.(c_filter));
  jo_initial : conf_ok (T:=T) c0;
  jo_keys : forall key, key_ok key -> conf_ok (T:=T) (keyed key c0) /\ (length (related key) < fuel)%nat;
}.

Definition joinable (d : Doc) : Prop :=
  (ji.(ji_index) < length (Fields d))%nat /\ exists key, doc_key d = Ok key /\ forall k, key = Some k -> key_ok k.

Definition reached (c : config) : Prop := c = c0 \/ exists key, key_ok key /\ c = keyed key c0.

Hypothesis ok : join_ok.

Lemma keyed_reached c key : reached c -> keyed key c = keyed key c0.
Proof.
  intros [->|(k & _ & ->)]; [done|]. unfold keyed. destruct (ji_kind ji); [done|..]; cbn [c_filter c_spans]; f_equal; apply on_key_filter.
Qed.

Lemma keyed_append c key : reached c -> ji.(ji_kind) <> JoinPrimary -> conf_append [(PropertyIndex fk, VString key)] c = keyed key c0.
Proof.
  intros Hc Hk. rewrite <- (keyed_reached c key Hc). destruct (jo_fk ok Hk) as [_ Hone]. unfold conf_append, keyed.
  rewrite appendFilter_key; [by destruct (ji_kind ji)|]. destruct Hc as [->|(k & _ & ->)]; [done|].
  unfold keyed. destruct (ji_kind ji); [done|..]; apply on_key_filter.
Qed.

Lemma reached_ok c : reached c -> conf_ok (T:=T) c.
Proof. intros [->|(k & Hk & ->)]; [apply (jo_initial ok)|by apply (jo_keys ok)]. Qed.

Lemma subDocs_spec docs : forall k acc r (t : T), plan_open t docs -> (length docs < k)%nat ->
  exists t', subDocs (R:=R) k acc (r, t) = ((r, t'), Ok (acc ++ docs)) /\ plan_inv t' /\ conf t' = conf t.
Proof.
  induction docs as [|d docs IH]; intros k acc r t Ho Hk; (destruct k as [|k]; [cbn in Hk; lia|]); cbn [subDocs]; unfold mbind, on_sub; cbn [fst snd].
  - destruct (law_Next_end t Ho) as (t' & E & Hi & Hc). rewrite E. exists t'. by rewrite app_nil_r.
  - destruct (law_Next_doc t d docs Ho) as (t1 & E & <- & Ho' & Hc). rewrite E. cbn in Hk |- *.
    destruct (IH k (acc ++ [pn_Value t1]) r t1 Ho' ltac:(lia)) as (t' & E' & Hi2 & Hc2).
    exists t'. rewrite E', <- app_assoc. split; [done|]. split; [done|congruence].
Qed.

Lemma setCell_spec (r : R) (t : T) v d : pn_Value r = d -> (ji.(ji_index) < length (Fields d))%nat ->
  setCell ji v (r, t) = ((sr_Write (with_cell d v) r, t), Ok (with_cell d v)).
Proof. intros <- Hl. unfold setCell, set_field. cbn. by rewrite decide_True by done. Qed.

Lemma firstSub_spec (r : R) (t : T) d docs : pn_Value r = d -> (ji.(ji_index) < length (Fields d))%nat -> plan_open t docs ->
  let d' := match docs with x :: _ => with_cell d (VDoc x) | [] => d end in
  exists r' t', firstSub ji d (r, t) = ((r', t'), Ok d') /\ (r' = r /\ d' = d \/ r' = sr_Write d' r) /\ plan_inv t' /\ conf t' = conf t.
Proof.
  intros Hv Hl Ho d'. unfold firstSub, mbind, mtry, on_sub. cbn [fst snd]. destruct docs as [|x docs].
  - destruct (law_Next_end t Ho) as (t' & E & Hi & Hc). rewrite E. exists r, t'. auto.
  - destruct (law_Next_doc t x docs Ho) as (t' & E & <- & Ho' & Hc). rewrite E. cbn. rewrite (setCell_spec _ _ _ d) by done.
    eauto 10 using law_open_inv.
Qed.

(** The sub plan after it was given a key. *)
Definition ready_for (key : string) (t : T) : Prop := plan_fresh t /\ conf t = keyed key c0.

Lemma ready_open key t : key_ok key -> ready_for key t -> plan_open t (related key) /\ (length (related key) < fuel)%nat.
Proof.
  intros Hk [Hf Hc]. destruct (jo_keys ok key Hk) as [Hok Hlen].
  split; [|done]. unfold related. rewrite <- Hc in *. by apply law_open.
Qed.

Lemma ready_reached key t t' : key_ok key -> ready_for key t -> conf t' = conf t -> reached (conf t').
Proof. intros Hk [_ Hc] E. right. exists key. split; [done|congruence]. Qed.

(** A root document with its values, and what they leave. *)
Definition values_spec (m : M (R * T) Doc) (d : Doc) : Prop := forall (r : R) (t : T), pn_Value r = d -> plan_inv t -> reached (conf t) ->
  exists r' t', m (r, t) = ((r', t'), Ok (join_doc d)) /\ (r' = r /\ join_doc d = d \/ r' = sr_Write (join_doc d) r) /\
    plan_inv t' /\ reached (conf t').

Lemma valuesPrimary_spec d : ji.(ji_kind) = JoinPrimary -> joinable d -> values_spec (valuesPrimary ji d) d.
Proof.
  intros Ek [Hl (key & Hk & Hok)] r t Hv Hi Hr. unfold join_doc. rewrite Hk, Ek. unfold doc_key in Hk. rewrite Ek in Hk.
  unfold valuesPrimary, mbind at 1, mlift. destruct (FirstOfName _ _ _) as [v| |]; cbn in Hk; [|done..]. injection Hk as <-.
  destruct v; try (exists r, t; by auto). specialize (Hok _ eq_refl).
  unfold mbind, on_sub, mtry. cbn [fst snd]. destruct (law_Spans t (keySpans ji s) Hi) as [Hi1 Hc1].
  assert (conf (sp_Spans (keySpans ji s) t) = keyed s c0) as Ec.
  { rewrite Hc1, <- (keyed_reached _ s Hr). unfold keyed. by rewrite Ek. }
  destruct (law_Init _ Hi1 ltac:(rewrite Ec; by apply (jo_keys ok))) as (t2 & E2 & Hf2 & Hc2). rewrite E2.
  assert (ready_for s t2) as Hready by (split; congruence). destruct (ready_open s t2 Hok Hready) as [Ho _].
  destruct (firstSub_spec r t2 d _ Hv Hl Ho) as (r' & t' & E & H' & Hi' & Hc').
  exists r', t'. rewrite E. eauto using ready_reached.
Qed.

Lemma fkFilter_ok d : ji.(ji_kind) <> JoinPrimary -> joinable d ->
  exists key, doc_key d = Ok (Some key) /\ key_ok key /\ fkFilter ji d = Ok [(PropertyIndex fk, VString key)].
Proof.
  intros Hp [_ (key & Hk & Hok)]. destruct (jo_fk ok Hp) as [Hfk _]. unfold fkFilter. rewrite Hfk. cbn.
  unfold doc_key in Hk |- *. destruct (ji_kind ji); [done|..].
  all: destruct (GetKey d) as [k| |]; cbn in *; [|done..]; injection Hk as <-; eauto.
Qed.

Lemma valuesSecondary_spec d : ji.(ji_kind) = JoinSecondary -> joinable d -> values_spec (valuesSecondary ji d) d.
Proof.
  intros Ek Hj r t Hv Hi Hr. destruct (fkFilter_ok d ltac:(by rewrite Ek) Hj) as (key & Hk & Hok & Hf). unfold join_doc. rewrite Hk, Ek.
  unfold valuesSecondary, mbind at 1, mlift. rewrite Hf. unfold mbind, on_sub, mtry. cbn [fst snd].
  destruct (law_Init t Hi (reached_ok _ Hr)) as (t1 & E1 & Hf1 & Hc1). rewrite E1.
  cbn [fst snd]. set (t2 := sp_AppendFilter _ t1). destruct (law_Append t1 [(PropertyIndex fk, VString key)] (law_fresh_inv _ Hf1)) as [Hi2 Hc2].
  assert (ready_for key t2) as Hready.
  { split; [by apply law_Append_fresh|]. unfold t2. rewrite Hc2, Hc1. apply keyed_append; [done|by rewrite Ek]. }
  destruct (ready_open key t2 Hok Hready) as [Ho _]. destruct Hj as [Hl _].
  destruct (firstSub_spec r t2 d _ Hv Hl Ho) as (r' & t' & E & H' & Hi' & Hc').
  exists r', t'. rewrite E. eauto using ready_reached.
Qed.

Lemma valuesMany_spec d : ji.(ji_kind) = JoinMany -> joinable d -> values_spec (valuesMany ji fuel d) d.
Proof.
  intros Ek Hj r t Hv Hi Hr. destruct (fkFilter_ok d ltac:(by rewrite Ek) Hj) as (key & Hk & Hok & Hf). unfold join_doc. rewrite Hk, Ek.
  unfold valuesMany, mbind at 1, mlift. rewrite Hf. unfold mbind, on_sub. cbn [fst snd].
  destruct (law_Append t [(PropertyIndex fk, VString key)] Hi) as [Hi1 Hc1]. rewrite (keyed_append _ key Hr) in Hc1 by by rewrite Ek.
  destruct (law_Init _ Hi1 ltac:(rewrite Hc1; by apply (jo_keys ok))) as (t2 & E2 & Hf2 & Hc2). rewrite E2.
  assert (ready_for key t2) as Hready by (split; congruence).
  destruct (ready_open key t2 Hok Hready) as [Ho Hlen].
  destruct (subDocs_spec _ fuel [] r t2 Ho Hlen) as (t3 & E3 & Hi3 & Hc3). rewrite E3. cbn [app].
  destruct Hj as [Hl _]. rewrite (setCell_spec _ _ _ d) by done. eauto 10 using ready_reached.
Qed.

Lemma join_values_spec d : joinable d -> values_spec (join_values ji fuel d) d.
Proof.
  unfold join_values. destruct (ji_kind ji) eqn:Ek; [by apply valuesPrimary_spec|by apply valuesSecondary_spec|by apply valuesMany_spec].
Qed.

Definition sub_inv (n : joinNode R T) : Prop := plan_inv n.(j_sub) /\ reached (conf n.(j_sub)).

Definition join_open (n : joinNode R T) (docs : list Doc) : Prop :=
  exists left, plan_open n.(j_root) left /\ docs = join_doc <$> left /\ Forall joinable left /\ sub_inv n.

Lemma join_Next_doc n d docs : join_open n (d :: docs) ->
  exists n', join_Next ji fuel n = (n', Ok true) /\ n'.(j_value) = d /\ join_open n' docs /\ conf n'.(j_root) = conf n.(j_root).
Proof.
  intros ([|x left] & Ho & E & Hj & Hi & Hr); [done|]. cbn in E. injection E as -> ->. apply Forall_cons in Hj as [Hjx Hj].
  destruct (law_Next_doc _ _ _ Ho) as (r1 & E1 & Hv & Ho1 & Hc1).
  destruct (join_values_spec x Hjx r1 n.(j_sub) Hv Hi Hr) as (r' & t' & E' & Hr' & Hi' & Hc').
  exists (mkJoinNode r' t' (join_doc x)). unfold join_Next, join_advance, mbind, on_root. cbn [fst snd]. rewrite E1. cbn [fst]. rewrite Hv, E'. split; [done|]. split; [done|]. cbn [j_root].
  destruct Hr' as [[-> _]| ->]; [|rewrite law_write_conf]; (split; [|done]); exists left; split_and!; try done.
  by apply law_write_open.
Qed.

Lemma join_Next_end n : join_open n [] ->
  exists n', join_Next ji fuel n = (n', Ok false) /\ (plan_inv n'.(j_root) /\ sub_inv n') /\ conf n'.(j_root) = conf n.(j_root).
Proof.
  intros ([|x left] & Ho & E & _ & Hi); [|done]. destruct (law_Next_end _ Ho) as (r1 & E1 & Hi1 & Hc1).
  exists (mkJoinNode r1 n.(j_sub) n.(j_value)). unfold join_Next, join_advance, mbind, on_root. cbn [fst snd]. by rewrite E1.
Qed.

(** A join of lawful plans is lawful: it delivers the documents of its root, each with the
    documents that are related to it. *)
#[refine] Instance join_lawful : LawfulPlan (joinNode R T) := {|
  conf n := conf n.(j_root);
  content c := join_doc <$> content (T:=R) c;
  conf_ok c := conf_ok (T:=R) c /\ Forall joinable (content (T:=R) c);
  plan_inv n := plan_inv n.(j_root) /\ sub_inv n;
  plan_fresh n := plan_fresh n.(j_root) /\ sub_inv n;
  plan_open := join_open |}.
Proof.
  - intros n docs (left & Ho & _ & _ & Hi). split; [by eapply law_open_inv|done].
  - intros n [Hf Hi]. split; [by apply law_fresh_inv|done].
  - intros [r t v] [Hir [Hit Hr]] (Hok & _). cbn in *. unfold join_Init, mbind, on_sub, on_root. cbn.
    destruct (law_Init t Hit (reached_ok _ Hr)) as (t' & E & Hf & Hc). rewrite E. cbn.
    destruct (law_Init r Hir Hok) as (r' & E' & Hf' & Hc'). rewrite E'. exists (mkJoinNode r' t' v).
    split; [done|]. split; [|done]. split; [done|]. split; [by apply law_fresh_inv|]. cbn. by rewrite Hc.
  - intros n [Hf Hi] [Hok Hj]. exists (content (T:=R) (conf n.(j_root))). split; [by apply law_open|done].
  - exact join_Next_doc.
  - exact join_Next_end.
  - intros [r t v] s [Hi Hs]. destruct (law_Spans r s Hi). done.
  - intros [r t v] cs [Hi Hs]. destruct (law_Append r cs Hi). done.
  - intros [r t v] cs [Hf Hs]. split; [by apply law_Append_fresh|done].
Defined.
End JoinSpec.

(** ** Scans as roots *)

#[global] Instance scan_root {F} `{DocFetcher F} desc mapping fuel : @SharedRoot (scanNode F) (scan_plan desc mapping fuel) :=
  {| sr_Write d n := mkScan n.(s_fetcher) n.(s_spans) n.(s_filter) d |}.

#[global] Instance scan_lawful_root {F} `{LawfulFetcher F} desc mapping fuel :
  @LawfulRoot (scanNode F) (scan_plan desc mapping fuel) (scan_lawful desc mapping fuel) (scan_root desc mapping fuel).
Proof. by split. Qed.

(** ** Splitting a filter between the scan and the select

    Conditions on a related document can only be tested once it is joined: a join takes the
    condition on its field from the filter of the scan to that of the select. *)
Definition splitFilters (index : nat) (filters : option conditions * option conditions) : option conditions * option conditions :=
  let '(scanFilter, parentFilter) := filters in
  let '(scanFilter, sub) := splitFilterByType scanFilter index in
  match sub with
  | None => (scanFilter, parentFilter)
  | Some cs => (scanFilter, Some (mergeFilterConditions (default [] parentFilter) cs))
  end.

Definition field_of (e : FilterKey * val) : option nat := match e.1 with PropertyIndex i => Some i | _ => None end.

(** Conditions on fields, one for each. *)
Record on_fields (cs : conditions) : Prop := {
  of_fields : Forall (fun e => is_Some (field_of e)) cs;
  of_once : NoDup (field_of <$> cs);
}.

Lemma is_on_field i e : is_on i e = true <-> field_of e = Some i.
Proof. destruct e as [[j|o] v]; cbn; [rewrite Nat.eqb_eq; naive_solver|done]. Qed.

Lemma once_at_most i cs : NoDup (field_of <$> cs) -> at_most_one i cs.
Proof.
  unfold at_most_one. induction cs as [|e cs IH]; [cbn; lia|]. cbn [fmap list_fmap]. intros [He Hn]%NoDup_cons. cbn [List.filter].
  destruct (is_on i e) eqn:E; [|by apply IH]. cbn. apply is_on_field in E.
  replace (List.filter (is_on i) cs) with (@nil (FilterKey * val)); [cbn; lia|]. symmetry.
  destruct (List.filter (is_on i) cs) as [|e' l] eqn:Ef; [done|]. exfalso. apply He. rewrite E.
  assert (e' ∈ List.filter (is_on i) cs) as Hin by (rewrite Ef; by left).
  apply list_elem_of_In, List.filter_In in Hin as [Hin He']. apply is_on_field in He'. rewrite <- He'.
  apply list_elem_of_fmap_2. by apply list_elem_of_In.
Qed.

Lemma filter_on_one i cs v : at_most_one i cs -> (removeConditionIndex i cs).1 = Some v -> List.filter (is_on i) cs = [(PropertyIndex i, v)].
Proof.
  intros H1. rewrite removeConditionIndex_found. unfold at_most_one in H1.
  destruct (List.filter (is_on i) cs) as [|e [|e' l]] eqn:E; [done| |cbn in H1; lia]. cbn. intros [= <-].
  assert (In e (List.filter (is_on i) cs)) as Hin by (rewrite E; by left). apply List.filter_In in Hin as [_ He].
  apply is_on_field in He. destruct e as [[j|o] w]; cbn in *; congruence.
Qed.

Lemma at_most_app i cs cs' : at_most_one i (cs ++ cs') -> at_most_one i cs /\ at_most_one i cs' /\
  (List.filter (is_on i) cs <> [] -> List.filter (is_on i) cs' = []).
Proof.
  unfold at_most_one. rewrite List.filter_app, length_app. intros Hl. split_and!; [lia..|].
  destruct (List.filter (is_on i) cs), (List.filter (is_on i) cs'); cbn in *; try done. lia.
Qed.

(** One join: the condition on its field moves. *)
Lemma splitFilters_spec i f1 f2 : at_most_one i (default [] f1 ++ default [] f2) ->
  let g := splitFilters i (f1, f2) in
  default [] g.1 = List.filter (fun e => negb (is_on i e)) (default [] f1) /\ default [] g.2 = default [] f2 ++ List.filter (is_on i) (default [] f1).
Proof.
  intros (H1 & H2 & H3)%at_most_app. unfold splitFilters, splitFilterByType. destruct f1 as [cs1|]; [|by rewrite app_nil_r].
  cbn [default from_option id] in *. pose proof (removeConditionIndex_rest i cs1 H1) as Hr. pose proof (filter_on_one i cs1) as Hf.
  pose proof (removeConditionIndex_found i cs1) as Hn.
  destruct (removeConditionIndex i cs1) as [[v|] rest]; cbn [fst snd] in *.
  - specialize (Hf v H1 eq_refl). rewrite Hf in *. rewrite <- Hr. specialize (H3 ltac:(done)).
    assert (mergeFilterConditions (default [] f2) [(PropertyIndex i, v)] = default [] f2 ++ [(PropertyIndex i, v)]) as E.
    { unfold mergeFilterConditions. cbn. by rewrite removeConditionIndex_rest, lfilter_none by done. }
    clear Hr. destruct rest; cbn [fst snd default from_option id]; by rewrite E.
  - destruct (List.filter (is_on i) cs1) eqn:E; [|done]. cbn. by rewrite lfilter_none, app_nil_r by done.
Qed.

(** All joins of a select. *)
Lemma splitFilters_all (idxs : list nat) : forall f1 f2, NoDup (field_of <$> default [] f1 ++ default [] f2) ->
  let g := foldl (fun fs i => splitFilters i fs) (f1, f2) idxs in
  default [] g.1 ++ default [] g.2 ≡ₚ default [] f1 ++ default [] f2 /\
  (forall e, e ∈ default [] g.1 -> e ∈ default [] f1 /\ forall i, i ∈ idxs -> is_on i e = false).
Proof.
  induction idxs as [|i idxs IH]; intros f1 f2 Hn; cbn [foldl].
  - split; [done|]. intros e He. split; [done|]. intros i Hi. by apply elem_of_nil in Hi.
  - destruct (splitFilters_spec i f1 f2 (once_at_most i _ Hn)) as [E1 E2]. destruct (splitFilters i (f1, f2)) as [g1 g2]. cbn [fst snd] in *.
    assert (default [] g1 ++ default [] g2 ≡ₚ default [] f1 ++ default [] f2) as Hp.
    { rewrite E1, E2. rewrite (Permutation_app_comm (default [] f2)), app_assoc. by rewrite lfilter_partition. }
    destruct (IH g1 g2) as [Hp' He']; [by rewrite Hp|]. split; [by rewrite Hp'|]. intros e He. destruct (He' e He) as [Hin Hi].
    rewrite E1 in Hin. apply list_elem_of_In, List.filter_In in Hin as [Hin Hne]. split; [by apply list_elem_of_In|].
    intros j [->|Hj]%elem_of_cons; [by apply negb_true_iff|by apply Hi].
Qed.

(** *** The split filters test what the filter does *)

Definition all_evaluate (filter : option conditions) (d : Doc) : Prop :=
  Forall (fun e => is_ok (entry_result (VDoc d) e) = true) (default [] filter).

Lemma passes_all filter d : all_evaluate filter d -> evaluable filter d /\ passes filter d = forallb (holds (VDoc d)) (default [] filter).
Proof.
  unfold all_evaluate, evaluable, passes. destruct filter as [cs|]; [|done]. cbn [RunFilter default from_option id]. intros Hok.
  assert (Match cs (VDoc d) = match_props eq (VDoc d) cs) as -> by done. by rewrite (match_props_holds _ _ Hok).
Qed.

(** Documents that differ in some cells only. *)
Definition agree_outside (idxs : list nat) (d d' : Doc) : Prop := forall j, j ∉ idxs -> Fields d' !! j = Fields d !! j.

Lemma entry_agree idxs d d' e : agree_outside idxs d d' -> is_Some (field_of e) -> (forall i, i ∈ idxs -> is_on i e = false) ->
  entry_result (VDoc d) e = entry_result (VDoc d') e.
Proof.
  intros Ha [j Hj] Hi. destruct e as [[k|o] v]; cbn in Hj; [|done]. injection Hj as <-. unfold entry_result. cbn.
  unfold get_field. rewrite Ha; [done|]. intros Hk. specialize (Hi _ Hk). cbn in Hi. by rewrite Nat.eqb_refl in Hi.
Qed.

Lemma split_passes idxs filter d d' : on_fields (default [] filter) -> agree_outside idxs d d' -> all_evaluate filter d' ->
  let g := foldl (fun fs i => splitFilters i fs) (filter, None) idxs in
  evaluable g.1 d /\ evaluable g.2 d' /\ passes filter d' = passes g.1 d && passes g.2 d'.
Proof.
  intros [Hf Hn] Ha Hok g. destruct (splitFilters_all idxs filter None) as [Hp He]; [by rewrite app_nil_r|]. fold g in Hp, He.
  rewrite app_nil_r in Hp.
  assert (all_evaluate g.1 d' /\ all_evaluate g.2 d') as [H1 H2].
  { unfold all_evaluate in *. rewrite <- Hp in Hok. by apply Forall_app. }
  assert (forall e, e ∈ default [] g.1 -> entry_result (VDoc d) e = entry_result (VDoc d') e) as Heq.
  { intros e Hin. destruct (He e Hin) as [Hin' Hi]. apply (entry_agree idxs); [done| |done]. rewrite Forall_forall in Hf. by apply Hf. }
  assert (all_evaluate g.1 d) as H1'.
  { unfold all_evaluate in *. rewrite Forall_forall in H1 |- *. intros e Hin. rewrite Heq by done. by apply H1. }
  destruct (passes_all _ _ H1') as [E1 P1], (passes_all _ _ H2) as [E2 P2], (passes_all _ _ Hok) as [_ P].
  split; [done|]. split; [done|]. rewrite P, P1, P2, <- (forallb_perm _ _ _ Hp), forallb_app. f_equal.
  clear -Heq. induction (default [] g.1) as [|e l IH]; [done|]. cbn. rewrite IH by (intros x Hx; apply Heq; by right).
  f_equal. unfold holds. by rewrite Heq by by left.
Qed.

(** ** A select over a join over a scan *)

Section Query.
Context {F : Type} `{LawfulFetcher F} {T : Type} `{LawfulPlan T}.
Variables (desc : CollectionDescription) (mapping : DocumentMapping) (ji : joinInfo) (fuel : nat).
Variables (c0 : config) (fk : nat) (key_ok : string -> Prop).
Variables (filter : option conditions) (keys : option (list string)).

(** The documents of the collection. *)
Definition collection_docs : list Doc := marked mapping <$> ft_docs (collectionSpans desc).

Definition query_filters : option conditions * option conditions := splitFilters ji.(ji_index) (filter, None).

#[local] Instance query_scan : SubPlan (scanNode F) := scan_plan desc mapping fuel.
#[local] Instance query_join : SubPlan (joinNode (scanNode F) T) := join_plan ji fuel.

(** The plan of the select, with the filter split between the scan and the select. *)
Definition query_plan : SubPlan (selectNode (joinNode (scanNode F) T)) := select_plan query_filters.2 keys fuel.

Definition query_state (f : F) (t : T) : selectNode (joinNode (scanNode F) T) :=
  mkSelectNode (mkJoinNode (mkScan f None query_filters.1 zeroDoc) t zeroDoc) zeroDoc.

Record query_ok : Prop := {
  qo_spans : ft_ok (F:=F) (collectionSpans desc);
  qo_fuel : (length (ft_docs (F:=F) (collectionSpans desc)) < fuel)%nat;
  qo_marked : Forall (fun d => is_ok (markDeleted mapping d) = true) (ft_docs (F:=F) (collectionSpans desc));
  qo_join : join_ok (T:=T) ji fuel c0 fk key_ok;
  qo_filter : on_fields (default [] filter);
  qo_docs : Forall (fun d => joinable ji key_ok d /\ all_evaluate filter (join_doc (T:=T) ji c0 fk d) /\
    is_ok (selected_key keys (join_doc (T:=T) ji c0 fk d)) = true) collection_docs;
}.

Lemma join_doc_agrees d : agree_outside [ji.(ji_index)] d (join_doc (T:=T) ji c0 fk d).
Proof.
  intros j Hj. apply not_elem_of_cons in Hj as [Hj _].
  assert (forall v, Fields (with_cell ji d v) !! j = Fields d !! j) as Hc.
  { intros v. unfold with_cell. destruct d as [h fs st]. cbn. by rewrite list_lookup_insert_ne. }
  unfold join_doc. destruct (doc_key ji d) as [[key|]| |]; [|done..].
  destruct (ji_kind ji), (related _ _ _ _); done.
Qed.

(** What the plan delivers, in terms of the documents of the collection. *)
Definition query_docs : list Doc :=
  List.filter (sel_passes filter keys) (join_doc (T:=T) ji c0 fk <$> collection_docs).

Hypothesis ok : query_ok.

Lemma query_doc_split d : d ∈ collection_docs ->
  evaluable query_filters.1 d /\ sel_ok query_filters.2 keys (join_doc (T:=T) ji c0 fk d) /\
  sel_passes filter keys (join_doc (T:=T) ji c0 fk d) = passes query_filters.1 d && sel_passes query_filters.2 keys (join_doc (T:=T) ji c0 fk d).
Proof.
  intros Hd. pose proof (qo_docs ok) as Hdocs. rewrite Forall_forall in Hdocs. destruct (Hdocs d Hd) as (_ & He & Hk).
  destruct (split_passes [ji.(ji_index)] filter d _ (qo_filter ok) (join_doc_agrees d) He) as (E1 & E2 & E3).
  split; [done|]. split; [done|]. unfold sel_passes. cbn in E3. by rewrite E3, <- andb_assoc.
Qed.

#[local] Instance query_scan_lawful : LawfulPlan (scanNode F) := scan_lawful desc mapping fuel.
#[local] Instance query_join_lawful : LawfulPlan (joinNode (scanNode F) T) := join_lawful ji fuel c0 fk key_ok (qo_join ok).

Definition query_conf : config := mkConfig (collectionSpans desc) query_filters.1.

Lemma query_scan_content : content (T:=scanNode F) query_conf = List.filter (passes query_filters.1) collection_docs.
Proof. done. Qed.

Lemma query_content :
  List.filter (sel_passes query_filters.2 keys) (content (T:=joinNode (scanNode F) T) query_conf) = query_docs.
Proof.
  change (content (T:=joinNode (scanNode F) T) query_conf) with (join_doc (T:=T) ji c0 fk <$> content (T:=scanNode F) query_conf).
  rewrite query_scan_content. unfold query_docs. rewrite !lfilter_fmap, lfilter_lfilter. f_equal. apply lfilter_ext.
  intros d Hd. symmetry. by apply query_doc_split.
Qed.

Lemma elem_of_scanned d : d ∈ content (T:=scanNode F) query_conf -> d ∈ collection_docs.
Proof. rewrite query_scan_content. intros [Hd _]%list_elem_of_In%List.filter_In. by apply list_elem_of_In. Qed.

Lemma query_conf_ok : conf_ok (T:=joinNode (scanNode F) T) query_conf.
Proof.
  split.
  - split; [apply (qo_spans ok)|]. split; [apply (qo_fuel ok)|]. apply Forall_forall. intros d Hd. split.
    + pose proof (qo_marked ok) as Hm. rewrite Forall_forall in Hm. by apply Hm.
    + apply query_doc_split. unfold collection_docs. by apply list_elem_of_fmap_2.
  - apply Forall_forall. intros d Hd%elem_of_scanned. pose proof (qo_docs ok) as Hq. rewrite Forall_forall in Hq. by apply Hq.
Qed.

Lemma query_joined : (length (content (T:=joinNode (scanNode F) T) query_conf) < fuel)%nat /\
  Forall (sel_ok query_filters.2 keys) (content (T:=joinNode (scanNode F) T) query_conf).
Proof.
  change (content (T:=joinNode (scanNode F) T) query_conf) with (join_doc (T:=T) ji c0 fk <$> content (T:=scanNode F) query_conf). split.
  - rewrite length_fmap, query_scan_content. pose proof (qo_fuel ok) as Hl. unfold collection_docs.
    eapply Nat.le_lt_trans; [apply filter_length_le|]. by rewrite length_fmap.
  - apply Forall_fmap, Forall_forall. intros d Hd%elem_of_scanned. by apply query_doc_split.
Qed.

Lemma query_yields f t : ft_inv f -> plan_inv t -> conf t = c0 ->
  exists p, @pn_Init _ (@sp_node _ query_plan) (query_state f t) = (p, Ok tt) /\ @yields _ (@sp_node _ query_plan) p query_docs (Ok false).
Proof.
  intros Hf Ht Hc. rewrite <- query_content.
  refine (@plan_yields _ query_plan (select_lawful query_filters.2 keys fuel) (query_state f t) _ _).
  - split; [done|]. split; [done|]. left. exact Hc.
  - exact (conj query_conf_ok query_joined).
Qed.
End Query.

(** C23: A select over a join over the scan of a collection, with the conditions on the related
    documents moved from the scan to the select, delivers exactly what filtering the joined
    documents of the collection by the whole filter gives, for each kind of relation, and ends. *)
Theorem select_join_scan {F : Type} `{LawfulFetcher F} {T : Type} `{LawfulPlan T} desc mapping ji fuel c0 fk key_ok filter keys (f : F) (t : T) :
  query_ok (F:=F) (T:=T) desc mapping ji fuel c0 fk key_ok filter keys -> ft_inv f -> plan_inv t -> conf t = c0 ->
  exists p, @pn_Init _ (@sp_node _ (query_plan desc mapping ji fuel filter keys)) (query_state ji filter f t) = (p, Ok tt) /\
    @yields _ (@sp_node _ (query_plan desc mapping ji fuel filter keys)) p
      (List.filter (sel_passes filter keys) (join_doc (T:=T) ji c0 fk <$> (marked mapping <$> ft_docs (F:=F) (collectionSpans desc)))) (Ok false).
Proof. intros Hok. by apply (query_yields _ _ _ _ _ _ key_ok). Qed.
