(* ===== verification/Parallel.v ===== *)
(** * Parallel nodes (planner/multi.go, and the multi scan of planner/scan.go)

    A select of several related or versioned parts has one child plan for each.  Joins read one
    scan: the multi scan moves it once for all its readers, and every join puts its cell into the
    current document, which all of them share.  Children that append are run for the key of the
    document.  [addSubPlan] decides which of these nodes a select is made of. *)

From S2P Require Import Prelude GoStd Keys Spans Store Crdt Values DocMap Connor Plan Desc PlanNodes Joins.

(** ** The multi scan *)

Section MultiScan.
Context {R : Type} `{SharedRoot R}.
Variable numReaders : nat.

Record multiScanNode := mkMulti { ms_scan : R; ms_numCalls : nat; ms_last : result bool }.

Definition multi_Next : M multiScanNode bool := fun n =>
  let '(scan, last) := if Nat.eqb n.(ms_numCalls) 0 then pn_Next n.(ms_scan) else (n.(ms_scan), n.(ms_last)) in
  let numCalls := Datatypes.S n.(ms_numCalls) in
  (mkMulti scan (if Nat.eqb numCalls numReaders then O else numCalls) last, last).

Definition multi_plan : SubPlan multiScanNode := {|
  sp_node := {|
    pn_Init n := let '(scan, r) := pn_Init n.(ms_scan) in (mkMulti scan n.(ms_numCalls) n.(ms_last), r);
    pn_Next := multi_Next;
    pn_Value n := pn_Value n.(ms_scan) |};
  sp_Spans s n := mkMulti (sp_Spans s n.(ms_scan)) n.(ms_numCalls) n.(ms_last);
  sp_AppendFilter cs n := mkMulti (sp_AppendFilter cs n.(ms_scan)) n.(ms_numCalls) n.(ms_last) |}.

Definition multi_root : @SharedRoot multiScanNode multi_plan :=
  {| sr_Write d n := mkMulti (sr_Write d n.(ms_scan)) n.(ms_numCalls) n.(ms_last) |}.
End MultiScan.
Arguments multiScanNode : clear implicits.

(** ** The parallel node *)

(** A plan that appends its documents, such as the scan of the commits of a document. *)
Class AppendPlan (A : Type) := {
  ap_node :: PlanNode A;
  ap_Spans : list span -> A -> A;
}.

Section Parallel.
Context {R : Type} `{SharedRoot R} {T : Type} `{SubPlan T} {A : Type} `{AppendPlan A}.
Variables (mapping : DocumentMapping) (fuel : nat).

(** The children: the scan itself, a join over it, or a plan that appends at an index. *)
Inductive child :=
  | ScanChild
  | JoinChild (ji : joinInfo) (sub : T)
  | AppendChild (index : nat) (plan : A).

(** [copy] *)
Definition copyFields (dst src : list val) : list val := take (length dst) src ++ drop (length src) dst.

Definition copyDoc (value doc : Doc) : Doc := set_Fields value (copyFields (Fields value) (Fields doc)).

(** The documents of a plan that appends, one round for each. *)
Fixpoint appendDocs (k : nat) (docs : list Doc) (plan : A) : A * result (list Doc) :=
  match k with
  | O => (plan, Panic)
  | Datatypes.S k =>
      let '(plan, r) := pn_Next plan in
      match r with
      | Ok true => appendDocs k (docs ++ [pn_Value plan]) plan
      | Ok false => (plan, Ok docs)
      | Err e => (plan, Err e)
      | Panic => (plan, Panic)
      end
  end.

Definition appendRun (key : string) (plan : A) : A * result (list Doc) :=
  let plan := ap_Spans [NewSpan (mkDataStoreKey "" "" key "") (mkDataStoreKey "" "" "" "")] plan in
  let '(plan, r) := pn_Init plan in
  match r with
  | Ok _ => appendDocs fuel [] plan
  | Err e => (plan, Err e)
  | Panic => (plan, Panic)
  end.

(** [nextMerge] and [nextAppend]: the state is the shared root and the current document. *)
Definition nextChild (c : child) : M (R * Doc) (child * bool) := fun st =>
  let '(root, value) := st in
  match c with
  | ScanChild =>
      let '(root, r) := pn_Next root in
      match r with
      | Ok true => ((root, copyDoc value (pn_Value root)), Ok (c, true))
      | Ok false => ((root, value), Ok (c, false))
      | Err e => ((root, value), Err e)
      | Panic => ((root, value), Panic)
      end
  | JoinChild ji sub =>
      let '((root, sub), r) := join_advance ji fuel (root, sub) in
      match r with
      | Ok (Some doc) => ((root, copyDoc value doc), Ok (JoinChild ji sub, true))
      | Ok None => ((root, value), Ok (JoinChild ji sub, false))
      | Err e => ((root, value), Err e)
      | Panic => ((root, value), Panic)
      end
  | AppendChild index plan =>
      match GetKey value with
      | Ok key =>
          if String.eqb key "" then (st, Ok (c, false))
          else
            let '(plan, r) := appendRun key plan in
            match (let! docs := r in set_field value index (VDocs docs)) with
            | Ok value => ((root, value), Ok (AppendChild index plan, true))
            | Err e => (st, Err e)
            | Panic => (st, Panic)
            end
      | _ => (st, Panic)
      end
  end.

Fixpoint nextChildren (cs : list child) : M (R * Doc) (list child * bool) :=
  match cs with
  | [] => mret ([], false)
  | c :: cs =>
      let* (c, next) := nextChild c in
      let* (cs, orNext) := nextChildren cs in
      mret (c :: cs, next || orNext)
  end.

Record parallelNode := mkParallel { p_root : R; p_children : list child; p_value : Doc }.

(** An error stops the plan; what the children are after it is not looked at. *)
Definition parallel_Next : M parallelNode bool := fun n =>
  let '((root, value), r) := nextChildren n.(p_children) (n.(p_root), NewDoc mapping) in
  match r with
  | Ok (cs, orNext) => (mkParallel root cs value, Ok orNext)
  | Err e => (mkParallel root n.(p_children) value, Err e)
  | Panic => (mkParallel root n.(p_children) value, Panic)
  end.

(** [Init] of the children; that of a join initialises the sub plan and then the root. *)
Definition initChild (c : child) : M R child := fun root =>
  match c with
  | ScanChild => let '(root, r) := pn_Init root in (root, let! _ := r in Ok c)
  | JoinChild ji sub =>
      let '((root, sub), r) := (let* _ := on_sub pn_Init in on_root pn_Init) (root, sub) in
      (root, let! _ := r in Ok (JoinChild ji sub))
  | AppendChild index plan => let '(plan, r) := pn_Init plan in (root, let! _ := r in Ok (AppendChild index plan))
  end.

Fixpoint initChildren (cs : list child) : M R (list child) :=
  match cs with
  | [] => mret []
  | c :: cs => let* c := initChild c in let* cs := initChildren cs in mret (c :: cs)
  end.

Definition parallel_Init : M parallelNode unit := fun n =>
  let '(root, r) := initChildren n.(p_children) n.(p_root) in
  match r with
  | Ok cs => (mkParallel root cs n.(p_value), Ok tt)
  | Err e => (mkParallel root n.(p_children) n.(p_value), Err e)
  | Panic => (mkParallel root n.(p_children) n.(p_value), Panic)
  end.

Definition parallel_plan : PlanNode parallelNode := {|
  pn_Init := parallel_Init;
  pn_Next := parallel_Next;
  pn_Value := p_value |}.
End Parallel.
Arguments child : clear implicits.
Arguments parallelNode : clear implicits.

(** ** What a parallel node delivers *)

(** A join as it is specified: its configuration, foreign key and keys. *)
Record joinSpec := mkJoinSpec { js_info : joinInfo; js_conf : config; js_fk : nat; js_key_ok : string -> Prop }.

(** A plan that appends: its index, its documents for a key, and its states. *)
Record appendSpec (A : Type) := mkAppendSpec { as_index : nat; as_docs : string -> list Doc; as_inv : A -> Prop }.
Arguments mkAppendSpec {A}.
Arguments as_index {A}.
Arguments as_docs {A}.
Arguments as_inv {A}.

Section ParallelSpec.
Context {R : Type} `{LawfulRoot R} {T : Type} `{LawfulPlan T} {A : Type} `{AppendPlan A}.
Variables (mapping : DocumentMapping) (fuel : nat) (numReaders : nat).

#[local] Instance par_multi : SubPlan (multiScanNode R) := multi_plan numReaders.
#[local] Instance par_root : SharedRoot (multiScanNode R) := multi_root numReaders.

Definition js_doc (js : joinSpec) (d : Doc) : Doc := join_doc (T:=T) js.(js_info) js.(js_conf) js.(js_fk) d.

Definition joined_all (jss : list joinSpec) (d : Doc) : Doc := foldl (fun d js => js_doc js d) d jss.

Fixpoint joinable_all (jss : list joinSpec) (d : Doc) : Prop :=
  match jss with
  | [] => True
  | js :: jss => joinable js.(js_info) js.(js_key_ok) d /\ joinable_all jss (js_doc js d)
  end.

(** The document as the node copies it: hidden flag and status are not copied. *)
Definition bare (d : Doc) : Doc := mkDoc false (Fields d) 0.

Definition join_child (js : joinSpec) (c : child T A) : Prop :=
  exists t, c = JoinChild js.(js_info) t /\ plan_inv t /\ reached js.(js_info) js.(js_conf) js.(js_fk) js.(js_key_ok) (conf t).

Definition append_child (a : appendSpec A) (c : child T A) : Prop := exists p, c = AppendChild a.(as_index) p /\ a.(as_inv) p.

Definition append_ok (a : appendSpec A) : Prop := forall p, a.(as_inv) p ->
  (exists p', pn_Init p = (p', Ok tt) /\ a.(as_inv) p') /\
  forall key, exists p', appendRun fuel key p = (p', Ok (a.(as_docs) key)) /\ a.(as_inv) p'.

Definition js_ok (js : joinSpec) : Prop := join_ok (T:=T) js.(js_info) fuel js.(js_conf) js.(js_fk) js.(js_key_ok).

Definition appended (key : string) (ass : list (appendSpec A)) (d : Doc) : Doc :=
  foldl (fun d a => set_Fields d (<[a.(as_index) := VDocs (a.(as_docs) key)]> (Fields d))) d ass.

Lemma copyFields_eq dst src : length dst = length src -> copyFields dst src = src.
Proof. intros E. unfold copyFields. rewrite E, firstn_all, drop_ge by lia. by rewrite app_nil_r. Qed.

Lemma js_doc_length js d : length (Fields (js_doc js d)) = length (Fields d).
Proof.
  unfold js_doc, join_doc, with_cell. destruct d as [h fs st].
  destruct (doc_key _ _) as [[key|]| |]; [|done..]. destruct (ji_kind _), (related _ _ _ _); cbn; by rewrite ?length_insert.
Qed.

Lemma joined_all_length jss : forall d, length (Fields (joined_all jss d)) = length (Fields d).
Proof. induction jss as [|js jss IH]; intros d; [done|]. change (joined_all (js :: jss) d) with (joined_all jss (js_doc js d)). rewrite IH. apply js_doc_length. Qed.

Lemma nextChildren_app cs1 cs2 st st1 st2 cs1' cs2' b1 b2 :
  nextChildren (R:=multiScanNode R) (T:=T) (A:=A) fuel cs1 st = (st1, Ok (cs1', b1)) -> nextChildren fuel cs2 st1 = (st2, Ok (cs2', b2)) ->
  nextChildren fuel (cs1 ++ cs2) st = (st2, Ok (cs1' ++ cs2', b1 || b2)).
Proof.
  revert st cs1' b1. induction cs1 as [|c cs1 IH]; intros st cs1' b1 E1 E2.
  - cbn in E1. unfold mret in E1. simplify_eq. done.
  - cbn [nextChildren app] in *. unfold mbind in *. destruct (nextChild fuel c st) as [st' [[c' b]|e|]]; [|done..].
    destruct (nextChildren fuel cs1 st') as [st'' [[cs' b']|e|]] eqn:E; [|done..]. unfold mret in *. simplify_eq.
    by rewrite (IH _ _ _ E E2), orb_assoc.
Qed.

(** The number of calls that the multi scan has counted. *)
Definition counted (n : nat) : nat := if Nat.eqb n numReaders then O else n.

Lemma multi_read r n : (0 < n < numReaders)%nat ->
  pn_Next (mkMulti r (counted n) (Ok true) : multiScanNode R) = (mkMulti r (counted (Datatypes.S n)) (Ok true), Ok true).
Proof.
  intros Hn. assert (counted n = n) as -> by (unfold counted; by destruct (Nat.eqb_spec n numReaders); [lia|]).
  destruct n; [lia|done].
Qed.

(** A join reads the current document of the scan and writes its cell. *)
Lemma join_child_step js (c : child T A) (m1 m2 : multiScanNode R) left d w : js_ok js -> join_child js c ->
  pn_Next m1 = (m2, Ok true) -> pn_Value m2 = d -> plan_open m2.(ms_scan) left -> joinable js.(js_info) js.(js_key_ok) d ->
  length (Fields w) = length (Fields d) ->
  exists r c', nextChild fuel c (m1, w) = ((mkMulti r m2.(ms_numCalls) m2.(ms_last), copyDoc w (js_doc js d)), Ok (c', true)) /\
    pn_Value r = js_doc js d /\ plan_open r left /\ conf r = conf m2.(ms_scan) /\ join_child js c'.
Proof.
  intros Hok (t & -> & Hi & Hr) En Hv Ho Hj Hl. unfold nextChild, join_advance, mbind at 1, on_root. cbn [fst snd]. rewrite En. cbn [fst].
  destruct (join_values_spec js.(js_info) fuel js.(js_conf) js.(js_fk) js.(js_key_ok) Hok d Hj m2 t Hv Hi Hr) as (m' & t' & E & Hm & Hi' & Hr').
  rewrite Hv. unfold mbind. rewrite E. cbn. destruct m2 as [r2 k2 l2]. cbn [ms_scan ms_numCalls ms_last] in *.
  assert (exists r, m' = mkMulti r k2 l2 /\ pn_Value r = js_doc js d /\ plan_open r left /\ conf r = conf r2) as (r & -> & Hvr & Hor & Hcr).
  { destruct Hm as [[-> Ed]| ->].
    - exists r2. split_and!; try done. unfold js_doc. rewrite Ed. exact Hv.
    - exists (sr_Write (js_doc js d) r2). split_and!; [done|apply law_write_value|by apply law_write_open|apply law_write_conf]. }
  exists r, (JoinChild js.(js_info) t'). split; [done|]. split_and!; try done. by exists t'.
Qed.

Lemma copyDoc_bare w d : length (Fields w) = length (Fields d) -> Hidden w = false -> Status w = 0 -> copyDoc w d = bare d.
Proof. destruct w as [h fs st], d as [h' fs' st']. intros El Eh Es. cbn in El, Eh, Es. subst. unfold copyDoc, bare. cbn [set_Fields Fields]. by rewrite copyFields_eq. Qed.

(** The joins after the first. *)
Lemma joins_rest jss : forall n r left d cs, Forall js_ok jss -> Forall2 join_child jss cs -> (0 < n)%nat -> (n + length jss = numReaders)%nat ->
  pn_Value r = d -> plan_open r left -> joinable_all jss d ->
  exists r' cs', nextChildren fuel cs (mkMulti r (counted n) (Ok true), bare d) =
      ((mkMulti r' O (Ok true), bare (joined_all jss d)), Ok (cs', match jss with [] => false | _ => true end)) /\
    plan_open r' left /\ conf r' = conf r /\ Forall2 join_child jss cs'.
Proof.
  induction jss as [|js jss IH]; intros n r left d cs Hok Hcs Hn Hr Hv Ho Hj.
  - inversion Hcs; subst. exists r, []. cbn in Hr. unfold counted. rewrite Nat.add_0_r in Hr. subst n. rewrite Nat.eqb_refl. by split_and!.
  - inversion Hcs as [|? c ? cs0 Hc Hcs0]; subst. apply Forall_cons in Hok as [Hok1 Hok]. destruct Hj as [Hj1 Hj]. cbn [length] in Hr.
    destruct (join_child_step js c (mkMulti r (counted n) (Ok true)) (mkMulti r (counted (Datatypes.S n)) (Ok true)) left (pn_Value r) (bare (pn_Value r)) Hok1 Hc)
      as (r1 & c' & E & Hv1 & Ho1 & Hc1 & Hjc); [apply multi_read; lia|done..|].
    rewrite copyDoc_bare in E by (rewrite ?js_doc_length; done).
    destruct (IH (Datatypes.S n) r1 left (js_doc js (pn_Value r)) cs0 Hok Hcs0 ltac:(lia) ltac:(lia) Hv1 Ho1 Hj) as (r2 & cs2 & E2 & Ho2 & Hc2 & Hcs2).
    exists r2, (c' :: cs2). cbn [nextChildren]. unfold mbind. rewrite E. cbn [ms_numCalls ms_last]. rewrite E2.
    split_and!; [done|done|cbn in Hc1; congruence|by constructor].
Qed.

(** A round over a document. *)
Lemma joins_round jss r last left d w cs : Forall js_ok jss -> Forall2 join_child jss cs -> jss <> [] -> length jss = numReaders ->
  plan_open r (d :: left) -> joinable_all jss d -> length (Fields w) = length (Fields d) -> Hidden w = false -> Status w = 0 ->
  exists r' cs', nextChildren fuel cs (mkMulti r O last, w) = ((mkMulti r' O (Ok true), bare (joined_all jss d)), Ok (cs', true)) /\
    plan_open r' left /\ conf r' = conf r /\ Forall2 join_child jss cs'.
Proof.
  intros Hok Hcs Hne Hlen Ho Hj Hl Hh Hs. destruct jss as [|js jss]; [done|]. inversion Hcs as [|? c ? cs0 Hc Hcs0]; subst.
  apply Forall_cons in Hok as [Hok1 Hok]. destruct Hj as [Hj1 Hj]. cbn [length] in Hlen.
  destruct (law_Next_doc r d left Ho) as (r1 & E1 & Hv1 & Ho1 & Hc1).
  destruct (join_child_step js c (mkMulti r O last) (mkMulti r1 (counted 1) (Ok true)) left d w Hok1 Hc)
    as (r2 & c' & E & Hv2 & Ho2 & Hc2 & Hjc); [|done..|].
  { cbn [pn_Next sp_node par_multi multi_plan]. unfold multi_Next. cbn. by rewrite E1. }
  rewrite copyDoc_bare in E by (rewrite ?js_doc_length; done).
  destruct (joins_rest jss 1 r2 left (js_doc js d) cs0 Hok Hcs0 ltac:(lia) Hlen Hv2 Ho2 Hj) as (r3 & cs3 & E3 & Ho3 & Hc3 & Hcs3).
  exists r3, (c' :: cs3). cbn [nextChildren]. unfold mbind. rewrite E. cbn [ms_numCalls ms_last]. rewrite E3.
  split_and!; [done|done|cbn in Hc2; congruence|by constructor].
Qed.

(** The round after the last document. *)
Lemma joins_rest_end jss : forall n r w cs, Forall2 join_child jss cs -> (0 < n)%nat -> (n + length jss = numReaders)%nat ->
  nextChildren fuel cs (mkMulti r (counted n) (Ok false) : multiScanNode R, w) = ((mkMulti r O (Ok false), w), Ok (cs, false)).
Proof.
  induction jss as [|js jss IH]; intros n r w cs Hcs Hn Hr; inversion Hcs as [|? c ? cs0 Hc Hcs0]; subst; cbn [length] in Hr.
  - cbn. rewrite Nat.add_0_r in Hr. subst. unfold counted. by rewrite Nat.eqb_refl.
  - destruct Hc as (t & -> & _). cbn [nextChildren nextChild]. unfold mbind at 1, nextChild, join_advance, mbind at 1, on_root. cbn [fst snd].
    assert (pn_Next (mkMulti r (counted n) (Ok false) : multiScanNode R) = (mkMulti r (counted (Datatypes.S n)) (Ok false), Ok false)) as ->.
    { assert (counted n = n) as -> by (unfold counted; destruct (Nat.eqb_spec n numReaders); [lia|done]). destruct n; [lia|done]. }
    cbn. unfold mbind. rewrite (IH (Datatypes.S n)) by (done || lia). done.
Qed.

Lemma joins_end jss r last w cs : Forall2 join_child jss cs -> jss <> [] -> length jss = numReaders -> plan_open r [] ->
  exists r', nextChildren fuel cs (mkMulti r O last, w) = ((mkMulti r' O (Ok false), w), Ok (cs, false)) /\ plan_inv r' /\ conf r' = conf r.
Proof.
  intros Hcs Hne Hlen Ho. destruct jss as [|js jss]; [done|]. inversion Hcs as [|? c ? cs0 (t & -> & Ht) Hcs0]; subst. cbn [length] in Hlen.
  destruct (law_Next_end r Ho) as (r1 & E1 & Hi1 & Hc1). exists r1. split; [|done].
  cbn [nextChildren]. unfold mbind at 1, nextChild, join_advance, mbind at 1, on_root. cbn [fst snd].
  assert (pn_Next (mkMulti r O last : multiScanNode R) = (mkMulti r1 (counted 1) (Ok false), Ok false)) as ->.
  { cbn [pn_Next sp_node par_multi multi_plan]. unfold multi_Next. cbn. by rewrite E1. }
  cbn. unfold mbind. by rewrite (joins_rest_end jss 1) by (done || lia).
Qed.

(** The plans that append. *)
Definition in_cells (d : Doc) (a : appendSpec A) : Prop := (0 < a.(as_index) < length (Fields d))%nat.

Lemma appends_round ass : forall (m : multiScanNode R) w key cs, Forall append_ok ass -> Forall2 append_child ass cs -> GetKey w = Ok key -> key <> "" ->
  Forall (in_cells w) ass ->
  exists cs', nextChildren fuel cs (m, w) = ((m, appended key ass w), Ok (cs', match ass with [] => false | _ => true end)) /\ Forall2 append_child ass cs'.
Proof.
  induction ass as [|a ass IH]; intros m w key cs Hok Hcs Hk Hne Hin; inversion Hcs as [|? c ? cs0 (p & -> & Hp) Hcs0]; subst; [by exists []|].
  apply Forall_cons in Hok as [Hok1 Hok]. apply Forall_cons in Hin as [Hi1 Hin]. destruct (Hok1 p Hp) as [_ Hrun]. destruct (Hrun key) as (p' & E & Hp').
  set (w' := set_Fields w (<[a.(as_index) := VDocs (a.(as_docs) key)]> (Fields w))).
  assert (GetKey w' = Ok key) as Hk'.
  { unfold w', GetKey, get_field in *. destruct w as [h fs st]. cbn [Fields set_Fields] in *. unfold DocKeyFieldIndex in *.
    rewrite list_lookup_insert_ne; [done|]. unfold in_cells in Hi1. lia. }
  destruct (IH m w' key cs0 Hok Hcs0 Hk' Hne) as (cs' & E' & Hcs').
  { eapply Forall_impl; [exact Hin|]. intros x Hx. unfold in_cells, w' in *. destruct w. cbn in *. by rewrite length_insert. }
  exists (AppendChild a.(as_index) p' :: cs'). split; [|constructor; [by exists p'|done]].
  cbn [nextChildren]. unfold mbind at 1, nextChild. rewrite Hk, (proj2 (String.eqb_neq _ _) Hne), E. cbn [rbind].
  unfold set_field. rewrite decide_True by apply Hi1. fold w'. unfold mbind. rewrite E'. done.
Qed.

Lemma appends_end ass : forall (m : multiScanNode R) w cs, Forall2 append_child ass cs -> GetKey w = Ok "" ->
  nextChildren fuel cs (m, w) = ((m, w), Ok (cs, false)).
Proof.
  induction ass as [|a ass IH]; intros m w cs Hcs Hk; inversion Hcs as [|? c ? cs0 (p & -> & Hp) Hcs0]; subst; [done|].
  cbn [nextChildren]. unfold mbind, nextChild. rewrite Hk. cbn. by rewrite IH.
Qed.

Lemma initChildren_app cs1 cs2 (m m1 m2 : multiScanNode R) cs1' cs2' :
  initChildren (T:=T) (A:=A) cs1 m = (m1, Ok cs1') -> initChildren cs2 m1 = (m2, Ok cs2') -> initChildren (cs1 ++ cs2) m = (m2, Ok (cs1' ++ cs2')).
Proof.
  revert m cs1'. induction cs1 as [|c cs1 IH]; intros m cs1' E1 E2.
  - cbn in E1. unfold mret in E1. by simplify_eq.
  - cbn [initChildren app] in *. unfold mbind in *. destruct (initChild c m) as [m' [c'|e|]]; [|done..].
    destruct (initChildren cs1 m') as [m'' [cs'|e|]] eqn:E; [|done..]. unfold mret in *. simplify_eq. by rewrite (IH _ _ E E2).
Qed.

Lemma init_joins jss : forall r k last cs, Forall js_ok jss -> Forall2 join_child jss cs -> plan_inv r -> conf_ok (T:=R) (conf r) ->
  exists r' cs', initChildren cs (mkMulti r k last : multiScanNode R) = (mkMulti r' k last, Ok cs') /\ plan_inv r' /\ conf r' = conf r /\
    (jss <> [] -> plan_fresh r') /\ Forall2 join_child jss cs'.
Proof.
  induction jss as [|js jss IH]; intros r k last cs Hok Hcs Hi Hc; inversion Hcs as [|? c ? cs0 (t & -> & Ht & Hr) Hcs0]; subst; [by exists r, []|].
  apply Forall_cons in Hok as [Hok1 Hok].
  destruct (law_Init t Ht (reached_ok _ _ _ _ _ Hok1 _ Hr)) as (t' & Et & Hft & Hct).
  destruct (law_Init r Hi Hc) as (r1 & Er & Hfr & Hcr).
  destruct (IH r1 k last cs0 Hok Hcs0 (law_fresh_inv _ Hfr) ltac:(by rewrite Hcr)) as (r2 & cs2 & E2 & Hi2 & Hc2 & Hf2 & Hcs2).
  exists r2, (JoinChild js.(js_info) t' :: cs2). cbn [initChildren]. unfold mbind at 1, initChild, mbind at 1, on_sub, on_root. cbn [fst snd].
  rewrite Et. cbn [pn_Init sp_node par_multi multi_plan ms_scan fst snd]. rewrite Er. cbn. unfold mbind. rewrite E2.
  split; [done|]. split; [done|]. split; [congruence|]. split.
  - intros _. destruct jss as [|js' jss]; [|by apply Hf2]. inversion Hcs0; subst. cbn in E2. unfold mret in E2. by simplify_eq.
  - constructor; [|done]. exists t'. split; [done|]. split; [by apply law_fresh_inv|]. by rewrite Hct.
Qed.

Lemma init_appends ass : forall (m : multiScanNode R) cs, Forall append_ok ass -> Forall2 append_child ass cs ->
  exists cs', initChildren cs m = (m, Ok cs') /\ Forall2 append_child ass cs'.
Proof.
  induction ass as [|a ass IH]; intros m cs Hok Hcs; inversion Hcs as [|? c ? cs0 (p & -> & Hp) Hcs0]; subst; [by exists []|].
  apply Forall_cons in Hok as [Hok1 Hok]. destruct (Hok1 p Hp) as [(p' & E & Hp') _]. destruct (IH m cs0 Hok Hcs0) as (cs' & E' & Hcs').
  exists (AppendChild a.(as_index) p' :: cs'). cbn [initChildren]. unfold mbind, initChild. rewrite E. cbn. rewrite E'.
  split; [done|]. constructor; [by exists p'|done].
Qed.

Section Children.
Variables (jss : list joinSpec) (ass : list (appendSpec A)).

Record children_ok : Prop := {
  co_joins : Forall js_ok jss;
  co_some : jss <> [];
  co_readers : length jss = numReaders;
  co_appends : Forall append_ok ass;
  co_cells : (0 < mapping.(nextIndex))%nat;
}.

Definition key_of (d : Doc) : string := match GetKey d with Ok key => key | _ => "" end.

(** The document that the node makes of one of the scan. *)
Definition parallel_doc (d : Doc) : Doc := let w := bare (joined_all jss d) in appended (key_of w) ass w.

Record parallel_doc_ok (d : Doc) : Prop := {
  pd_length : length (Fields d) = mapping.(nextIndex);
  pd_joinable : joinable_all jss d;
  pd_key : key_of (joined_all jss d) <> "";
  pd_cells : Forall (in_cells d) ass;
}.

Hypothesis ok : children_ok.

#[local] Instance par_node : PlanNode (parallelNode (multiScanNode R) T A) := parallel_plan mapping fuel.

Lemma NewDoc_key : GetKey (NewDoc mapping) = Ok "".
Proof. pose proof (co_cells ok) as Hc. unfold GetKey, get_field, NewDoc. cbn. destruct (nextIndex mapping); [lia|done]. Qed.

Lemma key_of_bare d : key_of (joined_all jss d) <> "" -> GetKey (bare (joined_all jss d)) = Ok (key_of (bare (joined_all jss d))) /\ key_of (bare (joined_all jss d)) <> "".
Proof.
  destruct (joined_all jss d) as [h fs st]. unfold bare. cbn [Fields]. change (key_of (mkDoc false fs 0)) with (key_of (mkDoc h fs st)).
  intros Hk. split; [|done]. change (GetKey (mkDoc false fs 0)) with (GetKey (mkDoc h fs st)). unfold key_of in *. by destruct (GetKey _).
Qed.

Lemma parallel_open left : forall r last csj csa v, plan_open r left -> Forall parallel_doc_ok left ->
  Forall2 join_child jss csj -> Forall2 append_child ass csa ->
  yields (mkParallel (mkMulti r O last : multiScanNode R) (csj ++ csa) v) (parallel_doc <$> left) (Ok false).
Proof.
  destruct ok as [Hok Hne Hlen Hap Hcells].
  induction left as [|d left IH]; intros r last csj csa v Ho Hd Hj Ha; cbn [fmap list_fmap].
  - destruct (joins_end jss r last (NewDoc mapping) csj Hj Hne Hlen Ho) as (r' & E & _).
    apply yields_end; [|done]. cbn [pn_Next par_node parallel_plan]. unfold parallel_Next. cbn [p_children p_root].
    by rewrite (nextChildren_app _ _ _ _ _ _ _ _ _ E (appends_end ass _ _ _ Ha NewDoc_key)).
  - apply Forall_cons in Hd as [[Hl Hjd Hk Hin] Hd]. destruct (key_of_bare d Hk) as [Ek Hkne].
    destruct (joins_round jss r last left d (NewDoc mapping) csj Hok Hj Hne Hlen Ho Hjd) as (r' & csj' & E & Ho' & _ & Hj'); [|done..|].
    { cbn. by rewrite length_replicate. }
    destruct (appends_round ass (mkMulti r' O (Ok true)) _ _ csa Hap Ha Ek Hkne) as (csa' & E' & Ha').
    { eapply Forall_impl; [exact Hin|]. intros a Hca. unfold in_cells in *. cbn [bare Fields]. by rewrite joined_all_length. }
    set (n' := mkParallel (mkMulti r' O (Ok true) : multiScanNode R) (csj' ++ csa') (parallel_doc d)).
    change (parallel_doc d) with (pn_Value n'). apply (yields_doc _ n'); [|by apply IH].
    cbn [pn_Next par_node parallel_plan]. unfold parallel_Next. cbn [p_children p_root]. by rewrite (nextChildren_app _ _ _ _ _ _ _ _ _ E E').
Qed.

Lemma parallel_run r last csj csa v : plan_inv r -> conf_ok (T:=R) (conf r) -> Forall parallel_doc_ok (content (T:=R) (conf r)) ->
  Forall2 join_child jss csj -> Forall2 append_child ass csa ->
  exists p, pn_Init (mkParallel (mkMulti r O last : multiScanNode R) (csj ++ csa) v) = (p, Ok tt) /\
    yields p (parallel_doc <$> content (T:=R) (conf r)) (Ok false).
Proof.
  intros Hi Hc Hd Hj Ha. pose proof ok as [Hok Hne Hlen Hap Hcells].
  destruct (init_joins jss r O last csj Hok Hj Hi Hc) as (r' & csj' & E & _ & Hc' & Hf & Hj').
  destruct (init_appends ass (mkMulti r' O last) csa Hap Ha) as (csa' & E' & Ha').
  exists (mkParallel (mkMulti r' O last) (csj' ++ csa') v). split.
  - cbn [pn_Init par_node parallel_plan]. unfold parallel_Init. cbn [p_children p_root]. by rewrite (initChildren_app _ _ _ _ _ _ _ E E').
  - apply parallel_open; [|done..]. rewrite <- Hc' in *. by apply law_open; [apply Hf|].
Qed.
End Children.
End ParallelSpec.

(** ** The sources of a select ([addSubPlan])

    What a select reads from, when it began as a scan: the joins and appended plans that were
    added to it, and the readers of the multi scan if there is one. *)

Definition ErrFailedToFindScanNode : error := ErrNew "failed to find original scan node in plan graph".

Inductive subPlan (J : Type) := NewJoin (j : J) | NewAppend (index : nat).
Inductive childPlan (J : Type) := ChildScan | ChildJoin (j : J) | ChildAppend (index : nat).
Inductive source (J : Type) := SourceScan | SourceJoin (j : J) | SourceParallel (readers : option nat) (children : list (childPlan J)).
Arguments NewJoin {J}.
Arguments NewAppend {J}.
Arguments ChildScan {J}.
Arguments ChildJoin {J}.
Arguments ChildAppend {J}.
Arguments SourceScan {J}.
Arguments SourceJoin {J}.
Arguments SourceParallel {J}.

Section AddSubPlan.
Context {J : Type}.

(** A plan that appends has no scan, so that none is found in it next to a join; a parallel node
    that began with an appended plan has a nil multi scan, of which [Source] is called. *)
Definition addSubPlan (src : source J) (plan : subPlan J) : result (source J) :=
  match src, plan with
  | SourceScan, NewJoin j => Ok (SourceJoin j)
  | SourceScan, NewAppend index => Ok (SourceParallel None [ChildScan; ChildAppend index])
  | SourceJoin _, NewAppend _ => Err ErrFailedToFindScanNode
  | SourceJoin j, NewJoin j' => Ok (SourceParallel (Some 2%nat) [ChildJoin j; ChildJoin j'])
  | SourceParallel readers cs, NewAppend index => Ok (SourceParallel readers (cs ++ [ChildAppend index]))
  | SourceParallel None _, NewJoin _ => Panic
  | SourceParallel (Some n) cs, NewJoin j => Ok (SourceParallel (Some (Datatypes.S n)) (cs ++ [ChildJoin j]))
  end.

Definition addSubPlans (plans : list (subPlan J)) : result (source J) :=
  foldl (fun src plan => let! src := src in addSubPlan src plan) (Ok SourceScan) plans.

(** The children that read the scan of the multi scan. *)
Definition joins_in (cs : list (childPlan J)) : nat := length (List.filter (fun c => match c with ChildJoin _ => true | _ => false end) cs).

Definition child_of (plan : subPlan J) : childPlan J := match plan with NewJoin j => ChildJoin j | NewAppend index => ChildAppend index end.

(** The plans that a source holds, and its readers. *)
Definition source_holds (plans : list (subPlan J)) (src : source J) : Prop :=
  match src with
  | SourceScan => plans = []
  | SourceJoin j => plans = [NewJoin j]
  | SourceParallel None cs => cs = ChildScan :: (child_of <$> plans) /\ joins_in cs = O
  | SourceParallel (Some n) cs => cs = child_of <$> plans /\ joins_in cs = n /\ (2 <= n)%nat
  end.

Lemma joins_in_snoc cs c : joins_in (cs ++ [c]) = (joins_in cs + match c with ChildJoin _ => 1 | _ => 0 end)%nat.
Proof. unfold joins_in. rewrite List.filter_app, length_app. by destruct c. Qed.

Lemma addSubPlan_holds plans src plan src' : source_holds plans src -> addSubPlan src plan = Ok src' -> source_holds (plans ++ [plan]) src'.
Proof.
  destruct src as [|j|[n|] cs], plan as [j'|i]; cbn [addSubPlan]; intros Hh [= <-]; cbn [source_holds] in *; rewrite ?fmap_app.
  - by subst.
  - by subst.
  - subst. by split_and!.
  - destruct Hh as (-> & Hn & H2). rewrite joins_in_snoc, Hn. split_and!; [done|lia|lia].
  - destruct Hh as (-> & Hn & H2). rewrite joins_in_snoc, Hn. split_and!; [done|lia|lia].
  - destruct Hh as [-> Hn]. by rewrite joins_in_snoc, Hn.
Qed.

Lemma addSubPlans_snoc plans plan : addSubPlans (plans ++ [plan]) = let! src := addSubPlans plans in addSubPlan src plan.
Proof. unfold addSubPlans. by rewrite foldl_app. Qed.

Lemma addSubPlans_holds plans : forall src, addSubPlans plans = Ok src -> source_holds plans src.
Proof.
  induction plans as [|plan plans IH] using rev_ind; intros src E; [by injection E as <-|].
  rewrite addSubPlans_snoc in E. destruct (addSubPlans plans) as [src0| |]; [|done..]. cbn in E. by eapply addSubPlan_holds; [apply IH|].
Qed.
End AddSubPlan.

