(* ===== verification/JoinExamples.v ===== *)
(** * Examples of joins and parallel nodes

    Authors and their books over fetchers that hold the documents, the theorems of [Joins] and
    [Parallel] at these plans, and runs in which the plans depart from what they mean to do. *)

From S2P Require Import Prelude GoStd Keys Spans Store Crdt Values DocMap Connor Plan Desc PlanNodes Joins Parallel.

Module JoinExamples.

(** ** A fetcher that holds its documents by key *)

Definition in_span (s : span) (k : DataStoreKey) : bool := 
  String.eqb s.(Start).(CollectionID) k.(CollectionID) && (String.eqb s.(Start).(DocKey) "" || String.eqb s.(Start).(DocKey) k.(DocKey)).

Definition docs_in (docs : list (DataStoreKey * Doc)) (spans : list span) : list Doc :=
  concat ((fun s => (List.filter (fun e => in_span s e.1) docs).*2) <$> spans).

Definition list_fetcher (docs : list (DataStoreKey * Doc)) : DocFetcher (list Doc) := {|
  ft_Init f := ([], Ok tt);
  ft_Start spans f := (docs_in docs spans, Ok tt);
  ft_FetchNextDoc f := match f with [] => ([], Ok zeroDoc) | d :: f => (f, Ok d) end |}.

Lemma list_fetches docs l : Forall (fun d => Fields d <> []) l -> @fetches _ (list_fetcher docs) l l.
Proof. induction 1 as [|d l Hd _ IH]; [by eapply fetches_end|by eapply fetches_doc]. Qed.

Definition has_fields (d : Doc) : bool := match Fields d with [] => false | _ => true end.

Definition list_lawful (docs : list (DataStoreKey * Doc)) : @LawfulFetcher (list Doc) (list_fetcher docs).
Proof.
  refine {| ft_inv f := True; ft_ok spans := forallb has_fields (docs_in docs spans) = true; ft_docs := docs_in docs |}; [|done].
  intros f s _ Hs. exists [], (docs_in docs s). split_and!; [done..|]. apply list_fetches, Forall_forall. intros d Hd.
  rewrite forallb_forall in Hs. specialize (Hs d ltac:(by apply list_elem_of_In)). unfold has_fields in Hs. by destruct (Fields d).
Defined.

(** ** Authors and books *)

Definition no_schema : SchemaDescription := mkSchema "" "" "" [].
Definition Author : CollectionDescription := mkCollectionDescription "Author" 1 no_schema.
Definition Book : CollectionDescription := mkCollectionDescription "Book" 2 no_schema.

Definition name_all (names : list string) : DocumentMapping := foldl (fun m n => Add m (GetNextIndex m) n) NewDocumentMapping names.

Definition authorMap : DocumentMapping := name_all ["_key"; "name"; "published"; "favourite_id"; "favourite"; "_version"; "_deleted"].
Definition bookMap : DocumentMapping := name_all ["_key"; "title"; "author_id"; "_deleted"].

Definition author (key name favourite : string) : DataStoreKey * Doc :=
  (MakeDocKey Author key, mkDoc false [VString key; VString name; VNil; VString favourite; VNil; VNil; VNil] 1).
Definition book (key title by_ : string) : DataStoreKey * Doc :=
  (MakeDocKey Book key, mkDoc false [VString key; VString title; VString by_; VNil] 1).

Definition authors : list (DataStoreKey * Doc) := [author "bae-a" "Ann" "bae-2"; author "bae-b" "Bob" "bae-1"; author "bae-c" "Ann" "bae-9"].
Definition books : list (DataStoreKey * Doc) := [book "bae-1" "Dune" "bae-a"; book "bae-2" "Emma" "bae-b"; book "bae-3" "Ivan" "bae-a"].

(** The books of an author, and the favourite book of an author. *)
Definition published : joinInfo := mkJoin JoinMany authorMap "published" bookMap Book "author" 2.
Definition favourite : joinInfo := mkJoin JoinPrimary authorMap "favourite" bookMap Book "readers" 4.

(** The plan of the books. *)
#[local] Instance books_fetcher : DocFetcher (list Doc) := list_fetcher books.
#[local] Instance books_lawful : LawfulFetcher (list Doc) := list_lawful books.
#[local] Instance book_scan : SubPlan (scanNode (list Doc)) := scan_plan Book bookMap 10.
#[local] Instance book_scan_lawful : LawfulPlan (scanNode (list Doc)) := scan_lawful Book bookMap 10.
#[local] Instance book_plan : SubPlan (selectNode (scanNode (list Doc))) := select_plan None None 10.
#[local] Instance book_plan_lawful : LawfulPlan (selectNode (scanNode (list Doc))) := select_lawful None None 10.

Definition bookPlan : Type := selectNode (scanNode (list Doc)).
Definition book_state (filter : option conditions) : bookPlan := mkSelectNode (mkScan [] None filter zeroDoc) zeroDoc.
Definition book_conf (filter : option conditions) : config := mkConfig (collectionSpans Book) filter.

Definition keys_of (docs : list (DataStoreKey * Doc)) : list string := (fun e => e.1.(DocKey)) <$> docs.

(** [{name: {_eq: "Ann"}, published: {title: {_eq: "Dune"}}}] *)
Definition title_is (t : string) : val := VFilter [(PropertyIndex 1, VFilter [(Operator "_eq", VString t)])].
Definition ann_and_dune : option conditions :=
  Some [(PropertyIndex 1, VFilter [(Operator "_eq", VString "Ann")]); (PropertyIndex 2, title_is "Dune")].

(** A test for the configurations of the plan of the books. *)
Definition scan_okb (filter : option conditions) (d : Doc) : bool :=
  is_ok (markDeleted bookMap d) && is_ok (RunFilter (VDoc (marked bookMap d)) filter).

Definition book_okb (c : config) : bool :=
  let docs := docs_in books c.(c_spans) in
  forallb has_fields docs && (length docs <? 10)%nat && forallb (scan_okb c.(c_filter)) docs.

Lemma book_conf_ok c : book_okb c = true -> conf_ok (T:=bookPlan) c.
Proof.
  intros [[Hf Hl%Nat.ltb_lt]%andb_prop Hs]%andb_prop.
  assert (conf_ok (T:=scanNode (list Doc)) c) as Hscan.
  { split; [exact Hf|]. split; [exact Hl|]. apply Forall_forall. intros d Hd. rewrite forallb_forall in Hs.
    specialize (Hs d ltac:(by apply list_elem_of_In)). by apply andb_prop in Hs. }
  split; [done|]. split; [|by apply Forall_forall].
  eapply Nat.le_lt_trans; [|exact Hl]. cbn. unfold scan_content. destruct (c_spans c); [cbn; lia|].
  unfold scanned. eapply Nat.le_trans; [apply filter_length_le|]. by rewrite length_fmap.
Qed.

(** The joins of the authors, for the keys of the authors and of the books. *)
Definition join_okb (ji : joinInfo) (fk : nat) (c0 : config) (keys : list string) : bool :=
  book_okb c0 &&
  forallb (fun key => book_okb (keyed ji fk key c0) && (length (related (T:=bookPlan) ji c0 fk key) <? 10)%nat) keys.

Lemma join_okb_ok ji fk c0 keys : (ji.(ji_kind) <> JoinPrimary -> FirstIndexOfName ji.(ji_subMap) (ji.(ji_rootName) +:+ "_id") = Ok fk) ->
  at_most_one fk (default [] c0.(c_filter)) -> join_okb ji fk c0 keys = true -> join_ok (T:=bookPlan) ji 10 c0 fk (fun key => key ∈ keys).
Proof.
  intros Hfk Hone [H0 Hk]%andb_prop. split; [by auto|by apply book_conf_ok|]. intros key Hin. rewrite forallb_forall in Hk.
  specialize (Hk key ltac:(by apply list_elem_of_In)). apply andb_prop in Hk as [H1 H2%Nat.ltb_lt]. split; [by apply book_conf_ok|done].
Qed.

Lemma published_ok : join_ok (T:=bookPlan) published 10 (book_conf None) 2 (fun key => key ∈ keys_of authors).
Proof. apply join_okb_ok; [done|vm_compute; lia|vm_compute; reflexivity]. Qed.

Lemma favourite_ok : join_ok (T:=bookPlan) favourite 10 (book_conf None) 0 (fun key => key ∈ "bae-9" :: keys_of books).
Proof. apply join_okb_ok; [done|vm_compute; lia|vm_compute; reflexivity]. Qed.

Definition joinableb (ji : joinInfo) (keys : list string) (d : Doc) : bool :=
  (ji.(ji_index) <? length (Fields d))%nat && match doc_key ji d with Ok (Some k) => existsb (String.eqb k) keys | Ok None => true | _ => false end.

Lemma joinableb_ok ji keys d : joinableb ji keys d = true -> joinable ji (fun key => key ∈ keys) d.
Proof.
  intros [Hl%Nat.ltb_lt Hk]%andb_prop. split; [done|]. destruct (doc_key ji d) as [o| |]; [|done..]. exists o. split; [done|].
  intros k ->. apply existsb_exists in Hk as (k' & Hin & ->%String.eqb_eq). by apply list_elem_of_In.
Qed.

(** ** The books of the authors called Ann that wrote Dune *)

Definition authors_fetcher : DocFetcher (list Doc) := list_fetcher authors.
Definition authors_lawful : @LawfulFetcher (list Doc) authors_fetcher := list_lawful authors.

Definition a_book (b : DataStoreKey * Doc) : Doc := marked bookMap b.2.

Definition ann_joined : Doc :=
  mkDoc false [VString "bae-a"; VString "Ann"; VDocs [a_book (book "bae-1" "Dune" "bae-a"); a_book (book "bae-3" "Ivan" "bae-a")];
    VString "bae-2"; VNil; VNil; VBool false] 1.

Definition author_okb (d : Doc) : bool :=
  joinableb published (keys_of authors) d &&
  forallb (fun e => is_ok (entry_result (VDoc (join_doc (T:=bookPlan) published (book_conf None) 2 d)) e)) (default [] ann_and_dune).

Lemma authors_query_ok :
  @query_ok (list Doc) authors_fetcher authors_lawful bookPlan _ _ Author authorMap published 10 (book_conf None) 2 (fun key => key ∈ keys_of authors) ann_and_dune None.
Proof.
  split.
  - vm_compute. reflexivity.
  - vm_compute. lia.
  - apply Forall_forall. intros d Hd. assert (forallb (fun d => is_ok (markDeleted authorMap d)) (docs_in authors (collectionSpans Author)) = true) as Ha
      by (vm_compute; reflexivity). rewrite forallb_forall in Ha. by apply Ha, list_elem_of_In.
  - exact published_ok.
  - split; [repeat constructor; by eexists|]. cbn. apply NoDup_cons. split; [set_solver|]. apply NoDup_singleton.
  - apply Forall_forall. intros d Hd.
    assert (forallb author_okb (marked authorMap <$> docs_in authors (collectionSpans Author)) = true) as Ha by (vm_compute; reflexivity).
    rewrite forallb_forall in Ha. specialize (Ha d ltac:(by apply list_elem_of_In)). apply andb_prop in Ha as [H1 H2]. split_and!; [by apply joinableb_ok| |done].
    apply Forall_forall. intros e He. rewrite forallb_forall in H2. by apply H2, list_elem_of_In.
Qed.

Lemma select_join_scan_witness :
  exists p, @pn_Init _ (@sp_node _ (@query_plan (list Doc) authors_fetcher bookPlan _ Author authorMap published 10 ann_and_dune None))
      (query_state published ann_and_dune [] (book_state None)) = (p, Ok tt) /\
    @yields _ (@sp_node _ (@query_plan (list Doc) authors_fetcher bookPlan _ Author authorMap published 10 ann_and_dune None)) p [ann_joined] (Ok false).
Proof.
  exact (@select_join_scan (list Doc) authors_fetcher authors_lawful bookPlan _ _ Author authorMap published 10 (book_conf None) 2 (fun key => key ∈ keys_of authors)
    ann_and_dune None [] (book_state None) authors_query_ok I I eq_refl).
Defined.

(** ** Books, favourite and version of every author *)

(** A plan that appends the version of a document. *)
Record versionNode := mkVersions { v_key : string; v_left : list Doc; v_value : Doc }.

Definition version_of (key : string) : list Doc := [mkDoc false [VString ("cid of " +:+ key)] 1].

#[local] Instance version_plan : AppendPlan versionNode := {|
  ap_node := {|
    pn_Init n := (mkVersions n.(v_key) (version_of n.(v_key)) n.(v_value), Ok tt);
    pn_Next n := match n.(v_left) with
                 | [] => (n, Ok false)
                 | d :: ds => (mkVersions n.(v_key) ds d, Ok true)
                 end;
    pn_Value := v_value |};
  ap_Spans spans n := mkVersions (match spans with s :: _ => s.(Start).(DocKey) | [] => n.(v_key) end) n.(v_left) n.(v_value) |}.

Definition author_joins : list joinSpec :=
  [mkJoinSpec published (book_conf None) 2 (fun key => key ∈ keys_of authors);
   mkJoinSpec favourite (book_conf None) 0 (fun key => key ∈ "bae-9" :: keys_of books)].

Definition author_appends : list (appendSpec versionNode) := [mkAppendSpec 5 version_of (fun _ => True)].

#[local] Instance author_scan : SubPlan (scanNode (list Doc)) := @scan_plan (list Doc) authors_fetcher Author authorMap 10.

Definition author_scan_lawful : @LawfulPlan (scanNode (list Doc)) author_scan := @scan_lawful (list Doc) authors_fetcher authors_lawful Author authorMap 10.

Lemma author_children_ok : children_ok (T:=bookPlan) authorMap 10 2 author_joins author_appends.
Proof.
  split; [|done|done| |vm_compute; lia].
  - apply Forall_cons. split; [exact published_ok|]. apply Forall_singleton. exact favourite_ok.
  - apply Forall_singleton. intros n _. split; [by eexists|]. intros key. by eexists.
Qed.

Fixpoint joinable_allb (jss : list (joinSpec * list string)) (d : Doc) : bool :=
  match jss with
  | [] => true
  | (js, keys) :: jss => joinableb js.(js_info) keys d && joinable_allb jss (js_doc (T:=bookPlan) js d)
  end.

Lemma joinable_allb_ok jss d : Forall (fun p => p.1.(js_key_ok) = fun key => key ∈ p.2) jss ->
  joinable_allb jss d = true -> joinable_all (T:=bookPlan) jss.*1 d.
Proof.
  intros Hj. revert d. induction Hj as [|[js keys] jss Hjs _ IH]; intros d; [done|]. cbn in Hjs |- *.
  intros [H1 H2]%andb_prop. split; [rewrite Hjs; by apply joinableb_ok|by apply IH].
Qed.

Definition parallel_okb (d : Doc) : bool :=
  (length (Fields d) =? nextIndex authorMap)%nat && joinable_allb (zip author_joins [keys_of authors; "bae-9" :: keys_of books]) d &&
  negb (String.eqb (key_of (joined_all (T:=bookPlan) author_joins d)) "") && (5 <? length (Fields d))%nat.

Lemma parallel_okb_ok d : parallel_okb d = true -> parallel_doc_ok (T:=bookPlan) authorMap author_joins author_appends d.
Proof.
  intros [[[Hl%Nat.eqb_eq Hj]%andb_prop Hk%negb_true_iff%String.eqb_neq]%andb_prop H5%Nat.ltb_lt]%andb_prop. split; [done| |done|].
  - apply (joinable_allb_ok (zip author_joins [keys_of authors; "bae-9" :: keys_of books]) d); [|done]. by repeat constructor.
  - apply Forall_singleton. unfold in_cells. cbn. lia.
Qed.

Definition author_state : scanNode (list Doc) := mkScan [] None None zeroDoc.

Definition author_nodes : list (child bookPlan versionNode) :=
  [JoinChild published (book_state None); JoinChild favourite (book_state None); AppendChild 5 (mkVersions "" [] zeroDoc)].

Definition versioned (key name : string) (written : list Doc) (likes : string) (liked : val) : Doc :=
  mkDoc false [VString key; VString name; VDocs written; VString likes; liked; VDocs (version_of key); VBool false] 0.

Definition dune : Doc := a_book (book "bae-1" "Dune" "bae-a").
Definition emma : Doc := a_book (book "bae-2" "Emma" "bae-b").
Definition ivan : Doc := a_book (book "bae-3" "Ivan" "bae-a").


(** ** Departures *)

(** The documents of a plan, with the result that ends them. *)
Fixpoint run {N} (node : PlanNode N) (k : nat) (n : N) : list Doc * result bool :=
  match k with
  | O => ([], Panic)
  | Datatypes.S k =>
      match pn_Next n with
      | (n, Ok true) => let '(docs, r) := run node k n in (pn_Value n :: docs, r)
      | (_, r) => ([], r)
      end
  end.

Definition start {N} (node : PlanNode N) (n : N) : list Doc * result bool :=
  match pn_Init n with (n, Ok _) => run node 10 n | (_, Err e) => ([], Err e) | (_, Panic) => ([], Panic) end.

(** The select of the authors with a join. *)
Definition query (ji : joinInfo) (filter : option conditions) (t : bookPlan) : list Doc * result bool :=
  start (@sp_node _ (@query_plan (list Doc) authors_fetcher bookPlan _ Author authorMap ji 10 filter None)) (query_state ji filter [] t).

Definition is_dune : FilterKey * val := (PropertyIndex 2, title_is "Dune").
Definition dune_in_and : option conditions := Some [(Operator "_and", VList [VFilter [is_dune]])].

(** The books by Bob. *)
Definition by_bob : option conditions := Some [(PropertyIndex 2, VFilter [(Operator "_eq", VString "bae-b")])].

Definition cell (i : nat) (d : Doc) : val := default VNil (Fields d !! i).

(** A fetcher that cannot be started. *)
Definition broken : DocFetcher (list Doc) := {|
  ft_Init f := (f, Ok tt);
  ft_Start _ f := (f, match f with [] => Ok tt | _ => Err ErrClosed end);
  ft_FetchNextDoc f := ([zeroDoc], Ok zeroDoc) |}.

Definition broken_query (ji : joinInfo) : list Doc * result bool :=
  start (@sp_node _ (@join_plan (scanNode (list Doc)) author_scan _ (scanNode (list Doc)) (@scan_plan _ broken Book bookMap 10) ji 10))
    (mkJoinNode author_state (mkScan [] None None zeroDoc) zeroDoc).

End JoinExamples.
